(* ===== verification/_CoqProject ===== *)
-Q . S2P
Prelude.v
Ints.v
Str.v
Contracts.v
Money.v
SampleLib.v
OfferInputs.v
OfferConditions.v
OfferAmounts.v
OfferValidate.v
OfferEvaluate.v
Wafer.v
EndpointMatch.v
Features.v
Streaming.v
Serving.v
Routing.v
Utf8.v
Sse.v
Multipart.v
Records.v
R2.v
Llm.v
SseDecode.v
OpenAiWire.v
AnthropicWire.v
Ssrf.v
ChatStream.v
Lifecycle.v
Effects.v
Columns.v
TableMachine.v
MemoryDb.v
Ghost.v
Orders.v
OrderSafety.v
Subscriptions.v
Interleaving.v
History.v
Failures.v
DbRead.v
Crud.v
Messages.v
Traces.v
ChatRoutes.v
ChatSafety.v
RequestLog.v
AuthRepo.v
AuthTail.v
Csrf.v
Refresh.v
Rotation.v
RotationProtocol.v
RefreshSafety.v
RateLimit.v
Lease.v
ProviderOps.v
StripeEvents.v
Authenticate.v
ApiKeySafety.v
Files.v
Claims.v
ObjectRows.v
FilesSafety.v
Shares.v
ShareSafety.v
ConfigVars.v
Variables.v
VariableAdmin.v
VariableSafety.v
BootPrecedence.v
Pipeline.v
PipelineSafety.v
