(* ===== verification/Prelude.v ===== *)
(** * Verification of the impresspress core

    impresspress is a platform of blocks (authentication, products and payments,
    files, messages, an LLM gateway, a development sandbox) behind one router,
    on native servers, Cloudflare Workers and in the browser.  Its own logic is
    the crate [crates/impresspress-core]; the paths below are relative to
    [src/crates/impresspress-core/src/].  This library models the parts of that
    crate that decide something: what an order costs, who may call which block,
    how a byte stream becomes LLM frames, and what happens to an order while
    webhooks, refunds and retries write to it at once.

    ** How the code is modelled

    - A Rust function that can fail is a function into [outcome]: [Ok], [Err] and
      [Panic], the last for divisions by zero, failed [expect]s and the like;
      [?] is the bind.  Early returns are [err_if].
    - Integers are [Z] with their width checked where the source checks it
      ([checked_add in_i64], [saturating_sub], [as u32]): [Ints.v].
    - A string is its UTF-8 bytes; the methods that work on characters cut it
      into encodings first: [Str.v], [Utf8.v].
    - A [HashMap] or [BTreeMap] is a [gmap]; a [Vec] is a list.
    - An asynchronous handler is a [prog]: database calls with continuations.  A
      pool of handlers interleaves at the calls and every call may fail, a
      failed write even after it was applied: [Effects.v].
    - Loops over lists are structural.  The fuel of [feed_loop] and [drain_loop]
      is the length of the remaining input, and every turn consumes a byte; of
      [normalize_loop] the scale, which every turn decreases; the three attempts
      of the compare-and-swap loops are the source's own bound.  The theorems
      about them ([run_chunking_invariant], [parse_spec],
      [order_writers_refine]) hold of the functions with that fuel.

    Other crates are parameters: [JsonNumbers], [JsonScalars] and [Chrono]
    (serde_json numbers and parsing, dates), [DebugFmt] ([{:?}] of a string),
    [Endpoints], [Messages], [BlockInfos] (the wafer runtime), [Sha256],
    [HexEncode], [TokenCrypto], [UrlParse], [GateJson], [PercentDecode],
    [Instants], [IsoFormat] (instants as text), [JwtVerify], [IpText] (addresses),
    [WebhookHost] (base64, JSON of bytes), [NetSecurity] (URLs and address
    classes), [HashOrder], [HttpText], the JSON readings and writings of the LLM
    and messages bodies ([Floats], [OpenAiJson], [OpenAiFrames], [AnthropicJson],
    [AnthropicEvents], [MessagesBodies], [ChatBodies], [ChunkJson]),
    [Pagination], the metadata keys of the codec and percent-encoding
    ([ResponseMeta], [PathEncode]), the type by a file's extension
    ([mime_for_key]), what the blocks declare of their configuration ([Catalogue]),
    the bodies, process environment and assets the variable endpoints read
    ([VariableServices]), the text of errors ([ErrorText]),
    and [Backend] (how a database evaluates a filter); what the crypto, configuration,
    clock, model and other-block services answer is left open ([service]).  Classes
    ending in [Laws] state the documented behaviour a theorem relies on;
    [SampleLib.v], [MemoryDb.v] and the ends of the files give concrete
    instances, on which the witnesses run.

    ** The files

    Pricing ([blocks/products/]):
    - [Contracts.v] - [contracts.rs]: offers, components, conditions, previews.
    - [Money.v] - [money.rs]: exact decimals; parsing and formatting are exact
      and inverse, conversion to minor units is exact.
    - [OfferInputs.v], [OfferConditions.v], [OfferAmounts.v], [OfferValidate.v],
      [OfferEvaluate.v] - [offer_pricing.rs]: input validation, conditions, the
      seven amount rules, offer validation, evaluation.  The theorems: an
      accepted input has its declared type and bounds and public callers cannot
      set hidden inputs; the evaluator of conditions agrees with strong Kleene
      logic over independently read tests; tiered prices equal a unit-by-unit
      reference; a quote is exactly priced and summed; validation is enough for
      evaluation never to panic, and to fail only for reasons of the request;
      the stored order of components is irrelevant.

    Orders and subscriptions ([blocks/products/repo/]):
    - [Records.v] - [util.rs]: typed access to database rows.
    - [Lifecycle.v] - [contracts.rs], [repo/mod.rs]: statuses and the rule that
      orders subscription events; delivery order is irrelevant.
    - [Effects.v], [Columns.v], [TableMachine.v]: the database calls, the
      interleaving semantics, the runs of one handler and their calls ([ran]), a rely-guarantee rule ([pool_safe]) and its
      instance for a table whose rows store the state of an abstract machine
      (class [Machine]).
    - [Orders.v] - [repo/purchases.rs]: the writers; [OrderSafety.v]: they refine
      the order machine [order_step] in every interleaving, so a paid order
      stays paid, refunds only grow, and a refund that answers success is
      durable.  [mark_checkout_failed] is modelled and left out of the pool: it
      is an unguarded write, made while nobody can pay the order yet.
    - [Subscriptions.v] - [repo/subscriptions.rs]: the platform projection; the
      end of a subscription is final.

    Leased Stripe work ([blocks/products/stripe.rs], [repo/provider_operations.rs]):
    - [Lease.v]: the abstract machine of a row that is work under a lease with a
      bounded number of attempts, the class [LeaseTable] of tables that store
      such rows, and the rule for their compare-and-set ([safe_lease_cas]).
    - [ProviderOps.v] - the queue of provider operations: in every interleaving
      a settled operation is never open again, the attempts on record stay within
      the budget, every lease counts one up from the row its worker had read, and
      an acknowledged completion is durable.  [stale_claim_repeats_attempt] is a
      run in which a slow worker, whose reading is out of date, is granted an
      attempt a second time.
    - [StripeEvents.v] - the webhook: what a signature has to prove, the ledger
      of events, the replay.  An event is acknowledged only when it is durably
      processed, the row of a processed event is never changed again, claims are
      counted like those of the queue, a lease excludes others for 300 seconds.  The side effects of the event types are the
      parameter [dispatch], a program that writes other tables ([avoids]).

    Access ([endpoint_match.rs], [features.rs], [routing.rs]):
    - [Wafer.v]: what the code uses of the runtime.
    - [EndpointMatch.v]: path templates, dispatch, declared levels: matching
      equals its segment-wise reading, dispatch and gate agree, declaration
      order cannot weaken a level.
    - [Features.v]: block enablement and the seed planner.
    - [Routing.v]: [route_to_block] never hands over a request its tier or
      declared level refuses, for any order of the table; what pages offer is
      what the router serves.

    Failures and records ([blocks/errors.rs], [blocks/crud.rs], [http.rs],
    [db_read.rs]):
    - [Failures.v]: error codes, the classifier of database failures and the
      answers built on it; what a client sees of a failure does not depend on
      the backend's text, and an unfinished credential check never counts as a
      bad credential.
    - [DbRead.v]: bounded and keyset-paged reads; a walk misses no row that
      stays, under interference, and answers every row when nobody writes, unless
      a read fails.
    - [Crud.v]: record handlers with ownership; the owner-checked ones write
      only rows of their caller and do not reveal the rows of others.

    Sign-in ([blocks/auth/], [blocks/auth_ui/api/], [csrf.rs]):
    - [AuthRepo.v] - the rows of [repo/tokens.rs], [repo/sessions.rs],
      [repo/users.rs], [platform_state/user_roles.rs]; [AuthTail.v] - lifetimes,
      token minting, establishing and ending a login family
      ([blocks/auth/mod.rs]); [Refresh.v] - the refresh, logout and device
      revocation handlers.
    - [Csrf.v] - [csrf.rs]: what a request proves about where it came from.
    - [Rotation.v], [RotationProtocol.v], [RefreshSafety.v]: the calls these
      handlers make follow a protocol, an abstract specification of rotation
      ([allowed], [follows]); for every pool of handlers that follow it a family
      has at most one live token, and ending a family is final for every token
      that any handler hands out.  The retention sweep, which deletes expired
      rows, is not in the pool.

    The pipeline ([pipeline.rs], with [streaming.rs], [http.rs], [ui/mod.rs]):
    - [Pipeline.v]: [handle_request], composed of the parts above: [prepare] is
      everything up to the block ([authenticate], [discovery], the origin policy,
      [route]), [audited] the tail that settles the status and writes the row.
    - [PipelineSafety.v]: what a block may rely on
      ([only_admitted_requests_reach_blocks]), for any handlers beside it; and
      discovery tells a caller of exactly the endpoints the router serves them,
      for blocks on a built-in route of their own name.

    Rate limits ([blocks/rate_limit.rs]):
    - [RateLimit.v]: override syntax, counting windows, eviction, client networks;
      bounds on what a client is allowed per window while its own counter is not
      evicted, the eviction order, and one bucket per client network.

    Credentials and the audit log ([pipeline.rs], [blocks/auth/],
    [platform_state/request_logs.rs]):
    - [Authenticate.v]: access tokens and API keys, minting and revocation;
      [ApiKeySafety.v]: no key outlives the credential that minted it.
    - [RequestLog.v]: what an audit row says of a request; capability values in
      a path are never logged, and an error storm writes boundedly many rows.
    - [Interleaving.v], [History.v]: the rules for pools of handlers these
      proofs share, for invariants and for facts about the past.

    LLM ([llm_wire/], [blocks/llm/], [ssrf.rs]):
    - [Sse.v] (with [Utf8.v]): network chunking cannot be observed; and the
      book-keeping of a dropped oversized frame, which goes wrong after three
      line feeds in a row.  [SseDecode.v]: a decoder over it.
    - [Llm.v]: requests, chunks, providers.  [OpenAiWire.v], [AnthropicWire.v]:
      the encoders and stream decoders of the protocols; tool calls are started
      before they are completed and none stays open, block tables stay bounded.
    - [Ssrf.v]: which targets a provider request may reach, redirects included.
    - [ChatStream.v] - [providers/service.rs]: a chat from its request to the
      items of its channel; a reply that is text and stays below the decoder's cap
      ([intact]) is the decoding of its bytes however they arrive, and a clean end
      means a whole reply.
    - [Traces.v]: runs of a handler and the requests the rest of the system sees
      ([comes_to]).  [ChatRoutes.v], [ChatSafety.v] - [routes/chat.rs],
      [routes/streaming.rs]: turns are stored before the model is asked, and a
      reply is published only once it is stored.

    Messages ([blocks/messages/]):
    - [Messages.v]: the service and its endpoints; threads are private to their
      owner, and the history a chat reads is the oldest page of its thread.

    Files ([blocks/files/], [multipart.rs], [streaming.rs]):
    - [Multipart.v] - [multipart.rs]: the parser of browser uploads; it takes
      exactly the file out of a body that is built the way browsers build one.
    - [Streaming.v] - [streaming.rs]: body caps, the framing of downloads, upload
      parts.  [Serving.v] - [files/serving.rs]: the headers of user objects, which
      leave a browser nothing to run on the application's origin.
    - [Files.v] - [files/storage/], [files/repo/objects.rs], [files/quota.rs]:
      uploads, deletes, downloads, the sweep of stale reservations.
    - [Claims.v]: the abstract bookkeeping of the upload protocol (objects, blobs,
      claims, what a handler knows and may delete) and its steps;
      [ObjectRows.v]: it holds of the table and of storage, with a rule per call;
      [FilesSafety.v]: every handler keeps it, so a stored object has its bytes
      whatever interleaves and fails; and two runs in which an object is lost
      although nothing in storage was.  [Ghost.v]: the rule for pools whose
      handlers carry such bookkeeping.
    - [Shares.v] - [files/share.rs], [files/repo/shares.rs], the sharing half of
      [files/cloud.rs]: share links, from the request that creates one to the
      public request that opens it.  [ShareSafety.v]: a cap bounds the downloads
      a link serves in every interleaving, a link that has ended or was revoked
      before the request serves nothing, and no link outlives the ceiling.
    - [R2.v] - [impresspress-cloudflare/src/storage.rs]: streamed uploads into
      R2 commit a whole body or nothing, and succeed in a bucket that refuses
      only what it must.

    Configuration ([config_vars.rs], [util.rs], [platform_state/], [blocks/admin/]):
    - [ConfigVars.v]: which keys are declared, secret or the runtime's own, how a
      key is spelled, the rules of values; the server's check of a key accepts
      exactly what the pattern of the form for new variables matches.
    - [Variables.v] - [platform_state/variables.rs]: the rows of stored
      configuration, their seeding from the process environment, the upgrade
      gate and its pins, minted secrets, repaired flags, the audited release of
      pins.  [VariableAdmin.v] - [blocks/admin/ops.rs], [settings.rs],
      [blocks/config.rs]: what an administrator's requests do to those rows, the
      configuration block's write, the seeding of shared variables.
      [VariableSafety.v]: the value an administrator stored, and its owner, survive
      (but for a stale URL of a built-in asset, which seeding replaces) every interleaving of boots, seeders, bulk releases and requests
      for other keys, and every boot that finishes answers that value; a run in
      which a boot that read the row first overwrites a concurrent edit.
      [BootPrecedence.v]: the precedence of environment, stored values and edits as
      a function on a table of entries, and that a boot that runs alone, without
      failing calls, implements it.

    Shared: this file (outcomes, tactics), [Ints.v], [Str.v], [SampleLib.v],
    [MemoryDb.v].

    ** Not modelled

    Pages and their HTML, which decide nothing beyond what the router gates; the
    Stripe client, checkout creation and the arms of single event types, calls of
    an HTTP service around the modelled writers; SQL migrations, whose behaviour
    is the database's; the cryptography under sessions, tokens and passwords; the
    catalogue and bucket handlers and the quota endpoints, plain record reads and writes over
    [Crud.v]'s rules; the sandbox, tickets, vector, signal and
    email blocks; the administration of users, roles, grants, blocks and logs (but
    for the repositories named above); and the platform crates (native, Cloudflare, browser)
    but for [R2.v], which adapt services of their hosts. *)
From Stdlib Require Export ZArith Lia Ascii.
From Stdlib Require Import String.
From stdpp Require Export base numbers list strings gmap sorting.

#[global] Set Warnings "-notation-overridden".
Open Scope Z_scope.

#[global] Arguments String.eqb : simpl never.
#[global] Arguments Ascii.eqb : simpl never.

(** ** Outcomes of Rust functions

    [Ok] and [Err] are the constructors of [Result]; [Panic] is the third way a
    Rust call can end (a division by zero, an [expect] on an error, an index
    out of range).  [?] is the monadic bind. *)
Inductive outcome (E A : Type) : Type :=
| Ok (a : A)
| Err (e : E)
| Panic.
Arguments Ok {E A} a.
Arguments Err {E A} e.
Arguments Panic {E A}.

#[global] Instance outcome_ret {E} : MRet (outcome E) := fun A a => Ok a.
#[global] Instance outcome_bind {E} : MBind (outcome E) := fun A B f m =>
  match m with Ok a => f a | Err e => Err e | Panic => Panic end.
#[global] Instance outcome_fmap {E} : FMap (outcome E) := fun A B f m =>
  match m with Ok a => Ok (f a) | Err e => Err e | Panic => Panic end.

#[global] Instance outcome_eq_dec {E A} `{EqDecision E, EqDecision A} :
  EqDecision (outcome E A).
Proof. solve_decision. Defined.

(** [Result::map_err], [Option::ok_or_else], and the early return
    [if b { return Err(e) }]. *)
Definition map_err {E E' A} (f : E -> E') (m : outcome E A) : outcome E' A :=
  match m with Ok a => Ok a | Err e => Err (f e) | Panic => Panic end.

Definition ok_or {E A} (o : option A) (e : E) : outcome E A :=
  match o with Some a => Ok a | None => Err e end.

Definition err_if {E} (b : bool) (e : E) : outcome E unit :=
  if b then Err e else Ok tt.

(** [Option::map(f).transpose()] *)
Definition transpose_map {E A B} (f : A -> outcome E B) (o : option A)
  : outcome E (option B) :=
  match o with
  | None => Ok None
  | Some a => b ← f a; Ok (Some b)
  end.

Definition is_ok {E A} (m : outcome E A) : bool :=
  match m with Ok _ => true | _ => false end.

Lemma is_ok_exists {E A} (m : outcome E A) : is_ok m = true -> exists a, m = Ok a.
Proof. destruct m; [eauto|done..]. Qed.

(** A call that cannot end in a panic. *)
Definition no_panic {E A} (m : outcome E A) : Prop := m <> Panic.

Section OutcomeLemmas.
Context {E A B : Type}.
Implicit Types (m : outcome E A) (f : A -> outcome E B).

Lemma bind_ok m f b :
  m ≫= f = Ok b <-> exists a, m = Ok a /\ f a = Ok b.
Proof. destruct m; cbn; naive_solver. Qed.

Lemma bind_err m f e :
  m ≫= f = Err e <-> m = Err e \/ exists a, m = Ok a /\ f a = Err e.
Proof. destruct m; cbn; naive_solver. Qed.

Lemma no_panic_bind m f :
  no_panic m -> (forall a, m = Ok a -> no_panic (f a)) -> no_panic (m ≫= f).
Proof. unfold no_panic. destruct m; cbn; naive_solver. Qed.

Lemma no_panic_Ok (a : A) : no_panic (E:=E) (Ok a).
Proof. discriminate. Qed.

Lemma no_panic_mret (a : A) : no_panic (E:=E) (mret a).
Proof. discriminate. Qed.

Lemma no_panic_Err (e : E) : no_panic (A:=A) (Err e).
Proof. discriminate. Qed.

Lemma ok_or_ok (o : option A) (e : E) a : ok_or o e = Ok a <-> o = Some a.
Proof. destruct o; cbn; naive_solver. Qed.

Lemma no_panic_ok_or (o : option A) (e : E) : no_panic (ok_or o e).
Proof. by destruct o. Qed.

Lemma err_if_ok b (e : E) u : err_if b e = Ok u <-> b = false.
Proof. destruct b, u; cbn; naive_solver. Qed.

Lemma no_panic_err_if b (e : E) : no_panic (err_if b e).
Proof. by destruct b. Qed.

End OutcomeLemmas.

Section Transpose.
Context {E A B : Type}.

Lemma no_panic_transpose (f : A -> outcome E B) o :
  (forall a, no_panic (f a)) -> no_panic (transpose_map f o).
Proof.
  intros Hf. destruct o as [a|]; cbn; [|done].
  specialize (Hf a). unfold no_panic in *. destruct (f a); cbn; congruence.
Qed.

Lemma transpose_map_ok (f : A -> outcome E B) o r :
  transpose_map f o = Ok r <->
  (o = None /\ r = None) \/ exists a b, o = Some a /\ f a = Ok b /\ r = Some b.
Proof.
  destruct o as [a|]; simpl transpose_map.
  - unfold transpose_map. rewrite bind_ok. split.
    + intros (b & Hb & [= <-]). eauto 10.
    + intros [[? _]|(a' & b & [= <-] & Hf & ->)]; [done|eauto].
  - split; [intros [= <-]; auto|]. intros [[_ ->]|(?&?&?&_)]; done.
Qed.
End Transpose.

Lemma map_err_ok {E E' A} (g : E -> E') (m : outcome E A) a :
  map_err g m = Ok a <-> m = Ok a.
Proof. destruct m; cbn; naive_solver. Qed.

Lemma no_panic_map_err {E E' A} (g : E -> E') (m : outcome E A) :
  no_panic m -> no_panic (map_err g m).
Proof. unfold no_panic. destruct m; cbn; congruence. Qed.

Create HintDb outcome.
#[export] Hint Resolve no_panic_Ok no_panic_mret no_panic_Err no_panic_ok_or no_panic_err_if
  no_panic_map_err no_panic_transpose : outcome.

Lemma and_iff_compat_l_dep (P Q R : Prop) : (P -> (Q <-> R)) -> (P /\ Q <-> P /\ R).
Proof. tauto. Qed.

(** [inv_ok H] takes a successful run [H : m = Ok a] of a monadic program apart,
    one bind at a time. *)
Ltac inv_ok1 H :=
  lazymatch type of H with
  | Ok _ = Ok _ => injection H as H
  | Err _ = Ok _ => discriminate H
  | Panic = Ok _ => discriminate H
  | err_if _ _ = Ok _ => apply err_if_ok in H
  | ok_or _ _ = Ok _ => apply ok_or_ok in H
  | map_err _ _ = Ok _ => apply map_err_ok in H
  | (_ ≫= _) = Ok _ =>
      let x := fresh "x" in let Hx := fresh "Hok" in
      apply bind_ok in H as (x & Hx & H); try inv_ok1 Hx
  end.
Ltac inv_ok H := repeat inv_ok1 H.

(** [no_panic_tac] walks through a monadic program. *)
Ltac no_panic_tac :=
  repeat first
    [ progress (auto with outcome)
    | apply no_panic_bind; [|intros ? ?]
    | case_match; try done ].

(** [by_computation] decides a conjunction of closed arithmetic facts. *)
Ltac by_computation :=
  repeat split;
  first [ reflexivity
        | vm_compute; reflexivity
        | vm_compute; intros; first [discriminate | congruence] ].
