(* ===== verification/Ints.v ===== *)
(** * Machine integers and decimal numerals

    Rust's fixed-width integers as [Z] with their ranges written out, the
    checked and saturating operations the code uses, truncated division with
    its panic, and the decimal text of an integer ([to_string] / [parse]). *)
From Stdlib Require Import String.
From S2P Require Import Prelude.

(** ** Ranges *)
Definition i64_min : Z := -9223372036854775808.
Definition i64_max : Z := 9223372036854775807.
Definition u64_max : Z := 18446744073709551615.
Definition u32_max : Z := 4294967295.
Definition u16_max : Z := 65535.
Definition i128_min : Z := -170141183460469231731687303715884105728.
Definition i128_max : Z := 170141183460469231731687303715884105727.

Definition in_range (lo hi z : Z) : bool := (lo <=? z) && (z <=? hi).
Definition in_i64 : Z -> bool := in_range i64_min i64_max.
Definition in_u64 : Z -> bool := in_range 0 u64_max.
Definition in_u32 : Z -> bool := in_range 0 u32_max.
Definition in_i128 : Z -> bool := in_range i128_min i128_max.

(** [try_from] and the [checked_*] operations: the exact result when it is
    representable, [None] otherwise. *)
Definition checked (fits : Z -> bool) (z : Z) : option Z :=
  if fits z then Some z else None.

Definition checked_mul (fits : Z -> bool) (a b : Z) : option Z := checked fits (a * b).
Definition checked_add (fits : Z -> bool) (a b : Z) : option Z := checked fits (a + b).
Definition checked_sub (fits : Z -> bool) (a b : Z) : option Z := checked fits (a - b).
Definition checked_pow (fits : Z -> bool) (a e : Z) : option Z := checked fits (a ^ e).

(** Unsigned [saturating_sub]. *)
Definition saturating_sub (a b : Z) : Z := Z.max 0 (a - b).

(** [a % b] and [a / b] truncate towards zero and panic on a zero divisor. *)
Definition rust_rem {E} (a b : Z) : outcome E Z :=
  if b =? 0 then Panic else Ok (Z.rem a b).
Definition rust_div {E} (a b : Z) : outcome E Z :=
  if b =? 0 then Panic else Ok (Z.quot a b).

Lemma in_range_spec lo hi z : in_range lo hi z = true <-> lo <= z <= hi.
Proof. unfold in_range. lia. Qed.

Lemma in_i64_spec z : in_i64 z = true <-> i64_min <= z <= i64_max.
Proof. apply in_range_spec. Qed.

Lemma in_u64_spec z : in_u64 z = true <-> 0 <= z <= u64_max.
Proof. apply in_range_spec. Qed.

Lemma in_i128_spec z : in_i128 z = true <-> i128_min <= z <= i128_max.
Proof. apply in_range_spec. Qed.

Lemma checked_some fits z r : checked fits z = Some r <-> r = z /\ fits z = true.
Proof. unfold checked. destruct (fits z); naive_solver. Qed.

Lemma checked_none fits z : checked fits z = None <-> fits z = false.
Proof. unfold checked. destruct (fits z); naive_solver. Qed.

Lemma rust_rem_ok {E} a b r :
  rust_rem (E:=E) a b = Ok r <-> b <> 0 /\ r = Z.rem a b.
Proof. unfold rust_rem. destruct (Z.eqb_spec b 0); naive_solver. Qed.

Lemma no_panic_rem {E} a b : b <> 0 -> no_panic (rust_rem (E:=E) a b).
Proof. unfold rust_rem, no_panic. destruct (Z.eqb_spec b 0); naive_solver. Qed.

Lemma no_panic_div {E} a b : b <> 0 -> no_panic (rust_div (E:=E) a b).
Proof. unfold rust_div, no_panic. destruct (Z.eqb_spec b 0); naive_solver. Qed.

(** [int_ranges] unfolds every width so that [lia] can use it. *)
Ltac int_ranges :=
  unfold in_i64, in_u64, in_u32, in_i128, in_range, i64_min, i64_max, u64_max,
    u32_max, u16_max, i128_min, i128_max in *.

(** ** Decimal digits *)
Definition digit_of_Z (d : Z) : ascii := ascii_of_N (48 + Z.to_N d).
Definition Z_of_digit (c : ascii) : Z := Z.of_N (N_of_ascii c) - 48.
Definition is_ascii_digit (c : ascii) : bool :=
  (48 <=? Z.of_N (N_of_ascii c)) && (Z.of_N (N_of_ascii c) <=? 57).

(** Digits of a non-negative number, most significant first; [fuel] counts
    digits, and [log2 n + 1] is always enough. *)
Fixpoint dec_aux (fuel : nat) (n : Z) (acc : string) : string :=
  match fuel with
  | O => acc
  | S f =>
      let acc := String.String (digit_of_Z (n mod 10)) acc in
      if n <? 10 then acc else dec_aux f (n / 10) acc
  end.

Definition dec (n : Z) : string := dec_aux (S (Z.to_nat (Z.log2 n))) n "".

(** [i64::to_string] (any signed width). *)
Definition z_to_string (z : Z) : string :=
  if z <? 0 then String.append "-" (dec (- z)) else dec z.

(** The number a digit string denotes, continuing from [acc]. *)
Fixpoint dec_value_from (acc : Z) (s : string) : Z :=
  match s with
  | EmptyString => acc
  | String.String c r => dec_value_from (10 * acc + Z_of_digit c) r
  end.
Definition dec_value : string -> Z := dec_value_from 0.

Fixpoint str_forall (p : ascii -> bool) (s : string) : bool :=
  match s with EmptyString => true | String.String c r => p c && str_forall p r end.

(** [str::parse] for an unsigned digit string at a signed width: non-empty,
    digits only, and in range. *)
Definition parse_digits (fits : Z -> bool) (s : string) : option Z :=
  if String.eqb s "" then None
  else if str_forall is_ascii_digit s then checked fits (dec_value s) else None.

(** [str::parse::<i64>]: an optional sign, then at least one digit. *)
Definition parse_i64 (s : string) : option Z :=
  match s with
  | String.String "-" r =>
      if String.eqb r "" then None
      else if str_forall is_ascii_digit r then checked in_i64 (- dec_value r) else None
  | String.String "+" r => parse_digits in_i64 r
  | _ => parse_digits in_i64 s
  end.

(** [str::parse::<u32>]: a leading plus is allowed. *)
Definition parse_u32 (s : string) : option Z :=
  match s with
  | String.String "+" s => parse_digits in_u32 s
  | _ => parse_digits in_u32 s
  end.

Lemma digit_of_Z_code d : 0 <= d < 10 -> Z.of_N (N_of_ascii (digit_of_Z d)) = 48 + d.
Proof.
  intros Hd. unfold digit_of_Z. rewrite N_ascii_embedding by lia. lia.
Qed.

Lemma Z_of_digit_of_Z d : 0 <= d < 10 -> Z_of_digit (digit_of_Z d) = d.
Proof. intros Hd. unfold Z_of_digit. rewrite digit_of_Z_code by done. lia. Qed.

Lemma is_digit_digit_of_Z d : 0 <= d < 10 -> is_ascii_digit (digit_of_Z d) = true.
Proof. intros Hd. unfold is_ascii_digit. rewrite digit_of_Z_code by done. lia. Qed.

Lemma is_ascii_digit_range c : is_ascii_digit c = true -> 0 <= Z_of_digit c <= 9.
Proof. unfold is_ascii_digit, Z_of_digit. lia. Qed.

(** stdpp blocks [simpl] on [String.append]. *)
Lemma str_app_cons c s t :
  String.append (String.String c s) t = String.String c (String.append s t).
Proof. done. Qed.

Lemma str_app_nil_l t : String.append "" t = t.
Proof. done. Qed.

Create HintDb str.
#[export] Hint Rewrite str_app_cons str_app_nil_l : str.
Ltac str_simpl := autorewrite with str; simpl; autorewrite with str.

Lemma str_forall_app p s t : str_forall p (String.append s t) = str_forall p s && str_forall p t.
Proof. induction s as [|c s IH]; str_simpl; [done|]. by rewrite IH, andb_assoc. Qed.

Lemma str_forall_impl p q s :
  (forall c, p c = true -> q c = true) -> str_forall p s = true -> str_forall q s = true.
Proof.
  intros Hpq. induction s as [|c s IH]; cbn; [done|].
  rewrite !andb_true_iff. intros [? ?]. eauto.
Qed.

Lemma dec_value_from_app acc s t :
  dec_value_from acc (String.append s t) = dec_value_from (dec_value_from acc s) t.
Proof. revert acc. induction s as [|c s IH]; intros acc; str_simpl; [done|]. apply IH. Qed.

Lemma str_length_app s t :
  String.length (String.append s t) = (String.length s + String.length t)%nat.
Proof. induction s as [|c s IH]; str_simpl; [done|]. by rewrite IH. Qed.

Lemma dec_value_from_acc s acc :
  dec_value_from acc s = acc * 10 ^ Z.of_nat (String.length s) + dec_value s.
Proof.
  unfold dec_value. revert acc.
  induction s as [|c s IH]; intros acc; cbn [dec_value_from String.length].
  - change (10 ^ Z.of_nat 0) with 1. lia.
  - rewrite IH, (IH (10 * 0 + _)), Nat2Z.inj_succ, Z.pow_succ_r by lia. ring.
Qed.

Lemma dec_value_app s t :
  dec_value (String.append s t) =
  dec_value s * 10 ^ Z.of_nat (String.length t) + dec_value t.
Proof. unfold dec_value at 1. by rewrite dec_value_from_app, dec_value_from_acc. Qed.

Lemma dec_value_bounds s :
  str_forall is_ascii_digit s = true ->
  0 <= dec_value s < 10 ^ Z.of_nat (String.length s).
Proof.
  induction s as [|c s IH]; cbn [str_forall String.length]; [cbn; lia|].
  rewrite andb_true_iff. intros [Hc Hs]. specialize (IH Hs).
  apply is_ascii_digit_range in Hc.
  unfold dec_value. cbn [dec_value_from]. rewrite dec_value_from_acc.
  rewrite Nat2Z.inj_succ, Z.pow_succ_r by lia. nia.
Qed.

(** A numeral with no superfluous leading zero. *)
Definition leading_nonzero (s : string) : Prop :=
  match s with EmptyString => False | String.String c _ => Z_of_digit c <> 0 end.

Lemma leading_nonzero_app s t : leading_nonzero s -> leading_nonzero (String.append s t).
Proof. by destruct s. Qed.

Lemma str_app_assoc s t u :
  String.append (String.append s t) u = String.append s (String.append t u).
Proof. induction s as [|c s IH]; str_simpl; [done|]. by rewrite IH. Qed.

Lemma str_app_nil_r s : String.append s "" = s.
Proof. induction s as [|c s IH]; str_simpl; [done|]. by rewrite IH. Qed.

(** What [dec_aux] prepends to its accumulator. *)
Lemma dec_aux_spec fuel n acc :
  0 <= n < 10 ^ Z.of_nat fuel ->
  exists s, dec_aux fuel n acc = String.append s acc /\
    str_forall is_ascii_digit s = true /\ dec_value s = n /\
    (fuel <> O -> s <> "" /\ (n <> 0 -> leading_nonzero s)).
Proof.
  revert n acc. induction fuel as [|f IH]; intros n acc Hn.
  { exists "". cbn in Hn |- *. repeat split; try done. unfold dec_value; cbn. lia. }
  rewrite Nat2Z.inj_succ, Z.pow_succ_r in Hn by lia.
  pose proof (Z.mod_pos_bound n 10 ltac:(lia)) as Hm.
  pose proof (Z.div_mod n 10 ltac:(lia)) as Hdm.
  cbn [dec_aux]. destruct (Z.ltb_spec n 10).
  - exists (String.String (digit_of_Z (n mod 10)) ""). simpl.
    rewrite Z.mod_small, is_digit_digit_of_Z by lia.
    unfold dec_value; cbn [dec_value_from]. rewrite Z_of_digit_of_Z by lia.
    repeat split; try done; lia.
  - destruct (IH (n / 10) (String.String (digit_of_Z (n mod 10)) acc)) as (s & -> & Hd & Hv & Hz).
    { split; [apply Z.div_pos; lia|]. apply Z.div_lt_upper_bound; lia. }
    exists (String.append s (String.String (digit_of_Z (n mod 10)) "")).
    assert (f <> O) as Hf by (intros ->; cbn in Hn; lia).
    destruct (Hz Hf) as (Hne & Hlead).
    rewrite str_app_assoc, str_forall_app, dec_value_app, Hv, Hd. simpl.
    rewrite is_digit_digit_of_Z by lia.
    unfold dec_value; cbn [dec_value_from]. rewrite Z_of_digit_of_Z by lia.
    change (10 ^ Z.of_nat 1) with 10.
    repeat split; try lia; [by destruct s|].
    intros _. apply leading_nonzero_app, Hlead. lia.
Qed.

Lemma log2_fuel n : 0 <= n -> n < 10 ^ Z.of_nat (S (Z.to_nat (Z.log2 n))).
Proof.
  intros Hn. rewrite Nat2Z.inj_succ, Z2Nat.id by apply Z.log2_nonneg.
  destruct (Z.eq_dec n 0) as [->|]; [done|].
  pose proof (Z.log2_spec n ltac:(lia)) as [_ H].
  eapply Z.lt_le_trans; [exact H|]. apply Z.pow_le_mono_l. lia.
Qed.

Lemma dec_spec n :
  0 <= n ->
  str_forall is_ascii_digit (dec n) = true /\ dec_value (dec n) = n /\
  dec n <> "" /\ (n <> 0 -> leading_nonzero (dec n)).
Proof.
  intros Hn. unfold dec.
  destruct (dec_aux_spec (S (Z.to_nat (Z.log2 n))) n "") as (s & -> & Hd & Hv & Hz).
  { split; [done|]. by apply log2_fuel. }
  rewrite str_app_nil_r. destruct Hz; auto.
Qed.

Lemma dec_digits n : 0 <= n -> str_forall is_ascii_digit (dec n) = true.
Proof. intros Hn. by apply dec_spec. Qed.
Lemma dec_value_dec n : 0 <= n -> dec_value (dec n) = n.
Proof. intros Hn. by apply dec_spec. Qed.
Lemma dec_nonempty n : 0 <= n -> dec n <> "".
Proof. intros Hn. by apply dec_spec. Qed.

(** The length of a numeral bounds its value, and conversely. *)
Lemma dec_length_le n k :
  0 <= n -> n < 10 ^ Z.of_nat k -> (0 < k)%nat -> (String.length (dec n) <= k)%nat.
Proof.
  intros Hn Hlt Hk. destruct (Z.eq_dec n 0) as [->|Hn0].
  { change (String.length (dec 0)) with 1%nat. lia. }
  destruct (dec_spec n Hn) as (Hd & Hv & Hne & Hl).
  specialize (Hl Hn0). destruct (dec n) as [|c r] eqn:Hs; [done|].
  cbn [leading_nonzero str_forall] in Hl, Hd.
  rewrite andb_true_iff in Hd. destruct Hd as [Hc Hr].
  apply is_ascii_digit_range in Hc. pose proof (dec_value_bounds r Hr) as [Hr0 _].
  unfold dec_value in Hv. cbn [dec_value_from] in Hv. rewrite dec_value_from_acc in Hv.
  cbn [String.length]. destruct (decide (S (String.length r) <= k)%nat) as [|Hgt]; [done|].
  exfalso. assert (10 ^ Z.of_nat k <= 10 ^ Z.of_nat (String.length r)).
  { apply Z.pow_le_mono_r; lia. }
  nia.
Qed.

(** [parse(to_string(n)) = n]. *)
Lemma parse_digits_dec fits n :
  0 <= n -> fits n = true -> parse_digits fits (dec n) = Some n.
Proof.
  intros Hn Hf. unfold parse_digits.
  destruct (String.eqb_spec (dec n) "") as [He|]; [by apply dec_nonempty in He|].
  rewrite dec_digits, dec_value_dec by done. unfold checked. by rewrite Hf.
Qed.

Lemma parse_digits_some fits s n :
  parse_digits fits s = Some n <->
  s <> "" /\ str_forall is_ascii_digit s = true /\ n = dec_value s /\ fits n = true.
Proof.
  unfold parse_digits. destruct (String.eqb_spec s ""); [naive_solver|].
  destruct (str_forall is_ascii_digit s); [|naive_solver].
  rewrite checked_some. naive_solver.
Qed.

Lemma parse_i64_range s z : parse_i64 s = Some z -> in_i64 z = true.
Proof.
  unfold parse_i64. intros H.
  assert (forall t, parse_digits in_i64 t = Some z -> in_i64 z = true) as Hd.
  { intros t Ht. by apply parse_digits_some in Ht as (_ & _ & _ & ?). }
  repeat case_match; try discriminate; eauto.
  by apply checked_some in H as [-> ?].
Qed.
