(* ===== verification/Str.v ===== *)
(** * Rust strings

    A [&str] / [String] is its UTF-8 bytes, a Rocq [string].  The operations
    below are the standard-library methods the modelled code calls; those that
    work on [char]s go through [split_chars], which cuts a well-formed UTF-8
    string into the encodings of its characters. *)
From Stdlib Require Import String.
From S2P Require Import Prelude Ints.

(** ** Bytes *)
Definition code (c : ascii) : Z := Z.of_N (N_of_ascii c).
Definition byte (z : Z) : ascii := ascii_of_N (Z.to_N z).
Definition bytes (l : list Z) : string := foldr (fun z s => String.String (byte z) s) "" l.

Definition is_ascii_uppercase (c : ascii) : bool := in_range 65 90 (code c).
Definition is_ascii_lowercase (c : ascii) : bool := in_range 97 122 (code c).
Definition is_ascii_alphabetic (c : ascii) : bool :=
  is_ascii_uppercase c || is_ascii_lowercase c.
Definition is_ascii_alphanumeric (c : ascii) : bool :=
  is_ascii_alphabetic c || is_ascii_digit c.
Definition is_ascii_control (c : ascii) : bool :=
  (code c <? 32) || (code c =? 127).
Definition is_ascii (c : ascii) : bool := code c <? 128.
(** Printable ASCII other than the space. *)
Definition is_ascii_graphic (c : ascii) : bool := in_range 33 126 (code c).

Definition ascii_upper (c : ascii) : ascii :=
  if is_ascii_lowercase c then byte (code c - 32) else c.
Definition ascii_lower (c : ascii) : ascii :=
  if is_ascii_uppercase c then byte (code c + 32) else c.

Fixpoint str_map (f : ascii -> ascii) (s : string) : string :=
  match s with EmptyString => "" | String.String c r => String.String (f c) (str_map f r) end.
Definition to_ascii_uppercase : string -> string := str_map ascii_upper.
Definition to_ascii_lowercase : string -> string := str_map ascii_lower.
Definition eq_ignore_ascii_case (s t : string) : bool :=
  String.eqb (to_ascii_lowercase s) (to_ascii_lowercase t).

Fixpoint str_exists (p : ascii -> bool) (s : string) : bool :=
  match s with EmptyString => false | String.String c r => p c || str_exists p r end.

(** [str::len], in bytes. *)
Definition str_len (s : string) : Z := Z.of_nat (String.length s).
Definition is_empty (s : string) : bool := String.eqb s "".

(** ** Characters *)
Definition is_continuation (c : ascii) : bool := in_range 128 191 (code c).

Definition starts_continuation (s : string) : bool :=
  match s with EmptyString => false | String.String c _ => is_continuation c end.

(** The encodings of the characters, in order; a continuation byte belongs to
    the character of the byte before it. *)
Fixpoint split_chars (s : string) : list string :=
  match s with
  | EmptyString => []
  | String.String b r =>
      match split_chars r with
      | c :: cs => if starts_continuation c then String.String b c :: cs
                   else String.String b "" :: c :: cs
      | [] => [String.String b ""]
      end
  end.

Definition concat_chars (l : list string) : string := foldr String.append "" l.

(** [s.chars().count()] *)
Definition chars_count (s : string) : Z := Z.of_nat (length (split_chars s)).

(** [char::is_whitespace]: the Unicode [White_Space] property. *)
Definition whitespace_chars : list string :=
  map bytes
    [[9]; [10]; [11]; [12]; [13]; [32]; [0xC2; 0x85]; [0xC2; 0xA0]; [0xE1; 0x9A; 0x80];
     [0xE2; 0x80; 0x80]; [0xE2; 0x80; 0x81]; [0xE2; 0x80; 0x82]; [0xE2; 0x80; 0x83];
     [0xE2; 0x80; 0x84]; [0xE2; 0x80; 0x85]; [0xE2; 0x80; 0x86]; [0xE2; 0x80; 0x87];
     [0xE2; 0x80; 0x88]; [0xE2; 0x80; 0x89]; [0xE2; 0x80; 0x8A]; [0xE2; 0x80; 0xA8];
     [0xE2; 0x80; 0xA9]; [0xE2; 0x80; 0xAF]; [0xE2; 0x81; 0x9F]; [0xE3; 0x80; 0x80]].
Definition is_whitespace (c : string) : bool := existsb (String.eqb c) whitespace_chars.

(** [char::is_control]: U+0000..U+001F and U+007F..U+009F. *)
Definition is_control (c : string) : bool :=
  match c with
  | String.String a EmptyString => is_ascii_control a
  | String.String a (String.String b EmptyString) =>
      (code a =? 0xC2) && in_range 0x80 0x9F (code b)
  | _ => false
  end.

Fixpoint drop_while {A} (p : A -> bool) (l : list A) : list A :=
  match l with [] => [] | x :: r => if p x then drop_while p r else l end.
Fixpoint drop_while_end {A} (p : A -> bool) (l : list A) : list A :=
  match l with
  | [] => []
  | x :: r => match drop_while_end p r with [] => if p x then [] else [x] | r' => x :: r' end
  end.

Definition trim_start (s : string) : string :=
  concat_chars (drop_while is_whitespace (split_chars s)).
Definition trim_end (s : string) : string :=
  concat_chars (drop_while_end is_whitespace (split_chars s)).
Definition trim (s : string) : string :=
  concat_chars (drop_while is_whitespace (drop_while_end is_whitespace (split_chars s))).

(** [trim_end_matches] / [trim_start_matches] for a character given by its
    encoding. *)
Definition trim_end_matches (c : string) (s : string) : string :=
  concat_chars (drop_while_end (String.eqb c) (split_chars s)).
Definition trim_start_matches (c : string) (s : string) : string :=
  concat_chars (drop_while (String.eqb c) (split_chars s)).

(** ** Prefixes, suffixes, search *)
Fixpoint strip_prefix (p s : string) : option string :=
  match p, s with
  | EmptyString, _ => Some s
  | String.String a p', String.String b s' =>
      if Ascii.eqb a b then strip_prefix p' s' else None
  | _, EmptyString => None
  end.
Definition starts_with (p s : string) : bool := bool_decide (is_Some (strip_prefix p s)).

Fixpoint strip_suffix (p s : string) : option string :=
  if String.eqb s p then Some ""
  else match s with
       | EmptyString => None
       | String.String c r => String.String c <$> strip_suffix p r
       end.
Definition ends_with (p s : string) : bool := bool_decide (is_Some (strip_suffix p s)).

(** [s.find(p)]: byte index of the first occurrence. *)
Fixpoint find (p s : string) : option nat :=
  if starts_with p s then Some O
  else match s with EmptyString => None | String.String _ r => S <$> find p r end.
Definition contains (p s : string) : bool := bool_decide (is_Some (find p s)).

(** [s.rfind(p)]: byte index of the last occurrence. *)
Fixpoint rfind (p s : string) : option nat :=
  match s with
  | EmptyString => if starts_with p s then Some O else None
  | String.String _ r =>
      match rfind p r with
      | Some i => Some (S i)
      | None => if starts_with p s then Some O else None
      end
  end.

(** [s[..n]] and [s[n..]] at a byte index. *)
Fixpoint str_take (n : nat) (s : string) : string :=
  match n, s with
  | S n, String.String c r => String.String c (str_take n r)
  | _, _ => ""
  end.
Fixpoint str_drop (n : nat) (s : string) : string :=
  match n, s with
  | S n, String.String _ r => str_drop n r
  | _, _ => s
  end.

(** [s.split(c)] for an ASCII separator: always at least one part. *)
Fixpoint split_on (c : ascii) (s : string) : list string :=
  match s with
  | EmptyString => [""]
  | String.String a r =>
      match split_on c r with
      | p :: ps => if Ascii.eqb a c then "" :: p :: ps else String.String a p :: ps
      | [] => [""]
      end
  end.

(** [s.split_once(c)] *)
Fixpoint split_once (c : ascii) (s : string) : option (string * string) :=
  match s with
  | EmptyString => None
  | String.String a r =>
      if Ascii.eqb a c then Some ("", r)
      else '(x, y) ← split_once c r; Some (String.String a x, y)
  end.

(** [s.rsplit_once(c)] *)
Fixpoint rsplit_once (c : ascii) (s : string) : option (string * string) :=
  match s with
  | EmptyString => None
  | String.String a r =>
      match rsplit_once c r with
      | Some (x, y) => Some (String.String a x, y)
      | None => if Ascii.eqb a c then Some ("", r) else None
      end
  end.

Fixpoint join (sep : string) (l : list string) : string :=
  match l with
  | [] => ""
  | [x] => x
  | x :: r => String.append x (String.append sep (join sep r))
  end.

Fixpoint repeat_char (c : ascii) (n : nat) : string :=
  match n with O => "" | S n => String.String c (repeat_char c n) end.

(** The [{:0width$}] format of a non-negative number. *)
Definition pad_zeros (width : nat) (s : string) : string :=
  String.append (repeat_char "0" (width - String.length s)) s.

(** ** Lemmas *)
Lemma code_range c : 0 <= code c < 256.
Proof. unfold code. pose proof (N_ascii_bounded c). lia. Qed.

Lemma code_inj c d : code c = code d -> c = d.
Proof.
  unfold code. intros H. rewrite <- (ascii_N_embedding c), <- (ascii_N_embedding d).
  f_equal. lia.
Qed.

Lemma code_byte z : 0 <= z < 256 -> code (byte z) = z.
Proof. intros Hz. unfold code, byte. rewrite N_ascii_embedding; lia. Qed.

Lemma str_len_nonneg s : 0 <= str_len s.
Proof. unfold str_len. lia. Qed.

Lemma str_len_app s t : str_len (String.append s t) = str_len s + str_len t.
Proof. unfold str_len. rewrite str_length_app. lia. Qed.

Lemma is_empty_spec s : is_empty s = true <-> s = "".
Proof. apply String.eqb_eq. Qed.

Lemma is_empty_false s : is_empty s = false <-> s <> "".
Proof. apply String.eqb_neq. Qed.

Lemma concat_chars_app l k :
  concat_chars (l ++ k) = String.append (concat_chars l) (concat_chars k).
Proof. induction l as [|x l IH]; simpl; [done|]. by rewrite IH, str_app_assoc. Qed.

Lemma concat_split_chars s : concat_chars (split_chars s) = s.
Proof.
  induction s as [|b r IH]; [done|]. simpl.
  destruct (split_chars r) as [|c cs] eqn:Hs; simpl in *; [by subst|].
  destruct (starts_continuation c); simpl; autorewrite with str; by rewrite IH.
Qed.

(** On ASCII text characters are bytes. *)
Lemma ascii_not_continuation c : is_ascii c = true -> is_continuation c = false.
Proof. unfold is_ascii, is_continuation, in_range. lia. Qed.

Lemma split_chars_ascii s :
  str_forall is_ascii s = true ->
  split_chars s = map (fun c => String.String c "") (list_ascii_of_string s).
Proof.
  induction s as [|b r IH]; simpl; [done|]. rewrite andb_true_iff. intros [Hb Hr].
  rewrite (IH Hr). destruct r as [|b' r]; [done|]. simpl in *.
  rewrite andb_true_iff in Hr. destruct Hr as [Hb' _].
  by rewrite (ascii_not_continuation b' Hb').
Qed.

Lemma chars_count_ascii s : str_forall is_ascii s = true -> chars_count s = str_len s.
Proof.
  intros Hs. unfold chars_count, str_len. rewrite split_chars_ascii, length_map by done.
  f_equal. clear. induction s; simpl; congruence.
Qed.

Lemma chars_count_le_len s : chars_count s <= str_len s.
Proof.
  unfold chars_count, str_len. apply Nat2Z.inj_le.
  induction s as [|b r IH]; simpl; [done|].
  destruct (split_chars r) as [|c cs]; simpl in *; [lia|].
  destruct (starts_continuation c); simpl; lia.
Qed.

Lemma graphic_not_whitespace c :
  is_ascii_graphic c = true -> is_whitespace (String.String c "") = false.
Proof.
  intros Hc. apply Bool.not_true_iff_false. intros Hw.
  apply existsb_exists in Hw as (w & Hin & Heq). apply String.eqb_eq in Heq. subst w.
  unfold is_ascii_graphic, in_range in Hc.
  repeat (destruct Hin as [Hin|Hin];
    [vm_compute in Hin; first [discriminate Hin | (injection Hin as <-; vm_compute in Hc; discriminate Hc)] |]).
  done.
Qed.

Lemma drop_while_none {A} (p : A -> bool) l :
  Forall (fun x => p x = false) l -> drop_while p l = l.
Proof. destruct 1 as [|x l Hx _]; simpl; [done|]. by rewrite Hx. Qed.

Lemma drop_while_end_none {A} (p : A -> bool) l :
  Forall (fun x => p x = false) l -> drop_while_end p l = l.
Proof.
  induction 1 as [|x l Hx _ IH]; simpl; [done|]. rewrite IH, Hx. by destruct l.
Qed.

Lemma drop_while_end_kept {A} (f : A -> bool) l x : f x = false -> drop_while_end f (l ++ [x]) = l ++ [x].
Proof. intros Hx. induction l as [|y l IH]; simpl; [by rewrite Hx|]. rewrite IH. by destruct l. Qed.

Lemma graphic_ascii c : is_ascii_graphic c = true -> is_ascii c = true.
Proof. unfold is_ascii_graphic, is_ascii, in_range. lia. Qed.

Lemma graphic_chars_not_whitespace s :
  str_forall is_ascii_graphic s = true ->
  Forall (fun c => is_whitespace c = false) (split_chars s).
Proof.
  intros Hs. rewrite split_chars_ascii by (eapply str_forall_impl, Hs; apply graphic_ascii).
  induction s as [|c s IH]; simpl in *; [constructor|].
  rewrite andb_true_iff in Hs. destruct Hs as [Hc Hs].
  constructor; [by apply graphic_not_whitespace|auto].
Qed.

(** Trimming leaves printable text without spaces alone. *)
Lemma trim_graphic s : str_forall is_ascii_graphic s = true -> trim s = s.
Proof.
  intros Hs. apply graphic_chars_not_whitespace in Hs. unfold trim.
  by rewrite drop_while_end_none, drop_while_none, concat_split_chars.
Qed.

Lemma digit_graphic c : is_ascii_digit c = true -> is_ascii_graphic c = true.
Proof. unfold is_ascii_digit, is_ascii_graphic, in_range, code. lia. Qed.

Lemma alphabetic_graphic c : is_ascii_alphabetic c = true -> is_ascii_graphic c = true.
Proof.
  unfold is_ascii_alphabetic, is_ascii_uppercase, is_ascii_lowercase, is_ascii_graphic, in_range.
  lia.
Qed.

Lemma strip_prefix_some p s t : strip_prefix p s = Some t <-> s = String.append p t.
Proof.
  revert s. induction p as [|a p IH]; intros s; simpl; autorewrite with str; [naive_solver|].
  destruct s as [|b s]; [by split|]. destruct (Ascii.eqb_spec a b) as [->|]; [|naive_solver].
  rewrite IH. naive_solver.
Qed.

Lemma strip_prefix_app p t : strip_prefix p (String.append p t) = Some t.
Proof. by apply strip_prefix_some. Qed.

Lemma starts_with_spec p s : starts_with p s = true <-> exists t, s = String.append p t.
Proof.
  unfold starts_with. rewrite bool_decide_eq_true.
  split; intros [t Ht]; exists t; by apply strip_prefix_some.
Qed.

Lemma strip_suffix_some p s t : strip_suffix p s = Some t <-> s = String.append t p.
Proof.
  revert t. induction s as [|c s IH]; intros t; simpl.
  - destruct (String.eqb_spec "" p) as [<-|Hne].
    + split; [intros [= <-]; done|]. by destruct t.
    + split; [done|]. destruct t; autorewrite with str; [congruence|done].
  - destruct (String.eqb_spec (String.String c s) p) as [<-|Hne].
    + split; [intros [= <-]; done|]. destruct t as [|d t]; autorewrite with str; [done|].
      intros [= -> Hs]. apply (f_equal String.length) in Hs.
      rewrite str_length_app in Hs. simpl in Hs. lia.
    + rewrite fmap_Some. setoid_rewrite IH. destruct t as [|d t]; autorewrite with str.
      * split; [intros (?&?&?); done|congruence].
      * naive_solver.
Qed.

Lemma ends_with_spec p s : ends_with p s = true <-> exists t, s = String.append t p.
Proof.
  unfold ends_with. rewrite bool_decide_eq_true.
  split; intros [t Ht]; exists t; by apply strip_suffix_some.
Qed.

(** ** Splitting and joining on a separator character *)
Definition no_char (c : ascii) (s : string) : Prop := str_forall (fun a => negb (Ascii.eqb a c)) s = true.

Lemma split_on_cons c s : exists p ps, split_on c s = p :: ps.
Proof.
  induction s as [|a s (p & ps & IH)]; simpl; [eauto|]. rewrite IH.
  destruct (Ascii.eqb a c); eauto.
Qed.

Lemma split_on_nonempty c s : split_on c s <> [].
Proof. destruct (split_on_cons c s) as (? & ? & ->). done. Qed.

Lemma split_on_no_char c s : Forall (no_char c) (split_on c s).
Proof.
  unfold no_char. induction s as [|a s IH]; simpl; [by repeat constructor|].
  destruct (split_on c s) as [|p ps]; [by repeat constructor|].
  inversion IH; subst. destruct (Ascii.eqb a c) eqn:E; constructor; simpl; auto.
  rewrite E. done.
Qed.

Lemma join_split_on c s : join (String.String c "") (split_on c s) = s.
Proof.
  induction s as [|a s IH]; [done|]. simpl.
  destruct (split_on_cons c s) as (p & ps & Hs). rewrite Hs in *.
  destruct (Ascii.eqb_spec a c) as [->|].
  - change (join (String.String c "") ("" :: p :: ps))
      with (String.append (String.String c "") (join (String.String c "") (p :: ps))).
    by rewrite IH.
  - by destruct ps; simpl in *; autorewrite with str; rewrite <- IH.
Qed.

Lemma split_on_no_sep c s : no_char c s -> split_on c s = [s].
Proof.
  unfold no_char. induction s as [|a s IH]; simpl; [done|].
  rewrite andb_true_iff, negb_true_iff. intros [Ha Hs]. by rewrite IH, Ha.
Qed.

Lemma split_on_app c s t :
  no_char c s -> split_on c (String.append s (String.String c t)) = s :: split_on c t.
Proof.
  unfold no_char. induction s as [|a s IH]; autorewrite with str; simpl.
  - intros _. destruct (split_on_cons c t) as (p & ps & ->).
    by destruct (Ascii.eqb_spec c c).
  - rewrite andb_true_iff, negb_true_iff. intros [Ha Hs]. by rewrite IH, Ha.
Qed.

Lemma split_on_join c l :
  l <> [] -> Forall (no_char c) l -> split_on c (join (String.String c "") l) = l.
Proof.
  intros Hne Hl. induction Hl as [|x l Hx Hl IH]; [done|].
  destruct l as [|y l]; [by apply split_on_no_sep|].
  change (join (String.String c "") (x :: y :: l))
    with (String.append x (String.String c (join (String.String c "") (y :: l)))).
  rewrite split_on_app by done. f_equal. by apply IH.
Qed.

(** ** Lengths *)
Lemma drop_while_suffix {A} (p : A -> bool) l : exists k, l = k ++ drop_while p l.
Proof.
  induction l as [|x l [k IH]]; simpl; [by exists []|].
  destruct (p x); [|by exists []]. exists (x :: k). simpl. congruence.
Qed.

Lemma drop_while_end_prefix {A} (p : A -> bool) l : exists k, l = drop_while_end p l ++ k.
Proof.
  induction l as [|x l [k IH]]; simpl; [by exists []|].
  destruct (drop_while_end p l) as [|y r] eqn:E.
  - destruct (p x); [by exists (x :: l)|]. exists l. done.
  - exists k. simpl in *. congruence.
Qed.

(** [trim] cuts a prefix and a suffix. *)
Lemma trim_infix s : exists a b, s = String.append a (String.append (trim s) b).
Proof.
  unfold trim.
  destruct (drop_while_end_prefix is_whitespace (split_chars s)) as [k Hk].
  destruct (drop_while_suffix is_whitespace (drop_while_end is_whitespace (split_chars s))) as [k' Hk'].
  exists (concat_chars k'), (concat_chars k).
  rewrite <- str_app_assoc, <- !concat_chars_app, <- Hk', <- Hk.
  symmetry. apply concat_split_chars.
Qed.

Lemma trim_len s : str_len (trim s) <= str_len s.
Proof.
  destruct (trim_infix s) as (a & b & Hs). rewrite Hs at 2.
  rewrite !str_len_app. pose proof (str_len_nonneg a). pose proof (str_len_nonneg b). lia.
Qed.

Lemma no_char_forall c p s :
  (forall a, p a = true -> a <> c) -> str_forall p s = true -> no_char c s.
Proof.
  intros Hp. apply str_forall_impl. intros a Ha. apply negb_true_iff.
  destruct (Ascii.eqb_spec a c); [|done]. by destruct (Hp a Ha).
Qed.

Lemma str_app_nil_inv s t : String.append s t = "" <-> s = "" /\ t = "".
Proof. destruct s; autorewrite with str; naive_solver. Qed.

(** ** Taking and dropping *)
Lemma str_take_drop n s : String.append (str_take n s) (str_drop n s) = s.
Proof.
  revert s. induction n as [|n IH]; intros [|c s]; simpl; autorewrite with str; try done.
  by rewrite IH.
Qed.

Lemma str_take_length n s : (n <= String.length s)%nat -> String.length (str_take n s) = n.
Proof.
  revert s. induction n as [|n IH]; intros [|c s]; simpl; intros; try lia.
  rewrite IH; lia.
Qed.

Lemma str_drop_length n s : String.length (str_drop n s) = (String.length s - n)%nat.
Proof. revert s. induction n as [|n IH]; intros [|c s]; simpl; auto. Qed.

Lemma str_forall_take_drop p n s :
  str_forall p s = true -> str_forall p (str_take n s) = true /\ str_forall p (str_drop n s) = true.
Proof.
  rewrite <- (str_take_drop n s) at 1. rewrite str_forall_app, andb_true_iff. done.
Qed.

Lemma repeat_char_length c n : String.length (repeat_char c n) = n.
Proof. induction n; simpl; auto. Qed.

Lemma repeat_char_forall p c n : p c = true -> str_forall p (repeat_char c n) = true.
Proof. intros Hc. induction n as [|n IH]; simpl; [done|]. by rewrite Hc. Qed.

(** Leading zeros do not change a numeral. *)
Lemma dec_value_zeros n s : dec_value (String.append (repeat_char "0" n) s) = dec_value s.
Proof.
  rewrite dec_value_app. enough (dec_value (repeat_char "0" n) = 0) as -> by lia.
  induction n as [|n IH]; [done|]. exact IH.
Qed.

Lemma digits_graphic s :
  str_forall is_ascii_digit s = true -> str_forall is_ascii_graphic s = true.
Proof. apply str_forall_impl, digit_graphic. Qed.

Lemma pad_zeros_spec width s :
  str_forall is_ascii_digit s = true ->
  str_forall is_ascii_digit (pad_zeros width s) = true /\
  dec_value (pad_zeros width s) = dec_value s /\
  String.length (pad_zeros width s) = Nat.max width (String.length s).
Proof.
  intros Hs. unfold pad_zeros. rewrite str_forall_app, Hs, repeat_char_forall by done.
  rewrite dec_value_zeros, str_length_app, repeat_char_length. repeat split. lia.
Qed.

(** ** The byte order of strings ([Ord for str], the order of a [BTreeMap]'s keys) *)
Definition str_le (a b : string) : Prop := String.compare a b <> Gt.
#[export] Instance str_le_dec : RelDecision str_le.
Proof. intros a b. unfold str_le. solve_decision. Defined.

Lemma ascii_compare_code a b : Ascii.compare a b = (code a ?= code b).
Proof. unfold Ascii.compare, code. symmetry. apply N2Z.inj_compare. Qed.

Lemma str_le_cons a s b t :
  str_le (String.String a s) (String.String b t) <-> code a < code b \/ a = b /\ str_le s t.
Proof.
  unfold str_le. simpl. rewrite ascii_compare_code.
  destruct (Z.compare_spec (code a) (code b)) as [Heq|?|?].
  - apply code_inj in Heq as ->. split; [by right|]. by intros [?|[_ ?]]; [lia|].
  - split; [by left|done].
  - split; [done|]. by intros [?|[-> _]]; [lia|lia].
Qed.

#[export] Instance str_le_total : Total str_le.
Proof.
  intros a. induction a as [|c a IH]; intros [|d b]; try (by left); try (by right).
  rewrite !str_le_cons. destruct (Z.lt_trichotomy (code c) (code d)) as [?|[Heq%code_inj|?]].
  - by left; left.
  - subst. destruct (IH b); [left|right]; by right.
  - by right; left.
Qed.

#[export] Instance str_le_trans : Transitive str_le.
Proof.
  intros a. induction a as [|c a IH]; intros [|d b] [|e f]; try done.
  rewrite !str_le_cons. intros [?|[-> ?]] [?|[-> ?]]; eauto; left; lia.
Qed.

#[export] Instance str_le_antisym : AntiSymm (=) str_le.
Proof.
  intros a. induction a as [|c a IH]; intros [|d b]; try done.
  rewrite !str_le_cons. intros [?|[-> ?]] [?|[? ?]]; subst; try lia. f_equal. by apply IH.
Qed.
