(* ===== verification/Contracts.v ===== *)
(** * Commerce contracts ([blocks/products/contracts.rs])

    The provider-neutral data of the pricing engine, with the source's fields.
    [serde_json::Value] and [chrono]'s dates are other crates' types: numbers
    and dates are abstract here, behind the two classes below. *)
From Stdlib Require Import String.
From S2P Require Import Prelude Ints Str.

(** ** Interfaces to other crates *)

(** [serde_json::Number]: what the code reads of it. *)
Class JsonNumbers := {
  Number : Type;
  number_to_string : Number -> string;
  number_as_i64 : Number -> option Z;
  number_from_i64 : Z -> Number;
  (** [as_i64] answers an [i64]. *)
  number_as_i64_range : forall n z, number_as_i64 n = Some z -> in_i64 z = true;
}.

(** [chrono::NaiveDate] and [NaiveDateTime], parsed and printed with the two
    formats the code uses ([%Y-%m-%d] and [%Y-%m-%dT%H:%M]); [Ord] and [Eq] of
    a date agree. *)
Class Chrono := {
  NaiveDate : Type;
  NaiveDateTime : Type;
  date_parse : string -> option NaiveDate;
  date_format : NaiveDate -> string;
  date_cmp : NaiveDate -> NaiveDate -> comparison;
  datetime_parse : string -> option NaiveDateTime;
  datetime_format : NaiveDateTime -> string;
  datetime_cmp : NaiveDateTime -> NaiveDateTime -> comparison;
}.

(** Documented behaviour of the other crates that the normal form relies on:
    an [i64] is read back from the number made of it, and a parsed date is read
    back from its text in the same format. *)
Class JsonNumberLaws (JN : JsonNumbers) := {
  number_i64_roundtrip : forall z, in_i64 z = true -> number_as_i64 (number_from_i64 z) = Some z;
}.
Class ChronoLaws (CH : Chrono) := {
  date_roundtrip : forall s x, date_parse s = Some x -> date_parse (date_format x) = Some x;
  datetime_roundtrip :
    forall s x, datetime_parse s = Some x -> datetime_parse (datetime_format x) = Some x;
}.

(** [{:?}] of a string ([str::escape_debug]), used in two messages only. *)
Class DebugFmt := debug_str : string -> string.

(** ** JSON values *)
Section Json.
Context {JN : JsonNumbers}.

Inductive Value : Type :=
| VNull
| VBool (b : bool)
| VNumber (n : Number)
| VString (s : string)
| VArray (l : list Value)
| VObject (fields : list (string * Value)).

Definition as_i64 (v : Value) : option Z :=
  match v with VNumber n => number_as_i64 n | _ => None end.
Definition as_bool (v : Value) : option bool :=
  match v with VBool b => Some b | _ => None end.
Definition as_str (v : Value) : option string :=
  match v with VString s => Some s | _ => None end.
Definition as_array (v : Value) : option (list Value) :=
  match v with VArray l => Some l | _ => None end.
End Json.

(** ** Enumerations *)
Inductive OfferMode := Payment | Subscription.
Inductive PricingModel := ModelFixed | ModelComponents.
Inductive RecurringInterval := Day | Week | Month | Year.
Inductive UsageType := Licensed | Metered.
Inductive BillingScheme := SchemePerUnit | Tiered.
Inductive TaxBehavior := Unspecified | Inclusive | Exclusive.
Inductive ShippingEstimateUnit := EstHour | EstDay | EstBusinessDay | EstWeek | EstMonth.
Inductive VariableKind :=
| KNumber | KInteger | KBoolean | KDate | KDateTime | KSelect | KMultiSelect | KText.
Inductive VariableVisibility := VisPublic | VisHidden | VisAdminOnly.
Inductive PackageRounding := RoundUp | RoundExact.

#[export] Instance offer_mode_eq_dec : EqDecision OfferMode.
Proof. solve_decision. Defined.
#[export] Instance recurring_interval_eq_dec : EqDecision RecurringInterval.
Proof. solve_decision. Defined.
#[export] Instance billing_scheme_eq_dec : EqDecision BillingScheme.
Proof. solve_decision. Defined.
#[export] Instance variable_kind_eq_dec : EqDecision VariableKind.
Proof. solve_decision. Defined.
#[export] Instance variable_visibility_eq_dec : EqDecision VariableVisibility.
Proof. solve_decision. Defined.

(** [VARIABLE_KEY_PATTERN] as [is_variable_key] checks it. *)
Definition is_variable_key (key : string) : bool :=
  negb (is_empty key) &&
  str_forall (fun b => is_ascii_alphanumeric b || Ascii.eqb b "_") key.

(** ** Offers *)
Section Offers.
Context {JN : JsonNumbers}.

Record VariableDefinition := {
  vd_key : string;
  vd_kind : VariableKind;
  vd_label : string;
  vd_help_text : string;
  vd_required : bool;
  vd_default_value : option Value;
  vd_allowed_values : list string;
  vd_minimum : option string;
  vd_maximum : option string;
  vd_step : option string;
  vd_maximum_length : option Z;
  vd_visibility : VariableVisibility;
  vd_sort_order : Z;
}.

Inductive Condition : Type :=
| Always
| All (conditions : list Condition)
| Any (conditions : list Condition)
| Not (condition : Condition)
| Present (input : string)
| Equals (input : string) (value : Value)
| NotEquals (input : string) (value : Value)
| GreaterThan (input : string) (value : Value)
| GreaterThanOrEqual (input : string) (value : Value)
| LessThan (input : string) (value : Value)
| LessThanOrEqual (input : string) (value : Value)
| In (input : string) (values : list Value)
| Contains (input : string) (value : Value).

(** Induction over the nested condition lists. *)
Section ConditionInd.
Variable P : Condition -> Prop.
Hypothesis HAlways : P Always.
Hypothesis HAll : forall cs, Forall P cs -> P (All cs).
Hypothesis HAny : forall cs, Forall P cs -> P (Any cs).
Hypothesis HNot : forall c, P c -> P (Not c).
Hypothesis HPresent : forall k, P (Present k).
Hypothesis HEquals : forall k v, P (Equals k v).
Hypothesis HNotEquals : forall k v, P (NotEquals k v).
Hypothesis HGt : forall k v, P (GreaterThan k v).
Hypothesis HGe : forall k v, P (GreaterThanOrEqual k v).
Hypothesis HLt : forall k v, P (LessThan k v).
Hypothesis HLe : forall k v, P (LessThanOrEqual k v).
Hypothesis HIn : forall k vs, P (In k vs).
Hypothesis HContains : forall k v, P (Contains k v).

Fixpoint condition_ind' (c : Condition) : P c :=
  let go := fix go (cs : list Condition) : Forall P cs :=
    match cs with
    | [] => @List.Forall_nil _ P
    | c :: cs => @List.Forall_cons _ P c cs (condition_ind' c) (go cs)
    end in
  match c with
  | Always => HAlways
  | All cs => HAll cs (go cs)
  | Any cs => HAny cs (go cs)
  | Not c => HNot c (condition_ind' c)
  | Present k => HPresent k
  | Equals k v => HEquals k v
  | NotEquals k v => HNotEquals k v
  | GreaterThan k v => HGt k v
  | GreaterThanOrEqual k v => HGe k v
  | LessThan k v => HLt k v
  | LessThanOrEqual k v => HLe k v
  | In k vs => HIn k vs
  | Contains k v => HContains k v
  end.
End ConditionInd.

Record PricingTier := {
  up_to : option Z;
  tier_unit_amount_minor : Z;
  tier_flat_amount_minor : Z;
}.

Inductive AmountRule : Type :=
| Fixed (unit_amount_minor : Z)
| PerUnit (input : string) (unit_amount_minor : Z)
| FlatPlusPerUnit (base_amount_minor : Z) (input : string) (unit_amount_minor : Z)
| Lookup (input : string) (prices : gmap string Z)
| Graduated (input : string) (tiers : list PricingTier)
| Volume (input : string) (tiers : list PricingTier)
| Package (input : string) (units_per_package : Z) (package_amount_minor : Z)
    (rounding : PackageRounding).

Inductive QuantityRule : Type :=
| QFixed (value : Z)
| QFromInput (input : string) (minimum : Z) (maximum : option Z).

Record ComponentRecurrence := {
  rec_interval : RecurringInterval;
  rec_interval_count : Z;
}.

Record OfferComponent := {
  comp_id : string;
  comp_key : string;
  comp_label : string;
  comp_description : string;
  comp_sort_order : Z;
  comp_required : bool;
  comp_amount : AmountRule;
  comp_quantity : QuantityRule;
  comp_condition : Condition;
  comp_recurrence : option ComponentRecurrence;
  comp_stripe_price_id : string;
  comp_metadata : gmap string Value;
}.

Record ShippingDeliveryEstimate := {
  est_minimum : option Z;
  est_maximum : option Z;
  est_unit : ShippingEstimateUnit;
}.

Record ShippingOption := {
  ship_display_name : string;
  ship_amount_minor : Z;
  ship_tax_behavior : TaxBehavior;
  ship_delivery_estimate : option ShippingDeliveryEstimate;
  ship_stripe_shipping_rate_id : string;
}.

Record CheckoutPolicy := {
  minimum_total_minor : option Z;
  maximum_total_minor : option Z;
  allow_promotion_codes : bool;
  automatic_tax : bool;
  collect_billing_address : bool;
  collect_shipping_address : bool;
  allowed_shipping_countries : list string;
  shipping_options : list ShippingOption;
  create_customer : bool;
  require_terms_consent : bool;
  trial_days : Z;
}.

Record Offer := {
  offer_id : string;
  offer_product_id : string;
  offer_version : Z;
  offer_name : string;
  offer_mode : OfferMode;
  offer_currency : string;
  offer_pricing_model : PricingModel;
  offer_recurring_interval : option RecurringInterval;
  offer_interval_count : Z;
  offer_usage_type : UsageType;
  offer_billing_scheme : BillingScheme;
  offer_tax_behavior : TaxBehavior;
  offer_variables : list VariableDefinition;
  offer_components : list OfferComponent;
  offer_checkout : CheckoutPolicy;
  offer_stripe_product_id : string;
  offer_stripe_price_id : string;
}.

(** ** Pricing previews *)
Record PricingPreviewRequest := {
  req_offer_id : string;
  req_quantity : Z;
  req_inputs : gmap string Value;
}.

Record ResolvedComponent := {
  rc_component_id : string;
  rc_key : string;
  rc_label : string;
  rc_included : bool;
  rc_required : bool;
  rc_unit_amount_minor : Z;
  rc_quantity : Z;
  rc_total_amount_minor : Z;
  rc_reason : string;
}.

Record MoneyBreakdown := {
  mb_currency : string;
  mb_subtotal_minor : Z;
  mb_discount_minor : Z;
  mb_tax_minor : Z;
  mb_shipping_minor : Z;
  mb_platform_fee_minor : Z;
  mb_total_minor : Z;
}.

Record PricingPreview := {
  pp_schema_version : Z;
  pp_offer_id : string;
  pp_offer_version : Z;
  pp_quantity : Z;
  pp_inputs : gmap string Value;
  pp_components : list ResolvedComponent;
  pp_amounts : MoneyBreakdown;
}.
End Offers.

Definition COMMERCE_SCHEMA_VERSION : Z := 1.
