(* ===== verification/Money.v ===== *)
(** * Money and currency ([blocks/products/money.rs])

    [Decimal], the one decimal type of the money path: an [i128] coefficient
    and a [u32] scale, kept normalised. *)
From Stdlib Require Import String.
From S2P Require Import Prelude Ints Str.

Definition MAX_DECIMAL_SCALE : Z := 9.

Definition normalize_currency (value : string) : outcome string string :=
  let value := trim value in
  if negb (str_len value =? 3) || negb (str_forall is_ascii_alphabetic value)
  then Err "currency must be a three-letter ISO code"
  else Ok (to_ascii_uppercase value).

Definition zero_decimal_currencies : list string :=
  ["BIF"; "CLP"; "DJF"; "GNF"; "JPY"; "KMF"; "KRW"; "MGA"; "PYG"; "RWF"; "UGX";
   "VND"; "VUV"; "XAF"; "XOF"; "XPF"].
Definition three_decimal_currencies : list string := ["BHD"; "JOD"; "KWD"; "OMR"; "TND"].

Definition currency_exponent (currency : string) : outcome string Z :=
  currency ← normalize_currency currency;
  Ok (if existsb (String.eqb currency) zero_decimal_currencies then 0
      else if existsb (String.eqb currency) three_decimal_currencies then 3
      else 2).

Record Decimal := mkDecimal { coefficient : Z; scale : Z }.

#[export] Instance decimal_eq_dec : EqDecision Decimal.
Proof. solve_decision. Defined.

Definition from_integer (value : Z) : Decimal := mkDecimal value 0.

(** The [while value.scale > 0 && value.coefficient % 10 == 0] loop; the scale
    itself bounds the iterations. *)
Fixpoint normalize_loop (fuel : nat) (d : Decimal) : Decimal :=
  match fuel with
  | O => d
  | S f =>
      if (0 <? scale d) && (Z.rem (coefficient d) 10 =? 0)
      then normalize_loop f (mkDecimal (Z.quot (coefficient d) 10) (scale d - 1))
      else d
  end.

Definition normalize (d : Decimal) : Decimal := normalize_loop (Z.to_nat (scale d)) d.

(** [usize as u32] *)
Definition as_u32 (z : Z) : Z := z mod (u32_max + 1).

Definition parse (input : string) : outcome string Decimal :=
  let input := trim input in
  let '(negative, unsigned) :=
    match strip_prefix "-" input with
    | Some value => (true, value)
    | None => (false, default input (strip_prefix "+" input))
    end in
  let parts := split_on "." unsigned in
  let whole := default "" (parts !! 0%nat) in
  let fraction := default "" (parts !! 1%nat) in
  _ ← err_if (bool_decide (is_Some (parts !! 2%nat))
              || (is_empty whole && is_empty fraction)
              || negb (str_forall is_ascii_digit whole)
              || negb (str_forall is_ascii_digit fraction))
        "must be a plain decimal number";
  let digits := String.append (if is_empty whole then "0" else whole) fraction in
  coefficient ← ok_or (parse_digits in_i128 digits) "number is too large";
  let coefficient := if negative : bool then - coefficient else coefficient in
  let value := normalize (mkDecimal coefficient (as_u32 (str_len fraction))) in
  _ ← err_if (MAX_DECIMAL_SCALE <? scale value)
        (String.append "must have at most "
           (String.append (dec MAX_DECIMAL_SCALE) " decimal places"));
  Ok value.

Definition aligned (self : Decimal) (to : Z) : outcome string Z :=
  _ ← err_if (to <? scale self)
        (String.append "value has more than " (String.append (dec to) " decimal places"));
  multiplier ← ok_or (checked_pow in_i128 10 (to - scale self)) "number is too large";
  ok_or (checked_mul in_i128 (coefficient self) multiplier) "number is too large".

Definition compare (self other : Decimal) : outcome string comparison :=
  let scale := Z.max (scale self) (scale other) in
  a ← aligned self scale;
  b ← aligned other scale;
  Ok (a ?= b).

Definition is_step_from (self base step : Decimal) : outcome string bool :=
  _ ← err_if (coefficient step <=? 0) "step must be greater than zero";
  let scale := Z.max (Z.max (scale self) (scale base)) (scale step) in
  a ← aligned self scale;
  b ← aligned base scale;
  difference ← ok_or (checked_sub in_i128 a b) "number is too large";
  s ← aligned step scale;
  r ← rust_rem difference s;
  Ok (r =? 0).

Definition multiply_minor (self : Decimal) (amount_minor : Z) : outcome string Z :=
  numerator ← ok_or (checked_mul in_i128 (coefficient self) amount_minor)
                "calculated amount is too large";
  denominator ← ok_or (checked_pow in_i128 10 (scale self)) "number is too large";
  r ← rust_rem numerator denominator;
  _ ← err_if (negb (r =? 0))
        "value does not resolve to a whole minor-unit amount; adjust the value or rate";
  q ← rust_div numerator denominator;
  ok_or (checked in_i64 q) "calculated amount is too large".

Definition as_u64 (self : Decimal) : option Z :=
  denominator ← checked_pow in_i128 10 (scale self);
  if (coefficient self <? 0) || negb (Z.rem (coefficient self) denominator =? 0)
  then None
  else checked in_u64 (Z.quot (coefficient self) denominator).

Definition canonical (self : Decimal) : string :=
  let sign := if coefficient self <? 0 then "-" else "" in
  let digits := dec (Z.abs (coefficient self)) in
  if scale self =? 0 then String.append sign digits
  else
    let scale := Z.to_nat (scale self) in
    let padded :=
      if (String.length digits <=? scale)%nat
      then String.append (repeat_char "0" (scale + 1 - String.length digits)) digits
      else digits in
    let split := (String.length padded - scale)%nat in
    String.append sign
      (String.append (str_take split padded) (String.append "." (str_drop split padded))).

Definition to_signed_minor (self : Decimal) (currency : string) : outcome string Z :=
  exponent ← currency_exponent currency;
  _ ← err_if (exponent <? scale self)
        (String.append "amount has more than "
           (String.append (dec exponent) " decimal places for the currency"));
  minor ← map_err (fun _ => "amount is too large") (aligned self exponent);
  ok_or (checked in_i64 minor) "amount is too large".

Definition to_minor (self : Decimal) (currency : string) : outcome string Z :=
  if coefficient self <? 0 then
    _ ← currency_exponent currency;
    Err "amount must not be negative"
  else to_signed_minor self currency.

Definition parse_amount_minor (input currency : string) : outcome string Z :=
  _ ← currency_exponent currency;
  d ← parse input;
  to_minor d currency.

Definition format_amount_minor (amount_minor : Z) (currency : string)
  : outcome string string :=
  exponent ← currency_exponent currency;
  if exponent =? 0 then Ok (z_to_string amount_minor)
  else
    let multiplier := 10 ^ exponent in
    let sign := if amount_minor <? 0 then "-" else "" in
    let absolute := Z.abs amount_minor in
    Ok (String.append sign
          (String.append (dec (absolute / multiplier))
             (String.append "."
                (pad_zeros (Z.to_nat exponent) (dec (absolute mod multiplier)))))).

(** ** Well-formed decimals and their value *)

(** The coefficient fits [i128], the scale is within the cap, and no trailing
    fractional zero is left. *)
Definition wf_decimal (d : Decimal) : Prop :=
  - i128_max <= coefficient d <= i128_max /\
  0 <= scale d <= MAX_DECIMAL_SCALE /\
  (0 < scale d -> Z.rem (coefficient d) 10 <> 0).

(** [c / 10^s] and [c' / 10^s'] are the same number. *)
Definition same_value (c s c' s' : Z) : Prop := c * 10 ^ s' = c' * 10 ^ s.

Lemma pow10_pos e : 0 <= e -> 0 < 10 ^ e.
Proof. intros. apply Z.pow_pos_nonneg; lia. Qed.

Lemma pow10_split a b : 0 <= a <= b -> 10 ^ b = 10 ^ (b - a) * 10 ^ a.
Proof. intros. rewrite <- Z.pow_add_r by lia. f_equal. lia. Qed.

Lemma rem_quot_10 c : Z.rem c 10 = 0 -> c = 10 * Z.quot c 10.
Proof. intros H. pose proof (Z.quot_rem' c 10). lia. Qed.

Definition normal (d : Decimal) : Prop :=
  0 <= scale d /\ (0 < scale d -> Z.rem (coefficient d) 10 <> 0).

Lemma normalize_loop_spec fuel d :
  0 <= scale d -> (Z.to_nat (scale d) <= fuel)%nat ->
  let d' := normalize_loop fuel d in
  normal d' /\ scale d' <= scale d /\
  coefficient d = coefficient d' * 10 ^ (scale d - scale d') .
Proof.
  revert d. induction fuel as [|f IH]; intros d Hs Hf; cbn [normalize_loop].
  - assert (scale d = 0) by lia. unfold normal. rewrite Z.sub_diag. cbn. lia.
  - destruct (0 <? scale d) eqn:Hpos; cbn [andb].
    2:{ unfold normal. rewrite Z.sub_diag. lia. }
    destruct (Z.eqb_spec (Z.rem (coefficient d) 10) 0) as [Hr|Hr].
    2:{ unfold normal. rewrite Z.sub_diag. lia. }
    destruct (IH (mkDecimal (Z.quot (coefficient d) 10) (scale d - 1))) as (Hn & Hle & Hc);
      cbn [scale coefficient] in *; [lia..|].
    split; [done|]. split; [lia|].
    rewrite (rem_quot_10 _ Hr), Hc at 1.
    replace (scale d - scale _) with (Z.succ (scale d - 1 - scale
      (normalize_loop f {| coefficient := Z.quot (coefficient d) 10; scale := scale d - 1 |})))
      by lia.
    rewrite Z.pow_succ_r by lia. ring.
Qed.

Lemma normalize_spec d :
  0 <= scale d ->
  normal (normalize d) /\ scale (normalize d) <= scale d /\
  coefficient d = coefficient (normalize d) * 10 ^ (scale d - scale (normalize d)).
Proof. intros. by apply normalize_loop_spec. Qed.

Lemma normalize_bounds d B :
  0 <= scale d -> - B <= coefficient d <= B -> - B <= coefficient (normalize d) <= B.
Proof.
  intros Hs HB. destruct (normalize_spec d Hs) as (_ & Hle & Hc).
  pose proof (pow10_pos (scale d - scale (normalize d)) ltac:(lia)). nia.
Qed.

Lemma normalize_same_value d :
  0 <= scale d ->
  same_value (coefficient (normalize d)) (scale (normalize d)) (coefficient d) (scale d).
Proof.
  intros Hs. destruct (normalize_spec d Hs) as ([Hn _] & Hle & Hc).
  unfold same_value. rewrite (pow10_split (scale (normalize d)) (scale d)) by lia.
  rewrite Hc. ring.
Qed.

(** Normal forms are unique: two normal decimals of the same value are equal. *)
Lemma normal_unique_le d d' :
  normal d -> normal d' -> scale d <= scale d' ->
  same_value (coefficient d) (scale d) (coefficient d') (scale d') -> d = d'.
Proof.
  intros [Hs Hd] [Hs' Hd'] Hle Hv. unfold same_value in Hv.
  rewrite (pow10_split (scale d) (scale d')), Z.mul_assoc in Hv by lia.
  apply Z.mul_reg_r in Hv; [|pose proof (pow10_pos (scale d)); lia].
  destruct (Z.eq_dec (scale d) (scale d')) as [Heq|Hne].
  - rewrite Heq, Z.sub_diag, Z.mul_1_r in Hv.
    destruct d, d'; cbn in *; congruence.
  - exfalso. apply Hd'; [lia|]. rewrite <- Hv.
    replace (scale d' - scale d) with (Z.succ (scale d' - scale d - 1)) by lia.
    rewrite Z.pow_succ_r by lia.
    replace (coefficient d * (10 * 10 ^ (scale d' - scale d - 1)))
      with (coefficient d * 10 ^ (scale d' - scale d - 1) * 10) by ring.
    apply Z.rem_mul. lia.
Qed.

Lemma normal_unique d d' :
  normal d -> normal d' ->
  same_value (coefficient d) (scale d) (coefficient d') (scale d') -> d = d'.
Proof.
  intros Hd Hd' Hv. destruct (Z.le_ge_cases (scale d) (scale d')).
  - by apply normal_unique_le.
  - symmetry. apply normal_unique_le; done.
Qed.

Lemma wf_normal d : wf_decimal d -> normal d.
Proof. unfold wf_decimal, normal. tauto. Qed.
Create HintDb money.
#[export] Hint Resolve wf_normal : money.

(** ** What [parse] accepts

    A numeral is an optional sign, digits, and optionally a point and more
    digits, with at least one digit in all. *)
Definition sign_text (sg : string) (neg : bool) : Prop :=
  sg = "-" /\ neg = true \/ (sg = "" \/ sg = "+") /\ neg = false.

Definition numeral_body (u w f : string) : Prop :=
  u = w /\ f = "" \/ u = String.append w (String.append "." f).

Definition numeral (t : string) (neg : bool) (w f : string) : Prop :=
  exists sg u, t = String.append sg u /\ sign_text sg neg /\ numeral_body u w f /\
    str_forall is_ascii_digit w = true /\ str_forall is_ascii_digit f = true /\
    (w <> "" \/ f <> "").

Definition signed (neg : bool) (n : Z) : Z := if neg then - n else n.

Definition split_sign (t : string) : bool * string :=
  match strip_prefix "-" t with
  | Some value => (true, value)
  | None => (false, default t (strip_prefix "+" t))
  end.

Lemma split_sign_text t neg u :
  split_sign t = (neg, u) -> exists sg, sign_text sg neg /\ t = String.append sg u.
Proof.
  unfold split_sign, sign_text.
  destruct (strip_prefix "-" t) as [v|] eqn:Hm.
  { apply strip_prefix_some in Hm. intros [= <- <-]. exists "-". auto. }
  destruct (strip_prefix "+" t) as [v|] eqn:Hp; simpl; intros [= <- <-].
  - apply strip_prefix_some in Hp. exists "+". auto.
  - exists "". auto.
Qed.

(** A body starts with a digit or a point, never with a sign. *)
Lemma body_no_sign u w f :
  numeral_body u w f -> str_forall is_ascii_digit w = true -> (w <> "" \/ f <> "") ->
  strip_prefix "-" u = None /\ strip_prefix "+" u = None.
Proof.
  intros Hu Hw Hne. destruct w as [|c w]; simpl in Hw.
  - destruct Hu as [[-> ->]| ->]; [naive_solver|done].
  - rewrite andb_true_iff in Hw. destruct Hw as [Hc _].
    assert (exists r, u = String.String c r) as [r ->].
    { destruct Hu as [[-> _]| ->]; [eauto|]. autorewrite with str. eauto. }
    simpl. destruct (Ascii.eqb_spec "-" c) as [<-|]; [done|].
    destruct (Ascii.eqb_spec "+" c) as [<-|]; done.
Qed.

Lemma split_sign_app sg neg u w f :
  sign_text sg neg -> numeral_body u w f -> str_forall is_ascii_digit w = true ->
  (w <> "" \/ f <> "") -> split_sign (String.append sg u) = (neg, u).
Proof.
  intros Hsg Hu Hw Hne. destruct (body_no_sign u w f Hu Hw Hne) as [Hm Hp].
  unfold split_sign. destruct Hsg as [[-> ->]|[[->| ->] ->]].
  - by rewrite (strip_prefix_app "-" u).
  - by rewrite str_app_nil_l, Hm, Hp.
  - change (strip_prefix "-" (String.append "+" u)) with (@None string).
    by rewrite (strip_prefix_app "+" u).
Qed.

Lemma digit_not_point a : is_ascii_digit a = true -> a <> "."%char.
Proof. intros Ha ->. done. Qed.

Definition part (i : nat) (u : string) : string := default "" (split_on "." u !! i).

Lemma body_split u w f :
  numeral_body u w f -> str_forall is_ascii_digit w = true -> str_forall is_ascii_digit f = true ->
  split_on "." u !! 2%nat = None /\ part 0 u = w /\ part 1 u = f.
Proof.
  intros Hu Hw Hf.
  apply (no_char_forall "." _ _ digit_not_point) in Hw.
  apply (no_char_forall "." _ _ digit_not_point) in Hf.
  unfold part. destruct Hu as [[-> ->]| ->].
  - by rewrite split_on_no_sep.
  - change (String.append "." f) with (String.String "." f).
    rewrite split_on_app, split_on_no_sep by done. done.
Qed.

Lemma split_body u :
  split_on "." u !! 2%nat = None -> numeral_body u (part 0 u) (part 1 u).
Proof.
  intros H2. pose proof (join_split_on "." u) as Hj. unfold numeral_body, part.
  destruct (split_on "." u) as [|w [|f [|? ?]]]; simpl in *; auto.
  discriminate.
Qed.

Lemma parse_digits_prefix_zero w f :
  str_forall is_ascii_digit w = true -> str_forall is_ascii_digit f = true ->
  parse_digits in_i128 (String.append (if is_empty w then "0" else w) f) =
  checked in_i128 (dec_value (String.append w f)).
Proof.
  intros Hw Hf. unfold parse_digits, is_empty.
  destruct (String.eqb_spec w "") as [->|Hne].
  - autorewrite with str. destruct (String.eqb_spec (String.String "0" f) ""); [done|].
    simpl. by rewrite Hf.
  - destruct (String.eqb_spec (String.append w f) "") as [H|].
    { apply str_app_nil_inv in H. naive_solver. }
    by rewrite str_forall_app, Hw, Hf.
Qed.

Lemma plain_decimal_check u :
  (bool_decide (is_Some (split_on "." u !! 2%nat)) || (is_empty (part 0 u) && is_empty (part 1 u))
    || negb (str_forall is_ascii_digit (part 0 u))
    || negb (str_forall is_ascii_digit (part 1 u))) = false <->
  split_on "." u !! 2%nat = None /\ (part 0 u <> "" \/ part 1 u <> "") /\
  str_forall is_ascii_digit (part 0 u) = true /\ str_forall is_ascii_digit (part 1 u) = true.
Proof.
  rewrite !orb_false_iff, !negb_false_iff, bool_decide_eq_false, <- eq_None_not_Some,
    andb_false_iff, !is_empty_false. tauto.
Qed.

(** The parser's tail: from the digits of a numeral to its normal form. *)
Definition parse_tail (neg : bool) (w f : string) : outcome string Decimal :=
  let digits := String.append (if is_empty w then "0" else w) f in
  coefficient ← ok_or (parse_digits in_i128 digits) "number is too large";
  let coefficient := if neg then - coefficient else coefficient in
  let value := normalize (mkDecimal coefficient (as_u32 (str_len f))) in
  _ ← err_if (MAX_DECIMAL_SCALE <? scale value)
        (String.append "must have at most "
           (String.append (dec MAX_DECIMAL_SCALE) " decimal places"));
  Ok value.

Lemma parse_ok_iff input d :
  parse input = Ok d <->
  exists neg w f, numeral (trim input) neg w f /\ parse_tail neg w f = Ok d.
Proof.
  unfold parse. fold (split_sign (trim input)).
  destruct (split_sign (trim input)) as [neg u] eqn:Hs. cbv beta iota zeta.
  rewrite bind_ok. setoid_rewrite err_if_ok. fold (part 0 u). fold (part 1 u).
  split.
  - intros (_ & Hc & Ht). apply plain_decimal_check in Hc as (H2 & Hne & Hw & Hf).
    exists neg, (part 0 u), (part 1 u). split; [|exact Ht].
    destruct (split_sign_text _ _ _ Hs) as (sg & Hsg & Htx).
    exists sg, u. repeat split; try done. by apply split_body.
  - intros (neg' & w & f & (sg & u' & Htx & Hsg & Hb & Hw & Hf & Hne) & Ht).
    rewrite Htx, (split_sign_app _ _ _ _ _ Hsg Hb Hw Hne) in Hs.
    injection Hs as <- <-. destruct (body_split _ _ _ Hb Hw Hf) as (H2 & H0 & H1).
    exists tt. split; [|by rewrite H0, H1].
    apply plain_decimal_check. by rewrite H0, H1.
Qed.

Lemma parse_tail_ok neg w f d :
  str_forall is_ascii_digit w = true -> str_forall is_ascii_digit f = true ->
  str_len f <= u32_max ->
  parse_tail neg w f = Ok d <->
  dec_value (String.append w f) <= i128_max /\ wf_decimal d /\
  same_value (coefficient d) (scale d) (signed neg (dec_value (String.append w f))) (str_len f).
Proof.
  intros Hw Hf Hlen. unfold parse_tail.
  rewrite parse_digits_prefix_zero by done.
  pose proof (str_len_nonneg f) as Hlf.
  unfold as_u32. rewrite Z.mod_small by lia.
  pose proof (dec_value_bounds (String.append w f)) as Hb.
  rewrite str_forall_app, Hw, Hf in Hb. specialize (Hb eq_refl). destruct Hb as [Hb0 _].
  set (n := dec_value (String.append w f)) in *.
  rewrite bind_ok. setoid_rewrite ok_or_ok. setoid_rewrite checked_some.
  fold (signed neg n).
  assert (forall k, (if neg then - k else k) = signed neg k) as Hsg by done.
  pose proof (normalize_spec (mkDecimal (signed neg n) (str_len f)) Hlf) as (Hn & Hsc & _).
  pose proof (normalize_same_value (mkDecimal (signed neg n) (str_len f)) Hlf) as Hv.
  pose proof (normalize_bounds (mkDecimal (signed neg n) (str_len f)) i128_max Hlf) as Hbd.
  cbn [coefficient scale] in *. set (d' := normalize _) in *. split.
  - intros (_ & [-> Hr] & Ht). rewrite Hsg in Ht. fold d' in Ht.
    apply bind_ok in Ht as ([] & Hm & [= <-]). apply err_if_ok in Hm.
    apply in_i128_spec in Hr. split; [lia|]. split; [|done].
    destruct Hn as [Hn0 Hn1]. unfold wf_decimal. split; [|split; [lia|done]].
    apply Hbd. unfold signed. destruct neg; lia.
  - intros (Hr & Hwf & Hsame). exists n. split.
    { split; [done|]. apply in_i128_spec. int_ranges. lia. }
    rewrite Hsg. fold d'.
    assert (d = d') as ->.
    { apply normal_unique; [by auto with money|done|].
      unfold same_value in *.
      apply (Z.mul_cancel_r _ _ (10 ^ str_len f)); [pose proof (pow10_pos (str_len f)); lia|].
      nia. }
    apply bind_ok. exists tt. split; [|done]. apply err_if_ok.
    destruct Hwf as (_ & ? & _). lia.
Qed.

(** Digits plus point plus sign never exceed the input. *)
Lemma numeral_len t neg w f : numeral t neg w f -> str_len f <= str_len t.
Proof.
  intros (sg & u & -> & _ & Hb & _).
  assert (str_len f <= str_len u).
  { destruct Hb as [[_ ->]| ->]; [apply str_len_nonneg|].
    rewrite !str_len_app. pose proof (str_len_nonneg w). pose proof (str_len_nonneg "."). lia. }
  rewrite str_len_app. pose proof (str_len_nonneg sg). lia.
Qed.

(** ** Properties *)

Lemma parse_numeral input d (Hlen : str_len input <= u32_max) :
  parse input = Ok d <->
  exists neg w f,
    numeral (trim input) neg w f /\
    dec_value (String.append w f) <= i128_max /\ wf_decimal d /\
    same_value (coefficient d) (scale d) (signed neg (dec_value (String.append w f))) (str_len f).
Proof.
  rewrite parse_ok_iff.
  split; intros (neg & w & f & Hnum & H); exists neg, w, f; (split; [done|]);
    pose proof (numeral_len _ _ _ _ Hnum); pose proof (trim_len input);
    destruct Hnum as (sg & u & _ & _ & _ & Hw & Hf & _);
    apply (parse_tail_ok neg w f d Hw Hf); first [exact H | lia].
Qed.

(** [Decimal::parse] accepts exactly the plain decimal numerals (optional
    sign, digits, optional point and digits) whose digits fit an [i128] and
    whose value has at most nine significant fractional places, and it returns
    the unique normal form of that value; no digit is lost or rounded. *)
Theorem parse_spec input d (Hlen : str_len input <= u32_max) :
  parse input = Ok d <->
  exists neg w f,
    numeral (trim input) neg w f /\
    dec_value (String.append w f) <= i128_max /\ wf_decimal d /\
    same_value (coefficient d) (scale d) (signed neg (dec_value (String.append w f))) (str_len f).
Proof. exact (parse_numeral input d Hlen). Qed.

Lemma parse_spec_witness :
  str_len " -12.340" <= u32_max /\
  exists neg w f,
    numeral (trim " -12.340") neg w f /\
    dec_value (String.append w f) <= i128_max /\ wf_decimal (mkDecimal (-1234) 2) /\
    same_value (-1234) 2 (signed neg (dec_value (String.append w f))) (str_len f).
Proof.
  split; [vm_compute; discriminate|].
  apply (proj1 (parse_spec " -12.340" (mkDecimal (-1234) 2) ltac:(vm_compute; discriminate))).
  reflexivity.
Defined.

(** The digits [canonical] prints around the point. *)
Lemma canonical_shape d :
  wf_decimal d ->
  exists w f, numeral (canonical d) (coefficient d <? 0) w f /\
    dec_value (String.append w f) = Z.abs (coefficient d) /\ str_len f = scale d /\
    str_forall is_ascii_graphic (canonical d) = true.
Proof.
  intros (_ & Hs & _). unfold canonical.
  destruct (dec_spec (Z.abs (coefficient d)) ltac:(lia)) as (Hd & Hv & Hne & _).
  set (ds := dec (Z.abs (coefficient d))) in *.
  assert (sign_text (if coefficient d <? 0 then "-" else "") (coefficient d <? 0)) as Hsg.
  { unfold sign_text. destruct (coefficient d <? 0); auto. }
  assert (str_forall is_ascii_graphic (if coefficient d <? 0 then "-" else "") = true) as Hsgg
    by by destruct (coefficient d <? 0).
  destruct (Z.eqb_spec (scale d) 0) as [H0|H0].
  - exists ds, "". rewrite str_app_nil_r. split; [|split; [done|split]].
    + eexists _, _. repeat split; try done; by left.
    + unfold str_len. simpl. lia.
    + rewrite str_forall_app, Hsgg. by apply digits_graphic.
  - set (p := if _ : bool then _ else ds).
    assert (str_forall is_ascii_digit p = true /\ dec_value p = Z.abs (coefficient d) /\
            (Z.to_nat (scale d) < String.length p)%nat) as (Hp & Hpv & Hpl).
    { unfold p. destruct (Nat.leb_spec (String.length ds) (Z.to_nat (scale d))); [|done].
      rewrite str_forall_app, Hd, repeat_char_forall, dec_value_zeros, str_length_app,
        repeat_char_length by done. split; [done|]. split; [done|]. lia. }
    set (k := (String.length p - Z.to_nat (scale d))%nat).
    destruct (str_forall_take_drop _ k _ Hp) as [Ht Hdr].
    exists (str_take k p), (str_drop k p).
    assert (str_len (str_drop k p) = scale d) as Hlen.
    { unfold str_len. rewrite str_drop_length. lia. }
    rewrite str_take_drop. split; [|split; [done|split; [done|]]].
    + eexists _, _. repeat split; try done; [by right|].
      right. intros Hnil. rewrite Hnil in Hlen. unfold str_len in Hlen. simpl in Hlen. lia.
    + rewrite !str_forall_app, Hsgg, (digits_graphic _ Ht), (digits_graphic _ Hdr). done.
Qed.

Lemma signed_abs c : signed (c <? 0) (Z.abs c) = c.
Proof. unfold signed. destruct (Z.ltb_spec c 0); lia. Qed.

Lemma canonical_parse d (Hwf : wf_decimal d) : parse (canonical d) = Ok d.
Proof.
  destruct (canonical_shape d Hwf) as (w & f & Hnum & Hv & Hlen & Hg).
  apply parse_ok_iff. rewrite trim_graphic by done.
  exists (coefficient d <? 0), w, f. split; [done|].
  destruct Hnum as (_ & _ & _ & _ & _ & Hw & Hf & _).
  destruct Hwf as (Hc & Hs & Hn).
  apply parse_tail_ok; try done; [unfold MAX_DECIMAL_SCALE in Hs; int_ranges; lia|].
  rewrite Hv, signed_abs, Hlen. split; [lia|]. split; [|done]. by repeat split; try lia.
Qed.

(** Printing a decimal and parsing the text back gives the same decimal:
    [Decimal::parse(d.canonical()) == Ok(d)]. *)
Theorem canonical_roundtrip d (Hwf : wf_decimal d) : parse (canonical d) = Ok d.
Proof. exact (canonical_parse d Hwf). Qed.

Lemma canonical_roundtrip_witness :
  wf_decimal (mkDecimal (-5) 2) /\ parse (canonical (mkDecimal (-5) 2)) = Ok (mkDecimal (-5) 2).
Proof.
  assert (wf_decimal (mkDecimal (-5) 2)) as H.
  { by_computation. }
  split; [exact H|]. exact (canonical_roundtrip _ H).
Defined.

(** ** Minor units *)

Lemma currency_exponent_cases c e : currency_exponent c = Ok e -> e = 0 \/ e = 2 \/ e = 3.
Proof.
  unfold currency_exponent. intros H. apply bind_ok in H as (x & _ & [= <-]).
  repeat case_match; auto.
Qed.

Lemma pow10_i128 e : 0 <= e <= 9 -> in_i128 (10 ^ e) = true.
Proof.
  intros He. apply in_i128_spec. pose proof (Z.pow_le_mono_r 10 e 9 ltac:(lia) ltac:(lia)).
  pose proof (pow10_pos e ltac:(lia)). int_ranges. lia.
Qed.

Lemma checked_pow10 e : 0 <= e <= 9 -> checked_pow in_i128 10 e = Some (10 ^ e).
Proof. intros He. unfold checked_pow, checked. by rewrite pow10_i128. Qed.

(** [aligned] restates the coefficient without changing the value. *)
Lemma aligned_ok d to r :
  0 <= scale d ->
  aligned d to = Ok r <->
  scale d <= to /\ in_i128 (10 ^ (to - scale d)) = true /\
  r = coefficient d * 10 ^ (to - scale d) /\ in_i128 r = true.
Proof.
  intros Hs. unfold aligned, checked_pow, checked_mul.
  rewrite bind_ok. setoid_rewrite err_if_ok. setoid_rewrite bind_ok.
  setoid_rewrite ok_or_ok. setoid_rewrite checked_some. split.
  - intros (_ & Hle & m & (-> & Hm) & (-> & Hr)). repeat split; auto; lia.
  - intros (Hle & Hm & -> & Hr). exists tt. split; [lia|]. eauto.
Qed.

Lemma aligned_value d to r :
  0 <= scale d -> aligned d to = Ok r -> same_value r to (coefficient d) (scale d).
Proof.
  intros Hs H. apply aligned_ok in H as (Hle & _ & -> & _); [|done].
  unfold same_value. rewrite (pow10_split (scale d) to) by lia. ring.
Qed.

(** For a normal decimal: dropping below its scale would lose a digit. *)
Lemma normal_scale_le d m e :
  normal d -> 0 <= e -> same_value m e (coefficient d) (scale d) -> scale d <= e.
Proof.
  intros [Hs Hn] He Hv. destruct (Z.le_gt_cases (scale d) e) as [|Hgt]; [done|].
  exfalso. unfold same_value in Hv. rewrite (pow10_split e (scale d)) in Hv by lia.
  rewrite Z.mul_assoc in Hv. apply Z.mul_cancel_r in Hv; [|pose proof (pow10_pos e); lia].
  apply Hn; [lia|]. rewrite <- Hv.
  replace (scale d - e) with (Z.succ (scale d - e - 1)) by lia.
  rewrite Z.pow_succ_r by lia.
  replace (m * (10 * 10 ^ (scale d - e - 1))) with (m * 10 ^ (scale d - e - 1) * 10) by ring.
  apply Z.rem_mul. lia.
Qed.

Lemma to_signed_minor_ok d currency m (Hwf : wf_decimal d) :
  to_signed_minor d currency = Ok m <->
  exists e, currency_exponent currency = Ok e /\
    same_value m e (coefficient d) (scale d) /\ in_i64 m = true.
Proof.
  pose proof (wf_normal d Hwf) as Hn. destruct Hn as [Hs Hn].
  unfold to_signed_minor. rewrite bind_ok. f_equiv. intros e.
  apply and_iff_compat_l_dep. intros He.
  assert (0 <= e <= 3) as Hr by (destruct (currency_exponent_cases _ _ He) as [->|[->| ->]]; lia).
  rewrite bind_ok. setoid_rewrite err_if_ok. setoid_rewrite bind_ok.
  setoid_rewrite map_err_ok. setoid_rewrite ok_or_ok. setoid_rewrite checked_some. split.
  - intros (_ & Hle & a & Ha & -> & Hm). split; [|done]. by apply aligned_value.
  - intros [Hv Hm]. pose proof (normal_scale_le d m e (conj Hs Hn) ltac:(lia) Hv) as Hle.
    exists tt. split; [lia|]. exists m. split; [|done].
    unfold same_value in Hv. rewrite (pow10_split (scale d) e), Z.mul_assoc in Hv by lia.
    apply Z.mul_cancel_r in Hv; [|pose proof (pow10_pos (scale d)); lia].
    apply aligned_ok; [done|]. split; [done|]. split; [apply pow10_i128; lia|].
    split; [done|]. apply in_i64_spec in Hm. apply in_i128_spec. int_ranges. lia.
Qed.

(** [Decimal::to_signed_minor] answers [m] exactly when the value is the
    whole number [m] of the currency's minor units and [m] fits an [i64]: a
    digit the currency cannot express is refused, never rounded. *)
Theorem to_signed_minor_spec d currency m (Hwf : wf_decimal d) :
  to_signed_minor d currency = Ok m <->
  exists e, currency_exponent currency = Ok e /\
    same_value m e (coefficient d) (scale d) /\ in_i64 m = true.
Proof. exact (to_signed_minor_ok d currency m Hwf). Qed.

Lemma to_signed_minor_spec_witness :
  wf_decimal (mkDecimal (-1999) 2) /\
  exists e, currency_exponent "usd" = Ok e /\ same_value (-1999) e (-1999) 2 /\
    in_i64 (-1999) = true.
Proof.
  assert (wf_decimal (mkDecimal (-1999) 2)) as H by by_computation.
  split; [exact H|]. apply (proj1 (to_signed_minor_spec _ "usd" (-1999) H)). reflexivity.
Defined.

Lemma to_minor_spec d currency m (Hwf : wf_decimal d) :
  to_minor d currency = Ok m <-> 0 <= coefficient d /\ to_signed_minor d currency = Ok m.
Proof.
  unfold to_minor. destruct (Z.ltb_spec (coefficient d) 0).
  - split; [intros Hk; by apply bind_ok in Hk as (? & _ & ?)|lia].
  - split; [auto|tauto].
Qed.

(** The amount parser end to end: [parse_amount_minor] answers [m] exactly
    when the currency is valid and the text is a plain numeral, short enough to
    fit an [i128], whose value is the non-negative whole number [m] of minor
    units and fits an [i64]. *)
Theorem parse_amount_minor_spec input currency m (Hlen : str_len input <= u32_max) :
  parse_amount_minor input currency = Ok m <->
  exists e neg w f,
    currency_exponent currency = Ok e /\ numeral (trim input) neg w f /\
    dec_value (String.append w f) <= i128_max /\
    same_value m e (signed neg (dec_value (String.append w f))) (str_len f) /\
    0 <= m <= i64_max.
Proof.
  unfold parse_amount_minor. split.
  - intros H. apply bind_ok in H as (e & He & H). apply bind_ok in H as (d & Hd & Hm).
    apply (parse_numeral input d Hlen) in Hd.
    destruct Hd as (neg & w & f & Hnum & Hmax & Hwf & Hv).
    apply (to_minor_spec d currency m Hwf) in Hm as [Hc Hm].
    apply (to_signed_minor_ok d currency m Hwf) in Hm as (e' & He' & Hv' & Hr).
    rewrite He in He'. injection He' as <-.
    exists e, neg, w, f. split; [done|]. split; [done|]. split; [done|].
    pose proof (wf_normal d Hwf) as [Hs _].
    pose proof (pow10_pos (scale d) Hs) as Hp. pose proof (str_len_nonneg f).
    assert (0 <= e) as He0 by (destruct (currency_exponent_cases _ _ He) as [->|[->| ->]]; lia).
    pose proof (pow10_pos e He0). unfold same_value in *. split.
    + apply (Z.mul_cancel_r _ _ (10 ^ scale d)); [lia|]. nia.
    + apply in_i64_spec in Hr. int_ranges. nia.
  - intros (e & neg & w & f & He & Hnum & Hmax & Hv & Hm).
    pose proof (str_len_nonneg f) as Hf. set (n := dec_value (String.append w f)) in *.
    assert (0 <= n) as Hn.
    { destruct Hnum as (? & ? & _ & _ & _ & Hw' & Hf' & _). apply dec_value_bounds.
      by rewrite str_forall_app, Hw', Hf'. }
    set (d := normalize (mkDecimal (signed neg n) (str_len f))).
    destruct (normalize_spec (mkDecimal (signed neg n) (str_len f)) Hf) as (Hnd & Hsc & _).
    pose proof (normalize_same_value (mkDecimal (signed neg n) (str_len f)) Hf) as Hsv.
    pose proof (normalize_bounds (mkDecimal (signed neg n) (str_len f)) i128_max Hf) as Hb.
    cbn [coefficient scale] in *. fold d in Hnd, Hsv, Hsc, Hb.
    destruct (currency_exponent_cases _ _ He) as [He3|He3];
      assert (0 <= e <= 3) as Her by lia; clear He3.
    all: pose proof (pow10_pos _ Hf) as Hpf; pose proof (pow10_pos e ltac:(lia)) as Hpe.
    all: assert (same_value m e (coefficient d) (scale d)) as Hmd by
      (unfold same_value in *; apply (Z.mul_cancel_r _ _ (10 ^ str_len f)); [lia|nia]).
    all: pose proof (normal_scale_le d m e Hnd ltac:(lia) Hmd) as Hse.
    all: assert (wf_decimal d) as Hwf by
      (split; [apply Hb; unfold signed; destruct neg; lia|];
       unfold MAX_DECIMAL_SCALE; destruct Hnd; split; [lia|done]).
    all: apply bind_ok; exists e; split; [done|]; apply bind_ok; exists d; split.
    1, 3: apply parse_numeral; [done|]; exists neg, w, f; auto.
    all: apply to_minor_spec; [done|]; split;
      [destruct Hnd as [Hs0 _]; pose proof (pow10_pos _ Hs0); unfold same_value in Hmd; nia|].
    all: apply to_signed_minor_ok; [done|]; exists e; split; [done|]; split; [done|].
    all: apply in_i64_spec; int_ranges; lia.
Qed.

Lemma parse_amount_minor_spec_witness :
  str_len "19.90" <= u32_max /\
  exists e neg w f,
    currency_exponent "eur" = Ok e /\ numeral (trim "19.90") neg w f /\
    dec_value (String.append w f) <= i128_max /\
    same_value 1990 e (signed neg (dec_value (String.append w f))) (str_len f) /\
    0 <= 1990 <= i64_max.
Proof.
  split; [vm_compute; discriminate|].
  apply (proj1 (parse_amount_minor_spec "19.90" "eur" 1990 ltac:(vm_compute; discriminate))).
  reflexivity.
Defined.

Lemma append_numeral sg neg w f :
  sign_text sg neg -> str_forall is_ascii_digit w = true -> str_forall is_ascii_digit f = true ->
  w <> "" -> numeral (String.append sg (String.append w (String.append "." f))) neg w f.
Proof. intros. eexists _, _. repeat split; eauto; by right. Qed.

Lemma sign_text_ltb z : sign_text (if z <? 0 then "-" else "") (z <? 0).
Proof. unfold sign_text. destruct (z <? 0); auto. Qed.

(** The text [format_amount_minor] prints, as a numeral. *)
Lemma format_shape m currency e s :
  currency_exponent currency = Ok e -> format_amount_minor m currency = Ok s ->
  exists w f, numeral s (m <? 0) w f /\ dec_value (String.append w f) = Z.abs m /\
    str_len f = e /\ str_forall is_ascii_graphic s = true.
Proof.
  intros He Hf. unfold format_amount_minor in Hf. rewrite He in Hf. simpl in Hf.
  assert (str_forall is_ascii_graphic (if m <? 0 then "-" else "") = true) as Hsg
    by by destruct (m <? 0).
  destruct (Z.eqb_spec e 0) as [->|He0]; injection Hf as <-.
  - exists (dec (Z.abs m)), "".
    destruct (dec_spec (Z.abs m) ltac:(lia)) as (Hd & Hv & Hne & _).
    replace (z_to_string m) with (String.append (if m <? 0 then "-" else "") (dec (Z.abs m))).
    2:{ unfold z_to_string. destruct (Z.ltb_spec m 0); [|by rewrite Z.abs_eq].
        by rewrite Z.abs_neq; [|lia]. }
    rewrite str_app_nil_r, str_forall_app, Hsg, (digits_graphic _ Hd). repeat split; try done.
    eexists _, _. repeat split; eauto using sign_text_ltb. by left.
  - assert (0 < e <= 3) as Her by (destruct (currency_exponent_cases _ _ He) as [->|[->| ->]]; lia).
    pose proof (pow10_pos e ltac:(lia)) as Hp.
    pose proof (Z.mod_pos_bound (Z.abs m) (10 ^ e) Hp) as Hm.
    pose proof (Z.div_pos (Z.abs m) (10 ^ e) ltac:(lia) Hp) as Hq.
    destruct (dec_spec _ Hq) as (Hqd & Hqv & Hqne & _).
    destruct (dec_spec (Z.abs m mod 10 ^ e) ltac:(lia)) as (Hrd & Hrv & _ & _).
    destruct (pad_zeros_spec (Z.to_nat e) _ Hrd) as (Hpd & Hpv & Hpl).
    assert (String.length (dec (Z.abs m mod 10 ^ e)) <= Z.to_nat e)%nat as Hle.
    { apply dec_length_le; [lia| |lia]. rewrite Z2Nat.id; lia. }
    rewrite Nat.max_l in Hpl by lia.
    eexists _, _. split; [by apply append_numeral, Hqne; eauto using sign_text_ltb|].
    rewrite dec_value_app, Hqv, Hpv, Hrv, Hpl, Z2Nat.id by lia.
    split; [rewrite (Z.div_mod (Z.abs m) (10 ^ e)) at 3 by lia; ring|].
    split; [unfold str_len; rewrite Hpl; lia|].
    rewrite !str_forall_app, Hsg, (digits_graphic _ Hqd), (digits_graphic _ Hpd). done.
Qed.

(** Formatting an [i64] amount and reading the text back in the same
    currency is the identity, for negative amounts too. *)
Theorem format_parse_roundtrip m currency e
  (Hm : in_i64 m = true) (He : currency_exponent currency = Ok e) :
  exists s d, format_amount_minor m currency = Ok s /\ parse s = Ok d /\
    to_signed_minor d currency = Ok m.
Proof.
  assert (0 <= e <= 3) as Her by (destruct (currency_exponent_cases _ _ He) as [->|[->| ->]]; lia).
  apply in_i64_spec in Hm as Hmr.
  assert (exists s, format_amount_minor m currency = Ok s) as [s Hs].
  { unfold format_amount_minor. rewrite He. simpl. case_match; eauto. }
  destruct (format_shape m currency e s He Hs) as (w & f & Hnum & Hv & Hlen & Hg).
  set (d := normalize (mkDecimal m e)).
  destruct (normalize_spec (mkDecimal m e) ltac:(cbn; lia)) as (Hn & Hsc & _).
  pose proof (normalize_same_value (mkDecimal m e) ltac:(cbn; lia)) as Hsv.
  pose proof (normalize_bounds (mkDecimal m e) i128_max ltac:(cbn; lia)) as Hb.
  cbn [coefficient scale] in *. fold d in Hn, Hsv, Hsc, Hb.
  assert (wf_decimal d) as Hwf.
  { split; [apply Hb; int_ranges; lia|]. unfold MAX_DECIMAL_SCALE.
    destruct Hn. split; [lia|done]. }
  exists s, d. split; [done|]. split.
  - apply parse_ok_iff. rewrite trim_graphic by done. exists (m <? 0), w, f. split; [done|].
    destruct Hnum as (_ & _ & _ & _ & _ & Hw & Hf & _).
    apply parse_tail_ok; try done; [int_ranges; lia|].
    rewrite Hv, signed_abs, Hlen. split; [int_ranges; lia|done].
  - apply to_signed_minor_ok; [done|]. exists e. split; [done|]. split; [|done].
    unfold same_value in *. lia.
Qed.

Lemma format_parse_roundtrip_witness :
  in_i64 (-12345) = true /\ currency_exponent "KWD" = Ok 3 /\
  exists s d, format_amount_minor (-12345) "KWD" = Ok s /\ parse s = Ok d /\
    to_signed_minor d "KWD" = Ok (-12345).
Proof.
  split; [reflexivity|]. split; [reflexivity|].
  exact (format_parse_roundtrip (-12345) "KWD" 3 eq_refl eq_refl).
Defined.

(** ** Arithmetic on decimals *)

Lemma mul_pos_compare a b p : 0 < p -> (a * p ?= b * p) = (a ?= b).
Proof. intros Hp. symmetry. by apply Zmult_compare_compat_r, Z.lt_gt. Qed.

Lemma compare_cases d d' (Hd : wf_decimal d) (Hd' : wf_decimal d') :
  compare d d' = Ok (coefficient d * 10 ^ scale d' ?= coefficient d' * 10 ^ scale d) \/
  compare d d' = Err "number is too large" /\
  (in_i128 (coefficient d * 10 ^ (Z.max (scale d) (scale d') - scale d)) = false \/
   in_i128 (coefficient d' * 10 ^ (Z.max (scale d) (scale d') - scale d')) = false).
Proof.
  destruct Hd as (_ & Hs & _), Hd' as (_ & Hs' & _). unfold MAX_DECIMAL_SCALE in *.
  set (s := Z.max (scale d) (scale d')).
  assert (forall x, 0 <= scale x <= s -> s <= 9 ->
    aligned x s = ok_or (checked in_i128 (coefficient x * 10 ^ (s - scale x)))
                    "number is too large") as Hal.
  { intros x Hx Hs9. unfold aligned. replace (s <? scale x) with false by lia.
    rewrite checked_pow10 by lia. done. }
  unfold compare. fold s. rewrite !Hal by lia. unfold checked.
  destruct (in_i128 (coefficient d * _)) eqn:H1; simpl; [|by auto].
  destruct (in_i128 (coefficient d' * _)) eqn:H2; simpl; [|by auto].
  left. f_equal.
  rewrite <- (mul_pos_compare _ _ (10 ^ Z.min (scale d) (scale d'))) by (apply pow10_pos; lia).
  rewrite <- !Z.mul_assoc, <- !Z.pow_add_r by lia.
  do 2 f_equal; f_equal; lia.
Qed.

(** [Decimal::compare] orders two decimals as the rational numbers they
    are, whatever their scales; the only other answer is the overflow error,
    given only when a coefficient cannot be restated at the common scale. *)
Theorem compare_spec d d' (Hd : wf_decimal d) (Hd' : wf_decimal d') :
  compare d d' = Ok (coefficient d * 10 ^ scale d' ?= coefficient d' * 10 ^ scale d) \/
  compare d d' = Err "number is too large" /\
  (in_i128 (coefficient d * 10 ^ (Z.max (scale d) (scale d') - scale d)) = false \/
   in_i128 (coefficient d' * 10 ^ (Z.max (scale d) (scale d') - scale d')) = false).
Proof. exact (compare_cases d d' Hd Hd'). Qed.

Lemma compare_spec_witness :
  wf_decimal (mkDecimal 15 1) /\ wf_decimal (mkDecimal 149 2) /\
  (compare (mkDecimal 15 1) (mkDecimal 149 2) = Ok Gt \/
   compare (mkDecimal 15 1) (mkDecimal 149 2) = Err "number is too large" /\
   (in_i128 (15 * 10 ^ (Z.max 1 2 - 1)) = false \/ in_i128 (149 * 10 ^ (Z.max 1 2 - 2)) = false)).
Proof.
  assert (wf_decimal (mkDecimal 15 1)) as H1 by by_computation.
  assert (wf_decimal (mkDecimal 149 2)) as H2 by by_computation.
  split; [exact H1|]. split; [exact H2|].
  exact (compare_spec _ _ H1 H2).
Defined.

Lemma exact_quot n p m : 0 < p -> Z.rem n p = 0 /\ m = Z.quot n p <-> m * p = n.
Proof.
  intros Hp. split.
  - intros [Hr ->]. pose proof (Z.quot_rem' n p). lia.
  - intros <-. split; [apply Z.rem_mul; lia|symmetry; apply Z.quot_mul; lia].
Qed.

Lemma multiply_minor_ok d a m (Hwf : wf_decimal d) :
  multiply_minor d a = Ok m <->
  m * 10 ^ scale d = coefficient d * a /\ in_i128 (coefficient d * a) = true /\ in_i64 m = true.
Proof.
  destruct Hwf as (_ & Hs & _). unfold MAX_DECIMAL_SCALE in *.
  pose proof (pow10_pos (scale d) ltac:(lia)) as Hp.
  unfold multiply_minor, checked_mul, rust_rem, rust_div.
  rewrite checked_pow10 by lia.
  rewrite <- (exact_quot (coefficient d * a) (10 ^ scale d) m Hp).
  unfold checked. destruct (in_i128 (coefficient d * a)); simpl.
  2:{ split; [done|]. intros (_ & ? & _). congruence. }
  replace (10 ^ scale d =? 0) with false by lia. simpl.
  destruct (Z.eqb_spec (Z.rem (coefficient d * a) (10 ^ scale d)) 0); simpl.
  2:{ split; [done|]. intros ([? _] & _). congruence. }
  fold (checked in_i64 (Z.quot (coefficient d * a) (10 ^ scale d))).
  rewrite ok_or_ok, checked_some. intuition congruence.
Qed.

(** [Decimal::multiply_minor] answers [m] exactly when the product of the
    decimal and the amount is the whole number [m] (nothing is rounded), the
    intermediate product fits an [i128] and [m] an [i64]. *)
Theorem multiply_minor_spec d a m (Hwf : wf_decimal d) :
  multiply_minor d a = Ok m <->
  m * 10 ^ scale d = coefficient d * a /\ in_i128 (coefficient d * a) = true /\ in_i64 m = true.
Proof. exact (multiply_minor_ok d a m Hwf). Qed.

Lemma multiply_minor_spec_witness :
  wf_decimal (mkDecimal 25 1) /\
  (500 * 10 ^ 1 = 25 * 200 /\ in_i128 (25 * 200) = true /\ in_i64 500 = true).
Proof.
  assert (wf_decimal (mkDecimal 25 1)) as H by by_computation.
  split; [exact H|]. apply (proj1 (multiply_minor_spec (mkDecimal 25 1) 200 500 H)).
  reflexivity.
Defined.

Lemma as_u64_spec d n (Hwf : wf_decimal d) :
  as_u64 d = Some n <-> n * 10 ^ scale d = coefficient d /\ 0 <= n <= u64_max.
Proof.
  destruct Hwf as (_ & Hs & _). unfold MAX_DECIMAL_SCALE in *.
  pose proof (pow10_pos (scale d) ltac:(lia)) as Hp.
  unfold as_u64. rewrite checked_pow10 by lia. simpl.
  rewrite <- (exact_quot (coefficient d) (10 ^ scale d) n Hp).
  destruct (Z.ltb_spec (coefficient d) 0); simpl.
  { split; [done|]. intros [[Hr Hq] Hn].
    assert (n * 10 ^ scale d = coefficient d) by by apply exact_quot. nia. }
  destruct (Z.eqb_spec (Z.rem (coefficient d) (10 ^ scale d)) 0); simpl.
  2:{ split; [done|]. intros ([? _] & _). congruence. }
  rewrite checked_some, in_u64_spec. intuition congruence.
Qed.

(** A difference is a whole number of steps. *)
Lemma is_step_from_spec d base step b
  (Hd : wf_decimal d) (Hb : wf_decimal base) (Hst : wf_decimal step) :
  is_step_from d base step = Ok b ->
  let s := Z.max (Z.max (scale d) (scale base)) (scale step) in
  0 < coefficient step /\
  (b = true <-> exists k,
     coefficient d * 10 ^ (s - scale d) =
     coefficient base * 10 ^ (s - scale base) + k * (coefficient step * 10 ^ (s - scale step))).
Proof.
  destruct Hd as (_ & [Hd _] & _), Hb as (_ & [Hb _] & _), Hst as (_ & [Hst _] & _).
  intros H s. unfold is_step_from in H. inv_ok H. fold s in Hok0, Hok1, Hok3.
  apply aligned_ok in Hok0 as (_ & _ & -> & _); [|done].
  apply aligned_ok in Hok1 as (_ & _ & -> & _); [|done].
  apply aligned_ok in Hok3 as (_ & _ & -> & _); [|done].
  apply checked_some in Hok2 as [-> _]. apply rust_rem_ok in Hok4 as [Hnz ->].
  split; [lia|]. rewrite <- H, Z.eqb_eq, Z.rem_divide by done. unfold Z.divide.
  split; intros [k Hk]; exists k; lia.
Qed.

(** No decimal operation can divide by zero. *)
Lemma multiply_minor_no_panic d a : 0 <= scale d -> no_panic (multiply_minor d a).
Proof.
  intros Hs. unfold multiply_minor.
  apply no_panic_bind; [auto with outcome|intros n _].
  apply no_panic_bind; [auto with outcome|intros p Hp].
  apply ok_or_ok, checked_some in Hp as [-> _]. pose proof (pow10_pos (scale d) Hs).
  apply no_panic_bind; [apply no_panic_rem; lia|intros r _].
  apply no_panic_bind; [auto with outcome|intros _ _].
  apply no_panic_bind; [apply no_panic_div; lia|auto with outcome].
Qed.

Lemma aligned_no_panic d s : no_panic (aligned d s).
Proof. unfold aligned. no_panic_tac. Qed.

Lemma compare_no_panic d d' : no_panic (compare d d').
Proof.
  unfold compare. apply no_panic_bind; [apply aligned_no_panic|intros ? _].
  apply no_panic_bind; [apply aligned_no_panic|auto with outcome].
Qed.

Lemma is_step_from_no_panic d base step : 0 <= scale step -> no_panic (is_step_from d base step).
Proof.
  intros Hs. unfold is_step_from.
  apply no_panic_bind; [auto with outcome|intros u Hpos].
  apply err_if_ok in Hpos.
  do 2 (apply no_panic_bind; [apply aligned_no_panic|intros ? _]).
  apply no_panic_bind; [auto with outcome|intros ? _].
  apply no_panic_bind; [apply aligned_no_panic|intros st Hst].
  apply aligned_ok in Hst as (Hle & _ & -> & _); [|done].
  pose proof (pow10_pos (Z.max (Z.max (scale d) (scale base)) (scale step) - scale step) ltac:(lia)).
  apply no_panic_bind; [apply no_panic_rem; nia|auto with outcome].
Qed.

Lemma parse_no_panic s : no_panic (parse s).
Proof.
  unfold parse. case_match. cbv zeta. no_panic_tac.
Qed.

#[export] Hint Resolve aligned_no_panic compare_no_panic parse_no_panic : outcome.

(** Every decimal the parser returns is well formed. *)
Lemma parse_wf s d : parse s = Ok d -> wf_decimal d.
Proof.
  intros H. apply parse_ok_iff in H as (neg & w & f & Hnum & H).
  destruct Hnum as (_ & _ & _ & _ & _ & Hw & Hf & _).
  unfold parse_tail in H. rewrite parse_digits_prefix_zero in H by done. cbv zeta in H.
  apply bind_ok in H as (c & Hc & H). apply bind_ok in H as ([] & Hm & [= <-]).
  apply ok_or_ok, checked_some in Hc as [-> Hc]. apply err_if_ok in Hm.
  pose proof (dec_value_bounds (String.append w f)) as Hb.
  rewrite str_forall_app, Hw, Hf in Hb. specialize (Hb eq_refl).
  assert (0 <= as_u32 (str_len f)) as Hs by (unfold as_u32; apply Z.mod_pos_bound; done).
  match goal with |- wf_decimal (normalize ?x) => set (x0 := x) in * end.
  destruct (normalize_spec x0 Hs) as ([Hn Hr] & _ & _). split.
  - apply normalize_bounds; [done|]. unfold x0; simpl. apply in_i128_spec in Hc.
    destruct neg; int_ranges; lia.
  - split; [lia|done].
Qed.

Lemma from_integer_wf z : in_i64 z = true -> wf_decimal (from_integer z).
Proof.
  rewrite in_i64_spec. intros Hz. split; [|split].
  - cbn. int_ranges. lia.
  - cbn. unfold MAX_DECIMAL_SCALE. lia.
  - cbn. lia.
Qed.
#[export] Hint Resolve parse_wf from_integer_wf : money.

(** The documented cap is on significant places, and one written with ten
    zeros parses; but the digits are read into an [i128] before they are
    normalised, so exactly one written with forty zeros is refused as too
    large. *)
Theorem parse_trailing_zeros_limit :
  parse "1.0000000000" = Ok (mkDecimal 1 0) /\
  parse (String.append "1." (repeat_char "0" 40)) = Err "number is too large".
Proof. split; reflexivity. Qed.
