(* ===== verification/SampleLib.v ===== *)
(** * Concrete instances of the interfaces

    Small concrete functions for the crates the model is parametrised over, on
    which the witnesses evaluate: integers as JSON numbers, ISO texts of the
    expected shape as dates. *)
From Stdlib Require Import String.
From S2P Require Import Prelude Ints Str Contracts.

Program Definition sample_numbers : JsonNumbers := {|
  Number := Z;
  number_to_string := z_to_string;
  number_as_i64 := checked in_i64;
  number_from_i64 := fun z => z;
|}.
Next Obligation. intros n z H. by apply checked_some in H as [-> ?]. Qed.
#[export] Existing Instance sample_numbers.

#[export] Instance sample_number_laws : JsonNumberLaws sample_numbers.
Proof. constructor. intros z Hz. simpl. unfold checked. by rewrite Hz. Qed.

(** Texts of a given shape, [0] standing for a digit. *)
Fixpoint has_shape (shape s : string) : bool :=
  match shape, s with
  | EmptyString, EmptyString => true
  | String.String a shape, String.String b s =>
      (if Ascii.eqb a "0" then is_ascii_digit b else Ascii.eqb a b) && has_shape shape s
  | _, _ => false
  end.
Definition shaped (shape s : string) : option string :=
  if has_shape shape s then Some s else None.

Definition sample_chrono : Chrono := {|
  NaiveDate := string;
  NaiveDateTime := string;
  date_parse := shaped "0000-00-00";
  date_format := fun s => s;
  date_cmp := String.compare;
  datetime_parse := shaped "0000-00-00T00:00";
  datetime_format := fun s => s;
  datetime_cmp := String.compare;
|}.
#[export] Existing Instance sample_chrono.

#[export] Instance sample_chrono_laws : ChronoLaws sample_chrono.
Proof.
  constructor; intros s x; simpl; unfold shaped; case_match eqn:Hs; try done;
    intros [= <-]; by rewrite Hs.
Qed.

#[export] Instance sample_debug : DebugFmt := fun s => s.

(** A numeric variable. *)
Definition sample_number (key : string) (minimum maximum step : option string)
    (visibility : VariableVisibility) (default_value : option Value) : VariableDefinition := {|
  vd_key := key; vd_kind := KNumber; vd_label := key; vd_help_text := "";
  vd_required := true; vd_default_value := default_value; vd_allowed_values := [];
  vd_minimum := minimum; vd_maximum := maximum; vd_step := step;
  vd_maximum_length := None; vd_visibility := visibility; vd_sort_order := 0;
|}.
