(* ===== verification/OfferInputs.v ===== *)
(** * Offer inputs ([blocks/products/offer_pricing.rs], lines 25-515)

    The pricing error, the validated value of an input, and the validation of
    an offer's variable definitions and of a request's raw inputs. *)
From Stdlib Require Import String.
From S2P Require Import Prelude Ints Str Contracts Money SampleLib.

Definition MAX_ORDER_QUANTITY : Z := 1000000.
Definition DEFAULT_MAX_TEXT_LENGTH : Z := 4096.

Record PricingError := {
  pe_code : string;
  pe_field : option string;
  pe_message : string;
}.

Definition pricing_error (code : string) (field : option string) (message : string)
  : PricingError := {| pe_code := code; pe_field := field; pe_message := message |}.

(** [impl Display for PricingError] *)
Definition pricing_error_display (e : PricingError) : string :=
  match pe_field e with
  | Some field => String.append field (String.append ": " (pe_message e))
  | None => pe_message e
  end.

Abbreviation PResult := (outcome PricingError).

(** The keys of a [BTreeMap], in its order. *)
Definition btree_keys {A} (m : gmap string A) : list string :=
  merge_sort str_le (map_to_list m).*1.

Section Inputs.
Context {JN : JsonNumbers} {CH : Chrono} {DF : DebugFmt}.

Inductive ValidatedValue : Type :=
| VVNumber (d : Decimal)
| VVInteger (z : Z)
| VVBoolean (b : bool)
| VVDate (d : NaiveDate)
| VVDateTime (d : NaiveDateTime)
| VVSelect (s : string)
| VVMultiSelect (l : list string)
| VVText (s : string).

Definition normalized_json (v : ValidatedValue) : Value :=
  match v with
  | VVNumber value => VString (canonical value)
  | VVInteger value => VNumber (number_from_i64 value)
  | VVBoolean value => VBool value
  | VVDate value => VString (date_format value)
  | VVDateTime value => VString (datetime_format value)
  | VVSelect value | VVText value => VString value
  | VVMultiSelect values => VArray (map VString values)
  end.

Definition decimal (v : ValidatedValue) : option Decimal :=
  match v with
  | VVNumber value => Some value
  | VVInteger value => Some (from_integer value)
  | _ => None
  end.

Definition scalar (v : ValidatedValue) : option string :=
  match v with VVSelect value | VVText value => Some value | _ => None end.

(** [Decimal::from_json] *)
Definition from_json (value : Value) : outcome string Decimal :=
  match value with
  | VNumber value => parse (number_to_string value)
  | VString value => parse value
  | _ => Err "must be a number or decimal string"
  end.

Definition is_Eq (c : comparison) : bool := match c with Eq => true | _ => false end.

Definition equals_json (v : ValidatedValue) (expected : Value) : outcome string bool :=
  match v with
  | VVNumber actual =>
      e ← from_json expected; c ← compare actual e; Ok (is_Eq c)
  | VVInteger actual =>
      e ← ok_or (as_i64 expected) "comparison value must be an integer"; Ok (actual =? e)
  | VVBoolean actual =>
      e ← ok_or (as_bool expected) "comparison value must be a boolean"; Ok (Bool.eqb actual e)
  | VVDate actual =>
      e ← ok_or (as_str expected) "comparison value must be a date";
      d ← ok_or (date_parse e) "comparison value must use YYYY-MM-DD";
      Ok (is_Eq (date_cmp actual d))
  | VVDateTime actual =>
      e ← ok_or (as_str expected) "comparison value must be a date and time";
      d ← ok_or (datetime_parse e) "comparison value must use YYYY-MM-DDTHH:MM";
      Ok (is_Eq (datetime_cmp actual d))
  | VVSelect actual | VVText actual =>
      e ← ok_or (as_str expected) "comparison value must be text"; Ok (String.eqb actual e)
  | VVMultiSelect actual =>
      e ← ok_or (as_array expected) "comparison value must be a text array";
      e ← mapM (fun value => ok_or (as_str value) "comparison value must be a text array") e;
      Ok (bool_decide (actual = e))
  end.

Definition ordered_json (v : ValidatedValue) (expected : Value) : outcome string comparison :=
  match v with
  | VVNumber actual => e ← from_json expected; compare actual e
  | VVInteger actual =>
      e ← ok_or (as_i64 expected) "comparison value must be an integer"; Ok (actual ?= e)
  | VVDate actual =>
      e ← ok_or (as_str expected) "comparison value must be a date";
      d ← ok_or (date_parse e) "comparison value must use YYYY-MM-DD";
      Ok (date_cmp actual d)
  | VVDateTime actual =>
      e ← ok_or (as_str expected) "comparison value must be a date and time";
      d ← ok_or (datetime_parse e) "comparison value must use YYYY-MM-DDTHH:MM";
      Ok (datetime_cmp actual d)
  | _ => Err "ordered comparison requires a number, date, or date and time"
  end.

(** [ValidatedInputs], its one field [values]. *)
Record ValidatedInputs := { values : gmap string ValidatedValue }.

Definition normalized (inputs : ValidatedInputs) : gmap string Value :=
  normalized_json <$> values inputs.

Definition invalid_input (definition : VariableDefinition) (message : string) : PricingError :=
  pricing_error "invalid_input" (Some (vd_key definition)) message.

(** ** Bounds *)
Definition validate_bounds (definition : VariableDefinition) (value : Decimal) : PResult unit :=
  let bad_definition message :=
    pricing_error "invalid_offer" (Some (vd_key definition))
      (String.append "invalid variable definition: " message) in
  minimum ← map_err bad_definition (transpose_map parse (vd_minimum definition));
  maximum ← map_err bad_definition (transpose_map parse (vd_maximum definition));
  _ ← match minimum with
      | Some minimum =>
          comparison ← map_err (invalid_input definition) (compare value minimum);
          match comparison with
          | Lt => Err (invalid_input definition "is below the minimum")
          | _ => Ok tt
          end
      | None => Ok tt
      end;
  _ ← match maximum with
      | Some maximum =>
          comparison ← map_err (invalid_input definition) (compare value maximum);
          match comparison with
          | Gt => Err (invalid_input definition "is above the maximum")
          | _ => Ok tt
          end
      | None => Ok tt
      end;
  match vd_step definition with
  | Some step =>
      step ← map_err bad_definition (parse step);
      let base := default (from_integer 0) minimum in
      aligned ← map_err bad_definition (is_step_from value base step);
      err_if (negb aligned) (invalid_input definition "does not align to the configured step")
  | None => Ok tt
  end.

(** The two date validators differ in the type and the messages only. *)
Definition validate_date_bounds (definition : VariableDefinition) (value : NaiveDate)
  : PResult unit :=
  let parse raw :=
    ok_or (date_parse raw)
      (pricing_error "invalid_offer" (Some (vd_key definition))
         "date bounds must use YYYY-MM-DD") in
  minimum ← transpose_map parse (vd_minimum definition);
  _ ← err_if (match minimum with
              | Some minimum => match date_cmp value minimum with Lt => true | _ => false end
              | None => false end)
        (invalid_input definition "is before the minimum date");
  maximum ← transpose_map parse (vd_maximum definition);
  err_if (match maximum with
          | Some maximum => match date_cmp value maximum with Gt => true | _ => false end
          | None => false end)
    (invalid_input definition "is after the maximum date").

Definition validate_date_time_bounds (definition : VariableDefinition) (value : NaiveDateTime)
  : PResult unit :=
  let parse raw :=
    ok_or (datetime_parse raw)
      (pricing_error "invalid_offer" (Some (vd_key definition))
         "date-time bounds must use YYYY-MM-DDTHH:MM") in
  minimum ← transpose_map parse (vd_minimum definition);
  _ ← err_if (match minimum with
              | Some minimum => match datetime_cmp value minimum with Lt => true | _ => false end
              | None => false end)
        (invalid_input definition "is before the minimum date and time");
  maximum ← transpose_map parse (vd_maximum definition);
  err_if (match maximum with
          | Some maximum => match datetime_cmp value maximum with Gt => true | _ => false end
          | None => false end)
    (invalid_input definition "is after the maximum date and time").

(** The [for value in values] loop of a [multi_select] input. *)
Fixpoint parse_options (definition : VariableDefinition) (vs : list Value)
    (parsed : list string) (unique : gset string) : PResult (list string) :=
  match vs with
  | [] => Ok parsed
  | value :: vs =>
      value ← ok_or (as_str value) (invalid_input definition "must contain text options");
      _ ← err_if (negb (existsb (fun allowed => String.eqb allowed value)
                          (vd_allowed_values definition)))
            (invalid_input definition
               (String.append (debug_str value) " is not an allowed option"));
      _ ← err_if (bool_decide (value ∈ unique))
            (invalid_input definition (String.append (debug_str value) " is duplicated"));
      parse_options definition vs (parsed ++ [value]) ({[value]} ∪ unique)
  end.

(** [value.as_i64().or_else(|| value.as_str().and_then(|v| v.parse().ok()))] *)
Definition integer_of (value : Value) : option Z :=
  match as_i64 value with
  | Some z => Some z
  | None => s ← as_str value; parse_i64 s
  end.

Definition parse_input (definition : VariableDefinition) (value : Value)
  : PResult ValidatedValue :=
  match vd_kind definition with
  | KNumber =>
      value ← map_err (invalid_input definition) (from_json value);
      _ ← validate_bounds definition value;
      Ok (VVNumber value)
  | KInteger =>
      value ← ok_or (integer_of value) (invalid_input definition "must be an integer");
      _ ← validate_bounds definition (from_integer value);
      Ok (VVInteger value)
  | KBoolean =>
      value ← ok_or (as_bool value) (invalid_input definition "must be a boolean");
      Ok (VVBoolean value)
  | KDate =>
      raw ← ok_or (as_str value) (invalid_input definition "must be a date");
      value ← ok_or (date_parse raw) (invalid_input definition "must use YYYY-MM-DD");
      _ ← validate_date_bounds definition value;
      Ok (VVDate value)
  | KDateTime =>
      raw ← ok_or (as_str value) (invalid_input definition "must be a date and time");
      value ← ok_or (datetime_parse raw) (invalid_input definition "must use YYYY-MM-DDTHH:MM");
      _ ← validate_date_time_bounds definition value;
      Ok (VVDateTime value)
  | KSelect =>
      value ← ok_or (as_str value) (invalid_input definition "must be one text option");
      _ ← err_if (negb (existsb (fun allowed => String.eqb allowed value)
                          (vd_allowed_values definition)))
            (invalid_input definition "is not an allowed option");
      Ok (VVSelect value)
  | KMultiSelect =>
      vs ← ok_or (as_array value) (invalid_input definition "must be an array of options");
      parsed ← parse_options definition vs [] ∅;
      Ok (VVMultiSelect parsed)
  | KText =>
      value ← ok_or (as_str value) (invalid_input definition "must be text");
      let maximum :=
        Z.min (default DEFAULT_MAX_TEXT_LENGTH (vd_maximum_length definition))
          DEFAULT_MAX_TEXT_LENGTH in
      _ ← err_if (maximum <? chars_count value)
            (invalid_input definition
               (String.append "must be at most " (String.append (dec maximum) " characters")));
      Ok (VVText value)
  end.

(** ** Definitions and raw inputs *)
Inductive InputScope := ScopePublic | ScopeManagement.

Definition needs_allowed_values (k : VariableKind) : bool :=
  match k with KSelect | KMultiSelect => true | _ => false end.

(** The loop of [validate_variable_definitions], [by_key] its accumulator. *)
Fixpoint validate_definitions_loop (definitions : list VariableDefinition)
    (by_key : gmap string VariableDefinition) : PResult (gmap string VariableDefinition) :=
  match definitions with
  | [] => Ok by_key
  | definition :: rest =>
      let key := vd_key definition in
      _ ← err_if (negb (is_variable_key key))
            (pricing_error "invalid_offer" (Some key)
               "variable key may contain only letters, numbers, and underscores");
      _ ← err_if (bool_decide (is_Some (by_key !! key)))
            (pricing_error "invalid_offer" (Some key) "variable key is duplicated");
      _ ← err_if (needs_allowed_values (vd_kind definition)
                  && bool_decide (vd_allowed_values definition = []))
            (pricing_error "invalid_offer" (Some key) "select variables require allowed values");
      validate_definitions_loop rest (<[key := definition]> by_key)
  end.

Definition validate_variable_definitions (definitions : list VariableDefinition)
  : PResult (gmap string VariableDefinition) := validate_definitions_loop definitions ∅.

(** [for key in raw.keys()]: the keys in the map's order. *)
Fixpoint check_keys (by_key : gmap string VariableDefinition) (scope : InputScope)
    (keys : list string) : PResult unit :=
  match keys with
  | [] => Ok tt
  | key :: keys =>
      definition ← ok_or (by_key !! key)
        (pricing_error "unknown_input" (Some key) "input is not defined by the offer");
      _ ← err_if (match scope with ScopePublic => true | ScopeManagement => false end
                  && negb (bool_decide (vd_visibility definition = VisPublic)))
            (pricing_error "restricted_input" (Some key) "input is not customer-editable");
      check_keys by_key scope keys
  end.

(** [raw.get(&definition.key).or(definition.default_value.as_ref())] *)
Definition input_source (raw : gmap string Value) (definition : VariableDefinition)
  : option Value :=
  match raw !! vd_key definition with
  | Some v => Some v
  | None => vd_default_value definition
  end.

Fixpoint collect_values (raw : gmap string Value) (definitions : list VariableDefinition)
    (values : gmap string ValidatedValue) : PResult (gmap string ValidatedValue) :=
  match definitions with
  | [] => Ok values
  | definition :: rest =>
      match input_source raw definition with
      | Some value =>
          v ← parse_input definition value;
          collect_values raw rest (<[vd_key definition := v]> values)
      | None =>
          if vd_required definition then
            Err (pricing_error "missing_input" (Some (vd_key definition)) "input is required")
          else collect_values raw rest values
      end
  end.

Definition validate_inputs (definitions : list VariableDefinition) (raw : gmap string Value)
    (scope : InputScope) : PResult ValidatedInputs :=
  by_key ← validate_variable_definitions definitions;
  _ ← check_keys by_key scope (btree_keys raw);
  values ← collect_values raw definitions ∅;
  Ok {| values := values |}.
End Inputs.

(** ** Lemmas *)
Section InputLemmas.
Context {JN : JsonNumbers} {CH : Chrono} {DF : DebugFmt}.
Implicit Types (d : VariableDefinition) (defs : list VariableDefinition).

Lemma elem_of_btree_keys {A} (m : gmap string A) k : k ∈ btree_keys m <-> is_Some (m !! k).
Proof.
  unfold btree_keys. rewrite (merge_sort_Permutation str_le), list_elem_of_fmap.
  split.
  - intros ([k' v] & -> & H%elem_of_map_to_list). eauto.
  - intros [v H]. exists (k, v). split; [done|]. by apply elem_of_map_to_list.
Qed.

Lemma existsb_eqb_elem s l : existsb (fun a => String.eqb a s) l = true <-> s ∈ l.
Proof.
  rewrite existsb_exists. setoid_rewrite String.eqb_eq. rewrite list_elem_of_In. naive_solver.
Qed.

Lemma definitions_loop_ok defs m m' :
  validate_definitions_loop defs m = Ok m' ->
  NoDup (vd_key <$> defs) /\
  (forall d, d ∈ defs -> m !! vd_key d = None /\ is_variable_key (vd_key d) = true) /\
  (forall k d, m' !! k = Some d <-> m !! k = Some d \/ d ∈ defs /\ vd_key d = k).
Proof.
  revert m. induction defs as [|d0 defs IH]; intros m H; cbn in H.
  { injection H as <-. repeat split; try set_solver. constructor. }
  inv_ok H. apply negb_false_iff in Hok. rewrite bool_decide_eq_false, <- eq_None_not_Some in Hok0.
  destruct (IH _ H) as (Hnd & Hfresh & Hm').
  assert (forall d, d ∈ defs -> vd_key d <> vd_key d0) as Hne.
  { intros d Hd Heq. destruct (Hfresh d Hd) as [Hf _]. rewrite Heq in Hf.
    by rewrite lookup_insert_eq in Hf. }
  split; [|split].
  - simpl. constructor; [|done]. rewrite list_elem_of_fmap. intros (d & Hk & Hd).
    by apply (Hne d Hd).
  - intros d [->|Hd]%elem_of_cons; [done|]. destruct (Hfresh d Hd) as [Hf Hk].
    split; [|done]. rewrite lookup_insert_ne in Hf; [done|]. by apply not_eq_sym, Hne.
  - intros k d. rewrite Hm', elem_of_cons. destruct (decide (k = vd_key d0)) as [->|Hk].
    + rewrite lookup_insert_eq, Hok0. naive_solver.
    + rewrite lookup_insert_ne by done. naive_solver.
Qed.

Lemma definitions_ok defs m :
  validate_variable_definitions defs = Ok m ->
  NoDup (vd_key <$> defs) /\
  (forall k d, m !! k = Some d <-> d ∈ defs /\ vd_key d = k).
Proof.
  intros H. apply definitions_loop_ok in H as (Hnd & _ & Hm). split; [done|].
  intros k d. rewrite Hm, lookup_empty. naive_solver.
Qed.

(** Keys determine definitions. *)
Lemma definition_unique defs d d' :
  NoDup (vd_key <$> defs) -> d ∈ defs -> d' ∈ defs -> vd_key d = vd_key d' -> d = d'.
Proof.
  intros Hnd [i Hi]%list_elem_of_lookup [j Hj]%list_elem_of_lookup Hk.
  assert (i = j) as <-; [|congruence].
  apply (NoDup_lookup _ i j (vd_key d) Hnd); rewrite list_lookup_fmap, ?Hi, ?Hj; simpl; congruence.
Qed.

Lemma check_keys_ok m scope keys u :
  check_keys m scope keys = Ok u <->
  forall k, k ∈ keys -> exists d, m !! k = Some d /\
    (scope = ScopePublic -> vd_visibility d = VisPublic).
Proof.
  destruct u. induction keys as [|k keys IH]; cbn [check_keys]; [set_solver|].
  split.
  - intros H. inv_ok H. intros k' [->|Hk]%elem_of_cons; [|by apply (proj1 IH H)].
    eexists. split; [exact Hok|]. intros ->. simpl in Hok0.
    apply negb_false_iff, bool_decide_eq_true in Hok0. done.
  - intros H. destruct (H k) as (d & Hd & Hv); [set_solver|]. rewrite Hd. simpl.
    apply bind_ok. exists tt. split; [|apply IH; set_solver].
    apply err_if_ok. destruct scope; simpl; [|done].
    apply negb_false_iff, bool_decide_eq_true. by apply Hv.
Qed.

Lemma collect_values_ok raw defs acc r :
  NoDup (vd_key <$> defs) ->
  collect_values raw defs acc = Ok r ->
  (forall d, d ∈ defs ->
     match input_source raw d with
     | Some v => exists pv, parse_input d v = Ok pv /\ r !! vd_key d = Some pv
     | None => vd_required d = false /\ r !! vd_key d = acc !! vd_key d
     end) /\
  (forall k, k ∉ vd_key <$> defs -> r !! k = acc !! k).
Proof.
  revert acc. induction defs as [|d0 defs IH]; intros acc Hnd H; cbn in H.
  { injection H as <-. set_solver. }
  simpl in Hnd. apply NoDup_cons in Hnd as [Hfresh Hnd].
  destruct (input_source raw d0) as [v|] eqn:Hsrc.
  - apply bind_ok in H as (pv & Hpv & H). destruct (IH _ Hnd H) as [Hd Hk]. split.
    + intros d [->|Hin]%elem_of_cons.
      * rewrite Hsrc. exists pv. split; [done|]. rewrite Hk by done. apply lookup_insert_eq.
      * specialize (Hd d Hin). destruct (input_source raw d); [done|].
        destruct Hd as [Hr Hl]. split; [done|]. rewrite Hl. apply lookup_insert_ne.
        intros Heq. apply Hfresh. rewrite Heq. by apply list_elem_of_fmap_2.
    + intros k Hkn. simpl in Hkn. rewrite Hk by set_solver.
      apply lookup_insert_ne. set_solver.
  - destruct (vd_required d0) eqn:Hreq; [done|]. destruct (IH _ Hnd H) as [Hd Hk]. split.
    + intros d [->|Hin]%elem_of_cons; [|by apply Hd]. rewrite Hsrc. by rewrite Hk.
    + intros k Hkn. simpl in Hkn. apply Hk. set_solver.
Qed.

(** What a successful [validate_inputs] returns. *)
Lemma validate_inputs_ok defs raw scope inputs :
  validate_inputs defs raw scope = Ok inputs ->
  NoDup (vd_key <$> defs) /\
  (forall k, is_Some (raw !! k) -> exists d, d ∈ defs /\ vd_key d = k /\
     (scope = ScopePublic -> vd_visibility d = VisPublic)) /\
  (forall d, d ∈ defs ->
     match input_source raw d with
     | Some v => exists pv, parse_input d v = Ok pv /\ values inputs !! vd_key d = Some pv
     | None => vd_required d = false /\ values inputs !! vd_key d = None
     end) /\
  (forall k, k ∉ vd_key <$> defs -> values inputs !! k = None).
Proof.
  intros H. unfold validate_inputs in H. inv_ok H. subst inputs. simpl.
  apply definitions_ok in Hok as [Hnd Hm].
  rewrite check_keys_ok in Hok0. destruct (collect_values_ok _ _ _ _ Hnd Hok1) as [Hd Hk].
  split; [done|]. split; [|split].
  - intros k Hk'. destruct (Hok0 k) as (d & Hd' & Hv); [by apply elem_of_btree_keys|].
    apply Hm in Hd' as [? ?]. eauto.
  - intros d Hin. specialize (Hd d Hin). destruct (input_source raw d); [done|].
    by rewrite lookup_empty in Hd.
  - intros k Hkn. by rewrite Hk, lookup_empty.
Qed.
End InputLemmas.

Section InputTypes.
Context {JN : JsonNumbers} {CH : Chrono} {DF : DebugFmt}.
Implicit Types (d : VariableDefinition).

Definition ratio_le (a b : Decimal) : Prop :=
  coefficient a * 10 ^ scale b <= coefficient b * 10 ^ scale a.

(** Within the declared minimum, maximum and step. *)
Definition within_bounds d (x : Decimal) : Prop :=
  (forall raw, vd_minimum d = Some raw -> exists m, parse raw = Ok m /\ ratio_le m x) /\
  (forall raw, vd_maximum d = Some raw -> exists m, parse raw = Ok m /\ ratio_le x m) /\
  (forall raw, vd_step d = Some raw -> exists st base,
     parse raw = Ok st /\ 0 < coefficient st /\
     match vd_minimum d with Some m => parse m = Ok base | None => base = from_integer 0 end /\
     is_step_from x base st = Ok true).

Definition within_dates {D} (dparse : string -> option D) (cmp : D -> D -> comparison) d (x : D)
  : Prop :=
  (forall raw, vd_minimum d = Some raw -> exists m, dparse raw = Some m /\ cmp x m <> Lt) /\
  (forall raw, vd_maximum d = Some raw -> exists m, dparse raw = Some m /\ cmp x m <> Gt).

(** The type of a definition's values. *)
Definition value_fits d (pv : ValidatedValue) : Prop :=
  match vd_kind d, pv with
  | KNumber, VVNumber x => wf_decimal x /\ within_bounds d x
  | KInteger, VVInteger z => in_i64 z = true /\ within_bounds d (from_integer z)
  | KBoolean, VVBoolean _ => True
  | KDate, VVDate x => within_dates date_parse date_cmp d x
  | KDateTime, VVDateTime x => within_dates datetime_parse datetime_cmp d x
  | KSelect, VVSelect s => s ∈ vd_allowed_values d
  | KMultiSelect, VVMultiSelect l => NoDup l /\ l ⊆ vd_allowed_values d
  | KText, VVText s =>
      chars_count s <= DEFAULT_MAX_TEXT_LENGTH /\
      (forall m, vd_maximum_length d = Some m -> chars_count s <= m)
  | _, _ => False
  end.

Lemma compare_ok_ratio a b c :
  wf_decimal a -> wf_decimal b -> compare a b = Ok c ->
  (c <> Lt -> ratio_le b a) /\ (c <> Gt -> ratio_le a b).
Proof.
  intros Ha Hb Hc. destruct (compare_cases a b Ha Hb) as [H|[H _]]; rewrite H in Hc; [|done].
  injection Hc as <-. unfold ratio_le.
  destruct (Z.compare_spec (coefficient a * 10 ^ scale b) (coefficient b * 10 ^ scale a));
    split; intros; try done; lia.
Qed.

Lemma validate_bounds_ok d x u :
  wf_decimal x -> validate_bounds d x = Ok u -> within_bounds d x.
Proof.
  intros Hx H. unfold validate_bounds in H. cbv zeta in H.
  apply bind_ok in H as (mn & Hmn & H). apply map_err_ok, transpose_map_ok in Hmn.
  apply bind_ok in H as (mx & Hmx & H). apply map_err_ok, transpose_map_ok in Hmx.
  apply bind_ok in H as ([] & Hlo & H). apply bind_ok in H as ([] & Hhi & H).
  split; [|split].
  - intros raw Hraw. destruct Hmn as [[? _]|(s & m & Hs & Hm & ->)]; [congruence|].
    assert (s = raw) as -> by congruence. exists m. split; [done|].
    apply bind_ok in Hlo as (c & Hc & Hlt). apply map_err_ok in Hc.
    apply (compare_ok_ratio x m c Hx (parse_wf _ _ Hm) Hc). by destruct c.
  - intros raw Hraw. destruct Hmx as [[? _]|(s & m & Hs & Hm & ->)]; [congruence|].
    assert (s = raw) as -> by congruence. exists m. split; [done|].
    apply bind_ok in Hhi as (c & Hc & Hgt). apply map_err_ok in Hc.
    apply (compare_ok_ratio x m c Hx (parse_wf _ _ Hm) Hc). by destruct c.
  - intros raw Hraw. rewrite Hraw in H.
    apply bind_ok in H as (st & Hst & H). apply map_err_ok in Hst.
    apply bind_ok in H as (b & Hb & H). apply map_err_ok in Hb.
    apply err_if_ok, negb_false_iff in H. subst b.
    exists st, (default (from_integer 0) mn). split; [done|].
    assert (wf_decimal (default (from_integer 0) mn)) as Hbase.
    { destruct Hmn as [[_ ->]|(s & m & _ & Hm & ->)]; simpl; eauto with money. }
    destruct (is_step_from_spec x (default (from_integer 0) mn) st true Hx Hbase
                (parse_wf _ _ Hst) Hb) as [Hpos _].
    split; [done|]. split; [|done].
    destruct Hmn as [[-> ->]|(s & m & -> & Hm & ->)]; done.
Qed.

(** Both date validators have this shape. *)
Ltac date_bounds_tac H :=
  cbv zeta in H;
  let Hmn := fresh in let Hlo := fresh in let Hmx := fresh in let Hhi := fresh in
  apply bind_ok in H as (? & Hmn%transpose_map_ok & H);
  apply bind_ok in H as (? & Hlo%err_if_ok & H);
  apply bind_ok in H as (? & Hmx%transpose_map_ok & Hhi%err_if_ok);
  split; intros raw Hraw;
  [ clear Hmx Hhi; destruct Hmn as [[? _]|(? & ? & ? & ?%ok_or_ok & ->)]
  | clear Hmn Hlo; destruct Hmx as [[? _]|(? & ? & ? & ?%ok_or_ok & ->)] ];
  simplify_eq; eexists; (split; [done|]); repeat case_match; done.

Lemma date_bounds_ok d x u :
  validate_date_bounds d x = Ok u -> within_dates date_parse date_cmp d x.
Proof. intros H. unfold validate_date_bounds in H. date_bounds_tac H. Qed.

Lemma date_time_bounds_ok d x u :
  validate_date_time_bounds d x = Ok u -> within_dates datetime_parse datetime_cmp d x.
Proof. intros H. unfold validate_date_time_bounds in H. date_bounds_tac H. Qed.

(** The loop accepts exactly lists of distinct allowed strings. *)
Lemma parse_options_ok d vs parsed unique l :
  (forall s, s ∈ unique <-> s ∈ parsed) ->
  parse_options d vs parsed unique = Ok l <->
  exists ss, vs = map VString ss /\ l = parsed ++ ss /\ ss ⊆ vd_allowed_values d /\
    NoDup ss /\ (forall s, s ∈ ss -> s ∉ parsed).
Proof.
  revert parsed unique. induction vs as [|v vs IH]; intros parsed unique Hu; cbn [parse_options].
  { split.
    - intros [= <-]. exists []. rewrite app_nil_r. repeat split; try set_solver. constructor.
    - intros ([|? ?] & ? & -> & _); [|done]. by rewrite app_nil_r. }
  assert (forall s0, forall s, s ∈ {[s0]} ∪ unique <-> s ∈ parsed ++ [s0]) as Hu' by set_solver.
  split.
  - intros H. inv_ok H. apply negb_false_iff, existsb_eqb_elem in Hok0.
    apply bool_decide_eq_false in Hok1. rewrite Hu in Hok1.
    apply (IH _ _ (Hu' _)) in H as (ss & -> & -> & Hal & Hnd & Hfr).
    exists (x :: ss). destruct v; try discriminate Hok. injection Hok as ->.
    rewrite <- app_assoc. repeat split; try done; [set_solver| |set_solver].
    constructor; [|done]. intros Hin. apply (Hfr _ Hin). set_solver.
  - intros ([|s ss] & Hvs & -> & Hal & Hnd & Hfr); [done|]. injection Hvs as -> ->.
    apply NoDup_cons in Hnd as [Hs Hnd]. simpl.
    apply bind_ok. exists tt. split.
    { apply err_if_ok, negb_false_iff, existsb_eqb_elem. set_solver. }
    apply bind_ok. exists tt. split.
    { apply err_if_ok, bool_decide_eq_false. rewrite Hu. apply Hfr. set_solver. }
    apply (IH _ _ (Hu' _)). exists ss. rewrite <- app_assoc.
    repeat split; try done; [set_solver|]. intros s' Hs'.
    assert (s' ∉ parsed) by (apply Hfr; set_solver).
    rewrite elem_of_app, elem_of_cons. intros [?|[->|?%elem_of_nil]]; done.
Qed.

Lemma integer_of_range v z : integer_of v = Some z -> in_i64 z = true.
Proof.
  unfold integer_of. destruct (as_i64 v) eqn:Hv.
  - intros [= <-]. destruct v; try discriminate Hv. by eapply number_as_i64_range.
  - intros H. apply bind_Some in H as (s & _ & H). by eapply parse_i64_range.
Qed.

Lemma parse_input_fits d v pv (H : parse_input d v = Ok pv) : value_fits d pv.
Proof.
  unfold parse_input in H. unfold value_fits.
  destruct (vd_kind d); cbv zeta in H; inv_ok H; subst; simpl.
  - assert (wf_decimal x) by (unfold from_json in Hok; destruct v; eauto with money; done).
    split; [done|]. by eapply validate_bounds_ok.
  - apply integer_of_range in Hok. split; [done|].
    eapply validate_bounds_ok; [|done]. auto with money.
  - done.
  - by eapply date_bounds_ok.
  - by eapply date_time_bounds_ok.
  - by apply negb_false_iff, existsb_eqb_elem in Hok0.
  - apply (parse_options_ok d x [] ∅) in Hok0 as (ss & _ & -> & Hal & Hnd & _); [|set_solver].
    done.
  - split; [lia|]. intros m Hm. rewrite Hm in Hok0. simpl in Hok0. lia.
Qed.

(** C39. Type soundness of input validation: a value [parse_input] accepts has
    the definition's kind and lies within everything the definition declares:
    minimum, maximum and step of a number, allowed options of a select
    (distinct ones for a multi-select), length of a text. *)
Theorem parse_input_sound d v pv (H : parse_input d v = Ok pv) : value_fits d pv.
Proof. exact (parse_input_fits d v pv H). Qed.

Lemma from_json_no_panic v : no_panic (from_json v).
Proof. destruct v; simpl; auto with outcome. Qed.
Hint Resolve from_json_no_panic : outcome.

Lemma equals_json_no_panic v e : no_panic (equals_json v e).
Proof.
  assert (forall l, no_panic (mapM (M:=outcome string)
    (fun value => ok_or (as_str value) "comparison value must be a text array") l)) as Hm.
  { induction l as [|x l IH]; [done|]. simpl. apply no_panic_bind; [auto with outcome|].
    intros y _. apply no_panic_bind; auto with outcome. }
  destruct v; simpl; no_panic_tac.
Qed.

Lemma ordered_json_no_panic v e : no_panic (ordered_json v e).
Proof. destruct v; simpl; no_panic_tac. Qed.

Lemma validate_bounds_no_panic d x : no_panic (validate_bounds d x).
Proof.
  unfold validate_bounds. cbv zeta.
  do 4 (apply no_panic_bind; [no_panic_tac|intros ? ?]). destruct (vd_step d); [|done].
  apply no_panic_bind; [auto with outcome|intros st Hst%map_err_ok].
  apply no_panic_bind; [|auto with outcome]. apply no_panic_map_err, is_step_from_no_panic.
  apply parse_wf, wf_normal in Hst. apply Hst.
Qed.

Lemma parse_options_no_panic d vs parsed unique : no_panic (parse_options d vs parsed unique).
Proof.
  revert parsed unique. induction vs as [|v vs IH]; intros; simpl; [done|]. no_panic_tac.
Qed.

Lemma parse_input_no_panic d v : no_panic (parse_input d v).
Proof.
  unfold parse_input. pose proof validate_bounds_no_panic. pose proof parse_options_no_panic.
  assert (forall x, no_panic (validate_date_bounds d x))
    by (intros; unfold validate_date_bounds; no_panic_tac).
  assert (forall x, no_panic (validate_date_time_bounds d x))
    by (intros; unfold validate_date_time_bounds; no_panic_tac).
  destruct (vd_kind d); no_panic_tac.
Qed.

Lemma validate_variable_definitions_no_panic defs :
  no_panic (validate_variable_definitions defs).
Proof.
  unfold validate_variable_definitions. generalize (∅ : gmap string VariableDefinition).
  induction defs; intros; simpl; [done|]. no_panic_tac.
Qed.

Lemma validate_inputs_no_panic defs raw scope : no_panic (validate_inputs defs raw scope).
Proof.
  unfold validate_inputs. repeat apply no_panic_bind.
  - apply validate_variable_definitions_no_panic.
  - intros m _. apply no_panic_bind.
    + induction (btree_keys raw); simpl; [done|]. no_panic_tac.
    + intros _ _. apply no_panic_bind; [|done].
      generalize (∅ : gmap string ValidatedValue). pose proof parse_input_no_panic.
      induction defs; intros; simpl; [done|]. no_panic_tac.
Qed.

(** Input scoping: on the public paths (storefront preview and direct
    checkout) a hidden or admin-only variable cannot be supplied, and its
    value is the one its configured default evaluates to, whatever the
    request carried. *)
Theorem public_scope_uses_defaults (defs : list VariableDefinition) (raw : gmap string Value)
  (inputs : ValidatedInputs) d
  (H : validate_inputs defs raw ScopePublic = Ok inputs)
  (Hin : d ∈ defs) (Hvis : vd_visibility d <> VisPublic) :
  raw !! vd_key d = None /\
  match vd_default_value d with
  | Some v => exists pv, parse_input d v = Ok pv /\ values inputs !! vd_key d = Some pv
  | None => vd_required d = false /\ values inputs !! vd_key d = None
  end.
Proof.
  destruct (validate_inputs_ok _ _ _ _ H) as (Hnd & Hraw & Hd & _).
  assert (raw !! vd_key d = None) as Hnone.
  { destruct (raw !! vd_key d) eqn:Hr; [|done]. exfalso.
    destruct (Hraw (vd_key d)) as (d' & Hin' & Hk & Hv); [by eauto|].
    apply Hvis. rewrite (definition_unique defs d d') by done. by apply Hv. }
  split; [done|]. specialize (Hd d Hin). unfold input_source in Hd. by rewrite Hnone in Hd.
Qed.

(** Normalised inputs are a fixed point of validation: parsing the JSON
    form of an accepted value against the same definition accepts it again
    and yields the same value, so a preset saved in normal form prices at
    checkout as it did when it was saved. *)
Theorem parse_input_normalized `{!JsonNumberLaws JN, !ChronoLaws CH} d v pv
  (H : parse_input d v = Ok pv) : parse_input d (normalized_json pv) = Ok pv.
Proof.
  pose proof (parse_input_fits d v pv H) as Hfit. unfold value_fits in Hfit.
  unfold parse_input in *. destruct (vd_kind d); cbv zeta in *; inv_ok H; subst; simpl in *.
  - destruct Hfit as [Hwf _]. rewrite canonical_parse by done. simpl. by rewrite Hok0.
  - destruct Hfit as [Hr _]. unfold integer_of. simpl. rewrite number_i64_roundtrip by done.
    simpl. by rewrite Hok0.
  - done.
  - rewrite (date_roundtrip _ _ Hok0). simpl. by rewrite Hok1.
  - rewrite (datetime_roundtrip _ _ Hok0). simpl. by rewrite Hok1.
  - by rewrite Hok0.
  - destruct Hfit as [Hnd Hal]. apply bind_ok. exists x0. split; [|done].
    apply parse_options_ok; [set_solver|]. exists x0. repeat split; try done. set_solver.
  - by rewrite Hok0.
Qed.
End InputTypes.

(** ** Witnesses *)
Definition sample_kg : VariableDefinition :=
  sample_number "kg" (Some "0.5") (Some "20") (Some "0.5") VisPublic None.
Definition sample_margin : VariableDefinition :=
  sample_number "margin" None None None VisHidden (Some (VString "1.10")).
Definition sample_defs : list VariableDefinition := [sample_kg; sample_margin].
Definition sample_raw : gmap string Value := {["kg" := VString "2"]}.
(** Decides that a run returns a given number, without normalising the
    instances the types mention. *)
Lemma is_number (m : PResult ValidatedValue) x :
  match m with Ok (VVNumber y) => bool_decide (y = x) | _ => false end = true ->
  m = Ok (VVNumber x).
Proof. intros H. repeat case_match; try discriminate. by apply bool_decide_eq_true in H as ->. Qed.

Lemma parse_input_sound_witness :
  parse_input sample_kg (VString "2.50") = Ok (VVNumber (mkDecimal 25 1)) /\
  value_fits sample_kg (VVNumber (mkDecimal 25 1)).
Proof.
  assert (parse_input sample_kg (VString "2.50") = Ok (VVNumber (mkDecimal 25 1))) as H
    by (apply is_number; vm_compute; reflexivity).
  split; [exact H|]. exact (parse_input_sound _ _ _ H).
Defined.

Lemma parse_input_normalized_witness :
  parse_input sample_kg (VString "2.50") = Ok (VVNumber (mkDecimal 25 1)) /\
  parse_input sample_kg (normalized_json (VVNumber (mkDecimal 25 1))) =
    Ok (VVNumber (mkDecimal 25 1)).
Proof.
  assert (parse_input sample_kg (VString "2.50") = Ok (VVNumber (mkDecimal 25 1))) as H
    by (apply is_number; vm_compute; reflexivity).
  split; [exact H|]. exact (parse_input_normalized _ _ _ H).
Defined.

Lemma public_scope_uses_defaults_witness :
  exists inputs, validate_inputs sample_defs sample_raw ScopePublic = Ok inputs /\
    exists pv, parse_input sample_margin (VString "1.10") = Ok pv /\
      values inputs !! "margin" = Some pv.
Proof.
  destruct (is_ok_exists (validate_inputs sample_defs sample_raw ScopePublic)) as [inputs H];
    [vm_compute; reflexivity|].
  exists inputs. split; [exact H|].
  apply (public_scope_uses_defaults sample_defs sample_raw inputs sample_margin H).
  - apply list_elem_of_further, list_elem_of_here.
  - discriminate.
Defined.
