(* ===== verification/OfferConditions.v ===== *)
(** * Offer conditions ([blocks/products/offer_pricing.rs], lines 521-640)

    The recursive evaluator of a component's condition over the validated
    inputs, with its depth limit, against a strong-Kleene reading of the tree. *)
From Stdlib Require Import String.
From S2P Require Import Prelude Ints Str Contracts Money SampleLib OfferInputs.

Definition MAX_CONDITION_DEPTH : Z := 32.

Section ShortCircuit.
Context {E A : Type} (f : A -> outcome E bool).

(** [for x in xs { if !f(x)? { return Ok(false) } } Ok(true)] *)
Fixpoint try_all (xs : list A) : outcome E bool :=
  match xs with
  | [] => Ok true
  | x :: xs => b ← f x; if negb b then Ok false else try_all xs
  end.

(** [for x in xs { if f(x)? { return Ok(true) } } Ok(false)] *)
Fixpoint try_any (xs : list A) : outcome E bool :=
  match xs with
  | [] => Ok false
  | x :: xs => b ← f x; if (b : bool) then Ok true else try_any xs
  end.
End ShortCircuit.

Section Conditions.
Context {JN : JsonNumbers} {CH : Chrono}.

Definition input (inputs : ValidatedInputs) (key : string) : PResult ValidatedValue :=
  ok_or (values inputs !! key)
    (pricing_error "condition_input_missing" (Some key)
       "condition references an input with no value").

Definition condition_error (key : string) (message : string) : PricingError :=
  pricing_error "invalid_condition" (Some key) message.

Definition ordered_comparison (inputs : ValidatedInputs) (key : string) (expected : Value)
  : PResult comparison :=
  v ← input inputs key;
  map_err (condition_error key) (ordered_json v expected).

Definition input_equals (inputs : ValidatedInputs) (key : string) (value : Value)
  : PResult bool :=
  v ← input inputs key;
  map_err (condition_error key) (equals_json v value).

Fixpoint evaluate_condition_at (condition : Condition) (inputs : ValidatedInputs) (depth : Z)
  : PResult bool :=
  if MAX_CONDITION_DEPTH <? depth then
    Err (pricing_error "invalid_condition" None "condition tree is too deeply nested")
  else
  match condition with
  | Always => Ok true
  | All conditions =>
      try_all (fun condition => evaluate_condition_at condition inputs (depth + 1)) conditions
  | Any conditions =>
      try_any (fun condition => evaluate_condition_at condition inputs (depth + 1)) conditions
  | Not condition =>
      b ← evaluate_condition_at condition inputs (depth + 1); Ok (negb b)
  | Present key => Ok (bool_decide (is_Some (values inputs !! key)))
  | Equals key value => input_equals inputs key value
  | NotEquals key value => equals ← input_equals inputs key value; Ok (negb equals)
  | GreaterThan key value =>
      c ← ordered_comparison inputs key value;
      Ok (match c with Gt => true | _ => false end)
  | GreaterThanOrEqual key value =>
      c ← ordered_comparison inputs key value;
      Ok (match c with Gt | Eq => true | Lt => false end)
  | LessThan key value =>
      c ← ordered_comparison inputs key value;
      Ok (match c with Lt => true | _ => false end)
  | LessThanOrEqual key value =>
      c ← ordered_comparison inputs key value;
      Ok (match c with Lt | Eq => true | Gt => false end)
  | In key values => try_any (fun value => input_equals inputs key value) values
  | Contains key value =>
      expected ← ok_or (as_str value) (condition_error key "contains value must be text");
      v ← input inputs key;
      match v with
      | VVMultiSelect values => Ok (existsb (fun value => String.eqb value expected) values)
      | VVText value => Ok (contains expected value)
      | _ => Err (condition_error key "contains requires text or multi-select input")
      end
  end.

Definition evaluate_condition (condition : Condition) (inputs : ValidatedInputs)
  : PResult bool := evaluate_condition_at condition inputs 0.
End Conditions.

(** ** Reference semantics

    A test of one input either has a truth value or fails; the connectives are
    read in strong Kleene logic, which does not depend on the order in which
    the branches are listed. *)
Section Kleene.
Context {JN : JsonNumbers} {CH : Chrono}.
Implicit Types (inputs : ValidatedInputs) (c : Condition).

Definition to_option {E A} (m : outcome E A) : option A :=
  match m with Ok a => Some a | _ => None end.

Definition is_connective c : bool :=
  match c with Always | All _ | Any _ | Not _ => true | _ => false end.

Definition kleene_all (l : list (option bool)) : option bool :=
  if existsb (fun o => bool_decide (o = Some false)) l then Some false
  else if forallb (fun o => bool_decide (o = Some true)) l then Some true else None.
Definition kleene_any (l : list (option bool)) : option bool :=
  if existsb (fun o => bool_decide (o = Some true)) l then Some true
  else if forallb (fun o => bool_decide (o = Some false)) l then Some false else None.

(** The truth value of one test, read off the tested value alone. *)
Definition equals_value inputs (key : string) (value : Value) : option bool :=
  v ← values inputs !! key; to_option (equals_json v value).
Definition order_value inputs (key : string) (value : Value) : option comparison :=
  v ← values inputs !! key; to_option (ordered_json v value).

Definition contains_value inputs (key : string) (value : Value) : option bool :=
  expected ← as_str value;
  match values inputs !! key with
  | Some (VVMultiSelect chosen) => Some (bool_decide (expected ∈ chosen))
  | Some (VVText text) => Some (contains expected text)
  | _ => None
  end.

Definition test_value inputs c : option bool :=
  match c with
  | Present key => Some (bool_decide (key ∈ dom (values inputs)))
  | Equals key value => equals_value inputs key value
  | NotEquals key value => negb <$> equals_value inputs key value
  | GreaterThan key value => (fun o => bool_decide (o = Gt)) <$> order_value inputs key value
  | GreaterThanOrEqual key value => (fun o => bool_decide (o <> Lt)) <$> order_value inputs key value
  | LessThan key value => (fun o => bool_decide (o = Lt)) <$> order_value inputs key value
  | LessThanOrEqual key value => (fun o => bool_decide (o <> Gt)) <$> order_value inputs key value
  | In key options => kleene_any (map (equals_value inputs key) options)
  | Contains key value => contains_value inputs key value
  | _ => None
  end.

Definition is_some {A} (o : option A) : bool := match o with Some _ => true | None => false end.

Fixpoint kleene inputs c : option bool :=
  match c with
  | Always => Some true
  | All cs => kleene_all (map (kleene inputs) cs)
  | Any cs => kleene_any (map (kleene inputs) cs)
  | Not c => negb <$> kleene inputs c
  | c => test_value inputs c
  end.

Fixpoint cond_depth c : Z :=
  match c with
  | All cs | Any cs => foldr (fun c n => Z.max (1 + cond_depth c) n) 0 cs
  | Not c => 1 + cond_depth c
  | _ => 0
  end.

(** Every test of the tree has a truth value, the branches of an [In] too. *)
Fixpoint tests_defined inputs c : bool :=
  match c with
  | Always => true
  | All cs | Any cs => forallb (tests_defined inputs) cs
  | Not c => tests_defined inputs c
  | In key options => forallb (fun value => is_some (equals_value inputs key value)) options
  | c => is_some (test_value inputs c)
  end.

(** The classical truth value, meaningful when every test is defined. *)
Fixpoint denote inputs c : bool :=
  match c with
  | Always => true
  | All cs => forallb (denote inputs) cs
  | Any cs => existsb (denote inputs) cs
  | Not c => negb (denote inputs c)
  | In key options => existsb (fun value => default false (equals_value inputs key value)) options
  | c => default false (test_value inputs c)
  end.
End Kleene.

Section ConditionLemmas.
Context {JN : JsonNumbers} {CH : Chrono}.
Implicit Types (inputs : ValidatedInputs) (c : Condition).

Lemma try_all_ok {E A} (f : A -> outcome E bool) xs b :
  try_all f xs = Ok b ->
  if b then Forall (fun x => f x = Ok true) xs else Exists (fun x => f x = Ok false) xs.
Proof.
  induction xs as [|x xs IH]; simpl; [by intros [= <-]; constructor|].
  intros H. apply bind_ok in H as ([|] & Hx & H); simpl in H; [|injection H as <-; by constructor].
  specialize (IH H). destruct b; by constructor.
Qed.

Lemma try_any_ok {E A} (f : A -> outcome E bool) xs b :
  try_any f xs = Ok b ->
  if b then Exists (fun x => f x = Ok true) xs else Forall (fun x => f x = Ok false) xs.
Proof.
  induction xs as [|x xs IH]; simpl; [by intros [= <-]; constructor|].
  intros H. apply bind_ok in H as ([|] & Hx & H); simpl in H; [injection H as <-; by constructor|].
  specialize (IH H). destruct b; by constructor.
Qed.

Lemma try_all_defined {E A} (f : A -> outcome E bool) (g : A -> bool) xs :
  Forall (fun x => f x = Ok (g x)) xs -> try_all f xs = Ok (forallb g xs).
Proof. induction 1 as [|x xs Hx _ IH]; simpl; [done|]. rewrite Hx. simpl. by destruct (g x). Qed.

Lemma try_any_defined {E A} (f : A -> outcome E bool) (g : A -> bool) xs :
  Forall (fun x => f x = Ok (g x)) xs -> try_any f xs = Ok (existsb g xs).
Proof. induction 1 as [|x xs Hx _ IH]; simpl; [done|]. rewrite Hx. simpl. by destruct (g x). Qed.

Lemma try_no_panic {E A} (f : A -> outcome E bool) xs :
  (forall x, x ∈ xs -> no_panic (f x)) -> no_panic (try_all f xs) /\ no_panic (try_any f xs).
Proof.
  intros H. induction xs as [|x xs IH]; simpl; [done|].
  destruct IH as [IH1 IH2]; [set_solver|].
  assert (no_panic (f x)) by set_solver.
  split; apply no_panic_bind; try done; intros [|] _; done.
Qed.

Lemma kleene_all_some l (b : bool) :
  (if b then Forall (eq (Some true)) l else Exists (eq (Some false)) l) -> kleene_all l = Some b.
Proof.
  unfold kleene_all. destruct b; intros H.
  - assert (existsb (fun o => bool_decide (o = Some false)) l = false) as ->.
    { induction H as [|x l <- _ IH]; [done|]. simpl. by rewrite IH. }
    assert (forallb (fun o => bool_decide (o = Some true)) l = true) as ->; [|done].
    induction H as [|x l <- _ IH]; [done|]. simpl. by rewrite IH.
  - assert (existsb (fun o => bool_decide (o = Some false)) l = true) as ->; [|done].
    induction H as [x l <-|x l _ IH]; [done|]. simpl. by rewrite IH, orb_true_r.
Qed.

Lemma kleene_any_some l (b : bool) :
  (if b then Exists (eq (Some true)) l else Forall (eq (Some false)) l) -> kleene_any l = Some b.
Proof.
  unfold kleene_any. destruct b; intros H.
  - assert (existsb (fun o => bool_decide (o = Some true)) l = true) as ->; [|done].
    induction H as [x l <-|x l _ IH]; [done|]. simpl. by rewrite IH, orb_true_r.
  - assert (existsb (fun o => bool_decide (o = Some true)) l = false) as ->.
    { induction H as [|x l <- _ IH]; [done|]. simpl. by rewrite IH. }
    assert (forallb (fun o => bool_decide (o = Some false)) l = true) as ->; [|done].
    induction H as [|x l <- _ IH]; [done|]. simpl. by rewrite IH.
Qed.

Lemma kleene_test c inputs : is_connective c = false -> kleene inputs c = test_value inputs c.
Proof. by destruct c. Qed.

Lemma to_option_bind {E A B} (m : outcome E A) (f : A -> outcome E B) :
  to_option (m ≫= f) = a ← to_option m; to_option (f a).
Proof. by destruct m. Qed.

Lemma to_option_ok {E A} (m : outcome E A) a : to_option m = Some a <-> m = Ok a.
Proof. destruct m; simpl; split; congruence. Qed.

Lemma to_option_equals inputs key value :
  to_option (input_equals inputs key value) = equals_value inputs key value.
Proof.
  unfold input_equals, equals_value, input. destruct (values inputs !! key) as [v|]; simpl; [|done].
  by destruct (equals_json v value).
Qed.

Lemma to_option_ordered inputs key value :
  to_option (ordered_comparison inputs key value) = order_value inputs key value.
Proof.
  unfold ordered_comparison, order_value, input. destruct (values inputs !! key) as [v|]; simpl; [|done].
  by destruct (ordered_json v value).
Qed.

Lemma existsb_elem x (l : list string) :
  existsb (fun value => String.eqb value x) l = bool_decide (x ∈ l).
Proof.
  apply Bool.eq_iff_eq_true. rewrite bool_decide_eq_true, existsb_exists. split.
  - intros (y & Hy & ->%String.eqb_eq). by apply list_elem_of_In.
  - intros H. exists x. split; [by apply list_elem_of_In|apply String.eqb_refl].
Qed.

(** Every test but [In] evaluates to its reference value. *)
Definition is_in c : bool := match c with In _ _ => true | _ => false end.

Lemma evaluate_test c inputs depth :
  is_connective c = false -> is_in c = false -> depth <= MAX_CONDITION_DEPTH ->
  to_option (evaluate_condition_at c inputs depth) = test_value inputs c.
Proof.
  intros Hc Hi Hd%Z.ltb_ge.
  destruct c; try discriminate Hc; try discriminate Hi; cbn [evaluate_condition_at test_value];
    rewrite Hd; rewrite ?to_option_bind, ?to_option_equals, ?to_option_ordered; try done.
  - simpl. f_equal. apply bool_decide_ext. symmetry. apply elem_of_dom.
  - by destruct (order_value _ _ _) as [[]|].
  - by destruct (order_value _ _ _) as [[]|].
  - by destruct (order_value _ _ _) as [[]|].
  - by destruct (order_value _ _ _) as [[]|].
  - unfold contains_value, input. destruct (as_str value) as [expected|]; [|done]. simpl.
    destruct (values inputs !! input0) as [[]|]; simpl; try done. by rewrite existsb_elem.
Qed.

Lemma evaluate_in inputs key options depth b :
  evaluate_condition_at (In key options) inputs depth = Ok b ->
  kleene_any (map (equals_value inputs key) options) = Some b.
Proof.
  cbn [evaluate_condition_at]. destruct (_ <? _); [done|]. intros He%try_any_ok. apply kleene_any_some.
  destruct b; [apply Exists_fmap; eapply Exists_impl|apply Forall_fmap; eapply Forall_impl];
    [exact He| |exact He|]; intros v Hv; unfold compose; by rewrite <- to_option_equals, Hv.
Qed.

Lemma depth_of_ok c inputs depth b :
  evaluate_condition_at c inputs depth = Ok b -> depth <= MAX_CONDITION_DEPTH.
Proof.
  intros He. apply Z.ltb_ge. destruct c; cbn [evaluate_condition_at] in He;
    by destruct (MAX_CONDITION_DEPTH <? depth).
Qed.

Lemma evaluate_test_ok c inputs depth b :
  is_connective c = false -> evaluate_condition_at c inputs depth = Ok b -> test_value inputs c = Some b.
Proof.
  intros Hc He. destruct (is_in c) eqn:Hi; [destruct c; try discriminate Hi; by eapply evaluate_in|].
  rewrite <- (evaluate_test c inputs depth Hc Hi) by by eapply depth_of_ok. by rewrite He.
Qed.

Lemma evaluate_at_kleene c inputs depth b :
  evaluate_condition_at c inputs depth = Ok b -> kleene inputs c = Some b.
Proof.
  revert depth b. induction c using condition_ind'; intros depth b He.
  all: try solve [rewrite kleene_test by done; by eapply evaluate_test_ok].
  all: cbn [evaluate_condition_at] in He; destruct (MAX_CONDITION_DEPTH <? depth); [discriminate|].
  - by injection He as <-.
  - simpl. apply kleene_all_some. apply try_all_ok in He. destruct b.
    + apply Forall_fmap. rewrite Forall_forall in *. intros c Hc. symmetry. by eapply H, He.
    + apply Exists_fmap. rewrite Exists_exists in *. destruct He as (c & Hc & He).
      exists c. split; [done|]. symmetry. rewrite Forall_forall in H. by eapply H.
  - simpl. apply kleene_any_some. apply try_any_ok in He. destruct b.
    + apply Exists_fmap. rewrite Exists_exists in *. destruct He as (c & Hc & He).
      exists c. split; [done|]. symmetry. rewrite Forall_forall in H. by eapply H.
    + apply Forall_fmap. rewrite Forall_forall in *. intros c Hc. symmetry. by eapply H, He.
  - apply bind_ok in He as (b' & Hb & [= <-]). simpl. by rewrite (IHc _ _ Hb).
Qed.

(** A defined test evaluates to its classical value. *)
Lemma evaluate_defined_test c inputs depth :
  is_connective c = false -> depth <= MAX_CONDITION_DEPTH -> tests_defined inputs c = true ->
  evaluate_condition_at c inputs depth = Ok (denote inputs c).
Proof.
  intros Hc Hd Ht. destruct (is_in c) eqn:Hi.
  - destruct c; try discriminate Hi. cbn [evaluate_condition_at tests_defined denote] in *.
    rewrite (proj2 (Z.ltb_ge _ _) Hd). apply try_any_defined.
    rewrite forallb_forall in Ht. rewrite Forall_forall. intros v Hv%list_elem_of_In.
    specialize (Ht v Hv). apply to_option_ok. rewrite to_option_equals. by destruct (equals_value _ _ _).
  - apply to_option_ok. rewrite (evaluate_test c inputs depth Hc Hi Hd).
    assert (is_some (test_value inputs c) = true /\ denote inputs c = default false (test_value inputs c))
      as [Hs ->] by by destruct c.
    by destruct (test_value inputs c).
Qed.

Lemma cond_depth_list cs c : c ∈ cs ->
  1 + cond_depth c <= foldr (fun c n => Z.max (1 + cond_depth c) n) 0 cs.
Proof.
  induction cs as [|c' cs IH]; [by intros ?%not_elem_of_nil|].
  intros [->|Hc]%elem_of_cons; simpl; [lia|]. specialize (IH Hc). lia.
Qed.

Lemma cond_depth_nonneg c : 0 <= cond_depth c.
Proof.
  induction c using condition_ind'; simpl; try lia; induction H; simpl; lia.
Qed.

Lemma evaluate_at_denote c inputs depth :
  depth + cond_depth c <= MAX_CONDITION_DEPTH -> tests_defined inputs c = true ->
  evaluate_condition_at c inputs depth = Ok (denote inputs c).
Proof.
  revert depth. induction c using condition_ind'; intros depth Hd Ht.
  all: try solve [simpl in Hd; apply evaluate_defined_test; [done|lia|done]].
  all: pose proof (cond_depth_nonneg) as Hnn.
  all: cbn [cond_depth tests_defined denote] in *; cbn [evaluate_condition_at].
  all: try (rewrite forallb_forall in Ht).
  - by rewrite (proj2 (Z.ltb_ge MAX_CONDITION_DEPTH depth)) by lia.
  - assert (depth <= MAX_CONDITION_DEPTH).
    { destruct cs as [|c cs]; simpl in Hd; [lia|]. specialize (Hnn c). lia. }
    rewrite (proj2 (Z.ltb_ge MAX_CONDITION_DEPTH depth)) by lia.
    apply try_all_defined. rewrite Forall_forall in *. intros c Hc.
    pose proof (cond_depth_list cs c Hc). apply H; [done|lia|]. by apply Ht, list_elem_of_In.
  - assert (depth <= MAX_CONDITION_DEPTH).
    { destruct cs as [|c cs]; simpl in Hd; [lia|]. specialize (Hnn c). lia. }
    rewrite (proj2 (Z.ltb_ge MAX_CONDITION_DEPTH depth)) by lia.
    apply try_any_defined. rewrite Forall_forall in *. intros c Hc.
    pose proof (cond_depth_list cs c Hc). apply H; [done|lia|]. by apply Ht, list_elem_of_In.
  - specialize (Hnn c). rewrite (proj2 (Z.ltb_ge MAX_CONDITION_DEPTH depth)) by lia.
    by rewrite IHc by (try done; lia).
Qed.

Lemma input_no_panic inputs key : no_panic (input inputs key).
Proof. apply no_panic_ok_or. Qed.

Lemma input_equals_no_panic inputs key v : no_panic (input_equals inputs key v).
Proof.
  apply no_panic_bind; [apply input_no_panic|intros].
  apply no_panic_map_err, equals_json_no_panic.
Qed.

Lemma ordered_comparison_no_panic inputs key v : no_panic (ordered_comparison inputs key v).
Proof.
  apply no_panic_bind; [apply input_no_panic|intros].
  apply no_panic_map_err, ordered_json_no_panic.
Qed.
Hint Resolve input_no_panic input_equals_no_panic ordered_comparison_no_panic : outcome.

Lemma evaluate_at_no_panic c inputs depth : no_panic (evaluate_condition_at c inputs depth).
Proof.
  revert depth. induction c using condition_ind'; intros depth; cbn [evaluate_condition_at];
    (destruct (MAX_CONDITION_DEPTH <? depth); [done|]).
  all: try solve [no_panic_tac].
  - apply try_no_panic. intros c Hc. by apply (proj1 (Forall_forall _ _) H).
  - apply try_no_panic. intros c Hc. by apply (proj1 (Forall_forall _ _) H).
  - apply try_no_panic. auto with outcome.
Qed.

(** Soundness of the condition evaluator: a truth value it returns is the
    strong-Kleene value of the tree over the truth values of its tests, so
    short-circuiting over failing branches never depends on the order in
    which a condition lists them. *)
Theorem evaluate_condition_sound c inputs b
  (H : evaluate_condition c inputs = Ok b) : kleene inputs c = Some b.
Proof. by eapply evaluate_at_kleene. Qed.

(** Completeness of the condition evaluator: on a tree no deeper than
    [MAX_CONDITION_DEPTH] whose tests are all defined it returns the classical
    truth value. *)
Theorem evaluate_condition_complete c inputs
  (Hdepth : cond_depth c <= MAX_CONDITION_DEPTH) (Htests : tests_defined inputs c = true) :
  evaluate_condition c inputs = Ok (denote inputs c).
Proof. apply evaluate_at_denote; [|done]. lia. Qed.

Lemma not_chain_at inputs n depth : 0 <= depth ->
  evaluate_condition_at (Nat.iter n Not Always) inputs depth =
  if depth + Z.of_nat n <=? MAX_CONDITION_DEPTH then Ok (Nat.even n)
  else Err (pricing_error "invalid_condition" None "condition tree is too deeply nested").
Proof.
  revert depth. induction n as [|n IH]; intros depth Hd.
  - simpl. unfold MAX_CONDITION_DEPTH. rewrite Z.add_0_r, Z.leb_antisym. by destruct (32 <? depth).
  - change (Nat.iter (S n) Not Always) with (Not (Nat.iter n Not Always)).
    cbn [evaluate_condition_at]. rewrite IH by lia. unfold MAX_CONDITION_DEPTH.
    replace (depth + Z.of_nat (S n)) with (depth + 1 + Z.of_nat n) by lia.
    destruct (Z.ltb_spec 32 depth), (Z.leb_spec (depth + 1 + Z.of_nat n) 32); try lia; try done.
    cbn -[Nat.even]. by rewrite Nat.even_succ, <- Nat.negb_even.
Qed.

(** The depth limit is exact: 32 nested connectives evaluate, 33 are an
    [invalid_condition] error. *)
Theorem condition_depth_limit inputs n :
  evaluate_condition (Nat.iter n Not Always) inputs =
  if Z.of_nat n <=? MAX_CONDITION_DEPTH then Ok (Nat.even n)
  else Err (pricing_error "invalid_condition" None "condition tree is too deeply nested").
Proof. by apply not_chain_at. Qed.
End ConditionLemmas.

#[export] Hint Resolve input_no_panic evaluate_at_no_panic : outcome.

(** ** Witnesses *)
Definition sample_inputs : ValidatedInputs :=
  {| values := {["color" := VVSelect "red"; "kg" := VVNumber (mkDecimal 25 1)]} |}.
Definition sample_condition : Condition :=
  All [Any [Equals "color" (VString "red"); Equals "missing" (VString "x")];
       LessThan "kg" (VString "3")].
Definition sample_defined_condition : Condition :=
  Any [Not (Equals "color" (VString "red")); GreaterThanOrEqual "kg" (VString "2.5")].

Lemma is_ok_true {E} (m : outcome E bool) :
  match m with Ok b => b | _ => false end = true -> m = Ok true.
Proof. by destruct m as [[|]| |]. Qed.

Lemma evaluate_condition_sound_witness :
  evaluate_condition sample_condition sample_inputs = Ok true /\
  kleene sample_inputs sample_condition = Some true.
Proof.
  assert (evaluate_condition sample_condition sample_inputs = Ok true) as H
    by (apply is_ok_true; vm_compute; reflexivity).
  split; [exact H|]. exact (evaluate_condition_sound _ _ _ H).
Defined.

Lemma evaluate_condition_complete_witness :
  cond_depth sample_defined_condition = 2 /\
  evaluate_condition sample_defined_condition sample_inputs = Ok (denote sample_inputs sample_defined_condition).
Proof.
  split; [reflexivity|].
  apply evaluate_condition_complete; [by_computation|vm_compute; reflexivity].
Defined.
