(* ===== verification/OfferAmounts.v ===== *)
(** * Offer amounts and quantities ([blocks/products/offer_pricing.rs], lines 642-879)

    The seven amount rules and the two quantity rules of a component. *)
From Stdlib Require Import String.
From S2P Require Import Prelude Ints Str Contracts Money SampleLib OfferInputs OfferConditions.

Section Amounts.
Context {JN : JsonNumbers} {CH : Chrono}.

Definition decimal_input (inputs : ValidatedInputs) (key : string) : PResult Decimal :=
  v ← input inputs key;
  ok_or (decimal v)
    (pricing_error "invalid_offer" (Some key) "amount rule requires a numeric input").

Definition whole_input (inputs : ValidatedInputs) (key model : string) : PResult Z :=
  d ← decimal_input inputs key;
  ok_or (as_u64 d)
    (pricing_error "invalid_input" (Some key)
       (String.append model " pricing requires a non-negative whole number")).

Definition checked_tier_amount (units unit_amount_minor flat_amount_minor : Z)
  : outcome string Z :=
  ok_or (amount ← checked_mul in_i128 units unit_amount_minor;
         checked_add in_i128 amount flat_amount_minor)
    "calculated amount is too large".

Definition amount_overflow (key : string) : PricingError :=
  pricing_error "amount_overflow" (Some key) "calculated amount is too large".

(** The [for tier in tiers] loop, [previous] and [total] its variables. *)
Fixpoint graduated_loop (key : string) (units : Z) (tiers : list PricingTier)
    (previous total : Z) : PResult Z :=
  match tiers with
  | [] => Ok total
  | tier :: tiers =>
      let upper := default u64_max (up_to tier) in
      let tier_units := saturating_sub (Z.min units upper) previous in
      total ←
        (if 0 <? tier_units then
           amount ← map_err (pricing_error "amount_overflow" (Some key))
                      (checked_tier_amount tier_units (tier_unit_amount_minor tier)
                         (tier_flat_amount_minor tier));
           ok_or (checked_add in_i128 total amount) (amount_overflow key)
         else Ok total);
      if units <=? upper then Ok total else graduated_loop key units tiers upper total
  end.

(** [tiers.iter().find(|tier| tier.up_to.is_none_or(|upper| units <= upper))] *)
Fixpoint covering_tier (units : Z) (tiers : list PricingTier) : option PricingTier :=
  match tiers with
  | [] => None
  | tier :: tiers =>
      if match up_to tier with None => true | Some upper => units <=? upper end
      then Some tier else covering_tier units tiers
  end.

Definition tiered_amount (inputs : ValidatedInputs) (key : string) (tiers : list PricingTier)
    (graduated : bool) : PResult Z :=
  units ← whole_input inputs key (if graduated then "graduated" else "volume");
  amount ←
    (if graduated then graduated_loop key units tiers 0 0
     else
       tier ← ok_or (covering_tier units tiers)
         (pricing_error "invalid_offer" (Some key) "volume tiers do not cover this input");
       map_err (pricing_error "amount_overflow" (Some key))
         (checked_tier_amount units (tier_unit_amount_minor tier) (tier_flat_amount_minor tier)));
  ok_or (checked in_i64 amount) (amount_overflow key).

Definition per_unit_amount (inputs : ValidatedInputs) (key : string) (unit_amount_minor : Z)
  : PResult Z :=
  d ← decimal_input inputs key;
  amount ← map_err (pricing_error "invalid_input" (Some key)) (multiply_minor d unit_amount_minor);
  _ ← err_if (amount <? 0)
        (pricing_error "invalid_input" (Some key) "per-unit amounts must not be negative");
  Ok amount.

(** The [match rounding] of a package: [checked_div] is [None] on a zero
    divisor, [%] panics. *)
Definition package_count (key : string) (units units_per_package : Z) (rounding : PackageRounding)
  : PResult Z :=
  match rounding with
  | RoundUp =>
      ok_or (value ← checked_add in_u64 units (saturating_sub units_per_package 1);
             if units_per_package =? 0 then None else Some (Z.quot value units_per_package))
        (pricing_error "amount_overflow" (Some key) "package quantity is too large")
  | RoundExact =>
      r ← rust_rem units units_per_package;
      if r =? 0 then rust_div units units_per_package
      else Err (pricing_error "invalid_input" (Some key)
                  "input must be an exact multiple of the package size")
  end.

Definition resolve_amount (rule : AmountRule) (inputs : ValidatedInputs) : PResult Z :=
  amount ←
    match rule with
    | Fixed unit_amount_minor => Ok unit_amount_minor
    | PerUnit key unit_amount_minor => per_unit_amount inputs key unit_amount_minor
    | FlatPlusPerUnit base_amount_minor key unit_amount_minor =>
        amount ← per_unit_amount inputs key unit_amount_minor;
        ok_or (checked_add in_i64 amount base_amount_minor) (amount_overflow key)
    | Lookup key prices =>
        v ← input inputs key;
        selected ← ok_or (scalar v)
          (pricing_error "invalid_offer" (Some key)
             "lookup amount requires select or text input");
        ok_or (prices !! selected)
          (pricing_error "invalid_input" (Some key) "selected value has no configured price")
    | Graduated key tiers => tiered_amount inputs key tiers true
    | Volume key tiers => tiered_amount inputs key tiers false
    | Package key units_per_package package_amount_minor rounding =>
        units ← whole_input inputs key "package";
        packages ← package_count key units units_per_package rounding;
        product ← ok_or (checked_mul in_i128 packages package_amount_minor) (amount_overflow key);
        ok_or (checked in_i64 product) (amount_overflow key)
    end;
  _ ← err_if (amount <? 0)
        (pricing_error "invalid_offer" None "component amounts must not be negative");
  Ok amount.

Definition resolve_quantity (rule : QuantityRule) (inputs : ValidatedInputs) : PResult Z :=
  match rule with
  | QFixed value =>
      if 0 <? value then Ok value
      else Err (pricing_error "invalid_offer" None "component quantity must be greater than zero")
  | QFromInput key minimum maximum =>
      d ← decimal_input inputs key;
      quantity ← ok_or (as_u64 d)
        (pricing_error "invalid_input" (Some key) "quantity must be a non-negative whole number");
      _ ← err_if ((quantity <? minimum) ||
                  match maximum with Some maximum => maximum <? quantity | None => false end)
            (pricing_error "invalid_input" (Some key) "quantity is outside the component bounds");
      Ok quantity
  end.
End Amounts.

(** ** Tier validation ([validate_tiers]) *)
(** The loop over the tiers; [is_last] is [index + 1 == tiers.len()]. *)
Fixpoint validate_tiers_loop (tiers : list PricingTier) (previous : Z) : outcome string unit :=
  match tiers with
  | [] => Ok tt
  | tier :: rest =>
      if (tier_unit_amount_minor tier <? 0) || (tier_flat_amount_minor tier <? 0) then
        Err "tier amounts must not be negative"
      else
        let is_last := match rest with [] => true | _ => false end in
        match up_to tier with
        | Some upper =>
            if (previous <? upper) && negb is_last then validate_tiers_loop rest upper
            else if is_last then Err "the final tier must be open ended"
            else Err "tier bounds must be strictly increasing"
        | None =>
            if is_last then Ok tt else Err "only the final tier may be open ended"
        end
  end.

Definition validate_tiers (tiers : list PricingTier) : outcome string unit :=
  match tiers with
  | [] => Err "tiers must not be empty"
  | _ => validate_tiers_loop tiers 0
  end.

(** ** Reference prices *)

(** Bounds strictly increasing from [lower], the last tier open ended, no
    negative amount. *)
Inductive tiers_from : Z -> list PricingTier -> Prop :=
| tiers_last lower t :
    up_to t = None -> 0 <= tier_unit_amount_minor t -> 0 <= tier_flat_amount_minor t ->
    tiers_from lower [t]
| tiers_cons lower t upper ts :
    up_to t = Some upper -> lower < upper ->
    0 <= tier_unit_amount_minor t -> 0 <= tier_flat_amount_minor t ->
    tiers_from upper ts -> tiers_from lower (t :: ts).

(** The sum of [f (lo + 1) .. f (lo + n)]. *)
Fixpoint sum_range (f : Z -> Z) (lo : Z) (n : nat) : Z :=
  match n with O => 0 | S n => f (lo + 1) + sum_range f (lo + 1) n end.

(** The price of the [u]-th unit is the one of the tier that contains it. *)
Definition unit_price (tiers : list PricingTier) (u : Z) : Z :=
  match covering_tier u tiers with Some tier => tier_unit_amount_minor tier | None => 0 end.

(** The flat fees of the tiers the quantity reaches into. *)
Fixpoint flat_fees (tiers : list PricingTier) (lower units : Z) : Z :=
  match tiers with
  | [] => 0
  | tier :: tiers =>
      (if lower <? units then tier_flat_amount_minor tier else 0) +
      flat_fees tiers (default u64_max (up_to tier)) units
  end.

Definition graduated_price (tiers : list PricingTier) (units : Z) : Z :=
  sum_range (unit_price tiers) 0 (Z.to_nat units) + flat_fees tiers 0 units.

(** An amount that must fit a signed 64-bit integer. *)
Definition amount_result (key : string) (amount : Z) : PResult Z :=
  ok_or (checked in_i64 amount) (amount_overflow key).

Section TierLemmas.
Implicit Types (tiers : list PricingTier) (t : PricingTier).

Lemma validate_tiers_loop_ok tiers lower :
  tiers <> [] -> validate_tiers_loop tiers lower = Ok tt <-> tiers_from lower tiers.
Proof.
  revert lower. induction tiers as [|t tiers IH]; intros lower Hne; [done|]. clear Hne.
  cbn [validate_tiers_loop].
  destruct (Z.ltb_spec (tier_unit_amount_minor t) 0); simpl.
  { split; [done|]. inversion 1; lia. }
  destruct (Z.ltb_spec (tier_flat_amount_minor t) 0); simpl.
  { split; [done|]. inversion 1; lia. }
  destruct (up_to t) as [upper|] eqn:Hup; destruct tiers as [|t' tiers].
  - rewrite andb_false_r. split; [done|]. intros Ht. inversion Ht; subst; [congruence|].
    match goal with H : tiers_from _ [] |- _ => inversion H end.
  - rewrite andb_true_r. destruct (Z.ltb_spec lower upper).
    + rewrite (IH upper) by done. split; [eauto using tiers_from|].
      intros Ht. inversion Ht; subst; by simplify_eq.
    + split; [done|]. intros Ht. inversion Ht; simplify_eq. lia.
  - split; [eauto using tiers_from|done].
  - split; [done|]. intros Ht. inversion Ht; simplify_eq.
Qed.

Lemma validate_tiers_ok tiers : validate_tiers tiers = Ok tt <-> tiers_from 0 tiers.
Proof.
  destruct tiers as [|t tiers]; [split; [done|inversion 1]|]. by apply validate_tiers_loop_ok.
Qed.

Lemma sum_range_const f lo n c :
  (forall u, lo < u <= lo + Z.of_nat n -> f u = c) -> sum_range f lo n = c * Z.of_nat n.
Proof.
  revert lo. induction n as [|n IH]; intros lo Hf; simpl; [lia|].
  rewrite Hf, IH by (intros; try apply Hf; lia). lia.
Qed.

Lemma sum_range_app f lo n m :
  sum_range f lo (n + m) = sum_range f lo n + sum_range f (lo + Z.of_nat n) m.
Proof.
  revert lo. induction n as [|n IH]; intros lo; cbn [sum_range Nat.add Z.of_nat].
  - by rewrite Z.add_0_r.
  - rewrite IH. replace (lo + 1 + Z.of_nat n) with (lo + Z.of_nat (S n)) by lia. lia.
Qed.

Lemma sum_range_ext f g lo n :
  (forall u, lo < u <= lo + Z.of_nat n -> f u = g u) -> sum_range f lo n = sum_range g lo n.
Proof.
  revert lo. induction n as [|n IH]; intros lo Hf; simpl; [done|].
  rewrite Hf, IH by (intros; try apply Hf; lia). done.
Qed.

Lemma flat_fees_above tiers lower units :
  tiers_from lower tiers -> units <= lower -> units <= u64_max -> flat_fees tiers lower units = 0.
Proof.
  intros Ht. induction Ht as [lower t Hup _ _|lower t upper ts Hup Hlt _ _ _ IH]; intros Hu Hm; simpl.
  - destruct (Z.ltb_spec lower units); lia.
  - rewrite Hup. simpl. destruct (Z.ltb_spec lower units); [lia|]. apply IH; lia.
Qed.

Lemma flat_fees_monotone tiers lower units units' :
  tiers_from lower tiers -> units <= units' ->
  flat_fees tiers lower units <= flat_fees tiers lower units'.
Proof.
  intros Ht Hle. induction Ht as [? ? Hup|? ? ? ? Hup ? ? ? ? IH]; simpl; rewrite ?Hup; simpl;
    repeat case_match; lia.
Qed.

(** What the loop adds to its running total, without the overflow checks. *)
Fixpoint graduated_value tiers (previous units : Z) : Z :=
  match tiers with
  | [] => 0
  | t :: tiers =>
      let upper := default u64_max (up_to t) in
      let tier_units := saturating_sub (Z.min units upper) previous in
      (if 0 <? tier_units then tier_units * tier_unit_amount_minor t + tier_flat_amount_minor t
       else 0) +
      (if units <=? upper then 0 else graduated_value tiers upper units)
  end.

Lemma graduated_value_nonneg tiers lower units :
  tiers_from lower tiers -> 0 <= graduated_value tiers lower units.
Proof.
  intros Ht. induction Ht as [lower t Hup Hu Hf|lower t upper ts Hup Hlt Hu Hf _ IH]; simpl;
    rewrite Hup; simpl; unfold saturating_sub; repeat case_match; lia || nia.
Qed.

(** Tier by tier is unit by unit. *)
Lemma graduated_value_units tiers lower units :
  tiers_from lower tiers -> lower <= units <= u64_max ->
  graduated_value tiers lower units =
  sum_range (unit_price tiers) lower (Z.to_nat (units - lower)) + flat_fees tiers lower units.
Proof.
  intros Ht. induction Ht as [lower t Hup _ _|lower t upper ts Hup Hlt _ _ Hts IH]; intros Hu.
  - simpl. rewrite Hup. simpl. unfold saturating_sub.
    rewrite (sum_range_const _ _ _ (tier_unit_amount_minor t))
      by (intros; unfold unit_price; simpl; by rewrite Hup).
    rewrite Z.min_l, Z2Nat.id, (proj2 (Z.leb_le units u64_max)) by lia.
    rewrite Z.max_r by lia.
    destruct (Z.ltb_spec 0 (units - lower)), (Z.ltb_spec lower units);
        [ring|lia|lia|]. replace (units - lower) with 0 by lia. ring.
  - cbn [graduated_value flat_fees]. rewrite Hup. cbn [default from_option id]. unfold saturating_sub.
    assert (forall u, lower < u <= upper -> unit_price (t :: ts) u = tier_unit_amount_minor t) as Hin.
    { intros u Hr. unfold unit_price. simpl. rewrite Hup. by rewrite (proj2 (Z.leb_le u upper)) by lia. }
    destruct (Z.leb_spec units upper).
    + rewrite (sum_range_const _ _ _ (tier_unit_amount_minor t)) by (intros; apply Hin; lia).
      rewrite (flat_fees_above ts upper units) by (done || lia).
      rewrite Z.min_l, Z2Nat.id by lia.
      rewrite Z.max_r by lia.
      destruct (Z.ltb_spec 0 (units - lower)), (Z.ltb_spec lower units);
        [ring|lia|lia|]. replace (units - lower) with 0 by lia. ring.
    + rewrite IH by lia.
      replace (Z.to_nat (units - lower))
        with (Z.to_nat (upper - lower) + Z.to_nat (units - upper))%nat by lia.
      rewrite sum_range_app, Z2Nat.id by lia.
      rewrite (sum_range_const _ lower _ (tier_unit_amount_minor t)) by (intros; apply Hin; lia).
      rewrite (sum_range_ext (unit_price (t :: ts)) (unit_price ts) (lower + (upper - lower))).
      2:{ intros u Hr. unfold unit_price. simpl. rewrite Hup.
          by rewrite (proj2 (Z.leb_gt u upper)) by lia. }
      replace (lower + (upper - lower)) with upper by lia.
      rewrite Z.min_r, Z2Nat.id by lia.
      rewrite Z.max_r by lia.
      destruct (Z.ltb_spec 0 (upper - lower)), (Z.ltb_spec lower units); lia.
Qed.

Lemma checked_tier_amount_eq units unit flat : 0 <= units -> 0 <= unit -> 0 <= flat ->
  checked_tier_amount units unit flat =
  ok_or (checked in_i128 (units * unit + flat)) "calculated amount is too large".
Proof.
  intros. unfold checked_tier_amount, checked_mul, checked_add, checked.
  assert (0 <= units * unit) by nia. set (product := units * unit) in *.
  assert (in_i128 (product + flat) = true -> in_i128 product = true) as Hin by (int_ranges; lia).
  destruct (in_i128 product) eqn:Hp; simpl; [done|].
  destruct (in_i128 (product + flat)); [|done]. by specialize (Hin eq_refl); congruence.
Qed.

(** One tier's contribution to the running total. *)
Lemma tier_step_eq key tu unit flat total :
  0 <= tu -> 0 <= unit -> 0 <= flat -> 0 <= total -> in_i128 total = true ->
  (if 0 <? tu then
     amount ← map_err (pricing_error "amount_overflow" (Some key))
                (checked_tier_amount tu unit flat);
     ok_or (checked_add in_i128 total amount) (amount_overflow key)
   else Ok total) =
  ok_or (checked in_i128 (total + (if 0 <? tu then tu * unit + flat else 0))) (amount_overflow key).
Proof.
  intros. destruct (Z.ltb_spec 0 tu).
  - rewrite checked_tier_amount_eq by lia. assert (0 <= tu * unit) by nia.
    set (amount := tu * unit + flat).
    assert (in_i128 (total + amount) = true -> in_i128 amount = true) as Hin by (int_ranges; lia).
    unfold checked_add, checked, amount_overflow.
    destruct (in_i128 amount) eqn:Ha; simpl; [done|].
    destruct (in_i128 (total + amount)); [|done]. by specialize (Hin eq_refl); congruence.
  - unfold checked. by rewrite Z.add_0_r, H3.
Qed.

(** An [i128] overflow on the way is an [i64] overflow of the result. *)
Lemma graduated_loop_eq key units tiers lower total :
  tiers_from lower tiers -> 0 <= total -> in_i128 total = true ->
  graduated_loop key units tiers lower total ≫= amount_result key =
  amount_result key (total + graduated_value tiers lower units).
Proof.
  intros Ht. revert total. induction Ht as [lower t Hup Hu Hf|lower t upper ts Hup Hlt Hu Hf Hts IH];
    intros total Htot Hr; cbn [graduated_loop graduated_value]; rewrite Hup;
    cbn [default from_option id]; cbv zeta; set (tu := saturating_sub _ _);
    assert (0 <= tu) by (unfold tu, saturating_sub; lia);
    rewrite tier_step_eq by done;
    set (part := if 0 <? tu then _ else 0);
    assert (0 <= part) by (unfold part; case_match; nia).
  - unfold checked. destruct (in_i128 (total + part)) eqn:Hp; simpl.
    + repeat case_match; simpl; by rewrite Z.add_0_r.
    + unfold amount_result, checked.
      assert (in_i64 (total + (part + (if units <=? u64_max then 0 else 0))) = false) as ->; [|done].
      int_ranges. case_match; lia.
  - pose proof (graduated_value_nonneg ts upper units Hts).
    unfold checked. destruct (in_i128 (total + part)) eqn:Hp; simpl.
    + destruct (units <=? upper); simpl; [by rewrite Z.add_0_r|]. rewrite IH by (done || lia).
      f_equal. lia.
    + unfold amount_result, checked.
      set (rest := if units <=? upper then 0 else _).
      assert (0 <= rest) by (unfold rest; case_match; lia).
      assert (in_i64 (total + (part + rest)) = false) as ->; [|done]. int_ranges. lia.
Qed.

Lemma covering_tier_some tiers lower units : tiers_from lower tiers ->
  exists i t, covering_tier units tiers = Some t /\ tiers !! i = Some t /\
    (forall upper, up_to t = Some upper -> units <= upper) /\
    (forall j t', (j < i)%nat -> tiers !! j = Some t' ->
       exists upper, up_to t' = Some upper /\ upper < units) /\
    0 <= tier_unit_amount_minor t /\ 0 <= tier_flat_amount_minor t.
Proof.
  induction 1 as [lower t Hup ? ?|lower t upper ts Hup Hlt ? ? _ IH]; simpl; rewrite Hup.
  - exists 0%nat, t. repeat split; try done; try lia. by rewrite Hup.
  - destruct (Z.leb_spec units upper).
    + exists 0%nat, t. repeat split; try done; try lia. intros u Hu. simplify_eq. done.
    + destruct IH as (i & t' & Hc & Hi & Hcov & Hbefore & ? & ?). exists (S i), t'.
      repeat split; try done. intros [|j] t'' Hj Hl; simpl in Hl; [simplify_eq; eauto|].
      apply (Hbefore j); [lia|done].
Qed.
End TierLemmas.

Section AmountLemmas.
Context {JN : JsonNumbers} {CH : Chrono}.
Implicit Types (inputs : ValidatedInputs) (tiers : list PricingTier).

Lemma whole_input_range inputs key model units :
  whole_input inputs key model = Ok units -> 0 <= units <= u64_max.
Proof.
  unfold whole_input, as_u64. intros H. inv_ok H.
  apply bind_Some in H as (p & _ & H). case_match; [done|].
  apply checked_some in H as [-> Hr]. by apply in_u64_spec.
Qed.

Lemma graduated_amount_eq inputs key tiers units :
  tiers_from 0 tiers -> whole_input inputs key "graduated" = Ok units ->
  tiered_amount inputs key tiers true = amount_result key (graduated_value tiers 0 units).
Proof.
  intros Ht Hu. unfold tiered_amount. rewrite Hu. simpl.
  pose proof (graduated_loop_eq key units tiers 0 0 Ht ltac:(done) ltac:(done)) as Hl.
  unfold amount_result in Hl at 1. by rewrite Hl.
Qed.

Lemma volume_amount_eq inputs key tiers units :
  tiers_from 0 tiers -> whole_input inputs key "volume" = Ok units ->
  exists i t, tiers !! i = Some t /\
    (forall upper, up_to t = Some upper -> units <= upper) /\
    (forall j t', (j < i)%nat -> tiers !! j = Some t' ->
       exists upper, up_to t' = Some upper /\ upper < units) /\
    0 <= tier_unit_amount_minor t /\ 0 <= tier_flat_amount_minor t /\
    tiered_amount inputs key tiers false =
      amount_result key (units * tier_unit_amount_minor t + tier_flat_amount_minor t).
Proof.
  intros Ht Hu. apply whole_input_range in Hu as Hr.
  destruct (covering_tier_some tiers 0 units Ht) as (i & t & Hc & Hi & Hcov & Hb & Hp & Hf).
  exists i, t. do 5 (split; [done|]).
  unfold tiered_amount. rewrite Hu. simpl. rewrite Hc. simpl.
  rewrite checked_tier_amount_eq by lia. unfold amount_result, checked.
  assert (0 <= units * tier_unit_amount_minor t) by nia. set (amount := units * _ + _).
  assert (in_i64 amount = true -> in_i128 amount = true) as Hin by (int_ranges; lia).
  destruct (in_i128 amount) eqn:Ha; simpl; [done|].
  destruct (in_i64 amount); [|done]. by specialize (Hin eq_refl); congruence.
Qed.

(** C32. Graduated pricing: over validated tiers the loop charges each unit at
    the price of the tier that contains it, plus the flat fee of every tier
    the quantity reaches into; it fails exactly when that price does not fit
    an [i64], the intermediate 128-bit overflow checks included. *)
Theorem tiered_amount_graduated inputs key tiers units
  (Ht : validate_tiers tiers = Ok tt)
  (Hu : whole_input inputs key "graduated" = Ok units) :
  tiered_amount inputs key tiers true = amount_result key (graduated_price tiers units).
Proof.
  apply validate_tiers_ok in Ht. apply whole_input_range in Hu as Hr.
  rewrite (graduated_amount_eq inputs key tiers units Ht Hu). f_equal.
  rewrite graduated_value_units by (done || lia). unfold graduated_price. by rewrite Z.sub_0_r.
Qed.

(** Volume pricing: over validated tiers the whole quantity is charged at
    the one tier that covers it (the first whose bound is not below the
    quantity, which always exists), and the call fails exactly when the
    price does not fit an [i64]. *)
Theorem tiered_amount_volume inputs key tiers units
  (Ht : validate_tiers tiers = Ok tt)
  (Hu : whole_input inputs key "volume" = Ok units) :
  exists i t, tiers !! i = Some t /\
    (forall upper, up_to t = Some upper -> units <= upper) /\
    (forall j t', (j < i)%nat -> tiers !! j = Some t' ->
       exists upper, up_to t' = Some upper /\ upper < units) /\
    tiered_amount inputs key tiers false =
      amount_result key (units * tier_unit_amount_minor t + tier_flat_amount_minor t).
Proof.
  apply validate_tiers_ok in Ht.
  destruct (volume_amount_eq inputs key tiers units Ht Hu) as (i & t & ? & ? & ? & _ & _ & ?).
  eauto 10.
Qed.

(** The numbers among validated inputs are well formed. *)
Definition inputs_typed inputs : Prop :=
  forall k v, values inputs !! k = Some v ->
    match v with VVNumber d => wf_decimal d | VVInteger z => in_i64 z = true | _ => True end.

Lemma decimal_input_wf inputs key d :
  inputs_typed inputs -> decimal_input inputs key = Ok d -> wf_decimal d.
Proof.
  intros Hin H. unfold decimal_input, input in H. inv_ok H. specialize (Hin key x Hok).
  destruct x; try discriminate H; simpl in H; injection H as <-; auto with money.
Qed.

Lemma whole_input_decimal inputs key model units :
  inputs_typed inputs -> whole_input inputs key model = Ok units ->
  exists d, decimal_input inputs key = Ok d /\ units * 10 ^ scale d = coefficient d.
Proof.
  intros Hin H. unfold whole_input in H. inv_ok H. exists x. split; [done|].
  apply as_u64_spec in H as [H _]; [done|]. by eapply decimal_input_wf.
Qed.

Lemma amount_result_ok key z a : amount_result key z = Ok a <-> a = z /\ in_i64 z = true.
Proof. unfold amount_result. by rewrite ok_or_ok, checked_some. Qed.

(** Flat plus per-unit pricing is exact: the amount is the base plus the
    mathematical product of the input and the rate, never a rounding of it;
    a product that is not a whole number of minor units, a negative
    contribution, a negative sum and an overflow are all errors. *)
Theorem flat_plus_per_unit_exact inputs base key unit d a
  (Hin : inputs_typed inputs) (Hd : decimal_input inputs key = Ok d) :
  resolve_amount (FlatPlusPerUnit base key unit) inputs = Ok a <->
  (a - base) * 10 ^ scale d = coefficient d * unit /\
  0 <= a - base <= i64_max /\ 0 <= a <= i64_max /\ in_i128 (coefficient d * unit) = true.
Proof.
  assert (wf_decimal d) as Hwf by by eapply decimal_input_wf.
  unfold resolve_amount, per_unit_amount. rewrite Hd. split.
  - intros H. apply bind_ok in H as (s & H & Ha). inv_ok Ha. subst s.
    apply bind_ok in H as (p & Hp & H). cbn [mbind outcome_bind] in Hp. inv_ok Hp. subst x0.
    apply multiply_minor_ok in Hok0 as (Hm & H128 & H64); [|done].
    apply ok_or_ok, checked_some in H as [-> Hs]. replace (p + base - base) with p by lia.
    int_ranges. lia.
  - intros (Hm & Hc & Ha & H128). apply bind_ok. exists a.
    split; [|apply bind_ok; exists tt; split; [apply err_if_ok; lia|done]].
    apply bind_ok. exists (a - base). split.
    + cbn [mbind outcome_bind]. apply bind_ok. exists (a - base). split.
      * apply map_err_ok, multiply_minor_ok; [done|]. repeat split; try done. int_ranges. lia.
      * apply bind_ok. exists tt. split; [apply err_if_ok; lia|done].
    + apply ok_or_ok, checked_some. split; [lia|]. int_ranges. lia.
Qed.

(** Packages needed for [units]. *)
Definition packages (rounding : PackageRounding) (size units n : Z) : Prop :=
  match rounding with
  | RoundUp => size * (n - 1) < units <= size * n
  | RoundExact => units = size * n
  end.

Lemma package_count_ok key units size rounding n :
  0 < size -> 0 <= units ->
  package_count key units size rounding = Ok n <->
  packages rounding size units n /\ (rounding = RoundUp -> units + (size - 1) <= u64_max).
Proof.
  intros Hs Hu. destruct rounding; simpl.
  - unfold checked_add, saturating_sub. rewrite Z.max_r by lia.
    destruct (checked in_u64 (units + (size - 1))) as [v|] eqn:Hv; simpl.
    + apply checked_some in Hv as [-> Hv]. apply in_u64_spec in Hv.
      rewrite (proj2 (Z.eqb_neq size 0)), Z.quot_div_nonneg by lia. simpl.
      pose proof (Z.div_mod (units + (size - 1)) size ltac:(lia)).
      pose proof (Z.mod_pos_bound (units + (size - 1)) size Hs). split.
      * intros [= <-]. split; [|lia]. nia.
      * intros [Hn _]. f_equal. symmetry. apply (Z.div_unique_pos _ _ _ (units + (size-1) - size * n)); lia.
    + apply checked_none in Hv. split; [done|]. intros [_ Hr]. specialize (Hr eq_refl).
      int_ranges. lia.
  - unfold rust_rem, rust_div. rewrite (proj2 (Z.eqb_neq size 0)) by lia. simpl.
    rewrite Z.rem_mod_nonneg, Z.quot_div_nonneg by lia.
    pose proof (Z.div_mod units size ltac:(lia)).
    destruct (Z.eqb_spec (units mod size) 0) as [Hr|Hr]; split.
    + intros [= <-]. split; [lia|done].
    + intros [-> _]. f_equal. rewrite Z.mul_comm. apply Z.div_mul. lia.
    + done.
    + intros [-> _]. rewrite Z.mul_comm, Z.mod_mul in Hr by lia. done.
Qed.

(** Package pricing: the amount is the package price times the number of
    packages, which is the least number that holds the quantity when rounding
    up and the exact quotient otherwise; a quantity that is not a multiple is
    an error only under exact rounding. *)
Theorem package_amount_spec inputs key size price rounding units a
  (Hsize : 0 < size) (Hprice : 0 <= price)
  (Hu : whole_input inputs key "package" = Ok units) :
  resolve_amount (Package key size price rounding) inputs = Ok a <->
  a <= i64_max /\
  exists n, packages rounding size units n /\ a = n * price /\
    (rounding = RoundUp -> units + (size - 1) <= u64_max).
Proof.
  apply whole_input_range in Hu as Hr. unfold resolve_amount. rewrite Hu. cbn [mbind outcome_bind].
  assert (forall n, packages rounding size units n -> 0 <= n) as Hn
    by (destruct rounding; simpl; intros; nia).
  split.
  - intros H. apply bind_ok in H as (b & H & Ha). inv_ok Ha. subst b.
    apply bind_ok in H as (n & Hp & H). apply package_count_ok in Hp as [Hp Hov]; [|lia..].
    apply bind_ok in H as (q & Hq & H). apply ok_or_ok, checked_some in Hq as [-> _].
    apply ok_or_ok, checked_some in H as [-> H]. apply in_i64_spec in H. eauto 10 with lia.
  - intros (Hmax & n & Hp & -> & Hov). specialize (Hn n Hp). assert (0 <= n * price) by nia.
    apply bind_ok. exists (n * price).
    split; [|apply bind_ok; exists tt; split; [apply err_if_ok; lia|done]].
    apply bind_ok. exists n. split; [apply package_count_ok; [lia|lia|done]|].
    apply bind_ok. exists (n * price).
    split; apply ok_or_ok, checked_some; (split; [done|]); int_ranges; lia.
Qed.

(** Graduated pricing is monotone: under validated tiers a larger
    quantity never costs less (volume pricing has no such property). *)
Theorem graduated_price_monotone tiers units units'
  (Ht : validate_tiers tiers = Ok tt) (Hle : 0 <= units <= units') :
  graduated_price tiers units <= graduated_price tiers units'.
Proof.
  apply validate_tiers_ok in Ht. unfold graduated_price.
  replace (Z.to_nat units') with (Z.to_nat units + Z.to_nat (units' - units))%nat by lia.
  rewrite sum_range_app.
  assert (0 <= sum_range (unit_price tiers) (0 + Z.of_nat (Z.to_nat units)) (Z.to_nat (units' - units))).
  { generalize (0 + Z.of_nat (Z.to_nat units)).
    induction (Z.to_nat (units' - units)) as [|n IH]; intros lo; simpl; [lia|].
    specialize (IH (lo + 1)). unfold unit_price at 1.
    destruct (covering_tier_some tiers 0 (lo + 1) Ht) as (i & t & -> & _ & _ & _ & ? & _). lia. }
  pose proof (flat_fees_monotone tiers 0 units units' Ht ltac:(lia)). lia.
Qed.

(** Machine widths of a rule's fields. *)
Definition tier_typed (t : PricingTier) : Prop :=
  in_i64 (tier_unit_amount_minor t) = true /\ in_i64 (tier_flat_amount_minor t) = true /\
  forall u, up_to t = Some u -> in_u64 u = true.
Definition amount_rule_typed (rule : AmountRule) : Prop :=
  match rule with
  | Fixed unit | PerUnit _ unit => in_i64 unit = true
  | FlatPlusPerUnit base _ unit => in_i64 base = true /\ in_i64 unit = true
  | Lookup _ prices => map_Forall (fun _ price => in_i64 price = true) prices
  | Graduated _ tiers | Volume _ tiers => Forall tier_typed tiers
  | Package _ size price _ => in_u64 size = true /\ in_i64 price = true
  end.

Lemma multiply_minor_range d unit m : multiply_minor d unit = Ok m -> in_i64 m = true.
Proof.
  unfold multiply_minor. intros H. do 5 (apply bind_ok in H as (? & _ & H)).
  by apply ok_or_ok, checked_some in H as [-> ?].
Qed.

Lemma resolve_amount_range rule inputs a :
  amount_rule_typed rule -> resolve_amount rule inputs = Ok a -> 0 <= a <= i64_max.
Proof.
  intros Hty H. unfold resolve_amount in H. apply bind_ok in H as (b & H & Ha).
  inv_ok Ha. subst b. split; [lia|].
  enough (in_i64 a = true) by (int_ranges; lia).
  destruct rule; cbn [amount_rule_typed] in Hty.
  - by injection H as ->.
  - unfold per_unit_amount in H. inv_ok H. subst. by eapply multiply_minor_range.
  - apply bind_ok in H as (p & _ & H). by apply ok_or_ok, checked_some in H as [-> ?].
  - inv_ok H. by apply (Hty x1).
  - unfold tiered_amount in H. apply bind_ok in H as (u & _ & H). apply bind_ok in H as (m & _ & H).
    by apply ok_or_ok, checked_some in H as [-> ?].
  - unfold tiered_amount in H. apply bind_ok in H as (u & _ & H). apply bind_ok in H as (m & _ & H).
    by apply ok_or_ok, checked_some in H as [-> ?].
  - apply bind_ok in H as (u & _ & H). apply bind_ok in H as (m & _ & H).
    apply bind_ok in H as (q & _ & H). by apply ok_or_ok, checked_some in H as [-> ?].
Qed.

Lemma decimal_input_no_panic inputs key : no_panic (decimal_input inputs key).
Proof. unfold decimal_input. no_panic_tac. Qed.
Lemma whole_input_no_panic inputs key model : no_panic (whole_input inputs key model).
Proof. unfold whole_input. apply no_panic_bind; [apply decimal_input_no_panic|auto with outcome]. Qed.
Hint Resolve decimal_input_no_panic whole_input_no_panic : outcome.

Lemma per_unit_amount_no_panic inputs key unit :
  inputs_typed inputs -> no_panic (per_unit_amount inputs key unit).
Proof.
  intros Hin. unfold per_unit_amount. apply no_panic_bind; [auto with outcome|intros d Hd].
  apply no_panic_bind; [|intros; no_panic_tac].
  apply no_panic_map_err, multiply_minor_no_panic. by apply (decimal_input_wf _ _ _ Hin Hd).
Qed.

Lemma graduated_loop_no_panic key units tiers lower total :
  no_panic (graduated_loop key units tiers lower total).
Proof.
  revert lower total. induction tiers as [|t tiers IH]; intros; simpl; [done|].
  apply no_panic_bind; [unfold checked_tier_amount; no_panic_tac|].
  intros; destruct (units <=? _); [done|apply IH].
Qed.

(** The one panic of the amount rules is a package of size zero. *)
Lemma resolve_amount_no_panic rule inputs :
  inputs_typed inputs ->
  match rule with Package _ size _ _ => size <> 0 | _ => True end ->
  no_panic (resolve_amount rule inputs).
Proof.
  intros Hin Hrule. unfold resolve_amount. apply no_panic_bind; [|intros; no_panic_tac].
  pose proof (graduated_loop_no_panic). pose proof per_unit_amount_no_panic.
  destruct rule; unfold tiered_amount, checked_tier_amount.
  1-6: no_panic_tac.
  apply no_panic_bind; [auto with outcome|intros units _].
  apply no_panic_bind; [|intros; no_panic_tac].
  destruct rounding; simpl; [auto with outcome|].
  apply no_panic_bind; [by apply no_panic_rem|intros r _].
  case_match; [by apply no_panic_div|done].
Qed.

Lemma resolve_quantity_no_panic rule inputs : no_panic (resolve_quantity rule inputs).
Proof. destruct rule; simpl; no_panic_tac. Qed.

Lemma resolve_quantity_nonneg rule inputs q :
  resolve_quantity rule inputs = Ok q -> 0 <= q.
Proof.
  destruct rule; simpl; [case_match; intros [= <-]; lia|].
  intros H. inv_ok H. subst. unfold as_u64 in Hok0. apply bind_Some in Hok0 as (? & _ & H).
  destruct (_ || negb _); [done|]. apply checked_some in H as [-> H]. apply in_u64_spec in H. lia.
Qed.
End AmountLemmas.

#[export] Hint Resolve decimal_input_no_panic whole_input_no_panic resolve_amount_no_panic
  resolve_quantity_no_panic : outcome.

(** ** Witnesses *)
Definition sample_tiers : list PricingTier := [
  {| up_to := Some 10; tier_unit_amount_minor := 500; tier_flat_amount_minor := 100 |};
  {| up_to := Some 100; tier_unit_amount_minor := 400; tier_flat_amount_minor := 0 |};
  {| up_to := None; tier_unit_amount_minor := 300; tier_flat_amount_minor := 50 |} ].
Definition sample_units : ValidatedInputs :=
  {| values := {["n" := VVInteger 12; "kg" := VVNumber (mkDecimal 25 1)]} |}.

Lemma is_ok_Z {E} (m : outcome E Z) z :
  match m with Ok y => y =? z | _ => false end = true -> m = Ok z.
Proof. destruct m; try discriminate. by intros ->%Z.eqb_eq. Qed.

Lemma sample_units_whole model : whole_input sample_units "n" model = Ok 12.
Proof. apply is_ok_Z. vm_compute. reflexivity. Qed.

Lemma tiered_amount_graduated_witness :
  graduated_price sample_tiers 12 = 5900 /\
  tiered_amount sample_units "n" sample_tiers true =
    amount_result "n" (graduated_price sample_tiers 12).
Proof.
  split; [reflexivity|].
  apply tiered_amount_graduated; [reflexivity|apply sample_units_whole].
Defined.

Lemma tiered_amount_volume_witness :
  exists i t, sample_tiers !! i = Some t /\
    (forall upper, up_to t = Some upper -> 12 <= upper) /\
    (forall j t', (j < i)%nat -> sample_tiers !! j = Some t' ->
       exists upper, up_to t' = Some upper /\ upper < 12) /\
    tiered_amount sample_units "n" sample_tiers false =
      amount_result "n" (12 * tier_unit_amount_minor t + tier_flat_amount_minor t).
Proof. apply tiered_amount_volume; [reflexivity|apply sample_units_whole]. Defined.

Lemma graduated_price_monotone_witness :
  graduated_price sample_tiers 10 <= graduated_price sample_tiers 12.
Proof. apply graduated_price_monotone; [reflexivity|lia]. Defined.

Lemma sample_units_typed : inputs_typed sample_units.
Proof.
  intros k v H. simpl in H.
  apply lookup_insert_Some in H as [[_ <-]|[_ H]]; [reflexivity|].
  apply lookup_singleton_Some in H as [_ <-]. repeat split; by_computation.
Qed.

Lemma flat_plus_per_unit_exact_witness :
  decimal_input sample_units "kg" = Ok (mkDecimal 25 1) /\
  (resolve_amount (FlatPlusPerUnit 100 "kg" 200) sample_units = Ok 600 <->
   (600 - 100) * 10 ^ 1 = 25 * 200 /\
   0 <= 600 - 100 <= i64_max /\ 0 <= 600 <= i64_max /\ in_i128 (25 * 200) = true).
Proof.
  assert (decimal_input sample_units "kg" = Ok (mkDecimal 25 1)) as Hd by reflexivity.
  split; [exact Hd|].
  exact (flat_plus_per_unit_exact sample_units 100 "kg" 200 (mkDecimal 25 1) 600 sample_units_typed Hd).
Defined.

Lemma package_amount_spec_witness :
  resolve_amount (Package "n" 5 1000 RoundUp) sample_units = Ok 3000 <->
  3000 <= i64_max /\
  exists n, packages RoundUp 5 12 n /\ 3000 = n * 1000 /\
    (RoundUp = RoundUp -> 12 + (5 - 1) <= u64_max).
Proof. apply package_amount_spec; [lia|lia|apply sample_units_whole]. Defined.
