(* ===== verification/OfferValidate.v ===== *)
(** * Offer validation ([blocks/products/offer_pricing.rs], lines 881-1228)

    The checks an offer passes before it is stored and again before it is
    priced, and what a valid offer guarantees. *)
From Stdlib Require Import String.
From S2P Require Import Prelude Ints Str Contracts Money SampleLib OfferInputs OfferConditions OfferAmounts.

Section Validate.
Context {JN : JsonNumbers}.

Fixpoint condition_keys_exist (condition : Condition) (keys : gset string) : bool :=
  match condition with
  | Always => true
  | All conditions | Any conditions =>
      forallb (fun condition => condition_keys_exist condition keys) conditions
  | Not condition => condition_keys_exist condition keys
  | Present input | Equals input _ | NotEquals input _ | GreaterThan input _
  | GreaterThanOrEqual input _ | LessThan input _ | LessThanOrEqual input _
  | In input _ | Contains input _ => bool_decide (input ∈ keys)
  end.

Definition recurrence_matches (mode : OfferMode) (interval : option RecurringInterval)
    (interval_count : Z) (component : OfferComponent) : bool :=
  match mode, comp_recurrence component with
  | Payment, Some _ => false
  | Subscription, Some recurrence =>
      bool_decide (Some (rec_interval recurrence) = interval) &&
      (rec_interval_count recurrence =? interval_count)
  | _, _ => true
  end.

Definition opt_exists {A} (p : A -> bool) (o : option A) : bool :=
  match o with Some a => p a | None => false end.

(** ** Checkout policy *)
Definition invalid_offer (field message : string) : PricingError :=
  pricing_error "invalid_offer" (Some field) message.

(** The loop over [allowed_shipping_countries]. *)
Fixpoint validate_countries (allowed : list string) (countries : gset string) : PResult unit :=
  match allowed with
  | [] => Ok tt
  | country :: allowed =>
      let country := trim country in
      _ ← err_if (negb (str_len country =? 2) || negb (str_forall is_ascii_alphabetic country))
            (invalid_offer "checkout.allowed_shipping_countries"
               "shipping countries must be two-letter country codes");
      _ ← err_if (bool_decide (to_ascii_uppercase country ∈ countries))
            (invalid_offer "checkout.allowed_shipping_countries"
               "shipping countries must be unique");
      validate_countries allowed ({[to_ascii_uppercase country]} ∪ countries)
  end.

Definition validate_delivery_estimate (field : string) (estimate : ShippingDeliveryEstimate)
  : PResult unit :=
  _ ← err_if (bool_decide (est_minimum estimate = None) && bool_decide (est_maximum estimate = None))
        (invalid_offer field "a delivery estimate needs a minimum or maximum");
  err_if (bool_decide (est_minimum estimate = Some 0) || bool_decide (est_maximum estimate = Some 0)
          || match est_minimum estimate, est_maximum estimate with
             | Some min, Some max => max <? min
             | _, _ => false
             end)
    (invalid_offer field "delivery estimates must be positive and ordered").

(** The body of the loop over [shipping_options]. *)
Definition validate_shipping_option (index : Z) (option : ShippingOption) : PResult unit :=
  let field := String.append "checkout.shipping_options[" (String.append (dec index) "]") in
  let display_name := trim (ship_display_name option) in
  _ ← err_if (is_empty display_name || (100 <? chars_count display_name))
        (invalid_offer field "shipping option names must contain between 1 and 100 characters");
  _ ← err_if (ship_amount_minor option <? 0)
        (invalid_offer field "shipping amounts must not be negative");
  let stripe_id := trim (ship_stripe_shipping_rate_id option) in
  _ ← err_if (negb (is_empty stripe_id) &&
              (negb (starts_with "shr_" stripe_id) ||
               negb (str_forall (fun b => is_ascii_alphanumeric b || Ascii.eqb b "_") stripe_id)))
        (invalid_offer field "Stripe shipping rate IDs must start with shr_");
  match ship_delivery_estimate option with
  | Some estimate => validate_delivery_estimate field estimate
  | None => Ok tt
  end.

Fixpoint validate_shipping_options (index : Z) (options : list ShippingOption) : PResult unit :=
  match options with
  | [] => Ok tt
  | option :: options =>
      _ ← validate_shipping_option index option;
      validate_shipping_options (index + 1) options
  end.

Definition validate_checkout_policy (offer : Offer) : PResult unit :=
  let policy := offer_checkout offer in
  _ ← err_if (opt_exists (fun amount => amount <? 0) (minimum_total_minor policy) ||
              opt_exists (fun amount => amount <=? 0) (maximum_total_minor policy))
        (invalid_offer "checkout.minimum_total_minor"
           "minimum total must not be negative and maximum total must be greater than zero");
  _ ← err_if (match minimum_total_minor policy, maximum_total_minor policy with
              | Some minimum, Some maximum => maximum <? minimum
              | _, _ => false
              end)
        (invalid_offer "checkout.maximum_total_minor"
           "maximum total must be greater than or equal to the minimum total");
  _ ← err_if (730 <? trial_days policy)
        (invalid_offer "checkout.trial_days" "trial days must not exceed 730");
  _ ← err_if ((negb (bool_decide (allowed_shipping_countries policy = [])) ||
               negb (match shipping_options policy with [] => true | _ => false end)) &&
              negb (collect_shipping_address policy))
        (invalid_offer "checkout.collect_shipping_address"
           "shipping countries and rates require shipping-address collection");
  _ ← err_if (50 <? Z.of_nat (length (allowed_shipping_countries policy)))
        (invalid_offer "checkout.allowed_shipping_countries"
           "at most 50 shipping countries may be configured");
  _ ← validate_countries (allowed_shipping_countries policy) ∅;
  _ ← err_if (5 <? Z.of_nat (length (shipping_options policy)))
        (invalid_offer "checkout.shipping_options"
           "Stripe Checkout supports at most five shipping options");
  validate_shipping_options 0 (shipping_options policy).

(** ** Components *)
Definition component_error (component : OfferComponent) (message : string) : PricingError :=
  pricing_error "invalid_offer" (Some (comp_key component)) message.

(** The [match &component.amount]: the input the rule reads and whether the
    rule is tiered. *)
Definition amount_key (component : OfferComponent) : PResult (option string * bool) :=
  match comp_amount component with
  | Fixed unit_amount_minor =>
      _ ← err_if (unit_amount_minor <? 0)
            (component_error component "component amount must not be negative");
      Ok (None, false)
  | PerUnit input unit_amount_minor =>
      _ ← err_if (unit_amount_minor <? 0)
            (component_error component "component amount must not be negative");
      Ok (Some input, false)
  | FlatPlusPerUnit base_amount_minor input unit_amount_minor =>
      _ ← err_if ((base_amount_minor <? 0) || (unit_amount_minor <? 0))
            (component_error component "component amount must not be negative");
      Ok (Some input, false)
  | Lookup input prices =>
      _ ← err_if (bool_decide (prices = ∅) ||
                  existsb (fun price => price <? 0) (map_to_list prices).*2)
            (component_error component "lookup prices must be non-empty and non-negative");
      Ok (Some input, false)
  | Graduated input tiers | Volume input tiers =>
      _ ← map_err (component_error component) (validate_tiers tiers);
      Ok (Some input, true)
  | Package input units_per_package package_amount_minor _ =>
      _ ← err_if ((units_per_package =? 0) || (package_amount_minor <? 0))
            (component_error component
               "package size must be positive and its amount must not be negative");
      Ok (Some input, false)
  end.

(** [variables.iter().find(|v| v.key == *key).map(|v| v.kind)] *)
Definition kind_of (variables : list VariableDefinition) (key : string) : option VariableKind :=
  vd_kind <$> List.find (fun variable => String.eqb (vd_key variable) key) variables.

Definition is_numeric (kind : VariableKind) : bool :=
  match kind with KNumber | KInteger => true | _ => false end.

Definition kind_matches (rule : AmountRule) (kind : option VariableKind) : bool :=
  match rule with
  | Lookup _ _ => match kind with Some (KSelect | KText) => true | _ => false end
  | Fixed _ => true
  | _ => opt_exists is_numeric kind
  end.

Definition validate_quantity_rule (variables : list VariableDefinition) (keys : gset string)
    (component : OfferComponent) : PResult unit :=
  match comp_quantity component with
  | QFromInput input minimum maximum =>
      err_if (negb (bool_decide (input ∈ keys)) || (minimum =? 0) ||
              opt_exists (fun maximum => maximum <? minimum) maximum ||
              negb (existsb (fun variable => String.eqb (vd_key variable) input &&
                                             is_numeric (vd_kind variable)) variables))
        (component_error component "quantity rule is invalid")
  | QFixed _ => Ok tt
  end.

(** The body of the loop over the components, after the uniqueness of its
    key; it answers whether the component's rule is tiered. *)
Definition validate_component (offer : Offer) (keys : gset string) (component : OfferComponent)
  : PResult bool :=
  key_tiered ← amount_key component;
  _ ← err_if (opt_exists (fun key => negb (bool_decide (key ∈ keys))) key_tiered.1)
        (component_error component "amount rule references an undefined input");
  _ ← match key_tiered.1 with
      | Some key =>
          err_if (negb (kind_matches (comp_amount component) (kind_of (offer_variables offer) key)))
            (component_error component "amount rule references an incompatible input type")
      | None => Ok tt
      end;
  _ ← validate_quantity_rule (offer_variables offer) keys component;
  Ok key_tiered.2.

Fixpoint validate_components (offer : Offer) (keys : gset string)
    (components : list OfferComponent) (component_keys : gset string)
    (has_tiered_amount : bool) : PResult bool :=
  match components with
  | [] => Ok has_tiered_amount
  | component :: components =>
      _ ← err_if (bool_decide (comp_key component ∈ component_keys) ||
                  negb (condition_keys_exist (comp_condition component) keys) ||
                  negb (recurrence_matches (offer_mode offer) (offer_recurring_interval offer)
                          (offer_interval_count offer) component))
            (component_error component "component key, condition, or recurrence is invalid");
      tiered ← validate_component offer keys component;
      validate_components offer keys components
        ({[comp_key component]} ∪ component_keys) (has_tiered_amount || tiered)
  end.

Definition validate_offer (offer : Offer) : PResult unit :=
  _ ← map_err (invalid_offer "currency") (normalize_currency (offer_currency offer));
  _ ← err_if ((offer_version offer =? 0) || (offer_interval_count offer =? 0) ||
              match offer_components offer with [] => true | _ => false end)
        (pricing_error "invalid_offer" None
           "offer requires a version, interval count, and at least one component");
  _ ← err_if (bool_decide (offer_mode offer = Payment) &&
                bool_decide (is_Some (offer_recurring_interval offer)) ||
              bool_decide (offer_mode offer = Subscription) &&
                bool_decide (offer_recurring_interval offer = None))
        (invalid_offer "recurring_interval" "recurrence does not match the offer mode");
  _ ← validate_checkout_policy offer;
  by_key ← validate_variable_definitions (offer_variables offer);
  has_tiered_amount ← validate_components offer (dom by_key) (offer_components offer) ∅ false;
  err_if (has_tiered_amount && negb (bool_decide (offer_billing_scheme offer = Tiered)))
    (invalid_offer "billing_scheme"
       "graduated and volume rules require the tiered billing scheme").
End Validate.

(** ** What a valid offer guarantees *)
Definition is_tiered (rule : AmountRule) : bool :=
  match rule with Graduated _ _ | Volume _ _ => true | _ => false end.

(** The input an amount rule reads. *)
Definition rule_input (rule : AmountRule) : option string :=
  match rule with
  | Fixed _ => None
  | PerUnit k _ | FlatPlusPerUnit _ k _ | Lookup k _ | Graduated k _ | Volume k _
  | Package k _ _ _ => Some k
  end.

(** No negative amount, no empty price list, no package of size zero. *)
Definition rule_ok (rule : AmountRule) : Prop :=
  match rule with
  | Fixed unit | PerUnit _ unit => 0 <= unit
  | FlatPlusPerUnit base _ unit => 0 <= base /\ 0 <= unit
  | Lookup _ prices => prices <> ∅ /\ map_Forall (fun _ price => 0 <= price) prices
  | Graduated _ tiers | Volume _ tiers => tiers_from 0 tiers
  | Package _ size price _ => size <> 0 /\ 0 <= price
  end.

Section ValidateLemmas.
Context {JN : JsonNumbers}.
Implicit Types (offer : Offer) (c : OfferComponent) (cs : list OfferComponent).

Lemma amount_key_ok c k t :
  amount_key c = Ok (k, t) <->
  rule_ok (comp_amount c) /\ k = rule_input (comp_amount c) /\ t = is_tiered (comp_amount c).
Proof.
  unfold amount_key, rule_ok, rule_input, is_tiered.
  assert (forall b e r, (_ ← err_if (E:=PricingError) b e; Ok r) = Ok (k, t) <->
    b = false /\ (k, t) = r) as Hif.
  { intros b e r. destruct b; simpl; [split; [done|by intros [? _]]|].
    split; [by intros [= ->]|by intros [_ ->]]. }
  assert (forall (P Q : Prop) (k' : option string) (t' : bool), (P <-> Q) ->
    (P /\ (k, t) = (k', t') <-> Q /\ k = k' /\ t = t')) as Hpair.
  { intros P Q k' t' HPQ. rewrite HPQ. split.
    - by intros [? [= -> ->]].
    - by intros (? & -> & ->). }
  destruct (comp_amount c); rewrite ?Hif; try (apply Hpair; lia).
  - apply Hpair. rewrite orb_false_iff, bool_decide_eq_false.
    apply and_iff_compat_l. rewrite <- not_true_iff_false, existsb_exists, map_Forall_to_list.
    rewrite Forall_forall. split.
    + intros Hn [k' p] Hin. simpl. destruct (Z.ltb_spec p 0); [|done]. exfalso. apply Hn. exists p.
      split; [|lia]. apply list_elem_of_In, list_elem_of_fmap. by exists (k', p).
    + intros Hall (p & Hin & Hp). apply list_elem_of_In, list_elem_of_fmap in Hin as ([k' p'] & -> & Hin).
      specialize (Hall _ Hin). simpl in *. lia.
  - rewrite <- validate_tiers_ok. destruct (validate_tiers tiers) as [[]| |]; simpl.
    + rewrite <- (Hpair (true = true)) by done. split; [by intros [= -> ->]|by intros [_ [= -> ->]]].
    + split; [done|by intros [? _]].
    + split; [done|by intros [? _]].
  - rewrite <- validate_tiers_ok. destruct (validate_tiers tiers) as [[]| |]; simpl.
    + rewrite <- (Hpair (true = true)) by done. split; [by intros [= -> ->]|by intros [_ [= -> ->]]].
    + split; [done|by intros [? _]].
    + split; [done|by intros [? _]].
Qed.

(** What the loop checks of one component. *)
Definition component_ok offer (keys : gset string) c : Prop :=
  condition_keys_exist (comp_condition c) keys = true /\
  recurrence_matches (offer_mode offer) (offer_recurring_interval offer)
    (offer_interval_count offer) c = true /\
  validate_component offer keys c = Ok (is_tiered (comp_amount c)).

Lemma validate_component_ok offer keys c t :
  validate_component offer keys c = Ok t ->
  t = is_tiered (comp_amount c) /\ rule_ok (comp_amount c) /\
  (forall k, rule_input (comp_amount c) = Some k -> k ∈ keys /\
     kind_matches (comp_amount c) (kind_of (offer_variables offer) k) = true) /\
  validate_quantity_rule (offer_variables offer) keys c = Ok tt.
Proof.
  intros H. unfold validate_component in H.
  apply bind_ok in H as ([k tier] & Hk & H). apply amount_key_ok in Hk as (Hr & -> & ->).
  apply bind_ok in H as ([] & H1%err_if_ok & H). apply bind_ok in H as ([] & H2 & H).
  apply bind_ok in H as ([] & H3 & [= <-]). do 2 (split; [done|]). split; [|done].
  intros k Hk. simpl in *. rewrite Hk in H1, H2. simpl in H1.
  apply negb_false_iff, bool_decide_eq_true in H1.
  by apply err_if_ok, negb_false_iff in H2.
Qed.

Lemma validate_components_ok offer keys cs seen has r :
  validate_components offer keys cs seen has = Ok r <->
  NoDup (comp_key <$> cs) /\ (forall c, c ∈ cs -> comp_key c ∉ seen) /\
  Forall (component_ok offer keys) cs /\
  r = has || existsb (fun c => is_tiered (comp_amount c)) cs.
Proof.
  revert seen has. induction cs as [|c cs IH]; intros seen has; cbn [validate_components].
  { simpl. rewrite orb_false_r. split.
    - intros [= ->]. repeat split; try constructor. set_solver.
    - by intros (_ & _ & _ & ->). }
  simpl fmap. rewrite NoDup_cons, Forall_cons. split.
  - intros H. apply bind_ok in H as ([] & Hb%err_if_ok & H). apply bind_ok in H as (t & Ht & H).
    rewrite !orb_false_iff, !negb_false_iff, bool_decide_eq_false in Hb.
    destruct Hb as [[Hfresh Hcond] Hrec].
    pose proof (validate_component_ok _ _ _ _ Ht) as (-> & _).
    apply IH in H as (Hnd & Hseen & Hall & ->). repeat split; try done.
    + intros Hin. apply list_elem_of_fmap in Hin as (c' & Heq & Hin).
      apply (Hseen c' Hin). set_solver.
    + intros c' [->|Hin]%elem_of_cons; [done|]. specialize (Hseen c' Hin). set_solver.
    + simpl. by rewrite orb_assoc.
  - intros ([Hnew Hnd] & Hseen & [(Hcond & Hrec & Hval) Hall] & ->).
    apply bind_ok. exists tt. split.
    { apply err_if_ok. rewrite Hcond, Hrec, !orb_false_r. apply bool_decide_eq_false, Hseen.
      set_solver. }
    apply bind_ok. exists (is_tiered (comp_amount c)). split; [done|]. apply IH.
    repeat split; try done; [|simpl; by rewrite orb_assoc].
    intros c' Hin. assert (comp_key c' ∉ seen) by (apply Hseen; set_solver).
    assert (comp_key c' <> comp_key c); [|set_solver].
    intros Heq. apply Hnew. rewrite <- Heq. by apply list_elem_of_fmap_2.
Qed.

(** A valid offer, declaratively. *)
Lemma validate_offer_ok offer :
  validate_offer offer = Ok tt <->
  (exists cur, normalize_currency (offer_currency offer) = Ok cur) /\
  offer_version offer <> 0 /\ offer_interval_count offer <> 0 /\ offer_components offer <> [] /\
  (offer_mode offer = Payment <-> offer_recurring_interval offer = None) /\
  validate_checkout_policy offer = Ok tt /\
  exists by_key, validate_variable_definitions (offer_variables offer) = Ok by_key /\
    NoDup (comp_key <$> offer_components offer) /\
    Forall (component_ok offer (dom by_key)) (offer_components offer) /\
    (existsb (fun c => is_tiered (comp_amount c)) (offer_components offer) = true ->
     offer_billing_scheme offer = Tiered).
Proof.
  unfold validate_offer. split.
  - intros H. apply bind_ok in H as (cur & Hcur%map_err_ok & H).
    apply bind_ok in H as ([] & H1%err_if_ok & H). apply bind_ok in H as ([] & H2%err_if_ok & H).
    apply bind_ok in H as ([] & Hpol & H). apply bind_ok in H as (m & Hm & H).
    apply bind_ok in H as (has & Hc & Hs%err_if_ok).
    apply validate_components_ok in Hc as (Hnd & _ & Hall & ->).
    rewrite !orb_false_iff, !Z.eqb_neq in H1. destruct H1 as [[? ?] Hne].
    rewrite orb_false_iff in H2. destruct H2 as [Hp Hsub].
    split; [by exists cur|]. do 2 (split; [done|]). split; [by intros Heq; rewrite Heq in Hne|].
    split; [|split; [done|]].
    + destruct (offer_mode offer), (offer_recurring_interval offer); simpl in *; done.
    + exists m. do 3 (split; [done|]). rewrite orb_false_l in Hs. intros Ht. rewrite Ht in Hs.
      by apply negb_false_iff, bool_decide_eq_true in Hs.
  - intros ((cur & Hcur) & Hv & Hi & Hne & Hmode & Hpol & m & Hm & Hnd & Hall & Hs).
    rewrite Hcur. simpl. rewrite (proj2 (Z.eqb_neq _ _) Hv), (proj2 (Z.eqb_neq _ _) Hi). simpl.
    assert (match offer_components offer with [] => true | _ => false end = false) as ->
      by (by destruct (offer_components offer)). simpl.
    assert (bool_decide (offer_mode offer = Payment) &&
                bool_decide (is_Some (offer_recurring_interval offer)) ||
              bool_decide (offer_mode offer = Subscription) &&
                bool_decide (offer_recurring_interval offer = None) = false) as ->.
    { destruct (offer_mode offer), (offer_recurring_interval offer) as [i|]; simpl; try done.
      - by destruct Hmode as [Hmode _]; specialize (Hmode eq_refl).
      - by destruct Hmode as [_ Hmode]; specialize (Hmode eq_refl). }
    simpl. rewrite Hpol. simpl. rewrite Hm. simpl.
    apply bind_ok. exists (existsb (fun c => is_tiered (comp_amount c)) (offer_components offer)).
    split; [apply validate_components_ok; repeat split; try done; set_solver|].
    apply err_if_ok. destruct (existsb _ _); [|done]. simpl.
    by apply negb_false_iff, bool_decide_eq_true, Hs.
Qed.

Lemma validate_tiers_no_panic tiers : no_panic (validate_tiers tiers).
Proof.
  assert (forall lower, no_panic (validate_tiers_loop tiers lower)) as Hl.
  { induction tiers as [|t tiers IH]; intros lower; simpl; [done|]. repeat case_match; done. }
  destruct tiers; [done|apply Hl].
Qed.

Lemma validate_checkout_policy_no_panic offer : no_panic (validate_checkout_policy offer).
Proof.
  unfold validate_checkout_policy. cbv zeta.
  do 5 (apply no_panic_bind; [auto with outcome|intros _ _]).
  apply no_panic_bind; [|intros _ _; apply no_panic_bind; [auto with outcome|intros _ _]].
  - generalize (∅ : gset string). induction (allowed_shipping_countries _); intros; simpl; [done|].
    do 2 (apply no_panic_bind; [auto with outcome|intros _ _]). auto.
  - generalize 0. induction (shipping_options _); intros; simpl; [done|].
    apply no_panic_bind; [|auto]. unfold validate_shipping_option, validate_delivery_estimate.
    no_panic_tac.
Qed.

Lemma validate_components_no_panic offer keys cs seen has :
  no_panic (validate_components offer keys cs seen has).
Proof.
  revert seen has. induction cs as [|c cs IH]; intros; cbn [validate_components]; [done|].
  apply no_panic_bind; [auto with outcome|intros _ _]. apply no_panic_bind; [|intros; apply IH].
  unfold validate_component. pose proof validate_tiers_no_panic.
  apply no_panic_bind; [unfold amount_key; destruct (comp_amount c); no_panic_tac|intros kt _].
  unfold validate_quantity_rule. no_panic_tac.
Qed.

Lemma validate_offer_no_panic offer : no_panic (validate_offer offer).
Proof.
  unfold validate_offer. pose proof validate_checkout_policy_no_panic.
  pose proof validate_components_no_panic.
  apply no_panic_bind; [|intros _ _; do 3 (apply no_panic_bind; [auto with outcome|intros _ _])].
  - apply no_panic_map_err. unfold normalize_currency. by case_match.
  - apply no_panic_bind; [apply validate_variable_definitions_no_panic|intros m _].
    apply no_panic_bind; auto with outcome.
Qed.
End ValidateLemmas.
