(* ===== verification/OfferEvaluate.v ===== *)
(** * Offer evaluation ([blocks/products/offer_pricing.rs], lines 1230-1365)

    [evaluate_offer]: validation, inputs, the ordered walk over the components
    and the total, with its end-to-end properties. *)
From Stdlib Require Import String.
From S2P Require Import Prelude Ints Str Contracts Money SampleLib OfferInputs OfferConditions OfferAmounts OfferValidate.

(** The order of [ordered.sort_by]: sort order, then key. *)
Section Evaluate.
Context {JN : JsonNumbers} {CH : Chrono} {DF : DebugFmt}.

Definition component_le (left right : OfferComponent) : Prop :=
  comp_sort_order left < comp_sort_order right \/
  comp_sort_order left = comp_sort_order right /\ str_le (comp_key left) (comp_key right).
#[export] Instance component_le_dec : RelDecision component_le.
Proof. intros l r. unfold component_le. solve_decision. Defined.

Definition excluded (component : OfferComponent) : ResolvedComponent := {|
  rc_component_id := comp_id component;
  rc_key := comp_key component;
  rc_label := comp_label component;
  rc_included := false;
  rc_required := comp_required component;
  rc_unit_amount_minor := 0;
  rc_quantity := 0;
  rc_total_amount_minor := 0;
  rc_reason := "condition_not_met";
|}.

Definition included (component : OfferComponent) (unit_amount quantity total : Z)
  : ResolvedComponent := {|
  rc_component_id := comp_id component;
  rc_key := comp_key component;
  rc_label := comp_label component;
  rc_included := true;
  rc_required := comp_required component;
  rc_unit_amount_minor := unit_amount;
  rc_quantity := quantity;
  rc_total_amount_minor := total;
  rc_reason := "included";
|}.

(** The loop over the ordered components; [subtotal] and [components] are its
    variables. *)
Fixpoint evaluate_components (inputs : ValidatedInputs) (request_quantity : Z)
    (ordered : list OfferComponent) (subtotal : Z) (components : list ResolvedComponent)
  : PResult (Z * list ResolvedComponent) :=
  match ordered with
  | [] => Ok (subtotal, components)
  | component :: ordered =>
      applies ← evaluate_condition (comp_condition component) inputs;
      if negb applies then
        evaluate_components inputs request_quantity ordered subtotal
          (components ++ [excluded component])
      else
        let overflow message :=
          pricing_error "amount_overflow" (Some (comp_key component)) message in
        unit_amount ← resolve_amount (comp_amount component) inputs;
        component_quantity ← resolve_quantity (comp_quantity component) inputs;
        quantity ← ok_or (checked_mul in_u64 component_quantity request_quantity)
          (overflow "quantity is too large");
        factor ← ok_or (checked in_i64 quantity) (overflow "quantity is too large");
        total ← ok_or (checked_mul in_i64 unit_amount factor)
          (overflow "calculated amount is too large");
        subtotal ← ok_or (checked_add in_i64 subtotal total)
          (overflow "offer total is too large");
        evaluate_components inputs request_quantity ordered subtotal
          (components ++ [included component unit_amount quantity total])
  end.

(** [Result::expect] *)
Definition expect {E E' A} (m : outcome E A) : outcome E' A :=
  match m with Ok a => Ok a | _ => Panic end.

Definition evaluate_offer (offer : Offer) (request : PricingPreviewRequest) (scope : InputScope)
  : PResult PricingPreview :=
  _ ← validate_offer offer;
  _ ← err_if (negb (String.eqb (req_offer_id request) (offer_id offer)))
        (pricing_error "offer_mismatch" (Some "offer_id")
           "request does not match the loaded offer");
  _ ← err_if ((req_quantity request =? 0) || (MAX_ORDER_QUANTITY <? req_quantity request))
        (pricing_error "invalid_quantity" (Some "quantity")
           (String.append "quantity must be between 1 and " (dec MAX_ORDER_QUANTITY)));
  inputs ← validate_inputs (offer_variables offer) (req_inputs request) scope;
  let ordered := merge_sort component_le (offer_components offer) in
  walked ← evaluate_components inputs (req_quantity request) ordered 0 [];
  let subtotal := walked.1 in
  let components := walked.2 in
  _ ← err_if (subtotal <=? 0)
        (pricing_error "invalid_total" None "offer total must be greater than zero");
  _ ← err_if (opt_exists (fun minimum => subtotal <? minimum)
                (minimum_total_minor (offer_checkout offer)))
        (pricing_error "total_below_minimum" (Some "checkout.minimum_total_minor")
           "evaluated item total is below the offer minimum");
  _ ← err_if (opt_exists (fun maximum => maximum <? subtotal)
                (maximum_total_minor (offer_checkout offer)))
        (pricing_error "total_above_maximum" (Some "checkout.maximum_total_minor")
           "evaluated item total is above the offer maximum");
  currency ← expect (normalize_currency (offer_currency offer));
  Ok {|
    pp_schema_version := COMMERCE_SCHEMA_VERSION;
    pp_offer_id := offer_id offer;
    pp_offer_version := offer_version offer;
    pp_quantity := req_quantity request;
    pp_inputs := normalized inputs;
    pp_components := components;
    pp_amounts := {|
      mb_currency := currency;
      mb_subtotal_minor := subtotal;
      mb_discount_minor := 0;
      mb_tax_minor := 0;
      mb_shipping_minor := 0;
      mb_platform_fee_minor := 0;
      mb_total_minor := subtotal;
    |};
  |}.
End Evaluate.

(** ** Lemmas *)
Section EvaluateLemmas.
Context {JN : JsonNumbers} {CH : Chrono} {DF : DebugFmt}.
Implicit Types (offer : Offer) (c : OfferComponent) (inputs : ValidatedInputs).

#[export] Instance component_le_total : Total component_le.
Proof.
  intros l r. unfold component_le.
  destruct (Z.lt_trichotomy (comp_sort_order l) (comp_sort_order r)) as [?|[?|?]]; auto.
  destruct (total str_le (comp_key l) (comp_key r)); auto.
Qed.

#[export] Instance component_le_trans : Transitive component_le.
Proof.
  intros a b c [?|[? H1]] [?|[? H2]]; unfold component_le; try (left; lia).
  right. split; [lia|]. by etrans.
Qed.

(** Two valid lists of the same components sort to the same list. *)
Lemma sorted_components_unique cs cs' :
  NoDup (comp_key <$> cs) -> cs' ≡ₚ cs ->
  merge_sort component_le cs' = merge_sort component_le cs.
Proof.
  intros Hnd Hp. apply (Sorted_unique_strong component_le).
  - intros c1 c2 H1 H2 Hle Hle'. rewrite merge_sort_Permutation in H1, H2.
    rewrite Hp in H1.
    assert (comp_key c1 = comp_key c2) as Hk.
    { destruct Hle as [?|[? H]], Hle' as [?|[? H']]; try lia. by apply (anti_symm str_le). }
    apply list_elem_of_lookup in H1 as [i Hi]. apply list_elem_of_lookup in H2 as [j Hj].
    assert (i = j) as <-; [|congruence].
    apply (NoDup_lookup _ i j (comp_key c1) Hnd); rewrite list_lookup_fmap, ?Hi, ?Hj; simpl;
      congruence.
  - apply Sorted_merge_sort, _.
  - apply Sorted_merge_sort, _.
  - by rewrite !merge_sort_Permutation.
Qed.

(** The value of an input is one its definition accepts. *)
Lemma validated_value defs raw scope inputs k v :
  validate_inputs defs raw scope = Ok inputs -> values inputs !! k = Some v ->
  exists d, kind_of defs k = Some (vd_kind d) /\ value_fits d v.
Proof.
  intros H Hv. destruct (validate_inputs_ok _ _ _ _ H) as (Hnd & _ & Hd & Hk).
  assert (k ∈ vd_key <$> defs) as Hin.
  { destruct (decide (k ∈ vd_key <$> defs)) as [|Hn]; [done|]. by rewrite Hk in Hv. }
  apply list_elem_of_fmap in Hin as (d & -> & Hin). exists d. split.
  - unfold kind_of. destruct (List.find _ defs) as [d'|] eqn:Hf.
    + apply find_some in Hf as [Hin' Heq]. apply String.eqb_eq in Heq. simpl.
      rewrite (definition_unique defs d' d); [done|done|by apply list_elem_of_In|done|done].
    + exfalso. apply find_none with (x := d) in Hf; [|by apply list_elem_of_In].
      by rewrite String.eqb_refl in Hf.
  - specialize (Hd d Hin). destruct (input_source raw d) as [w|].
    + destruct Hd as (pv & Hp & Hl). assert (pv = v) as -> by congruence.
      by eapply parse_input_fits.
    + destruct Hd as [_ Hl]. congruence.
Qed.

Lemma validated_inputs_typed defs raw scope inputs :
  validate_inputs defs raw scope = Ok inputs -> inputs_typed inputs.
Proof.
  intros H k v Hv. destruct (validated_value _ _ _ _ _ _ H Hv) as (d & _ & Hfit).
  unfold value_fits in Hfit. destruct (vd_kind d), v; try done; naive_solver.
Qed.

(** What the walk records of a component. *)
Definition resolves inputs (request_quantity : Z) c (r : ResolvedComponent) : Prop :=
  (evaluate_condition (comp_condition c) inputs = Ok false /\ r = excluded c) \/
  exists unit n,
    evaluate_condition (comp_condition c) inputs = Ok true /\
    resolve_amount (comp_amount c) inputs = Ok unit /\
    resolve_quantity (comp_quantity c) inputs = Ok n /\
    r = included c unit (n * request_quantity) (unit * (n * request_quantity)) /\
    n * request_quantity <= i64_max /\ in_i64 (unit * (n * request_quantity)) = true.

Definition sum_totals (rs : list ResolvedComponent) : Z :=
  foldr (fun r n => rc_total_amount_minor r + n) 0 rs.

Lemma sum_totals_app l1 l2 : sum_totals (l1 ++ l2) = sum_totals l1 + sum_totals l2.
Proof. induction l1 as [|r l1 IH]; simpl; [done|]. rewrite IH. lia. Qed.

Lemma evaluate_components_ok inputs q ordered subtotal done subtotal' all :
  evaluate_components inputs q ordered subtotal done = Ok (subtotal', all) ->
  exists rs, all = done ++ rs /\ Forall2 (resolves inputs q) ordered rs /\
    subtotal' = subtotal + sum_totals rs /\ (in_i64 subtotal = true -> in_i64 subtotal' = true).
Proof.
  revert subtotal done. induction ordered as [|c ordered IH]; intros subtotal before H;
    cbn [evaluate_components] in H.
  { injection H as <- <-. exists []. rewrite app_nil_r. simpl. split; [easy|].
    split; [constructor|]. split; [lia|easy]. }
  apply bind_ok in H as ([|] & Hc & H); simpl in H.
  - apply bind_ok in H as (unit & Hu & H). apply bind_ok in H as (n & Hn & H).
    apply bind_ok in H as (qty & Hq & H). apply ok_or_ok, checked_some in Hq as [-> _].
    apply bind_ok in H as (f & Hf & H). apply ok_or_ok, checked_some in Hf as [-> Hf].
    apply bind_ok in H as (t & Ht & H). apply ok_or_ok, checked_some in Ht as [-> Ht].
    apply bind_ok in H as (s & Hs & H). apply ok_or_ok, checked_some in Hs as [-> Hs].
    destruct (IH _ _ H) as (rs & -> & Hall & -> & Hr).
    eexists (_ :: rs). rewrite <- app_assoc. split; [simpl; reflexivity|]. split.
    + constructor; [|exact Hall]. right. exists unit, n. apply in_i64_spec in Hf. tauto.
    + simpl. split; [lia|]. auto.
  - destruct (IH _ _ H) as (rs & -> & Hall & -> & Hr).
    eexists (_ :: rs). rewrite <- app_assoc. split; [simpl; reflexivity|].
    split; [constructor; [by left|exact Hall]|]. simpl. split; [lia|auto].
Qed.

(** What a valid offer's component gives the walk. *)
Lemma rule_ok_size rule : rule_ok rule ->
  match rule with Package _ size _ _ => size <> 0 | _ => True end.
Proof. destruct rule; simpl; naive_solver. Qed.

Lemma evaluate_components_no_panic inputs q ordered subtotal before :
  inputs_typed inputs -> Forall (fun c => rule_ok (comp_amount c)) ordered ->
  no_panic (evaluate_components inputs q ordered subtotal before).
Proof.
  intros Hin Hall. revert subtotal before.
  induction Hall as [|c ordered Hc _ IH]; intros subtotal before; [done|].
  cbn [evaluate_components]. apply no_panic_bind; [apply evaluate_at_no_panic|].
  intros [|] _; simpl; [|apply IH].
  apply no_panic_bind; [apply resolve_amount_no_panic; [done|by apply rule_ok_size]|intros].
  do 5 (apply no_panic_bind; [auto with outcome|intros]). apply IH.
Qed.

Lemma valid_offer_rules offer u :
  validate_offer offer = Ok u -> Forall (fun c => rule_ok (comp_amount c)) (offer_components offer).
Proof.
  destruct u. intros H. apply validate_offer_ok in H as (_ & _ & _ & _ & _ & _ & m & _ & _ & Hall & _).
  eapply Forall_impl; [exact Hall|]. intros c (_ & _ & Hv).
  by apply validate_component_ok in Hv as (_ & ? & _).
Qed.

(** The preview of a successful evaluation. *)
Lemma evaluate_offer_ok offer request scope p :
  evaluate_offer offer request scope = Ok p ->
  exists inputs currency rs,
    validate_offer offer = Ok tt /\
    req_offer_id request = offer_id offer /\
    req_quantity request <> 0 /\ req_quantity request <= MAX_ORDER_QUANTITY /\
    validate_inputs (offer_variables offer) (req_inputs request) scope = Ok inputs /\
    evaluate_components inputs (req_quantity request)
      (merge_sort component_le (offer_components offer)) 0 [] = Ok (sum_totals rs, rs) /\
    0 < sum_totals rs /\
    opt_exists (fun m => sum_totals rs <? m) (minimum_total_minor (offer_checkout offer)) = false /\
    opt_exists (fun m => m <? sum_totals rs) (maximum_total_minor (offer_checkout offer)) = false /\
    normalize_currency (offer_currency offer) = Ok currency /\
    p = {| pp_schema_version := COMMERCE_SCHEMA_VERSION; pp_offer_id := offer_id offer;
           pp_offer_version := offer_version offer; pp_quantity := req_quantity request;
           pp_inputs := normalized inputs; pp_components := rs;
           pp_amounts := {| mb_currency := currency; mb_subtotal_minor := sum_totals rs;
             mb_discount_minor := 0; mb_tax_minor := 0; mb_shipping_minor := 0;
             mb_platform_fee_minor := 0; mb_total_minor := sum_totals rs |} |}.
Proof.
  intros H. unfold evaluate_offer in H.
  apply bind_ok in H as ([] & Hv & H). apply bind_ok in H as ([] & Hid%err_if_ok & H).
  apply bind_ok in H as ([] & Hq%err_if_ok & H). apply bind_ok in H as (inputs & Hi & H).
  cbv zeta in H. apply bind_ok in H as ([subtotal rs] & Hw & H). simpl in H.
  apply bind_ok in H as ([] & H0%err_if_ok & H). apply bind_ok in H as ([] & Hmin%err_if_ok & H).
  apply bind_ok in H as ([] & Hmax%err_if_ok & H). apply bind_ok in H as (cur & Hc & [= <-]).
  destruct (evaluate_components_ok _ _ _ _ _ _ _ Hw) as (rs' & Hrs & _ & -> & _).
  simpl in Hrs. subst rs'. rewrite Z.add_0_l in *. exists inputs, cur, rs.
  apply negb_false_iff, String.eqb_eq in Hid. apply orb_false_iff in Hq as [Hq1 Hq2].
  repeat split; try done; try lia. by destruct (normalize_currency _); inversion Hc.
Qed.

(** C1. The end-to-end price: the quote lists every component of the offer in
    its display order, each either excluded by its condition at zero or
    priced at exactly unit amount times component quantity times ordered
    quantity; the subtotal is the exact sum of these totals, positive, within
    an [i64] and the offer's minimum and maximum, and equals the total. *)
Theorem evaluate_offer_quote offer request scope p
  (H : evaluate_offer offer request scope = Ok p) :
  let subtotal := mb_subtotal_minor (pp_amounts p) in
  exists inputs,
    validate_inputs (offer_variables offer) (req_inputs request) scope = Ok inputs /\
    pp_inputs p = normalized inputs /\
    Forall2 (resolves inputs (req_quantity request))
      (merge_sort component_le (offer_components offer)) (pp_components p) /\
    subtotal = sum_totals (pp_components p) /\ mb_total_minor (pp_amounts p) = subtotal /\
    0 < subtotal <= i64_max /\
    (forall m, minimum_total_minor (offer_checkout offer) = Some m -> m <= subtotal) /\
    (forall m, maximum_total_minor (offer_checkout offer) = Some m -> subtotal <= m).
Proof.
  destruct (evaluate_offer_ok _ _ _ _ H)
    as (inputs & cur & rs & _ & _ & _ & _ & Hi & Hw & Hpos & Hmin & Hmax & _ & ->).
  simpl. exists inputs. split; [done|]. split; [done|].
  destruct (evaluate_components_ok _ _ _ _ _ _ _ Hw) as (rs' & Hrs & Hall & _ & Hr).
  simpl in Hrs. subst rs'. specialize (Hr eq_refl). apply in_i64_spec in Hr.
  do 3 (split; [done|]). split; [lia|].
  split; intros m Hm; [rewrite Hm in Hmin; simpl in Hmin|rewrite Hm in Hmax; simpl in Hmax]; lia.
Qed.

(** C24. Pricing never panics: for every offer, valid or not, and every request,
    [evaluate_offer] returns a quote or an error. The [%] of an exact package
    never sees a zero size and the [expect] on the currency never fails,
    because the validation that opens the call rules both out. *)
Theorem evaluate_offer_never_panics offer request scope :
  no_panic (evaluate_offer offer request scope).
Proof.
  unfold evaluate_offer. apply no_panic_bind; [|intros u Hv].
  { apply validate_offer_no_panic. }
  apply no_panic_bind; [auto with outcome|intros _ _].
  apply no_panic_bind; [auto with outcome|intros _ _].
  apply no_panic_bind; [apply validate_inputs_no_panic|intros inputs Hi].
  cbv zeta. apply no_panic_bind; [|intros w _].
  { apply evaluate_components_no_panic; [by eapply validated_inputs_typed|].
    rewrite merge_sort_Permutation. by eapply valid_offer_rules. }
  do 3 (apply no_panic_bind; [auto with outcome|intros _ _]).
  destruct u. apply validate_offer_ok in Hv as ((cur & ->) & _). done.
Qed.

Definition with_components offer (cs : list OfferComponent) : Offer := {|
  offer_id := offer_id offer; offer_product_id := offer_product_id offer;
  offer_version := offer_version offer; offer_name := offer_name offer;
  offer_mode := offer_mode offer; offer_currency := offer_currency offer;
  offer_pricing_model := offer_pricing_model offer;
  offer_recurring_interval := offer_recurring_interval offer;
  offer_interval_count := offer_interval_count offer;
  offer_usage_type := offer_usage_type offer;
  offer_billing_scheme := offer_billing_scheme offer;
  offer_tax_behavior := offer_tax_behavior offer; offer_variables := offer_variables offer;
  offer_components := cs; offer_checkout := offer_checkout offer;
  offer_stripe_product_id := offer_stripe_product_id offer;
  offer_stripe_price_id := offer_stripe_price_id offer |}.

Lemma validate_offer_permutation offer cs :
  cs ≡ₚ offer_components offer -> validate_offer offer = Ok tt ->
  validate_offer (with_components offer cs) = Ok tt.
Proof.
  intros Hp Hv. apply validate_offer_ok in Hv as (Hc & Hver & Hcnt & Hne & Hm & Hpol & m & Hm' & Hnd & Hall & Ht).
  apply validate_offer_ok. simpl. do 3 (split; [done|]). split.
  { intros ->. by apply Permutation_nil_l in Hp. }
  split; [done|]. split; [done|]. exists m. split; [done|]. split; [by rewrite Hp|].
  split; [by assert (Forall (component_ok offer (dom m)) cs) by by rewrite Hp|].
  intros He. apply Ht. apply existsb_exists in He as (c & Hin & Hc'). apply existsb_exists.
  exists c. split; [|done]. apply list_elem_of_In. rewrite <- Hp. by apply list_elem_of_In.
Qed.

(** The price does not depend on the order in which the offer's components
    are stored: permuting them yields the same quote, component list included. *)
Theorem evaluate_offer_permutation offer cs request scope p
  (Hp : cs ≡ₚ offer_components offer)
  (H : evaluate_offer offer request scope = Ok p) :
  evaluate_offer (with_components offer cs) request scope = Ok p.
Proof.
  destruct (evaluate_offer_ok _ _ _ _ H) as (_ & _ & _ & Hv & _).
  pose proof Hv as Hv'. apply validate_offer_ok in Hv' as (_ & _ & _ & _ & _ & _ & _ & _ & Hnd & _).
  revert H. unfold evaluate_offer. rewrite Hv, (validate_offer_permutation offer cs Hp Hv).
  simpl. by rewrite (sorted_components_unique _ _ Hnd Hp).
Qed.

(** ** Progress: a valid offer's rules fit its inputs *)

(** The errors a request, rather than the offer, can cause. *)
Definition request_errors : list string :=
  ["condition_input_missing"; "invalid_input"; "amount_overflow"].
Definition request_error (e : PricingError) : Prop := pe_code e ∈ request_errors.

(** [fails_fairly m]: when [m] fails, the request is to blame. *)
Definition fails_fairly {A} (m : PResult A) : Prop := forall e, m = Err e -> request_error e.

Lemma fails_fairly_bind {A B} (m : PResult A) (f : A -> PResult B) :
  fails_fairly m -> (forall a, m = Ok a -> fails_fairly (f a)) -> fails_fairly (m ≫= f).
Proof. intros Hm Hf e [H|(a & Ha & H)]%bind_err; [by apply Hm|by eapply Hf]. Qed.

Lemma fails_fairly_ok_or {A} (o : option A) e : request_error e -> fails_fairly (ok_or o e).
Proof. intros He e'. destruct o; [done|]. by intros [= <-]. Qed.

Lemma fails_fairly_map_err {E A} (m : outcome E A) f :
  (forall e, request_error (f e)) -> fails_fairly (map_err f m).
Proof. intros Hf e. destruct m; try done. by intros [= <-]. Qed.

Lemma fails_fairly_err_if b e : request_error e -> fails_fairly (err_if b e).
Proof. intros He e'. destruct b; [|done]. by intros [= <-]. Qed.

Lemma fails_fairly_Ok {A} (a : A) : fails_fairly (Ok a).
Proof. by intros e. Qed.

Ltac blame_request := unfold request_error, request_errors; simpl; set_solver.

Lemma input_fair inputs k : fails_fairly (input inputs k).
Proof. apply fails_fairly_ok_or. blame_request. Qed.

Section Valid.
Context (defs : list VariableDefinition) (raw : gmap string Value) (scope : InputScope)
  (inputs : ValidatedInputs) (Hin : validate_inputs defs raw scope = Ok inputs).

Lemma decimal_input_fair k :
  opt_exists is_numeric (kind_of defs k) = true -> fails_fairly (decimal_input inputs k).
Proof.
  intros Hk. apply fails_fairly_bind; [apply input_fair|]. intros v Hv.
  apply ok_or_ok in Hv. destruct (validated_value _ _ _ _ _ _ Hin Hv) as (d & Hd & Hfit).
  rewrite Hd in Hk. unfold value_fits in Hfit. simpl in Hk.
  destruct (vd_kind d), v; try done; apply fails_fairly_Ok.
Qed.

Lemma whole_input_fair k model :
  opt_exists is_numeric (kind_of defs k) = true -> fails_fairly (whole_input inputs k model).
Proof.
  intros Hk. apply fails_fairly_bind; [by apply decimal_input_fair|].
  intros. apply fails_fairly_ok_or. blame_request.
Qed.

Lemma per_unit_fair k unit :
  opt_exists is_numeric (kind_of defs k) = true -> fails_fairly (per_unit_amount inputs k unit).
Proof.
  intros Hk. apply fails_fairly_bind; [by apply decimal_input_fair|intros d _].
  apply fails_fairly_bind; [apply fails_fairly_map_err; intros; blame_request|intros a _].
  apply fails_fairly_bind; [apply fails_fairly_err_if; blame_request|intros].
  apply fails_fairly_Ok.
Qed.

Lemma amount_result_fair k z : fails_fairly (amount_result k z).
Proof. apply fails_fairly_ok_or. blame_request. Qed.

Lemma per_unit_nonneg k unit a : per_unit_amount inputs k unit = Ok a -> 0 <= a.
Proof. intros H. unfold per_unit_amount in H. inv_ok H. subst. lia. Qed.

(** A valid rule yields a non-negative amount before the final check. *)
Lemma tiered_fair k tiers graduated :
  tiers_from 0 tiers -> opt_exists is_numeric (kind_of defs k) = true ->
  fails_fairly (tiered_amount inputs k tiers graduated) /\
  forall a, tiered_amount inputs k tiers graduated = Ok a -> 0 <= a.
Proof.
  intros Ht Hk. pose proof Ht as Hv. apply validate_tiers_ok in Hv.
  destruct (whole_input inputs k (if graduated then "graduated" else "volume")) as [units|e|] eqn:Hu.
  - assert (exists z, 0 <= z /\ tiered_amount inputs k tiers graduated = amount_result k z)
      as (z & Hz & ->).
    { destruct graduated.
      - exists (graduated_value tiers 0 units). split; [by apply graduated_value_nonneg|].
        by apply graduated_amount_eq.
      - destruct (volume_amount_eq inputs k tiers units Ht Hu) as (i & t & Hi & _ & _ & Hp & Hf & ->).
        eexists. split; [|reflexivity]. apply whole_input_range in Hu. nia. }
    split; [apply amount_result_fair|]. intros a [-> _]%amount_result_ok. done.
  - unfold tiered_amount. rewrite Hu. simpl. split; [|done].
    intros e' [= <-]. by apply (whole_input_fair k _ Hk _ Hu).
  - unfold tiered_amount. rewrite Hu. done.
Qed.

Lemma package_fair k size price rounding :
  size <> 0 -> fails_fairly (package_count k price size rounding).
Proof.
  intros Hs. destruct rounding; simpl.
  - apply fails_fairly_ok_or. blame_request.
  - unfold rust_rem, rust_div. rewrite (proj2 (Z.eqb_neq size 0) Hs). simpl.
    case_match; [apply fails_fairly_Ok|]. intros e [= <-]. blame_request.
Qed.

Lemma lookup_fair k prices :
  kind_matches (Lookup k prices) (kind_of defs k) = true ->
  fails_fairly (v ← input inputs k;
    selected ← ok_or (scalar v)
      (pricing_error "invalid_offer" (Some k) "lookup amount requires select or text input");
    ok_or (prices !! selected)
      (pricing_error "invalid_input" (Some k) "selected value has no configured price")).
Proof.
  intros Hk. apply fails_fairly_bind; [apply input_fair|intros v Hv%ok_or_ok].
  destruct (validated_value _ _ _ _ _ _ Hin Hv) as (d & Hd & Hfit).
  rewrite Hd in Hk. unfold value_fits in Hfit. simpl in Hk.
  destruct (vd_kind d), v; try done; simpl; apply fails_fairly_ok_or; blame_request.
Qed.

Lemma resolve_amount_fair rule :
  rule_ok rule -> amount_rule_typed rule ->
  (forall k, rule_input rule = Some k -> kind_matches rule (kind_of defs k) = true) ->
  fails_fairly (resolve_amount rule inputs).
Proof.
  intros Hok Hty Hk. unfold resolve_amount.
  match goal with |- fails_fairly (?m ≫= _) =>
    enough (fails_fairly m /\ forall a, m = Ok a -> 0 <= a) as [Hf Hnn] end.
  { apply fails_fairly_bind; [exact Hf|]. intros a Ha. specialize (Hnn a Ha).
    rewrite (proj2 (Z.ltb_ge a 0) Hnn). apply fails_fairly_Ok. }
  destruct rule as [unit|k unit|base k unit|k prices|k tiers|k tiers|k size price rounding];
    cbn [rule_ok amount_rule_typed] in *; try specialize (Hk k eq_refl).
  - split; [apply fails_fairly_Ok|]. by intros a [= <-].
  - split; [by apply per_unit_fair|apply per_unit_nonneg].
  - split.
    + apply fails_fairly_bind; [by apply per_unit_fair|intros].
      apply fails_fairly_ok_or. blame_request.
    + intros a H. apply bind_ok in H as (b & Hb%per_unit_nonneg & H).
      apply ok_or_ok, checked_some in H as [-> _]. lia.
  - split; [by apply lookup_fair|]. intros a H. destruct Hok as [_ Hok].
    inv_ok H. by eapply Hok.
  - by apply tiered_fair.
  - by apply tiered_fair.
  - destruct Hok as [Hs Hp], Hty as [Hs'%in_u64_spec _]. split.
    + apply fails_fairly_bind; [by apply whole_input_fair|intros units _].
      apply fails_fairly_bind; [by apply package_fair|intros n _].
      apply fails_fairly_bind; [|intros]; apply fails_fairly_ok_or; blame_request.
    + intros a H. apply bind_ok in H as (units & Hu%whole_input_range & H).
      apply bind_ok in H as (n & Hn & H). apply bind_ok in H as (q & Hq & H).
      apply ok_or_ok, checked_some in Hq as [-> _]. apply ok_or_ok, checked_some in H as [-> _].
      apply package_count_ok in Hn as [Hn _]; [|lia..].
      assert (0 <= n) by (destruct rounding; simpl in Hn; nia). nia.
Qed.

Lemma resolve_quantity_fair c keys :
  validate_quantity_rule defs keys c = Ok tt -> NoDup (vd_key <$> defs) ->
  comp_quantity c <> QFixed 0 ->
  (forall n, comp_quantity c = QFixed n -> 0 <= n) ->
  fails_fairly (resolve_quantity (comp_quantity c) inputs).
Proof.
  unfold validate_quantity_rule. intros Hv Hnd Hz Hpos.
  destruct (comp_quantity c) as [n|k lo hi]; simpl.
  - specialize (Hpos n eq_refl). destruct (Z.ltb_spec 0 n); [apply fails_fairly_Ok|].
    by assert (n = 0) as -> by lia.
  - apply err_if_ok in Hv. rewrite !orb_false_iff, negb_false_iff in Hv.
    destruct Hv as [_ Hex%negb_false_iff%existsb_exists].
    destruct Hex as (d & Hin' & [Hk Hnum]%andb_true_iff). apply String.eqb_eq in Hk.
    assert (kind_of defs k = Some (vd_kind d)) as Hkind.
    { unfold kind_of. destruct (List.find _ defs) as [d'|] eqn:Hf.
      - apply find_some in Hf as [Hin'' Heq%String.eqb_eq]. simpl.
        rewrite (definition_unique defs d' d); [done|done|by apply list_elem_of_In..|congruence].
      - apply find_none with (x := d) in Hf; [|done]. by rewrite Hk, String.eqb_refl in Hf. }
    apply fails_fairly_bind; [apply decimal_input_fair; by rewrite Hkind|intros x _].
    apply fails_fairly_bind; [apply fails_fairly_ok_or; blame_request|intros q _].
    apply fails_fairly_bind; [apply fails_fairly_err_if; blame_request|intros].
    apply fails_fairly_Ok.
Qed.
End Valid.

(** Progress: on validated inputs the rules of a valid offer's component
    fail only for reasons of the request (a missing or unsuitable input, an
    amount that does not fit); the evaluator's own checks of the offer's shape
    are unreachable, a fixed quantity of zero apart. *)
Theorem valid_component_progress offer c raw scope inputs
  (Hv : validate_offer offer = Ok tt) (Hc : c ∈ offer_components offer)
  (Hin : validate_inputs (offer_variables offer) raw scope = Ok inputs)
  (Hty : amount_rule_typed (comp_amount c))
  (Hq : forall n, comp_quantity c = QFixed n -> 0 < n) :
  fails_fairly (resolve_amount (comp_amount c) inputs) /\
  fails_fairly (resolve_quantity (comp_quantity c) inputs).
Proof.
  apply validate_offer_ok in Hv as (_ & _ & _ & _ & _ & _ & m & Hm & _ & Hall & _).
  apply definitions_ok in Hm as [Hnd _]. rewrite Forall_forall in Hall.
  destruct (Hall c Hc) as (_ & _ & Hvc).
  apply validate_component_ok in Hvc as (_ & Hok & Hk & Hqv). split.
  - eapply resolve_amount_fair; [exact Hin|done|done|]. intros k Hrk. by apply Hk.
  - eapply resolve_quantity_fair; [exact Hin|exact Hqv|done| |].
    + intros Heq. specialize (Hq 0 Heq). lia.
    + intros n Heq. specialize (Hq n Heq). lia.
Qed.
End EvaluateLemmas.

(** ** Witnesses *)
Definition sample_policy : CheckoutPolicy := {|
  minimum_total_minor := Some 100; maximum_total_minor := Some 1000000;
  allow_promotion_codes := false; automatic_tax := false; collect_billing_address := false;
  collect_shipping_address := true; allowed_shipping_countries := ["de"; "NZ"];
  shipping_options := []; create_customer := false; require_terms_consent := false;
  trial_days := 0 |}.

Definition sample_component (key : string) (sort_order : Z) (amount : AmountRule)
    (quantity : QuantityRule) (condition : Condition) : OfferComponent := {|
  comp_id := key; comp_key := key; comp_label := key; comp_description := "";
  comp_sort_order := sort_order; comp_required := true; comp_amount := amount;
  comp_quantity := quantity; comp_condition := condition; comp_recurrence := None;
  comp_stripe_price_id := ""; comp_metadata := ∅ |}.

Definition sample_offer_of (components : list OfferComponent) : Offer := {|
  offer_id := "offer"; offer_product_id := "product"; offer_version := 1; offer_name := "Offer";
  offer_mode := Payment; offer_currency := "eur"; offer_pricing_model := ModelComponents;
  offer_recurring_interval := None; offer_interval_count := 1; offer_usage_type := Licensed;
  offer_billing_scheme := Tiered; offer_tax_behavior := Unspecified;
  offer_variables := sample_defs; offer_components := components;
  offer_checkout := sample_policy; offer_stripe_product_id := ""; offer_stripe_price_id := "" |}.

Definition sample_base : OfferComponent :=
  sample_component "base" 2 (FlatPlusPerUnit 500 "kg" 200) (QFixed 1) Always.
Definition sample_extra : OfferComponent :=
  sample_component "extra" 1 (Fixed 250) (QFromInput "kg" 1 (Some 5))
    (GreaterThan "kg" (VString "1")).
Definition sample_offer : Offer := sample_offer_of [sample_base; sample_extra].
Definition sample_request : PricingPreviewRequest :=
  {| req_offer_id := "offer"; req_quantity := 3; req_inputs := sample_raw |}.

Lemma sample_quote : exists p, evaluate_offer sample_offer sample_request ScopePublic = Ok p.
Proof. apply is_ok_exists. vm_compute. reflexivity. Qed.

Lemma sample_offer_valid : validate_offer sample_offer = Ok tt.
Proof.
  assert (is_ok (validate_offer sample_offer) = true) as H by (vm_compute; reflexivity).
  destruct (validate_offer sample_offer) as [[]| |]; done.
Qed.

Lemma evaluate_offer_quote_witness :
  exists p, evaluate_offer sample_offer sample_request ScopePublic = Ok p /\
    mb_subtotal_minor (pp_amounts p) = sum_totals (pp_components p).
Proof.
  destruct sample_quote as [p H]. exists p. split; [exact H|].
  destruct (evaluate_offer_quote _ _ _ _ H) as (_ & _ & _ & _ & Hs & _). exact Hs.
Defined.

Lemma evaluate_offer_permutation_witness :
  exists p, evaluate_offer sample_offer sample_request ScopePublic = Ok p /\
    evaluate_offer (with_components sample_offer [sample_extra; sample_base]) sample_request
      ScopePublic = Ok p.
Proof.
  destruct sample_quote as [p H]. exists p. split; [exact H|].
  apply (evaluate_offer_permutation sample_offer [sample_extra; sample_base]); [|exact H].
  apply Permutation_swap.
Defined.

Lemma valid_component_progress_witness :
  exists inputs, validate_inputs (offer_variables sample_offer) sample_raw ScopePublic = Ok inputs /\
    fails_fairly (resolve_amount (comp_amount sample_base) inputs) /\
    fails_fairly (resolve_quantity (comp_quantity sample_base) inputs).
Proof.
  destruct (is_ok_exists (validate_inputs (offer_variables sample_offer) sample_raw ScopePublic))
    as [inputs H]; [vm_compute; reflexivity|].
  exists inputs. split; [exact H|].
  apply (valid_component_progress sample_offer sample_base sample_raw ScopePublic inputs
           sample_offer_valid).
  - apply list_elem_of_here.
  - exact H.
  - split; reflexivity.
  - intros n [= <-]. lia.
Defined.

(** ** A gap between the two checks of a fixed quantity *)
Definition zero_quantity_offer : Offer :=
  sample_offer_of [sample_component "base" 1 (Fixed 500) (QFixed 0) Always].

(** [validate_offer] does not look at a fixed quantity: an offer with a fixed
      quantity of zero is valid (it can be saved and published), and yet no
      request to it is ever priced. *)
Theorem zero_quantity_offer_unpriceable :
  validate_offer zero_quantity_offer = Ok tt /\
  forall request scope, is_ok (evaluate_offer zero_quantity_offer request scope) = false.
Proof.
  split.
  - assert (is_ok (validate_offer zero_quantity_offer) = true) as H by (vm_compute; reflexivity).
    destruct (validate_offer zero_quantity_offer) as [[]| |]; done.
  - intros request scope. destruct (is_ok _) eqn:Hok; [|done]. exfalso.
    apply is_ok_exists in Hok as [p H].
    destruct (evaluate_offer_ok _ _ _ _ H) as (inputs & cur & rs & _ & _ & _ & _ & _ & Hw & _).
    cbn in Hw. done.
Qed.
