(* ===== verification/Wafer.v ===== *)
(** * The interface of the [wafer-run] runtime

    What the modelled code uses of the [wafer_run] and [wafer_block] crates:
    the two enumerations it matches on, messages with their metadata, and the
    endpoints a block declares.  Messages and endpoints are abstract: classes of
    operations, with the documented behaviour of the crate as laws. *)
From Stdlib Require Import String.
From S2P Require Import Prelude Ints Str.

Inductive HttpMethod := Get | Post | Patch | Delete.
Inductive AuthLevel := Public | Authenticated | Admin.

#[export] Instance http_method_eq_dec : EqDecision HttpMethod.
Proof. solve_decision. Defined.
#[export] Instance auth_level_eq_dec : EqDecision AuthLevel.
Proof. solve_decision. Defined.

(** [wafer_run::Message]: [action()] and [path()] of the request, its
    [user_id()], and the metadata map ([get_meta] is empty on an absent key). *)
Class Messages := {
  Message : Type;
  msg_action : Message -> string;
  msg_path : Message -> string;
  msg_user_id : Message -> string;
  get_meta : Message -> string -> string;
  set_meta : Message -> string -> string -> Message;
  META_REQ_PARAM_PREFIX : string;
}.

(** A metadata write is read back and leaves every other key alone, the three
    the accessors read included. *)
Class MessageLaws (M : Messages) := {
  get_set_meta : forall m k v, get_meta (set_meta m k v) k = v;
  get_set_meta_ne : forall m k k' v, k <> k' -> get_meta (set_meta m k v) k' = get_meta m k';
  set_meta_action : forall m k v, k <> "req.action" -> msg_action (set_meta m k v) = msg_action m;
  set_meta_path : forall m k v, k <> "req.resource" -> msg_path (set_meta m k v) = msg_path m;
  set_meta_user_id : forall m k v, k <> "auth.user_id" -> msg_user_id (set_meta m k v) = msg_user_id m;
  set_user_id : forall m v, msg_user_id (set_meta m "auth.user_id" v) = v;
}.

(** [wafer_run::BlockEndpoint]: what the router reads of it, and the builders
    [declare] uses ([BlockEndpoint::get(..)] .. [delete(..)] as one function of
    the method). *)
Class Endpoints := {
  BlockEndpoint : Type;
  SchemaValue : Type;
  ep_method : BlockEndpoint -> HttpMethod;
  ep_path : BlockEndpoint -> string;
  ep_auth : BlockEndpoint -> AuthLevel;
  ep_new : HttpMethod -> string -> BlockEndpoint;
  ep_with_auth : AuthLevel -> BlockEndpoint -> BlockEndpoint;
  ep_with_summary : string -> BlockEndpoint -> BlockEndpoint;
  ep_with_description : string -> BlockEndpoint -> BlockEndpoint;
  ep_with_tags : list string -> BlockEndpoint -> BlockEndpoint;
  ep_with_input : SchemaValue -> BlockEndpoint -> BlockEndpoint;
  ep_with_output : SchemaValue -> BlockEndpoint -> BlockEndpoint;
  ep_with_path_params : SchemaValue -> BlockEndpoint -> BlockEndpoint;
  ep_with_query_params : SchemaValue -> BlockEndpoint -> BlockEndpoint;
  ep_deprecated : BlockEndpoint -> BlockEndpoint;
  ep_server_only : BlockEndpoint -> BlockEndpoint;
  ep_agent_tool : string -> string -> BlockEndpoint -> BlockEndpoint;
}.

(** What the router reads of an endpoint. *)
Definition ep_view `{Endpoints} (e : BlockEndpoint) : HttpMethod * string * AuthLevel :=
  (ep_method e, ep_path e, ep_auth e).

(** A new endpoint has the method and path it is built with; [auth] sets the
    level; no other builder touches the three. *)
Class EndpointLaws (E : Endpoints) := {
  ep_new_method : forall m p, ep_method (ep_new m p) = m;
  ep_new_path : forall m p, ep_path (ep_new m p) = p;
  ep_auth_view : forall a e, ep_view (ep_with_auth a e) = (ep_method e, ep_path e, a);
  ep_summary_view : forall x e, ep_view (ep_with_summary x e) = ep_view e;
  ep_description_view : forall x e, ep_view (ep_with_description x e) = ep_view e;
  ep_tags_view : forall x e, ep_view (ep_with_tags x e) = ep_view e;
  ep_input_view : forall v e, ep_view (ep_with_input v e) = ep_view e;
  ep_output_view : forall v e, ep_view (ep_with_output v e) = ep_view e;
  ep_path_params_view : forall v e, ep_view (ep_with_path_params v e) = ep_view e;
  ep_query_params_view : forall v e, ep_view (ep_with_query_params v e) = ep_view e;
  ep_deprecated_view : forall e, ep_view (ep_deprecated e) = ep_view e;
  ep_server_only_view : forall e, ep_view (ep_server_only e) = ep_view e;
  ep_agent_tool_view : forall n d e, ep_view (ep_agent_tool n d e) = ep_view e;
}.

(** [percent_encoding::percent_decode_str(s).decode_utf8()]: [None] when the
    decoded bytes are not UTF-8. *)
Class PercentDecode := percent_decode_utf8 : string -> option string.

(** ** Concrete instances, for the witnesses *)
Record sample_message := {
  sm_action : string; sm_path : string; sm_user : string; sm_meta : list (string * string);
}.

Fixpoint assoc_get (k : string) (l : list (string * string)) : string :=
  match l with
  | [] => ""
  | (k', v) :: l => if String.eqb k k' then v else assoc_get k l
  end.

Definition sample_messages : Messages := {|
  Message := sample_message;
  msg_action := sm_action;
  msg_path := sm_path;
  msg_user_id := sm_user;
  get_meta := fun m k => assoc_get k (sm_meta m);
  set_meta := fun m k v => {| sm_action := sm_action m; sm_path := sm_path m;
                              sm_user := if String.eqb k "auth.user_id" then v else sm_user m;
                              sm_meta := (k, v) :: sm_meta m |};
  META_REQ_PARAM_PREFIX := "req.param.";
|}.
#[export] Existing Instance sample_messages.

#[export] Instance sample_message_laws : MessageLaws sample_messages.
Proof.
  constructor; simpl; intros; try done; [by rewrite String.eqb_refl| |].
  - by rewrite (proj2 (String.eqb_neq k' k)) by congruence.
  - by rewrite (proj2 (String.eqb_neq k _)).
Qed.

Definition sample_endpoints : Endpoints := {|
  BlockEndpoint := HttpMethod * string * AuthLevel;
  SchemaValue := unit;
  ep_method := fun e => e.1.1;
  ep_path := fun e => e.1.2;
  ep_auth := fun e => e.2;
  ep_new := fun m p => (m, p, Public);
  ep_with_auth := fun a e => (e.1, a);
  ep_with_summary := fun _ e => e;
  ep_with_description := fun _ e => e;
  ep_with_tags := fun _ e => e;
  ep_with_input := fun _ e => e;
  ep_with_output := fun _ e => e;
  ep_with_path_params := fun _ e => e;
  ep_with_query_params := fun _ e => e;
  ep_deprecated := fun e => e;
  ep_server_only := fun e => e;
  ep_agent_tool := fun _ _ e => e;
|}.
#[export] Existing Instance sample_endpoints.

#[export] Instance sample_endpoint_laws : EndpointLaws sample_endpoints.
Proof. by constructor; intros; repeat match goal with e : BlockEndpoint |- _ => destruct e as [[? ?] ?] end. Qed.

#[export] Instance sample_percent_decode : PercentDecode := fun s => Some s.
