(* ===== verification/EndpointMatch.v ===== *)
(** * Endpoint matching ([endpoint_match.rs])

    Path templates, the route table of a block, [dispatch] and the access level
    a path resolves to. *)
From Stdlib Require Import String.
From S2P Require Import Prelude Ints Str Wafer.

Definition action_for_method (method : HttpMethod) : string :=
  match method with
  | Get => "retrieve"
  | Post => "create"
  | Patch => "update"
  | Delete => "delete"
  end.

(** ** Templates *)

(** [t.strip_suffix("...}").and_then(|s| s.strip_prefix('{'))] *)
Definition rest_name (t : string) : option string :=
  s ← strip_suffix "...}" t; strip_prefix "{" s.
(** [t.strip_suffix('}').and_then(|s| s.strip_prefix('{'))] *)
Definition var_name (t : string) : option string :=
  s ← strip_suffix "}" t; strip_prefix "{" s.

(** The loop over the bytes, [seen] the slashes passed and [idx] the index. *)
Fixpoint byte_offset_loop (path : string) (idx seen n : nat) : nat :=
  match path with
  | EmptyString => idx
  | String.String b path =>
      if Ascii.eqb b "/" then
        if (S seen =? n)%nat then S idx else byte_offset_loop path (S idx) (S seen) n
      else byte_offset_loop path (S idx) seen n
  end.

Definition byte_offset_of_segment (path : string) (n : nat) : nat :=
  if (n =? 0)%nat then O else byte_offset_loop path 0 0 n.

Abbreviation params := (list (string * string)).

(** The loop over the template segments [ts], at index [i]. *)
Fixpoint match_loop (path : string) (t_segs p_segs : list string) (i : nat) (ts : list string)
    (bound : params) : option params :=
  match ts with
  | [] => if (length p_segs =? length t_segs)%nat then Some bound else None
  | t :: ts =>
      match rest_name t with
      | Some name =>
          let last := (length t_segs - 1)%nat in
          let folder := (i + 1 =? last)%nat && is_empty (default "" (t_segs !! last)) in
          if negb (i =? last)%nat && negb folder then None
          else if (length p_segs <=? i)%nat then None
          else
            let joined := str_drop (byte_offset_of_segment path i) path in
            joined ← (if folder then strip_suffix "/" joined else Some joined);
            if is_empty joined then None else Some (bound ++ [(name, joined)])
      | None =>
          p ← p_segs !! i;
          match var_name t with
          | Some name =>
              if is_empty p then None
              else match_loop path t_segs p_segs (S i) ts (bound ++ [(name, p)])
          | None =>
              if negb (String.eqb t p) then None
              else match_loop path t_segs p_segs (S i) ts bound
          end
      end
  end.

Definition match_template (template path : string) : option params :=
  let t_segs := split_on "/" template in
  let p_segs := split_on "/" path in
  match_loop path t_segs p_segs 0 t_segs [].

(** ** Route tables *)
Section Tables.
Context {E : Endpoints}.

(** A schema producer is a function of no argument. *)
Definition SchemaFn : Type := unit -> SchemaValue.

Record EndpointRoute (H : Type) := {
  er_method : HttpMethod;
  er_template : string;
  er_handler : H;
  er_auth : AuthLevel;
  er_summary : string;
  er_description : string;
  er_input : option SchemaFn;
  er_output : option SchemaFn;
  er_path_params : option SchemaFn;
  er_query_params : option SchemaFn;
  er_tags : list string;
  er_deprecated : bool;
  er_agent_tool : option (string * string);
  er_server_only : bool;
}.

Definition with_auth {H} (method : HttpMethod) (template : string) (handler : H)
    (auth : AuthLevel) : EndpointRoute H := {|
  er_method := method; er_template := template; er_handler := handler; er_auth := auth;
  er_summary := ""; er_description := ""; er_input := None; er_output := None;
  er_path_params := None; er_query_params := None; er_tags := []; er_deprecated := false;
  er_agent_tool := None; er_server_only := false;
|}.

Definition route_public {H} method template (handler : H) :=
  with_auth method template handler Public.
Definition route_authenticated {H} method template (handler : H) :=
  with_auth method template handler Authenticated.
Definition route_admin {H} method template (handler : H) :=
  with_auth method template handler Admin.

(** [if let Some(schema) = row.x { ep = ep.x_schema(schema()) }] *)
Definition apply_schema (f : SchemaValue -> BlockEndpoint -> BlockEndpoint) (o : option SchemaFn)
    (ep : BlockEndpoint) : BlockEndpoint :=
  match o with Some schema => f (schema tt) ep | None => ep end.

Definition declare_row {H} (row : EndpointRoute H) : BlockEndpoint :=
  let ep := ep_new (er_method H row) (er_template H row) in
  let ep := ep_with_summary (er_summary H row) ep in
  let ep := ep_with_description (er_description H row) ep in
  let ep := ep_with_auth (er_auth H row) ep in
  let ep := ep_with_tags (er_tags H row) ep in
  let ep := apply_schema ep_with_input (er_input H row) ep in
  let ep := apply_schema ep_with_output (er_output H row) ep in
  let ep := apply_schema ep_with_path_params (er_path_params H row) ep in
  let ep := apply_schema ep_with_query_params (er_query_params H row) ep in
  let ep := if er_deprecated H row then ep_deprecated ep else ep in
  let ep := if er_server_only H row then ep_server_only ep else ep in
  match er_agent_tool H row with
  | Some (name, description) => ep_agent_tool name description ep
  | None => ep
  end.

Definition declare {H} (table : list (EndpointRoute H)) : list BlockEndpoint :=
  map declare_row table.
End Tables.
Arguments er_method {E H}.
Arguments er_template {E H}.
Arguments er_handler {E H}.
Arguments er_auth {E H}.

(** ** Dispatch *)
Section Dispatch.
Context {E : Endpoints} {M : Messages} {PD : PercentDecode} {H : Type}.

(** [util::url_path_decode] *)
Definition url_path_decode (s : string) : string := default s (percent_decode_utf8 s).

(** [for (name, value) in params { msg.set_meta(..) }] *)
Fixpoint bind_params (msg : Message) (ps : params) : Message :=
  match ps with
  | [] => msg
  | (name, value) :: ps =>
      bind_params
        (set_meta msg (String.append META_REQ_PARAM_PREFIX name) (url_path_decode value)) ps
  end.

Fixpoint dispatch_table (msg : Message) (action candidate : string)
    (table : list (EndpointRoute H)) : option (Message * EndpointRoute H) :=
  match table with
  | [] => None
  | route :: table =>
      if negb (String.eqb (action_for_method (er_method route)) action) then
        dispatch_table msg action candidate table
      else
        match match_template (er_template route) candidate with
        | Some ps => Some (bind_params msg ps, route)
        | None => dispatch_table msg action candidate table
        end
  end.

(** [std::iter::once(path).chain(with_slash)] *)
Definition candidates (path : string) : list string :=
  path :: (if ends_with "/" path then [] else [String.append path "/"]).

Fixpoint dispatch_candidates (msg : Message) (action : string) (paths : list string)
    (table : list (EndpointRoute H)) : option (Message * EndpointRoute H) :=
  match paths with
  | [] => None
  | candidate :: paths =>
      match dispatch_table msg action candidate table with
      | Some r => Some r
      | None => dispatch_candidates msg action paths table
      end
  end.

(** The row that serves the message and the message with its parameters bound;
    [dispatch] answers the row's handler. *)
Definition dispatch_row (msg : Message) (table : list (EndpointRoute H))
  : option (Message * EndpointRoute H) :=
  dispatch_candidates msg (msg_action msg) (candidates (msg_path msg)) table.

Definition dispatch (msg : Message) (table : list (EndpointRoute H)) : Message * option H :=
  match dispatch_row msg table with
  | Some (msg, route) => (msg, Some (er_handler route))
  | None => (msg, None)
  end.
End Dispatch.

(** ** Access levels *)
Section Auth.
Context {E : Endpoints}.

Definition auth_rank (level : AuthLevel) : Z :=
  match level with Public => 0 | Authenticated => 1 | Admin => 2 end.

(** The loop of [endpoint_auth_exact]. *)
Fixpoint endpoint_auth_loop (endpoints : list BlockEndpoint) (action path : string)
    (strictest : option AuthLevel) : option AuthLevel :=
  match endpoints with
  | [] => strictest
  | ep :: endpoints =>
      if negb (String.eqb (action_for_method (ep_method ep)) action) then
        endpoint_auth_loop endpoints action path strictest
      else if bool_decide (is_Some (match_template (ep_path ep) path)) then
        endpoint_auth_loop endpoints action path
          (Some (match strictest with
                 | Some cur => if auth_rank (ep_auth ep) <=? auth_rank cur then cur else ep_auth ep
                 | None => ep_auth ep
                 end))
      else endpoint_auth_loop endpoints action path strictest
  end.

Definition endpoint_auth_exact (endpoints : list BlockEndpoint) (action path : string)
  : option AuthLevel := endpoint_auth_loop endpoints action path None.

Definition endpoint_auth (endpoints : list BlockEndpoint) (action path : string)
  : option AuthLevel :=
  match endpoint_auth_exact endpoints action path with
  | Some level => Some level
  | None =>
      if negb (ends_with "/" path) then
        endpoint_auth_exact endpoints action (String.append path "/")
      else None
  end.
End Auth.

(** ** Reference matching: segment by segment *)
Inductive fits : list string -> list string -> params -> Prop :=
| fits_nil : fits [] [] []
| fits_literal t ts ps qs :
    rest_name t = None -> var_name t = None -> fits ts ps qs -> fits (t :: ts) (t :: ps) qs
| fits_var t n ts p ps qs :
    rest_name t = None -> var_name t = Some n -> p <> "" -> fits ts ps qs ->
    fits (t :: ts) (p :: ps) ((n, p) :: qs)
| fits_rest t n ps :
    rest_name t = Some n -> join "/" ps <> "" -> fits [t] ps [(n, join "/" ps)]
| fits_folder t n ps :
    rest_name t = Some n -> join "/" ps <> "" -> fits [t; ""] (ps ++ [""]) [(n, join "/" ps)].

Section MatchLemmas.
Implicit Types (path template : string).

Lemma segment_offset path idx seen n :
  (seen < n)%nat -> (n - seen < length (split_on "/" path))%nat ->
  exists k, byte_offset_loop path idx seen n = (idx + k)%nat /\
    str_drop k path = join "/" (drop (n - seen) (split_on "/" path)).
Proof.
  revert idx seen. induction path as [|a path IH]; intros idx seen Hlt Hlen; [simpl in Hlen; lia|].
  pose proof (join_split_on "/" path) as Hj. cbn [byte_offset_loop split_on] in *.
  destruct (split_on_cons "/" path) as (p & ps & Hs). rewrite Hs in *.
  destruct (Ascii.eqb a "/"); cbn [length] in Hlen.
  - destruct (Nat.eqb_spec (S seen) n) as [<-|Hne].
    + exists 1%nat. split; [lia|]. replace (S seen - seen)%nat with 1%nat by lia. by symmetry.
    + destruct (IH (S idx) (S seen)) as (k & Hk & Hd); [lia|cbn [length]; lia|].
      exists (S k). split; [lia|]. simpl str_drop. rewrite Hd.
      by replace (n - seen)%nat with (S (n - S seen)) by lia.
  - destruct (IH (S idx) seen) as (k & Hk & Hd); [lia|cbn [length]; lia|].
    exists (S k). split; [lia|]. simpl str_drop. rewrite Hd.
    by replace (n - seen)%nat with (S (n - S seen)) by lia.
Qed.

Lemma drop_segments path i :
  (i < length (split_on "/" path))%nat ->
  str_drop (byte_offset_of_segment path i) path = join "/" (drop i (split_on "/" path)).
Proof.
  intros Hi. unfold byte_offset_of_segment. destruct (Nat.eqb_spec i 0) as [->|Hne].
  - by rewrite drop_0, join_split_on.
  - destruct (segment_offset path 0 0 i) as (k & -> & Hd); [lia|lia|].
    by rewrite Nat.sub_0_r in Hd.
Qed.

Lemma split_on_snoc s : split_on "/" (String.append s "/") = split_on "/" s ++ [""].
Proof.
  induction s as [|a s IH]; [done|]. rewrite str_app_cons. simpl. rewrite IH.
  destruct (split_on_cons "/" s) as (p & ps & ->). simpl. by destruct (Ascii.eqb a "/").
Qed.

Lemma join_snoc_empty l : l <> [] -> join "/" (l ++ [""]) = String.append (join "/" l) "/".
Proof.
  intros Hne. induction l as [|x l IH]; [done|]. destruct l as [|y l]; [done|].
  change (join "/" ((x :: y :: l) ++ [""]))
    with (String.append x (String.append "/" (join "/" ((y :: l) ++ [""])))).
  rewrite IH by done. cbn [join]. by rewrite !str_app_assoc.
Qed.

(** A folder value: what precedes the final empty segment. *)
Lemma folder_segments l q :
  Forall (no_char "/") l -> l <> [] -> q <> "" ->
  strip_suffix "/" (join "/" l) = Some q <-> exists ps, l = ps ++ [""] /\ q = join "/" ps.
Proof.
  intros Hl Hne Hq. rewrite strip_suffix_some. split.
  - intros Hj. exists (split_on "/" q). split; [|by rewrite join_split_on].
    rewrite <- split_on_snoc, <- Hj. by rewrite split_on_join.
  - intros (ps & -> & ->). apply join_snoc_empty. by intros ->.
Qed.

(** The step at a rest segment, [d] the remaining template segments. *)
Lemma rest_segment path t name pre ts bound out :
  rest_name t = Some name -> (pre <= length (split_on "/" path))%nat ->
  (let last := (pre + length ts)%nat in
   let folder := (pre + 1 =? last)%nat && is_empty (default "" ((t :: ts) !! length ts)) in
   if negb (pre =? last)%nat && negb folder then None
   else if (length (split_on "/" path) <=? pre)%nat then None
   else
     let joined := str_drop (byte_offset_of_segment path pre) path in
     joined ← (if folder then strip_suffix "/" joined else Some joined);
     if is_empty joined then None else Some (bound ++ [(name, joined)])) = Some out <->
  exists qs, out = bound ++ qs /\ fits (t :: ts) (drop pre (split_on "/" path)) qs.
Proof.
  intros Hrest Hle. set (segs := split_on "/" path) in *. cbv zeta.
  destruct (Nat.leb_spec (length segs) pre) as [Hge|Hlt].
  { rewrite drop_ge by lia. split; [by repeat case_match|].
    intros (qs & _ & Hf). inversion Hf; subst; try congruence; simpl in *; try done.
    by destruct ps. }
  rewrite drop_segments by done. fold segs.
  assert (drop pre segs <> []) as Hne.
  { intros Hd. apply (f_equal length) in Hd. rewrite length_drop in Hd. simpl in Hd. lia. }
  assert (Forall (no_char "/") (drop pre segs)) as Hnc by (apply Forall_drop, split_on_no_char).
  destruct ts as [|t2 ts].
  - cbn [length]. rewrite Nat.add_0_r, Nat.eqb_refl. cbn [negb andb].
    rewrite (proj2 (Nat.eqb_neq (pre + 1) pre)) by lia. cbn [andb].
    destruct (is_empty (join "/" (drop pre segs))) eqn:He; simpl; rewrite He.
    + apply is_empty_spec in He. split; [done|]. intros (qs & _ & Hf).
      inversion Hf; subst; congruence.
    + apply is_empty_false in He. split.
      * intros [= <-]. eexists. split; [done|]. by apply fits_rest.
      * intros (qs & -> & Hf). inversion Hf; subst; try congruence.
  - rewrite (proj2 (Nat.eqb_neq pre (pre + length (t2 :: ts)))) by (simpl; lia). cbn [negb andb].
    destruct ts as [|t3 ts].
    + cbn [length]. rewrite Nat.eqb_refl. cbn [lookup list_lookup andb default from_option id].
      destruct (is_empty t2) eqn:Ht2; cbn [negb andb].
      * apply is_empty_spec in Ht2 as ->. split.
        -- intros H. apply bind_Some in H as (q & Hq & H).
           destruct (is_empty q) eqn:He; [done|]. injection H as <-. apply is_empty_false in He.
           apply folder_segments in Hq as (ps & -> & ->); [|done..].
           eexists. split; [done|]. by apply fits_folder.
        -- intros (qs & -> & Hf). inversion Hf; subst; try congruence.
           apply bind_Some. exists (join "/" ps). split.
           ++ rewrite H0. apply folder_segments; [done..|]. by exists ps.
           ++ rewrite (proj2 (is_empty_false _)) by done. congruence.
      * apply is_empty_false in Ht2. split; [done|]. intros (qs & _ & Hf).
        inversion Hf; subst; congruence.
    + rewrite (proj2 (Nat.eqb_neq (pre + 1) (pre + length (t2 :: t3 :: ts)))) by (simpl; lia).
      cbn [negb andb]. split; [done|]. intros (qs & _ & Hf). inversion Hf; subst; congruence.
Qed.

Lemma match_loop_spec path pre ts bound out :
  (length pre <= length (split_on "/" path))%nat ->
  match_loop path (pre ++ ts) (split_on "/" path) (length pre) ts bound = Some out <->
  exists qs, out = bound ++ qs /\ fits ts (drop (length pre) (split_on "/" path)) qs.
Proof.
  set (segs := split_on "/" path). revert pre bound.
  induction ts as [|t ts IH]; intros pre bound Hle; cbn [match_loop].
  { rewrite app_nil_r. destruct (Nat.eqb_spec (length segs) (length pre)) as [Heq|Hne].
    - rewrite drop_ge by lia. split.
      + intros [= <-]. exists []. rewrite app_nil_r. split; [done|constructor].
      + intros (qs & -> & Hf). inversion Hf; subst. by rewrite app_nil_r.
    - split; [done|]. intros (qs & -> & Hf). inversion Hf; subst.
      match goal with H : [] = drop _ _ |- _ =>
        apply (f_equal length) in H; rewrite length_drop in H; simpl in H end.
      lia. }
  destruct (rest_name t) as [name|] eqn:Hrest.
  - clear IH. rewrite length_app. cbn [length].
    replace (length pre + S (length ts) - 1)%nat with (length pre + length ts)%nat by lia.
    rewrite lookup_app_r by lia. replace (length pre + length ts - length pre)%nat with (length ts) by lia.
    exact (rest_segment path t name (length pre) ts bound out Hrest Hle).
  - destruct (segs !! length pre) as [p|] eqn:Hp; simpl.
    2:{ split; [done|]. intros (qs & _ & Hf). apply lookup_ge_None in Hp.
        rewrite drop_ge in Hf by lia. inversion Hf; congruence. }
    pose proof (lookup_lt_Some _ _ _ Hp) as Hlt.
    rewrite (drop_S _ _ _ Hp).
    specialize (IH (pre ++ [t])). rewrite <- app_assoc, length_app in IH. cbn [length app] in IH.
    replace (length pre + 1)%nat with (S (length pre)) in IH by lia.
    destruct (var_name t) as [name|] eqn:Hvar.
    + destruct (is_empty p) eqn:He.
      * apply is_empty_spec in He as ->. split; [done|]. intros (qs & _ & Hf).
        inversion Hf; subst; congruence.
      * apply is_empty_false in He. rewrite IH by lia. split.
        -- intros (qs & -> & Hf). exists ((name, p) :: qs). rewrite <- app_assoc. split; [done|].
           by constructor.
        -- intros (qs & -> & Hf). inversion Hf; subst; try congruence. simplify_eq.
           eexists. rewrite <- app_assoc. by split.
    + destruct (String.eqb_spec t p) as [<-|Hne]; simpl.
      * rewrite IH by lia. split.
        -- intros (qs & -> & Hf). exists qs. split; [done|]. by constructor.
        -- intros (qs & -> & Hf). inversion Hf; subst; try congruence. eauto.
      * split; [done|]. intros (qs & _ & Hf). inversion Hf; subst; congruence.
Qed.

Lemma match_template_fits template path ps :
  match_template template path = Some ps <-> fits (split_on "/" template) (split_on "/" path) ps.
Proof.
  unfold match_template.
  rewrite (match_loop_spec path [] (split_on "/" template) [] ps) by (simpl; lia).
  simpl. rewrite drop_0. naive_solver.
Qed.

(** Template matching: [match_template] binds exactly what a segment-by-segment
    reading of the template binds: literals to equal segments, [{name}] to one
    non-empty segment, a trailing [{name...}] to the non-empty remainder, and
    [{name...}/] to the non-empty remainder before a final slash; in every
    other case, a rest variable elsewhere included, it does not match. *)
Theorem match_template_spec template path ps :
  match_template template path = Some ps <->
  fits (split_on "/" template) (split_on "/" path) ps.
Proof. apply match_template_fits. Qed.

(** The segments a list of bound values spells. *)
Fixpoint fill (ts : list string) (values : list string) : list string :=
  match ts with
  | [] => []
  | t :: ts =>
      match rest_name t, var_name t, values with
      | None, None, _ => t :: fill ts values
      | _, _, v :: values => v :: fill ts values
      | _, _, [] => []
      end
  end.

Lemma join_cons x l :
  join "/" (x :: l) =
  match l with [] => x | _ => String.append x (String.append "/" (join "/" l)) end.
Proof. by destruct l. Qed.

Lemma fill_nil ts segs qs : fits ts segs qs -> fill ts qs.*2 = [] <-> segs = [].
Proof.
  intros Hf. destruct Hf as [|t ts ps qs Hr Hv _|t n ts p ps qs Hr Hv _ _|t n ps Hr Hj|t n ps Hr Hj];
    cbn [fill fmap list_fmap snd]; rewrite ?Hr, ?Hv; try done.
  - split; [by destruct (var_name t)|by intros ->].
  - split; [by destruct (var_name t)|by destruct ps].
Qed.

Lemma fill_fits ts segs qs : fits ts segs qs -> join "/" (fill ts qs.*2) = join "/" segs.
Proof.
  intros Hf. induction Hf as [|t ts ps qs Hr Hv Hf IH|t n ts p ps qs Hr Hv _ Hf IH|t n ps Hr Hj|t n ps Hr Hj];
    cbn [fill fmap list_fmap snd]; rewrite ?Hr, ?Hv; [done|..].
  - rewrite !join_cons, IH. pose proof (fill_nil _ _ _ Hf) as [Hn Hn'].
    destruct (fill ts qs.*2), ps; try done; [by specialize (Hn eq_refl)|by specialize (Hn' eq_refl)].
  - rewrite !join_cons, IH. pose proof (fill_nil _ _ _ Hf) as [Hn Hn'].
    destruct (fill ts qs.*2), ps; try done; [by specialize (Hn eq_refl)|by specialize (Hn' eq_refl)].
  - by destruct (var_name t).
  - assert (ps <> []) by (by intros ->). rewrite join_snoc_empty by done. by destruct (var_name t).
Qed.

(** Instantiation: a path that matches is the template with each variable
    replaced by the value bound to it, so the template and the bound values
    determine the path. *)
Theorem match_template_fill template path ps
  (H : match_template template path = Some ps) :
  join "/" (fill (split_on "/" template) ps.*2) = path.
Proof.
  apply match_template_fits in H. rewrite <- (join_split_on "/" path). by apply fill_fits.
Qed.
End MatchLemmas.

Section AuthLemmas.
Context {E : Endpoints}.
Implicit Types (endpoints : list BlockEndpoint) (e : BlockEndpoint).

Lemma auth_rank_inj a b : auth_rank a = auth_rank b -> a = b.
Proof. by destruct a, b. Qed.

(** The endpoint answers the method and its template covers the path. *)
Definition covers (action path : string) e : bool :=
  String.eqb (action_for_method (ep_method e)) action &&
  bool_decide (is_Some (match_template (ep_path e) path)).

Definition rank_of (o : option AuthLevel) : Z := match o with Some l => auth_rank l | None => -1 end.

Lemma rank_of_inj a b : rank_of a = rank_of b -> a = b.
Proof. destruct a as [[]|], b as [[]|]; simpl; intros; try done; lia. Qed.

(** The strictest level of the covering endpoints, as a rank. *)
Definition strictest_rank endpoints action path : Z :=
  foldr (fun e n => if covers action path e then Z.max (auth_rank (ep_auth e)) n else n) (-1) endpoints.

Lemma auth_loop_rank endpoints action path cur :
  rank_of (endpoint_auth_loop endpoints action path cur) =
  Z.max (rank_of cur) (strictest_rank endpoints action path).
Proof.
  revert cur. induction endpoints as [|e endpoints IH]; intros cur; simpl.
  { destruct cur as [[]|]; done. }
  unfold covers at 1. destruct (String.eqb _ action); simpl; [|apply IH].
  destruct (bool_decide _); simpl; [|apply IH]. rewrite IH. simpl.
  destruct cur as [l|]; simpl; [|destruct (ep_auth e); simpl; lia].
  destruct (Z.leb_spec (auth_rank (ep_auth e)) (auth_rank l)); simpl; lia.
Qed.

Lemma strictest_rank_ge endpoints action path : -1 <= strictest_rank endpoints action path.
Proof. induction endpoints; simpl; [lia|]. case_match; lia. Qed.

Lemma auth_exact_rank endpoints action path :
  rank_of (endpoint_auth_exact endpoints action path) = strictest_rank endpoints action path.
Proof.
  unfold endpoint_auth_exact. rewrite auth_loop_rank. simpl.
  pose proof (strictest_rank_ge endpoints action path). lia.
Qed.

Lemma strictest_rank_permutation eps eps' action path :
  eps ≡ₚ eps' -> strictest_rank eps action path = strictest_rank eps' action path.
Proof. induction 1; simpl; repeat case_match; lia. Qed.

Lemma strictest_rank_elem eps action path e :
  e ∈ eps -> covers action path e = true -> auth_rank (ep_auth e) <= strictest_rank eps action path.
Proof.
  induction eps as [|e' eps IH]; [by intros ?%not_elem_of_nil|].
  intros [->|Hin]%elem_of_cons Hc; simpl; [rewrite Hc; lia|]. specialize (IH Hin Hc). case_match; lia.
Qed.

Lemma strictest_rank_none eps action path :
  strictest_rank eps action path = -1 <-> Forall (fun e => covers action path e = false) eps.
Proof.
  induction eps as [|e eps IH]; simpl; [by split|].
  rewrite Forall_cons, <- IH. pose proof (strictest_rank_ge eps action path).
  destruct (covers action path e) eqn:Hc.
  - split; [|by intros [? _]]. destruct (ep_auth e); simpl; lia.
  - naive_solver.
Qed.

Lemma auth_exact_permutation eps eps' action path :
  eps ≡ₚ eps' -> endpoint_auth_exact eps action path = endpoint_auth_exact eps' action path.
Proof.
  intros Hp. apply rank_of_inj. rewrite !auth_exact_rank. by apply strictest_rank_permutation.
Qed.

(** Declaration order cannot change what a path requires: the level is the
    same for every permutation of a block's endpoints. *)
Theorem endpoint_auth_permutation eps eps' action path (Hp : eps ≡ₚ eps') :
  endpoint_auth eps action path = endpoint_auth eps' action path.
Proof.
  unfold endpoint_auth. by rewrite !(auth_exact_permutation _ _ _ _ Hp).
Qed.

Lemma endpoint_auth_none eps action path :
  endpoint_auth_exact eps action path = None <-> Forall (fun e => covers action path e = false) eps.
Proof.
  rewrite <- strictest_rank_none, <- auth_exact_rank.
  destruct (endpoint_auth_exact eps action path) as [[]|]; simpl; split; intros; done || lia.
Qed.

Lemma endpoint_auth_ge eps action path e :
  e ∈ eps -> covers action path e = true ->
  exists level, endpoint_auth_exact eps action path = Some level /\
    auth_rank (ep_auth e) <= auth_rank level.
Proof.
  intros Hin Hc. pose proof (strictest_rank_elem eps action path e Hin Hc) as Hr.
  rewrite <- auth_exact_rank in Hr. destruct (endpoint_auth_exact eps action path) as [l|]; simpl in Hr.
  - eauto.
  - destruct (ep_auth e); simpl in Hr; lia.
Qed.
End AuthLemmas.

Section DispatchLemmas.
Context {E : Endpoints} {EL : EndpointLaws E} {M : Messages} {PD : PercentDecode} {H : Type}.
Implicit Types (table : list (EndpointRoute H)) (row : EndpointRoute H) (msg : Message).

Lemma apply_schema_view f o ep :
  (forall v e, ep_view (f v e) = ep_view e) -> ep_view (apply_schema f o ep) = ep_view ep.
Proof. intros Hf. destruct o; [apply Hf|done]. Qed.

(** A declared endpoint has its row's method, template and level. *)
Lemma declare_row_view row :
  ep_view (declare_row row) = (er_method row, er_template row, er_auth row).
Proof.
  unfold declare_row. cbv zeta.
  assert (forall o (e e' : BlockEndpoint), ep_view e = ep_view e' ->
    ep_view (match o with Some (n, d) => ep_agent_tool n d e | None => e end) = ep_view e') as Ht
    by (intros [[n d]|] e e' He; [by rewrite ep_agent_tool_view|done]).
  assert (forall (b : bool) f (e : BlockEndpoint), (forall e, ep_view (f e) = ep_view e) ->
    ep_view (if b then f e else e) = ep_view e) as Hb by (intros [] f e Hf; [apply Hf|done]).
  erewrite Ht; [|reflexivity].
  rewrite (Hb _ ep_server_only) by apply ep_server_only_view.
  rewrite (Hb _ ep_deprecated) by apply ep_deprecated_view.
  rewrite (apply_schema_view ep_with_query_params) by apply ep_query_params_view.
  rewrite (apply_schema_view ep_with_path_params) by apply ep_path_params_view.
  rewrite (apply_schema_view ep_with_output) by apply ep_output_view.
  rewrite (apply_schema_view ep_with_input) by apply ep_input_view.
  rewrite ep_tags_view, ep_auth_view.
  assert (forall a b, ep_view a = ep_view b -> ep_method a = ep_method b /\ ep_path a = ep_path b) as Hv
    by (unfold ep_view; intros ? ? [= -> ->]; done).
  destruct (Hv _ _ (ep_description_view (er_description H row)
    (ep_with_summary (er_summary H row) (ep_new (er_method row) (er_template row))))) as [-> ->].
  destruct (Hv _ _ (ep_summary_view (er_summary H row) (ep_new (er_method row) (er_template row)))) as [-> ->].
  by rewrite ep_new_method, ep_new_path.
Qed.

Lemma declare_covers row action path :
  covers action path (declare_row row) =
  String.eqb (action_for_method (er_method row)) action &&
  bool_decide (is_Some (match_template (er_template row) path)).
Proof.
  pose proof (declare_row_view row) as Hv. unfold ep_view in Hv. injection Hv as Hm Hp _.
  unfold covers. by rewrite Hm, Hp.
Qed.

Lemma declare_auth row : ep_auth (declare_row row) = er_auth row.
Proof. pose proof (declare_row_view row) as Hv. unfold ep_view in Hv. by injection Hv. Qed.

Lemma dispatch_table_some msg action candidate table msg' row :
  dispatch_table msg action candidate table = Some (msg', row) ->
  row ∈ table /\ covers action candidate (declare_row row) = true /\
    exists ps, match_template (er_template row) candidate = Some ps /\ msg' = bind_params msg ps.
Proof.
  induction table as [|r table IH]; simpl; [done|].
  destruct (String.eqb _ action) eqn:Ha; simpl.
  - destruct (match_template (er_template r) candidate) as [ps|] eqn:Hm.
    + intros [= <- <-]. split; [apply list_elem_of_here|]. rewrite declare_covers, Ha, Hm.
      split; [done|]. eauto.
    + intros H1. destruct (IH H1) as (? & ? & ?). split; [by apply list_elem_of_further|done].
  - intros H1. destruct (IH H1) as (? & ? & ?). split; [by apply list_elem_of_further|done].
Qed.

Lemma dispatch_table_none msg action candidate table :
  dispatch_table msg action candidate table = None <->
  endpoint_auth_exact (declare table) action candidate = None.
Proof.
  rewrite endpoint_auth_none. unfold declare. rewrite Forall_fmap. unfold compose.
  induction table as [|r table IH]; simpl; [by split|].
  rewrite Forall_cons, <- IH, declare_covers.
  destruct (String.eqb _ action); simpl; [|naive_solver].
  destruct (match_template (er_template r) candidate); simpl; naive_solver.
Qed.

(** Every request a block's table serves is gated at least at the level its
    row declares: whatever row [dispatch] selects, bare trailing-slash form
    included, the level the router resolves from the endpoints [declare]d by
    the same table is at least that row's. *)
Theorem dispatch_gated msg table msg' row
  (Hd : dispatch_row msg table = Some (msg', row)) :
  row ∈ table /\
    exists level, endpoint_auth (declare table) (msg_action msg) (msg_path msg) = Some level /\
    auth_rank (er_auth row) <= auth_rank level.
Proof.
  unfold dispatch_row, candidates in Hd. simpl in Hd. unfold endpoint_auth.
  destruct (dispatch_table msg (msg_action msg) (msg_path msg) table) as [[m r]|] eqn:H1.
  - injection Hd as <- <-. apply dispatch_table_some in H1 as (Hin & Hc & _). split; [done|].
    destruct (endpoint_auth_ge (declare table) _ _ (declare_row r)
      (list_elem_of_fmap_2 declare_row table r Hin) Hc) as (level & -> & Hl).
    rewrite declare_auth in Hl. eauto.
  - apply dispatch_table_none in H1. rewrite H1.
    destruct (ends_with "/" (msg_path msg)); simpl in *; [done|].
    destruct (dispatch_table msg _ (String.append (msg_path msg) "/") table) as [[m r]|] eqn:H2; [|done].
    injection Hd as <- <-. apply dispatch_table_some in H2 as (Hin & Hc & _). split; [done|].
    destruct (endpoint_auth_ge (declare table) _ _ (declare_row r)
      (list_elem_of_fmap_2 declare_row table r Hin) Hc) as (level & -> & Hl).
    rewrite declare_auth in Hl. eauto.
Qed.

(** The router and the block agree on what exists: [dispatch] finds no row
    exactly when the declared endpoints resolve to no level. *)
Theorem dispatch_none_iff msg table :
  snd (dispatch msg table) = None <->
  endpoint_auth (declare table) (msg_action msg) (msg_path msg) = None.
Proof.
  unfold dispatch, dispatch_row, candidates, endpoint_auth. simpl.
  destruct (dispatch_table msg _ (msg_path msg) table) as [[m r]|] eqn:H1.
  - assert (endpoint_auth_exact (declare table) (msg_action msg) (msg_path msg) <> None) as Hne
      by (intros Hn; apply (dispatch_table_none msg) in Hn; congruence).
    by destruct (endpoint_auth_exact (declare table) (msg_action msg) (msg_path msg)).
  - apply dispatch_table_none in H1. rewrite H1.
    destruct (ends_with "/" (msg_path msg)); simpl; [done|].
    destruct (dispatch_table msg _ (String.append (msg_path msg) "/") table) as [[m r]|] eqn:H2.
    + split; [done|]. intros Hn. apply (dispatch_table_none msg) in Hn. congruence.
    + by apply dispatch_table_none in H2.
Qed.
End DispatchLemmas.

(** ** Witnesses *)
Definition sample_table : list (EndpointRoute nat) := [
  route_authenticated Get "/b/storage/{bucket}/" 1%nat;
  route_admin Get "/b/storage/admin/" 2%nat;
  route_public Get "/b/storage/{bucket}/files/{path...}" 3%nat ].
Definition sample_get (path : string) : Message :=
  {| sm_action := "retrieve"; sm_path := path; sm_user := ""; sm_meta := [] |}.

Lemma match_template_fill_witness :
  join "/" (fill (split_on "/" "/b/{x}/f/{p...}") ["1"; "c/d"]) = "/b/1/f/c/d".
Proof.
  exact (match_template_fill "/b/{x}/f/{p...}" "/b/1/f/c/d" [("x", "1"); ("p", "c/d")] eq_refl).
Defined.

Lemma endpoint_auth_permutation_witness :
  endpoint_auth (declare sample_table) "retrieve" "/b/storage/admin" =
  endpoint_auth (reverse (declare sample_table)) "retrieve" "/b/storage/admin".
Proof. apply endpoint_auth_permutation. symmetry. apply reverse_Permutation. Defined.

Lemma dispatch_gated_witness :
  exists msg' row, dispatch_row (sample_get "/b/storage/admin") sample_table = Some (msg', row) /\
    er_auth row = Authenticated /\
    exists level, endpoint_auth (declare sample_table) "retrieve" "/b/storage/admin" = Some level /\
    auth_rank (er_auth row) <= auth_rank level.
Proof.
  eexists _, _. split; [reflexivity|]. split; [reflexivity|].
  exact (proj2 (dispatch_gated (sample_get "/b/storage/admin") sample_table _ _ eq_refl)).
Defined.

Lemma dispatch_none_iff_witness :
  snd (dispatch (sample_get "/b/nowhere") sample_table) = None <->
  endpoint_auth (declare sample_table) "retrieve" "/b/nowhere" = None.
Proof. exact (dispatch_none_iff (sample_get "/b/nowhere") sample_table). Defined.
