(* ===== verification/Features.v ===== *)
(** * Block enablement ([features.rs])

    The stored block settings, the enablement rule the router applies, and the
    planner that seeds default rows. *)
From Stdlib Require Import String.
From S2P Require Import Prelude Ints Str Wafer.

(** [wafer_run::BlockInfo]: what the code reads of it. *)
Class BlockInfos (E : Endpoints) := {
  BlockInfo : Type;
  bi_name : BlockInfo -> string;
  bi_endpoints : BlockInfo -> list BlockEndpoint;
  bi_can_disable : BlockInfo -> bool;
}.

(** [migration_helper::sha256_hex_bytes], the digest of the [sha2] crate. *)
Class Sha256 := sha256_hex_bytes : string -> string.

(** ** Stored settings *)
Record MigrationState := { current_hash : string }.
Record BlockState := {
  enabled : bool;
  migration : MigrationState;
  seed_defaults_hash : string;
}.

(** The derived [Default]: every field at its type's default. *)
Definition block_state_default : BlockState :=
  {| enabled := false; migration := {| current_hash := "" |}; seed_defaults_hash := "" |}.

(** [BlockSettings], its one field [blocks]. *)
Abbreviation BlockSettings := (gmap string BlockState).

Definition from_map (enabled_map : gmap string bool) : BlockSettings :=
  (fun e => {| enabled := e; migration := {| current_hash := "" |}; seed_defaults_hash := "" |})
    <$> enabled_map.

Definition to_sorted_map (blocks : BlockSettings) : list (string * BlockState) :=
  merge_sort (fun a b => str_le a.1 b.1) (map_to_list blocks).

Definition set_block_enabled (blocks : BlockSettings) (full_name : string) (e : bool)
  : BlockSettings :=
  let entry := default block_state_default (blocks !! full_name) in
  <[full_name := {| enabled := e; migration := migration entry;
                    seed_defaults_hash := seed_defaults_hash entry |}]> blocks.

Definition state (blocks : BlockSettings) (full_name : string) : BlockState :=
  default {| enabled := true; migration := {| current_hash := "" |}; seed_defaults_hash := "" |}
    (blocks !! full_name).

(** [FeatureConfig], the trait's one method; its two implementations for stored
    settings ([RwLock] only adds the lock) and [AllEnabled]. *)
Abbreviation FeatureConfig := (string -> bool).
Definition is_block_enabled (blocks : BlockSettings) : FeatureConfig :=
  fun full_name => default true (enabled <$> blocks !! full_name).
Definition AllEnabled : FeatureConfig := fun _ => true.

(** ** The seed planner *)
Definition USER_EDITED_SENTINEL : string := "user-edited".

Definition seed_hash_for `{Sha256} (dflt : bool) : string :=
  String.append "seed:" (sha256_hex_bytes (if dflt then "true" else "false")).

Record ExistingRow := { row_enabled : bool; row_hash : string }.
Inductive SeedOp := SeedInsert | SeedUpdate.
Record SeedDecision := {
  sd_block_name : string;
  sd_enabled : bool;
  sd_hash : string;
  sd_op : SeedOp;
}.

Fixpoint plan_seed_decisions `{Sha256} (existing : gmap string ExistingRow)
    (defaults : list (string * bool)) : list SeedDecision :=
  match defaults with
  | [] => []
  | (name, dflt) :: defaults =>
      let want_hash := seed_hash_for dflt in
      let decide_as op :=
        {| sd_block_name := name; sd_enabled := dflt; sd_hash := want_hash; sd_op := op |} in
      match existing !! name with
      | None => decide_as SeedInsert :: plan_seed_decisions existing defaults
      | Some row =>
          if String.eqb (row_hash row) USER_EDITED_SENTINEL || is_empty (row_hash row) then
            plan_seed_decisions existing defaults
          else if String.eqb (row_hash row) want_hash then
            plan_seed_decisions existing defaults
          else decide_as SeedUpdate :: plan_seed_decisions existing defaults
      end
  end.

(** What a caller does with a decision: write the row. *)
Definition apply_decisions (existing : gmap string ExistingRow) (ds : list SeedDecision)
  : gmap string ExistingRow :=
  foldr (fun d m => <[sd_block_name d := {| row_enabled := sd_enabled d; row_hash := sd_hash d |}]> m)
    existing ds.

(** ** Lemmas *)
Section SettingsLemmas.
Implicit Types (blocks : BlockSettings).

(** The toggle changes one block's enablement and nothing else: the named
    block answers the new value, its migration state and seed hash are kept,
    and every other block's state is what it was. *)
Theorem set_block_enabled_spec blocks name e :
  is_block_enabled (set_block_enabled blocks name e) name = e /\
  migration (state (set_block_enabled blocks name e) name) = migration (state blocks name) /\
  seed_defaults_hash (state (set_block_enabled blocks name e) name) =
    seed_defaults_hash (state blocks name) /\
  forall other, other <> name ->
    state (set_block_enabled blocks name e) other = state blocks other /\
    is_block_enabled (set_block_enabled blocks name e) other = is_block_enabled blocks other.
Proof.
  unfold set_block_enabled, is_block_enabled, state. cbv zeta. rewrite lookup_insert_eq. simpl.
  split; [done|]. split; [by destruct (blocks !! name)|]. split; [by destruct (blocks !! name)|].
  intros other Hne. by rewrite lookup_insert_ne by congruence.
Qed.
End SettingsLemmas.

Section SeedLemmas.
Context {SH : Sha256}.
Implicit Types (existing : gmap string ExistingRow) (defaults : list (string * bool)).

(** The row is an operator's or a legacy one, which the planner never writes. *)
Definition owned (row : ExistingRow) : bool :=
  String.eqb (row_hash row) USER_EDITED_SENTINEL || is_empty (row_hash row).

Lemma seed_hash_not_owned dflt e : owned {| row_enabled := e; row_hash := seed_hash_for dflt |} = false.
Proof. reflexivity. Qed.

Lemma plan_cons existing name dflt defaults :
  plan_seed_decisions existing ((name, dflt) :: defaults) =
  (match existing !! name with
   | Some row =>
       if owned row || String.eqb (row_hash row) (seed_hash_for dflt) then []
       else [{| sd_block_name := name; sd_enabled := dflt; sd_hash := seed_hash_for dflt; sd_op := SeedUpdate |}]
   | None => [{| sd_block_name := name; sd_enabled := dflt; sd_hash := seed_hash_for dflt; sd_op := SeedInsert |}]
   end) ++ plan_seed_decisions existing defaults.
Proof.
  simpl. destruct (existing !! name) as [row|]; [|done]. unfold owned.
  by destruct (String.eqb (row_hash row) USER_EDITED_SENTINEL), (is_empty (row_hash row)),
    (String.eqb (row_hash row) (seed_hash_for dflt)).
Qed.

Lemma plan_names existing defaults d :
  d ∈ plan_seed_decisions existing defaults -> sd_block_name d ∈ defaults.*1.
Proof.
  induction defaults as [|[name dflt] defaults IH]; [by intros ?%not_elem_of_nil|].
  rewrite plan_cons, elem_of_app. intros [Hd|Hd]; simpl; [|apply elem_of_cons; auto].
  apply elem_of_cons. left. destruct (existing !! name); [case_match|];
    repeat (apply elem_of_cons in Hd as [->|Hd]; [done|]); by apply not_elem_of_nil in Hd.
Qed.

Lemma apply_decisions_other existing ds name :
  (forall d, d ∈ ds -> sd_block_name d <> name) -> apply_decisions existing ds !! name = existing !! name.
Proof.
  induction ds as [|d ds IH]; intros Hne; simpl; [done|].
  rewrite lookup_insert_ne; [apply IH; intros; apply Hne; by apply list_elem_of_further|].
  apply Hne, list_elem_of_here.
Qed.

Lemma apply_decisions_app existing ds ds' :
  apply_decisions existing (ds ++ ds') = apply_decisions (apply_decisions existing ds') ds.
Proof. apply foldr_app. Qed.

(** The state of every defaulted block after the plan is applied. *)
Lemma apply_plan_lookup existing defaults name dflt :
  NoDup defaults.*1 -> (name, dflt) ∈ defaults ->
  apply_decisions existing (plan_seed_decisions existing defaults) !! name =
  match existing !! name with
  | Some row =>
      if owned row || String.eqb (row_hash row) (seed_hash_for dflt) then Some row
      else Some {| row_enabled := dflt; row_hash := seed_hash_for dflt |}
  | None => Some {| row_enabled := dflt; row_hash := seed_hash_for dflt |}
  end.
Proof.
  induction defaults as [|[name0 dflt0] defaults IH]; [by intros _ ?%not_elem_of_nil|].
  simpl fmap. intros [Hfresh Hnd]%NoDup_cons [Heq|Hin]%elem_of_cons; rewrite plan_cons, apply_decisions_app.
  - injection Heq as -> ->.
    assert (apply_decisions existing (plan_seed_decisions existing defaults) !! name0 = existing !! name0)
      as Hrest by (apply apply_decisions_other; intros d Hd Heq; apply Hfresh; rewrite <- Heq; by eapply plan_names).
    destruct (existing !! name0) as [row|] eqn:He; [|by simpl; rewrite lookup_insert_eq].
    case_match; simpl; [by rewrite Hrest|by rewrite lookup_insert_eq].
  - assert (name <> name0) as Hne.
    { intros ->. apply Hfresh. apply list_elem_of_fmap. by exists (name0, dflt). }
    rewrite apply_decisions_other; [by apply IH|].
    intros d Hd Hd'. apply Hne. rewrite <- Hd'. clear Hd'.
    destruct (existing !! name0); [case_match|];
      repeat (apply elem_of_cons in Hd as [->|Hd]; [done|]); by apply not_elem_of_nil in Hd.
Qed.

Lemma plan_settled existing defaults :
  (forall name dflt, (name, dflt) ∈ defaults -> exists row, existing !! name = Some row /\
     owned row || String.eqb (row_hash row) (seed_hash_for dflt) = true) ->
  plan_seed_decisions existing defaults = [].
Proof.
  induction defaults as [|[name dflt] defaults IH]; intros Hall; [done|].
  rewrite plan_cons. destruct (Hall name dflt) as (row & -> & ->); [apply list_elem_of_here|].
  apply IH. intros n d Hin. apply Hall. by apply list_elem_of_further.
Qed.

(** Seeding reaches its steady state in one step: once the planned writes are
    applied, planning again for the same defaults writes nothing, so a boot
    loop never rewrites rows. *)
Theorem plan_seed_idempotent existing defaults (Hnd : NoDup defaults.*1) :
  plan_seed_decisions (apply_decisions existing (plan_seed_decisions existing defaults)) defaults = [].
Proof.
  apply plan_settled. intros name dflt Hin. rewrite (apply_plan_lookup _ _ _ dflt) by done.
  destruct (existing !! name) as [row|]; [destruct (owned row || _) eqn:Ho|];
    eexists; (split; [reflexivity|]); [done|..]; by rewrite String.eqb_refl, orb_true_r.
Qed.

(** Seeding respects ownership: a row an operator edited, a legacy row with
    no hash and a row of a block without a default are never written, and every
    other defaulted block ends up enabled exactly as its default says. *)
Theorem plan_seed_ownership existing defaults name
  (Hnd : NoDup defaults.*1) :
  let after := apply_decisions existing (plan_seed_decisions existing defaults) in
  (forall row, existing !! name = Some row -> owned row = true -> after !! name = Some row) /\
  (name ∉ defaults.*1 -> after !! name = existing !! name) /\
  (forall dflt, (name, dflt) ∈ defaults -> existing !! name = None ->
     after !! name = Some {| row_enabled := dflt; row_hash := seed_hash_for dflt |}) /\
  (forall dflt row, (name, dflt) ∈ defaults -> existing !! name = Some row -> owned row = false ->
     row_hash row <> seed_hash_for dflt ->
     after !! name = Some {| row_enabled := dflt; row_hash := seed_hash_for dflt |}).
Proof.
  cbv zeta.
  assert (name ∉ defaults.*1 ->
    apply_decisions existing (plan_seed_decisions existing defaults) !! name = existing !! name) as Hout.
  { intros Hn. apply apply_decisions_other. intros d Hd Heq. apply Hn. rewrite <- Heq. by eapply plan_names. }
  repeat split.
  - intros row He Ho. destruct (decide (name ∈ defaults.*1)) as [Hin|Hn]; [|by rewrite Hout].
    apply list_elem_of_fmap in Hin as ([n dflt] & -> & Hin). simpl in *.
    by rewrite (apply_plan_lookup _ _ _ dflt), He, Ho.
  - done.
  - intros dflt Hin He. by rewrite (apply_plan_lookup _ _ _ dflt), He.
  - intros dflt row Hin He Ho Hh. rewrite (apply_plan_lookup _ _ _ dflt), He, Ho by done. simpl.
    by rewrite (proj2 (String.eqb_neq _ _) Hh).
Qed.
End SeedLemmas.

(** ** Witnesses *)
#[export] Instance sample_sha256 : Sha256 := fun s => s.
Definition sample_defaults : list (string * bool) := [("org/a", true); ("org/b", false)].
Definition sample_rows : gmap string ExistingRow :=
  {["org/a" := {| row_enabled := false; row_hash := USER_EDITED_SENTINEL |}]}.

Lemma sample_defaults_nodup : NoDup sample_defaults.*1.
Proof. apply (bool_decide_unpack _). vm_compute. done. Qed.

Lemma plan_seed_idempotent_witness :
  plan_seed_decisions
    (apply_decisions sample_rows (plan_seed_decisions sample_rows sample_defaults))
    sample_defaults = [].
Proof. exact (plan_seed_idempotent sample_rows sample_defaults sample_defaults_nodup). Defined.

Lemma plan_seed_ownership_witness :
  apply_decisions sample_rows (plan_seed_decisions sample_rows sample_defaults) !! "org/a" =
    Some {| row_enabled := false; row_hash := USER_EDITED_SENTINEL |}.
Proof.
  apply (proj1 (plan_seed_ownership sample_rows sample_defaults "org/a" sample_defaults_nodup));
    reflexivity.
Defined.
