(* ===== verification/Streaming.v ===== *)
(** * Request and response streaming ([streaming.rs])

    The byte cap of a request body and its refusal, the framing of a download,
    and the buffer that cuts an upload into the equal parts an object store
    takes. *)
From Stdlib Require Import String.
From S2P Require Import Prelude Ints Contracts Str Wafer.

(** ** Requests the transport marked ([streaming.rs]) *)
Definition MAX_REQUEST_BODY_BYTES : Z := 10 * 1024 * 1024.
Definition META_REQ_BODY_TOO_LARGE : string := "req.body_too_large".
Definition BODY_TOO_LARGE_VALUE : string := "1".
Definition body_too_large `{Messages} (msg : Message) : bool :=
  String.eqb (get_meta msg META_REQ_BODY_TOO_LARGE) BODY_TOO_LARGE_VALUE.
Definition request_too_large_message : string :=
  concat_chars ["request body too large (limit "; dec MAX_REQUEST_BODY_BYTES; " bytes)"].

(** ** Downloads *)

(** The metadata keys of [wafer_block::http_codec] and [wafer_block::meta]. *)
Class ResponseMeta := {
  META_RESP_STREAM : string;
  STREAM_MARKER_VALUE : string;
  META_RESP_CONTENT_TYPE : string;
  META_RESP_HEADER_PREFIX : string;
  META_RESP_CONTENT_LENGTH : string;
}.

Definition download_leading_meta `{ResponseMeta} (content_type : string) (extra_headers : list (string * string))
  : list (string * string) :=
  (META_RESP_STREAM, STREAM_MARKER_VALUE) ::
  (if is_empty content_type then [] else [(META_RESP_CONTENT_TYPE, content_type)]) ++
  map (fun h => (String.append META_RESP_HEADER_PREFIX h.1, h.2)) extra_headers.

(** ** Upload parts *)
Record UploadPartBuffer := { part_size : Z; buf : string }.
(** [new]: a part size of zero is a panic. *)
Definition upload_new (part_size : Z) : outcome unit UploadPartBuffer :=
  if part_size =? 0 then Panic else Ok {| part_size := part_size; buf := "" |}.
Definition upload_push (b : UploadPartBuffer) (chunk : string) : UploadPartBuffer :=
  {| part_size := part_size b; buf := String.append (buf b) chunk |}.
Definition take_part (b : UploadPartBuffer) : option (string * UploadPartBuffer) :=
  if part_size b <=? str_len (buf b)
  then Some (str_take (Z.to_nat (part_size b)) (buf b),
             {| part_size := part_size b; buf := str_drop (Z.to_nat (part_size b)) (buf b) |})
  else None.
Definition buffered_len (b : UploadPartBuffer) : Z := str_len (buf b).
Definition upload_finish (b : UploadPartBuffer) : string := buf b.
