(* ===== verification/Serving.v ===== *)
(** * Handing out user objects ([files/serving.rs])

    The response headers of a download of bytes that a user uploaded, under a
    type and a name that the user chose, from the application's own origin. *)
From Stdlib Require Import String.
From S2P Require Import Prelude Ints Contracts Str Wafer Streaming.

(** [util::url_path_encode], which is the [percent_encoding] crate: unreserved
    characters stay, others become percent escapes. *)
Definition escape_char (c : ascii) : bool :=
  is_ascii_alphanumeric c || existsb (Ascii.eqb c) ["-"; "_"; "."; "~"; "%"]%char.
Class PathEncode := {
  url_path_encode : string -> string;
  path_encode_plain : forall s, str_forall escape_char (url_path_encode s) = true;
}.

(** ** The headers of a user object *)
Definition quote_mark : string := bytes [34].
Definition NOSNIFF_HEADER : string * string := ("X-Content-Type-Options", "nosniff").
Definition SANDBOX_CSP_HEADER : string * string :=
  ("Content-Security-Policy", "default-src 'none'; sandbox; frame-ancestors 'none'").
Definition FALLBACK_FILENAME : string := "download".
(** [wafer_core::mime::UNKNOWN] *)
Definition FALLBACK_CONTENT_TYPE : string := "application/octet-stream".

(** RFC 9110 [tchar]. *)
Definition is_tchar (c : ascii) : bool :=
  is_ascii_alphanumeric c ||
  existsb (Ascii.eqb c) ["!"; "#"; "$"; "%"; "&"; "'"; "*"; "+"; "-"; "."; "^"; "_"; "`"; "|"; "~"]%char.
Definition is_token (s : string) : bool := negb (is_empty s) && str_forall is_tchar s.
Definition is_printable (c : ascii) : bool := in_range 32 126 (code c).

Definition normalized_content_type (content_type : string) : string :=
  let trimmed := trim content_type in
  let '(essence, params) :=
    match split_once ";" trimmed with
    | Some (essence, params) => (trim essence, Some params)
    | None => (trimmed, None)
    end in
  if negb (match split_once "/" essence with Some (top, sub) => is_token top && is_token sub | None => false end)
  then FALLBACK_CONTENT_TYPE
  else
    match params with
    | Some p => if negb (str_forall is_printable p) then essence else trimmed
    | None => trimmed
    end.

Definition essence_of (content_type : string) : string :=
  to_ascii_lowercase (trim (match split_on ";" content_type with e :: _ => e | [] => "" end)).
Definition renders_inline_safely (content_type : string) : bool :=
  let essence := essence_of content_type in
  if String.eqb essence "application/pdf" || String.eqb essence "text/plain" then true
  else
    match split_once "/" essence with
    | None => false
    | Some (top, sub) =>
        if String.eqb top "image" then negb (ends_with "+xml" sub) && negb (String.eqb sub "xml")
        else String.eqb top "audio" || String.eqb top "video"
    end.

(** [key.rsplit('/').next()]: what follows the last slash. *)
Definition last_segment (key : string) : string := List.last (split_on "/" key) "".
Definition filename_char (c : string) : bool :=
  negb (String.eqb c quote_mark) && negb (String.eqb c (bytes [92])) && negb (is_control c).
Definition disposition_filename (key : string) : string :=
  let name := concat_chars (List.filter filename_char (split_chars (last_segment key))) in
  if is_empty (trim name) then FALLBACK_FILENAME else name.

(** [char::is_ascii] *)
Definition char_is_ascii (c : string) : bool := str_forall is_ascii c.
Definition ascii_fold (name : string) : string :=
  concat_chars (map (fun c => if char_is_ascii c then c else "_") (split_chars name)).
Definition content_disposition `{PathEncode} (inline : bool) (key : string) : string :=
  let name := disposition_filename key in
  let folded := ascii_fold name in
  let kind := if inline then "inline" else "attachment" in
  if String.eqb folded name then concat_chars [kind; "; filename="; quote_mark; folded; quote_mark]
  else concat_chars [kind; "; filename="; quote_mark; folded; quote_mark; "; filename*=UTF-8''"; url_path_encode name].

Definition object_headers `{PathEncode} (content_type key : string) (extra_headers : list (string * string))
  : list (string * string) :=
  let inline := renders_inline_safely content_type in
  ("Content-Disposition", content_disposition inline key) :: NOSNIFF_HEADER ::
  (if inline then [] else [SANDBOX_CSP_HEADER]) ++ extra_headers.
Definition user_object_leading_meta `{PathEncode, ResponseMeta} (content_type key : string)
    (extra_headers : list (string * string)) : list (string * string) :=
  let content_type := normalized_content_type content_type in
  download_leading_meta content_type (object_headers content_type key extra_headers).

(** ** What a browser makes of them

    A type that a browser runs script from when it shows the object: markup,
    XML documents - every type with the suffix [+xml] is one - and script. *)
Definition javascript_types : list string :=
  ["text/javascript"; "application/javascript"; "text/ecmascript"; "application/ecmascript";
   "application/x-javascript"; "application/x-ecmascript"; "text/jscript"; "text/livescript";
   "text/x-javascript"; "text/x-ecmascript"].
Definition runs_script (essence : string) : bool :=
  existsb (String.eqb essence) ("text/html" :: "text/xml" :: "application/xml" :: javascript_types) ||
  match split_once "/" essence with
  | Some (_, sub) => ends_with "+xml" sub
  | None => false
  end.
(** The XML documents that call themselves audio or video. *)
Definition media_xml (essence : string) : bool :=
  match split_once "/" essence with
  | Some (top, sub) => ends_with "+xml" sub && (String.eqb top "audio" || String.eqb top "video")
  | None => false
  end.

(** ** Characters *)
Section Chars.
Implicit Types (c s : string) (l : list string).

Definition is_char c : Prop := exists a r, c = String.String a r /\ str_forall is_continuation r = true.
Definition starts_char c : Prop := starts_continuation c = false.

Lemma split_chars_shape s : Forall is_char (split_chars s) /\ Forall starts_char (tail (split_chars s)).
Proof.
  induction s as [|a s [IH1 IH2]]; [by split; constructor|]. cbn [split_chars].
  destruct (split_chars s) as [|c cs]; [by split; repeat constructor; exists a, ""|].
  apply Forall_cons in IH1 as [Hc Hcs]. destruct (starts_continuation c) eqn:E; (split; [|done || by constructor]).
  - constructor; [|done]. destruct Hc as (b & r & -> & Hr). exists a, (String.String b r). simpl in *. by rewrite E, Hr.
  - constructor; [by exists a, ""|by constructor].
Qed.

Lemma split_chars_char c s : is_char c -> starts_continuation s = false ->
  split_chars (String.append c s) = c :: split_chars s.
Proof.
  intros (a & r & -> & Hr) Hs. revert a Hr. induction r as [|b r IH]; intros a Hr; rewrite str_app_cons.
  - rewrite str_app_nil_l. cbn [split_chars]. destruct s as [|x s]; [done|].
    destruct (split_chars (String.String x s)) as [|c cs] eqn:E.
    + simpl in E. destruct (split_chars s) as [|d ds]; [done|]. by destruct (starts_continuation d).
    + assert (starts_continuation c = false) as ->; [|done]. simpl in E.
      destruct (split_chars s) as [|d ds]; [by injection E as <- _|].
      destruct (starts_continuation d); by injection E as <- _.
  - simpl in Hr. apply andb_true_iff in Hr as [Hb Hr]. cbn [split_chars]. rewrite (IH b Hr). simpl. by rewrite Hb.
Qed.
Lemma split_chars_concat l : Forall is_char l -> Forall starts_char (tail l) -> split_chars (concat_chars l) = l.
Proof.
  induction 1 as [|c l Hc Hl IH]; intros Ht; [done|]. simpl in *. rewrite split_chars_char; [|done|].
  - by rewrite IH by (destruct l; [done|by inversion Ht]).
  - destruct l as [|d l]; [done|]. apply Forall_cons in Ht as [Hd _]. simpl.
    apply Forall_cons in Hl as [(x & r & -> & _) _]. by rewrite str_app_cons.
Qed.
Lemma split_chars_filter f s :
  split_chars (concat_chars (List.filter f (split_chars s))) = List.filter f (split_chars s).
Proof.
  destruct (split_chars_shape s) as [H1 H2]. apply split_chars_concat.
  - rewrite Forall_forall in *. intros c [Hc _]%list_elem_of_In%List.filter_In. by apply H1, list_elem_of_In.
  - destruct (split_chars s) as [|c cs]; [done|]. simpl in *.
    assert (Forall starts_char (List.filter f cs)) as Hf.
    { rewrite Forall_forall in *. intros d [Hd _]%list_elem_of_In%List.filter_In. by apply H2, list_elem_of_In. }
    destruct (f c); [done|]. destruct (List.filter f cs); [done|by inversion Hf].
Qed.
Lemma str_forall_concat p l : Forall (fun c => str_forall p c = true) l -> str_forall p (concat_chars l) = true.
Proof. induction 1 as [|c l Hc _ IH]; [done|]. simpl. by rewrite str_forall_app, Hc. Qed.
End Chars.

(** ** The headers are inert *)
Definition in_quotes (c : ascii) : bool := is_printable c && negb (Ascii.eqb c (byte 34)) && negb (Ascii.eqb c (byte 92)).

Lemma plain_char c : is_char c -> filename_char c = true -> char_is_ascii c = true -> str_forall in_quotes c = true.
Proof.
  intros (a & r & -> & Hr) Hf Ha. unfold char_is_ascii in Ha. simpl in Ha. apply andb_true_iff in Ha as [Ha Har].
  destruct r as [|b r].
  - unfold filename_char in Hf. rewrite !andb_true_iff, !negb_true_iff in Hf. destruct Hf as [[Hq Hb] Hc].
    cbn [str_forall]. unfold in_quotes, is_printable. rewrite andb_true_r, !andb_true_iff, !negb_true_iff. split_and!.
    + simpl in Hc. unfold is_ascii_control in Hc. unfold is_ascii in Ha. pose proof (code_range a). unfold in_range in *. lia.
    + destruct (Ascii.eqb_spec a (byte 34)) as [->|]; [by vm_compute in Hq|done].
    + destruct (Ascii.eqb_spec a (byte 92)) as [->|]; [by vm_compute in Hb|done].
  - simpl in Hr, Har. apply andb_true_iff in Hr as [Hr _], Har as [Har _].
    unfold is_continuation, is_ascii, in_range in *. lia.
Qed.

Lemma fold_in_quotes key : str_forall in_quotes (ascii_fold (disposition_filename key)) = true.
Proof.
  unfold disposition_filename. destruct (is_empty _); [by vm_compute|]. unfold ascii_fold. rewrite split_chars_filter.
  apply str_forall_concat. apply Forall_map, Forall_forall. intros c [Hc Hf]%list_elem_of_In%List.filter_In.
  destruct (char_is_ascii c) eqn:Ha; [|by vm_compute]. apply plain_char; [|done..].
  destruct (split_chars_shape (last_segment key)) as [Hs _]. rewrite Forall_forall in Hs. by apply Hs, list_elem_of_In.
Qed.

Lemma inline_runs_nothing content_type :
  renders_inline_safely content_type = true -> runs_script (essence_of content_type) = true ->
  media_xml (essence_of content_type) = true.
Proof.
  unfold renders_inline_safely. cbv zeta. generalize (essence_of content_type) as e. intros e He.
  unfold runs_script. rewrite orb_true_iff. intros [Hr|Hr].
  - exfalso. apply existsb_exists in Hr as (t & Hin & ->%String.eqb_eq). revert He.
    repeat (destruct Hin as [<- |Hin]; [by vm_compute|]). done.
  - unfold media_xml. destruct (split_once "/" e) as [[top sub]|] eqn:Hs; [|done].
    destruct (String.eqb e "application/pdf" || String.eqb e "text/plain") eqn:Hp.
    + apply orb_true_iff in Hp as [->%String.eqb_eq| ->%String.eqb_eq]; injection Hs as <- <-; by vm_compute in Hr.
    + rewrite Hr in *. by destruct (String.eqb top "image").
Qed.

Lemma normalized_nonempty content_type : is_empty (normalized_content_type content_type) = false.
Proof.
  unfold normalized_content_type. destruct (trim content_type) as [|a t] eqn:Ht; [done|].
  destruct (split_once ";" (String.String a t)) as [[e p]|]; [|by destruct (negb _)].
  destruct (split_once "/" (trim e)) as [[top sub]|] eqn:Hs; [|done]. destruct (negb _); [done|].
  destruct (negb _); [|done]. by destruct (trim e).
Qed.

Section Inert.
Context {RM : ResponseMeta} {PE : PathEncode}.

(** C5. An object that a user uploaded cannot act on the application's origin:
    whatever its key and type, the download forbids sniffing, its disposition
    is one line of printable ASCII whose file name ends at its closing quote,
    and a type from which a browser runs script is an attachment in a sandbox -
    all of them but the XML documents that call themselves audio or video,
    which the code shows inline ([audio_xml_is_inline]). *)
Theorem user_objects_are_inert content_type key :
  exists served disposition name,
    let meta := user_object_leading_meta content_type key [] in
    let header h := String.append META_RESP_HEADER_PREFIX h in
    (META_RESP_CONTENT_TYPE, served) ∈ meta /\ (header "Content-Disposition", disposition) ∈ meta /\
    (header "X-Content-Type-Options", "nosniff") ∈ meta /\
    str_forall is_printable disposition = true /\ str_forall in_quotes name = true /\
    (exists kind rest, (kind = "inline" \/ kind = "attachment") /\
       disposition = concat_chars [kind; "; filename="; quote_mark; name; quote_mark; rest] /\
       (runs_script (essence_of served) = true -> media_xml (essence_of served) = false ->
          kind = "attachment" /\ (header SANDBOX_CSP_HEADER.1, SANDBOX_CSP_HEADER.2) ∈ meta)).
Proof.
  set (served := normalized_content_type content_type). set (inline := renders_inline_safely served).
  set (name := ascii_fold (disposition_filename key)).
  exists served, (content_disposition inline key), name. cbv zeta.
  pose proof (fold_in_quotes key) as Hname. fold name in Hname.
  assert (str_forall is_printable name = true) as Hprint.
  { eapply str_forall_impl; [|exact Hname]. unfold in_quotes. intros c. rewrite !andb_true_iff. tauto. }
  assert (forall h, h ∈ object_headers served key [] ->
    (String.append META_RESP_HEADER_PREFIX h.1, h.2) ∈ user_object_leading_meta content_type key []) as Hin.
  { intros h Hh. unfold user_object_leading_meta, download_leading_meta. fold served.
    apply list_elem_of_further, elem_of_app. right. by apply list_elem_of_fmap_2 with (f := fun h => (String.append META_RESP_HEADER_PREFIX h.1, h.2)). }
  split_and!; [| | | |done|].
  - unfold user_object_leading_meta, download_leading_meta. fold served. unfold served at 2. rewrite normalized_nonempty.
    apply list_elem_of_further. by left.
  - apply (Hin ("Content-Disposition", content_disposition inline key)). unfold object_headers. by left.
  - apply (Hin NOSNIFF_HEADER). unfold object_headers. right. by left.
  - unfold content_disposition. fold name. pose proof (path_encode_plain (disposition_filename key)) as Henc.
    assert (str_forall is_printable (url_path_encode (disposition_filename key)) = true) as Hpath.
    { eapply str_forall_impl; [|exact Henc]. intros c. unfold escape_char. rewrite orb_true_iff, existsb_exists.
      intros [Hc|(d & Hd & ->%Ascii.eqb_eq)].
      - unfold is_ascii_alphanumeric, is_ascii_alphabetic, is_ascii_uppercase, is_ascii_lowercase, is_ascii_digit in Hc.
        unfold is_printable, code, in_range in *. lia.
      - repeat (destruct Hd as [<- |Hd]; [by vm_compute|]). done. }
    destruct (String.eqb name _), inline; cbn [concat_chars foldr]; rewrite ?str_forall_app, ?Hprint, ?Hpath; by vm_compute.
  - unfold content_disposition. fold name.
    exists (if inline then "inline" else "attachment"),
      (if String.eqb name (disposition_filename key) then ""
       else concat_chars ["; filename*=UTF-8''"; url_path_encode (disposition_filename key)]).
    split; [by destruct inline; auto|]. split.
    { destruct (String.eqb name (disposition_filename key)); [done|].
      cbn [concat_chars foldr]. by rewrite !str_app_nil_r. }
    intros Hrun Hmedia. assert (inline = false) as Hi.
    { destruct inline eqn:E; [|done]. apply inline_runs_nothing in E; [congruence|done]. }
    rewrite Hi. split; [done|]. apply (Hin SANDBOX_CSP_HEADER). unfold object_headers. fold inline. rewrite Hi.
    right. right. by left.
Qed.
End Inert.

(** The control character that the normalisation is there to keep out of the
    header passes it between the type and the first semicolon. *)
Theorem line_feed_survives_normalization :
  normalized_content_type (concat_chars ["image/png"; bytes [10]; ";q=1"]) = concat_chars ["image/png"; bytes [10]; ";q=1"].
Proof. by vm_compute. Qed.
(** An XML document by its suffix, shown inline because of its top-level type. *)
Theorem audio_xml_is_inline :
  renders_inline_safely "audio/x+xml" = true /\ runs_script (essence_of "audio/x+xml") = true.
Proof. by vm_compute. Qed.

(** ** A witness *)
Definition hex_digit (n : Z) : ascii := byte (if n <? 10 then 48 + n else 55 + n).
Definition percent_byte (c : ascii) : string :=
  if is_ascii_alphanumeric c || existsb (Ascii.eqb c) ["-"; "_"; "."; "~"]%char then String.String c ""
  else String.String "%" (String.String (hex_digit (code c / 16)) (String.String (hex_digit (code c mod 16)) "")).
Fixpoint percent_encode (s : string) : string :=
  match s with EmptyString => "" | String.String c s => String.append (percent_byte c) (percent_encode s) end.
Lemma percent_byte_plain c : str_forall escape_char (percent_byte c) = true.
Proof. destruct c as [[] [] [] [] [] [] [] []]; by vm_compute. Qed.
Lemma percent_encode_plain s : str_forall escape_char (percent_encode s) = true.
Proof. induction s as [|c s IH]; [done|]. simpl. by rewrite str_forall_app, percent_byte_plain, IH. Qed.
#[local] Instance percent_encoding : PathEncode := {| path_encode_plain := percent_encode_plain |}.
#[local] Instance codec_meta : ResponseMeta := {|
  META_RESP_STREAM := "resp.stream"; STREAM_MARKER_VALUE := "1"; META_RESP_CONTENT_TYPE := "resp.content_type";
  META_RESP_HEADER_PREFIX := "resp.header."; META_RESP_CONTENT_LENGTH := "resp.content_length" |}.

Lemma user_objects_are_inert_witness :
  let meta := user_object_leading_meta "text/html" (concat_chars ["docs/"; quote_mark; "x"; bytes [195; 169]]) [] in
  exists served disposition name,
    (META_RESP_CONTENT_TYPE, served) ∈ meta /\
    (String.append META_RESP_HEADER_PREFIX "Content-Disposition", disposition) ∈ meta /\
    (String.append META_RESP_HEADER_PREFIX "X-Content-Type-Options", "nosniff") ∈ meta /\
    str_forall is_printable disposition = true /\ str_forall in_quotes name = true /\
    (exists kind rest, (kind = "inline" \/ kind = "attachment") /\
       disposition = concat_chars [kind; "; filename="; quote_mark; name; quote_mark; rest] /\
       (runs_script (essence_of served) = true -> media_xml (essence_of served) = false ->
          kind = "attachment" /\
          (String.append META_RESP_HEADER_PREFIX SANDBOX_CSP_HEADER.1, SANDBOX_CSP_HEADER.2) ∈ meta)).
Proof. exact (user_objects_are_inert "text/html" (concat_chars ["docs/"; quote_mark; "x"; bytes [195; 169]])). Defined.
