(* ===== verification/Routing.v ===== *)
(** * Routing ([routing.rs])

    The route table, the access tier a request needs, the page and tool
    visibility questions asked ahead of a request, the published feature gate
    and [route_to_block] itself. *)
From Stdlib Require Import String.
From S2P Require Import Prelude Ints Str Wafer EndpointMatch Features.

(** ** Access tiers *)
Inductive RouteAccess := RaPublic | RaAuthenticated | RaAdmin.

#[export] Instance route_access_eq_dec : EqDecision RouteAccess.
Proof. solve_decision. Defined.

Definition from_auth_level (level : AuthLevel) : RouteAccess :=
  match level with
  | Public => RaPublic
  | Authenticated => RaAuthenticated
  | Admin => RaAdmin
  end.

(** The derived [Ord] of [RouteAccess]. *)
Definition access_rank (a : RouteAccess) : Z :=
  match a with RaPublic => 0 | RaAuthenticated => 1 | RaAdmin => 2 end.
Definition access_max (self other : RouteAccess) : RouteAccess :=
  if access_rank self <=? access_rank other then other else self.

(** ** The table *)
Record Route := {
  prefix : string;
  access : RouteAccess;
  block : string;
  dispatch_to : string;
}.
Definition route_new (prefix : string) (access : RouteAccess) (block : string) : Route :=
  {| prefix := prefix; access := access; block := block; dispatch_to := block |}.
Definition route_proxy (prefix : string) (access : RouteAccess) (block dispatch_to : string)
  : Route := {| prefix := prefix; access := access; block := block; dispatch_to := dispatch_to |}.

Definition STATIC_PREFIX : string := "/b/static/".

Definition ROUTES : list Route := [
  route_new "/health" RaPublic "impresspress/system";
  route_new STATIC_PREFIX RaPublic "impresspress/system";
  route_proxy "/b/inspector" RaAdmin "impresspress/inspector" "wafer-run/inspector";
  route_new "/b/auth/" RaPublic "impresspress/auth-ui";
  route_new "/b/admin/" RaAdmin "impresspress/admin";
  route_new "/b/storage/" RaPublic "impresspress/files";
  route_new "/b/cloudstorage/" RaPublic "impresspress/files";
  route_new "/b/products" RaPublic "impresspress/products";
  route_new "/b/tickets" RaPublic "impresspress/tickets";
  route_new "/b/legalpages" RaPublic "impresspress/legalpages";
  route_new "/b/userportal" RaPublic "impresspress/userportal";
  route_new "/b/messages" RaPublic "impresspress/messages";
  route_new "/b/llm" RaPublic "impresspress/llm";
  route_new "/b/vector/" RaPublic "impresspress/vector";
  route_new "/b/signal/" RaPublic "impresspress/signal" ].

(** Routes a downstream project registers. *)
Record ExtraRoute := {
  extra_prefix : string;
  extra_access : RouteAccess;
  extra_block_name : string;
  refine_undeclared : bool;
}.
Definition extra_route_new (prefix block_name : string) (access : RouteAccess) : ExtraRoute :=
  {| extra_prefix := prefix; extra_access := access; extra_block_name := block_name;
     refine_undeclared := false |}.
Definition extra_route_refined (prefix block_name : string) (access : RouteAccess) : ExtraRoute :=
  {| extra_prefix := prefix; extra_access := access; extra_block_name := block_name;
     refine_undeclared := true |}.
Definition refines_undeclared (r : ExtraRoute) : bool := refine_undeclared r.

Definition route_prefix_matches (prefix path : string) : bool :=
  String.eqb path prefix || starts_with prefix path ||
  bool_decide (strip_suffix "/" prefix = Some path).

Definition feature_gate_name (block_name : string) : string :=
  match List.find (fun r => String.eqb (block r) block_name || String.eqb (dispatch_to r) block_name)
          ROUTES with
  | Some r => block r
  | None => block_name
  end.

(** [util::is_admin] *)
Definition is_admin `{Messages} (msg : Message) : bool :=
  existsb (fun r => String.eqb (trim r) "admin") (split_on "," (get_meta msg "auth.user_roles")).

(** Why a caller fails a tier. *)
Inductive Denial := Unauthenticated | Forbidden.
#[export] Instance denial_eq_dec : EqDecision Denial.
Proof. solve_decision. Defined.

Definition denial `{Messages} (access : RouteAccess) (msg : Message) : option Denial :=
  match access with
  | RaPublic => None
  | RaAuthenticated => if is_empty (msg_user_id msg) then Some Unauthenticated else None
  | RaAdmin =>
      if is_empty (msg_user_id msg) then Some Unauthenticated
      else if negb (is_admin msg) then Some Forbidden else None
  end.

(** [serde_json] on the lists the gate travels in, and on the settings map. *)
Class GateJson := {
  list_to_json : list string -> option string;
  list_of_json : string -> option (list string);
  settings_of_json : string -> option (gmap string BlockState);
}.
(** A serialised list is read back, and is never the empty text; serialising a
    list of strings cannot fail. *)
Class GateJsonLaws (J : GateJson) := {
  list_json_roundtrip : forall l, exists s, list_to_json l = Some s /\ list_of_json s = Some l /\ s <> "";
}.

Section Routing.
Context {E : Endpoints} {BI : BlockInfos E} {M : Messages} {J : GateJson}.
(** [wafer_block::declarations]: the declarations among a list of infos. *)
Context (declarations : list BlockInfo -> list BlockInfo).

(** [features::is_enabled] *)
Definition is_enabled (features : FeatureConfig) (registered : list BlockInfo) (gate_name : string)
  : bool :=
  let always_on :=
    existsb (fun b => negb (bi_can_disable b) &&
                      String.eqb (feature_gate_name (bi_name b)) gate_name) registered in
  always_on || features gate_name.

Definition declared_endpoint_access (block_infos : list BlockInfo) (block_name action path : string)
  : option RouteAccess :=
  info ← List.find (fun i => String.eqb (bi_name i) block_name) block_infos;
  from_auth_level <$> endpoint_auth (bi_endpoints info) action path.

Definition declared_access (block_infos : list BlockInfo) (block_name : string) (msg : Message)
  : RouteAccess :=
  default RaAuthenticated
    (declared_endpoint_access block_infos block_name (msg_action msg) (msg_path msg)).

Definition extra_route_access (block_infos : list BlockInfo) (route : ExtraRoute) (msg : Message)
  : RouteAccess :=
  match declared_endpoint_access block_infos (extra_block_name route) (msg_action msg)
          (msg_path msg) with
  | Some declared => access_max (extra_access route) declared
  | None =>
      if refines_undeclared route then access_max (extra_access route) RaAuthenticated
      else extra_access route
  end.

(** [href.split('?').next().unwrap_or(href)] *)
Definition href_path (href : string) : string := default href (head (split_on "?" href)).

Definition admits_page (block_infos : list BlockInfo) (msg : Message) (href : string) : bool :=
  let path := href_path href in
  match List.find (fun route => route_prefix_matches (prefix route) path) ROUTES with
  | None => false
  | Some route =>
      let declared :=
        default RaAuthenticated
          (declared_endpoint_access block_infos (block route) "retrieve" path) in
      bool_decide (denial (access_max (access route) declared) msg = None)
  end.

Definition to_auth_level (a : RouteAccess) : AuthLevel :=
  match a with
  | RaPublic => Public
  | RaAuthenticated => Authenticated
  | RaAdmin => Admin
  end.

Definition effective_access (b : BlockInfo) (ep : BlockEndpoint) (extra_routes : list ExtraRoute)
  : AuthLevel :=
  let prefix_matches prefix := route_prefix_matches prefix (ep_path ep) in
  let access :=
    match List.find (fun r => prefix_matches (prefix r)) ROUTES with
    | Some r =>
        if negb (String.eqb (block r) (bi_name b)) && negb (String.eqb (dispatch_to r) (bi_name b))
        then RaAdmin
        else access_max (access r) (from_auth_level (ep_auth ep))
    | None =>
        match List.find (fun r => prefix_matches (extra_prefix r)) extra_routes with
        | Some r =>
            if String.eqb (extra_block_name r) (bi_name b)
            then access_max (extra_access r) (from_auth_level (ep_auth ep))
            else RaAdmin
        | None => RaAdmin
        end
    end in
  to_auth_level access.

(** ** The published gate *)
Definition META_DISABLED_BLOCKS : string := "routing.disabled_blocks".

Definition disabled_blocks (features : FeatureConfig) (block_infos : list BlockInfo) : list string :=
  List.filter (fun gate => negb (is_enabled features block_infos gate))
    (map (fun b => feature_gate_name (bi_name b)) (declarations block_infos)).

Definition disabled_blocks_json (features : FeatureConfig) (block_infos : list BlockInfo) : string :=
  default "[]" (list_to_json (disabled_blocks features block_infos)).

Definition publish_gate (msg : Message) (features : FeatureConfig) (block_infos : list BlockInfo)
  : Message := set_meta msg META_DISABLED_BLOCKS (disabled_blocks_json features block_infos).

Definition from_config_json (json : string) : BlockSettings := default ∅ (settings_of_json json).

(** The loop over the registered blocks that cannot be disabled. *)
Fixpoint enable_always_on (registered : list BlockInfo) (snapshot : BlockSettings) : BlockSettings :=
  match registered with
  | [] => snapshot
  | info :: registered =>
      let gate := feature_gate_name (bi_name info) in
      enable_always_on registered
        (if negb (bi_can_disable info) && negb (is_block_enabled snapshot gate)
         then set_block_enabled snapshot gate true else snapshot)
  end.

(** [config] is [ctx.config_get(BLOCK_SETTINGS_CONFIG_KEY)], [registered] is
    [ctx.registered_blocks()]. *)
Definition gate_from_request (config : option string) (registered : list BlockInfo) (msg : Message)
  : BlockSettings :=
  let raw := get_meta msg META_DISABLED_BLOCKS in
  if is_empty raw then enable_always_on registered (from_config_json (default "{}" config))
  else
    let disabled := default [] (list_of_json raw) in
    from_map (list_to_map (map (fun n => (n, false)) disabled)).

(** ** [route_to_block] *)

(** How a request ends: the block it is handed to, or the response built
    without one. *)
Inductive Decision :=
| CallBlock (name : string) (msg : Message)
| NotFoundResponse (msg : Message)
| Denied (d : Denial) (msg : Message)
| LandingReadFailed
| RootRedirect (target : string).

Definition root_redirect (user_id_empty : bool) : Decision :=
  RootRedirect (if user_id_empty then "/b/auth/login" else "/b/userportal/").

Definition check_access (access : RouteAccess) (msg : Message) : option Decision :=
  (fun d => Denied d msg) <$> denial access msg.

Fixpoint route_builtin (features : FeatureConfig) (block_infos : list BlockInfo) (msg : Message)
    (path : string) (routes : list Route) : option Decision :=
  match routes with
  | [] => None
  | route :: routes =>
      if negb (route_prefix_matches (prefix route) path) then
        route_builtin features block_infos msg path routes
      else Some (
        if negb (is_enabled features block_infos (block route)) then NotFoundResponse msg
        else
          let required := access_max (access route) (declared_access block_infos (block route) msg) in
          match check_access required msg with
          | Some denied => denied
          | None => CallBlock (dispatch_to route) msg
          end)
  end.

Fixpoint route_extra (features : FeatureConfig) (block_infos : list BlockInfo) (msg : Message)
    (path : string) (routes : list ExtraRoute) : option Decision :=
  match routes with
  | [] => None
  | route :: routes =>
      if negb (route_prefix_matches (extra_prefix route) path) then
        route_extra features block_infos msg path routes
      else Some (
        if negb (is_enabled features block_infos (extra_block_name route)) then NotFoundResponse msg
        else
          match check_access (extra_route_access block_infos route msg) msg with
          | Some denied => denied
          | None => CallBlock (extra_block_name route) msg
          end)
  end.

(** [has_landing_page] is the answer of the config read, [None] when it fails. *)
Definition route_to_block (has_landing_page : option bool) (msg : Message)
    (features : FeatureConfig) (block_infos : list BlockInfo) (extra_routes : list ExtraRoute)
  : Decision :=
  let path := msg_path msg in
  let msg := publish_gate msg features block_infos in
  if String.eqb path "/" then
    match has_landing_page with
    | None => LandingReadFailed
    | Some true => CallBlock "wafer-run/web" msg
    | Some false => root_redirect (is_empty (msg_user_id msg))
    end
  else
    match route_builtin features block_infos msg path ROUTES with
    | Some d => d
    | None =>
        match route_extra features block_infos msg path extra_routes with
        | Some d => d
        | None => NotFoundResponse msg
        end
    end.
End Routing.

(** ** The table is disjoint *)

(** The prefix without its trailing slash. *)
Definition prefix_core (p : string) : string := default p (strip_suffix "/" p).

Lemma matches_core p path : route_prefix_matches p path = true -> starts_with (prefix_core p) path = true.
Proof.
  unfold route_prefix_matches, prefix_core. rewrite !orb_true_iff, bool_decide_eq_true, String.eqb_eq.
  assert (forall s, exists t, s = String.append s t) as Hself by (intros s; exists ""; by rewrite str_app_nil_r).
  rewrite !starts_with_spec. intros [[->|[t ->]]|Hs].
  - destruct (strip_suffix "/" p) as [q|] eqn:Hq; simpl; [|apply Hself].
    apply strip_suffix_some in Hq as ->. eauto.
  - destruct (strip_suffix "/" p) as [q|] eqn:Hq; simpl; [|eauto].
    apply strip_suffix_some in Hq as ->. rewrite str_app_assoc. eauto.
  - rewrite Hs. simpl. apply Hself.
Qed.

Lemma prefixes_comparable a b s :
  starts_with a s = true -> starts_with b s = true -> starts_with a b || starts_with b a = true.
Proof.
  rewrite orb_true_iff, !starts_with_spec. revert b s. induction a as [|c a IH]; intros b s.
  - intros _ _. left. by exists b.
  - intros [t Hs] [u Hs']. rewrite Hs in Hs'. destruct b as [|d b]; [by right; exists (String.String c a)|].
    rewrite !str_app_cons in Hs'. injection Hs' as -> Hs'.
    destruct (IH b (String.append a t)) as [[v ->]|[v ->]]; [by exists t|by exists u|left|right];
      exists v; by rewrite str_app_cons.
Qed.

Lemma routes_core_disjoint :
  forallb (fun r => forallb (fun r' =>
    implb (starts_with (prefix_core (prefix r)) (prefix_core (prefix r')) ||
           starts_with (prefix_core (prefix r')) (prefix_core (prefix r)))
      (String.eqb (prefix r) (prefix r'))) ROUTES) ROUTES = true.
Proof. vm_compute. reflexivity. Qed.

Lemma routes_prefix_unique :
  forallb (fun r => forallb (fun r' => implb (String.eqb (prefix r) (prefix r'))
    (String.eqb (block r) (block r') && String.eqb (dispatch_to r) (dispatch_to r') &&
     bool_decide (access r = access r'))) ROUTES) ROUTES = true.
Proof. vm_compute. reflexivity. Qed.

Lemma routes_disjoint r r' path :
  r ∈ ROUTES -> r' ∈ ROUTES -> route_prefix_matches (prefix r) path = true ->
  route_prefix_matches (prefix r') path = true -> r = r'.
Proof.
  intros Hr%list_elem_of_In Hr'%list_elem_of_In Hm%matches_core Hm'%matches_core.
  pose proof routes_core_disjoint as Hd. pose proof routes_prefix_unique as Hu.
  rewrite forallb_forall in Hd, Hu. specialize (Hd r Hr). specialize (Hu r Hr).
  rewrite forallb_forall in Hd, Hu. specialize (Hd r' Hr'). specialize (Hu r' Hr').
  rewrite (prefixes_comparable _ _ path Hm Hm') in Hd. simpl in Hd. rewrite Hd in Hu. simpl in Hu.
  rewrite !andb_true_iff, !String.eqb_eq, bool_decide_eq_true in Hu. apply String.eqb_eq in Hd.
  destruct Hu as [[? ?] ?]. destruct r, r'. simpl in *. congruence.
Qed.

Section RoutingLemmas.
Context {E : Endpoints} {BI : BlockInfos E} {M : Messages}.
Implicit Types (features : FeatureConfig) (infos : list BlockInfo) (msg : Message).

(** What a tier asks of the caller. *)
Definition satisfies (a : RouteAccess) msg : Prop :=
  (1 <= access_rank a -> msg_user_id msg <> "") /\ (2 <= access_rank a -> is_admin msg = true).

Lemma denial_none a msg : denial a msg = None <-> satisfies a msg.
Proof.
  unfold satisfies. destruct a; simpl.
  - split; [intros _; split; lia|done].
  - destruct (is_empty (msg_user_id msg)) eqn:He.
    + apply is_empty_spec in He. split; [done|]. intros [H _]. by destruct H.
    + apply is_empty_false in He. split; [intros _; split; [done|lia]|done].
  - destruct (is_empty (msg_user_id msg)) eqn:He.
    + apply is_empty_spec in He. split; [done|]. intros [H _]. by destruct H.
    + apply is_empty_false in He. destruct (is_admin msg); simpl; naive_solver.
Qed.

Lemma access_max_rank a b : access_rank (access_max a b) = Z.max (access_rank a) (access_rank b).
Proof. unfold access_max. destruct (Z.leb_spec (access_rank a) (access_rank b)); lia. Qed.

Lemma route_builtin_some features infos msg path routes d :
  route_builtin features infos msg path routes = Some d <->
  exists r, List.find (fun r => route_prefix_matches (prefix r) path) routes = Some r /\
    d = (if negb (is_enabled features infos (block r)) then NotFoundResponse msg
         else match denial (access_max (access r) (declared_access infos (block r) msg)) msg with
              | Some x => Denied x msg
              | None => CallBlock (dispatch_to r) msg
              end).
Proof.
  induction routes as [|r routes IH]; simpl; [naive_solver|].
  destruct (route_prefix_matches (prefix r) path); simpl; [|apply IH].
  unfold check_access. split.
  - intros [= <-]. exists r. split; [done|]. case_match; [done|]. by destruct (denial _ _).
  - intros (r' & [= <-] & ->). f_equal. case_match; [done|]. by destruct (denial _ _).
Qed.

Lemma route_extra_some features infos msg path routes d :
  route_extra features infos msg path routes = Some d <->
  exists r, List.find (fun r => route_prefix_matches (extra_prefix r) path) routes = Some r /\
    d = (if negb (is_enabled features infos (extra_block_name r)) then NotFoundResponse msg
         else match denial (extra_route_access infos r msg) msg with
              | Some x => Denied x msg
              | None => CallBlock (extra_block_name r) msg
              end).
Proof.
  induction routes as [|r routes IH]; simpl; [naive_solver|].
  destruct (route_prefix_matches (extra_prefix r) path); simpl; [|apply IH].
  unfold check_access. split.
  - intros [= <-]. exists r. split; [done|]. case_match; [done|]. by destruct (denial _ _).
  - intros (r' & [= <-] & ->). f_equal. case_match; [done|]. by destruct (denial _ _).
Qed.

Lemma satisfies_max a b msg : satisfies (access_max a b) msg <-> satisfies a msg /\ satisfies b msg.
Proof.
  unfold satisfies. rewrite access_max_rank. split.
  - intros [H1 H2]. repeat split; intros; first [apply H1|apply H2]; lia.
  - intros [[H1 H2] [H3 H4]]. split; intros H.
    + destruct (Z.le_ge_cases (access_rank a) (access_rank b)); [apply H3|apply H1]; lia.
    + destruct (Z.le_ge_cases (access_rank a) (access_rank b)); [apply H4|apply H2]; lia.
Qed.

Lemma satisfies_authenticated msg : satisfies RaAuthenticated msg <-> msg_user_id msg <> "".
Proof. unfold satisfies. simpl. split; [intros [H _]; apply H; lia|]. intros H. split; [done|lia]. Qed.

(** The order of the route table does not matter: any permutation of it
    routes every request the same way, because no path belongs to two
    routes. *)
Theorem routes_order_independent features infos msg path routes (Hp : routes ≡ₚ ROUTES) :
  route_builtin features infos msg path routes = route_builtin features infos msg path ROUTES.
Proof.
  assert (List.find (fun r => route_prefix_matches (prefix r) path) routes =
    List.find (fun r => route_prefix_matches (prefix r) path) ROUTES) as Hf.
  { destruct (List.find _ routes) as [r|] eqn:H1, (List.find _ ROUTES) as [r'|] eqn:H2; [|exfalso..|done].
    - apply find_some in H1 as [Hin1 Hm1]. apply find_some in H2 as [Hin2 Hm2].
      f_equal. apply (routes_disjoint r r' path); [|by apply list_elem_of_In|done..].
      rewrite <- Hp. by apply list_elem_of_In.
    - apply find_some in H1 as [Hin1 Hm1]. eapply find_none in H2; [by rewrite Hm1 in H2|].
      apply list_elem_of_In. rewrite <- Hp. by apply list_elem_of_In.
    - apply find_some in H2 as [Hin2 Hm2]. eapply find_none in H1; [by rewrite Hm2 in H1|].
      apply list_elem_of_In. rewrite Hp. by apply list_elem_of_In. }
  destruct (route_builtin _ _ _ _ routes) as [d|] eqn:H1, (route_builtin _ _ _ _ ROUTES) as [d'|] eqn:H2;
    [|exfalso..|done].
  - apply route_builtin_some in H1 as (r & Hr & ->). apply route_builtin_some in H2 as (r' & Hr' & ->).
    by replace r' with r by congruence.
  - apply route_builtin_some in H1 as (r & Hr & ->). rewrite Hf in Hr.
    assert (exists d, route_builtin features infos msg path ROUTES = Some d) as [d Hd]
      by (eexists; apply route_builtin_some; eauto). congruence.
  - apply route_builtin_some in H2 as (r & Hr & ->). rewrite <- Hf in Hr.
    assert (exists d, route_builtin features infos msg path routes = Some d) as [d Hd]
      by (eexists; apply route_builtin_some; eauto). congruence.
Qed.

End RoutingLemmas.

Section GateLemmas.
Context {E : Endpoints} {BI : BlockInfos E} {M : Messages} {ML : MessageLaws M}
  {J : GateJson} {JL : GateJsonLaws J}.
Context (declarations : list BlockInfo -> list BlockInfo).
Implicit Types (features : FeatureConfig) (infos : list BlockInfo) (msg : Message).

Lemma publish_gate_view features infos msg :
  let msg' := publish_gate declarations msg features infos in
  msg_action msg' = msg_action msg /\ msg_path msg' = msg_path msg /\
  msg_user_id msg' = msg_user_id msg /\ is_admin msg' = is_admin msg.
Proof.
  cbv zeta. unfold publish_gate, is_admin.
  rewrite set_meta_action, set_meta_path, set_meta_user_id, get_set_meta_ne by discriminate. done.
Qed.

Lemma satisfies_publish a features infos msg :
  satisfies a (publish_gate declarations msg features infos) <-> satisfies a msg.
Proof.
  destruct (publish_gate_view features infos msg) as (_ & _ & Hu & Ha).
  unfold satisfies. by rewrite Hu, Ha.
Qed.

Lemma declared_publish features infos name msg :
  declared_access infos name (publish_gate declarations msg features infos) =
  declared_access infos name msg.
Proof.
  destruct (publish_gate_view features infos msg) as (Ha & Hp & _).
  unfold declared_access. by rewrite Ha, Hp.
Qed.

(** Nothing is dispatched ungated: when the router hands a request to a block,
    either a built-in route claims the path, its feature is enabled, and the
    caller satisfies both the route's tier and the level the block declares for
    this action and path, an undeclared path requiring a signed-in caller; or
    no built-in route claims it and the same holds of a registered extra route,
    whose undeclared paths require a signed-in caller when it was registered as
    refined. *)
Theorem route_to_block_gated landing features infos extras msg b msg'
  (Hroot : msg_path msg <> "/")
  (Hr : route_to_block declarations landing msg features infos extras = CallBlock b msg') :
  (exists r, r ∈ ROUTES /\ route_prefix_matches (prefix r) (msg_path msg) = true /\
     b = dispatch_to r /\ is_enabled features infos (block r) = true /\ satisfies (access r) msg /\
     match declared_endpoint_access infos (block r) (msg_action msg) (msg_path msg) with
     | Some declared => satisfies declared msg
     | None => msg_user_id msg <> ""
     end) \/
  (forall r, r ∈ ROUTES -> route_prefix_matches (prefix r) (msg_path msg) = false) /\
  (exists r, r ∈ extras /\ route_prefix_matches (extra_prefix r) (msg_path msg) = true /\
     b = extra_block_name r /\ is_enabled features infos b = true /\
     satisfies (extra_access r) msg /\
     match declared_endpoint_access infos b (msg_action msg) (msg_path msg) with
     | Some declared => satisfies declared msg
     | None => refine_undeclared r = true -> msg_user_id msg <> ""
     end).
Proof.
  unfold route_to_block in Hr. rewrite (proj2 (String.eqb_neq _ _) Hroot) in Hr. cbv zeta in Hr.
  destruct (route_builtin _ _ _ _ ROUTES) as [d|] eqn:Hb.
  - left. subst d. apply route_builtin_some in Hb as (r & Hf & Hd).
    apply find_some in Hf as [Hin Hm]. exists r. split; [by apply list_elem_of_In|]. split; [done|].
    destruct (is_enabled features infos (block r)); simpl in Hd; [|done].
    destruct (denial _ _) eqn:Hden; [done|]. injection Hd as -> ->.
    apply denial_none, satisfies_publish, satisfies_max in Hden as [Hs1 Hs2].
    rewrite declared_publish in Hs2. do 3 (split; [done|]).
    unfold declared_access in Hs2. destruct (declared_endpoint_access _ _ _ _); simpl in Hs2; [done|].
    by apply satisfies_authenticated in Hs2.
  - right. split.
    { intros r Hin. destruct (List.find (fun r => route_prefix_matches (prefix r) (msg_path msg)) ROUTES)
        as [r'|] eqn:Hf.
      - exfalso. assert (exists d, route_builtin features infos (publish_gate declarations msg features infos)
          (msg_path msg) ROUTES = Some d) as [d Hd] by (eexists; apply route_builtin_some; eauto). congruence.
      - eapply find_none in Hf; [exact Hf|]. by apply list_elem_of_In. }
    destruct (route_extra _ _ _ _ extras) as [d|] eqn:He; [|done]. subst d.
    apply route_extra_some in He as (r & Hf & Hd). apply find_some in Hf as [Hin Hm].
    exists r. split; [by apply list_elem_of_In|]. split; [done|].
    destruct (is_enabled features infos (extra_block_name r)) eqn:Hen; simpl in Hd; [|done].
    destruct (denial _ _) eqn:Hden; [done|]. injection Hd as -> ->.
    apply denial_none, satisfies_publish in Hden.
    destruct (publish_gate_view features infos msg) as (Ha & Hp & _).
    unfold extra_route_access in Hden. rewrite Ha, Hp in Hden.
    split; [done|]. split; [done|].
    destruct (declared_endpoint_access infos (extra_block_name r) (msg_action msg) (msg_path msg)).
    + apply satisfies_max in Hden as [? ?]. done.
    + unfold refines_undeclared in Hden. destruct (refine_undeclared r); [|done].
      apply satisfies_max in Hden as [? ?%satisfies_authenticated]. done.
Qed.

(** The links a page offers are the links the router serves: with every
    built-in feature enabled, a page is admitted for a caller exactly when a
    [GET] of its path by that caller is handed to a built-in block. *)
Theorem admits_page_agrees landing features infos extras msg href
  (Hget : msg_action msg = "retrieve") (Hpath : msg_path msg = href_path href)
  (Hroot : msg_path msg <> "/")
  (Hon : forall r, r ∈ ROUTES -> is_enabled features infos (block r) = true) :
  admits_page infos msg href = true <->
  exists r msg', r ∈ ROUTES /\ route_prefix_matches (prefix r) (msg_path msg) = true /\
    route_to_block declarations landing msg features infos extras = CallBlock (dispatch_to r) msg'.
Proof.
  unfold admits_page, route_to_block. rewrite (proj2 (String.eqb_neq _ _) Hroot), <- Hpath. cbv zeta.
  set (msg1 := publish_gate declarations msg features infos).
  destruct (List.find _ ROUTES) as [r|] eqn:Hf.
  - assert (r ∈ ROUTES /\ route_prefix_matches (prefix r) (msg_path msg) = true) as [Hin Hm].
    { apply find_some in Hf as [? ?]. split; [by apply list_elem_of_In|done]. }
    destruct (route_builtin features infos msg1 (msg_path msg) ROUTES) as [d|] eqn:Hb.
    2:{ exfalso. assert (exists d, route_builtin features infos msg1 (msg_path msg) ROUTES = Some d)
          as [d Hd] by (eexists; apply route_builtin_some; eauto). congruence. }
    apply route_builtin_some in Hb as (r0 & Hf0 & ->). assert (r0 = r) as -> by congruence.
    rewrite (Hon r Hin). simpl. rewrite bool_decide_eq_true, denial_none.
    rewrite <- Hget. fold (declared_access infos (block r) msg).
    rewrite <- (satisfies_publish _ features infos msg), <- (declared_publish features infos (block r) msg),
      <- denial_none. fold msg1. split.
    + intros ->. eauto.
    + intros (r' & msg' & _ & _ & Hc). by destruct (denial _ msg1).
  - split; [done|]. intros (r & msg' & Hin & Hm & _). eapply find_none in Hf; [by rewrite Hm in Hf|].
    by apply list_elem_of_In.
Qed.

(** A page draws the gate the router applies: for every declared block, the
    settings a handler reads off the routed request enable the block exactly
    when the router's own rule does. *)
Theorem published_gate_agrees config registered features infos msg b
  (Hb : b ∈ declarations infos) :
  is_block_enabled
    (gate_from_request config registered (publish_gate declarations msg features infos))
    (feature_gate_name (bi_name b)) =
  is_enabled features infos (feature_gate_name (bi_name b)).
Proof.
  unfold gate_from_request, publish_gate. rewrite get_set_meta. unfold disabled_blocks_json.
  destruct (list_json_roundtrip (disabled_blocks declarations features infos)) as (s & -> & Hs & Hne).
  cbn [default from_option id]. rewrite (proj2 (is_empty_false s) Hne), Hs. cbn [default from_option id].
  set (g := feature_gate_name (bi_name b)). unfold is_block_enabled, from_map. rewrite lookup_fmap.
  set (l := disabled_blocks declarations features infos).
  assert (forall k, (list_to_map (map (fun n => (n, false)) l) : gmap string bool) !! k =
    if bool_decide (k ∈ l) then Some false else None) as Hmap.
  { intros k. clear. induction l as [|x l IH]; simpl; [done|].
    destruct (decide (k = x)) as [->|Hne].
    - rewrite lookup_insert_eq. by rewrite bool_decide_true by apply list_elem_of_here.
    - rewrite lookup_insert_ne, IH by done.
      by rewrite (bool_decide_ext (k ∈ l) (k ∈ x :: l)) by set_solver. }
  rewrite Hmap.
  assert (g ∈ l <-> is_enabled features infos g = false) as Hl.
  { unfold l, disabled_blocks. rewrite list_elem_of_In, filter_In, negb_true_iff.
    split; [by intros [_ ?]|]. intros He. split; [|done]. apply in_map_iff. exists b.
    split; [done|]. by apply list_elem_of_In. }
  case_bool_decide as Hg; simpl; [apply Hl in Hg; done|].
  destruct (is_enabled features infos g); [done|]. by destruct Hg; apply Hl.
Qed.
End GateLemmas.

(** ** Witnesses *)
Definition sample_block_infos : BlockInfos sample_endpoints := {|
  BlockInfo := string * list BlockEndpoint * bool;
  bi_name := fun b => b.1.1;
  bi_endpoints := fun b => b.1.2;
  bi_can_disable := fun b => b.2;
|}.
#[export] Existing Instance sample_block_infos.

(** A list as text: every byte of an item after an [x], an item ended by a
    comma, the list by a dot. *)
Fixpoint encode_item (s : string) : string :=
  match s with
  | EmptyString => ","
  | String.String c s => String.String "x" (String.String c (encode_item s))
  end.
Definition encode_list (l : list string) : string :=
  foldr (fun s r => String.append (encode_item s) r) "." l.
Fixpoint decode_list (s acc : string) : option (list string) :=
  match s with
  | String.String "x" (String.String c s) => decode_list s (String.append acc (String.String c ""))
  | String.String "," s => cons acc <$> decode_list s ""
  | String.String "." EmptyString => Some []
  | _ => None
  end.

Lemma decode_item s r acc :
  decode_list (String.append (encode_item s) r) acc = cons (String.append acc s) <$> decode_list r "".
Proof.
  revert acc. induction s as [|c s IH]; intros acc; cbn [encode_item]; rewrite !str_app_cons.
  - simpl. by rewrite str_app_nil_r.
  - cbn [decode_list]. rewrite IH. by rewrite str_app_assoc, str_app_cons.
Qed.

Definition sample_gate_json : GateJson := {|
  list_to_json := fun l => Some (encode_list l);
  list_of_json := fun s => decode_list s "";
  settings_of_json := fun _ => None;
|}.
#[export] Existing Instance sample_gate_json.

#[export] Instance sample_gate_json_laws : GateJsonLaws sample_gate_json.
Proof.
  constructor. intros l. exists (encode_list l). split; [done|]. split.
  - simpl. induction l as [|s l IH]; [done|]. cbn [encode_list foldr]. rewrite decode_item.
    fold (encode_list l). by rewrite IH.
  - destruct l as [|s l]; [done|]. simpl. by destruct s.
Qed.

Definition sample_infos : list BlockInfo := [
  ("impresspress/files", [(Get, "/b/storage/", Authenticated); (Get, "/b/storage/admin/", Admin)], true);
  ("impresspress/admin", [(Get, "/b/admin/", Admin)], false) ].
Definition sample_user_get (path : string) : Message :=
  {| sm_action := "retrieve"; sm_path := path; sm_user := "u1"; sm_meta := [] |}.
Definition sample_features : FeatureConfig := fun name => negb (String.eqb name "impresspress/products").

Lemma route_to_block_gated_witness :
  exists msg', route_to_block (fun l => l) None (sample_user_get "/b/storage/") sample_features
      sample_infos [] = CallBlock "impresspress/files" msg' /\
    exists r, r ∈ ROUTES /\ "impresspress/files" = dispatch_to r.
Proof.
  eexists. split; [vm_compute; reflexivity|].
  destruct (route_to_block_gated (fun l => l) None sample_features sample_infos []
    (sample_user_get "/b/storage/") "impresspress/files" _ ltac:(discriminate) eq_refl)
    as [(r & Hin & _ & Hb & _)|[_ (r & Hin & _)]].
  - exists r. split; [exact Hin|exact Hb].
  - exfalso. by apply not_elem_of_nil in Hin.
Defined.

Lemma routes_order_independent_witness :
  route_builtin sample_features sample_infos (sample_user_get "/b/admin") "/b/admin" (reverse ROUTES) =
  route_builtin sample_features sample_infos (sample_user_get "/b/admin") "/b/admin" ROUTES.
Proof. apply routes_order_independent. apply reverse_Permutation. Defined.

Lemma admits_page_agrees_witness :
  admits_page sample_infos (sample_user_get "/b/storage/") "/b/storage/?q=1" = true <->
  exists r msg', r ∈ ROUTES /\ route_prefix_matches (prefix r) "/b/storage/" = true /\
    route_to_block (fun l => l) None (sample_user_get "/b/storage/") AllEnabled sample_infos [] =
      CallBlock (dispatch_to r) msg'.
Proof.
  apply (admits_page_agrees (fun l => l) None AllEnabled sample_infos []
    (sample_user_get "/b/storage/") "/b/storage/?q=1" eq_refl eq_refl).
  - discriminate.
  - intros r _. unfold is_enabled. apply orb_true_r.
Defined.

Lemma published_gate_agrees_witness :
  is_block_enabled
    (gate_from_request None []
       (publish_gate (fun l => l) (sample_user_get "/b/storage/") (fun _ => false) sample_infos))
    "impresspress/files" = is_enabled (fun _ => false) sample_infos "impresspress/files".
Proof.
  apply (published_gate_agrees (fun l => l) None [] (fun _ => false) sample_infos
    (sample_user_get "/b/storage/") ("impresspress/files", [(Get, "/b/storage/", Authenticated); (Get, "/b/storage/admin/", Admin)], true)).
  apply list_elem_of_here.
Defined.
