(* ===== verification/Utf8.v ===== *)
(** * UTF-8 validation ([core::str::from_utf8])

    The standard library's validator: the longest valid prefix, and what ends
    it.  A byte string is a [string]. *)
From Stdlib Require Import String.
From S2P Require Import Prelude Ints Str.

(** What opens a byte string: a whole character of [n] bytes, an invalid
    sequence of [len] bytes ([Utf8Error::error_len]), or the head of a
    character that is cut off by the end. *)
Inductive utf8_seq :=
| SeqChar (n : nat)
| SeqBad (len : nat)
| SeqCut.

Definition is_cont (c : ascii) : bool := in_range 128 191 (code c).

(** The range of the second byte after a first byte of a 3- or 4-byte
    character. *)
Definition second_ok (first second : ascii) : bool :=
  let f := code first in
  let s := code second in
  if f =? 224 then in_range 160 191 s
  else if f =? 237 then in_range 128 159 s
  else if f =? 240 then in_range 144 191 s
  else if f =? 244 then in_range 128 143 s
  else in_range 128 191 s.

(** The width a first byte announces, 0 when it cannot start a character. *)
Definition utf8_width (c : ascii) : nat :=
  let f := code c in
  if f <? 128 then 1
  else if in_range 194 223 f then 2
  else if in_range 224 239 f then 3
  else if in_range 240 244 f then 4
  else 0.

Definition next_seq (s : string) : utf8_seq :=
  match s with
  | EmptyString => SeqCut
  | String.String a s =>
      match utf8_width a with
      | 1%nat => SeqChar 1
      | 2%nat =>
          match s with
          | EmptyString => SeqCut
          | String.String b _ => if is_cont b then SeqChar 2 else SeqBad 1
          end
      | 3%nat =>
          match s with
          | EmptyString => SeqCut
          | String.String b s =>
              if negb (second_ok a b) then SeqBad 1
              else match s with
                   | EmptyString => SeqCut
                   | String.String c _ => if is_cont c then SeqChar 3 else SeqBad 2
                   end
          end
      | 4%nat =>
          match s with
          | EmptyString => SeqCut
          | String.String b s =>
              if negb (second_ok a b) then SeqBad 1
              else match s with
                   | EmptyString => SeqCut
                   | String.String c s =>
                       if negb (is_cont c) then SeqBad 2
                       else match s with
                            | EmptyString => SeqCut
                            | String.String d _ => if is_cont d then SeqChar 4 else SeqBad 3
                            end
                   end
          end
      | _ => SeqBad 1
      end
  end.

Inductive utf8_result :=
| Utf8Ok
| Utf8Err (valid_up_to : nat) (error_len : option nat).

(** The bytes left bound the iterations. *)
Fixpoint from_utf8_loop (fuel : nat) (s : string) (pos : nat) : utf8_result :=
  match fuel with
  | O => Utf8Ok
  | S fuel =>
      if is_empty s then Utf8Ok
      else
        match next_seq s with
        | SeqChar n => from_utf8_loop fuel (str_drop n s) (pos + n)
        | SeqBad len => Utf8Err pos (Some len)
        | SeqCut => Utf8Err pos None
        end
  end.

Definition from_utf8 (s : string) : utf8_result := from_utf8_loop (String.length s) s 0.

(** ** Lemmas *)

(** A decision of [next_seq] lies within the bytes and more bytes do not
    change it. *)
Lemma next_seq_app s t :
  match next_seq s with
  | SeqChar n | SeqBad n =>
      (1 <= n <= String.length s)%nat /\ next_seq (String.append s t) = next_seq s
  | SeqCut => True
  end.
Proof.
  unfold next_seq. destruct s as [|a s]; [done|]. rewrite !str_app_cons.
  destruct (utf8_width a) as [|[|[|[|[|w]]]]]; simpl; try (split; [lia|done]).
  - destruct s as [|b s]; [done|]. rewrite !str_app_cons.
    destruct (is_cont b); simpl; split; lia || done.
  - destruct s as [|b s]; [done|]. rewrite !str_app_cons.
    destruct (second_ok a b); simpl; [|split; lia || done].
    destruct s as [|c s]; [done|]. rewrite !str_app_cons. destruct (is_cont c); simpl; split; lia || done.
  - destruct s as [|b s]; [done|]. rewrite !str_app_cons.
    destruct (second_ok a b); simpl; [|split; lia || done].
    destruct s as [|c s]; [done|]. rewrite !str_app_cons.
    destruct (is_cont c); simpl; [|split; lia || done].
    destruct s as [|d s]; [done|]. rewrite !str_app_cons. destruct (is_cont d); simpl; split; lia || done.
Qed.

Lemma next_seq_char s n : next_seq s = SeqChar n -> (1 <= n <= String.length s)%nat.
Proof. intros H. pose proof (next_seq_app s "") as Ha. rewrite H in Ha. apply Ha. Qed.

Lemma next_seq_bad s n : next_seq s = SeqBad n -> (1 <= n <= String.length s)%nat.
Proof. intros H. pose proof (next_seq_app s "") as Ha. rewrite H in Ha. apply Ha. Qed.

Lemma str_drop_0 s : str_drop 0 s = s.
Proof. by destruct s. Qed.

Lemma str_drop_app n s t :
  (n <= String.length s)%nat -> str_drop n (String.append s t) = String.append (str_drop n s) t.
Proof.
  revert s. induction n as [|n IH]; intros s Hn; [by rewrite !str_drop_0|].
  destruct s as [|c s]; simpl in Hn; [lia|]. rewrite str_app_cons. simpl. apply IH. lia.
Qed.

Lemma str_take_app n s t :
  (n <= String.length s)%nat -> str_take n (String.append s t) = str_take n s.
Proof.
  revert s. induction n as [|n IH]; intros s Hn; [by destruct s, (String.append _ t)|].
  destruct s as [|c s]; simpl in Hn; [lia|]. rewrite str_app_cons. simpl. f_equal. apply IH. lia.
Qed.

(** The validator returns as soon as it has looked at the bytes once. *)
Lemma from_utf8_loop_fuel fuel fuel' s pos :
  (String.length s <= fuel)%nat -> (String.length s <= fuel')%nat ->
  from_utf8_loop fuel s pos = from_utf8_loop fuel' s pos.
Proof.
  revert fuel' s pos. induction fuel as [|fuel IH]; intros fuel' s pos H1 H2.
  { destruct s; [|simpl in H1; lia]. by destruct fuel'. }
  destruct fuel' as [|fuel']; [destruct s; [done|simpl in H2; lia]|].
  cbn [from_utf8_loop]. destruct (is_empty s) eqn:He; [done|].
  destruct (next_seq s) as [n| |] eqn:Hn; [|done..]. apply next_seq_char in Hn.
  apply IH; rewrite str_drop_length; lia.
Qed.

Lemma from_utf8_loop_pos fuel s pos :
  from_utf8_loop fuel s pos =
  match from_utf8_loop fuel s 0 with
  | Utf8Ok => Utf8Ok
  | Utf8Err v e => Utf8Err (pos + v) e
  end.
Proof.
  revert s pos. induction fuel as [|fuel IH]; intros s pos; cbn [from_utf8_loop]; [done|].
  destruct (is_empty s); [done|]. destruct (next_seq s) as [n| |]; [|by rewrite Nat.add_0_r..].
  rewrite (IH _ (pos + n)%nat), (IH _ (0 + n)%nat).
  destruct (from_utf8_loop fuel (str_drop n s) 0); [done|]. f_equal. lia.
Qed.

(** One step of the validator. *)
Lemma from_utf8_step s :
  from_utf8 s =
  if is_empty s then Utf8Ok
  else match next_seq s with
       | SeqChar n =>
           match from_utf8 (str_drop n s) with
           | Utf8Ok => Utf8Ok
           | Utf8Err v e => Utf8Err (n + v) e
           end
       | SeqBad len => Utf8Err 0 (Some len)
       | SeqCut => Utf8Err 0 None
       end.
Proof.
  unfold from_utf8. destruct s as [|a s]; [done|]. cbn [String.length from_utf8_loop is_empty].
  change (is_empty (String.String a s)) with false. cbn iota.
  destruct (next_seq (String.String a s)) as [n| |] eqn:Hn; [|done..].
  apply next_seq_char in Hn. rewrite from_utf8_loop_pos. cbn [String.length] in Hn.
  rewrite (from_utf8_loop_fuel (String.length s) (String.length (str_drop n (String.String a s))));
    rewrite ?str_drop_length; cbn [String.length]; try lia. done.
Qed.
