(* ===== verification/Sse.v ===== *)
(** * Server-sent events ([llm_wire/sse.rs])

    The incremental transport parser: bytes in network chunks to decoded,
    line-ending-normalised text, to frames, with the cap on an unterminated
    frame. *)
From Stdlib Require Import String.
From S2P Require Import Prelude Ints Str Utf8.

Record SseFrame := { sse_event : option string; sse_data : string }.

Record FeedLoss := { invalid_utf8 : bool; frame_too_large : bool }.
Definition no_loss : FeedLoss := {| invalid_utf8 := false; frame_too_large := false |}.
Definition loss_any (l : FeedLoss) : bool := invalid_utf8 l || frame_too_large l.
Definition loss_display (l : FeedLoss) : string :=
  match invalid_utf8 l, frame_too_large l with
  | true, true => "invalid UTF-8 and an oversized frame"
  | true, false => "invalid UTF-8"
  | false, true => "an oversized frame"
  | false, false => "nothing"
  end.

Definition MAX_PENDING_FRAME_BYTES : Z := 1024 * 1024.

(** [partial] holds raw bytes, [drop_from] is a byte index into [buf]. *)
Record SseFrameStream := {
  buf : string;
  partial : string;
  pending_cr : bool;
  dropping_frame : bool;
  drop_from : nat;
}.

Definition sse_new : SseFrameStream :=
  {| buf := ""; partial := ""; pending_cr := false; dropping_frame := false; drop_from := 0 |}.

(** Field updates. *)
Definition with_text (s : SseFrameStream) (b : string) (cr : bool) : SseFrameStream :=
  {| buf := b; partial := partial s; pending_cr := cr; dropping_frame := dropping_frame s;
     drop_from := drop_from s |}.
Definition with_partial (s : SseFrameStream) (p : string) : SseFrameStream :=
  {| buf := buf s; partial := p; pending_cr := pending_cr s; dropping_frame := dropping_frame s;
     drop_from := drop_from s |}.
Definition with_drop (s : SseFrameStream) (b : string) (d : bool) (from : nat) : SseFrameStream :=
  {| buf := b; partial := partial s; pending_cr := pending_cr s; dropping_frame := d;
     drop_from := from |}.

Definition CR : ascii := byte 13.
Definition LF : ascii := byte 10.
Definition nl : string := String.String LF "".
(** ["\n\n"] *)
Definition blank_line : string := String.String LF nl.
(** [char::REPLACEMENT_CHARACTER] *)
Definition REPLACEMENT : string := bytes [239; 191; 189].
(** ['\u{feff}'] *)
Definition BOM : string := bytes [239; 187; 191].

(** ** [push_text] *)

(** The loop over the characters; CR and LF are ASCII, so walking the bytes of
    valid UTF-8 meets the same ones. *)
Fixpoint push_chars (text b : string) (cr : bool) : string * bool :=
  match text with
  | EmptyString => (b, cr)
  | String.String ch text =>
      if Ascii.eqb ch LF && cr then push_chars text b false
      else if Ascii.eqb ch CR then push_chars text (String.append b nl) true
      else push_chars text (String.append b (String.String ch "")) false
  end.

Definition push_text (s : SseFrameStream) (text : string) : SseFrameStream :=
  if negb (pending_cr s) && negb (contains (String.String CR "") text) then
    with_text s (String.append (buf s) text) (pending_cr s)
  else
    let r := push_chars text (buf s) (pending_cr s) in with_text s r.1 r.2.

(** ** The frame cap *)

(** [char_indices().next_back()]: the index of the last character, the length
    when there is none. *)
Definition last_char_index (s : string) : nat :=
  String.length s - String.length (default "" (last (split_chars s))).

(** [s.replace_range(from..to, "")] *)
Definition remove_range (s : string) (from to : nat) : string :=
  String.append (str_take from s) (str_drop to s).

Definition shrink_dropped_frame (s : SseFrameStream) : SseFrameStream :=
  let keep_from := last_char_index (buf s) in
  if (drop_from s <? keep_from)%nat then
    with_drop s (remove_range (buf s) (drop_from s) keep_from) (dropping_frame s) (drop_from s)
  else s.

Definition pending_frame_start (s : SseFrameStream) : nat :=
  match rfind blank_line (buf s) with Some i => i + 2 | None => 0 end.

Definition enforce_frame_cap (s : SseFrameStream) : SseFrameStream * bool :=
  if dropping_frame s then
    (match find blank_line (str_drop (drop_from s) (buf s)) with
     | Some rel =>
         let stop := (drop_from s + rel + 2)%nat in
         with_drop s (remove_range (buf s) (drop_from s) stop) false (drop_from s)
     | None => shrink_dropped_frame s
     end, false)
  else
    let start := pending_frame_start s in
    if Z.of_nat (String.length (buf s) - start) <=? MAX_PENDING_FRAME_BYTES then (s, false)
    else (shrink_dropped_frame (with_drop s (buf s) true start), true).

(** ** [feed] *)

(** The decoding loop; every turn after the first consumes at least one byte. *)
Fixpoint feed_loop (fuel : nat) (s : SseFrameStream) (rest : string) (bad : bool)
  : SseFrameStream * bool :=
  match fuel with
  | O => (s, bad)
  | S fuel =>
      match from_utf8 rest with
      | Utf8Ok => (push_text s rest, bad)
      | Utf8Err valid error_len =>
          let s := push_text s (str_take valid rest) in
          match error_len with
          | Some len => feed_loop fuel (push_text s REPLACEMENT) (str_drop (valid + len) rest) true
          | None => (with_partial s (String.append (partial s) (str_drop valid rest)), bad)
          end
      end
  end.

Definition feed_text (s : SseFrameStream) (input : string) : SseFrameStream * bool :=
  let rest := String.append (partial s) input in
  feed_loop (S (String.length rest)) (with_partial s "") rest false.

Definition feed (s : SseFrameStream) (input : string) : SseFrameStream * FeedLoss :=
  let fed := feed_text s input in
  let capped := enforce_frame_cap fed.1 in
  (capped.1, {| invalid_utf8 := fed.2; frame_too_large := capped.2 |}).

(** ** Frames *)

(** [str::lines]: split on LF, a final empty line omitted, one CR before an LF
    stripped with it. *)
Definition strip_cr (line : string) : string :=
  default line (strip_suffix (String.String CR "") line).
Definition str_lines (s : string) : list string :=
  let parts := split_on LF s in
  let tail := default "" (last parts) in
  map strip_cr (removelast parts) ++ (if is_empty tail then [] else [tail]).

(** The loop over the lines of [parse_frame]. *)
Fixpoint parse_lines (lines : list string) (event : option string) (data : string) : SseFrame :=
  match lines with
  | [] => {| sse_event := event; sse_data := data |}
  | line :: lines =>
      let line := trim_start_matches BOM line in
      match strip_prefix "event:" line with
      | Some rest => parse_lines lines (Some (trim rest)) data
      | None =>
          match strip_prefix "data:" line with
          | Some rest =>
              let rest := trim_start rest in
              let data := if is_empty data then data else String.append data nl in
              parse_lines lines event (String.append data rest)
          | None => parse_lines lines event data
          end
      end
  end.
Definition parse_frame (raw : string) : SseFrame := parse_lines (str_lines raw) None "".

(** [next_frame] in a release build. *)
Definition next_frame (s : SseFrameStream) : option (SseFrame * SseFrameStream) :=
  sep ← find blank_line (buf s);
  let raw := str_take sep (buf s) in
  let rest := str_drop (sep + 2) (buf s) in
  let from := if dropping_frame s then (drop_from s - (sep + 2))%nat else drop_from s in
  Some (parse_frame raw, with_drop s rest (dropping_frame s) from).

(** The [debug_assert!] of [next_frame]. *)
Definition next_frame_assertion (s : SseFrameStream) : bool :=
  match find blank_line (buf s) with
  | Some sep => negb (dropping_frame s) || (sep + 2 <=? drop_from s)%nat
  | None => true
  end.

Definition has_unparsed_input (s : SseFrameStream) : bool :=
  negb (is_empty (partial s)) || negb (is_empty (trim (buf s))).

(** [while let Some(frame) = next_frame()]: every frame removes at least two
    bytes. *)
Fixpoint drain_loop (fuel : nat) (s : SseFrameStream) : list SseFrame * SseFrameStream :=
  match fuel with
  | O => ([], s)
  | S fuel =>
      match next_frame s with
      | Some (f, s) => let r := drain_loop fuel s in (f :: r.1, r.2)
      | None => ([], s)
      end
  end.
Definition drain (s : SseFrameStream) : list SseFrame * SseFrameStream :=
  drain_loop (S (String.length (buf s))) s.

(** ** Reference: decode, normalise, split *)

(** Replacement decoding of a byte string: the text, whether anything invalid
    was replaced, and the head of a cut character at the end. *)
Fixpoint decode_loop (fuel : nat) (s : string) : string * bool * string :=
  match fuel with
  | O => ("", false, "")
  | S fuel =>
      if is_empty s then ("", false, "")
      else
        match next_seq s with
        | SeqChar n =>
            let r := decode_loop fuel (str_drop n s) in
            (String.append (str_take n s) r.1.1, r.1.2, r.2)
        | SeqBad n =>
            let r := decode_loop fuel (str_drop n s) in
            (String.append REPLACEMENT r.1.1, true, r.2)
        | SeqCut => ("", false, s)
        end
  end.
Definition decode (s : string) : string * bool * string := decode_loop (String.length s) s.

(** [\r\n], [\r] and [\n] all become [\n]. *)
Fixpoint normalise (text : string) : string :=
  match text with
  | EmptyString => ""
  | String.String a text =>
      if Ascii.eqb a CR then
        String.String LF
          (match text with
           | String.String b rest => if Ascii.eqb b LF then normalise rest else normalise text
           | EmptyString => ""
           end)
      else String.String a (normalise text)
  end.

(** The frames of a text and what follows the last one. *)
Fixpoint split_frames_loop (fuel : nat) (t : string) : list string * string :=
  match fuel with
  | O => ([], t)
  | S fuel =>
      match find blank_line t with
      | Some sep =>
          let r := split_frames_loop fuel (str_drop (sep + 2) t) in
          (str_take sep t :: r.1, r.2)
      | None => ([], t)
      end
  end.
Definition split_frames (t : string) : list string * string :=
  split_frames_loop (S (String.length t)) t.

Section DecodeLemmas.

Lemma decode_loop_fuel fuel fuel' s :
  (String.length s <= fuel)%nat -> (String.length s <= fuel')%nat ->
  decode_loop fuel s = decode_loop fuel' s.
Proof.
  revert fuel' s. induction fuel as [|fuel IH]; intros fuel' s H1 H2.
  { destruct s; [|simpl in H1; lia]. by destruct fuel'. }
  destruct fuel' as [|fuel']; [destruct s; [done|simpl in H2; lia]|].
  cbn [decode_loop]. destruct (is_empty s) eqn:He; [done|].
  destruct (next_seq s) as [n|n|] eqn:Hn; [apply next_seq_char in Hn|apply next_seq_bad in Hn|done];
    rewrite (IH fuel') by (rewrite str_drop_length; lia); done.
Qed.

Lemma decode_step s :
  decode s =
  if is_empty s then ("", false, "")
  else match next_seq s with
       | SeqChar n =>
           let r := decode (str_drop n s) in (String.append (str_take n s) r.1.1, r.1.2, r.2)
       | SeqBad n =>
           let r := decode (str_drop n s) in (String.append REPLACEMENT r.1.1, true, r.2)
       | SeqCut => ("", false, s)
       end.
Proof.
  unfold decode. destruct s as [|a s]; [done|]. cbn [String.length decode_loop].
  destruct (next_seq (String.String a s)) as [n|n|] eqn:Hn;
    [apply next_seq_char in Hn|apply next_seq_bad in Hn|done]; cbn [String.length] in Hn;
    rewrite (decode_loop_fuel (String.length s) (String.length (str_drop n (String.String a s))))
      by (rewrite ?str_drop_length; cbn [String.length]; lia); done.
Qed.

(** Induction on what is left to decode. *)
Lemma decode_ind (P : string -> Prop) :
  P "" ->
  (forall s n, next_seq s = SeqChar n -> s <> "" -> P (str_drop n s) -> P s) ->
  (forall s n, next_seq s = SeqBad n -> s <> "" -> P (str_drop n s) -> P s) ->
  (forall s, next_seq s = SeqCut -> s <> "" -> P s) ->
  forall s, P s.
Proof.
  intros H0 Hc Hb Hcut s. remember (String.length s) as len eqn:Hlen.
  revert s Hlen. induction len as [len IH] using lt_wf_ind. intros s ->.
  destruct s as [|a s']; [done|]. set (s := String.String a s') in *.
  destruct (next_seq s) as [n|n|] eqn:Hn; [| |by apply Hcut].
  - pose proof (next_seq_char _ _ Hn). apply (Hc s n); [done..|].
    eapply IH; [|reflexivity]. rewrite str_drop_length. lia.
  - pose proof (next_seq_bad _ _ Hn). apply (Hb s n); [done..|].
    eapply IH; [|reflexivity]. rewrite str_drop_length. lia.
Qed.

Lemma str_app_nonempty s t : s <> "" -> is_empty (String.append s t) = false.
Proof. intros Hs. apply is_empty_false. by intros [-> _]%str_app_nil_inv. Qed.

(** Decoding resumes where it stopped. *)
Lemma decode_app a b :
  decode (String.append a b) =
  let r := decode a in
  let r' := decode (String.append r.2 b) in
  (String.append r.1.1 r'.1.1, r.1.2 || r'.1.2, r'.2).
Proof.
  cbv zeta. induction a as [|a n Hn Hne IH|a n Hn Hne IH|a Hn Hne] using decode_ind.
  - simpl. rewrite !str_app_nil_l. by destruct (decode b) as [[? ?] ?].
  - rewrite (decode_step (String.append a b)), (decode_step a).
    rewrite (str_app_nonempty a b Hne), (proj2 (is_empty_false a) Hne).
    pose proof (next_seq_app a b) as Ha. rewrite Hn in Ha. destruct Ha as [Hlen ->]. rewrite Hn.
    rewrite str_drop_app, str_take_app by lia. rewrite IH. simpl. by rewrite str_app_assoc.
  - rewrite (decode_step (String.append a b)), (decode_step a).
    rewrite (str_app_nonempty a b Hne), (proj2 (is_empty_false a) Hne).
    pose proof (next_seq_app a b) as Ha. rewrite Hn in Ha. destruct Ha as [Hlen ->]. rewrite Hn.
    rewrite str_drop_app by lia. rewrite IH. simpl. by rewrite str_app_assoc.
  - rewrite (decode_step a), (proj2 (is_empty_false a) Hne), Hn. simpl. rewrite str_app_nil_l.
    by destruct (decode (String.append a b)) as [[? ?] ?].
Qed.
End DecodeLemmas.

Section PushLemmas.
Implicit Types (s : SseFrameStream).

Lemma contains_char c t :
  contains (String.String c "") t = false -> str_forall (fun a => negb (Ascii.eqb a c)) t = true.
Proof.
  unfold contains. intros H. apply bool_decide_eq_false in H. rewrite <- eq_None_not_Some in H.
  induction t as [|a t IH]; [done|]. simpl in *.
  destruct (starts_with (String.String c "") (String.String a t)) eqn:Hs; [done|].
  destruct (find (String.String c "") t); [done|]. rewrite IH by done. rewrite andb_true_r.
  apply negb_true_iff. destruct (Ascii.eqb_spec a c) as [->|]; [|done].
  assert (starts_with (String.String c "") (String.String c t) = true) as Ht
    by (apply starts_with_spec; by exists t). congruence.
Qed.

Lemma push_chars_app a t b cr :
  push_chars (String.append a t) b cr =
  push_chars t (push_chars a b cr).1 (push_chars a b cr).2.
Proof.
  revert b cr. induction a as [|c a IH]; intros b cr; [by rewrite str_app_nil_l|].
  rewrite str_app_cons. cbn [push_chars]. destruct (Ascii.eqb c LF && cr); [apply IH|].
  destruct (Ascii.eqb c CR); apply IH.
Qed.

(** The fast path is the loop. *)
Lemma push_text_eq s text :
  push_text s text =
  with_text s (push_chars text (buf s) (pending_cr s)).1 (push_chars text (buf s) (pending_cr s)).2.
Proof.
  unfold push_text. destruct (pending_cr s); simpl; [done|].
  destruct (contains (String.String CR "") text) eqn:Hc; simpl; [done|].
  apply contains_char in Hc.
  enough (forall b, push_chars text b false = (String.append b text, false)) as -> by done.
  induction text as [|a text IH]; intros b; simpl; [by rewrite str_app_nil_r|].
  simpl in Hc. apply andb_true_iff in Hc as [Ha%negb_true_iff Hc].
  rewrite andb_false_r, Ha, (IH Hc). by rewrite str_app_assoc, str_app_cons, str_app_nil_l.
Qed.

Lemma push_text_app s a b : push_text (push_text s a) b = push_text s (String.append a b).
Proof. rewrite !push_text_eq. simpl. by rewrite push_chars_app. Qed.

Lemma push_text_nil s : push_text s "" = s.
Proof. rewrite push_text_eq. simpl. by destruct s. Qed.

(** Pushing only appends. *)
Lemma push_chars_prefix t b cr :
  push_chars t b cr = (String.append b (push_chars t "" cr).1, (push_chars t "" cr).2).
Proof.
  revert b cr. induction t as [|a t IH]; intros b cr; cbn [push_chars]; [by rewrite str_app_nil_r|].
  destruct (Ascii.eqb a LF && cr); [apply IH|].
  destruct (Ascii.eqb a CR); rewrite (IH (String.append b _)), (IH (String.append "" _)); simpl;
    by rewrite str_app_assoc, str_app_nil_l.
Qed.

Definition drop_lf (t : string) : string :=
  match t with String.String a r => if Ascii.eqb a LF then r else t | EmptyString => "" end.

Lemma normalise_cr t : normalise (String.String CR t) = String.String LF (normalise (drop_lf t)).
Proof.
  cbn [normalise]. rewrite Ascii.eqb_refl. destruct t as [|a t]; [done|]. simpl drop_lf.
  by destruct (Ascii.eqb a LF).
Qed.

(** The text pushed is the normalised text, a LF right after a CR of the
    previous text left out. *)
Lemma push_chars_normalise t cr :
  (push_chars t "" cr).1 = normalise (if cr then drop_lf t else t).
Proof.
  revert cr. induction t as [|a t IH]; intros cr; [by destruct cr|].
  assert (forall b, (push_chars t b true).1 = String.append b (normalise (drop_lf t))) as H1
    by (intros b; rewrite push_chars_prefix; simpl; by rewrite (IH true)).
  assert (forall b, (push_chars t b false).1 = String.append b (normalise t)) as H2
    by (intros b; rewrite push_chars_prefix; simpl; by rewrite (IH false)).
  cbn [push_chars]. destruct (Ascii.eqb_spec a LF) as [->|Hlf].
  - destruct cr; simpl.
    + rewrite H2. by rewrite str_app_nil_l.
    + rewrite H2. done.
  - rewrite andb_false_l.
    assert ((if cr then drop_lf (String.String a t) else String.String a t) = String.String a t) as ->
      by (destruct cr; simpl; by rewrite ?(proj2 (Ascii.eqb_neq a LF) Hlf)).
    destruct (Ascii.eqb_spec a CR) as [->|Hcr].
    + by rewrite H1, normalise_cr, str_app_nil_l.
    + rewrite H2. simpl. by rewrite (proj2 (Ascii.eqb_neq a CR) Hcr).
Qed.
End PushLemmas.

Section FeedLemmas.
Implicit Types (s : SseFrameStream).

Lemma str_take_add n m t : str_take (n + m) t = String.append (str_take n t) (str_take m (str_drop n t)).
Proof.
  revert t. induction n as [|n IH]; intros t.
  - rewrite str_drop_0. destruct t; by rewrite ?str_app_nil_l.
  - destruct t as [|a t]; [by destruct m|]. simpl. rewrite str_app_cons. by rewrite IH.
Qed.

Lemma str_drop_add n m t : str_drop (n + m) t = str_drop m (str_drop n t).
Proof.
  revert t. induction n as [|n IH]; intros t; [by rewrite str_drop_0|].
  destruct t as [|a t]; [by destruct m|]. apply IH.
Qed.

Lemma str_take_0 t : str_take 0 t = "".
Proof. by destruct t. Qed.

Lemma push_text_partial s t : partial (push_text s t) = partial s.
Proof. by rewrite push_text_eq. Qed.

(** A whole character in front of the input is pushed first. *)
Lemma feed_loop_char fuel s rest bad n :
  next_seq rest = SeqChar n -> rest <> "" ->
  feed_loop (S fuel) s rest bad = feed_loop (S fuel) (push_text s (str_take n rest)) (str_drop n rest) bad.
Proof.
  intros Hn Hne. cbn [feed_loop].
  rewrite from_utf8_step, (proj2 (is_empty_false rest) Hne), Hn.
  assert (forall v, push_text s (str_take (n + v) rest) =
    push_text (push_text s (str_take n rest)) (str_take v (str_drop n rest))) as Hp
    by (intros v; by rewrite push_text_app, <- str_take_add).
  destruct (from_utf8 (str_drop n rest)) as [|v [len|]].
  - by rewrite push_text_app, str_take_drop.
  - by rewrite Hp, <- str_drop_add, Nat.add_assoc.
  - by rewrite Hp, <- str_drop_add.
Qed.

Lemma feed_loop_decode fuel s rest bad :
  (String.length rest < fuel)%nat -> partial s = "" ->
  feed_loop fuel s rest bad =
  (with_partial (push_text s (decode rest).1.1) (decode rest).2, bad || (decode rest).1.2).
Proof.
  revert fuel s bad. induction rest as [|rest n Hn Hne IH|rest n Hn Hne IH|rest Hn Hne] using decode_ind;
    intros [|fuel] s bad Hf Hp; try lia.
  - simpl. rewrite push_text_nil, orb_false_r. destruct s. simpl in *. by subst.
  - rewrite (feed_loop_char fuel s rest bad n Hn Hne). apply next_seq_char in Hn as Hlen.
    rewrite IH by (rewrite ?str_drop_length, ?push_text_partial; done || lia).
    rewrite (decode_step rest), (proj2 (is_empty_false rest) Hne), Hn. simpl.
    by rewrite push_text_app.
  - apply next_seq_bad in Hn as Hlen. cbn [feed_loop].
    rewrite from_utf8_step, (proj2 (is_empty_false rest) Hne), Hn, str_take_0, push_text_nil. simpl.
    rewrite IH by (rewrite ?str_drop_length, ?push_text_partial; done || lia).
    rewrite (decode_step rest), (proj2 (is_empty_false rest) Hne), Hn. simpl.
    by rewrite push_text_app, orb_true_r.
  - cbn [feed_loop]. rewrite from_utf8_step, (proj2 (is_empty_false rest) Hne), Hn.
    rewrite str_take_0, push_text_nil, str_drop_0, Hp, str_app_nil_l.
    rewrite (decode_step rest), (proj2 (is_empty_false rest) Hne), Hn. simpl.
    by rewrite push_text_nil, orb_false_r.
Qed.

Lemma feed_text_decode s input :
  let d := decode (String.append (partial s) input) in
  feed_text s input = (with_partial (push_text s d.1.1) d.2, d.1.2).
Proof.
  cbv zeta. unfold feed_text. rewrite feed_loop_decode by (done || lia). simpl.
  by rewrite !push_text_eq.
Qed.

Lemma starts_with_length p t : starts_with p t = true -> (String.length p <= String.length t)%nat.
Proof. intros [v ->]%starts_with_spec. rewrite str_length_app. lia. Qed.

Lemma starts_with_short p t u :
  (String.length p <= String.length t)%nat -> starts_with p (String.append t u) = starts_with p t.
Proof.
  intros Hlen. apply eq_true_iff_eq. rewrite !starts_with_spec. split.
  - intros [v Hv]. exists (str_drop (String.length p) t).
    rewrite <- (str_take_drop (String.length p) t) at 1. f_equal.
    rewrite <- (str_take_app _ t u), Hv by done. rewrite str_take_app by lia.
    clear. induction p as [|a p IH]; simpl; [done|]. by rewrite IH.
  - intros [v ->]. exists (String.append v u). apply str_app_assoc.
Qed.

Lemma find_length p t i : find p t = Some i -> (i + String.length p <= String.length t)%nat.
Proof.
  revert i. induction t as [|a t IH]; intros i; cbn [find].
  - destruct (starts_with p "") eqn:Hs; [|done]. intros [= <-]. by apply starts_with_length in Hs.
  - destruct (starts_with p (String.String a t)) eqn:Hs.
    + intros [= <-]. apply starts_with_length in Hs. lia.
    + intros H. destruct (find p t) as [j|]; [|done]. injection H as <-. specialize (IH j eq_refl).
      simpl. lia.
Qed.

Lemma find_app p t u i : find p t = Some i -> find p (String.append t u) = Some i.
Proof.
  revert i. induction t as [|a t IH]; intros i H; apply find_length in H as Hlen; cbn [find] in H.
  - destruct (starts_with p "") eqn:Hp; [|done]. injection H as <-. rewrite str_app_nil_l.
    apply starts_with_length in Hp. destruct p; [|simpl in Hp; lia]. by destruct u.
  - rewrite str_app_cons. cbn [find]. rewrite <- str_app_cons, starts_with_short by lia.
    destruct (starts_with p (String.String a t)); [done|].
    destruct (find p t) as [j|]; [|done]. by rewrite (IH j eq_refl).
Qed.

Lemma split_frames_loop_fuel fuel fuel' t :
  (String.length t < fuel)%nat -> (String.length t < fuel')%nat ->
  split_frames_loop fuel t = split_frames_loop fuel' t.
Proof.
  revert fuel' t. induction fuel as [|fuel IH]; intros [|fuel'] t H1 H2; try lia.
  cbn [split_frames_loop]. destruct (find blank_line t) as [sep|] eqn:Hf; [|done].
  apply find_length in Hf. simpl in Hf.
  by rewrite (IH fuel') by (rewrite str_drop_length; lia).
Qed.

Lemma split_frames_step t :
  split_frames t =
  match find blank_line t with
  | Some sep =>
      let r := split_frames (str_drop (sep + 2) t) in (str_take sep t :: r.1, r.2)
  | None => ([], t)
  end.
Proof.
  unfold split_frames at 1. cbn [split_frames_loop].
  destruct (find blank_line t) as [sep|] eqn:Hf; [|done]. apply find_length in Hf. simpl in Hf.
  unfold split_frames. cbv zeta.
  by rewrite (split_frames_loop_fuel (String.length t) (S (String.length (str_drop (sep + 2) t))))
    by (rewrite ?str_drop_length; lia).
Qed.

(** Splitting resumes where it stopped. *)
Lemma split_frames_app t u :
  split_frames (String.append t u) =
  let r := split_frames t in
  let r' := split_frames (String.append r.2 u) in (r.1 ++ r'.1, r'.2).
Proof.
  cbv zeta. remember (String.length t) as len eqn:Hlen. revert t Hlen.
  induction len as [len IH] using lt_wf_ind. intros t ->.
  rewrite (split_frames_step t). destruct (find blank_line t) as [sep|] eqn:Hf.
  - apply find_length in Hf as Hlen. simpl in Hlen.
    rewrite (split_frames_step (String.append t u)), (find_app _ _ _ _ Hf). cbv zeta.
    rewrite str_drop_app, str_take_app by lia.
    rewrite (IH (String.length (str_drop (sep + 2) t))) by (rewrite ?str_drop_length; lia || done). done.
  - simpl. by destruct (split_frames (String.append t u)).
Qed.

Lemma drain_loop_frames fuel s :
  dropping_frame s = false ->
  drain_loop fuel s =
  (map parse_frame (split_frames_loop fuel (buf s)).1,
   with_drop s (split_frames_loop fuel (buf s)).2 false (drop_from s)).
Proof.
  revert s. induction fuel as [|fuel IH]; intros s Hd; simpl.
  { destruct s. simpl in *. by subst. }
  unfold next_frame. rewrite Hd.
  destruct (find blank_line (buf s)) as [sep|]; simpl; [|destruct s; simpl in *; by subst].
  by rewrite IH.
Qed.

Lemma drain_frames s :
  dropping_frame s = false ->
  drain s = (map parse_frame (split_frames (buf s)).1,
             with_drop s (split_frames (buf s)).2 false (drop_from s)).
Proof. apply drain_loop_frames. Qed.
End FeedLemmas.

(** ** A run: feed a chunk, drain, feed the next *)
Fixpoint run (s : SseFrameStream) (chunks : list string)
  : list SseFrame * SseFrameStream * list FeedLoss :=
  match chunks with
  | [] => ([], s, [])
  | c :: chunks =>
      let fed := feed s c in
      let drained := drain fed.1 in
      let r := run drained.2 chunks in
      (drained.1 ++ r.1.1, r.1.2, fed.2 :: r.2)
  end.

Section RunLemmas.
Implicit Types (s : SseFrameStream).

(** The state of a stream that has read [input] and drained [frames]. *)
Definition tracks (input : string) s (frames : list SseFrame) (bad : bool) : Prop :=
  let d := decode input in
  let t := push_chars d.1.1 "" false in
  let f := split_frames t.1 in
  dropping_frame s = false /\ partial s = d.2 /\ pending_cr s = t.2 /\ buf s = f.2 /\
  frames = map parse_frame f.1 /\ bad = d.1.2.

Lemma tracks_step input s frames bad c :
  tracks input s frames bad -> frame_too_large (feed s c).2 = false ->
  let drained := drain (feed s c).1 in
  tracks (String.append input c) drained.2 (frames ++ drained.1) (bad || invalid_utf8 (feed s c).2).
Proof.
  intros (Hdrop & Hpart & Hcr & Hbuf & -> & ->) Hcap. cbv zeta. unfold feed in *. simpl in *.
  rewrite feed_text_decode in *. simpl in *. cbv zeta in *. rewrite Hpart in *.
  set (d := decode input) in *. set (d' := decode (String.append d.2 c)) in *.
  set (s1 := with_partial (push_text s d'.1.1) d'.2) in *.
  assert (dropping_frame s1 = false) as Hdrop1 by (unfold s1; by rewrite push_text_eq).
  assert ((enforce_frame_cap s1).1 = s1) as Hs1.
  { unfold enforce_frame_cap in *. rewrite Hdrop1 in *. by destruct (_ <=? _). }
  rewrite Hs1, drain_frames by done. simpl.
  assert (pending_cr s1 = (push_chars d'.1.1 "" (pending_cr s)).2 /\
          buf s1 = String.append (buf s) (push_chars d'.1.1 "" (pending_cr s)).1) as [Hcr1 Hbuf1]
    by (unfold s1; rewrite push_text_eq, push_chars_prefix; done).
  unfold tracks. rewrite decode_app. fold d. cbv zeta. fold d'. cbn [fst snd].
  rewrite push_chars_app, push_chars_prefix. cbn [fst snd]. rewrite split_frames_app. cbn [fst snd].
  rewrite <- Hcr, <- Hbuf, <- Hbuf1. simpl.
  split; [done|]. split; [done|]. split; [done|]. split; [done|]. split; [by rewrite map_app|done].
Qed.

Lemma tracks_run chunks input s frames bad :
  tracks input s frames bad ->
  Forall (fun l => frame_too_large l = false) (run s chunks).2 ->
  tracks (foldl String.append input chunks) (run s chunks).1.2 (frames ++ (run s chunks).1.1)
    (bad || existsb invalid_utf8 (run s chunks).2).
Proof.
  revert input s frames bad. induction chunks as [|c chunks IH]; intros input s frames bad Ht Hall; simpl in *.
  - by rewrite app_nil_r, orb_false_r.
  - apply Forall_cons in Hall as [Hc Hall].
    pose proof (tracks_step _ _ _ _ c Ht Hc) as Hstep. cbv zeta in Hstep.
    specialize (IH _ _ _ _ Hstep Hall). by rewrite <- app_assoc, <- orb_assoc in IH.
Qed.

Lemma tracks_new : tracks "" sse_new [] false.
Proof. repeat split. Qed.

(** Network chunking is invisible: however a byte stream is cut into feeds,
    with the frames drained after each one, and as long as no frame passes the
    cap, the frames are those of the whole stream decoded at once, its line
    endings normalised, split at blank lines; what is left over and whether
    anything was replaced are those of the whole stream too. *)
Theorem run_chunking_invariant chunks
  (Hcap : Forall (fun l => frame_too_large l = false) (run sse_new chunks).2) :
  let whole := foldl String.append "" chunks in
  let d := decode whole in
  let f := split_frames (normalise d.1.1) in
  (run sse_new chunks).1.1 = map parse_frame f.1 /\
  buf (run sse_new chunks).1.2 = f.2 /\
  partial (run sse_new chunks).1.2 = d.2 /\
  existsb invalid_utf8 (run sse_new chunks).2 = d.1.2.
Proof.
  pose proof (tracks_run chunks "" sse_new [] false tracks_new Hcap) as Ht.
  unfold tracks in Ht. cbv zeta in *.
  rewrite (push_chars_normalise (decode (foldl String.append "" chunks)).1.1 false) in Ht.
  destruct Ht as (_ & Hp & _ & Hb & Hf & Hi). done.
Qed.
End RunLemmas.

Lemma run_chunking_invariant_witness :
  let chunks := ["data: a"; String.append (String.String CR "") ""; blank_line; "data: b"] in
  (run sse_new chunks).1.1 = [{| sse_event := None; sse_data := "a" |}] /\
  (run sse_new chunks).1.1 =
    map parse_frame (split_frames (normalise (decode (foldl String.append "" chunks)).1.1)).1.
Proof.
  cbv zeta. split; [vm_compute; reflexivity|].
  apply (run_chunking_invariant ["data: a"; String.append (String.String CR "") ""; blank_line; "data: b"]).
  vm_compute. repeat constructor.
Defined.

(** ** Data lines *)

(** The values of a frame's [data:] lines, in order. *)
Definition data_value (line : string) : option string :=
  let line := trim_start_matches BOM line in
  match strip_prefix "event:" line with
  | Some _ => None
  | None => trim_start <$> strip_prefix "data:" line
  end.
Definition data_values (raw : string) : list string := omap data_value (str_lines raw).

Section ParseLemmas.

Lemma omap_data_value line lines :
  omap data_value (line :: lines) =
  match strip_prefix "event:" (trim_start_matches BOM line) with
  | Some _ => omap data_value lines
  | None =>
      match strip_prefix "data:" (trim_start_matches BOM line) with
      | Some rest => trim_start rest :: omap data_value lines
      | None => omap data_value lines
      end
  end.
Proof.
  cbn [omap list_omap]. unfold data_value at 1.
  destruct (strip_prefix "event:" _); [done|]. by destruct (strip_prefix "data:" _).
Qed.

Lemma parse_lines_data lines event data :
  sse_data (parse_lines lines event data) =
  if is_empty data then join nl (drop_while is_empty (omap data_value lines))
  else join nl (data :: omap data_value lines).
Proof.
  revert event data. induction lines as [|line lines IH]; intros event data.
  - simpl. destruct (is_empty data) eqn:He; [by apply is_empty_spec in He|done].
  - cbn [parse_lines]. rewrite omap_data_value.
    destruct (strip_prefix "event:" (trim_start_matches BOM line)); [apply IH|].
    destruct (strip_prefix "data:" (trim_start_matches BOM line)) as [rest|]; [|apply IH].
    rewrite IH. clear IH. set (v := trim_start rest). set (vs := omap data_value lines).
    destruct (is_empty data) eqn:Hd.
    + apply is_empty_spec in Hd as ->. rewrite str_app_nil_l. simpl drop_while.
      by destruct (is_empty v).
    + apply is_empty_false in Hd. rewrite str_app_assoc, (str_app_nonempty data _ Hd).
      destruct vs as [|w vs]; [done|].
      change (join nl (data :: v :: w :: vs)) with (String.append data (String.append nl
        (String.append v (String.append nl (join nl (w :: vs)))))).
      change (join nl (?a :: w :: vs)) with (String.append a (String.append nl (join nl (w :: vs)))).
      by rewrite !str_app_assoc.
Qed.

(** A frame's data is its [data:] values joined by line feeds, except that
    empty values before the first non-empty one leave no trace. *)
Theorem parse_frame_data raw :
  sse_data (parse_frame raw) = join nl (drop_while is_empty (data_values raw)).
Proof. unfold parse_frame. by rewrite parse_lines_data. Qed.

(** A leading empty [data:] line is lost: the frame [data:], [data: x] means a
    line feed and [x] under the concatenation rule, and the parser answers
    [x]. *)
Theorem parse_frame_drops_empty_data :
  let raw := String.append "data:" (String.append nl "data: x") in
  data_values raw = [""; "x"] /\ join nl (data_values raw) = String.append nl "x" /\
  sse_data (parse_frame raw) = "x".
Proof. vm_compute. done. Qed.
End ParseLemmas.

(** ** The book-keeping of a dropped frame *)
Section DropLemmas.

Lemma ascii_width a : is_ascii a = true -> utf8_width a = 1%nat.
Proof. unfold is_ascii, utf8_width. by intros ->. Qed.

Lemma decode_ascii s : str_forall is_ascii s = true -> decode s = (s, false, "").
Proof.
  induction s as [|a s IH]; [done|]. simpl. intros [Ha Hs]%andb_true_iff.
  rewrite decode_step. simpl. rewrite (ascii_width a Ha). simpl. by rewrite IH.
Qed.

Lemma push_chars_plain t b :
  str_forall (fun a => negb (Ascii.eqb a CR)) t = true -> push_chars t b false = (String.append b t, false).
Proof.
  revert b. induction t as [|a t IH]; intros b Ht; simpl; [by rewrite str_app_nil_r|].
  simpl in Ht. apply andb_true_iff in Ht as [Ha%negb_true_iff Ht].
  rewrite andb_false_r, Ha, IH by done. by rewrite str_app_assoc, str_app_cons, str_app_nil_l.
Qed.

Lemma last_char_index_ascii s :
  str_forall is_ascii s = true -> s <> "" -> last_char_index s = (String.length s - 1)%nat.
Proof.
  intros Ha Hne. unfold last_char_index. rewrite split_chars_ascii by done. f_equal.
  destruct s as [|a s]; [done|]. clear. revert a.
  induction s as [|b s IH]; intros a; [done|]. exact (IH b).
Qed.

Lemma str_drop_length_app s t : str_drop (String.length s) (String.append s t) = t.
Proof. rewrite str_drop_app by lia. induction s as [|a s IH]; [by rewrite str_app_nil_l|exact IH]. Qed.

Lemma repeat_char_snoc c n : repeat_char c (S n) = String.append (repeat_char c n) (String.String c "").
Proof. induction n as [|n IH]; [done|]. cbn [repeat_char]. rewrite str_app_cons. f_equal. exact IH. Qed.

(** A frame of one byte, three line feeds, and a frame of [n + 1] letters. *)
Definition oversized_input (n : nat) : string :=
  String.append (String.append "a" (String.append blank_line nl)) (repeat_char "x" (S n)).

Lemma rfind_letters n : rfind blank_line (repeat_char "x" n) = None.
Proof. induction n as [|n IH]; [done|]. cbn [repeat_char rfind]. by rewrite IH. Qed.

Lemma oversized_pending n : rfind blank_line (oversized_input n) = Some 2%nat.
Proof.
  unfold oversized_input. set (t := repeat_char "x" (S n)).
  assert (rfind blank_line (String.String LF t) = None) as H.
  { cbn [rfind]. unfold t. rewrite rfind_letters. done. }
  change (String.append (String.append "a" (String.append blank_line nl)) t)
    with (String.String "a" (String.String LF (String.String LF (String.String LF t)))).
  remember (String.String LF t) as u eqn:Hu. cbn [rfind]. rewrite H.
  assert (starts_with blank_line (String.String LF u) = true) as ->; [|done].
  subst u. apply starts_with_spec. by exists t.
Qed.

(** The state after the oversized feed: the dropped frame is cut to its last
    character, and [drop_from] points at it. *)
Lemma feed_oversized n :
  MAX_PENDING_FRAME_BYTES <= Z.of_nat n ->
  (feed sse_new (oversized_input n)).1 =
  {| buf := String.append "a" (String.append blank_line (String.append nl "x")); partial := "";
     pending_cr := false; dropping_frame := true; drop_from := 4 |}.
Proof.
  intros Hn. set (t := oversized_input n).
  assert (forall p, p "a"%char = true -> p LF = true -> p "x"%char = true -> str_forall p t = true) as Hall.
  { intros p H1 H2 H3. unfold t, oversized_input. rewrite str_forall_app. apply andb_true_iff.
    split; [simpl; by rewrite H1, H2|by apply repeat_char_forall]. }
  assert (String.length t = (n + 5)%nat) as Hlen.
  { unfold t, oversized_input. rewrite str_length_app, repeat_char_length. simpl. lia. }
  unfold feed. rewrite feed_text_decode. simpl partial. rewrite str_app_nil_l, decode_ascii by (by apply Hall).
  cbv zeta. cbn [fst snd]. rewrite push_text_eq. simpl pending_cr. simpl buf.
  rewrite push_chars_plain by (by apply Hall). cbn [fst snd]. rewrite str_app_nil_l.
  unfold enforce_frame_cap, pending_frame_start. simpl dropping_frame. cbn iota. simpl buf.
  rewrite (oversized_pending n : rfind blank_line t = _). simpl (2 + 2)%nat.
  rewrite Hlen, (proj2 (Z.leb_gt _ _)) by lia. cbn [fst snd].
  unfold shrink_dropped_frame. simpl buf. simpl drop_from.
  rewrite last_char_index_ascii; [|by apply Hall|by intros Ht; rewrite Ht in Hlen].
  rewrite Hlen, (proj2 (Nat.ltb_lt _ _)) by (unfold MAX_PENDING_FRAME_BYTES in Hn; lia).
  unfold with_drop, remove_range. simpl partial. simpl pending_cr. simpl dropping_frame. f_equal.
  replace (str_drop (n + 5 - 1) t) with "x"; [done|].
  replace (n + 5 - 1)%nat with (String.length (String.append
    (String.append "a" (String.append blank_line nl)) (repeat_char "x" n))).
  - unfold t, oversized_input. rewrite repeat_char_snoc, <- (str_app_assoc _ (repeat_char _ _)).
    by rewrite str_drop_length_app.
  - rewrite str_length_app, repeat_char_length. simpl. lia.
Qed.

(** The book-keeping of a dropped frame goes wrong after three line feeds in
    a row: a provider sends a frame, one extra line feed, an oversized frame
    and, in the next chunks, its terminator and a further frame.  Draining
    after every feed as the decoders do, the assertion of [next_frame] fails
    before the oversized frame has ended; where assertions are compiled out an
    empty frame nobody sent is produced and the further, legitimate frame is
    dropped. *)
Theorem dropped_frame_takes_the_next n (Hn : MAX_PENDING_FRAME_BYTES <= Z.of_nat n) :
  let s1 := (drain (feed sse_new (oversized_input n)).1).2 in
  let s2 := (feed s1 nl).1 in
  let d2 := drain s2 in
  let d3 := drain (feed d2.2 (String.append nl (String.append "data: hi" blank_line))).1 in
  next_frame_assertion s2 = false /\
  d2.1 = [{| sse_event := None; sse_data := "" |}] /\ d3.1 = [].
Proof. cbv zeta. rewrite (feed_oversized n Hn). vm_compute. done. Qed.
End DropLemmas.

Lemma dropped_frame_takes_the_next_witness :
  let n := Z.to_nat MAX_PENDING_FRAME_BYTES in
  let s1 := (drain (feed sse_new (oversized_input n)).1).2 in
  next_frame_assertion (feed s1 nl).1 = false.
Proof.
  intros n. exact (proj1 (dropped_frame_takes_the_next n
    ltac:(unfold n; rewrite Z2Nat.id; [apply Z.le_refl|discriminate]))).
Defined.
