(* ===== verification/Multipart.v ===== *)
(** * Multipart request bodies

    [multipart.rs]: browsers wrap the bytes of a file in a boundary envelope;
    the parser cuts the envelope at the delimiters that start a line and takes
    the file part out of it.  A body is its bytes. *)
From Stdlib Require Import String.
From S2P Require Import Prelude Ints Contracts Str Utf8 Sse.

Definition CRLF : string := bytes [13; 10].
Definition quote : string := bytes [34].

Record MultipartFile := {
  mp_content : string; mp_filename : option string; mp_content_type : option string
}.

(** [value.strip_prefix('"').and_then(|v| v.strip_suffix('"')).unwrap_or(value)] *)
Definition unquote (value : string) : string := default value (v ← strip_prefix quote value; strip_suffix quote v).

Fixpoint boundary_of (params : list string) : option string :=
  match params with
  | [] => None
  | param :: params =>
      match split_once "=" (trim param) with
      | None => boundary_of params
      | Some (name, value) =>
          if negb (eq_ignore_ascii_case (trim name) "boundary") then boundary_of params
          else
            let value := unquote (trim value) in
            if is_empty value then boundary_of params
            else if str_exists is_ascii_control value then None
            else Some value
      end
  end.
Definition multipart_boundary (content_type : string) : option string :=
  match split_on ";" content_type with
  | mime :: parts => if eq_ignore_ascii_case (trim mime) "multipart/form-data" then boundary_of parts else None
  | [] => None
  end.

Fixpoint disposition_value (tokens : list string) (param : string) : option string :=
  match tokens with
  | [] => None
  | token :: tokens =>
      match split_once "=" token with
      | None => disposition_value tokens param
      | Some (name, value) =>
          if eq_ignore_ascii_case (trim name) param then Some (unquote (trim value))
          else disposition_value tokens param
      end
  end.
Definition disposition_param (disposition param : string) : option string :=
  disposition_value (split_on ";" disposition) param.

(** [find(haystack, needle, from)] *)
Definition find_from (haystack needle : string) (from : nat) : option nat :=
  if is_empty needle || (String.length haystack <? from)%nat then None
  else (fun pos => (pos + from)%nat) <$> find needle (str_drop from haystack).

(** The delimiters that start a line: at the front, or after a line end. *)
Definition starts_line (body : string) (pos : nat) : bool :=
  (pos =? 0)%nat || (2 <=? pos)%nat && String.eqb (str_take 2 (str_drop (pos - 2) body)) CRLF.
Fixpoint delimiter_positions (fuel : nat) (body delimiter : string) (from : nat) : list nat :=
  match fuel with
  | O => []
  | S fuel =>
      match find_from body delimiter from with
      | None => []
      | Some pos =>
          let positions := delimiter_positions fuel body delimiter (S pos) in
          if starts_line body pos then pos :: positions else positions
      end
  end.

Definition from_utf8_lossy (s : string) : string :=
  let r := decode s in if is_empty r.2 then r.1.1 else String.append r.1.1 REPLACEMENT.

(** [s.split("\r\n")] *)
Fixpoint split_lines (fuel : nat) (s : string) : list string :=
  match fuel with
  | O => [s]
  | S fuel =>
      match find CRLF s with
      | Some i => str_take i s :: split_lines fuel (str_drop (i + 2) s)
      | None => [s]
      end
  end.

(** The disposition and the type that the header lines give. *)
Fixpoint part_headers (lines : list string) (disposition : string) (content_type : option string)
  : string * option string :=
  match lines with
  | [] => (disposition, content_type)
  | line :: lines =>
      match split_once ":" line with
      | None => part_headers lines disposition content_type
      | Some (name, value) =>
          let value := trim value in
          if eq_ignore_ascii_case (trim name) "content-disposition" then part_headers lines value content_type
          else if eq_ignore_ascii_case (trim name) "content-type" then part_headers lines disposition (Some value)
          else part_headers lines disposition content_type
      end
  end.

(** The header block and the content of a part. *)
Definition split_part (part : string) : option (string * string) :=
  match strip_prefix CRLF part with
  | Some rest => Some ("", rest)
  | None =>
      match find_from part (String.append CRLF CRLF) 0 with
      | Some headers_end => Some (str_take headers_end part, str_drop (headers_end + 4) part)
      | None => None
      end
  end.

(** A part as a file, with its field name. *)
Definition file_of_part (part : string) : option (MultipartFile * option string) :=
  '(headers_raw, content) ← split_part part;
  let text := from_utf8_lossy headers_raw in
  let '(disposition, part_content_type) := part_headers (split_lines (String.length text) text) "" None in
  Some ({| mp_content := content; mp_filename := disposition_param disposition "filename";
           mp_content_type := part_content_type |},
        disposition_param disposition "name").

Definition is_padding (c : ascii) : bool := Ascii.eqb c " " || Ascii.eqb c (byte 9).
Fixpoint skip_padding (fuel : nat) (body : string) (cursor limit : nat) : nat :=
  match fuel with
  | O => cursor
  | S fuel =>
      match str_drop cursor body with
      | String.String c _ =>
          if (cursor <? limit)%nat && is_padding c then skip_padding fuel body (S cursor) limit else cursor
      | EmptyString => cursor
      end
  end.

(** What a pair of delimiters brackets: the end of the body, nothing to use, or
    a part. *)
Inductive Bracketed := Closing | Malformed | Part (part : string).
Definition bracketed (body delimiter : string) (start stop : nat) : Bracketed :=
  let after := (start + String.length delimiter)%nat in
  if starts_with "--" (str_drop after body) then Closing
  else
    let cursor := skip_padding (String.length body) body after stop in
    if (stop <? cursor)%nat || negb (starts_with CRLF (str_take (stop - cursor) (str_drop cursor body))) then Malformed
    else
      let cursor := (cursor + 2)%nat in
      if (stop <? 2)%nat then Malformed
      else
        let content_end := (stop - 2)%nat in
        if (content_end <? cursor)%nat then Malformed
        else Part (str_take (content_end - cursor) (str_drop cursor body)).

Fixpoint first_file (body delimiter : string) (positions : list nat) (named_file_fallback : option MultipartFile)
  : option MultipartFile :=
  match positions with
  | start :: ((stop :: _) as positions) =>
      match bracketed body delimiter start stop with
      | Closing => named_file_fallback
      | Malformed => first_file body delimiter positions named_file_fallback
      | Part part =>
          match file_of_part part with
          | None => first_file body delimiter positions named_file_fallback
          | Some (file, field_name) =>
              if bool_decide (is_Some (mp_filename file)) then Some file
              else
                first_file body delimiter positions
                  (if bool_decide (named_file_fallback = None /\ field_name = Some "file") then Some file
                   else named_file_fallback)
          end
      end
  | _ => named_file_fallback
  end.

Definition delimiter_of (boundary : string) : string := String.append "--" boundary.
Definition extract_multipart_file (body content_type : string) : option MultipartFile :=
  boundary ← multipart_boundary content_type;
  let delimiter := delimiter_of boundary in
  first_file body delimiter (delimiter_positions (S (String.length body)) body delimiter 0) None.

(** ** Searching *)
Section Search.
Implicit Types (p q s t u : string).

Lemma str_take_all p : str_take (String.length p) p = p.
Proof. induction p as [|a p IH]; simpl; [done|]. by rewrite IH. Qed.
Lemma starts_with_drop p s t : (String.length p <= String.length s)%nat ->
  starts_with p (String.append s t) = String.eqb (str_take (String.length p) s) p.
Proof.
  intros Hl. rewrite starts_with_short by done. apply eq_true_iff_eq. rewrite starts_with_spec, String.eqb_eq. split.
  - intros [v ->]. rewrite str_take_app by done. by rewrite str_take_all.
  - intros H. exists (str_drop (String.length p) s). by rewrite <- H at 1; rewrite str_take_drop.
Qed.

(** What comes before the first occurrence can be skipped. *)
Lemma find_skip p s n :
  (n <= String.length s)%nat -> (forall k, (k < n)%nat -> starts_with p (str_drop k s) = false) ->
  find p s = (fun i => (n + i)%nat) <$> find p (str_drop n s).
Proof.
  revert s. induction n as [|n IH]; intros s Hn Hk.
  { rewrite str_drop_0. by destruct (find p s). }
  destruct s as [|a s]; [simpl in Hn; lia|]. specialize (Hk 0%nat ltac:(lia)) as H0. simpl in H0. cbn [find].
  rewrite H0, (IH s); [|simpl in Hn; lia|intros k Hlt; apply (Hk (S k)); lia].
  simpl. by destruct (find p (str_drop n s)).
Qed.

Lemma find_before p s i k : find p s = Some i -> (k < i)%nat -> starts_with p (str_drop k s) = false.
Proof.
  revert i k. induction s as [|a s IH]; intros i k H Hk; cbn [find] in H.
  { destruct (starts_with p ""); [|done]. injection H as <-. lia. }
  destruct (starts_with p (String.String a s)) eqn:Hp; [injection H as <-; lia|].
  destruct (find p s) as [j|] eqn:Hf; [|done]. injection H as <-.
  destruct k as [|k]; [done|]. simpl. apply (IH j); [done|lia].
Qed.
Lemma find_at p s i : find p s = Some i -> starts_with p (str_drop i s) = true.
Proof.
  revert i. induction s as [|a s IH]; intros i H; cbn [find] in H.
  { destruct (starts_with p "") eqn:Hp; [|done]. by injection H as <-. }
  destruct (starts_with p (String.String a s)) eqn:Hp; [by injection H as <-|].
  destruct (find p s) as [j|] eqn:Hf; [|done]. injection H as <-. simpl. by apply IH.
Qed.
Lemma find_here p s : find p (String.append p s) = Some O.
Proof. destruct p as [|a p]; [by destruct s|]. rewrite str_app_cons. cbn [find]. rewrite <- str_app_cons. by rewrite (proj2 (starts_with_spec _ _)) by eauto. Qed.
Lemma find_never p s k : find p s = None -> starts_with p (str_drop k s) = false.
Proof.
  revert k. induction s as [|a s IH]; intros k H; cbn [find] in H.
  { destruct (starts_with p "") eqn:Hp; [done|]. by destruct k. }
  destruct (starts_with p (String.String a s)) eqn:Hp; [done|].
  destruct (find p s) as [j|] eqn:Hf; [done|]. destruct k as [|k]; [done|]. simpl. by apply IH.
Qed.

Lemma no_char_inside c r s t u :
  no_char c r -> String.append s (String.String c t) = String.append r u -> (String.length s < String.length r)%nat -> False.
Proof.
  unfold no_char. revert s. induction r as [|d r IH]; intros s Hr Hv Hl; [simpl in Hl; lia|].
  simpl in Hr. apply andb_true_iff in Hr as [Hd Hr]. destruct s as [|b s]; rewrite ?str_app_nil_l, ?str_app_cons in Hv.
  - injection Hv as <- _. by rewrite Ascii.eqb_refl in Hd.
  - injection Hv as _ Hv. eapply IH; [done|exact Hv|simpl in Hl; lia].
Qed.

(** A needle whose first character is nowhere else in it. *)
Context (c : ascii) (q : string) (Hq : no_char c q).
Let p := String.String c q.

Lemma find_line s t : no_char c s -> find p (String.append s t) = (fun i => (String.length s + i)%nat) <$> find p t.
Proof.
  unfold no_char. induction s as [|a s IH]; intros Hs; [rewrite str_app_nil_l; by destruct (find p t)|].
  simpl in Hs. apply andb_true_iff in Hs as [Ha%negb_true_iff Hs].
  rewrite str_app_cons. cbn [find]. rewrite (IH Hs).
  assert (starts_with p (String.String a (String.append s t)) = false) as ->.
  { unfold starts_with, p. simpl. rewrite Ascii.eqb_sym, Ha. by rewrite bool_decide_eq_false_2 by (by intros [? ?]). }
  by destruct (find p t).
Qed.

Lemma find_first s t : contains p s = false -> find p (String.append s (String.append p t)) = Some (String.length s).
Proof.
  induction s as [|a s IH]; intros Hs.
  { rewrite str_app_nil_l. destruct (String.append p t) eqn:E; [done|]. cbn [find]. rewrite <- E.
    by rewrite (proj2 (starts_with_spec p _)) by eauto. }
  unfold contains in *. cbn [find] in Hs. rewrite str_app_cons. cbn [find].
  destruct (starts_with p (String.String a s)) eqn:Hp; [by rewrite bool_decide_eq_true_2 in Hs by eauto|].
  assert (find p s = None) as Hn.
  { destruct (find p s) eqn:E; [|done]. by rewrite bool_decide_eq_true_2 in Hs by eauto. }
  rewrite Hn in IH. rewrite IH by (by rewrite bool_decide_eq_false_2 by (by intros [? ?])). rewrite <- str_app_cons.
  destruct (decide (String.length p <= String.length (String.String a s))%nat) as [Hl|Hl].
  { by rewrite starts_with_short, Hp. }
  assert (starts_with p (String.append (String.String a s) (String.append p t)) = false) as ->; [|done].
  apply not_true_iff_false. rewrite starts_with_spec. intros [v Hv]. revert Hv Hl. clear Hp Hs IH Hn.
  unfold p. rewrite (str_app_cons a s), !(str_app_cons c q). intros [= -> Hv] Hl. cbn [String.length] in Hl.
  eapply no_char_inside; [exact Hq|exact Hv|lia].
Qed.
End Search.

(** ** Where the delimiters are *)
Definition delimits (body delimiter : string) (pos : nat) : bool :=
  starts_with delimiter (str_drop pos body) && starts_line body pos.

Section Positions.
Context (body delimiter : string) (Hd : delimiter <> "").

Lemma delimiter_length : (0 < String.length delimiter)%nat.
Proof. destruct delimiter; [done|simpl; lia]. Qed.
Lemma find_from_some from pos : find_from body delimiter from = Some pos ->
  (from <= pos)%nat /\ (pos + String.length delimiter <= String.length body)%nat /\
  starts_with delimiter (str_drop pos body) = true /\
  (forall k, (from <= k < pos)%nat -> starts_with delimiter (str_drop k body) = false).
Proof.
  unfold find_from. rewrite (proj2 (is_empty_false delimiter) Hd). simpl.
  destruct (Nat.ltb_spec (String.length body) from) as [|Hf]; [done|].
  destruct (find delimiter (str_drop from body)) as [i|] eqn:E; [|done]. intros [= <-].
  pose proof (find_length _ _ _ E) as Hlen. rewrite str_drop_length in Hlen.
  split_and!; [lia|lia| |].
  - rewrite Nat.add_comm, str_drop_add. by apply find_at.
  - intros k Hk. replace k with (from + (k - from))%nat by lia. rewrite str_drop_add. eapply find_before; [exact E|lia].
Qed.
Lemma find_from_none from k : find_from body delimiter from = None -> (from <= k)%nat ->
  starts_with delimiter (str_drop k body) = false.
Proof.
  unfold find_from. rewrite (proj2 (is_empty_false delimiter) Hd). simpl.
  destruct (Nat.ltb_spec (String.length body) from) as [Hf|Hf]; intros H Hk.
  - destruct (starts_with delimiter (str_drop k body)) eqn:E; [|done]. apply starts_with_length in E.
    rewrite str_drop_length in E. pose proof delimiter_length. lia.
  - destruct (find delimiter (str_drop from body)) as [i|] eqn:E; [done|].
    replace k with (from + (k - from))%nat by lia. rewrite str_drop_add. by apply find_never.
Qed.

Lemma filter_seq_none (f : nat -> bool) n m : (forall k, (n <= k < n + m)%nat -> f k = false) -> List.filter f (seq n m) = [].
Proof.
  revert n. induction m as [|m IH]; intros n H; [done|]. simpl. rewrite H by lia. apply IH. intros k Hk. apply H. lia.
Qed.

Lemma delimiter_positions_spec fuel from :
  (String.length body < fuel + from)%nat ->
  delimiter_positions fuel body delimiter from =
  List.filter (delimits body delimiter) (seq from (S (String.length body) - from)).
Proof.
  revert from. induction fuel as [|fuel IH]; intros from Hf.
  { by rewrite (proj2 (Nat.sub_0_le _ _)) by lia. }
  cbn [delimiter_positions]. destruct (find_from body delimiter from) as [pos|] eqn:E.
  - destruct (find_from_some _ _ E) as (Hle & Hlen & Hat & Hbefore). rewrite IH by lia.
    replace (S (String.length body) - from)%nat with ((pos - from) + S (S (String.length body) - S pos))%nat
      by (pose proof delimiter_length; lia).
    rewrite seq_app, List.filter_app, (filter_seq_none _ from (pos - from)).
    2: { intros k Hk. unfold delimits. by rewrite Hbefore by lia. }
    replace (from + (pos - from))%nat with pos by lia. cbn [seq List.filter app].
    assert (delimits body delimiter pos = starts_line body pos) as -> by (unfold delimits; by rewrite Hat). done.
  - symmetry. apply filter_seq_none. intros k Hk. unfold delimits. by rewrite (find_from_none from) by (done || lia).
Qed.
End Positions.

(** ** How a browser builds a body *)
Record FormPart := {
  fp_name : string; fp_filename : option string; fp_type : option string; fp_content : string
}.
Definition disposition_of (p : FormPart) : string :=
  concat_chars
    (["form-data; name="; quote; fp_name p; quote] ++
     match fp_filename p with Some f => ["; filename="; quote; f; quote] | None => [] end).
Definition header_block (p : FormPart) : string :=
  String.append (String.append "Content-Disposition: " (disposition_of p))
    match fp_type p with Some t => String.append CRLF (String.append "Content-Type: " t) | None => "" end.
Definition part_text (p : FormPart) : string :=
  String.append (header_block p) (String.append CRLF (String.append CRLF (fp_content p))).
Definition encode_form_part (boundary : string) (p : FormPart) : string :=
  String.append (delimiter_of boundary) (String.append CRLF (String.append (part_text p) CRLF)).
Definition encode_form (boundary : string) (ps : list FormPart) : string :=
  String.append (concat_chars (map (encode_form_part boundary) ps))
    (String.append (delimiter_of boundary) (String.append "--" CRLF)).
Definition form_content_type (boundary : string) : string := String.append "multipart/form-data; boundary=" boundary.

(** What browsers promise: a boundary of graphic characters that no content
    holds at the start of a line; names without line ends and quotes, which
    browsers escape; a type on one line; all of it text.  A semicolon is sent
    as it is, in a file name and in a field name; a field name, which the page
    chooses, holds no parameter of its own ([;] and [=] both). *)
Definition boundary_char (c : ascii) : bool := is_ascii_graphic c && negb (Ascii.eqb c ";") && negb (Ascii.eqb c (byte 34)).
Definition boundary_ok (b : string) : Prop := b <> "" /\ str_forall boundary_char b = true.
Definition name_char (c : ascii) : bool := negb (Ascii.eqb c CR) && negb (Ascii.eqb c (byte 34)).
Definition is_text (s : string) : Prop := decode s = (s, false, "").
Definition name_ok (s : string) : Prop := str_forall name_char s = true /\ is_text s.
Definition field_ok (s : string) : Prop := name_ok s /\ (no_char ";" s \/ no_char "=" s).
Definition type_ok (t : string) : Prop := no_char CR t /\ is_text t /\ trim t = t.
Definition content_ok (b content : string) : Prop :=
  contains (String.append CRLF (delimiter_of b)) (String.append CRLF content) = false.
Definition part_ok (b : string) (p : FormPart) : Prop :=
  field_ok (fp_name p) /\ from_option name_ok True (fp_filename p) /\ from_option type_ok True (fp_type p) /\
  content_ok b (fp_content p).

(** The name that is read: all of it, or what stands before its first
    semicolon, after the quote that opens the value. *)
Definition cut_name (name : string) : string :=
  match split_once ";" name with Some (front, _) => trim (String.append quote front) | None => name end.
Definition file_part (p : FormPart) : MultipartFile :=
  {| mp_content := fp_content p; mp_filename := cut_name <$> fp_filename p; mp_content_type := fp_type p |}.
Definition has_filename (p : FormPart) : bool := bool_decide (is_Some (fp_filename p)).
(** The file of a form: its first part with a file name, or its first part
    named [file]. *)
Definition file_of_form (ps : list FormPart) : option MultipartFile :=
  match List.find has_filename ps with
  | Some p => Some (file_part p)
  | None => file_part <$> List.find (fun p => String.eqb (fp_name p) "file") ps
  end.

Section FormPositions.
Context (b : string) (Hb : boundary_ok b).
#[local] Abbreviation D := (delimiter_of b).
Definition needle : string := String.append CRLF D.
#[local] Abbreviation P := needle.
#[local] Arguments delimiter_of : simpl never.
#[local] Arguments needle : simpl never.

Lemma boundary_no_char c : boundary_char c = false -> c <> "-"%char -> no_char c D.
Proof.
  intros Hc Hd. unfold delimiter_of. rewrite !str_app_cons, str_app_nil_l. unfold no_char. simpl.
  assert (Ascii.eqb "-" c = false) as -> by (apply Ascii.eqb_neq; congruence). simpl.
  apply (no_char_forall c boundary_char); [|apply Hb]. intros a Ha ->. congruence.
Qed.
Lemma delimiter_no_cr : no_char CR (String.String LF D).
Proof. unfold no_char. cbn [str_forall]. by rewrite boundary_no_char. Qed.
Lemma needle_cons : P = String.String CR (String.String LF D).
Proof. unfold needle, CRLF. simpl. by autorewrite with str. Qed.

Lemma crlf_app s : String.append CRLF s = String.String CR (String.String LF s).
Proof. unfold CRLF. simpl. by autorewrite with str. Qed.

Lemma find_crlf s : starts_with D s = false ->
  find P (String.append CRLF s) = (fun i => (2 + i)%nat) <$> find P s.
Proof.
  intros Hs. rewrite (find_skip P _ 2), crlf_app; [done|by rewrite crlf_app; simpl; lia|].
  intros k Hk. rewrite crlf_app, needle_cons. apply not_true_iff_false. rewrite starts_with_spec. intros [v Hv].
  destruct k as [|[|k]]; simpl in Hv; rewrite ?str_app_cons in Hv; [|done|lia].
  injection Hv as Hv. assert (starts_with D s = true); [|congruence]. apply starts_with_spec. eauto.
Qed.
Lemma not_delimiter a s : a <> "-"%char -> starts_with D (String.String a s) = false.
Proof.
  intros Ha. unfold delimiter_of. apply not_true_iff_false. rewrite starts_with_spec. intros [v Hv].
  rewrite !str_app_cons in Hv. congruence.
Qed.

Lemma delimits_once pre X n :
  (pre = "" \/ exists w, pre = String.append w CRLF) -> starts_with D X = true ->
  (forall i, (i + 2 < S n)%nat -> starts_with P (str_drop i X) = false) ->
  List.filter (delimits (String.append pre X) D) (seq (String.length pre) (S n)) = [String.length pre].
Proof.
  intros Hpre HX HP. cbn [seq List.filter]. rewrite filter_seq_none.
  - assert (delimits (String.append pre X) D (String.length pre) = true) as ->; [|done].
    unfold delimits. rewrite str_drop_length_app, HX. simpl. destruct Hpre as [-> | [w ->]]; [done|].
    unfold starts_line. apply orb_true_iff. right. rewrite str_length_app.
    apply andb_true_iff. split; [apply Nat.leb_le; simpl; lia|].
    replace (String.length w + String.length CRLF - 2)%nat with (String.length w) by (simpl; lia).
    by rewrite str_app_assoc, str_drop_length_app, crlf_app.
  - intros k Hk. apply not_true_iff_false. unfold delimits. rewrite andb_true_iff. intros [Hat Hline].
    replace k with (String.length pre + (k - String.length pre))%nat in Hat, Hline by lia.
    remember (k - String.length pre)%nat as j eqn:Hj. rewrite str_drop_add, str_drop_length_app in Hat.
    unfold starts_line in Hline. apply orb_true_iff in Hline as [Hz%Nat.eqb_eq|[Hge%Nat.leb_le Hcr%String.eqb_eq]%andb_true_iff]; [lia|].
    destruct (decide (j = 1)%nat) as [->|Hj1].
    + destruct Hpre as [-> | [w ->]]; [simpl in Hge; lia|]. rewrite str_length_app in Hcr.
      replace (String.length w + String.length CRLF + 1 - 2)%nat with (String.length w + 1)%nat in Hcr by (simpl; lia).
      rewrite str_app_assoc, str_drop_add, str_drop_length_app, crlf_app in Hcr. simpl in Hcr. by destruct X.
    + replace (String.length pre + j - 2)%nat with (String.length pre + (j - 2))%nat in Hcr by lia.
      rewrite str_drop_add, str_drop_length_app in Hcr. specialize (HP (j - 2)%nat ltac:(lia)).
      apply not_true_iff_false in HP. apply HP, starts_with_spec.
      replace j with ((j - 2) + 2)%nat in Hat by lia. rewrite str_drop_add in Hat.
      apply starts_with_spec in Hat as [v Hv]. exists v.
      rewrite <- (str_take_drop 2 (str_drop (j - 2) X)), Hcr, Hv. unfold needle. by rewrite str_app_assoc.
Qed.

(** A part holds no delimiter at the start of a line. *)
Lemma name_no_cr s : str_forall name_char s = true -> no_char CR s.
Proof. apply no_char_forall. intros a Ha ->. by vm_compute in Ha. Qed.
Lemma disposition_no_cr p : part_ok b p -> no_char CR (disposition_of p).
Proof.
  intros (((Hn%name_no_cr & _) & _) & Hf & _). unfold disposition_of, no_char in *.
  destruct (fp_filename p) as [f|]; simpl in *; [destruct Hf as (Hf%name_no_cr & _); unfold no_char in Hf|];
    by rewrite ?str_forall_app, ?Hn, ?Hf.
Qed.

Definition tail_of (p : FormPart) (X : string) : string :=
  String.append CRLF (String.append (String.append CRLF (fp_content p)) (String.append P X)).
Lemma encode_part_app p X :
  String.append (encode_form_part b p) (String.append D X) =
  String.append D (String.append CRLF (String.append (String.append "Content-Disposition: " (disposition_of p))
    match fp_type p with
    | Some t => String.append CRLF (String.append (String.append "Content-Type: " t) (tail_of p X))
    | None => tail_of p X
    end)).
Proof.
  unfold encode_form_part, part_text, header_block, tail_of, needle.
  destruct (fp_type p) as [t|]; rewrite ?str_app_assoc, ?str_app_nil_l; done.
Qed.

Lemma find_tail p X : part_ok b p ->
  find P (tail_of p X) = Some (String.length CRLF + String.length (String.append CRLF (fp_content p)))%nat.
Proof.
  intros (_ & _ & _ & Hc). unfold tail_of. rewrite find_crlf.
  - rewrite needle_cons, find_first; [done|apply delimiter_no_cr|]. by rewrite <- needle_cons.
  - rewrite str_app_assoc, crlf_app. by apply not_delimiter.
Qed.
Lemma find_field_line l s : no_char CR l ->
  find P (String.append CRLF (String.append (String.String "C" l) s)) =
  (fun i => (2 + String.length (String.String "C" l) + i)%nat) <$> find P s.
Proof.
  intros Hl. rewrite find_crlf by (rewrite str_app_cons; by apply not_delimiter).
  rewrite needle_cons, find_line by (by unfold no_char in *).
  destruct (find _ s); simpl; [|done]. do 2 f_equal.
Qed.
Lemma find_part p X : part_ok b p ->
  find P (String.append (encode_form_part b p) (String.append D X)) = Some (String.length (encode_form_part b p) - 2)%nat.
Proof.
  intros Hp. rewrite encode_part_app, needle_cons, find_line by (by apply boundary_no_char). rewrite <- needle_cons.
  change (String.append "Content-Disposition: " (disposition_of p))
    with (String.String "C" (String.append "ontent-Disposition: " (disposition_of p))).
  rewrite find_field_line.
  2: { unfold no_char. rewrite str_forall_app. apply disposition_no_cr in Hp. unfold no_char in Hp. by rewrite Hp. }
  assert (String.length (encode_form_part b p) =
    String.length D + 2 + (String.length "Content-Disposition: " + String.length (disposition_of p)) +
    match fp_type p with Some t => 2 + (String.length "Content-Type: " + String.length t) | None => 0 end +
    2 + 2 + String.length (fp_content p) + 2)%nat as ->.
  { unfold encode_form_part, part_text, header_block. rewrite !str_length_app.
    destruct (fp_type p); rewrite ?str_length_app; simpl; lia. }
  destruct (fp_type p) as [t|] eqn:Ht.
  - change (String.append "Content-Type: " t) with (String.String "C" (String.append "ontent-Type: " t)).
    rewrite find_field_line, find_tail by
      (try done; destruct Hp as (_ & _ & Hty & _); rewrite Ht in Hty; destruct Hty as (Hty & _); unfold no_char in *;
       by rewrite str_forall_app, Hty).
    simpl. rewrite !str_length_app. simpl. f_equal. lia.
  - rewrite find_tail by done. simpl. rewrite !str_length_app. simpl. f_equal. lia.
Qed.

(** Where the parts of a form start. *)
Fixpoint offsets (o : nat) (ps : list FormPart) : list nat :=
  o :: match ps with [] => [] | p :: ps => offsets (o + String.length (encode_form_part b p)) ps end.

Lemma encode_form_cons p ps : encode_form b (p :: ps) = String.append (encode_form_part b p) (encode_form b ps).
Proof. unfold encode_form. simpl. by rewrite str_app_assoc. Qed.
Lemma encode_form_delimiter ps : exists X, encode_form b ps = String.append D X.
Proof.
  destruct ps as [|p ps]; [eexists; unfold encode_form; simpl; by rewrite str_app_nil_l|].
  rewrite encode_form_cons. unfold encode_form_part. rewrite !str_app_assoc. eauto.
Qed.
Lemma encode_part_ends p : exists w, encode_form_part b p = String.append w CRLF.
Proof. unfold encode_form_part. rewrite <- !str_app_assoc. eauto. Qed.

Lemma closing_no_needle i : starts_with P (str_drop i (encode_form b [])) = false.
Proof.
  apply find_never. assert (encode_form b [] = String.append (String.append D "--") CRLF) as ->.
  { unfold encode_form. cbn [map concat_chars foldr]. by rewrite str_app_nil_l, str_app_assoc. }
  rewrite needle_cons, find_line.
  - rewrite <- needle_cons, <- (str_app_nil_r CRLF), find_crlf.
    + unfold needle. by rewrite crlf_app.
    + by vm_compute.
  - unfold no_char. rewrite str_forall_app. by rewrite boundary_no_char.
Qed.

Lemma form_positions ps pre :
  Forall (part_ok b) ps -> (pre = "" \/ exists w, pre = String.append w CRLF) ->
  let body := String.append pre (encode_form b ps) in
  List.filter (delimits body D) (seq (String.length pre) (S (String.length body) - String.length pre)) =
  offsets (String.length pre) ps.
Proof.
  intros Hps. revert pre. induction Hps as [|p ps Hp Hps IH]; intros pre Hpre body.
  - unfold body. rewrite str_length_app.
    replace (S (String.length pre + String.length (encode_form b [])) - String.length pre)%nat
      with (S (String.length (encode_form b []))) by lia.
    apply delimits_once; [done| |].
    + destruct (encode_form_delimiter []) as [X ->]. apply starts_with_spec. eauto.
    + intros i _. apply closing_no_needle.
  - unfold body. rewrite encode_form_cons. destruct (encode_form_delimiter ps) as [X HX].
    rewrite <- str_app_assoc, (str_length_app (String.append pre _)), (str_length_app pre).
    assert (2 < String.length (encode_form_part b p))%nat as Hlen.
    { unfold encode_form_part. rewrite !str_length_app. simpl. lia. }
    replace (S (String.length pre + String.length (encode_form_part b p) + String.length (encode_form b ps)) -
             String.length pre)%nat
      with (S (String.length (encode_form_part b p) - 1) + S (String.length (encode_form b ps)))%nat by lia.
    rewrite seq_app, List.filter_app.
    change (offsets (String.length pre) (p :: ps)) with
      ([String.length pre] ++ offsets (String.length pre + String.length (encode_form_part b p)) ps). f_equal.
    + rewrite str_app_assoc. apply delimits_once; [done| |].
      * unfold encode_form_part. rewrite !str_app_assoc. apply starts_with_spec. eauto.
      * intros i Hi. rewrite HX. eapply find_before; [by apply find_part|lia].
    + replace (String.length pre + S (String.length (encode_form_part b p) - 1))%nat
        with (String.length (String.append pre (encode_form_part b p))) by (rewrite str_length_app; lia).
      rewrite <- (str_length_app pre). specialize (IH (String.append pre (encode_form_part b p))). cbv zeta in IH.
      rewrite (str_length_app _ (encode_form b ps)) in IH.
      rewrite <- IH; [by do 2 f_equal; lia|].
      right. destruct (encode_part_ends p) as [w ->]. exists (String.append pre w). by rewrite str_app_assoc.
Qed.
End FormPositions.

(** ** Reading a part *)
Section Parts.
Implicit Types (s t : string) (p : FormPart).

Lemma split_once_at c s t : no_char c s -> split_once c (String.append s (String.String c t)) = Some (s, t).
Proof.
  unfold no_char. induction s as [|a s IH]; autorewrite with str; simpl; [by rewrite Ascii.eqb_refl|].
  rewrite andb_true_iff, negb_true_iff. intros [Ha Hs]. by rewrite Ha, IH.
Qed.
Lemma split_once_none c s : no_char c s -> split_once c s = None.
Proof.
  unfold no_char. induction s as [|a s IH]; simpl; [done|].
  rewrite andb_true_iff, negb_true_iff. intros [Ha Hs]. by rewrite Ha, IH.
Qed.

(** A string that starts and ends with a visible character keeps its ends. *)
Lemma split_chars_first a s : is_ascii_graphic a = true ->
  exists c cs, split_chars (String.String a s) = c :: cs /\ is_whitespace c = false.
Proof.
  intros Ha. simpl. assert (forall r, is_whitespace (String.String a r) = false) as Hw.
  { intros r. apply not_true_iff_false. unfold is_whitespace. rewrite existsb_exists.
    intros (w & Hin & [= <-]%String.eqb_eq). 
    assert (existsb (fun w => match w with String.String b _ => is_ascii_graphic b | _ => false end) whitespace_chars = true).
    { apply existsb_exists. eauto. }
    by vm_compute in H. }
  destruct (split_chars s) as [|c cs]; [eauto|]. destruct (starts_continuation c); eauto.
Qed.
Lemma split_chars_last s a : is_continuation a = false ->
  split_chars (String.append s (String.String a "")) = split_chars s ++ [String.String a ""].
Proof.
  intros Ha. induction s as [|b s IH]; autorewrite with str; [done|]. cbn [split_chars]. rewrite IH.
  destruct (split_chars s) as [|c cs]; simpl; [by rewrite Ha|]. by destruct (starts_continuation c).
Qed.
Lemma trim_end_kept s a : is_ascii_graphic a = true ->
  trim (String.append s (String.String a "")) = trim_start (String.append s (String.String a "")).
Proof.
  intros Ha. assert (is_continuation a = false) as Hc by (by apply ascii_not_continuation, graphic_ascii).
  unfold trim, trim_start. rewrite (split_chars_last s a Hc), drop_while_end_kept; [done|].
  by apply graphic_not_whitespace.
Qed.
Lemma trim_framed a s c : is_ascii_graphic a = true -> is_ascii_graphic c = true ->
  trim (String.String a (String.append s (String.String c ""))) = String.String a (String.append s (String.String c "")).
Proof.
  intros Ha Hc. rewrite <- str_app_cons, trim_end_kept, str_app_cons by done. unfold trim_start.
  destruct (split_chars_first a (String.append s (String.String c "")) Ha) as (x & xs & Hs & Hx).
  rewrite Hs. simpl. rewrite Hx. change (concat_chars (x :: xs) = String.String a (String.append s (String.String c ""))).
  by rewrite <- Hs, concat_split_chars.
Qed.
Lemma trim_space s : starts_continuation s = false -> trim (String.String " " s) = trim s.
Proof.
  intros Hs. destruct s as [|a s]; [done|].
  assert (exists c cs, split_chars (String.String a s) = c :: cs /\ starts_continuation c = false) as (c & cs & E & Hc).
  { simpl. destruct (split_chars s) as [|d ds]; [by eauto|]. destruct (starts_continuation d); eauto. }
  unfold trim. cbn [split_chars] in *. rewrite E, Hc. cbn [drop_while_end].
  destruct (drop_while_end is_whitespace cs); [|done]. by destruct (is_whitespace c).
Qed.
Lemma text_start s : is_text s -> starts_continuation s = false.
Proof.
  unfold is_text. rewrite decode_step. destruct s as [|a s]; [done|]. simpl.
  destruct (is_continuation a) eqn:Hc; [|done]. unfold is_continuation, in_range in Hc.
  assert (utf8_width a = 0%nat) as ->; [|done]. unfold utf8_width, in_range. repeat case_match; lia.
Qed.
Lemma text_app s t : is_text s -> is_text t -> is_text (String.append s t).
Proof. unfold is_text. intros Hs Ht. rewrite decode_app, Hs. simpl. by rewrite str_app_nil_l, Ht. Qed.
Lemma text_ascii s : str_forall is_ascii s = true -> is_text s.
Proof. apply decode_ascii. Qed.

(** *** The headers of an encoded part *)
Lemma split_lines_done fuel s : no_char CR s -> split_lines fuel s = [s].
Proof.
  intros Hs. destruct fuel as [|fuel]; [done|]. simpl.
  assert (find CRLF s = None) as ->; [|done].
  pose proof (find_line CR (String.String LF "") s "" Hs) as H. rewrite str_app_nil_r in H.
  change CRLF with (String.String CR (String.String LF "")). by rewrite H.
Qed.
Lemma split_lines_step fuel s t : no_char CR s ->
  split_lines (S fuel) (String.append s (String.append CRLF t)) = s :: split_lines fuel t.
Proof.
  intros Hs. cbn [split_lines].
  assert (find CRLF (String.append s (String.append CRLF t)) = Some (String.length s)) as ->.
  { change CRLF with (String.String CR (String.String LF "")) at 1. rewrite find_line by done.
    rewrite crlf_app. simpl. f_equal. lia. }
  rewrite str_drop_add, str_drop_length_app, crlf_app. simpl. rewrite str_take_app, str_take_all by done. done.
Qed.

Lemma unquote_quoted s : unquote (String.append quote (String.append s quote)) = s.
Proof.
  unfold unquote. rewrite strip_prefix_app. simpl. by rewrite (proj2 (strip_suffix_some _ _ s) eq_refl).
Qed.
Lemma unquote_plain s : no_char (byte 34) s -> unquote s = s.
Proof.
  intros Hs. unfold unquote. destruct s as [|a s]; [done|]. unfold no_char in Hs. simpl in Hs.
  apply andb_true_iff in Hs as [Ha%negb_true_iff _]. unfold quote. simpl. by rewrite Ascii.eqb_sym, Ha.
Qed.
Lemma trim_quoted s : trim (String.append quote (String.append s quote)) = String.append quote (String.append s quote).
Proof. unfold quote. simpl. rewrite str_app_cons, str_app_nil_l. by apply trim_framed. Qed.
End Parts.

Section Headers.
Implicit Types (p : FormPart).

Definition param_token (name value : string) : string :=
  String.append name (String.String "=" (String.append quote (String.append value quote))).
Lemma split_once_split c s : split_on c s =
  match split_once c s with Some (x, y) => x :: split_on c y | None => [s] end.
Proof.
  induction s as [|a s IH]; [done|]. cbn [split_on split_once]. destruct (Ascii.eqb a c).
  - destruct (split_on_cons c s) as (p & ps & ->). done.
  - rewrite IH. by destruct (split_once c s) as [[x y]|].
Qed.
Lemma split_once_char c s x y : split_once c s = Some (x, y) -> s = String.append x (String.String c y) /\ no_char c x.
Proof.
  revert x. induction s as [|a s IH]; intros x; [done|]. cbn [split_once]. destruct (Ascii.eqb_spec a c) as [->|Ha].
  - by intros [= <- <-].
  - destruct (split_once c s) as [[u v]|]; [|done]. intros [= <- <-]. destruct (IH u eq_refl) as [-> Hu].
    split; [done|]. unfold no_char in *. cbn [str_forall]. rewrite Hu, andb_true_r. by destruct (Ascii.eqb_spec a c).
Qed.
Lemma split_once_no c s : split_once c s = None -> no_char c s.
Proof.
  unfold no_char. induction s as [|a s IH]; [done|]. cbn [split_once str_forall]. destruct (Ascii.eqb_spec a c); [done|].
  destruct (split_once c s) as [[u v]|]; [done|]. intros _. by rewrite IH.
Qed.
Lemma no_char_app c s t : no_char c (String.append s t) <-> no_char c s /\ no_char c t.
Proof. unfold no_char. by rewrite str_forall_app, andb_true_iff. Qed.

(** A value that opens with a quote and holds no other keeps its quote. *)
Lemma trim_first a s : is_ascii_graphic a = true ->
  exists t u, trim (String.String a s) = String.String a t /\ s = String.append t u.
Proof.
  intros Ha. assert (exists x cs, split_chars (String.String a s) = String.String a x :: cs) as (x & cs & Hs).
  { cbn [split_chars]. destruct (split_chars s) as [|c cs]; [eauto|]. destruct (starts_continuation c); eauto. }
  destruct (split_chars_first a s Ha) as (c & cs' & Hs' & Hw). rewrite Hs in Hs'. injection Hs' as <- <-.
  destruct (drop_while_end_prefix is_whitespace cs) as [k Hk].
  exists (String.append x (concat_chars (drop_while_end is_whitespace cs))), (concat_chars k). split.
  - unfold trim. rewrite Hs. cbn [drop_while_end]. rewrite Hw.
    assert (match drop_while_end is_whitespace cs with [] => [String.String a x] | r => String.String a x :: r end =
            String.String a x :: drop_while_end is_whitespace cs) as -> by by destruct (drop_while_end is_whitespace cs).
    cbn [drop_while]. by rewrite Hw.
  - pose proof (concat_split_chars (String.String a s)) as H. rewrite Hs in H.
    change (String.append (String.String a x) (concat_chars cs) = String.String a s) in H.
    rewrite str_app_cons in H. injection H as <-. rewrite Hk at 1. by rewrite concat_chars_app, str_app_assoc.
Qed.
Lemma trim_open s : no_char (byte 34) s ->
  exists t, trim (String.append quote s) = String.append quote t /\ no_char (byte 34) t.
Proof.
  intros Hs. destruct (trim_first (byte 34) s eq_refl) as (t & u & Ht & ->). apply no_char_app in Hs as [Hs _].
  by exists t.
Qed.
Lemma unquote_open s : no_char (byte 34) s -> unquote (trim (String.append quote s)) = trim (String.append quote s).
Proof.
  intros Hs. destruct (trim_open s Hs) as (t & -> & Ht). unfold unquote. rewrite strip_prefix_app. cbn [mbind option_bind].
  destruct (strip_suffix quote t) as [v|] eqn:E; [|done].
  apply strip_suffix_some in E as ->. apply no_char_app in Ht as [_ Ht]. by vm_compute in Ht.
Qed.

(** The pieces of a parameter: the first gives its value, no other gives one
    unless the value holds an equals sign. *)
Lemma param_pieces name value : no_char ";" name -> no_char "=" name -> str_forall name_char value = true ->
  exists first rest, split_on ";" (param_token name value) = first :: rest /\
    (forall toks param, disposition_value (first :: toks) param =
       if eq_ignore_ascii_case (trim name) param then Some (cut_name value) else disposition_value toks param) /\
    (no_char ";" value \/ no_char "=" value -> Forall (no_char "=") rest).
Proof.
  intros Hs He Hv. unfold param_token, cut_name. destruct (split_once ";" value) as [[front back]|] eqn:E.
  - apply split_once_char in E as [-> Hf]. eexists _, _. rewrite (str_app_assoc front), str_app_cons.
    assert (forall z, String.append name (String.String "=" (String.append quote (String.append front (String.String ";" z)))) =
      String.append (String.append name (String.String "=" (String.append quote front))) (String.String ";" z)) as ->.
    { intros z. rewrite !str_app_assoc, str_app_cons, !str_app_assoc. done. }
    rewrite split_on_app.
    2: { rewrite no_char_app. split; [done|]. unfold no_char in *. cbn [str_forall]. by rewrite str_forall_app, Hf. }
    split_and!; [done| |].
    + intros toks param. cbn [disposition_value]. rewrite split_once_at by done. rewrite unquote_open; [done|].
      rewrite str_forall_app in Hv. apply andb_true_iff in Hv as [Hv _]. revert Hv. apply no_char_forall.
      intros a Ha ->. by vm_compute in Ha.
    + intros Hor. assert (no_char "=" back) as Hb.
      { destruct Hor as [[_ Hor]%no_char_app|[_ Hor]%no_char_app]; unfold no_char in Hor; cbn [str_forall] in Hor; [done|].
        by apply andb_true_iff in Hor as [_ Hor]. }
      assert (no_char "=" (String.append back quote)) as Hbq by (rewrite no_char_app; by split).
      clear -Hbq. revert Hbq. generalize (String.append back quote). intros s.
      induction s as [|a s IH]; [by repeat constructor|]. unfold no_char. cbn [str_forall split_on].
      rewrite andb_true_iff. intros [Ha Hs]. specialize (IH Hs). destruct (split_on ";" s) as [|p ps]; [by repeat constructor|].
      inversion IH as [|?? Hp Hps]; subst. destruct (Ascii.eqb a ";"); constructor; [done|by constructor| |done].
      unfold no_char in *. cbn [str_forall]. by rewrite Ha, Hp.
  - apply split_once_no in E. eexists _, _. rewrite split_on_no_sep.
    2: { rewrite no_char_app. split; [done|]. unfold no_char in *. cbn [str_forall]. by rewrite !str_forall_app, E. }
    split_and!; [done| |by constructor].
    intros toks param. cbn [disposition_value]. by rewrite split_once_at, trim_quoted, unquote_quoted.
Qed.
Lemma disposition_value_skip rest toks param :
  Forall (no_char "=") rest -> disposition_value (rest ++ toks) param = disposition_value toks param.
Proof. induction 1 as [|s rest Hs _ IH]; [done|]. cbn [app disposition_value]. by rewrite split_once_none. Qed.
Lemma split_on_concat c s t : split_on c (String.append s (String.String c t)) = split_on c s ++ split_on c t.
Proof.
  induction s as [|a s IH].
  - rewrite str_app_nil_l. cbn [split_on]. rewrite Ascii.eqb_refl. by destruct (split_on_cons c t) as (p & ps & ->).
  - rewrite str_app_cons. cbn [split_on]. rewrite IH. destruct (split_on_cons c s) as (p & ps & ->). cbn [app].
    by destruct (Ascii.eqb a c).
Qed.
(** Only the name [file] reads as [file]. *)
Lemma cut_name_file s : str_forall name_char s = true -> String.eqb (cut_name s) "file" = String.eqb s "file".
Proof.
  intros Hs. unfold cut_name. destruct (split_once ";" s) as [[front back]|] eqn:E; [|done].
  apply split_once_char in E as [-> _]. rewrite str_forall_app in Hs. apply andb_true_iff in Hs as [Hs _].
  destruct (trim_open front) as (t & -> & _).
  { revert Hs. apply no_char_forall. intros a Ha ->. by vm_compute in Ha. }
  change (String.eqb (String.append quote t) "file") with false. symmetry. apply String.eqb_neq. intros Hf.
  assert (no_char ";" "file") as Hno by done. rewrite <- Hf in Hno. apply no_char_app in Hno as [_ Hno]. done.
Qed.

Lemma disposition_value_form toks param : disposition_value ("form-data" :: toks) param = disposition_value toks param.
Proof. done. Qed.

Lemma disposition_tokens p :
  disposition_of p =
  String.append "form-data" (String.String ";"
    match fp_filename p with
    | Some f => String.append (param_token " name" (fp_name p)) (String.String ";" (param_token " filename" f))
    | None => param_token " name" (fp_name p)
    end).
Proof.
  unfold disposition_of, param_token. destruct (fp_filename p); simpl; autorewrite with str; rewrite ?str_app_nil_r;
    rewrite ?str_app_assoc; autorewrite with str; done.
Qed.
Lemma disposition_params b p : part_ok b p ->
  disposition_param (disposition_of p) "filename" = cut_name <$> fp_filename p /\
  disposition_param (disposition_of p) "name" = Some (cut_name (fp_name p)).
Proof.
  intros (((Hn & _) & Hplain) & Hf & _). unfold disposition_param. rewrite disposition_tokens.
  rewrite split_on_app by done. destruct (param_pieces " name" (fp_name p) eq_refl eq_refl Hn) as (x & rest & Hx & Hval & Hrest).
  specialize (Hrest Hplain). destruct (fp_filename p) as [f|].
  - destruct Hf as [Hf _]. rewrite split_on_concat, Hx.
    destruct (param_pieces " filename" f eq_refl eq_refl Hf) as (y & rest' & Hy & Hval' & _). rewrite Hy.
    split; rewrite disposition_value_form; cbn [app]; rewrite Hval; [|done].
    change (eq_ignore_ascii_case (trim " name") "filename") with false. by rewrite disposition_value_skip, Hval'.
  - rewrite Hx. split; rewrite disposition_value_form, Hval; [|done].
    change (eq_ignore_ascii_case (trim " name") "filename") with false.
    rewrite <- (app_nil_r rest). by rewrite disposition_value_skip.
Qed.

(** The value of a field starts with a space. *)
Lemma disposition_trimmed p : trim (String.String " " (disposition_of p)) = disposition_of p.
Proof.
  assert (exists s, disposition_of p = String.String "f" (String.append s quote)) as [s ->].
  { rewrite disposition_tokens. destruct (fp_filename p) as [f|].
    - exists (String.append "orm-data" (String.String ";" (String.append (param_token " name" (fp_name p))
               (String.String ";" (String.append " filename" (String.String "=" (String.append quote f))))))).
      unfold param_token. by repeat (rewrite str_app_assoc || rewrite str_app_cons).
    - exists (String.append "orm-data" (String.String ";" (String.append " name" (String.String "=" (String.append quote (fp_name p)))))).
      unfold param_token. by repeat (rewrite str_app_assoc || rewrite str_app_cons). }
  rewrite trim_space by done. by apply trim_framed.
Qed.
(** Text is put together from text. *)
#[local] Ltac text := repeat match goal with |- is_text (String.append _ _) => apply text_app end; try done; try (by apply text_ascii).
Lemma disposition_text b p : part_ok b p -> is_text (disposition_of p).
Proof.
  intros (((_ & Hn) & _) & Hf & _). unfold disposition_of. destruct (fp_filename p) as [f|]; simpl;
    [destruct Hf as [_ Hf]|]; text.
Qed.

Lemma header_text b p : part_ok b p -> is_text (header_block p).
Proof.
  intros Hp. unfold header_block. text; [by eapply disposition_text|].
  destruct Hp as (_ & _ & Ht & _). destruct (fp_type p) as [t|]; [|done].
  text. apply Ht.
Qed.
Lemma lossy_text s : is_text s -> from_utf8_lossy s = s.
Proof. intros Hs. unfold from_utf8_lossy. by rewrite Hs. Qed.

Definition field_lines p : list string :=
  String.append "Content-Disposition" (String.String ":" (String.String " " (disposition_of p))) ::
  match fp_type p with Some t => [String.append "Content-Type" (String.String ":" (String.String " " t))] | None => [] end.
Lemma header_lines b p n : part_ok b p -> (0 < n)%nat -> split_lines n (header_block p) = field_lines p.
Proof.
  intros Hp Hn. destruct n as [|n]; [lia|]. pose proof (disposition_no_cr _ _ Hp) as Hd. unfold no_char in Hd.
  unfold header_block, field_lines. destruct Hp as (_ & _ & Ht & _). destruct (fp_type p) as [t|].
  - destruct Ht as (Ht & _). unfold no_char in Ht. rewrite split_lines_step, split_lines_done; [done| |];
      unfold no_char; rewrite str_forall_app; by rewrite ?Ht, ?Hd.
  - rewrite str_app_nil_r, split_lines_done; [done|]. unfold no_char. rewrite str_forall_app. by rewrite Hd.
Qed.
Lemma headers_read b p : part_ok b p -> part_headers (field_lines p) "" None = (disposition_of p, fp_type p).
Proof.
  intros (_ & _ & Ht & _). unfold field_lines. cbn [part_headers]. rewrite split_once_at, disposition_trimmed by done.
  cbn [part_headers eq_ignore_ascii_case]. destruct (fp_type p) as [t|]; [|done].
  destruct Ht as (_ & Htext & Htrim). cbn [part_headers].
  rewrite split_once_at, trim_space, Htrim by (done || by apply text_start). done.
Qed.

Lemma find_field t :
  find (String.String CR (String.String LF CRLF)) (String.append CRLF (String.String "C" t)) =
  (fun i => (2 + i)%nat) <$> find (String.String CR (String.String LF CRLF)) (String.String "C" t).
Proof.
  rewrite crlf_app. rewrite (find_skip _ (String.String CR _) 2); [done|simpl; lia|]. intros [|[|k]] Hk; [done..|lia].
Qed.
Lemma part_splits b p : part_ok b p -> split_part (part_text p) = Some (header_block p, fp_content p).
Proof.
  intros Hp. unfold split_part, part_text.
  assert (strip_prefix CRLF (String.append (header_block p) (String.append CRLF (String.append CRLF (fp_content p)))) = None)
    as ->. { unfold header_block. by rewrite !str_app_cons. }
  unfold find_from. cbn [is_empty]. rewrite str_drop_0.
  assert (find (String.append CRLF CRLF) (String.append (header_block p) (String.append CRLF (String.append CRLF (fp_content p))))
          = Some (String.length (header_block p))) as ->.
  { pose proof (disposition_no_cr _ _ Hp) as Hd. unfold no_char in Hd.
    assert (forall s, find (String.append CRLF CRLF) (String.append CRLF (String.append CRLF s)) = Some 0%nat) as Hend.
    { intros s. rewrite <- str_app_assoc. apply find_here. }
    unfold header_block. destruct Hp as (_ & _ & Ht & _). rewrite (crlf_app CRLF) in *. destruct (fp_type p) as [t|].
    - destruct Ht as (Ht & _). unfold no_char in Ht. rewrite !str_app_assoc, <- (str_app_assoc "Content-Disposition: ").
      rewrite find_line by (unfold no_char; by rewrite str_forall_app, Hd).
      assert (forall s, find (String.String CR (String.String LF CRLF)) (String.append CRLF (String.append "Content-Type: " s))
        = (fun i => (2 + i)%nat) <$> find (String.String CR (String.String LF CRLF)) (String.append "Content-Type: " s)) as ->.
      { intros s. rewrite (str_app_cons "C"). apply find_field. }
      rewrite <- (str_app_assoc "Content-Type: "), find_line by (unfold no_char; by rewrite str_forall_app, Ht).
      rewrite Hend, !str_length_app. simpl. f_equal. lia.
    - rewrite str_app_nil_r, find_line by (unfold no_char; by rewrite str_forall_app, Hd).
      rewrite Hend. simpl. f_equal. lia. }
  assert ((String.length (String.append (header_block p) (String.append CRLF (String.append CRLF (fp_content p)))) <? 0)%nat = false) as ->
    by by apply Nat.ltb_ge; lia.
  simpl. rewrite Nat.add_0_r, str_take_app, str_take_all by done.
  by rewrite str_drop_add, str_drop_length_app, !crlf_app.
Qed.

Theorem file_of_part_text b p : part_ok b p -> file_of_part (part_text p) = Some (file_part p, Some (cut_name (fp_name p))).
Proof.
  intros Hp. unfold file_of_part. rewrite (part_splits b) by done. simpl.
  rewrite lossy_text by (by eapply header_text). rewrite (header_lines b) by (done || unfold header_block; rewrite !str_app_cons; simpl; lia).
  rewrite (headers_read b) by done. destruct (disposition_params b p Hp) as [-> ->]. done.
Qed.
End Headers.

Section Forms.
Context (b : string) (Hb : boundary_ok b).

Lemma str_take_length_app s t : str_take (String.length s) (String.append s t) = s.
Proof. by rewrite str_take_app, str_take_all. Qed.

Lemma bracketed_part pre part Z :
  let enc := String.append (delimiter_of b) (String.append CRLF (String.append part CRLF)) in
  bracketed (String.append pre (String.append enc Z)) (delimiter_of b) (String.length pre)
    (String.length pre + String.length enc) = Part part.
Proof.
  intros enc. set (body := String.append pre (String.append enc Z)).
  set (after := (String.length pre + String.length (delimiter_of b))%nat).
  assert (str_drop after body = String.append CRLF (String.append part (String.append CRLF Z))) as Hafter.
  { unfold after, body, enc. rewrite str_drop_add, str_drop_length_app, !str_app_assoc. by rewrite str_drop_length_app. }
  assert (String.length enc = String.length (delimiter_of b) + 2 + String.length part + 2)%nat as Henc.
  { unfold enc. rewrite !str_length_app. simpl. lia. }
  unfold bracketed. fold after. rewrite Hafter.
  assert (forall n, skip_padding n body after (String.length pre + String.length enc) = after) as Hskip.
  { intros [|n]; [done|]. cbn [skip_padding]. rewrite Hafter, crlf_app. by destruct (_ <? _)%nat. }
  rewrite Hskip, Hafter. rewrite crlf_app at 1. cbn [starts_with].
  replace (String.length pre + String.length enc - after)%nat
    with (String.length (String.append CRLF (String.append part CRLF))) by (rewrite Henc, !str_length_app; unfold after; simpl; lia).
  rewrite <- (str_app_assoc part CRLF), <- (str_app_assoc CRLF (String.append part CRLF)), str_take_length_app.
  rewrite (proj2 (starts_with_spec CRLF _)) by eauto.
  rewrite (proj2 (Nat.ltb_ge _ after)) by (unfold after; lia). cbn [orb negb].
  rewrite (proj2 (Nat.ltb_ge _ 2)) by lia. rewrite (proj2 (Nat.ltb_ge _ (after + 2))) by (unfold after; lia).
  replace (String.length pre + String.length enc - 2 - (after + 2))%nat with (String.length part) by (unfold after; lia).
  rewrite str_drop_add, Hafter, crlf_app. simpl. by rewrite str_take_length_app.
Qed.

Fixpoint file_among (ps : list FormPart) (fallback : option MultipartFile) : option MultipartFile :=
  match ps with
  | [] => fallback
  | p :: ps =>
      if has_filename p then Some (file_part p)
      else file_among ps (match fallback with
                          | Some f => Some f
                          | None => if String.eqb (fp_name p) "file" then Some (file_part p) else None
                          end)
  end.
Lemma file_among_form ps fallback :
  file_among ps fallback =
  match List.find has_filename ps with
  | Some p => Some (file_part p)
  | None => match fallback with Some f => Some f | None => file_part <$> List.find (fun p => String.eqb (fp_name p) "file") ps end
  end.
Proof.
  revert fallback. induction ps as [|p ps IH]; intros fallback; simpl; [by destruct fallback|].
  destruct (has_filename p); [done|]. rewrite IH. destruct (List.find has_filename ps); [done|].
  destruct fallback; [done|]. by destruct (String.eqb (fp_name p) "file").
Qed.

Lemma offsets_cons o ps : exists os, offsets b o ps = o :: os.
Proof. destruct ps; simpl; eauto. Qed.
Lemma first_file_form ps pre fallback : Forall (part_ok b) ps ->
  first_file (String.append pre (encode_form b ps)) (delimiter_of b) (offsets b (String.length pre) ps) fallback =
  file_among ps fallback.
Proof.
  intros Hps. revert pre fallback. induction Hps as [|p ps Hp Hps IH]; intros pre fallback; [done|].
  rewrite encode_form_cons. specialize (IH (String.append pre (encode_form_part b p))).
  cbn [offsets]. rewrite str_length_app in IH. destruct (offsets_cons (String.length pre + String.length (encode_form_part b p)) ps) as [os Hos].
  rewrite Hos in *. cbn [first_file file_among].
  pose proof (bracketed_part pre (part_text p) (encode_form b ps)) as Hbr. cbv zeta in Hbr. fold (encode_form_part b p) in Hbr.
  rewrite Hbr, (file_of_part_text b) by done. cbn [mp_filename file_part].
  assert (bool_decide (is_Some (cut_name <$> fp_filename p)) = has_filename p) as ->.
  { unfold has_filename. by destruct (fp_filename p). }
  destruct (has_filename p); [done|]. rewrite <- IH, str_app_assoc. f_equal.
  destruct fallback; [by rewrite bool_decide_eq_false_2 by naive_solver|].
  destruct Hp as (((Hn & _) & _) & _). rewrite <- (cut_name_file (fp_name p)) by done.
  destruct (String.eqb_spec (cut_name (fp_name p)) "file") as [->|Hne]; [by rewrite bool_decide_eq_true_2|].
  rewrite bool_decide_eq_false_2; [done|]. intros [_ [= ?]]. done.
Qed.

Lemma boundary_read : multipart_boundary (form_content_type b) = Some b.
Proof.
  destruct Hb as [Hne Hg].
  assert (str_forall is_ascii_graphic b = true) as Hgraphic.
  { eapply str_forall_impl; [|exact Hg]. intros a Ha. unfold boundary_char in Ha. by rewrite !andb_true_iff in Ha; destruct Ha as [[? _] _]. }
  assert (trim b = b) as Htrim by by apply trim_graphic.
  unfold multipart_boundary, form_content_type.
  change (String.append "multipart/form-data; boundary=" b)
    with (String.append "multipart/form-data" (String.String ";" (String.String " " (String.append "boundary" (String.String "=" b))))).
  rewrite split_on_app, split_on_no_sep; [|..|done].
  2: { unfold no_char. cbn [str_forall]. rewrite str_forall_app. apply andb_true_iff. split; [done|].
       cbn. apply (no_char_forall ";" boundary_char); [|done]. intros a Ha ->. by vm_compute in Ha. }
  cbn [boundary_of]. change (eq_ignore_ascii_case (trim "multipart/form-data") "multipart/form-data") with true.
  cbv iota. rewrite trim_space by done.
  assert (str_forall is_ascii_graphic (String.append "boundary" (String.String "=" b)) = true) as Hline.
  { rewrite str_forall_app. simpl. by rewrite Hgraphic. }
  rewrite (trim_graphic _ Hline), split_once_at by done. change (eq_ignore_ascii_case (trim "boundary") "boundary") with true.
  cbn [negb]. rewrite Htrim, unquote_plain.
  2: { apply (no_char_forall _ boundary_char); [|done]. intros a Ha ->. by vm_compute in Ha. }
  rewrite (proj2 (is_empty_false b) Hne). assert (str_exists is_ascii_control b = false) as ->; [|done].
  clear Hline Htrim Hne Hg Hb. induction b as [|a s IH]; [done|]. simpl in *. apply andb_true_iff in Hgraphic as [Ha Hs].
  rewrite IH by done. rewrite orb_false_r. unfold is_ascii_graphic, is_ascii_control, in_range in *. lia.
Qed.

(** C3. Round trip of an upload: from a body built the way browsers build one -
    its parts under a boundary that no part's bytes hold at the start of a
    line, names without quotes and line ends, field names without a [;name=]
    of their own - the parser takes exactly the file of the form: the bytes
    and the type of the first part that has a file name, or of the first part
    named [file], and its file name, which the code cuts at the first
    semicolon of the name and which then keeps its opening quote. *)
Theorem upload_roundtrip ps : Forall (part_ok b) ps ->
  extract_multipart_file (encode_form b ps) (form_content_type b) = file_of_form ps.
Proof.
  intros Hps. unfold extract_multipart_file. rewrite boundary_read. cbn [mbind option_bind].
  rewrite delimiter_positions_spec by (done || lia).
  pose proof (form_positions b Hb ps "" Hps (or_introl eq_refl)) as Hpos. cbv zeta in Hpos.
  rewrite !str_app_nil_l in Hpos. cbn [String.length] in Hpos.
  rewrite Hpos. pose proof (first_file_form ps "" None Hps) as Hf.
  rewrite str_app_nil_l in Hf. cbn [String.length] in Hf. rewrite Hf. apply file_among_form.
Qed.
End Forms.

Definition sample_form : list FormPart :=
  [{| fp_name := "title; draft"; fp_filename := None; fp_type := None; fp_content := "see --xyz" |};
   {| fp_name := "upload"; fp_filename := Some "q1;total=9.bin"; fp_type := Some "application/octet-stream";
      fp_content := bytes [0; 255; 13; 10; 45; 45; 120; 13; 10] |}].
Lemma upload_roundtrip_witness :
  (boundary_ok "xyz" /\ Forall (part_ok "xyz") sample_form) /\
  extract_multipart_file (encode_form "xyz" sample_form) (form_content_type "xyz") =
  Some {| mp_content := bytes [0; 255; 13; 10; 45; 45; 120; 13; 10]; mp_filename := Some (String.append quote "q1");
          mp_content_type := Some "application/octet-stream" |}.
Proof.
  assert (boundary_ok "xyz") as Hb by by split.
  assert (Forall (part_ok "xyz") sample_form) as Hp.
  { repeat constructor; try done; try (right; done); by left. }
  split; [done|]. exact (upload_roundtrip "xyz" Hb _ Hp).
Defined.

(** Browsers do not escape a semicolon in a file name; the parser cuts the
    quoted value there and keeps the quote it starts with. *)
Theorem semicolon_cuts_filename :
  extract_multipart_file
    (encode_form "xyz" [{| fp_name := "file"; fp_filename := Some "a;b.txt"; fp_type := None; fp_content := "x" |}])
    (form_content_type "xyz") =
  Some {| mp_content := "x"; mp_filename := Some (String.append quote "a"); mp_content_type := None |}.
Proof. by vm_compute. Qed.
