(* ===== verification/Records.v ===== *)
(** * Database records ([util.rs])

    JSON coercions and the typed field access of a database row.  A row's
    columns are a map from column names to JSON values. *)
From Stdlib Require Import String.
From S2P Require Import Prelude Ints Str Contracts SampleLib.

(** [serde_json]: what the code reads of a number besides [as_i64], and its
    parser. *)
Class JsonScalars (JN : JsonNumbers) := {
  number_as_u64 : Number -> option Z;
  (** [n.as_f64().unwrap_or(0.0) != 0.0] *)
  number_f64_nonzero : Number -> bool;
  json_from_str : string -> option Value;
}.

(** [as_u64] answers what [as_i64] does of a number that is not negative. *)
Class JsonScalarLaws {JN : JsonNumbers} (JS : JsonScalars JN) := {
  number_as_u64_i64 : forall n z, number_as_i64 n = Some z -> 0 <= z -> number_as_u64 n = Some z;
  number_as_u64_range : forall n z, number_as_u64 n = Some z -> in_u64 z = true;
}.

(** [wafer_run::ErrorCode], the codes the code distinguishes. *)
Inductive ErrorCode := NotFound | InvalidArgument | FailedPrecondition | Internal
| Unauthenticated | PermissionDenied | AlreadyExists | ResourceExhausted | Unavailable
| Cancelled | DeadlineExceeded | OtherCode (name : string).
#[export] Instance error_code_eq_dec : EqDecision ErrorCode.
Proof. solve_decision. Defined.

(** [wafer_run::WaferError]: of the metadata the code reads the detail code
    only ([detail_code], [with_detail_code]). *)
Record WaferError := { we_code : ErrorCode; we_message : string; we_detail : option string }.
Definition wafer_error (c : ErrorCode) (m : string) : WaferError :=
  {| we_code := c; we_message := m; we_detail := None |}.
Definition with_detail_code (e : WaferError) (detail : string) : WaferError :=
  {| we_code := we_code e; we_message := we_message e; we_detail := Some detail |}.

Abbreviation WResult := (outcome WaferError).

Section Records.
Context {JN : JsonNumbers} {JS : JsonScalars JN}.

(** [wafer_core::clients::database::Record] *)
Record Row := { row_id : string; row_data : gmap string Value }.

(** [Option::or_else] *)
Definition or_else {A} (o o' : option A) : option A :=
  match o with Some a => Some a | None => o' end.

Definition json_as_i64 (v : Value) : option Z :=
  or_else (as_i64 v) (s ← as_str v; parse_i64 s).

(** [str::parse::<u64>]: a leading plus is allowed. *)
Definition parse_u64 (s : string) : option Z :=
  match s with
  | String.String "+" s => parse_digits in_u64 s
  | _ => parse_digits in_u64 s
  end.

Definition as_u64_value (v : Value) : option Z :=
  match v with VNumber n => number_as_u64 n | _ => None end.

Definition json_as_u64 (v : Value) : option Z :=
  or_else (as_u64_value v) (s ← as_str v; parse_u64 s).

Definition flag_is_set (v : Value) : bool :=
  match v with
  | VBool b => b
  | VNumber n =>
      match number_as_i64 n with Some i => negb (i =? 0) | None => number_f64_nonzero n end
  | VString s => String.eqb s "true" || String.eqb s "1"
  | _ => false
  end.

(** [RecordExt] *)
Definition str_field (record : Row) (key : string) : string :=
  default "" (v ← row_data record !! key; as_str v).
Definition opt_str_field (record : Row) (key : string) : option string :=
  match row_data record !! key with Some (VString value) => Some value | _ => None end.
Definition opt_i64_field (record : Row) (key : string) : option Z :=
  v ← row_data record !! key; json_as_i64 v.
Definition i64_field (record : Row) (key : string) : Z := default 0 (opt_i64_field record key).
Definition u64_field (record : Row) (key : string) : Z :=
  default 0 (v ← row_data record !! key; json_as_u64 v).
Definition bool_field (record : Row) (key : string) : bool :=
  match row_data record !! key with Some v => flag_is_set v | None => false end.

(** [serde_json::Value::get] with a string index, and [is_object]. *)
Definition value_get (key : string) (v : Value) : option Value :=
  match v with
  | VObject fields => snd <$> List.find (fun f => String.eqb f.1 key) fields
  | _ => None
  end.
Definition is_object (v : Value) : bool := match v with VObject _ => true | _ => false end.

(** [serde_json::json!] of an [i64]. *)
Definition json_i64 (z : Z) : Value := VNumber (number_from_i64 z).
End Records.

(** An enumeration stored by its [serde] spelling: [serde_json::to_value] and
    [from_value] of a unit variant. *)
Class Wire (T : Type) := {
  wire : T -> string;
  wire_parse : string -> option T;
  wire_roundtrip : forall t, wire_parse (wire t) = Some t;
  wire_parse_spelling : forall s t, wire_parse s = Some t -> s = wire t;
}.

(** [enum_column]: the typed value of a text column. *)
Definition enum_column {T} `{JsonNumbers, Wire T, DebugFmt} (record : Row) (column : string) : WResult T :=
  let value := str_field record column in
  ok_or (wire_parse value)
    (wafer_error Internal
       (String.concat "" ["row "; row_id record; " holds "; column; " "; debug_str value;
                          ", which the contract does not define"])).

(** [enum_column_or]: an empty column is [empty]. *)
Definition enum_column_or {T} `{JsonNumbers, Wire T, DebugFmt} (record : Row) (column : string) (empty : T) : WResult T :=
  if is_empty (str_field record column) then Ok empty else enum_column record column.

(** The spelling of an enumeration given by its list of variants. *)
Definition parse_variant {T} (spelling : T -> string) (variants : list T) (s : string) : option T :=
  List.find (fun t => String.eqb (spelling t) s) variants.

Lemma parse_variant_spelling {T} (spelling : T -> string) variants s t :
  parse_variant spelling variants s = Some t -> s = spelling t.
Proof. intros [_ He]%List.find_some. by apply String.eqb_eq in He. Qed.

Section RecordLemmas.
Context {JN : JsonNumbers} {JS : JsonScalars JN} {NL : JsonNumberLaws JN}.

Lemma as_i64_json z : in_i64 z = true -> as_i64 (json_i64 z) = Some z.
Proof. apply number_i64_roundtrip. Qed.

Lemma wire_inj {T} `{Wire T} (a b : T) : wire a = wire b -> a = b.
Proof. intros He. apply (f_equal wire_parse) in He. rewrite !wire_roundtrip in He. congruence. Qed.

Lemma wire_eqb {T} `{Wire T, EqDecision T} (a b : T) : String.eqb (wire a) (wire b) = bool_decide (a = b).
Proof.
  destruct (String.eqb_spec (wire a) (wire b)) as [He|He]; case_bool_decide as Hd; try done.
  - by apply wire_inj in He.
  - by subst.
Qed.
End RecordLemmas.

(** ** Concrete instance *)
#[export] Instance sample_scalars : JsonScalars sample_numbers := {|
  number_as_u64 := checked in_u64;
  number_f64_nonzero := fun n => negb (n =? 0);
  json_from_str := fun s => if String.eqb s "null" then Some VNull else None;
|}.
#[export] Instance sample_scalar_laws : JsonScalarLaws sample_scalars.
Proof.
  split; simpl; unfold checked.
  - intros n z Hn Hz. destruct (in_i64 n) eqn:Hr; [|done]. injection Hn as ->.
    apply in_i64_spec in Hr. assert (in_u64 z = true) as -> by (apply in_u64_spec; unfold i64_max, u64_max in *; lia).
    done.
  - intros n z. destruct (in_u64 n) eqn:Hr; [|done]. by intros [= <-].
Qed.
