(* ===== verification/R2.v ===== *)
(** * Streamed uploads into R2 ([impresspress-cloudflare/src/storage.rs])

    A body of unknown length goes into the bucket as a multipart upload of
    equal parts, or as one buffered write when it does not fill a part.  The
    bucket is Cloudflare's: its calls are steps that may fail, a failed one even
    after it was applied. *)
From Stdlib Require Import String.
From S2P Require Import Prelude Ints Contracts Str Records Streaming.

(** ** The bucket

    What this handler's calls leave in it: its multipart uploads that are open,
    the objects it committed, the uploads it asked the bucket to abort, those
    that a failed call created, whose identifiers it never learns, and those the
    bucket refused to hand back, so that no abort can be asked. *)
Record Upload := { u_key : string; u_type : string; u_parts : gmap Z string }.
Record Commit := { c_key : string; c_data : string; c_type : string }.
Record BucketState := { uploads : gmap nat Upload; commits : list Commit; released : list nat; lost : list nat; refused : list nat }.

(** The calls of [worker::Bucket] and [worker::MultipartUpload].  An error is its
    text; an uploaded part is its number. *)
Inductive r2_call : Type -> Type :=
| R2Put (key data content_type : string) : r2_call unit
| R2Create (key content_type : string) : r2_call nat
| R2UploadPart (upload : nat) (number : Z) (data : string) : r2_call Z
| R2Complete (upload : nat) (parts : list Z) : r2_call unit
| R2Resume (key : string) (upload : nat) : r2_call nat
| R2Abort (upload : nat) : r2_call unit.
Inductive r2_prog (A : Type) : Type :=
| R2Done (a : A)
| R2Do {R : Type} (c : r2_call R) (k : outcome string R -> r2_prog A).
Arguments R2Done {A} a.
Arguments R2Do {A R} c k.
Fixpoint r2_bind {A C} (f : A -> r2_prog C) (p : r2_prog A) : r2_prog C :=
  match p with
  | R2Done a => f a
  | R2Do c k => R2Do c (fun r => r2_bind f (k r))
  end.
#[global] Instance r2_mbind : MBind r2_prog := @r2_bind.
Definition r2 {R} (c : r2_call R) : r2_prog (outcome string R) := R2Do c R2Done.

(** R2's limits: part numbers from 1 to 10000, and every part but the last of
    one size of at least 5 MiB. *)
Definition R2_MAX_PARTS : Z := 10000.
Definition R2_MIN_PART : Z := 5 * 1024 * 1024.
Definition uniform (parts : list string) : Prop :=
  exists size, R2_MIN_PART <= size /\ forall i part, parts !! i = Some part -> (S i < length parts)%nat -> str_len part = size.
(** What a completed upload holds. *)
Definition assembled (u : Upload) (numbers : list Z) : option (list string) := mapM (fun n => u_parts u !! n) numbers.

Definition with_uploads (s : BucketState) (u : gmap nat Upload) : BucketState :=
  {| uploads := u; commits := commits s; released := released s; lost := lost s; refused := refused s |}.
Definition with_commit (s : BucketState) (c : Commit) : BucketState :=
  {| uploads := uploads s; commits := commits s ++ [c]; released := released s; lost := lost s; refused := refused s |}.
Definition with_released (s : BucketState) (upload : nat) : BucketState :=
  {| uploads := uploads s; commits := commits s; released := upload :: released s; lost := lost s; refused := refused s |}.
Definition with_lost (s : BucketState) (upload : nat) : BucketState :=
  {| uploads := uploads s; commits := commits s; released := released s; lost := upload :: lost s; refused := refused s |}.
Definition with_refused (s : BucketState) (upload : nat) : BucketState :=
  {| uploads := uploads s; commits := commits s; released := released s; lost := lost s; refused := upload :: refused s |}.

Definition failed {A} (r : outcome string A) : Prop := exists e, r = Err e.
Definition r2_step {R} (c : r2_call R) (s : BucketState) : outcome string R -> BucketState -> Prop :=
  match c in r2_call R return outcome string R -> BucketState -> Prop with
  | R2Put key data content_type => fun r s' =>
      let after := with_commit s {| c_key := key; c_data := data; c_type := content_type |} in
      r = Ok tt /\ s' = after \/ failed r /\ (s' = s \/ s' = after)
  | R2Create key content_type => fun r s' =>
      exists id, uploads s !! id = None /\ id ∉ released s /\
        let after := with_uploads s (<[id := {| u_key := key; u_type := content_type; u_parts := ∅ |}]> (uploads s)) in
        (r = Ok id /\ s' = after \/ failed r /\ (s' = s \/ s' = with_lost after id))
  | R2UploadPart upload number data => fun r s' =>
      match uploads s !! upload with
      | Some u =>
          let after := with_uploads s (<[upload := {| u_key := u_key u; u_type := u_type u; u_parts := <[number := data]> (u_parts u) |}]> (uploads s)) in
          1 <= number <= R2_MAX_PARTS /\ r = Ok number /\ s' = after \/ failed r /\ (s' = s \/ s' = after)
      | None => failed r /\ s' = s
      end
  | R2Complete upload numbers => fun r s' =>
      failed r /\ s' = s \/
      exists u parts, uploads s !! upload = Some u /\ assembled u numbers = Some parts /\ uniform parts /\ parts <> [] /\
        s' = with_commit (with_uploads s (delete upload (uploads s)))
               {| c_key := u_key u; c_data := concat_chars parts; c_type := u_type u |} /\
        (r = Ok tt \/ failed r)
  | R2Resume key upload => fun r s' => r = Ok upload /\ s' = s \/ failed r /\ s' = with_refused s upload
  | R2Abort upload => fun r s' =>
      let after := with_released (with_uploads s (delete upload (uploads s))) upload in
      r = Ok tt /\ s' = after \/ failed r /\ (s' = with_released s upload \/ s' = after)
  end.

(** A bucket that refuses only what it must. *)
Definition prompt_step {R} (c : r2_call R) (s : BucketState) (r : outcome string R) (s' : BucketState) : Prop :=
  r2_step c s r s' /\ (failed r -> forall r' s'', r2_step c s r' s'' -> failed r').

(** A run of a handler in a bucket. *)
Definition bucket : Type := forall R, r2_call R -> BucketState -> outcome string R -> BucketState -> Prop.
Fixpoint r2_runs (step : bucket) {A} (p : r2_prog A) (s : BucketState) (a : A) (s' : BucketState) : Prop :=
  match p with
  | R2Done x => a = x /\ s' = s
  | R2Do c k => exists r s1, step _ c s r s1 /\ r2_runs step (k r) s1 a s'
  end.

(** ** The service *)
Definition PART_SIZE : Z := 8 * 1024 * 1024.
Inductive StorageError := NotFoundError | InternalError (text : string) | BodyBroken (e : WaferError).

Definition prefixed_key (folder key : string) : string := concat_chars [folder; "/"; key].
Definition begin_multipart (r2_key content_type : string) : r2_prog (outcome StorageError nat) :=
  r ← r2 (R2Create r2_key content_type); R2Done (map_err InternalError r).
Definition r2_put (folder key data content_type : string) : r2_prog (outcome StorageError unit) :=
  r ← r2 (R2Put (prefixed_key folder key) data content_type); R2Done (map_err InternalError r).

(** What the pump has: the bytes that fill no part yet, the upload once there
    is one, its parts, and the next part's number. *)
Record Pump := { acc : UploadPartBuffer; upload : option nat; parts : list Z; next_part : Z }.
Definition upload_part_error (r2_key e : string) : StorageError :=
  InternalError (concat_chars ["R2 upload_part "; r2_key; ": "; e]).

(** [while let Some(part_bytes) = acc.take_part()]: every turn takes a part off
    the buffer. *)
Fixpoint pump_parts (fuel : nat) (r2_key content_type : string) (p : Pump) : r2_prog (Pump * outcome StorageError unit) :=
  match fuel with
  | O => R2Done (p, Panic)
  | S fuel =>
      match take_part (acc p) with
      | None => R2Done (p, Ok tt)
      | Some (part_bytes, acc) =>
          let p := {| acc := acc; upload := upload p; parts := parts p; next_part := next_part p |} in
          started ← match upload p with
                    | Some id => R2Done (Ok id)
                    | None => begin_multipart r2_key content_type
                    end;
          match started with
          | Ok id =>
              uploaded ← r2 (R2UploadPart id (next_part p) part_bytes);
              match uploaded with
              | Ok part =>
                  pump_parts fuel r2_key content_type
                    {| acc := acc; upload := Some id; parts := parts p ++ [part]; next_part := next_part p + 1 |}
              | Err e =>
                  R2Done ({| acc := acc; upload := Some id; parts := parts p; next_part := next_part p |},
                          Err (upload_part_error r2_key e))
              | Panic => R2Done (p, Panic)
              end
          | Err e => R2Done (p, Err e)
          | Panic => R2Done (p, Panic)
          end
      end
  end.
Fixpoint pump (r2_key content_type : string) (data : list (WResult string)) (p : Pump) {struct data}
  : r2_prog (Pump * outcome StorageError unit) :=
  match data with
  | [] => R2Done (p, Ok tt)
  | chunk :: data =>
      match chunk with
      | Ok chunk =>
          let acc := upload_push (acc p) chunk in
          out ← pump_parts (S (Z.to_nat (buffered_len acc))) r2_key content_type
                  {| acc := acc; upload := upload p; parts := parts p; next_part := next_part p |};
          let '(p, r) := out in
          match r with Ok _ => pump r2_key content_type data p | _ => R2Done (p, r) end
      | Err e => R2Done (p, Err (BodyBroken e))
      | Panic => R2Done (p, Panic)
      end
  end.

(** The trailing part, and the commit. *)
Definition finish_multipart (r2_key : string) (mp : nat) (p : Pump) : r2_prog (outcome StorageError unit) :=
  let tail := upload_finish (acc p) in
  flushed ← (if is_empty tail then R2Done (Ok (parts p))
             else
               uploaded ← r2 (R2UploadPart mp (next_part p) tail);
               match uploaded with
               | Ok part => R2Done (Ok (parts p ++ [part]))
               | Err e => _ ← r2 (R2Abort mp); R2Done (Err (upload_part_error r2_key e))
               | Panic => R2Done Panic
               end);
  match flushed with
  | Ok parts =>
      completed ← r2 (R2Complete mp parts);
      match completed with
      | Ok _ => R2Done (Ok tt)
      | Err e =>
          resumed ← r2 (R2Resume r2_key mp);
          _ ← match resumed with Ok id => r2 (R2Abort id) | _ => R2Done (Ok tt) end;
          R2Done (Err (InternalError (concat_chars ["R2 complete multipart "; r2_key; ": "; e])))
      | Panic => R2Done Panic
      end
  | Err e => R2Done (Err e)
  | Panic => R2Done Panic
  end.

Definition put_streaming (folder key : string) (data : list (WResult string)) (content_type : string)
  : r2_prog (outcome StorageError unit) :=
  let r2_key := prefixed_key folder key in
  match upload_new PART_SIZE with
  | Ok acc0 =>
      out ← pump r2_key content_type data {| acc := acc0; upload := None; parts := []; next_part := 1 |};
      let '(p, pumped) := out in
      match pumped with
      | Ok _ =>
          match upload p with
          | None => r2_put folder key (upload_finish (acc p)) content_type
          | Some mp => finish_multipart r2_key mp p
          end
      | Err e =>
          match upload p with
          | Some mp => _ ← r2 (R2Abort mp); R2Done (Err e)
          | None => R2Done (Err e)
          end
      | Panic => R2Done Panic
      end
  | _ => R2Done Panic
  end.

(** ** What a run leaves in the bucket *)
Fixpoint body_of (data : list (WResult string)) : option string :=
  match data with
  | [] => Some ""
  | Ok chunk :: data => String.append chunk <$> body_of data
  | _ :: _ => None
  end.

Section Runs.
Context (step : bucket).
Hypothesis Hstep : forall R (c : r2_call R) s r s', step R c s r s' -> r2_step c s r s'.
Context (r2_key content_type : string) (s0 : BucketState) (unit_size : Z).
Hypothesis Hunit : 0 < unit_size.
Implicit Types (p : Pump) (s : BucketState) (id : nat).

Lemma r2_runs_bind {A C} (m : r2_prog A) (f : A -> r2_prog C) s c s' :
  r2_runs step (m ≫= f) s c s' <-> exists a s1, r2_runs step m s a s1 /\ r2_runs step (f a) s1 c s'.
Proof.
  revert s. induction m as [a|R cl k IH]; intros s; simpl.
  - split; [intros H; by exists a, s|by intros (a' & s1 & [-> ->] & H)].
  - split.
    + intros (r & s1 & Hc & H). apply IH in H as (a & s2 & H1 & H2). exists a, s2. split; [by exists r, s1|done].
    + intros (a & s2 & (r & s1 & Hc & H1) & H2). exists r, s1. split; [done|]. apply IH. by exists a, s2.
Qed.

Definition numbers (n : nat) : list Z := map Z.of_nat (List.seq 1 n).
Lemma numbers_S n : numbers (S n) = numbers n ++ [Z.of_nat (S n)].
Proof. unfold numbers. by rewrite List.seq_S, map_app. Qed.
Lemma assembled_other u u' l : (forall n, n ∈ l -> u_parts u' !! n = u_parts u !! n) -> assembled u' l = assembled u l.
Proof.
  unfold assembled. induction l as [|n l IH]; intros Hl; [done|]. simpl. rewrite (Hl n) by (by left).
  destruct (u_parts u !! n); [|done]. simpl. rewrite IH; [done|]. intros m Hm. apply Hl. by right.
Qed.
Lemma assembled_app u l l' ps ps' : assembled u l = Some ps -> assembled u l' = Some ps' -> assembled u (l ++ l') = Some (ps ++ ps').
Proof. unfold assembled. rewrite !mapM_Some. apply Forall2_app. Qed.
Lemma assembled_next u n ps part :
  assembled u (numbers n) = Some ps ->
  assembled {| u_key := u_key u; u_type := u_type u; u_parts := <[Z.of_nat (S n) := part]> (u_parts u) |} (numbers (S n)) = Some (ps ++ [part]).
Proof.
  intros H. rewrite numbers_S. apply assembled_app.
  - rewrite <- H. apply assembled_other. intros m (k & -> & Hk)%list_elem_of_fmap. cbn [u_parts]. apply lookup_insert_ne.
    apply list_elem_of_In, List.in_seq in Hk. lia.
  - unfold assembled. cbn -[Z.of_nat]. by rewrite lookup_insert_eq.
Qed.
Lemma assembled_length u l ps : assembled u l = Some ps -> length ps = length l.
Proof. unfold assembled. intros H%mapM_Some. symmetry. by eapply Forall2_length. Qed.

(** The uploads that the handler may leave open. *)
Definition others_open (known : list nat) s : Prop :=
  forall id, is_Some (uploads s !! id) -> is_Some (uploads s0 !! id) \/ id ∈ known \/ id ∈ lost s.

(** What the pump has done with the bytes that arrived. *)
Definition sending (p : Pump) s (id : nat) (ps : list string) : Prop :=
  exists u, uploads s !! id = Some u /\ u_key u = r2_key /\ u_type u = content_type /\
    parts p = numbers (length ps) /\ next_part p = 1 + Z.of_nat (length ps) /\ assembled u (parts p) = Some ps /\
    Forall (fun part => str_len part = unit_size) ps.
Definition pumped (arrived : string) p s : Prop :=
  part_size (acc p) = unit_size /\ commits s = commits s0 /\ released s = released s0 /\
  match upload p with
  | None => parts p = [] /\ next_part p = 1 /\ arrived = buf (acc p) /\ others_open [] s
  | Some id => others_open [id] s /\ exists ps, sending p s id ps /\ ps <> [] /\ arrived = String.append (concat_chars ps) (buf (acc p))
  end.
(** What is left when it stops on an error. *)
Definition stopped p s : Prop :=
  commits s = commits s0 /\ others_open (match upload p with None => [] | Some id => [id] end) s.

Lemma others_open_insert known known' s s' id u :
  others_open known s -> (forall i, i ∈ known -> i ∈ known' \/ i ∈ lost s') -> (forall i, i ∈ lost s -> i ∈ lost s') ->
  id ∈ known' \/ id ∈ lost s' -> uploads s' = <[id := u]> (uploads s) -> others_open known' s'.
Proof.
  intros Ho Hk Hl Hid Hu i [x Hx]. rewrite Hu in Hx. apply lookup_insert_Some in Hx as [[<- _]|[_ Hi]]; [by right|].
  destruct (Ho i) as [?|[?|?]]; [by exists x|by left|by right; auto|by right; right; auto].
Qed.

Definition prompt : Prop := forall R (c : r2_call R) s r s', step R c s r s' -> prompt_step c s r s'.
Definition within_limits (arrived : string) : Prop := str_len arrived <= R2_MAX_PARTS * unit_size.

Lemma str_len_concat ps size : Forall (fun part => str_len part = size) ps -> str_len (concat_chars ps) = size * Z.of_nat (length ps).
Proof.
  unfold str_len. induction 1 as [|part ps Hp _ IH]; simpl; [lia|]. rewrite str_length_app. lia.
Qed.

(** One part goes to an upload that is open. *)
Lemma upload_part_runs p s id ps part r s' :
  sending p s id ps -> commits s = commits s0 -> released s = released s0 -> others_open [id] s ->
  step _ (R2UploadPart id (next_part p) part) s r s' ->
  commits s' = commits s0 /\ released s' = released s0 /\ others_open [id] s' /\
  match r with
  | Ok n => n = next_part p /\ exists u, uploads s' !! id = Some u /\ u_key u = r2_key /\ u_type u = content_type /\
      assembled u (parts p ++ [n]) = Some (ps ++ [part])
  | Err _ => next_part p <= R2_MAX_PARTS -> ~ prompt
  | Panic => False
  end.
Proof.
  intros (u & Hu & Hk & Ht & Hparts & Hnext & Has & Hlen) Hc Hr Ho Hs. pose proof (Hstep _ _ _ _ _ Hs) as Hs'. simpl in Hs'.
  rewrite Hu in Hs'. set (u' := {| u_key := u_key u |}) in *.
  assert (others_open [id] (with_uploads s (<[id := u']> (uploads s)))) as Ho'.
  { eapply (others_open_insert [id]); [exact Ho|by left|done|left; by left|done]. }
  assert (next_part p <= R2_MAX_PARTS -> exists s'', r2_step (R2UploadPart id (next_part p) part) s (Ok (next_part p)) s'') as Hgood.
  { intros Hle. simpl. rewrite Hu. eexists. left. split; [lia|]. by split. }
  destruct Hs' as [(_ & -> & ->)|[[e ->] Hs']].
  - simpl. do 3 (split; [done|]). split; [done|]. exists u'. split; [by rewrite lookup_insert_eq|]. do 2 (split; [done|]).
    unfold u'. rewrite Hnext, Hparts in *. replace (1 + Z.of_nat (length ps)) with (Z.of_nat (S (length ps))) by lia.
    rewrite <- numbers_S. by apply assembled_next.
  - assert (commits s' = commits s0 /\ released s' = released s0 /\ others_open [id] s') as (? & ? & ?) by (by destruct Hs' as [->| ->]).
    do 3 (split; [done|]). intros [s'' Hg]%Hgood Hp. destruct (Hp _ _ _ _ _ Hs) as [_ Hf].
    by destruct (Hf (ex_intro _ e eq_refl) _ _ Hg).
Qed.

Lemma pump_parts_runs fuel p s arrived p' r s' :
  pumped arrived p s -> str_len (buf (acc p)) < Z.of_nat fuel ->
  r2_runs step (pump_parts fuel r2_key content_type p) s (p', r) s' ->
  stopped p' s' /\ match r with
    | Ok _ => pumped arrived p' s' /\ str_len (buf (acc p')) < unit_size
    | Err e => within_limits arrived -> ~ prompt
    | Panic => False
    end.
Proof.
  revert p s. induction fuel as [|fuel IH]; intros p s Hp Hfuel; [unfold str_len in Hfuel; lia|].
  pose proof Hp as (Hsz & Hc & Hr & Hup). cbn [pump_parts]. unfold take_part. rewrite Hsz.
  destruct (Z.leb_spec unit_size (str_len (buf (acc p)))) as [Hle|Hlt]; cycle 1.
  { intros [[= -> ->] ->]. split; [|done]. split; [done|]. destruct (upload p); [by destruct Hup as [? _]|by destruct Hup as (_ & _ & _ & ?)]. }
  set (n := Z.to_nat unit_size). set (part := str_take n (buf (acc p))). set (rest := str_drop n (buf (acc p))).
  set (acc' := {| part_size := unit_size; buf := rest |}). cbv zeta.
  assert (str_len part = unit_size /\ str_len rest < Z.of_nat fuel) as [Hpart Hrest].
  { unfold str_len, part, rest in *. rewrite str_take_length, str_drop_length; unfold n in *; lia. }
  assert (forall id ps s1, sending p s1 id ps -> commits s1 = commits s0 -> released s1 = released s0 -> others_open [id] s1 ->
    arrived = String.append (concat_chars ps) (buf (acc p)) ->
    r2_runs step (uploaded ← r2 (R2UploadPart id (next_part p) part);
      match uploaded with
      | Ok part => pump_parts fuel r2_key content_type
          {| acc := acc'; upload := Some id; parts := parts p ++ [part]; next_part := next_part p + 1 |}
      | Err e => R2Done ({| acc := acc'; upload := Some id; parts := parts p; next_part := next_part p |},
                         Err (upload_part_error r2_key e))
      | Panic => R2Done ({| acc := acc'; upload := upload p; parts := parts p; next_part := next_part p |}, Panic)
      end) s1 (p', r) s' ->
    stopped p' s' /\ match r with
      | Ok _ => pumped arrived p' s' /\ str_len (buf (acc p')) < unit_size
      | Err e => within_limits arrived -> ~ prompt
      | Panic => False
      end) as Hgo.
  { intros id ps s1 Hsend Hc1 Hr1 Ho1 Harr (x & s2 & Hs & Hrun).
    destruct (upload_part_runs p s1 id ps part x s2 Hsend Hc1 Hr1 Ho1 Hs) as (Hc2 & Hr2 & Ho2 & Hx).
    destruct Hsend as (u & Hu & Hk & Ht & Hparts & Hnext & Has & Hlen).
    destruct x as [m|e|]; [| |done].
    - destruct Hx as (-> & u' & Hu' & Hk' & Ht' & Has'). eapply IH; [| |exact Hrun]; [|exact Hrest].
      split; [done|]. split; [done|]. split; [done|]. split; [done|]. exists (ps ++ [part]).
      assert (concat_chars (ps ++ [part]) = String.append (concat_chars ps) part) as Hcat.
      { rewrite concat_chars_app. simpl. by rewrite str_app_nil_r. }
      split; [|split].
      + exists u'. cbn [parts next_part]. split_and!; try done.
        * rewrite Hparts, Hnext, length_app. simpl length. replace (length ps + 1)%nat with (S (length ps)) by lia.
          rewrite numbers_S. do 2 f_equal. lia.
        * rewrite Hnext, length_app. simpl. lia.
        * apply Forall_app. by split; [|constructor].
      + by destruct ps.
      + cbn [acc buf acc']. rewrite Hcat, Harr, str_app_assoc. unfold part, rest. by rewrite str_take_drop.
    - destruct Hrun as [[= -> ->] ->]. split; [done|]. intros Hlim. apply Hx.
      unfold within_limits in Hlim. rewrite Harr in Hlim. unfold str_len in Hlim, Hle. rewrite str_length_app in Hlim.
      pose proof (str_len_concat ps unit_size Hlen) as Hcat. unfold str_len in Hcat. rewrite Hnext. nia. }
  destruct (upload p) as [id|] eqn:Hid.
  - destruct Hup as (Ho & ps & Hsend & _ & Harr). intros Hrun. by apply (Hgo id ps s).
  - destruct Hup as (Hparts & Hnext & Harr & Ho). intros (x & s1 & Hs & Hrun). cbn [r2_bind] in Hrun.
    pose proof (Hstep _ _ _ _ _ Hs) as Hs'. simpl in Hs'. destruct Hs' as (id & Hfree & Hnr & Hs').
    set (u0 := {| u_key := r2_key; u_type := content_type; u_parts := ∅ |}) in *.
    destruct Hs' as [[-> ->]|[[e ->] Hs1]].
    + apply (Hgo id [] (with_uploads s (<[id := u0]> (uploads s)))); try done.
      * exists u0. rewrite Hparts, Hnext. cbn [uploads with_uploads]. rewrite lookup_insert_eq. by split_and!.
      * eapply (others_open_insert []); [exact Ho|by intros i ?%elem_of_nil|done|left; by left|done].
    + destruct Hrun as [[= -> ->] ->]. split.
      * split; [by destruct Hs1 as [->| ->]|]. cbn [upload]. destruct Hs1 as [->| ->]; [done|].
        eapply (others_open_insert []); [exact Ho|by intros i ?%elem_of_nil|by right|right; by left|done].
      * intros _ Hpr. destruct (Hpr _ _ _ _ _ Hs) as [_ Hf].
        destruct (Hf (ex_intro _ e eq_refl) (Ok id) (with_uploads s (<[id := u0]> (uploads s)))) as [? [=]].
        exists id. split; [done|]. split; [done|]. by left.
Qed.

Lemma pump_runs data p s arrived p' r s' :
  pumped arrived p s -> str_len (buf (acc p)) < unit_size ->
  r2_runs step (pump r2_key content_type data p) s (p', r) s' ->
  stopped p' s' /\ match r with
    | Ok _ => exists body, body_of data = Some body /\ pumped (String.append arrived body) p' s' /\ str_len (buf (acc p')) < unit_size
    | Err e => forall body, body_of data = Some body -> within_limits (String.append arrived body) -> ~ prompt
    | Panic => Panic ∈ data
    end.
Proof.
  revert p s arrived. induction data as [|chunk data IH]; intros p s arrived Hp Hlen; cbn [pump].
  { intros [[= -> ->] ->]. split; [|exists ""; by rewrite str_app_nil_r].
    destruct Hp as (_ & Hc & _ & Hup). split; [done|]. destruct (upload p); [by destruct Hup as [? _]|by destruct Hup as (_ & _ & _ & ?)]. }
  assert (stopped p s) as Hstop.
  { destruct Hp as (_ & Hc & _ & Hup). split; [done|]. destruct (upload p); [by destruct Hup as [? _]|by destruct Hup as (_ & _ & _ & ?)]. }
  destruct chunk as [chunk|e|]; [|by intros [[= -> ->] ->]|intros [[= -> ->] ->]; by split; [|left]].
  intros ([p1 r1] & s1 & H1 & H2)%r2_runs_bind. cbv zeta in H1.
  destruct (pump_parts_runs (S (Z.to_nat (buffered_len (upload_push (acc p) chunk)))) {| acc := upload_push (acc p) chunk; upload := upload p; parts := parts p; next_part := next_part p |}
    s (String.append arrived chunk) p1 r1 s1) as [Hstop1 Hr1]; [| |exact H1|].
  - destruct Hp as (Hsz & Hc & Hr & Hup). split; [done|]. do 2 (split; [done|]). cbn [upload acc upload_push buf].
    destruct (upload p) as [id|].
    + destruct Hup as (Ho & ps & Hs & Hne & ->). split; [done|]. exists ps. split; [done|]. split; [done|]. by rewrite str_app_assoc.
    + by destruct Hup as (? & ? & -> & ?).
  - cbn [acc]. unfold buffered_len. pose proof (str_len_nonneg (buf (upload_push (acc p) chunk))). lia.
  - destruct r1 as [u|e|]; [|destruct H2 as [[= -> ->] ->]..].
    + destruct Hr1 as [Hp1 Hlen1]. destruct (IH p1 s1 _ Hp1 Hlen1 H2) as [Hst Hrest]. split; [done|]. destruct r as [v|e|].
      * destruct Hrest as (body & Hb & Hpb & Hl). exists (String.append chunk body). cbn [body_of]. rewrite Hb. split; [done|].
        by rewrite <- str_app_assoc.
      * intros body Hbody. cbn [body_of] in Hbody. destruct (body_of data) as [b|]; [|done]. injection Hbody as <-.
        rewrite <- str_app_assoc. by apply Hrest.
      * by right.
    + split; [done|]. intros body Hbody Hlim. cbn [body_of] in Hbody. destruct (body_of data) as [b|]; [|done]. injection Hbody as <-.
      apply Hr1. unfold within_limits in *. rewrite !str_len_app in *. pose proof (str_len_nonneg b). lia.
    + done.
Qed.

(** What the end of an upload leaves. *)
Definition ended (body : string) (r : outcome StorageError unit) s : Prop :=
  let whole := commits s = commits s0 ++ [{| c_key := r2_key; c_data := body; c_type := content_type |}] in
  match r with
  | Ok _ => whole
  | Err e => (commits s = commits s0 \/ whole) /\ (forall b, e <> BodyBroken b) /\ (within_limits body -> ~ prompt)
  | Panic => False
  end /\ forall id, is_Some (uploads s !! id) -> is_Some (uploads s0 !! id) \/ id ∈ released s \/ id ∈ lost s \/ id ∈ refused s.

Lemma abort_runs id s r s' :
  others_open [id] s -> step _ (R2Abort id) s r s' ->
  commits s' = commits s /\ forall i, is_Some (uploads s' !! i) -> is_Some (uploads s0 !! i) \/ i ∈ released s' \/ i ∈ lost s' \/ i ∈ refused s'.
Proof.
  intros Ho Hs%Hstep. simpl in Hs.
  assert (forall i, is_Some (uploads s !! i) -> is_Some (uploads s0 !! i) \/ i ∈ id :: released s \/ i ∈ lost s \/ i ∈ refused s) as Hopen.
  { intros i Hi. destruct (Ho i Hi) as [?|[->%list_elem_of_singleton|?]]; auto. right. left. by left. }
  assert (s' = with_released s id \/ s' = with_released (with_uploads s (delete id (uploads s))) id) as [->| ->]
    by (destruct Hs as [[_ ->]|[_ [->| ->]]]; auto).
  - done.
  - split; [done|]. intros i. cbn [uploads with_released with_uploads]. intros [x [_ Hi]%lookup_delete_Some]. apply Hopen. by exists x.
Qed.

Lemma complete_runs s id u ps body r s' nums :
  others_open [id] s -> commits s = commits s0 -> uploads s !! id = Some u -> u_key u = r2_key -> u_type u = content_type ->
  assembled u nums = Some ps -> concat_chars ps = body -> uniform ps -> ps <> [] ->
  r2_runs step (completed ← r2 (R2Complete id nums);
    match completed with
    | Ok _ => R2Done (Ok tt)
    | Err e =>
        resumed ← r2 (R2Resume r2_key id);
        _ ← match resumed with Ok id => r2 (R2Abort id) | _ => R2Done (Ok tt) end;
        R2Done (Err (InternalError (concat_chars ["R2 complete multipart "; r2_key; ": "; e])))
    | Panic => R2Done Panic
    end) s r s' -> ended body r s'.
Proof.
  intros Ho Hc Hu Hk Ht Has Hbody Huni Hne (x & s1 & Hs & Hrun). pose proof (Hstep _ _ _ _ _ Hs) as Hs1. simpl in Hs1.
  set (good := with_commit (with_uploads s (delete id (uploads s))) {| c_key := u_key u; c_data := concat_chars ps; c_type := u_type u |}).
  assert (others_open [id] good) as Hog.
  { intros i. unfold good. cbn [uploads with_commit with_uploads]. intros [y [_ Hi]%lookup_delete_Some]. apply Ho. by exists y. }
  assert (commits good = commits s0 ++ [{| c_key := r2_key; c_data := body; c_type := content_type |}]) as Hcg.
  { unfold good. simpl. by rewrite Hc, Hk, Ht, Hbody. }
  assert (s1 = s \/ s1 = good) as Hcase.
  { destruct Hs1 as [[_ ->]|(u' & ps' & Hu' & Has' & _ & _ & -> & _)]; [by left|right].
    assert (u' = u) as -> by congruence. by assert (ps' = ps) as -> by congruence. }
  assert (others_open [id] s1) as Ho1 by (by destruct Hcase as [->| ->]).
  assert (commits s1 = commits s0 \/ commits s1 = commits s0 ++ [{| c_key := r2_key; c_data := body; c_type := content_type |}]) as Hc1
    by (destruct Hcase as [->| ->]; auto).
  destruct x as [[]|e|]; cbn [r2_bind] in Hrun.
  - destruct Hrun as [-> ->]. assert (s1 = good) as ->.
    { destruct Hs1 as [[[e [=]] _]|(u' & ps' & Hu' & Has' & _ & _ & -> & _)].
      assert (u' = u) as -> by congruence. by assert (ps' = ps) as -> by congruence. }
    split; [done|]. intros i. unfold good. cbn [uploads with_commit with_uploads].
    intros [y [Hi Hy]%lookup_delete_Some]. destruct (Ho i) as [?|[->%list_elem_of_singleton|?]]; [by exists y|by left|done|by right; right; left].
  - assert (~ prompt) as Hnp.
    { intros Hpr. destruct (Hpr _ _ _ _ _ Hs) as [_ Hf]. destruct (Hf (ex_intro _ e eq_refl) (Ok tt) good) as [? [=]].
      right. exists u, ps. by split_and!; auto. }
    destruct Hrun as (y & s2 & Hs2%Hstep & Hrun). simpl in Hs2. rename Hs2 into Hy.
    assert (forall s3, commits s3 = commits s1 ->
      (forall i, is_Some (uploads s3 !! i) -> is_Some (uploads s0 !! i) \/ i ∈ released s3 \/ i ∈ lost s3 \/ i ∈ refused s3) ->
      ended body (Err (InternalError (concat_chars ["R2 complete multipart "; r2_key; ": "; e]))) s3) as Hend.
    { intros s3 Hc3 Ho3. split; [|done]. split; [by rewrite Hc3|]. by split. }
    destruct Hy as [[-> ->]|[[e' ->] ->]]; cbn [r2_bind] in Hrun.
    + destruct Hrun as (z & s2 & Hs2 & [-> ->]). apply (abort_runs id) in Hs2 as [Hc2 Ho2]; [by apply Hend|done].
    + destruct Hrun as [-> ->]. apply Hend; [done|]. intros i Hi. change (is_Some (uploads s1 !! i)) in Hi.
      destruct (Ho1 i Hi) as [?|[->%list_elem_of_singleton|?]]; [by left|right; right; right; by left|by right; right; left].
  - exfalso. destruct Hs1 as [[[e [=]] _]|(? & ? & _ & _ & _ & _ & _ & [[=]|[? [=]]])].
Qed.

Lemma finish_runs p s id body r s' :
  R2_MIN_PART <= unit_size -> upload p = Some id -> pumped body p s ->
  r2_runs step (finish_multipart r2_key id p) s r s' -> ended body r s'.
Proof.
  intros Hmin Hup (Hsz & Hc & Hr & Hp). rewrite Hup in Hp. destruct Hp as (Ho & ps & Hsend & Hne & Hbody).
  pose proof Hsend as (u & Hu & Hk & Ht & Hparts & Hnext & Has & Hlen).
  assert (forall tail, (length tail <= 1)%nat -> uniform (ps ++ tail)) as Huni.
  { intros tail Ht'. exists unit_size. split; [done|].
    intros i part Hi Hlt. rewrite length_app in Hlt. apply lookup_app_Some in Hi as [Hi|[Hi _]]; [|lia].
    rewrite Forall_lookup in Hlen. by eapply Hlen. }
  unfold finish_multipart, upload_finish. intros (flushed & s1 & Hrun1 & Hrun2)%r2_runs_bind.
  destruct (is_empty (buf (acc p))) eqn:Htail.
  - destruct Hrun1 as [-> ->]. eapply (complete_runs s id u ps); try done.
    + rewrite Hbody. destruct (buf (acc p)); [by rewrite str_app_nil_r|done].
    + rewrite <- (app_nil_r ps). apply Huni. simpl. lia.
  - destruct Hrun1 as (x & s2 & Hs & Hrun1).
    destruct (upload_part_runs p s id ps (buf (acc p)) x s2 Hsend Hc Hr Ho Hs) as (Hc2 & Hr2 & Ho2 & Hx).
    destruct x as [n|e|]; cbn [r2_bind] in Hrun1; [| |done].
    + destruct Hrun1 as [-> ->]. destruct Hx as (-> & u' & Hu' & Hk' & Ht' & Has').
      eapply (complete_runs s2 id u' (ps ++ [buf (acc p)])); try done.
      * rewrite concat_chars_app, Hbody. simpl. by rewrite str_app_nil_r.
      * apply Huni. simpl. lia.
      * by destruct ps.
    + destruct Hrun1 as (y & s3 & Hs3 & [-> ->]). destruct Hrun2 as [-> ->].
      apply (abort_runs id) in Hs3 as [Hc3 Ho3]; [|done]. split; [|done]. split; [left; congruence|]. split; [done|].
      intros Hlim. apply Hx. unfold within_limits in Hlim. rewrite Hbody, str_len_app in Hlim.
      pose proof (str_len_concat ps unit_size Hlen) as Hcat. rewrite Hnext.
      assert (0 < str_len (buf (acc p))) as Hpos by (unfold str_len; destruct (buf (acc p)); [done|simpl; lia]).
      unfold R2_MAX_PARTS in *. nia.
Qed.
End Runs.

(** ** Streamed uploads *)
Section Streamed.
Context (folder key content_type : string) (data : list (WResult string)).
Implicit Types (s : BucketState).

(** The first lemma of both theorems: how [put_streaming] ends. *)
Lemma put_streaming_runs (step : bucket) s r s' :
  (forall R (c : r2_call R) s r s', step R c s r s' -> r2_step c s r s') -> Panic ∉ data ->
  r2_runs step (put_streaming folder key data content_type) s r s' ->
  (exists body, body_of data = Some body /\ ended step (prefixed_key folder key) content_type s PART_SIZE body r s') \/
  (exists e, r = Err e) /\ commits s' = commits s /\
  (forall body, body_of data = Some body -> within_limits PART_SIZE body -> ~ prompt step) /\
  (forall id, is_Some (uploads s' !! id) -> is_Some (uploads s !! id) \/ id ∈ released s' \/ id ∈ lost s' \/ id ∈ refused s').
Proof.
  intros Hstep Hdata. unfold put_streaming. set (acc0 := {| part_size := PART_SIZE; buf := "" |}).
  change (upload_new PART_SIZE) with (@Ok unit _ acc0). cbv beta iota zeta.
  set (r2_key := prefixed_key folder key). set (p0 := {| acc := acc0; upload := None; parts := []; next_part := 1 |}).
  assert (pumped r2_key content_type s PART_SIZE "" p0 s) as Hp0.
  { do 3 (split; [done|]). do 3 (split; [done|]). intros id Hid. by left. }
  intros ([p pr] & s1 & Hrun & Hrest)%r2_runs_bind.
  destruct (pump_runs step Hstep r2_key content_type s PART_SIZE ltac:(done) data p0 s "" p pr s1 Hp0) as [[Hc Ho] Hpr]; [done|exact Hrun|].
  destruct pr as [u|e|]; [| |done].
  - destruct Hpr as (body & Hb & Hp & Hlen). rewrite str_app_nil_l in Hp. left. exists body. split; [done|].
    destruct (upload p) as [id|] eqn:Hup; [by eapply finish_runs|].
    destruct Hp as (_ & _ & Hr & Hpu). rewrite Hup in Hpu. destruct Hpu as (_ & _ & -> & _).
    destruct Hrest as (x & s2 & Hs & [-> ->]). pose proof (Hstep _ _ _ _ _ Hs) as Hs2. simpl in Hs2.
    set (good := with_commit s1 _) in Hs2. assert (commits good = commits s ++ [{| c_key := r2_key; c_data := upload_finish (acc p); c_type := content_type |}]) as Hcg.
    { unfold good. simpl. by rewrite Hc. }
    assert (forall s3, s3 = s1 \/ s3 = good -> forall id, is_Some (uploads s3 !! id) -> is_Some (uploads s !! id) \/ id ∈ released s3 \/ id ∈ lost s3 \/ id ∈ refused s3) as Hopen.
    { intros s3 Hs3 id Hid. assert (is_Some (uploads s1 !! id)) as Hid1 by (by destruct Hs3 as [->| ->]).
      destruct (Ho id Hid1) as [?|[?%elem_of_nil|?]]; [by left|done|right; right; left]. by destruct Hs3 as [->| ->]. }
    destruct Hs2 as [[-> ->]|[[e ->] Hs2]]; (split; [|apply Hopen; auto]); simpl.
    + exact Hcg.
    + split; [destruct Hs2 as [->| ->]; auto|]. split; [done|]. intros _ Hpr. destruct (Hpr _ _ _ _ _ Hs) as [_ Hf].
      destruct (Hf (ex_intro _ e eq_refl) (Ok tt) good) as [? [=]]. by left.
  - right. destruct (upload p) as [id|].
    + destruct Hrest as (x & s2 & Hs & [-> ->]). apply (abort_runs step Hstep s id) in Hs as [Hc2 Ho2]; [|done].
      split; [by eexists|]. split; [congruence|]. split; [|done]. intros body Hb Hlim. apply (Hpr body); [done|]. by rewrite str_app_nil_l.
    + destruct Hrest as [-> ->]. split; [by eexists|]. split; [done|]. split.
      * intros body Hb Hlim. apply (Hpr body); [done|]. by rewrite str_app_nil_l.
      * intros id Hid. destruct (Ho id Hid) as [?|[?%elem_of_nil|?]]; auto. done.
Qed.

(** C4. Whatever call to the bucket fails, and wherever the body breaks off, a
    streamed upload commits the whole body under its key and type, once, or
    commits nothing; it answers success only when it committed; a body that
    breaks off commits nothing; and every multipart upload it leaves open it
    asked the bucket to abort, unless it never learned its identifier or the
    bucket refused to resume it. *)
Theorem streamed_upload_is_whole s r s' (Hdata : Panic ∉ data)
  (Hrun : r2_runs (@r2_step) (put_streaming folder key data content_type) s r s') :
  let whole body := commits s' = commits s ++ [{| c_key := prefixed_key folder key; c_data := body; c_type := content_type |}] in
  (commits s' = commits s \/ exists body, body_of data = Some body /\ whole body) /\
  (r = Ok tt -> exists body, body_of data = Some body /\ whole body) /\
  ((exists e, r = Err (BodyBroken e)) -> commits s' = commits s) /\ r <> Panic /\
  forall id, is_Some (uploads s' !! id) -> is_Some (uploads s !! id) \/ id ∈ released s' \/ id ∈ lost s' \/ id ∈ refused s'.
Proof.
  destruct (put_streaming_runs (@r2_step) s r s' (fun _ _ _ _ _ H => H) Hdata Hrun)
    as [(body & Hb & He & Ho)|([e ->] & Hc & _ & Ho)]; [|by split_and!; auto; intros [=]].
  destruct r as [[]|e|]; [| |done].
  - split; [right; by exists body|]. split; [by intros _; exists body|]. split; [by intros [e [=]]|]. by split.
  - destruct He as (Hc & Hne & _). split; [destruct Hc as [Hc|Hc]; [by left|right; by exists body]|]. split; [done|].
    split; [|by split]. intros [b [= ->]]. by destruct (Hne b).
Qed.

(** C31. A bucket that refuses only what it must takes every body that arrives
    whole and fits into its ten thousand parts: the parts that are sent keep
    to its rules. *)
Theorem whole_bodies_are_taken body s r s' :
  body_of data = Some body -> str_len body <= R2_MAX_PARTS * PART_SIZE ->
  r2_runs (@prompt_step) (put_streaming folder key data content_type) s r s' -> r = Ok tt.
Proof.
  intros Hb Hlim Hrun. assert (prompt (@prompt_step)) as Hpr by (intros R c s1 r1 s2 H; exact H).
  assert (Panic ∉ data) as Hdata.
  { clear -Hb. revert body Hb. induction data as [|[chunk|e|] l IH]; intros body Hb Hin; [by apply elem_of_nil in Hin| |discriminate Hb..].
    simpl in Hb. destruct (body_of l) as [b|]; [|discriminate Hb]. apply elem_of_cons in Hin as [[=]|Hin]. by apply (IH b). }
  destruct (put_streaming_runs (@prompt_step) s r s' (fun _ _ _ _ _ H => proj1 H) Hdata Hrun)
    as [(body' & Hb' & He & Ho)|([e ->] & Hc & Hno & Ho)].
  - assert (body' = body) as -> by congruence. destruct r as [[]|e|]; [done| |done]. by destruct He as (_ & _ & []).
  - by destruct (Hno body Hb Hlim).
Qed.
End Streamed.

(** ** Runs of a body of two parts *)
Section TwoParts.
Context (step : bucket) (P folder key content_type : string) (HP : str_len P = PART_SIZE).
Let r2_key := prefixed_key folder key.
Definition part_buffer (b : string) : UploadPartBuffer := {| part_size := PART_SIZE; buf := b |}.

Lemma take_full : take_part (part_buffer P) = Some (P, part_buffer "").
Proof.
  unfold take_part. cbn [part_size buf part_buffer]. rewrite HP, Z.leb_refl.
  assert (Z.to_nat PART_SIZE = String.length P) as -> by (rewrite <- HP; unfold str_len; lia).
  assert (str_drop (String.length P) P = "") as Hd by by (clear; induction P).
  pose proof (str_take_drop (String.length P) P) as Ht. rewrite Hd, str_app_nil_r in Ht. by rewrite Ht, Hd.
Qed.
Lemma pump_parts_short n p b : acc p = part_buffer b -> str_len b < PART_SIZE ->
  pump_parts (S n) r2_key content_type p = R2Done (p, Ok tt).
Proof.
  intros Hb Hlt. cbn [pump_parts]. rewrite Hb. unfold take_part. cbn [part_size buf part_buffer].
  by rewrite (proj2 (Z.leb_gt _ _) Hlt).
Qed.

Lemma two_parts s id s1 s2 r s3 :
  step _ (R2Create r2_key content_type) s (Ok id) s1 -> step _ (R2UploadPart id 1 P) s1 (Ok 1) s2 ->
  r2_runs step (finish_multipart r2_key id {| acc := part_buffer "t"; upload := Some id; parts := [1]; next_part := 2 |}) s2 r s3 ->
  r2_runs step (put_streaming folder key [Ok P; Ok "t"] content_type) s r s3.
Proof.
  intros Hc Hu Hf. unfold put_streaming. change (upload_new PART_SIZE) with (@Ok unit _ (part_buffer "")). cbv beta iota zeta.
  fold r2_key. apply r2_runs_bind. set (p := {| acc := part_buffer "t" |}) in *. exists (p, Ok tt), s2. split; [|exact Hf].
  assert (str_len "t" < PART_SIZE /\ str_len "" < PART_SIZE) as [Ht He] by done.
  cbn [pump]. apply r2_runs_bind.
  exists ({| acc := part_buffer ""; upload := Some id; parts := [1]; next_part := 2 |}, Ok tt), s2. split.
  - cbn [pump_parts acc]. unfold upload_push. cbn [part_buffer buf part_size upload parts next_part]. rewrite str_app_nil_l.
    fold (part_buffer P). rewrite take_full. cbv beta iota zeta. cbn [acc upload parts next_part].
    eexists _, s1. split; [exact Hc|]. cbn [r2_bind]. eexists _, s2. split; [exact Hu|]. cbn [r2_bind].
    destruct (Z.to_nat (buffered_len (part_buffer P))) as [|n] eqn:Hn.
    { exfalso. unfold buffered_len, part_buffer in Hn. cbn [buf] in Hn. rewrite HP in Hn. clear -Hn.
      assert (0 < PART_SIZE) by done. lia. }
    cbn [r2_mbind mbind r2_bind]. by rewrite (pump_parts_short n _ "").
  - cbn [pump upload parts next_part acc]. unfold upload_push. cbn [part_buffer buf part_size]. rewrite str_app_nil_l.
    fold (part_buffer "t"). rewrite (pump_parts_short _ _ "t") by done. by split.
Qed.
End TwoParts.

Definition empty_bucket : BucketState := {| uploads := ∅; commits := []; released := []; lost := []; refused := [] |}.
Definition cat_upload (parts : gmap Z string) : Upload := {| u_key := "photos/cat"; u_type := "image/png"; u_parts := parts |}.
Definition cat_sent (parts : gmap Z string) : BucketState := with_uploads empty_bucket {[ 0%nat := cat_upload parts ]}.
Definition cat_body (P : string) : list (WResult string) := [Ok P; Ok "t"].

Section Cat.
Context (P : string) (HP : str_len P = PART_SIZE).
Definition both_parts : gmap Z string := <[2 := "t"]> {[ 1 := P ]}.

Lemma cat_created : prompt_step (R2Create "photos/cat" "image/png") empty_bucket (Ok 0%nat) (cat_sent ∅).
Proof.
  split; [|by intros [e [=]]]. exists 0%nat. split; [done|]. split; [apply not_elem_of_nil|by left].
Qed.
Lemma cat_part parts number data : 1 <= number <= R2_MAX_PARTS ->
  prompt_step (R2UploadPart 0 number data) (cat_sent parts) (Ok number) (cat_sent (<[number := data]> parts)).
Proof.
  intros Hn. split; [|by intros [e [=]]]. simpl. rewrite lookup_singleton_eq. left. split; [done|]. split; [done|].
  unfold cat_sent, with_uploads. simpl. by rewrite insert_singleton_eq.
Qed.
Lemma cat_whole : body_of (cat_body P) = Some (String.append P "t").
Proof. done. Qed.
Lemma cat_runs (step : bucket) r s' :
  (forall R (c : r2_call R) s r s', prompt_step c s r s' -> step R c s r s') ->
  r2_runs step (completed ← r2 (R2Complete 0 [1; 2]);
    match completed with
    | Ok _ => R2Done (Ok tt)
    | Err e =>
        resumed ← r2 (R2Resume "photos/cat" 0);
        _ ← match resumed with Ok id => r2 (R2Abort id) | _ => R2Done (Ok tt) end;
        R2Done (Err (InternalError (concat_chars ["R2 complete multipart "; "photos/cat"; ": "; e])))
    | Panic => R2Done Panic
    end) (cat_sent both_parts) r s' ->
  r2_runs step (put_streaming "photos" "cat" (cat_body P) "image/png") empty_bucket r s'.
Proof.
  intros Hle Hrun. apply (two_parts step P _ _ _ HP _ 0 (cat_sent ∅) (cat_sent {[ 1 := P ]})).
  - apply Hle, cat_created.
  - apply Hle. by apply (cat_part ∅).
  - unfold finish_multipart. apply r2_runs_bind. exists (Ok [1; 2]), (cat_sent both_parts). split; [|exact Hrun].
    exists (Ok 2), (cat_sent both_parts). split; [|done]. apply Hle. by apply (cat_part {[ 1 := P ]}).
Qed.
Lemma cat_assembled : assembled (cat_upload both_parts) [1; 2] = Some [P; "t"].
Proof. done. Qed.
Lemma cat_uniform : uniform [P; "t"].
Proof.
  exists PART_SIZE. split; [done|]. intros [|[|i]] part Hi Hlt; [|simpl in Hlt; lia..]. by injection Hi as <-.
Qed.

Definition cat_stored : BucketState :=
  {| uploads := delete 0%nat (uploads (cat_sent both_parts)); released := []; lost := []; refused := [];
     commits := [{| c_key := "photos/cat"; c_data := String.append P "t"; c_type := "image/png" |}] |}.
Lemma cat_commits : prompt_step (R2Complete 0 [1; 2]) (cat_sent both_parts) (Ok tt) cat_stored.
Proof.
  split; [|by intros [e [=]]]. right. exists (cat_upload both_parts), [P; "t"].
  split_and!; [done|apply cat_assembled|apply cat_uniform|done| |by left].
  unfold cat_stored, with_commit. cbn. by rewrite str_app_nil_r.
Qed.
(** The commit fails, and so does the abort. *)
Definition cat_orphaned : BucketState := with_released (cat_sent both_parts) 0.
Lemma cat_fails r : r = Err (InternalError "R2 complete multipart photos/cat: down") ->
  r2_runs (@r2_step) (put_streaming "photos" "cat" (cat_body P) "image/png") empty_bucket r cat_orphaned.
Proof.
  intros ->. apply cat_runs; [by intros R c s r s' [? _]|].
  exists (Err "down"), (cat_sent both_parts). split; [left; split; [by eexists|done]|].
  exists (Ok 0%nat), (cat_sent both_parts). split; [by left|].
  exists (Err "down"), cat_orphaned. split; [|done]. right. split; [by eexists|by left].
Qed.
End Cat.

Lemma a_full_part : exists P, str_len P = PART_SIZE.
Proof.
  assert (forall n, exists P, String.length P = n) as H.
  { induction n as [|n [P HP]]; [by exists ""|]. exists (String.String "a" P). simpl. by rewrite HP. }
  destruct (H (Z.to_nat PART_SIZE)) as [P HP]. exists P. unfold str_len. rewrite HP. apply Z2Nat.id. by vm_compute.
Qed.

Lemma streamed_upload_is_whole_witness : exists P, str_len P = PART_SIZE /\
  r2_runs (@r2_step) (put_streaming "photos" "cat" (cat_body P) "image/png") empty_bucket
    (Err (InternalError "R2 complete multipart photos/cat: down")) (cat_orphaned P) /\
  is_Some (uploads (cat_orphaned P) !! 0%nat) /\ lost (cat_orphaned P) = [] /\ refused (cat_orphaned P) = [] /\
  forall id, is_Some (uploads (cat_orphaned P) !! id) ->
    is_Some (uploads empty_bucket !! id) \/ id ∈ released (cat_orphaned P) \/ id ∈ lost (cat_orphaned P) \/ id ∈ refused (cat_orphaned P).
Proof.
  destruct a_full_part as [P HP]. exists P. pose proof (cat_fails P HP _ eq_refl) as Hrun.
  split; [exact HP|]. split; [exact Hrun|]. split; [by eexists|]. do 2 (split; [done|]).
  apply (streamed_upload_is_whole "photos" "cat" "image/png" (cat_body P) empty_bucket _ (cat_orphaned P)
           ltac:(by intros [[=]|[[=]|?%elem_of_nil]%elem_of_cons]%elem_of_cons) Hrun).
Defined.
Lemma whole_bodies_are_taken_witness : exists P, str_len P = PART_SIZE /\ body_of (cat_body P) = Some (String.append P "t") /\
  r2_runs (@prompt_step) (put_streaming "photos" "cat" (cat_body P) "image/png") empty_bucket (Ok tt) (cat_stored P) /\
  commits (cat_stored P) = [{| c_key := "photos/cat"; c_data := String.append P "t"; c_type := "image/png" |}] /\
  forall r s', r2_runs (@prompt_step) (put_streaming "photos" "cat" (cat_body P) "image/png") empty_bucket r s' -> r = Ok tt.
Proof.
  destruct a_full_part as [P HP]. exists P. split; [exact HP|]. split; [exact (cat_whole P)|]. split.
  { apply (cat_runs P HP); [done|]. exists (Ok tt), (cat_stored P). split; [exact (cat_commits P HP)|by split]. }
  split; [done|]. intros r s' Hrun.
  apply (whole_bodies_are_taken "photos" "cat" "image/png" (cat_body P) (String.append P "t") empty_bucket r s'); [done| |exact Hrun].
  rewrite str_len_app, HP. apply Z.leb_le. by vm_compute.
Defined.
