(* ===== verification/Llm.v ===== *)
(** * The LLM service interface and provider configuration
    ([blocks/llm/providers/config.rs], [llm_wire/openai.rs])

    The requests and chunks of [wafer_core::interfaces::llm::service], as the
    code builds and reads them, and what an operator configures of a
    provider. *)
From Stdlib Require Import String.
From S2P Require Import Prelude Ints Str Contracts.

(** [f32]: sampling parameters are copied, never computed with. *)
Class Floats := F32 : Type.

Inductive ChatRole := RoleSystem | RoleUser | RoleAssistant | RoleTool.
Inductive ContentPart :=
| PartText (s : string)
| PartImageUrl (url : string) (detail : option string)
| PartImageBytes.
Inductive ChatContent := ContentText (s : string) | ContentParts (parts : list ContentPart).

#[export] Instance chat_role_eq_dec : EqDecision ChatRole.
Proof. solve_decision. Defined.

Section Requests.
Context {JN : JsonNumbers} {FL : Floats}.

Record ToolCall := { call_id : string; call_name : string; call_arguments : Value }.
Record ToolDefinition := { tool_name : string; tool_description : string; tool_parameters : Value }.
Record ChatMessage := {
  cm_role : ChatRole;
  cm_content : ChatContent;
  cm_tool_call_id : option string;
  cm_tool_calls : list ToolCall;
}.
Inductive ResponseFormat := FormatText | FormatJson | FormatJsonSchema (schema : Value).
Record ChatParams := {
  cp_temperature : option F32;
  cp_max_tokens : option Z;
  cp_top_p : option F32;
  cp_seed : option Z;
  cp_stop_sequences : list string;
  cp_response_format : option ResponseFormat;
}.
(** [ChatParams::default()] *)
Definition default_params : ChatParams := {|
  cp_temperature := None; cp_max_tokens := None; cp_top_p := None; cp_seed := None;
  cp_stop_sequences := []; cp_response_format := None |}.
Definition with_max_tokens (n : option Z) (p : ChatParams) : ChatParams := {|
  cp_temperature := cp_temperature p; cp_max_tokens := n; cp_top_p := cp_top_p p; cp_seed := cp_seed p;
  cp_stop_sequences := cp_stop_sequences p; cp_response_format := cp_response_format p |}.
Record ChatRequest := {
  cr_backend_id : string;
  cr_model : string;
  cr_messages : list ChatMessage;
  cr_params : ChatParams;
  cr_tools : list ToolDefinition;
}.
End Requests.

(** ** Chunks *)
Inductive FinishReason := FinishStop | FinishLength | FinishToolCall | FinishContentFilter | FinishError.
#[export] Instance finish_reason_eq_dec : EqDecision FinishReason.
Proof. solve_decision. Defined.

Record TokenUsage := {
  input_tokens : Z; output_tokens : Z; cached_tokens : option Z; reasoning_tokens : option Z;
}.
Definition usage_new (input output : Z) : TokenUsage :=
  {| input_tokens := input; output_tokens := output; cached_tokens := None; reasoning_tokens := None |}.
Definition with_cached (n : Z) (u : TokenUsage) : TokenUsage :=
  {| input_tokens := input_tokens u; output_tokens := output_tokens u; cached_tokens := Some n;
     reasoning_tokens := reasoning_tokens u |}.
Definition with_reasoning (n : Z) (u : TokenUsage) : TokenUsage :=
  {| input_tokens := input_tokens u; output_tokens := output_tokens u; cached_tokens := cached_tokens u;
     reasoning_tokens := Some n |}.

Inductive ChunkDelta :=
| DeltaText (s : string)
| DeltaToolCallStart (id name : string)
| DeltaToolCallArguments (id arguments : string)
| DeltaToolCallComplete (id : string)
| DeltaEmpty.
Record ChatChunk := { delta : ChunkDelta; finish_reason : option FinishReason; usage : option TokenUsage }.

(** The constructors the decoders use. *)
Definition bare_chunk (d : ChunkDelta) : ChatChunk := {| delta := d; finish_reason := None; usage := None |}.
Definition chunk_text (s : string) : ChatChunk := bare_chunk (DeltaText s).
Definition tool_call_start (id name : string) : ChatChunk := bare_chunk (DeltaToolCallStart id name).
Definition tool_call_arguments (id args : string) : ChatChunk := bare_chunk (DeltaToolCallArguments id args).
Definition tool_call_complete (id : string) : ChatChunk := bare_chunk (DeltaToolCallComplete id).
Definition chunk_usage (u : TokenUsage) : ChatChunk :=
  {| delta := DeltaEmpty; finish_reason := None; usage := Some u |}.
Definition chunk_finish (r : FinishReason) (u : option TokenUsage) : ChatChunk :=
  {| delta := DeltaEmpty; finish_reason := Some r; usage := u |}.

(** [wafer_core::interfaces::llm::service::LlmError], the variants the
    providers answer. *)
Inductive LlmError :=
| LlmInvalidRequest (m : string) | LlmUnauthorized | LlmRateLimited | LlmNetwork (m : string)
| LlmBackendError (m : string) | LlmCancelled | LlmNotSupported.

(** ** Provider configuration *)
Inductive MaxTokensField := MaxTokens | MaxCompletionTokens.

Module MaxTokensFields.
Definition parse (s : string) : option MaxTokensField :=
  if String.eqb s "max_tokens" then Some MaxTokens
  else if String.eqb s "max_completion_tokens" then Some MaxCompletionTokens
  else None.
Definition as_str (f : MaxTokensField) : string :=
  match f with MaxTokens => "max_tokens" | MaxCompletionTokens => "max_completion_tokens" end.
End MaxTokensFields.

Inductive ProviderProtocol := OpenAi | Anthropic | OpenAiCompatible.
#[export] Instance provider_protocol_eq_dec : EqDecision ProviderProtocol.
Proof. solve_decision. Defined.

Module Protocols.
Definition parse (s : string) : option ProviderProtocol :=
  if String.eqb s "open_ai" then Some OpenAi
  else if String.eqb s "anthropic" then Some Anthropic
  else if String.eqb s "open_ai_compatible" then Some OpenAiCompatible
  else None.
Definition as_str (p : ProviderProtocol) : string :=
  match p with
  | OpenAi => "open_ai" | Anthropic => "anthropic" | OpenAiCompatible => "open_ai_compatible"
  end.
Definition accepts_max_tokens_field (p : ProviderProtocol) : bool :=
  match p with OpenAi | OpenAiCompatible => true | Anthropic => false end.

(** What is stored is what is read. *)
Lemma parse_as_str p : parse (as_str p) = Some p.
Proof. by destruct p. Qed.
Lemma as_str_parse s p : parse s = Some p -> as_str p = s.
Proof.
  unfold parse. repeat case_match; intros [= <-]; try done;
    by match goal with H : String.eqb s _ = true |- _ => apply String.eqb_eq in H as -> end.
Qed.
End Protocols.

Record ProviderConfig := {
  pc_name : string;
  pc_protocol : ProviderProtocol;
  pc_endpoint : string;
  pc_api_key : option string;
  pc_key_var : option string;
  pc_max_tokens_field : option MaxTokensField;
  pc_models : list string;
  pc_enabled : bool;
}.
Definition default_enabled : bool := true.
Definition provider_new (name : string) (protocol : ProviderProtocol) (endpoint : string) : ProviderConfig := {|
  pc_name := name; pc_protocol := protocol; pc_endpoint := endpoint; pc_api_key := None; pc_key_var := None;
  pc_max_tokens_field := None; pc_models := []; pc_enabled := true |}.

(** A request to a provider: where, with which headers, and the body. *)
Definition EncodedRequest : Type := string * gmap string string * string.
