(* ===== verification/SseDecode.v ===== *)
(** * Decoding a stream of frames into chunks
    ([llm_wire/sse.rs], the [push] of both decoders)

    A decoder is a state and a step on frames; [push] feeds one network chunk
    and decodes the frames that are complete.  However the bytes are cut, as
    long as nothing is lost, the chunks are those of the whole stream's frames
    decoded up to the terminal one. *)
From Stdlib Require Import String.
From S2P Require Import Prelude Ints Str Utf8 Sse Llm.

(** ** Replies of which nothing is lost *)
Section Intact.
Implicit Types (p s t u : string).

Lemma rfind_drop p t n i : (n <= String.length t)%nat -> rfind p (str_drop n t) = Some i -> rfind p t = Some (n + i)%nat.
Proof.
  revert t. induction n as [|n IH]; intros t Hn; [by rewrite str_drop_0|].
  destruct t as [|a t]; [simpl in Hn; lia|]. simpl in Hn. cbn [str_drop rfind]. intros H. by rewrite (IH t) by (lia || done).
Qed.
Lemma find_rfind p t k : find p t = Some k -> exists j, rfind p t = Some j /\ (k <= j)%nat.
Proof.
  revert k. induction t as [|a t IH]; intros k; cbn [find rfind].
  - destruct (starts_with p ""); [|done]. intros [= <-]. by exists 0%nat.
  - destruct (starts_with p (String.String a t)) eqn:Hp.
    + intros [= <-]. destruct (rfind p t) as [j|]; [exists (S j)|exists 0%nat]; (split; [done|lia]).
    + destruct (find p t) as [j|]; [|done]. intros [= <-]. destruct (IH j eq_refl) as (j' & -> & Hle).
      exists (S j'). split; [done|lia].
Qed.
Lemma find_within p t u i :
  find p (String.append t u) = Some i -> (i + String.length p <= String.length t)%nat -> is_Some (find p t).
Proof.
  revert i. induction t as [|a t IH]; intros i H Hle.
  - destruct p; [by exists 0%nat|simpl in Hle; lia].
  - rewrite str_app_cons in H. cbn [find] in *. rewrite <- str_app_cons in H.
    destruct (starts_with p (String.String a t)) eqn:Hp; [by eexists|].
    destruct (starts_with p (String.append (String.String a t) u)) eqn:Hp'.
    + injection H as <-. rewrite starts_with_short in Hp' by (simpl in *; lia). congruence.
    + destruct (find p (String.append t u)) as [j|] eqn:Hj; [|done]. injection H as <-.
      destruct (IH j eq_refl) as [k ->]; [simpl in Hle; lia|]. by eexists.
Qed.

(** The frame that is pending is part of what follows the last complete one. *)
Lemma pending_rest t :
  (String.length t - match rfind blank_line t with Some i => i + 2 | None => 0 end <= String.length (split_frames t).2)%nat.
Proof.
  remember (String.length t) as len eqn:Hlen. revert t Hlen. induction len as [len IH] using lt_wf_ind. intros t ->.
  rewrite split_frames_step. destruct (find blank_line t) as [sep|] eqn:Hf; [|simpl; lia].
  pose proof (find_length _ _ _ Hf) as Hl. simpl in Hl. cbn [snd].
  specialize (IH (String.length (str_drop (sep + 2) t)) ltac:(rewrite str_drop_length; lia) _ eq_refl).
  rewrite str_drop_length in IH. destruct (rfind blank_line (str_drop (sep + 2) t)) as [i|] eqn:Hr.
  - rewrite (rfind_drop _ _ (sep + 2) i) by (lia || done). lia.
  - destruct (find_rfind _ _ _ Hf) as (j & -> & Hj). lia.
Qed.
Lemma rest_no_blank t : find blank_line (split_frames t).2 = None.
Proof.
  remember (String.length t) as len eqn:Hlen. revert t Hlen. induction len as [len IH] using lt_wf_ind. intros t ->.
  rewrite split_frames_step. destruct (find blank_line t) as [sep|] eqn:Hf; [|done]. cbn [snd].
  apply find_length in Hf. simpl in Hf. refine (IH _ _ _ eq_refl). rewrite str_drop_length. lia.
Qed.

(** A body is intact when it is text, maybe but for a last character that is not
    whole, and none of its frames is over the cap. *)
Definition intact (body : string) : Prop :=
  let f := split_frames (normalise (decode body).1.1) in
  (decode body).1.2 = false /\ Forall (fun raw => Z.of_nat (String.length raw) < MAX_PENDING_FRAME_BYTES) f.1 /\
  Z.of_nat (String.length f.2) <= MAX_PENDING_FRAME_BYTES.
Definition is_intact (body : string) : bool :=
  let f := split_frames (normalise (decode body).1.1) in
  negb (decode body).1.2 && forallb (fun raw => Z.of_nat (String.length raw) <? MAX_PENDING_FRAME_BYTES) f.1 &&
  (Z.of_nat (String.length f.2) <=? MAX_PENDING_FRAME_BYTES).
Lemma is_intact_spec body : is_intact body = true -> intact body.
Proof.
  unfold is_intact, intact. cbv zeta. rewrite !andb_true_iff, negb_true_iff, Z.leb_le, forallb_forall.
  intros [[Hd Hf] Hr]. split; [done|]. split; [|done]. apply Forall_forall. intros raw Hin. apply Z.ltb_lt, Hf. by apply list_elem_of_In.
Qed.

Lemma intact_prefix whole more : intact (String.append whole more) ->
  (decode whole).1.2 = false /\
  Z.of_nat (String.length (split_frames (normalise (decode whole).1.1)).2) <= MAX_PENDING_FRAME_BYTES.
Proof.
  intros (Hd & Hf & Hr). rewrite decode_app in Hd, Hf, Hr. cbv zeta in *. cbn [fst snd] in *.
  apply orb_false_iff in Hd as [Hd _]. split; [done|].
  set (a := (decode whole).1.1) in *. set (b := (decode (String.append (decode whole).2 more)).1.1) in *.
  rewrite <- (push_chars_normalise (String.append a b) false), push_chars_app, push_chars_prefix in Hf, Hr. cbn [fst] in Hf, Hr.
  rewrite (push_chars_normalise a false) in Hf, Hr. set (u := (push_chars b "" _).1) in *.
  rewrite split_frames_app in Hf, Hr. cbv zeta in *. cbn [fst snd] in *. apply Forall_app in Hf as [_ Hf].
  set (r := (split_frames (normalise a)).2) in *. pose proof (rest_no_blank (normalise a)) as Hnb. fold r in Hnb.
  rewrite split_frames_step in Hf, Hr. destruct (find blank_line (String.append r u)) as [sep|] eqn:Hs.
  - cbn [fst] in Hf. apply Forall_cons in Hf as [Hf _]. pose proof (find_length _ _ _ Hs) as Hl. rewrite str_take_length in Hf by (simpl in Hl; lia).
    destruct (decide (sep + 2 <= String.length r)%nat) as [Hle|Hgt]; [|lia].
    destruct (find_within _ _ _ _ Hs) as [k Hk]; [simpl; lia|congruence].
  - cbn [snd] in Hr. rewrite str_length_app in Hr. lia.
Qed.

(** What a stream that follows an intact body is fed loses nothing. *)
Lemma feed_intact whole fs frames bad input more :
  tracks whole fs frames bad -> intact (String.append (String.append whole input) more) -> loss_any (feed fs input).2 = false.
Proof.
  intros (Hdrop & Hpart & Hcr & Hbuf & _ & _) [Hflag Hcap]%intact_prefix. cbv zeta in *.
  unfold feed, loss_any. rewrite feed_text_decode. cbv zeta. cbn [fst snd invalid_utf8 frame_too_large]. rewrite Hpart.
  rewrite decode_app in Hflag, Hcap. cbv zeta in *. cbn [fst snd] in *. apply orb_false_iff in Hflag as [_ ->]. cbn [orb].
  set (d' := decode (String.append (decode whole).2 input)) in *. set (s1 := with_partial (push_text fs d'.1.1) d'.2).
  assert (dropping_frame s1 = false) as Hdrop1 by (unfold s1; by rewrite push_text_eq).
  assert (Z.of_nat (String.length (split_frames (buf s1)).2) <= MAX_PENDING_FRAME_BYTES) as Hrest.
  { rewrite <- (push_chars_normalise (String.append _ d'.1.1) false), push_chars_app, push_chars_prefix in Hcap.
    cbn [fst] in Hcap. rewrite split_frames_app in Hcap. cbv zeta in Hcap. cbn [snd] in Hcap.
    assert (buf s1 = String.append (buf fs) (push_chars d'.1.1 "" (pending_cr fs)).1) as ->
      by (unfold s1; by rewrite push_text_eq, push_chars_prefix).
    by rewrite Hbuf, Hcr. }
  unfold enforce_frame_cap. rewrite Hdrop1. unfold pending_frame_start. pose proof (pending_rest (buf s1)).
  by rewrite (proj2 (Z.leb_le _ _)) by lia.
Qed.
End Intact.

Record DecodeBatch := { batch_chunks : list ChatChunk; batch_done : bool; batch_lost : FeedLoss }.
Definition empty_batch : DecodeBatch := {| batch_chunks := []; batch_done := false; batch_lost := no_loss |}.

(** A decoder of frames: the chunks of a frame, and whether it is terminal. *)
Class FrameDecoder (S : Type) := decode_frame : S -> SseFrame -> list ChatChunk * bool * S.

Section Decode.
Context {S : Type} {FD : FrameDecoder S}.

(** The loop over [next_frame]; a frame takes at least its separator from the
    buffer. *)
Fixpoint push_loop (fuel : nat) (fs : SseFrameStream) (s : S)
  : list ChatChunk * bool * (SseFrameStream * S) :=
  match fuel with
  | O => ([], false, (fs, s))
  | Datatypes.S fuel =>
      match next_frame fs with
      | None => ([], false, (fs, s))
      | Some (frame, fs) =>
          let '(chunks, terminal, s) := decode_frame s frame in
          if terminal then (chunks, true, (fs, s))
          else
            let r := push_loop fuel fs s in (chunks ++ r.1.1, r.1.2, r.2)
      end
  end.

Definition push_frames (fs : SseFrameStream) (s : S) (input : string)
  : DecodeBatch * (SseFrameStream * S) :=
  let fed := feed fs input in
  let r := push_loop (Datatypes.S (String.length (buf fed.1))) fed.1 s in
  ({| batch_chunks := r.1.1; batch_done := r.1.2; batch_lost := fed.2 |}, r.2).

(** ** Reference: the frames up to the terminal one *)
Fixpoint decode_frames (s : S) (frames : list SseFrame) : list ChatChunk * bool * S :=
  match frames with
  | [] => ([], false, s)
  | frame :: frames =>
      let '(chunks, terminal, s) := decode_frame s frame in
      if terminal then (chunks, true, s)
      else let r := decode_frames s frames in (chunks ++ r.1.1, r.1.2, r.2)
  end.

(** The frames of a whole byte stream. *)
Definition frames_of (whole : string) : list SseFrame :=
  map parse_frame (split_frames (normalise (decode whole).1.1)).1.
(** What follows the last of them. *)
Definition rest_unparsed (whole : string) : bool :=
  negb (is_empty (decode whole).2) ||
  negb (is_empty (trim (split_frames (normalise (decode whole).1.1)).2)).

Lemma decode_frames_app s a b :
  decode_frames s (a ++ b) =
  let r := decode_frames s a in
  if r.1.2 then r
  else let r' := decode_frames r.2 b in (r.1.1 ++ r'.1.1, r'.1.2, r'.2).
Proof.
  revert s. induction a as [|f a IH]; intros s; simpl.
  - by destruct (decode_frames s b) as [[? ?] ?].
  - destruct (decode_frame s f) as [[cs t] s']. destruct t; [done|]. rewrite IH. simpl.
    destruct (decode_frames s' a) as [[cs' t'] s'']. simpl. destruct t'; [done|]. simpl.
    by rewrite app_assoc.
Qed.

(** A push decodes the frames a drain would yield. *)
Lemma push_loop_drain fuel fs s :
  let r := decode_frames s (drain_loop fuel fs).1 in
  (push_loop fuel fs s).1 = r.1 /\ (push_loop fuel fs s).2.2 = r.2 /\
  (r.1.2 = false -> (push_loop fuel fs s).2.1 = (drain_loop fuel fs).2).
Proof.
  cbv zeta. revert fs s. induction fuel as [|fuel IH]; intros fs s; cbn [push_loop drain_loop]; [done|].
  destruct (next_frame fs) as [[f fs']|]; [|done]. cbn [fst snd decode_frames].
  destruct (decode_frame s f) as [[cs t] s']. destruct t; [done|]. cbn [fst snd].
  destruct (IH fs' s') as (H1 & H2 & H3). rewrite H1, H2. by destruct (decode_frames s' _) as [[? ?] ?].
Qed.

(** The state of a decoder that has read [whole] and not met a terminal frame:
    the stream tracks it, and its own state is that of the frames so far. *)
Definition decoded (s0 : S) (whole : string) (fs : SseFrameStream) (s : S) (chunks : list ChatChunk) : Prop :=
  exists frames bad, tracks whole fs frames bad /\ decode_frames s0 frames = (chunks, false, s).

Lemma decoded_new s0 : decoded s0 "" sse_new s0 [].
Proof. exists [], false. by split; [apply tracks_new|]. Qed.

Lemma tracks_frames whole fs frames bad : tracks whole fs frames bad ->
  frames = frames_of whole /\ has_unparsed_input fs = rest_unparsed whole.
Proof.
  intros (_ & Hp & _ & Hb & -> & _). cbv zeta in *. unfold frames_of, has_unparsed_input, rest_unparsed.
  rewrite Hp, Hb, (push_chars_normalise _ false). done.
Qed.

Lemma decoded_frames s0 whole fs s chunks : decoded s0 whole fs s chunks ->
  decode_frames s0 (frames_of whole) = (chunks, false, s).
Proof. intros (frames & bad & Ht & Hd). by apply tracks_frames in Ht as [-> _]. Qed.

(** One push. *)
Lemma decoded_push s0 whole fs s chunks input :
  decoded s0 whole fs s chunks ->
  let r := push_frames fs s input in
  frame_too_large (batch_lost r.1) = false ->
  (batch_done r.1 = false -> decoded s0 (String.append whole input) r.2.1 r.2.2 (chunks ++ batch_chunks r.1)) /\
  (batch_done r.1 = true ->
    exists s', decode_frames s0 (frames_of (String.append whole input)) = (chunks ++ batch_chunks r.1, true, s')).
Proof.
  intros (frames & bad & Ht & Hd). cbv zeta. unfold push_frames. cbn [fst snd batch_done batch_lost batch_chunks].
  intros Hcap. pose proof (tracks_step _ _ _ _ input Ht Hcap) as Hstep. cbv zeta in Hstep.
  set (fs1 := (feed fs input).1) in *. unfold drain in Hstep.
  set (fuel := Datatypes.S (String.length (buf fs1))) in *.
  destruct (push_loop_drain fuel fs1 s) as (H1 & H2 & H3).
  rewrite H1, H2. pose proof (decode_frames_app s0 frames (drain_loop fuel fs1).1) as Happ.
  rewrite Hd in Happ. cbv zeta in Happ. cbn [fst snd] in Happ. split; intros Hdone.
  - rewrite (H3 Hdone). eexists _, _. split; [exact Hstep|]. rewrite Happ, Hdone. done.
  - apply tracks_frames in Hstep as [Hf _]. rewrite <- Hf, Happ, Hdone. eauto.
Qed.

Lemma decoded_unparsed s0 whole fs s chunks : decoded s0 whole fs s chunks ->
  has_unparsed_input fs = rest_unparsed whole.
Proof. intros (frames & bad & Ht & _). by apply tracks_frames in Ht as [_ ->]. Qed.

(** Once a terminal frame is reached nothing after it counts. *)
Lemma frames_of_app whole input :
  exists more, frames_of (String.append whole input) = frames_of whole ++ more.
Proof.
  unfold frames_of. rewrite decode_app. cbv zeta. cbn [fst snd].
  set (a := (decode whole).1.1). set (b := (decode (String.append (decode whole).2 input)).1.1).
  rewrite <- (push_chars_normalise (String.append a b) false), <- (push_chars_normalise a false).
  rewrite push_chars_app, push_chars_prefix. cbn [fst]. rewrite split_frames_app. cbn [fst].
  rewrite map_app. eauto.
Qed.

Lemma decode_frames_done_app s0 whole input chunks s :
  decode_frames s0 (frames_of whole) = (chunks, true, s) ->
  decode_frames s0 (frames_of (String.append whole input)) = (chunks, true, s).
Proof.
  intros H. destruct (frames_of_app whole input) as [more ->]. rewrite decode_frames_app, H. done.
Qed.
End Decode.
