(* ===== verification/OpenAiWire.v ===== *)
(** * The OpenAI wire format ([llm_wire/openai.rs], [providers/openai.rs],
    [providers/openai_compatible.rs])

    The request body and its transport, and the decoder of the chunk stream
    with its table of open tool calls.  The decoder implements a protocol on
    the multiset of open calls: a call is started, then completed once, and
    the end of a turn completes every call still open. *)
From Stdlib Require Import String.
From stdpp Require Import gmultiset.
From S2P Require Import Prelude Ints Str Contracts Sse Llm SseDecode.

(** ** Request bodies *)
Section Encoder.
Context {JN : JsonNumbers} {FL : Floats}.

Inductive OpenAiContentPart :=
| OaText (text : string)
| OaImageUrl (url : string) (detail : option string).
Inductive OpenAiContent := OaContentText (s : string) | OaContentParts (parts : list OpenAiContentPart).
(** [kind] is ["function"] on every call and tool. *)
Record OpenAiToolCall := { oc_id : string; oc_kind : string; oc_name : string; oc_arguments : string }.
Record OpenAiMessage := {
  om_role : string;
  om_content : option OpenAiContent;
  om_tool_call_id : option string;
  om_tool_calls : list OpenAiToolCall;
}.
Record OpenAiTool := {
  ot_kind : string; ot_name : string; ot_description : string; ot_parameters : Value;
}.
Inductive OpenAiResponseFormat := OaFormatText | OaFormatJson | OaFormatJsonSchema (schema : Value).
(** A field that is [None] or an empty list is left out of the body. *)
Record OpenAiRequest := {
  or_model : string;
  or_messages : list OpenAiMessage;
  or_stream : bool;
  or_temperature : option F32;
  or_max_tokens : option Z;
  or_max_completion_tokens : option Z;
  or_top_p : option F32;
  or_seed : option Z;
  or_stop : option (list string);
  or_response_format : option OpenAiResponseFormat;
  or_tools : list OpenAiTool;
  or_include_usage : option bool;
}.

(** [serde_json]: [Value::to_string] and [to_vec] of the body. *)
Class OpenAiJson := {
  value_to_string : Value -> string;
  openai_to_vec : OpenAiRequest -> outcome string string;
}.

Definition encode_role (role : ChatRole) : string :=
  match role with
  | RoleSystem => "system" | RoleUser => "user" | RoleAssistant => "assistant" | RoleTool => "tool"
  end.

Definition encode_part (p : ContentPart) : OpenAiContentPart :=
  match p with
  | PartText s => OaText s
  | PartImageUrl url detail => OaImageUrl url detail
  | PartImageBytes => OaText (String.append "[image bytes unsupported "
      (String.append (bytes [226; 128; 148]) " encode as data URL in ImageUrl]"))
  end.

Context {OJ : OpenAiJson}.

Definition encode_tool_call (call : ToolCall) : OpenAiToolCall := {|
  oc_id := call_id call; oc_kind := "function"; oc_name := call_name call;
  oc_arguments := value_to_string (call_arguments call) |}.

Definition encode_message (m : ChatMessage) : OpenAiMessage :=
  let content :=
    match cm_content m with
    | ContentText s => Some (OaContentText s)
    | ContentParts parts => Some (OaContentParts (map encode_part parts))
    end in
  let empty_text := match cm_content m with ContentText s => is_empty s | _ => false end in
  let content :=
    match content with
    | Some _ => if empty_text && negb (bool_decide (cm_tool_calls m = [])) then None else content
    | None => content
    end in
  {| om_role := encode_role (cm_role m); om_content := content; om_tool_call_id := cm_tool_call_id m;
     om_tool_calls := map encode_tool_call (cm_tool_calls m) |}.

Definition encode_tool (t : ToolDefinition) : OpenAiTool := {|
  ot_kind := "function"; ot_name := tool_name t; ot_description := tool_description t;
  ot_parameters := tool_parameters t |}.

Definition encode_response_format (r : ResponseFormat) : OpenAiResponseFormat :=
  match r with
  | FormatText => OaFormatText | FormatJson => OaFormatJson
  | FormatJsonSchema v => OaFormatJsonSchema v
  end.

Definition from_chat_request (req : ChatRequest) (max_tokens_field : MaxTokensField) : OpenAiRequest :=
  let '(max_tokens, max_completion_tokens) :=
    match max_tokens_field with
    | MaxTokens => (cp_max_tokens (cr_params req), None)
    | MaxCompletionTokens => (None, cp_max_tokens (cr_params req))
    end in
  {| or_model := cr_model req;
     or_messages := map encode_message (cr_messages req);
     or_stream := true;
     or_temperature := cp_temperature (cr_params req);
     or_max_tokens := max_tokens;
     or_max_completion_tokens := max_completion_tokens;
     or_top_p := cp_top_p (cr_params req);
     or_seed := cp_seed (cr_params req);
     or_stop := match cp_stop_sequences (cr_params req) with [] => None | l => Some l end;
     or_response_format := encode_response_format <$> cp_response_format (cr_params req);
     or_tools := map encode_tool (cr_tools req);
     or_include_usage := Some true |}.

Definition encode_chat_body (req : ChatRequest) (f : MaxTokensField) : outcome string string :=
  openai_to_vec (from_chat_request req f).

(** ** Transport *)
Inductive EncodeError := MissingApiKey | Serialize (m : string).

Definition encode_chat_request_as (req : ChatRequest) (provider : ProviderConfig)
    (resolved_api_key : option string) (protocol_field : MaxTokensField)
  : outcome EncodeError EncodedRequest :=
  let max_tokens_field := default protocol_field (pc_max_tokens_field provider) in
  let url := String.append (trim_end_matches "/" (pc_endpoint provider)) "/chat/completions" in
  let headers : gmap string string := <["Content-Type" := "application/json"]> ∅ in
  headers ← match resolved_api_key with
            | Some key => Ok (<["Authorization" := String.append "Bearer " key]> headers)
            | None => Err MissingApiKey
            end;
  body ← map_err Serialize (encode_chat_body req max_tokens_field);
  Ok (url, headers, body).

Definition encode_chat_request (req : ChatRequest) (provider : ProviderConfig) (key : option string)
  : outcome EncodeError EncodedRequest :=
  encode_chat_request_as req provider key MaxCompletionTokens.

(** [openai_compatible::encode_chat_request] *)
Definition encode_compatible_request (req : ChatRequest) (provider : ProviderConfig) (key : option string)
  : outcome EncodeError EncodedRequest :=
  match key with
  | Some _ => encode_chat_request_as req provider key MaxTokens
  | None =>
      '(url, headers, body) ← encode_chat_request_as req provider (Some "placeholder") MaxTokens;
      Ok (url, delete "Authorization" headers, body)
  end.

End Encoder.
Arguments OpenAiJson {JN FL}.

(** ** The decoder *)
Record OpenAiStreamToolCallFunction := { fn_name : option string; fn_arguments : option string }.
Record OpenAiStreamToolCall := {
  stc_index : Z; stc_id : option string; stc_function : option OpenAiStreamToolCallFunction;
}.
Record OpenAiStreamDelta := { sd_content : option string; sd_tool_calls : list OpenAiStreamToolCall }.
Record OpenAiStreamChoice := { sc_delta : OpenAiStreamDelta; sc_finish_reason : option string }.
(** [cached] and [reasoning]: the field of the details, when both are there. *)
Record OpenAiUsage := {
  ou_prompt_tokens : Z; ou_completion_tokens : Z;
  ou_prompt_cached : option (option Z); ou_completion_reasoning : option (option Z);
}.
Record OpenAiStreamFrame := { sf_choices : list OpenAiStreamChoice; sf_usage : option OpenAiUsage }.

(** [serde_json::from_str::<OpenAiStreamFrame>] *)
Class OpenAiFrames := openai_frame_from_str : string -> option OpenAiStreamFrame.

Definition map_finish_reason (s : string) : FinishReason :=
  if String.eqb s "stop" then FinishStop
  else if String.eqb s "length" then FinishLength
  else if String.eqb s "tool_calls" then FinishToolCall
  else if String.eqb s "content_filter" then FinishContentFilter
  else FinishError.

(** The [BTreeMap] of open calls, by wire index. *)
Abbreviation calls := (gmap Z string).
Definition index_le (p q : Z * string) : Prop := p.1 <= q.1.
#[export] Instance index_le_dec p q : Decision (index_le p q).
Proof. unfold index_le. apply _. Defined.
(** [into_values]: in the order of the keys. *)
Definition into_values (started : calls) : list string :=
  (merge_sort index_le (map_to_list started)).*2.

Definition close_open_tool_calls (started : calls) : list ChatChunk * calls :=
  (map tool_call_complete (into_values started), ∅).

Definition usage_chunk (u : OpenAiUsage) : ChatChunk :=
  let usage := usage_new (ou_prompt_tokens u) (ou_completion_tokens u) in
  let usage := match mjoin (ou_prompt_cached u) with Some n => with_cached n usage | None => usage end in
  let usage := match mjoin (ou_completion_reasoning u) with Some n => with_reasoning n usage | None => usage end in
  chunk_usage usage.

(** The start of a call: a first sight of its index, with id and name. *)
Definition start_call (started : calls) (tc : OpenAiStreamToolCall) : list ChatChunk * calls :=
  match stc_id tc, stc_function tc ≫= fn_name with
  | Some id, Some name =>
      match started !! stc_index tc with
      | None => ([tool_call_start id name], <[stc_index tc := id]> started)
      | Some _ => ([], started)
      end
  | _, _ => ([], started)
  end.

(** The fragment of arguments of the same delta. *)
Definition call_arguments_chunks (started : calls) (tc : OpenAiStreamToolCall) : list ChatChunk :=
  match stc_function tc ≫= fn_arguments with
  | Some args =>
      if is_empty args then []
      else match match started !! stc_index tc with Some id => Some id | None => stc_id tc end with
           | Some id => [tool_call_arguments id args]
           | None => []
           end
  | None => []
  end.

Definition translate_tool_call (started : calls) (tc : OpenAiStreamToolCall) : list ChatChunk * calls :=
  let r := start_call started tc in
  (r.1 ++ call_arguments_chunks r.2 tc, r.2).

(** A loop that pushes to [out] and updates the open calls. *)
Fixpoint translate_each {A} (f : calls -> A -> list ChatChunk * calls) (started : calls) (l : list A)
  : list ChatChunk * calls :=
  match l with
  | [] => ([], started)
  | x :: l =>
      let r := f started x in
      let r' := translate_each f r.2 l in (r.1 ++ r'.1, r'.2)
  end.

Definition translate_choice (started : calls) (choice : OpenAiStreamChoice) : list ChatChunk * calls :=
  let text := match sd_content (sc_delta choice) with Some s => [chunk_text s] | None => [] end in
  let r := translate_each translate_tool_call started (sd_tool_calls (sc_delta choice)) in
  match sc_finish_reason choice with
  | Some reason =>
      let closed := close_open_tool_calls r.2 in
      (text ++ r.1 ++ closed.1 ++ [chunk_finish (map_finish_reason reason) None], closed.2)
  | None => (text ++ r.1, r.2)
  end.

Definition translate (started : calls) (frame : OpenAiStreamFrame) : list ChatChunk * calls :=
  let usage := match sf_usage frame with Some u => [usage_chunk u] | None => [] end in
  let r := translate_each translate_choice started (sf_choices frame) in (usage ++ r.1, r.2).

Section Decoder.
Context {OF : OpenAiFrames}.

Definition push_frame (started : calls) (data : string) : DecodeBatch * calls :=
  if is_empty data then (empty_batch, started)
  else if String.eqb data "[DONE]" then
    let r := close_open_tool_calls started in
    ({| batch_chunks := r.1; batch_done := true; batch_lost := no_loss |}, r.2)
  else
    match openai_frame_from_str data with
    | Some parsed =>
        let r := translate started parsed in
        ({| batch_chunks := r.1; batch_done := false; batch_lost := no_loss |}, r.2)
    | None => (empty_batch, started)
    end.

(** [finish] *)
Definition finish (started : calls) : list ChatChunk * calls := close_open_tool_calls started.

(** The decoder over a byte stream. *)
Record OpenAiSseDecoder := { od_frames : SseFrameStream; od_started : calls }.
Definition openai_new : OpenAiSseDecoder := {| od_frames := sse_new; od_started := ∅ |}.
#[export] Instance openai_frame_decoder : FrameDecoder calls := fun started frame =>
  let r := push_frame started (sse_data frame) in (batch_chunks r.1, batch_done r.1, r.2).
Definition openai_push (d : OpenAiSseDecoder) (input : string) : DecodeBatch * OpenAiSseDecoder :=
  let r := push_frames (od_frames d) (od_started d) input in
  (r.1, {| od_frames := r.2.1; od_started := r.2.2 |}).

(** Payloads framed by another transport, up to [[DONE]]. *)
Fixpoint push_payloads (started : calls) (payloads : list string) : list ChatChunk * bool * calls :=
  match payloads with
  | [] => ([], false, started)
  | data :: payloads =>
      let r := push_frame started data in
      if batch_done r.1 then (batch_chunks r.1, true, r.2)
      else let r' := push_payloads r.2 payloads in (batch_chunks r.1 ++ r'.1.1, r'.1.2, r'.2)
  end.
End Decoder.

(** ** Specification: the protocol of tool calls

    The state is the multiset of the ids of open calls.  A start opens a call,
    a completion needs an open one and closes it, nothing else touches it; a
    finish reason is delivered only when none is open. *)
Abbreviation open_calls := (gmultiset string).
Definition protocol_delta (open : open_calls) (c : ChatChunk) : option open_calls :=
  match delta c with
  | DeltaToolCallStart id _ => Some ({[+ id +]} ⊎ open)
  | DeltaToolCallComplete id => if decide (id ∈ open) then Some (open ∖ {[+ id +]}) else None
  | _ => Some open
  end.
Definition protocol_step (open : open_calls) (c : ChatChunk) : option open_calls :=
  match finish_reason c with
  | Some _ => if decide (open = ∅) then protocol_delta open c else None
  | None => protocol_delta open c
  end.
Fixpoint protocol (open : open_calls) (chunks : list ChatChunk) : option open_calls :=
  match chunks with
  | [] => Some open
  | c :: chunks => open ← protocol_step open c; protocol open chunks
  end.

(** The table as a state of the protocol. *)
Definition open_ids (started : calls) : open_calls := list_to_set_disj (map_to_list started).*2.

Section Protocol.
Implicit Types (open : open_calls) (started : calls).

Lemma protocol_app open a b : protocol open (a ++ b) = (open ← protocol open a; protocol open b).
Proof.
  revert open. induction a as [|c a IH]; intros open; [done|]. simpl.
  destruct (protocol_step open c); simpl; [apply IH|done].
Qed.

(** A run of chunks that the protocol accepts. *)
Definition accepted started chunks started' : Prop :=
  protocol (open_ids started) chunks = Some (open_ids started').

Lemma accepted_nil started : accepted started [] started.
Proof. done. Qed.

Lemma accepted_app started a started' b started'' :
  accepted started a started' -> accepted started' b started'' -> accepted started (a ++ b) started''.
Proof. unfold accepted. rewrite protocol_app. by intros ->. Qed.

(** Chunks that are no start, no completion and no finish. *)
Definition neutral (c : ChatChunk) : bool :=
  match delta c, finish_reason c with
  | DeltaToolCallStart _ _, _ | DeltaToolCallComplete _, _ | _, Some _ => false
  | _, None => true
  end.
Lemma accepted_neutral started chunks : forallb neutral chunks = true -> accepted started chunks started.
Proof.
  unfold accepted. generalize (open_ids started). intros open. induction chunks as [|c chunks IH]; [done|].
  simpl. intros [Hc Hr]%andb_true_iff. unfold neutral, protocol_step, protocol_delta in *.
  by destruct (delta c), (finish_reason c); simpl; auto.
Qed.

Lemma open_ids_insert started i id :
  started !! i = None -> open_ids (<[i := id]> started) = {[+ id +]} ⊎ open_ids started.
Proof. intros Hi. unfold open_ids. rewrite map_to_list_insert by done. done. Qed.

Lemma open_ids_empty : open_ids ∅ = ∅.
Proof. unfold open_ids. by rewrite map_to_list_empty. Qed.

(** Completing a list of ids empties their multiset. *)
Lemma protocol_close ids open :
  open = list_to_set_disj ids -> protocol open (map tool_call_complete ids) = Some ∅.
Proof.
  revert open. induction ids as [|id ids IH]; intros open ->; [done|]. simpl. unfold protocol_step, protocol_delta. simpl.
  rewrite decide_True by multiset_solver. simpl. apply IH. multiset_solver.
Qed.

Lemma close_accepted started : accepted started (close_open_tool_calls started).1 ∅.
Proof.
  unfold accepted. rewrite open_ids_empty. apply protocol_close. unfold open_ids, into_values.
  apply list_to_set_disj_perm. apply fmap_Permutation. symmetry. apply merge_sort_Permutation.
Qed.

Lemma start_call_accepted started tc :
  accepted started (start_call started tc).1 (start_call started tc).2.
Proof.
  unfold start_call. destruct (stc_id tc) as [id|]; [|apply accepted_nil].
  destruct (stc_function tc ≫= fn_name) as [name|]; [|apply accepted_nil].
  destruct (started !! stc_index tc) eqn:Hi; [apply accepted_nil|].
  unfold accepted. simpl. unfold protocol_step, protocol_delta. simpl. by rewrite open_ids_insert.
Qed.

Lemma arguments_neutral started tc : forallb neutral (call_arguments_chunks started tc) = true.
Proof. unfold call_arguments_chunks. by repeat case_match. Qed.

Lemma tool_call_accepted started tc :
  accepted started (translate_tool_call started tc).1 (translate_tool_call started tc).2.
Proof.
  eapply accepted_app; [apply start_call_accepted|apply accepted_neutral, arguments_neutral].
Qed.

Lemma each_accepted {A} (f : calls -> A -> list ChatChunk * calls) started l :
  (forall started x, accepted started (f started x).1 (f started x).2) ->
  accepted started (translate_each f started l).1 (translate_each f started l).2.
Proof.
  intros Hf. revert started. induction l as [|x l IH]; intros started; [apply accepted_nil|].
  simpl. eapply accepted_app; [apply Hf|apply IH].
Qed.

Lemma choice_accepted started choice :
  accepted started (translate_choice started choice).1 (translate_choice started choice).2.
Proof.
  unfold translate_choice. set (r := translate_each _ _ _).
  assert (accepted started r.1 r.2) as Hr by (apply each_accepted, tool_call_accepted).
  assert (accepted started match sd_content (sc_delta choice) with Some s => [chunk_text s] | None => [] end started)
    as Ht by (apply accepted_neutral; by case_match).
  destruct (sc_finish_reason choice) as [reason|]; simpl; (eapply accepted_app; [exact Ht|]).
  - eapply accepted_app; [exact Hr|]. eapply accepted_app; [apply close_accepted|].
    unfold accepted. by rewrite open_ids_empty.
  - exact Hr.
Qed.

Lemma translate_accepted started frame :
  accepted started (translate started frame).1 (translate started frame).2.
Proof.
  unfold translate. eapply accepted_app; [|apply each_accepted, choice_accepted].
  apply accepted_neutral. by case_match.
Qed.

Lemma push_frame_accepted `{OpenAiFrames} started data :
  accepted started (batch_chunks (push_frame started data).1) (push_frame started data).2 /\
  (batch_done (push_frame started data).1 = true -> (push_frame started data).2 = ∅).
Proof.
  unfold push_frame. destruct (is_empty data); [by split; [apply accepted_nil|]|].
  destruct (String.eqb data "[DONE]"); [by split; [apply close_accepted|]|].
  destruct (openai_frame_from_str data); by split; [first [apply translate_accepted|apply accepted_nil]|].
Qed.
End Protocol.

(** C20. Tool calls follow their protocol, whatever a provider sends: at every
    moment the chunks are a run of the specification whose open calls are those
    in the decoder's table, so no call is completed that is not open, none is
    completed twice, and none is open when a finish reason is delivered;
    [[DONE]] and [finish] complete every call still open. *)
Theorem tool_calls_follow_protocol `{OpenAiFrames} (payloads : list string) :
  let r := push_payloads ∅ payloads in
  protocol ∅ r.1.1 = Some (open_ids r.2) /\
  (r.1.2 = true -> open_ids r.2 = ∅) /\
  protocol ∅ (r.1.1 ++ (finish r.2).1) = Some ∅.
Proof.
  cbv zeta.
  assert (forall started, accepted started (push_payloads started payloads).1.1 (push_payloads started payloads).2 /\
    ((push_payloads started payloads).1.2 = true -> (push_payloads started payloads).2 = ∅)) as Hall.
  { induction payloads as [|data payloads IH]; intros started; [by split|]. cbn [push_payloads].
    destruct (push_frame_accepted started data) as [Ha Hd]. destruct (batch_done (push_frame started data).1).
    - split; [exact Ha|exact Hd].
    - destruct (IH (push_frame started data).2) as [Ha' Hd']. split; [by eapply accepted_app|exact Hd']. }
  destruct (Hall ∅) as [Ha Hd]. pose proof Ha as Ha'. unfold accepted in Ha'. rewrite open_ids_empty in Ha'.
  split; [exact Ha'|]. split; [intros Ht; by rewrite (Hd Ht), open_ids_empty|].
  rewrite protocol_app, Ha'. cbn [mbind option_bind].
  pose proof (close_accepted (push_payloads ∅ payloads).2) as Hc. unfold accepted in Hc.
  by rewrite open_ids_empty in Hc.
Qed.

(** A choice that ends the turn leaves no call open, and closes them before it
    says so. *)
Lemma finish_reason_closes started choice reason :
  sc_finish_reason choice = Some reason ->
  (translate_choice started choice).2 = ∅ /\
  exists before, (translate_choice started choice).1 = before ++ [chunk_finish (map_finish_reason reason) None] /\
    protocol (open_ids started) before = Some ∅.
Proof.
  intros Hr. unfold translate_choice. rewrite Hr. cbn [fst snd]. split; [done|].
  set (calls_of := translate_each translate_tool_call started _).
  eexists (_ ++ calls_of.1 ++ (close_open_tool_calls calls_of.2).1). split; [by rewrite !app_assoc|].
  rewrite <- open_ids_empty. eapply accepted_app; [apply accepted_neutral; by case_match|].
  eapply accepted_app; [apply each_accepted, tool_call_accepted|apply close_accepted].
Qed.

(** Without a key the compatible endpoint gets the body of the native one, and
    no credential. *)
Lemma keyless_request {JN : JsonNumbers} {FL : Floats} {OJ : OpenAiJson} req provider :
  match encode_compatible_request req provider None, encode_compatible_request req provider (Some "placeholder") with
  | Ok (url, headers, body), Ok (url', _, body') =>
      url = url' /\ body = body' /\ headers = {[ "Content-Type" := "application/json" ]}
  | Err e, Err e' => e = e' /\ e <> MissingApiKey
  | Panic, Panic => True
  | _, _ => False
  end.
Proof.
  unfold encode_compatible_request, encode_chat_request_as. cbn [mbind outcome_bind].
  by destruct (encode_chat_body req _).
Qed.

(** A body spells the budget once, as the operator or else the protocol says. *)
Lemma one_budget_field {JN : JsonNumbers} {FL : Floats} {OJ : OpenAiJson} req f :
  let body := from_chat_request req f in
  match f with
  | MaxTokens => or_max_tokens body = cp_max_tokens (cr_params req) /\ or_max_completion_tokens body = None
  | MaxCompletionTokens => or_max_tokens body = None /\ or_max_completion_tokens body = cp_max_tokens (cr_params req)
  end.
Proof. by destruct f. Qed.
