(* ===== verification/AnthropicWire.v ===== *)
(** * The Anthropic wire format ([blocks/llm/providers/anthropic.rs])

    The Messages request, which requires an output budget and takes the system
    prompt apart from the messages, and the decoder of typed events with its
    table of content blocks. *)
From Stdlib Require Import String.
From S2P Require Import Prelude Ints Str Contracts Sse Llm SseDecode.

Definition ANTHROPIC_VERSION : string := "2023-06-01".

(** ** Requests *)
Section Encoder.
Context {JN : JsonNumbers} {FL : Floats}.

Inductive AnthropicEncodeError := AnMissingApiKey | AnMissingMaxTokens | AnSerialize (m : string).

Inductive AnthropicContentBlock :=
| AnText (text : string)
| AnImage (url : string)
| AnToolUse (id name : string) (input : Value)
| AnToolResult (tool_use_id content : string).
Inductive AnthropicContent := AnContentText (s : string) | AnContentBlocks (blocks : list AnthropicContentBlock).
Record AnthropicMessage := { am_role : string; am_content : AnthropicContent }.
Record AnthropicTool := { at_name : string; at_description : string; at_input_schema : Value }.
Record AnthropicRequest := {
  ar_model : string;
  ar_max_tokens : Z;
  ar_stream : bool;
  ar_system : option string;
  ar_messages : list AnthropicMessage;
  ar_temperature : option F32;
  ar_top_p : option F32;
  ar_stop_sequences : list string;
  ar_tools : list AnthropicTool;
}.

(** [serde_json::to_vec] of the body. *)
Class AnthropicJson := anthropic_to_vec : AnthropicRequest -> outcome string string.

Definition an_encode_role (role : ChatRole) : string :=
  match role with RoleAssistant => "assistant" | RoleTool => "user" | _ => "user" end.

Definition an_encode_part (p : ContentPart) : AnthropicContentBlock :=
  match p with
  | PartText s => AnText s
  | PartImageUrl url _ => AnImage url
  | PartImageBytes => AnText (String.append "[image bytes unsupported "
      (String.append (bytes [226; 128; 148]) " use ImageUrl]"))
  end.

Definition plain_message (m : ChatMessage) : AnthropicMessage := {|
  am_role := an_encode_role (cm_role m);
  am_content := match cm_content m with
                | ContentText s => AnContentText s
                | ContentParts parts => AnContentBlocks (map an_encode_part parts)
                end |}.

Definition tool_use_message (m : ChatMessage) : AnthropicMessage := {|
  am_role := "assistant";
  am_content := AnContentBlocks
    (match cm_content m with
     | ContentText s => if is_empty s then [] else [AnText s]
     | ContentParts _ => []
     end ++
     map (fun tc => AnToolUse (call_id tc) (call_name tc) (call_arguments tc)) (cm_tool_calls m)) |}.

Definition an_encode_message (m : ChatMessage) : AnthropicMessage :=
  match cm_role m, cm_content m with
  | RoleTool, ContentText s =>
      {| am_role := "user";
         am_content := AnContentBlocks [AnToolResult (default "" (cm_tool_call_id m)) s] |}
  | RoleAssistant, _ =>
      if bool_decide (cm_tool_calls m = []) then plain_message m else tool_use_message m
  | _, _ => plain_message m
  end.

Definition an_encode_tool (t : ToolDefinition) : AnthropicTool := {|
  at_name := tool_name t; at_description := tool_description t; at_input_schema := tool_parameters t |}.

(** [iter().find_map(f)] *)
Fixpoint find_map {A B} (f : A -> option B) (l : list A) : option B :=
  match l with
  | [] => None
  | x :: l => match f x with Some y => Some y | None => find_map f l end
  end.

Definition extract_system (msgs : list ChatMessage) : option string :=
  find_map (fun m => match cm_role m, cm_content m with
                     | RoleSystem, ContentText s => Some s
                     | _, _ => None
                     end) msgs.

Definition an_from_chat_request (req : ChatRequest) : outcome AnthropicEncodeError AnthropicRequest :=
  max_tokens ← ok_or (cp_max_tokens (cr_params req)) AnMissingMaxTokens;
  let system := extract_system (cr_messages req) in
  let messages :=
    map an_encode_message (filter (fun m => cm_role m <> RoleSystem) (cr_messages req)) in
  Ok {| ar_model := cr_model req;
        ar_max_tokens := max_tokens;
        ar_stream := true;
        ar_system := system;
        ar_messages := messages;
        ar_temperature := cp_temperature (cr_params req);
        ar_top_p := cp_top_p (cr_params req);
        ar_stop_sequences := cp_stop_sequences (cr_params req);
        ar_tools := map an_encode_tool (cr_tools req) |}.

Definition an_encode_chat_request {AJ : AnthropicJson} (req : ChatRequest) (provider : ProviderConfig)
    (resolved_api_key : option string) : outcome AnthropicEncodeError EncodedRequest :=
  let url := String.append (trim_end_matches "/" (pc_endpoint provider)) "/messages" in
  let headers : gmap string string :=
    <["anthropic-version" := ANTHROPIC_VERSION]> (<["Content-Type" := "application/json"]> ∅) in
  headers ← match resolved_api_key with
            | Some key => Ok (<["x-api-key" := key]> headers)
            | None => Err AnMissingApiKey
            end;
  body ← an_from_chat_request req;
  bytes ← map_err AnSerialize (anthropic_to_vec body);
  Ok (url, headers, bytes).
End Encoder.
Arguments AnthropicJson {JN FL}.

(** ** Events *)
Inductive AnthropicBlockStartContent := BlockText | BlockToolUse (id name : string).
Record AnthropicBlockStart := { bs_index : Z; bs_content_block : AnthropicBlockStartContent }.
Inductive AnthropicBlockDeltaKind := TextDelta (text : string) | InputJsonDelta (partial_json : string).
Record AnthropicBlockDelta := { bd_index : Z; bd_delta : AnthropicBlockDeltaKind }.
Record AnthropicMessageDeltaUsage := { mu_input_tokens : option Z; mu_output_tokens : option Z }.
Record AnthropicMessageDelta := { md_stop_reason : option string; md_usage : option AnthropicMessageDeltaUsage }.

(** [serde_json::from_str] of the four payloads; indices are [u32]. *)
Class AnthropicEvents := {
  block_start_from_str : string -> option AnthropicBlockStart;
  block_delta_from_str : string -> option AnthropicBlockDelta;
  block_stop_from_str : string -> option Z;
  message_delta_from_str : string -> option AnthropicMessageDelta;
}.
Class AnthropicEventLaws (E : AnthropicEvents) := {
  block_start_index : forall s b, block_start_from_str s = Some b -> in_u32 (bs_index b) = true;
  block_delta_index : forall s b, block_delta_from_str s = Some b -> in_u32 (bd_index b) = true;
  block_stop_index : forall s i, block_stop_from_str s = Some i -> in_u32 i = true;
}.

Definition map_stop_reason (s : string) : FinishReason :=
  if String.eqb s "end_turn" || String.eqb s "stop_sequence" then FinishStop
  else if String.eqb s "max_tokens" then FinishLength
  else if String.eqb s "tool_use" then FinishToolCall
  else FinishError.

Definition MAX_CONTENT_BLOCK_INDEX : Z := 1024.

(** [tool_blocks]: the id of the tool call of each content block. *)
Abbreviation blocks := (list (option string)).

(** [while len <= index { push(None) }] *)
Definition grow (tool_blocks : blocks) (index : nat) : blocks :=
  tool_blocks ++ repeat None (S index - length tool_blocks).

Definition ensure_block_slot (tool_blocks : blocks) (index : Z) : bool * blocks :=
  if index >? MAX_CONTENT_BLOCK_INDEX then (false, tool_blocks)
  else (true, grow tool_blocks (Z.to_nat index)).

(** [tool_blocks.get(index)] holding an id *)
Definition block_tool (tool_blocks : blocks) (index : Z) : option string :=
  mjoin (tool_blocks !! Z.to_nat index).

Section Decoder.
Context {AE : AnthropicEvents}.

Definition content_block_start (tool_blocks : blocks) (data : string) : list ChatChunk * blocks :=
  match block_start_from_str data with
  | Some s =>
      let '(reachable, tool_blocks) := ensure_block_slot tool_blocks (bs_index s) in
      if negb reachable then ([], tool_blocks)
      else match bs_content_block s with
           | BlockText => ([], tool_blocks)
           | BlockToolUse id name =>
               ([tool_call_start id name], <[Z.to_nat (bs_index s) := Some id]> tool_blocks)
           end
  | None => ([], tool_blocks)
  end.

Definition content_block_delta (tool_blocks : blocks) (data : string) : list ChatChunk * blocks :=
  match block_delta_from_str data with
  | Some d =>
      let '(reachable, tool_blocks) := ensure_block_slot tool_blocks (bd_index d) in
      if negb reachable then ([], tool_blocks)
      else match bd_delta d with
           | TextDelta text => (if is_empty text then [] else [chunk_text text], tool_blocks)
           | InputJsonDelta partial_json =>
               (match block_tool tool_blocks (bd_index d) with
                | Some id => [tool_call_arguments id partial_json]
                | None => []
                end, tool_blocks)
           end
  | None => ([], tool_blocks)
  end.

Definition content_block_stop (tool_blocks : blocks) (data : string) : list ChatChunk * blocks :=
  (match i ← block_stop_from_str data; block_tool tool_blocks i with
   | Some id => [tool_call_complete id]
   | None => []
   end, tool_blocks).

Definition message_delta (data : string) : list ChatChunk :=
  match message_delta_from_str data with
  | Some md =>
      match md_stop_reason md with
      | Some reason => [chunk_finish (map_stop_reason reason) None]
      | None => []
      end ++
      match md_usage md with
      | Some u =>
          if bool_decide (is_Some (mu_input_tokens u)) || bool_decide (is_Some (mu_output_tokens u)) then
            [chunk_usage (usage_new (default 0 (mu_input_tokens u)) (default 0 (mu_output_tokens u)))]
          else []
      | None => []
      end
  | None => []
  end.

(** [decode_frame] *)
#[export] Instance anthropic_frame_decoder : FrameDecoder blocks := fun tool_blocks frame =>
  let event := default "" (sse_event frame) in
  let data := sse_data frame in
  if is_empty data then ([], false, tool_blocks)
  else if String.eqb event "content_block_start" then
    let r := content_block_start tool_blocks data in (r.1, false, r.2)
  else if String.eqb event "content_block_delta" then
    let r := content_block_delta tool_blocks data in (r.1, false, r.2)
  else if String.eqb event "content_block_stop" then
    let r := content_block_stop tool_blocks data in (r.1, false, r.2)
  else if String.eqb event "message_delta" then (message_delta data, false, tool_blocks)
  else if String.eqb event "message_stop" then ([], true, tool_blocks)
  else ([], false, tool_blocks).

Record AnthropicSseDecoder := { ad_frames : SseFrameStream; ad_tool_blocks : blocks }.
Definition anthropic_new : AnthropicSseDecoder := {| ad_frames := sse_new; ad_tool_blocks := [] |}.
Definition anthropic_push (d : AnthropicSseDecoder) (input : string) : DecodeBatch * AnthropicSseDecoder :=
  let r := push_frames (ad_frames d) (ad_tool_blocks d) input in
  (r.1, {| ad_frames := r.2.1; ad_tool_blocks := r.2.2 |}).
End Decoder.

(** ** What the decoder keeps *)

(** The chunk speaks of a call that was announced before. *)
Definition speaks_of (c : ChatChunk) : option string :=
  match delta c with
  | DeltaToolCallArguments id _ | DeltaToolCallComplete id => Some id
  | _ => None
  end.
Definition announces (c : ChatChunk) (id : string) : Prop := exists name, delta c = DeltaToolCallStart id name.

(** Every fragment and completion follows the start of its call; [known] are
    the calls announced before. *)
Fixpoint announced (known : string -> Prop) (chunks : list ChatChunk) : Prop :=
  match chunks with
  | [] => True
  | c :: chunks =>
      (forall id, speaks_of c = Some id -> known id) /\
      announced (fun id => known id \/ announces c id) chunks
  end.

Section Keeps.
Context {AE : AnthropicEvents}.
Implicit Types (tool_blocks : blocks) (known : string -> Prop).

Lemma announced_mono known known' chunks :
  (forall id, known id -> known' id) -> announced known chunks -> announced known' chunks.
Proof.
  revert known known'. induction chunks as [|c chunks IH]; intros known known' Hk; [done|].
  intros [Hc Hr]. split; [naive_solver|]. eapply IH; [|exact Hr]. naive_solver.
Qed.

Lemma announced_app known a b :
  announced known (a ++ b) <->
  announced known a /\ announced (fun id => known id \/ exists c, c ∈ a /\ announces c id) b.
Proof.
  revert known. induction a as [|c a IH]; intros known; simpl.
  - split; [intros H; split; [done|]|intros [_ H]]; (eapply announced_mono; [|exact H]); set_solver.
  - rewrite IH. split.
    + intros (Hc & Ha & Hb). repeat split; [done..|]. eapply announced_mono; [|exact Hb].
      intros id [[?|?]|(c' & ? & ?)]; [by left|right; exists c; set_solver|right; exists c'; set_solver].
    + intros ((Hc & Ha) & Hb). repeat split; [done..|]. eapply announced_mono; [|exact Hb].
      intros id [?|(c' & [->|?]%elem_of_cons & ?)]; [by left; left|by left; right|right; eauto].
Qed.

(** The invariant: the table is bounded, and holds announced calls. *)
Definition slots_ok tool_blocks known : Prop :=
  (length tool_blocks <= 1025)%nat /\ forall i id, tool_blocks !! i = Some (Some id) -> known id.

Lemma grow_length tool_blocks i : length (grow tool_blocks i) = Nat.max (length tool_blocks) (S i).
Proof. unfold grow. rewrite length_app, repeat_length. lia. Qed.

Lemma grow_lookup tool_blocks i j id : grow tool_blocks i !! j = Some (Some id) -> tool_blocks !! j = Some (Some id).
Proof.
  unfold grow. rewrite lookup_app. destruct (tool_blocks !! j) eqn:Hj; [done|].
  intros H. apply list_elem_of_lookup_2, list_elem_of_In, repeat_spec in H. done.
Qed.

Lemma ensure_ok tool_blocks known index :
  slots_ok tool_blocks known -> in_u32 index = true ->
  slots_ok (ensure_block_slot tool_blocks index).2 known /\
  ((ensure_block_slot tool_blocks index).1 = true ->
     (Z.to_nat index < length (ensure_block_slot tool_blocks index).2)%nat).
Proof.
  intros [Hlen Hids] Hi. unfold ensure_block_slot, MAX_CONTENT_BLOCK_INDEX.
  destruct (index >? 1024) eqn:Hc; [by split|]. cbn [fst snd]. split; [split|].
  - rewrite grow_length. lia.
  - intros i id H%grow_lookup. by eapply Hids.
  - intros _. rewrite grow_length. lia.
Qed.

Lemma block_tool_known tool_blocks known i id :
  slots_ok tool_blocks known -> block_tool tool_blocks i = Some id -> known id.
Proof.
  intros [_ Hids]. unfold block_tool. destruct (tool_blocks !! Z.to_nat i) as [[id'|]|] eqn:Hi; [|done..].
  intros [= <-]. by eapply Hids.
Qed.

(** One frame keeps it. *)
Definition keeps known (r : list ChatChunk * blocks) : Prop :=
  announced known r.1 /\ slots_ok r.2 (fun id => known id \/ exists c, c ∈ r.1 /\ announces c id).

Lemma keeps_silent known tool_blocks chunks :
  slots_ok tool_blocks known -> (forall c, c ∈ chunks -> forall id, speaks_of c = Some id -> known id) ->
  keeps known (chunks, tool_blocks).
Proof.
  intros [Hl Hids] Hc. split; [|split; [done|naive_solver]]. simpl. clear Hl Hids tool_blocks.
  revert known Hc. induction chunks as [|c chunks IH]; intros known Hc; [done|]. simpl.
  split; [apply Hc; set_solver|]. apply IH. intros c' Hin id Hid. left. eapply Hc; [|done]. set_solver.
Qed.

Context {AL : AnthropicEventLaws AE}.

Lemma start_keeps known tool_blocks data :
  slots_ok tool_blocks known -> keeps known (content_block_start tool_blocks data).
Proof.
  intros Hok. unfold content_block_start.
  destruct (block_start_from_str data) as [s|] eqn:Hs; [|by apply keeps_silent; [|set_solver]].
  pose proof (ensure_ok _ _ _ Hok (block_start_index _ _ Hs)) as [Hok' _].
  destruct (ensure_block_slot tool_blocks (bs_index s)) as [reachable blocks']. simpl in Hok'.
  destruct reachable; [|by apply keeps_silent; [|set_solver]]. simpl.
  destruct (bs_content_block s) as [|id name]; [by apply keeps_silent; [|set_solver]|].
  split; [by simpl|]. simpl. destruct Hok' as [Hl Hids]. split; [by rewrite length_insert|].
  intros i id' [(_ & [= <-] & _)|[_ H]]%list_lookup_insert_Some.
  - right. eexists. split; [by apply list_elem_of_singleton|]. by exists name.
  - left. by eapply Hids.
Qed.

Lemma delta_keeps known tool_blocks data :
  slots_ok tool_blocks known -> keeps known (content_block_delta tool_blocks data).
Proof.
  intros Hok. unfold content_block_delta.
  destruct (block_delta_from_str data) as [d|] eqn:Hd; [|by apply keeps_silent; [|set_solver]].
  pose proof (ensure_ok _ _ _ Hok (block_delta_index _ _ Hd)) as [Hok' _].
  destruct (ensure_block_slot tool_blocks (bd_index d)) as [reachable blocks']. simpl in Hok'.
  destruct reachable; [|by apply keeps_silent; [|set_solver]]. simpl.
  destruct (bd_delta d) as [text|json]; (apply keeps_silent; [done|]).
  - intros c. destruct (is_empty text); [set_solver|]. by intros ->%list_elem_of_singleton.
  - destruct (block_tool blocks' (bd_index d)) as [id|] eqn:Hb; [|set_solver].
    intros c ->%list_elem_of_singleton id' [= <-]. by eapply block_tool_known.
Qed.

Lemma stop_keeps known tool_blocks data :
  slots_ok tool_blocks known -> keeps known (content_block_stop tool_blocks data).
Proof.
  intros Hok. unfold content_block_stop. apply keeps_silent; [done|].
  destruct (block_stop_from_str data) as [i|]; [|set_solver]. cbn [mbind option_bind].
  destruct (block_tool tool_blocks i) as [id|] eqn:Hb; [|set_solver].
  intros c ->%list_elem_of_singleton id' [= <-]. by eapply block_tool_known.
Qed.

Lemma message_delta_silent data c : c ∈ message_delta data -> speaks_of c = None.
Proof.
  unfold message_delta. destruct (message_delta_from_str data) as [md|]; [|set_solver].
  rewrite elem_of_app. intros [H|H].
  - destruct (md_stop_reason md); [|set_solver]. by apply list_elem_of_singleton in H as ->.
  - destruct (md_usage md); [|set_solver]. destruct (_ || _); [|set_solver].
    by apply list_elem_of_singleton in H as ->.
Qed.

Lemma frame_keeps known tool_blocks frame :
  slots_ok tool_blocks known ->
  keeps known ((decode_frame tool_blocks frame).1.1, (decode_frame tool_blocks frame).2).
Proof.
  intros Hok. unfold decode_frame, anthropic_frame_decoder.
  destruct (is_empty _); [by apply keeps_silent; [|set_solver]|].
  destruct (String.eqb _ "content_block_start"); [cbv zeta; cbn [fst snd]; rewrite <- surjective_pairing; by apply start_keeps|].
  destruct (String.eqb _ "content_block_delta"); [cbv zeta; cbn [fst snd]; rewrite <- surjective_pairing; by apply delta_keeps|].
  destruct (String.eqb _ "content_block_stop"); [cbv zeta; cbn [fst snd]; rewrite <- surjective_pairing; by apply stop_keeps|].
  destruct (String.eqb _ "message_delta").
  { apply keeps_silent; [done|]. intros c Hc id. by rewrite (message_delta_silent _ _ Hc). }
  destruct (String.eqb _ "message_stop"); by apply keeps_silent; [|set_solver].
Qed.

(** C40. Whatever events a server sends, the table of content blocks stays within
    1025 slots, and every fragment of arguments and every completion the decoder
    hands on names a call that it announced before. *)
Theorem anthropic_events_are_bounded_and_announced frames :
  let r := decode_frames [] frames in
  (length r.2 <= 1025)%nat /\ announced (fun _ => False) r.1.1.
Proof.
  cbv zeta.
  enough (forall known tool_blocks, slots_ok tool_blocks known ->
    keeps known ((decode_frames tool_blocks frames).1.1, (decode_frames tool_blocks frames).2)) as Hall.
  { destruct (Hall (fun _ => False) []) as [Ha [Hl _]]; [by split; [simpl; lia|]|by split]. }
  induction frames as [|f frames IH]; intros known tool_blocks Hok; [by apply keeps_silent; [|set_solver]|].
  cbn [decode_frames]. pose proof (frame_keeps known tool_blocks f Hok) as [Ha Hs].
  destruct (decode_frame tool_blocks f) as [[cs t] blocks']. cbn [fst snd] in *.
  destruct t; [by split|]. destruct (IH _ _ Hs) as [Ha' [Hl Hs']]. cbn [fst snd] in *. split.
  - apply announced_app. by split.
  - split; [done|]. intros i id Hi. destruct (Hs' i id Hi) as [[?|(c & ? & ?)]|(c & ? & ?)]; [by left|right..];
      exists c; (split; [apply elem_of_app; auto|done]).
Qed.
End Keeps.

(** ** System prompts *)
Section System.
Context {JN : JsonNumbers} {FL : Floats}.
Implicit Types (l : list ChatMessage).

Definition with_messages (l : list ChatMessage) (req : ChatRequest) : ChatRequest := {|
  cr_backend_id := cr_backend_id req; cr_model := cr_model req; cr_messages := l;
  cr_params := cr_params req; cr_tools := cr_tools req |}.
Definition system_text (s : string) : ChatMessage := {|
  cm_role := RoleSystem; cm_content := ContentText s; cm_tool_call_id := None; cm_tool_calls := [] |}.

Lemma find_map_app {A B} (f : A -> option B) (l k : list A) :
  find_map f (l ++ k) = match find_map f l with Some y => Some y | None => find_map f k end.
Proof. induction l as [|x l IH]; [done|]. simpl. by destruct (f x). Qed.

Lemma extract_system_keeps_first l s k k' :
  extract_system (l ++ system_text s :: k) = extract_system (l ++ system_text s :: k').
Proof. unfold extract_system. rewrite !find_map_app. by destruct (find_map _ l). Qed.

(** The [system] field carries one message: of two system messages the second
    is in no part of the body, whatever it says. *)
Theorem later_system_messages_are_dropped req l s k t t' m :
  an_from_chat_request (with_messages (l ++ system_text s :: k ++ system_text t :: m) req) =
  an_from_chat_request (with_messages (l ++ system_text s :: k ++ system_text t' :: m) req).
Proof.
  unfold an_from_chat_request. simpl. destruct (cp_max_tokens (cr_params req)); [|done]. simpl.
  rewrite (extract_system_keeps_first l s _ (k ++ system_text t' :: m)).
  by rewrite !filter_app, !filter_cons_False, !filter_app, !filter_cons_False by naive_solver.
Qed.
End System.

(** ** A concrete server *)
#[export] Instance sample_events : AnthropicEvents := {|
  block_start_from_str := fun s =>
    if String.eqb s "0" then Some {| bs_index := 0; bs_content_block := BlockToolUse "toolu_1" "lookup" |}
    else None;
  block_delta_from_str := fun s =>
    if String.eqb s "0" then Some {| bd_index := 0; bd_delta := InputJsonDelta "{}" |}
    else if String.eqb s "2000" then Some {| bd_index := 2000; bd_delta := TextDelta "far" |} else None;
  block_stop_from_str := fun s => if String.eqb s "0" then Some 0 else None;
  message_delta_from_str := fun _ => None;
|}.
#[export] Instance sample_event_laws : AnthropicEventLaws sample_events.
Proof.
  constructor; intros s b; simpl; repeat case_match; intros [= <-]; done.
Qed.

Definition event (name data : string) : SseFrame := {| sse_event := Some name; sse_data := data |}.

Lemma anthropic_events_are_bounded_and_announced_witness :
  let frames := [event "content_block_delta" "2000"; event "content_block_start" "0";
                 event "content_block_delta" "0"; event "content_block_stop" "0"; event "message_stop" "{}"] in
  (decode_frames [] frames).1.1 =
    [tool_call_start "toolu_1" "lookup"; tool_call_arguments "toolu_1" "{}"; tool_call_complete "toolu_1"] /\
  announced (fun _ => False) (decode_frames [] frames).1.1.
Proof.
  cbv zeta. split; [vm_compute; reflexivity|].
  apply (anthropic_events_are_bounded_and_announced
    [event "content_block_delta" "2000"; event "content_block_start" "0";
     event "content_block_delta" "0"; event "content_block_stop" "0"; event "message_stop" "{}"]).
Defined.

(** A slot outlives its block: a server that closes a block twice has its call
    completed twice, and one that stops the message with a block open leaves the
    call open. *)
Example repeated_stop_completes_twice :
  (decode_frames [] [event "content_block_start" "0"; event "content_block_stop" "0"; event "content_block_stop" "0"]).1.1 =
    [tool_call_start "toolu_1" "lookup"; tool_call_complete "toolu_1"; tool_call_complete "toolu_1"] /\
  (decode_frames [] [event "content_block_start" "0"; event "message_stop" "{}"]).1 =
    ([tool_call_start "toolu_1" "lookup"], true).
Proof. vm_compute. done. Qed.
