(* ===== verification/Ssrf.v ===== *)
(** * Outbound addresses ([ssrf.rs], [util.rs], [providers/service.rs])

    Which URLs a server may be sent to: the check of a redirect target, the
    check of a configured URL, and the redirects a provider request follows. *)
From Stdlib Require Import String.
From S2P Require Import Prelude Ints Str.

(** [url::Url] and the address classifier of [wafer_net_security]. *)
Inductive Host := HostDomain (name : string) | HostIpv4 (bits : Z) | HostIpv6 (bits : Z).
Record ParsedUrl := { scheme : string; host : option Host }.
Class NetSecurity := {
  parse_url : string -> outcome string ParsedUrl;
  is_blocked_url : string -> bool;
  is_blocked_ipv4 : Z -> bool;
  is_blocked_ipv6 : Z -> bool;
}.
(** The host of a parsed URL is ASCII. *)
Class NetSecurityLaws (N : NetSecurity) := {
  parsed_host_ascii : forall s u d, parse_url s = Ok u -> host u = Some (HostDomain d) ->
    str_forall is_ascii d = true;
}.

Definition CLOUD_METADATA_HOSTS : list string := ["metadata.google.internal"; "metadata"].

Definition strip_root_dots (host : string) : string := trim_end_matches "." host.

Definition is_cloud_metadata_host (host : string) : bool :=
  let host := strip_root_dots host in
  existsb (fun blocked => eq_ignore_ascii_case host blocked) CLOUD_METADATA_HOSTS.

Definition is_loopback_host (host : string) : bool :=
  let host := strip_root_dots host in
  match last (split_on "." host) with
  | Some label => eq_ignore_ascii_case label "localhost"
  | None => false
  end.

Section Checks.
Context {NS : NetSecurity}.

Definition is_ssrf_blocked_url (url : string) : bool :=
  if is_blocked_url url then true
  else
    match parse_url url with
    | Ok parsed =>
        match host parsed with
        | Some (HostDomain h) => is_cloud_metadata_host h || is_loopback_host h
        | _ => false
        end
    | _ => true
    end.

(** [util::validate_url_value] *)
Definition validate_url_value (value : string) : outcome string unit :=
  if is_empty value then Ok tt
  else if starts_with "/" value && negb (starts_with "//" value) then Ok tt
  else
    _ ← err_if (contains (String.String (byte 10) "") value || contains (String.String (byte 13) "") value)
          "URL must not contain newlines";
    parsed ← map_err (String.append "invalid URL: ") (parse_url value);
    let is_dev_localhost :=
      match host parsed with
      | Some (HostDomain h) => eq_ignore_ascii_case h "localhost"
      | _ => false
      end in
    _ ← err_if (negb (String.eqb (scheme parsed) "https" || String.eqb (scheme parsed) "http" && is_dev_localhost))
          "URL must use HTTPS (or http://localhost for development)";
    match host parsed with
    | Some (HostIpv4 v4) => err_if (is_blocked_ipv4 v4) "URL must not point to private/internal IP addresses"
    | Some (HostIpv6 v6) => err_if (is_blocked_ipv6 v6) "URL must not point to private/internal IP addresses"
    | Some (HostDomain h) => err_if (is_cloud_metadata_host h) "URL must not point to a cloud metadata endpoint"
    | None => Ok tt
    end.

(** ** Redirects *)
Definition MAX_REDIRECTS : Z := 10.
Inductive RedirectDecision := Follow | BlockSsrf | TooManyRedirects.

Definition redirect_decision (target_url : string) (previous_len : Z) : RedirectDecision :=
  if is_ssrf_blocked_url target_url then BlockSsrf
  else if previous_len >? MAX_REDIRECTS then TooManyRedirects
  else Follow.

(** A request that is answered with one redirect after another: the targets it
    is sent on to, and why it ended when it did not run out of redirects.
    [previous] counts the first URL. *)
Fixpoint follow_redirects (previous : Z) (targets : list string) : list string * RedirectDecision :=
  match targets with
  | [] => ([], Follow)
  | target :: targets =>
      match redirect_decision target previous with
      | Follow => let r := follow_redirects (previous + 1) targets in (target :: r.1, r.2)
      | refusal => ([], refusal)
      end
  end.
End Checks.

(** ** Names *)
Section Names.

Lemma drop_while_end_app {A} (p : A -> bool) (l k : list A) :
  Forall (fun x => p x = true) k -> drop_while_end p (l ++ k) = drop_while_end p l.
Proof.
  intros Hk. induction l as [|x l IH]; simpl; [|by rewrite IH].
  induction Hk as [|x k Hx Hk IH]; [done|]. simpl. by rewrite IH, Hx.
Qed.

Lemma drop_while_end_last_keep {A} (p : A -> bool) (l : list A) x :
  p x = false -> drop_while_end p (l ++ [x]) = l ++ [x].
Proof.
  intros Hx. induction l as [|y l IH]; simpl; [by rewrite Hx|]. rewrite IH. by destruct l.
Qed.

Lemma list_ascii_app s t :
  list_ascii_of_string (String.append s t) = list_ascii_of_string s ++ list_ascii_of_string t.
Proof. induction s as [|a s IH]; [done|]. rewrite str_app_cons. simpl. by rewrite IH. Qed.

(** A name that does not end in a dot is what is left of it under any number of
    root dots. *)
Lemma strip_root_dots_name s c n :
  str_forall is_ascii (String.append s (String.String c "")) = true -> c <> "."%char ->
  strip_root_dots (String.append (String.append s (String.String c "")) (repeat_char "." n)) =
  String.append s (String.String c "").
Proof.
  intros Ha Hc. unfold strip_root_dots, trim_end_matches.
  rewrite split_chars_ascii by (rewrite str_forall_app, Ha; by apply repeat_char_forall).
  rewrite list_ascii_app, map_app, drop_while_end_app.
  - rewrite list_ascii_app, map_app. simpl. rewrite drop_while_end_last_keep.
    + rewrite <- (concat_split_chars (String.append s (String.String c ""))).
      by rewrite split_chars_ascii, list_ascii_app, map_app by done.
    + apply String.eqb_neq. congruence.
  - induction n as [|n IH]; [constructor|]. simpl. by constructor.
Qed.

Lemma split_on_last c l b :
  Forall (no_char c) (l ++ [b]) ->
  last (split_on c (join (String.String c "") (l ++ [b]))) = Some b.
Proof. intros H. rewrite split_on_join by (done || by destruct l). by rewrite last_snoc. Qed.

(** A dotted name ends in its last label, which is not empty and has no dot. *)
Lemma join_last (l : list string) (b : string) :
  exists s, join "." (l ++ [b]) = String.append s b.
Proof.
  induction l as [|x l [s Hs]]; [by exists ""|].
  exists (String.append x (String.append "." s)). rewrite !str_app_assoc, <- Hs. by destruct l.
Qed.

Lemma str_snoc (b : string) : b <> "" -> exists t c, b = String.append t (String.String c "").
Proof.
  induction b as [|a b IH]; [done|]. intros _. destruct b as [|a' b]; [by exists "", a|].
  destruct IH as (t & c & ->); [done|]. exists (String.String a t), c. by rewrite str_app_cons.
Qed.

Definition dotted (labels : list string) (root_dots : nat) : string :=
  String.append (join "." labels) (repeat_char "." root_dots).

Lemma strip_dotted l b n :
  str_forall is_ascii (join "." (l ++ [b])) = true -> b <> "" -> no_char "." b ->
  strip_root_dots (dotted (l ++ [b]) n) = join "." (l ++ [b]).
Proof.
  intros Ha Hb Hdot. unfold dotted. destruct (join_last l b) as [s Hs].
  destruct (str_snoc b Hb) as (t & c & ->). rewrite Hs in *.
  rewrite <- str_app_assoc in *. apply strip_root_dots_name; [done|].
  unfold no_char in Hdot. rewrite str_forall_app in Hdot. apply andb_true_iff in Hdot as [_ Hc].
  intros ->. done.
Qed.

Lemma label_no_dot l b : Forall (no_char ".") (l ++ [b]) -> no_char "." b.
Proof. intros Hl. rewrite Forall_app in Hl. by inversion_clear Hl as [_ H]; inversion_clear H. Qed.

(** RFC 6761, label by label: a name is the loopback's exactly when its last
    label is [localhost] in any case, however many labels precede it and root
    dots follow. *)
Theorem is_loopback_host_spec l b n :
  str_forall is_ascii (join "." (l ++ [b])) = true -> b <> "" -> Forall (no_char ".") (l ++ [b]) ->
  is_loopback_host (dotted (l ++ [b]) n) = eq_ignore_ascii_case b "localhost".
Proof.
  intros Ha Hb Hl. unfold is_loopback_host. rewrite strip_dotted; [|done..|].
  - by rewrite split_on_last.
  - by eapply label_no_dot.
Qed.

Lemma metadata_spec l b n :
  str_forall is_ascii (join "." (l ++ [b])) = true -> b <> "" -> no_char "." b ->
  is_cloud_metadata_host (dotted (l ++ [b]) n) =
  eq_ignore_ascii_case (join "." (l ++ [b])) "metadata.google.internal" ||
  eq_ignore_ascii_case (join "." (l ++ [b])) "metadata".
Proof.
  intros Ha Hb Hd. unfold is_cloud_metadata_host. rewrite strip_dotted by done. simpl. by rewrite orb_false_r.
Qed.
End Names.

Section Redirects.
Context {NS : NetSecurity}.

(** An internal name: of the loopback, or of a cloud's metadata service, in any
    case and with any number of root dots. *)
Definition internal_name (h : string) : Prop :=
  exists l b n, h = dotted (l ++ [b]) n /\ b <> "" /\ Forall (no_char ".") (l ++ [b]) /\
    (eq_ignore_ascii_case b "localhost" = true \/
     eq_ignore_ascii_case (join "." (l ++ [b])) "metadata.google.internal" = true \/
     eq_ignore_ascii_case (join "." (l ++ [b])) "metadata" = true).

Definition public_target (t : string) : Prop :=
  is_blocked_url t = false /\
  exists u, parse_url t = Ok u /\ forall d, host u = Some (HostDomain d) -> ~ internal_name d.

Lemma internal_name_blocked h : str_forall is_ascii h = true -> internal_name h ->
  is_cloud_metadata_host h || is_loopback_host h = true.
Proof.
  intros Ha (l & b & n & -> & Hb & Hl & Hcase). unfold dotted in Ha. rewrite str_forall_app in Ha.
  apply andb_true_iff in Ha as [Ha _].
  assert (no_char "." b) as Hd by (by eapply label_no_dot).
  rewrite metadata_spec, is_loopback_host_spec by done. destruct Hcase as [-> | [-> | ->]]; auto with bool.
Qed.

Lemma unblocked_public {NL : NetSecurityLaws NS} t : is_ssrf_blocked_url t = false -> public_target t.
Proof.
  unfold is_ssrf_blocked_url, public_target. destruct (is_blocked_url t); [done|].
  destruct (parse_url t) as [u| |] eqn:Hu; [|done..]. intros H. split; [done|]. exists u. split; [done|].
  intros d Hd Hi. rewrite Hd in H. rewrite internal_name_blocked in H; [done| |done].
  by eapply parsed_host_ascii.
Qed.

(** C16. Whatever redirects a provider answers with, the client is sent on at
    most ten times, and never to an address the classifier blocks or to an
    internal name. *)
Theorem redirects_stay_public {NL : NetSecurityLaws NS} targets :
  let followed := (follow_redirects 1 targets).1 in
  (length followed <= 10)%nat /\ Forall public_target followed /\ followed `prefix_of` targets.
Proof.
  cbv zeta.
  enough (forall previous, 1 <= previous ->
    Z.of_nat (length (follow_redirects previous targets).1) <= Z.max 0 (11 - previous) /\
    Forall public_target (follow_redirects previous targets).1 /\
    (follow_redirects previous targets).1 `prefix_of` targets) as H.
  { destruct (H 1 ltac:(done)) as (? & ? & ?). split; [lia|done]. }
  induction targets as [|t targets IH]; intros previous Hp; [by split; [simpl; lia|]|].
  cbn [follow_redirects]. unfold redirect_decision.
  assert (Z.of_nat (@length string []) <= Z.max 0 (11 - previous) /\ Forall public_target [] /\
    [] `prefix_of` t :: targets) as Hnil by (split; [simpl; lia|split; [constructor|apply prefix_nil]]).
  destruct (is_ssrf_blocked_url t) eqn:Hb; [exact Hnil|].
  unfold MAX_REDIRECTS. destruct (previous >? 10) eqn:Hm; [exact Hnil|].
  destruct (IH (previous + 1) ltac:(lia)) as (Hl & Hall & Hpre). cbn [fst length].
  split; [lia|]. split; [constructor; [by apply unblocked_public|done]|by apply prefix_cons].
Qed.
End Redirects.

(** ** A concrete classifier *)
#[export] Instance sample_net : NetSecurity := {|
  parse_url := fun s =>
    match strip_prefix "https://" s with
    | Some h => if str_forall is_ascii h then Ok {| scheme := "https"; host := Some (HostDomain h) |} else Err "host"
    | None => Err "relative URL without a base"
    end;
  is_blocked_url := fun s => negb (starts_with "https://" s);
  is_blocked_ipv4 := fun _ => true;
  is_blocked_ipv6 := fun _ => true;
|}.
#[export] Instance sample_net_laws : NetSecurityLaws sample_net.
Proof.
  constructor. intros s u d. cbn [parse_url sample_net].
  destruct (strip_prefix "https://" s) as [h|]; [|discriminate].
  destruct (str_forall is_ascii h) eqn:Hh; [|discriminate]. intros [= <-] [= <-]. exact Hh.
Qed.

Lemma redirects_stay_public_witness :
  follow_redirects 1 ["https://api.test"; "https://api.localhost.."; "https://b.test"] =
    (["https://api.test"], BlockSsrf) /\
  Forall public_target (follow_redirects 1 ["https://api.test"; "https://api.localhost.."; "https://b.test"]).1.
Proof.
  split; [reflexivity|].
  apply (redirects_stay_public ["https://api.test"; "https://api.localhost.."; "https://b.test"]).
Defined.
