(* ===== verification/ChatStream.v ===== *)
(** * The provider service ([blocks/llm/providers/service.rs])

    The providers in memory, their models, and a streamed chat: the request,
    the reply read chunk by chunk, what the receiver gets and how the stream
    ends.  A reply that is text without oversized frames is delivered as the
    decoding of its whole body, however it was cut; a stream that ends without an error is whole. *)
From Stdlib Require Import String.
From S2P Require Import Prelude Ints Str Contracts Utf8 Sse Llm SseDecode OpenAiWire AnthropicWire Ssrf.

(** ** Providers in memory *)
(** [ModelInfo::new] *)
Record ModelInfo := { mi_backend_id : string; mi_model_id : string; mi_display_name : string }.
Definition model_info (provider id : string) : ModelInfo :=
  {| mi_backend_id := provider; mi_model_id := id; mi_display_name := id |}.
Inductive ModelStatus := StatusReady | StatusError (m : string).

(** The order in which a [HashMap] yields its entries. *)
Class HashOrder := hash_items : forall A, gmap string A -> list (string * A).
Class HashOrderLaws (H : HashOrder) := {
  hash_items_spec : forall A (m : gmap string A) k v, (k, v) ∈ hash_items A m <-> m !! k = Some v;
}.

(** What the HTTP stack says of a failed response, and the decoder of a models
    document: the ids, or what is wrong with it. *)
Class HttpText := {
  status_display : Z -> string;
  from_utf8_lossy : string -> string;
  models_from_slice : string -> outcome string (list string);
}.

Record Inner := { providers : gmap string ProviderConfig; cached_models : gmap string (list ModelInfo) }.
Definition empty_service : Inner := {| providers := ∅; cached_models := ∅ |}.

Definition provider_config (st : Inner) (backend_id : string) : option ProviderConfig := providers st !! backend_id.

(** One turn of the loop of [configure]. *)
Definition add_provider (st : Inner) (p : ProviderConfig) : Inner := {|
  providers := <[pc_name p := p]> (providers st);
  cached_models := <[pc_name p := map (model_info (pc_name p)) (pc_models p)]> (cached_models st) |}.
Definition configure (st : Inner) (l : list ProviderConfig) : Inner := foldl add_provider empty_service l.

(** An item of the stream. *)
Abbreviation Item := (outcome LlmError ChatChunk).

Section Service.
Context {HO : HashOrder} {HT : HttpText} {NS : NetSecurity}.

Definition providers_snapshot (st : Inner) : list ProviderConfig := (hash_items _ (providers st)).*2.

Definition list_models (st : Inner) : list ModelInfo :=
  flat_map (fun p => if negb (pc_enabled p.2) then [] else default [] (cached_models st !! p.1))
    (hash_items _ (providers st)).

Definition status (st : Inner) (backend_id : string) : outcome LlmError ModelStatus :=
  match providers st !! backend_id with
  | None => Err (LlmInvalidRequest (String.append "unknown backend: " backend_id))
  | Some cfg => Ok (if pc_enabled cfg then StatusReady else StatusError "provider disabled")
  end.

Definition claims_backend (st : Inner) (backend_id : string) : bool := bool_decide (is_Some (providers st !! backend_id)).

Definition decode_models_response (body provider_name : string) : outcome string (list ModelInfo) :=
  match models_from_slice body with
  | Ok ids => Ok (map (model_info provider_name) ids)
  | Err e => Err (String.append "models response decode: " e)
  | Panic => Panic
  end.

Definition is_success (code : Z) : bool := in_range 200 299 code.
Definition blocked_endpoint (e : string) : LlmError :=
  LlmInvalidRequest (String.append "provider endpoint blocked (SSRF): " e).

(** How a request ends: cancelled while it waits, failed, or answered. *)
Inductive Answer :=
| AnswerFailed (e : string)
| AnswerResponse (code : Z) (body : string).

(** [discover_models]: the provider is looked up before the request and the
    result stored after it, when another configuration may be in place
    ([after]). *)
Definition discover_models (st : Inner) (provider_name : string) (answer : Answer) (after : Inner)
  : outcome LlmError (list ModelInfo) * Inner :=
  match providers st !! provider_name with
  | None => (Err (LlmInvalidRequest (String.append "unknown provider: " provider_name)), st)
  | Some p =>
      if negb (bool_decide (pc_models p = [])) then (Ok (default [] (cached_models st !! provider_name)), st)
      else
        match pc_protocol p with
        | Anthropic => (Err LlmNotSupported, st)
        | OpenAi | OpenAiCompatible =>
            let url := String.append (trim_end_matches "/" (pc_endpoint p)) "/models" in
            match validate_url_value url with
            | Err e => (Err (blocked_endpoint e), st)
            | Panic => (Panic, st)
            | Ok _ =>
                match answer with
                | AnswerFailed e => (Err (LlmNetwork e), after)
                | AnswerResponse code body =>
                    if negb (is_success code) then
                      (Err (LlmBackendError (concat_chars [status_display code; ": "; from_utf8_lossy body])), after)
                    else
                      match decode_models_response body provider_name with
                      | Ok models =>
                          (Ok models, {| providers := providers after;
                                         cached_models := <[provider_name := models]> (cached_models after) |})
                      | Err e => (Err (LlmBackendError e), after)
                      | Panic => (Panic, after)
                      end
                end
            end
        end
  end.

(** ** The decode loop of a chat *)
Context {OF : OpenAiFrames} {AE : AnthropicEvents}.

Inductive Decoder := DecOpenAi (d : OpenAiSseDecoder) | DecAnthropic (d : AnthropicSseDecoder).
Definition for_protocol (p : ProviderProtocol) : Decoder :=
  match p with
  | OpenAi | OpenAiCompatible => DecOpenAi openai_new
  | Anthropic => DecAnthropic anthropic_new
  end.
Definition push (d : Decoder) (input : string) : DecodeBatch * Decoder :=
  match d with
  | DecOpenAi d => let r := openai_push d input in (r.1, DecOpenAi r.2)
  | DecAnthropic d => let r := anthropic_push d input in (r.1, DecAnthropic r.2)
  end.
Definition unparsed_input (d : Decoder) : bool :=
  match d with
  | DecOpenAi d => has_unparsed_input (od_frames d)
  | DecAnthropic d => has_unparsed_input (ad_frames d)
  end.

(** What [select!] takes next. *)
Inductive Event := EvCancelled | EvBytes (b : string) | EvError (e : string) | EvEnd.
(** How the task stands: it waits for an event, it found the receiver gone, or
    it returned. *)
Inductive Ending := Waiting | ReceiverGone | Closed.

Definition says_why (c : ChatChunk) : bool := bool_decide (is_Some (finish_reason c)).

(** The loop over a batch.  The receiver takes [room] more items before it is
    dropped; a send after that fails. *)
Fixpoint send_chunks (room : nat) (saw_finish : bool) (chunks : list ChatChunk) {struct chunks}
  : list Item * option (nat * bool) :=
  match chunks with
  | [] => ([], Some (room, saw_finish))
  | chunk :: chunks =>
      let saw_finish := saw_finish || says_why chunk in
      match room with
      | O => ([], None)
      | S room => let r := send_chunks room saw_finish chunks in (Ok chunk :: r.1, r.2)
      end
  end.
(** A last item, whose delivery is not checked. *)
Definition send_last (room : nat) (e : LlmError) : list Item * Ending := (take room [Err e], Closed).

Definition lost_message (lost : FeedLoss) : string :=
  concat_chars ["provider stream dropped "; loss_display lost; "; the answer is incomplete"].
Definition cut_message (mid_frame : bool) : string :=
  concat_chars ["provider stream ended"; if mid_frame then " (mid-frame)" else "";
                " before the model reported why it stopped"].

Fixpoint stream_body (room : nat) (decoder : Decoder) (saw_finish : bool) (events : list Event) : list Item * Ending :=
  match events with
  | [] => ([], Waiting)
  | EvCancelled :: _ => send_last room LlmCancelled
  | EvBytes b :: events =>
      let r := push decoder b in
      let sent := send_chunks room saw_finish (batch_chunks r.1) in
      match sent.2 with
      | None => (sent.1, ReceiverGone)
      | Some (room, saw_finish) =>
          let rest :=
            if loss_any (batch_lost r.1) then send_last room (LlmBackendError (lost_message (batch_lost r.1)))
            else if batch_done r.1 then ([], Closed)
            else stream_body room r.2 saw_finish events in
          (sent.1 ++ rest.1, rest.2)
      end
  | EvError e :: _ => send_last room (LlmNetwork e)
  | EvEnd :: _ =>
      if negb saw_finish then send_last room (LlmBackendError (cut_message (unparsed_input decoder)))
      else ([], Closed)
  end.

(** ** [chat_stream] *)
Inductive Reply := ReplyCancelled | ReplyAnswer (a : Answer) (events : list Event).

Definition stream_reply (room : nat) (protocol : ProviderProtocol) (reply : Reply) : list Item * Ending :=
  match reply with
  | ReplyCancelled => send_last room LlmCancelled
  | ReplyAnswer (AnswerFailed e) _ => send_last room (LlmNetwork e)
  | ReplyAnswer (AnswerResponse code body) events =>
      if negb (is_success code) then
        let msg := concat_chars [status_display code; ": "; from_utf8_lossy body] in
        send_last room (if (code =? 401) || (code =? 403) then LlmUnauthorized
                        else if code =? 429 then LlmRateLimited else LlmBackendError msg)
      else stream_body room (for_protocol protocol) false events
  end.

Context {JN : JsonNumbers} {FL : Floats} {OJ : OpenAiJson} {AJ : AnthropicJson}.

Definition map_openai_encode_error (e : EncodeError) : LlmError :=
  match e with MissingApiKey => LlmUnauthorized | Serialize m => LlmInvalidRequest m end.
Definition map_anthropic_encode_error (e : AnthropicEncodeError) : LlmError :=
  match e with
  | AnMissingApiKey => LlmUnauthorized
  | AnMissingMaxTokens => LlmInvalidRequest "max_tokens required for Anthropic"
  | AnSerialize m => LlmInvalidRequest m
  end.

Definition encode (cfg : ProviderConfig) (req : ChatRequest) : outcome LlmError EncodedRequest :=
  match pc_protocol cfg with
  | OpenAi => map_err map_openai_encode_error (encode_chat_request req cfg (pc_api_key cfg))
  | Anthropic => map_err map_anthropic_encode_error (an_encode_chat_request req cfg (pc_api_key cfg))
  | OpenAiCompatible => map_err map_openai_encode_error (encode_compatible_request req cfg (pc_api_key cfg))
  end.

(** What is sent, when a request is sent at all, or why not. *)
Definition prepare_chat (st : Inner) (req : ChatRequest) : outcome LlmError (ProviderProtocol * EncodedRequest) :=
  match provider_config st (cr_backend_id req) with
  | None => Err (LlmInvalidRequest (String.append "unknown backend: " (cr_backend_id req)))
  | Some cfg =>
      encoded ← encode cfg req;
      _ ← map_err blocked_endpoint (validate_url_value encoded.1.1);
      Ok (pc_protocol cfg, encoded)
  end.

(** [transport] answers the request that is sent. *)
Definition chat_stream (st : Inner) (req : ChatRequest) (transport : EncodedRequest -> Reply) (room : nat)
  : list Item * Ending :=
  match prepare_chat st req with
  | Ok (protocol, encoded) => stream_reply room protocol (transport encoded)
  | Err e => ([Err e], Closed)
  | Panic => ([], Closed)
  end.
End Service.

(** ** Reference: the reply as one byte string *)
Section Reference.
Context {OF : OpenAiFrames} {AE : AnthropicEvents}.

(** The chunks of a whole body, and whether a terminal frame ends them. *)
Definition decode_whole (p : ProviderProtocol) (whole : string) : list ChatChunk * bool :=
  match p with
  | OpenAi | OpenAiCompatible => (decode_frames (∅ : calls) (frames_of whole)).1
  | Anthropic => (decode_frames ([] : blocks) (frames_of whole)).1
  end.

(** What a body that ended is worth to the receiver. *)
Definition whole_reply (p : ProviderProtocol) (whole : string) : list Item :=
  let '(chunks, done) := decode_whole p whole in
  map Ok chunks ++
  (if done || existsb says_why chunks then []
   else [Err (LlmBackendError (cut_message (rest_unparsed whole)))]).

(** The decoder has read [whole] without a terminal frame. *)
Definition reading (p : ProviderProtocol) (whole : string) (d : Decoder) (chunks : list ChatChunk) : Prop :=
  match p, d with
  | (OpenAi | OpenAiCompatible), DecOpenAi d => decoded ∅ whole (od_frames d) (od_started d) chunks
  | Anthropic, DecAnthropic d => decoded [] whole (ad_frames d) (ad_tool_blocks d) chunks
  | _, _ => False
  end.

Lemma reading_new p : reading p "" (for_protocol p) [].
Proof. destruct p; apply decoded_new. Qed.

Lemma reading_whole p whole d chunks : reading p whole d chunks ->
  decode_whole p whole = (chunks, false) /\ unparsed_input d = rest_unparsed whole.
Proof.
  unfold decode_whole.
  destruct p, d; simpl; try done; intros H; (split; [by rewrite (decoded_frames _ _ _ _ _ H)|exact (decoded_unparsed _ _ _ _ _ H)]).
Qed.

Lemma reading_push p whole d chunks input :
  reading p whole d chunks -> loss_any (batch_lost (push d input).1) = false ->
  (batch_done (push d input).1 = false ->
     reading p (String.append whole input) (push d input).2 (chunks ++ batch_chunks (push d input).1)) /\
  (batch_done (push d input).1 = true ->
     decode_whole p (String.append whole input) = (chunks ++ batch_chunks (push d input).1, true)).
Proof.
  intros H [Hi Hcap]%orb_false_iff. unfold decode_whole.
  destruct p, d as [d|d]; simpl in *; try done;
    (destruct (decoded_push _ _ _ _ _ input H Hcap) as [H1 H2]; split; [exact H1|]; intros Hd;
     destruct (H2 Hd) as [s' ->]; done).
Qed.

Lemma decode_whole_done_app p whole input chunks :
  decode_whole p whole = (chunks, true) -> decode_whole p (String.append whole input) = (chunks, true).
Proof.
  unfold decode_whole. destruct p; [destruct (decode_frames (∅ : calls) (frames_of whole)) as [[cs b] s] eqn:Hd
    |destruct (decode_frames ([] : blocks) (frames_of whole)) as [[cs b] s] eqn:Hd
    |destruct (decode_frames (∅ : calls) (frames_of whole)) as [[cs b] s] eqn:Hd];
    simpl; intros [= -> ->]; by rewrite (decode_frames_done_app _ _ _ _ _ Hd).
Qed.

(** The batches a task reads, up to the terminal one. *)
Fixpoint batches (d : Decoder) (reads : list string) : list DecodeBatch :=
  match reads with
  | [] => []
  | b :: reads => let r := push d b in r.1 :: (if batch_done r.1 then [] else batches r.2 reads)
  end.
Definition nothing_lost (d : Decoder) (reads : list string) : Prop :=
  Forall (fun b => loss_any (batch_lost b) = false) (batches d reads).

(** Of an intact body nothing is lost, however it is cut. *)
Lemma intact_push p whole d chunks input more :
  reading p whole d chunks -> intact (String.append (String.append whole input) more) -> loss_any (batch_lost (push d input).1) = false.
Proof. destruct p, d as [d|d]; simpl; try done; intros (frames & bad & Ht & _); by eapply feed_intact. Qed.
Lemma intact_nothing_lost p whole d chunks reads :
  reading p whole d chunks -> intact (String.append whole (concat_chars reads)) -> nothing_lost d reads.
Proof.
  unfold nothing_lost. revert whole d chunks. induction reads as [|b reads IH]; intros whole d chunks Hr Hi; [constructor|].
  cbn [concat_chars foldr] in Hi. rewrite <- str_app_assoc in Hi. pose proof (intact_push _ _ _ _ _ _ Hr Hi) as Hb.
  cbn [batches]. constructor; [done|]. destruct (batch_done (push d b).1) eqn:Hdone; [constructor|].
  destruct (reading_push _ _ _ _ b Hr Hb) as [Hgo _]. by eapply IH; [apply Hgo|].
Qed.
End Reference.

Section Delivery.
Context {OF : OpenAiFrames} {AE : AnthropicEvents}.

(** A batch is delivered as far as there is room. *)
Lemma send_chunks_spec room saw chunks :
  send_chunks room saw chunks =
  (take room (map Ok chunks),
   if (length chunks <=? room)%nat then Some ((room - length chunks)%nat, saw || existsb says_why chunks) else None).
Proof.
  revert room saw. induction chunks as [|c chunks IH]; intros room saw; simpl.
  - by rewrite take_nil, Nat.sub_0_r, orb_false_r.
  - destruct room as [|room]; [done|]. rewrite IH. simpl. by rewrite orb_assoc.
Qed.

Lemma take_map_app {A B} (f : A -> B) n (l : list A) k :
  (length l <= n)%nat -> take n (map f l ++ k) = map f l ++ take (n - length l) k.
Proof. intros H. rewrite take_app, take_ge, length_map by (rewrite length_map; lia). done. Qed.

(** From a decoder that is reading, a body that ends is delivered as the rest of
    its decoding. *)
Lemma stream_body_reading p whole d chunks reads room saw :
  reading p whole d chunks -> saw = existsb says_why chunks -> nothing_lost d reads ->
  exists more, whole_reply p (String.append whole (concat_chars reads)) = map Ok chunks ++ more /\
    (stream_body room d saw (map EvBytes reads ++ [EvEnd])).1 = take room more.
Proof.
  revert whole d chunks room saw. induction reads as [|b reads IH]; intros whole d chunks room saw Hr -> Hl.
  - apply reading_whole in Hr as [Hw Hu]. unfold whole_reply. simpl. rewrite str_app_nil_r, Hw. simpl.
    eexists. split; [done|]. rewrite Hu. by destruct (existsb says_why chunks); [rewrite take_nil|].
  - unfold nothing_lost in Hl. simpl in Hl. apply Forall_cons in Hl as [Hb Hl].
    destruct (reading_push _ _ _ _ b Hr Hb) as [Hgo Hend]. cbn [map app stream_body concat_chars foldr].
    change (foldr String.append "" reads) with (concat_chars reads). rewrite send_chunks_spec. cbn [fst snd].
    set (r := push d b) in *. rewrite Hb. rewrite <- str_app_assoc.
    destruct (batch_done r.1) eqn:Hdone.
    + specialize (Hend eq_refl). apply (decode_whole_done_app _ _ (concat_chars reads)) in Hend.
      unfold whole_reply. rewrite Hend. simpl. rewrite app_nil_r, map_app. eexists. split; [done|].
      destruct (_ <=? room)%nat; simpl; [by rewrite app_nil_r|done].
    + destruct (IH _ _ _ (room - length (batch_chunks r.1))%nat (existsb says_why (chunks ++ batch_chunks r.1))
        (Hgo eq_refl) eq_refl Hl) as (more & Hw & Hs).
      rewrite Hw, map_app, <- app_assoc. eexists. split; [done|].
      destruct (Nat.leb_spec (length (batch_chunks r.1)) room).
      * cbn [fst snd]. rewrite <- existsb_app. rewrite Hs, take_map_app by done. f_equal.
        by rewrite take_ge by (rewrite length_map; lia).
      * cbn [fst]. rewrite take_app. replace (room - _)%nat with 0%nat by (rewrite length_map; lia).
        by rewrite app_nil_r.
Qed.

(** C19. A reply is delivered the same however the network cuts it: of a body
    that ended, is text and holds no frame over the cap, the receiver gets the
    decoding of the body as one byte string, up to the terminal frame, followed
    by an error unless the model said why it stopped; a receiver that leaves
    gets a prefix of that. *)
Theorem reply_is_its_decoding p body reads room
  (Hcut : concat_chars reads = body) (Hintact : intact body) :
  (stream_body room (for_protocol p) false (map EvBytes reads ++ [EvEnd])).1 = take room (whole_reply p body).
Proof.
  subst body. assert (nothing_lost (for_protocol p) reads) as Hlost by exact (intact_nothing_lost p "" _ [] reads (reading_new p) Hintact).
  destruct (stream_body_reading p "" _ [] reads room false (reading_new p) eq_refl Hlost) as (more & Hw & ->).
  rewrite str_app_nil_l in Hw. simpl in Hw. by rewrite Hw.
Qed.

(** Everything delivered was decoded. *)
Definition all_ok (items : list Item) (chunks : list ChatChunk) : Prop := items = map Ok chunks.

Lemma stream_body_closed p whole d chunks saw room events items more :
  reading p whole d chunks -> saw = existsb says_why chunks ->
  stream_body room d saw events = (items, Closed) -> items = map Ok more -> (length more < room)%nat ->
  exists reads rest done, events = map EvBytes reads ++ rest /\
    decode_whole p (String.append whole (concat_chars reads)) = (chunks ++ more, done) /\
    nothing_lost d reads /\
    (done = true \/ (exists later, rest = EvEnd :: later) /\ existsb says_why (chunks ++ more) = true).
Proof.
  revert whole d chunks saw room items more.
  assert (forall room e items more, send_last room e = (items, Closed) -> items = map Ok more ->
    (length more < room)%nat -> False) as Hlast.
  { unfold send_last. intros room e items more [= <-] Hm Hlen. destruct room; [lia|]. by destruct more. }
  induction events as [|ev events IH]; intros whole d chunks saw room items more Hr -> Hrun Hm Hlen; [done|].
  destruct ev as [|b|e|]; cbn [stream_body] in Hrun; [by edestruct Hlast| |by edestruct Hlast|].
  - rewrite send_chunks_spec in Hrun. cbn [fst snd] in Hrun. set (r := push d b) in *.
    destruct (Nat.leb_spec (length (batch_chunks r.1)) room) as [Hroom|]; [|by injection Hrun].
    rewrite take_ge in Hrun by (rewrite length_map; lia).
    assert (forall k, items = map Ok (batch_chunks r.1) ++ k -> exists more', more = batch_chunks r.1 ++ more' /\
      k = map Ok more') as Hsplit.
    { intros k Hk. rewrite Hm in Hk. apply map_eq_app in Hk as (a & c & -> & Ha & <-). exists c.
      split; [|done]. f_equal. clear -Ha. revert Ha. generalize (batch_chunks r.1). induction a as [|x a IHa];
        intros [|y l]; simpl; try done. intros [= -> ?]. f_equal. by apply IHa. }
    destruct (loss_any (batch_lost r.1)) eqn:Hloss.
    + cbn [fst snd] in Hrun. injection Hrun as <-. destruct (Hsplit _ eq_refl) as (more' & -> & Hk).
      rewrite length_app in Hlen. exfalso. eapply (Hlast (room - length (batch_chunks r.1))%nat); [|exact Hk|lia].
      done.
    + destruct (reading_push _ _ _ _ b Hr Hloss) as [Hgo Hend].
      destruct (batch_done r.1) eqn:Hdone; cbn [fst snd] in Hrun.
      * injection Hrun as <-. destruct (Hsplit _ eq_refl) as (more' & -> & Hk). destruct more'; [|done].
        rewrite app_nil_r. exists [b], events, true. repeat split; [| |by left].
        -- cbn [concat_chars foldr]. rewrite str_app_nil_r. exact (Hend Hdone).
        -- unfold nothing_lost. cbn [batches]. fold r. rewrite Hdone. repeat constructor. done.
      * destruct (stream_body _ _ _ events) as [items' ending] eqn:Hrest. injection Hrun as <- ->.
        destruct (Hsplit _ eq_refl) as (more' & -> & ->). rewrite length_app in Hlen.
        destruct (IH _ _ _ _ _ _ more' (Hgo Hdone) (eq_sym (existsb_app _ _ _)) Hrest eq_refl ltac:(lia))
          as (reads & rest & done & -> & Hw & Hl & Hcase).
        exists (b :: reads), rest, done. rewrite <- app_assoc in Hw, Hcase. rewrite str_app_assoc in Hw.
        repeat split; [done| |done]. unfold nothing_lost. cbn [batches]. fold r. rewrite Hdone. by constructor.
  - destruct (existsb says_why chunks) eqn:Hsaw; cbn [negb] in Hrun; [|by edestruct Hlast].
    injection Hrun as <-. destruct more; [|done]. exists [], (EvEnd :: events), false.
    apply reading_whole in Hr as [Hw _]. cbn [concat_chars foldr map app]. rewrite str_app_nil_r, app_nil_r.
    repeat split; [done|constructor|]. right. eauto.
Qed.

(** A stream that ends without an error is whole, whatever happened on the
    way: when the task returned and the receiver, who was there to the last, got
    no error, no byte it read was lost, what was delivered is the decoding of the
    bytes read, and either that ends in the provider's terminal frame or the body
    ended after the model had said why it stopped. *)
Theorem clean_end_is_whole p room events items chunks
  (Hrun : stream_body room (for_protocol p) false events = (items, Closed))
  (Hok : items = map Ok chunks) (Hroom : (length chunks < room)%nat) :
  exists reads rest done, events = map EvBytes reads ++ rest /\
    nothing_lost (for_protocol p) reads /\
    decode_whole p (concat_chars reads) = (chunks, done) /\
    (done = true \/ (exists later, rest = EvEnd :: later) /\ existsb says_why chunks = true).
Proof.
  destruct (stream_body_closed p "" _ [] false room events items chunks (reading_new p) eq_refl Hrun Hok Hroom)
    as (reads & rest & done & He & Hd & Hl & Hcase).
  exists reads, rest, done. rewrite str_app_nil_l in Hd. done.
Qed.
End Delivery.

(** ** Tool calls of a reply *)
Section ToolCalls.
Context {OF : OpenAiFrames}.

Lemma frames_are_payloads (started : calls) frames :
  decode_frames started frames = push_payloads started (map sse_data frames).
Proof.
  revert started. induction frames as [|f frames IH]; intros started; [done|]. cbn [decode_frames map push_payloads].
  unfold decode_frame, openai_frame_decoder. cbv zeta. destruct (push_frame started (sse_data f)) as [r started'].
  cbn [fst snd]. destruct (batch_done r); [done|]. by rewrite IH.
Qed.
End ToolCalls.

(** ** The requests that are sent *)
Section Sent.
Context {HO : HashOrder} {HT : HttpText} {NS : NetSecurity} {OF : OpenAiFrames} {AE : AnthropicEvents}
        {JN : JsonNumbers} {FL : Floats} {OJ : OpenAiJson} {AJ : AnthropicJson}.

(** A request is sent only for a configured provider, to a URL that passed the
    check, with the credential of that provider or none. *)
Lemma sent_requests_are_checked st req protocol url headers body :
  prepare_chat st req = Ok (protocol, (url, headers, body)) ->
  exists cfg, providers st !! cr_backend_id req = Some cfg /\ protocol = pc_protocol cfg /\
    validate_url_value url = Ok tt /\
    match protocol with
    | Anthropic => headers !! "x-api-key" = pc_api_key cfg /\ is_Some (pc_api_key cfg)
    | OpenAi => headers !! "Authorization" = String.append "Bearer " <$> pc_api_key cfg /\ is_Some (pc_api_key cfg)
    | OpenAiCompatible => headers !! "Authorization" = String.append "Bearer " <$> pc_api_key cfg
    end.
Proof.
  unfold prepare_chat, provider_config. destruct (providers st !! cr_backend_id req) as [cfg|]; [|done].
  intros H. inv_ok H. subst. exists cfg. cbn [fst] in Hok0. destruct x0. split; [done|]. split; [done|].
  split; [done|]. clear Hok0. unfold encode in Hok.
  destruct (pc_protocol cfg); apply map_err_ok in Hok.
  - unfold encode_chat_request, encode_chat_request_as in Hok.
    destruct (pc_api_key cfg); [|done]. inv_ok Hok. simplify_eq. by rewrite lookup_insert_eq.
  - unfold an_encode_chat_request in Hok.
    destruct (pc_api_key cfg); [|done]. inv_ok Hok. simplify_eq. by rewrite lookup_insert_eq.
  - unfold encode_compatible_request, encode_chat_request_as in Hok. destruct (pc_api_key cfg).
    + inv_ok Hok. simplify_eq. by rewrite lookup_insert_eq.
    + apply bind_ok in Hok as ([[url' headers'] body'] & Hok & Hd). simplify_eq. by rewrite lookup_delete_eq.
Qed.

(** What is offered is served: every listed model is one of an enabled provider
    that the service claims, named after it. *)
Definition models_named (st : Inner) : Prop :=
  forall name models, cached_models st !! name = Some models -> Forall (fun m => mi_backend_id m = name) models.

Lemma model_info_named name ids : Forall (fun m => mi_backend_id m = name) (map (model_info name) ids).
Proof. induction ids; by constructor. Qed.

Lemma configure_named st l : models_named (configure st l).
Proof.
  unfold configure. assert (models_named empty_service) as Hnil by done. revert Hnil.
  generalize empty_service as s. induction l as [|p l IH]; intros s Hs; [done|]. simpl. apply IH.
  intros name models H. cbn [add_provider cached_models] in H.
  apply lookup_insert_Some in H as [[<- <-]|[_ H]]; [apply model_info_named|by apply Hs].
Qed.

Lemma discover_named st name answer after :
  models_named st -> models_named after -> models_named (discover_models st name answer after).2.
Proof.
  intros Hst Ha. unfold discover_models, decode_models_response. repeat case_match; simplify_eq; try done;
    intros n ms Hc; cbn [snd cached_models] in Hc; apply lookup_insert_Some in Hc as [[<- <-]|[_ Hc]];
    first [by apply (Ha _ _ Hc)|apply model_info_named].
Qed.

Lemma listed_models_are_served {HL : HashOrderLaws HO} st m : models_named st -> m ∈ list_models st ->
  exists cfg, providers st !! mi_backend_id m = Some cfg /\ pc_enabled cfg = true /\
    claims_backend st (mi_backend_id m) = true.
Proof.
  intros Hn (p & Hp & Hm)%list_elem_of_In%in_flat_map. apply list_elem_of_In in Hp, Hm.
  destruct p as [name cfg]. apply hash_items_spec in Hp. simpl in Hm.
  destruct (pc_enabled cfg) eqn:He; simpl in Hm; [|by apply elem_of_nil in Hm].
  destruct (cached_models st !! name) as [models|] eqn:Hc; simpl in Hm; [|by apply elem_of_nil in Hm].
  specialize (Hn _ _ Hc). rewrite Forall_forall in Hn. rewrite (Hn m Hm). exists cfg. split; [done|]. split; [done|].
  unfold claims_backend. by rewrite bool_decide_true by eauto.
Qed.
End Sent.

(** ** A concrete provider: [stop] ends the turn, anything else is text *)
Definition sample_choice (content reason : option string) : OpenAiStreamFrame := {|
  sf_choices := [{| sc_delta := {| sd_content := content; sd_tool_calls := [] |}; sc_finish_reason := reason |}];
  sf_usage := None |}.
#[export] Instance sample_openai_frames : OpenAiFrames := fun s =>
  Some (if String.eqb s "stop" then sample_choice None (Some "stop") else sample_choice (Some s) None).

Definition sample_reads : list string :=
  ["dat"; String.append "a: he" blank_line; String.append "data: stop" nl; String.append nl "dat"].

Definition sample_body : string :=
  concat_chars ["data: he"; blank_line; "data: stop"; blank_line; "dat"].
Lemma reply_is_its_decoding_witness :
  (stream_body 10 (for_protocol OpenAi) false (map EvBytes sample_reads ++ [EvEnd])).1 =
    [Ok (chunk_text "he"); Ok (chunk_finish FinishStop None)] /\
  (stream_body 10 (for_protocol OpenAi) false (map EvBytes sample_reads ++ [EvEnd])).1 =
    take 10 (whole_reply OpenAi sample_body).
Proof.
  split; [vm_compute; reflexivity|].
  apply (reply_is_its_decoding OpenAi sample_body sample_reads 10).
  - vm_compute. reflexivity.
  - apply is_intact_spec. vm_compute. reflexivity.
Defined.

Lemma clean_end_is_whole_witness :
  exists reads rest done, map EvBytes sample_reads ++ [EvEnd] = map EvBytes reads ++ rest /\
    nothing_lost (for_protocol OpenAi) reads /\
    decode_whole OpenAi (concat_chars reads) = ([chunk_text "he"; chunk_finish FinishStop None], done) /\
    (done = true \/ (exists later, rest = EvEnd :: later) /\
       existsb says_why [chunk_text "he"; chunk_finish FinishStop None] = true).
Proof.
  apply (clean_end_is_whole OpenAi 10 (map EvBytes sample_reads ++ [EvEnd])
    [Ok (chunk_text "he"); Ok (chunk_finish FinishStop None)] [chunk_text "he"; chunk_finish FinishStop None]);
    [vm_compute; reflexivity|reflexivity|simpl; lia].
Defined.
