(* ===== verification/Lifecycle.v ===== *)
(** * Order and subscription lifecycles ([blocks/products/contracts.rs],
    [blocks/products/repo/mod.rs])

    The status enumerations of the commerce tables with their stored spellings
    and predicates, and the rule that orders subscription deliveries. *)
From Stdlib Require Import String.
From S2P Require Import Prelude Ints Str Contracts Records.

Inductive OrderStatus :=
| Pending | CheckoutStarted | Completed | PartiallyRefunded | Refunded | Failed.
Inductive ReconciliationStatus :=
| RecPending | AwaitingPayment | Reconciled | ProviderError | PaymentSucceededAwaitingCheckout
| RecPaymentFailed | PaymentProcessing | PaymentRequiresAction | PaymentCanceled.
Inductive ProviderPaymentStatus :=
| PayUnset | Succeeded | PaymentFailed | Processing | RequiresAction | PayCanceled.
Inductive SubscriptionStatus :=
| Unset | Incomplete | IncompleteExpired | Trialing | Active | PastDue | Unpaid | Paused | Canceled.

#[export] Instance order_status_eq_dec : EqDecision OrderStatus.
Proof. solve_decision. Defined.
#[export] Instance reconciliation_status_eq_dec : EqDecision ReconciliationStatus.
Proof. solve_decision. Defined.
#[export] Instance payment_status_eq_dec : EqDecision ProviderPaymentStatus.
Proof. solve_decision. Defined.
#[export] Instance subscription_status_eq_dec : EqDecision SubscriptionStatus.
Proof. solve_decision. Defined.

(** ** Stored spellings *)
Definition order_status_str (s : OrderStatus) : string :=
  match s with
  | Pending => "pending"
  | CheckoutStarted => "checkout_started"
  | Completed => "completed"
  | PartiallyRefunded => "partially_refunded"
  | Refunded => "refunded"
  | Failed => "failed"
  end.
Definition OrderStatus_ALL : list OrderStatus :=
  [Pending; CheckoutStarted; Completed; PartiallyRefunded; Refunded; Failed].

Definition reconciliation_status_str (s : ReconciliationStatus) : string :=
  match s with
  | RecPending => "pending"
  | AwaitingPayment => "awaiting_payment"
  | Reconciled => "reconciled"
  | ProviderError => "provider_error"
  | PaymentSucceededAwaitingCheckout => "payment_succeeded_awaiting_checkout"
  | RecPaymentFailed => "payment_failed"
  | PaymentProcessing => "payment_processing"
  | PaymentRequiresAction => "payment_requires_action"
  | PaymentCanceled => "payment_canceled"
  end.

Definition ReconciliationStatus_ALL : list ReconciliationStatus :=
  [RecPending; AwaitingPayment; Reconciled; ProviderError; PaymentSucceededAwaitingCheckout;
   RecPaymentFailed; PaymentProcessing; PaymentRequiresAction; PaymentCanceled].

Definition payment_status_str (s : ProviderPaymentStatus) : string :=
  match s with
  | PayUnset => ""
  | Succeeded => "succeeded"
  | PaymentFailed => "payment_failed"
  | Processing => "processing"
  | RequiresAction => "requires_action"
  | PayCanceled => "canceled"
  end.

Definition ProviderPaymentStatus_ALL : list ProviderPaymentStatus :=
  [PayUnset; Succeeded; PaymentFailed; Processing; RequiresAction; PayCanceled].

Definition subscription_status_str (s : SubscriptionStatus) : string :=
  match s with
  | Unset => ""
  | Incomplete => "incomplete"
  | IncompleteExpired => "incomplete_expired"
  | Trialing => "trialing"
  | Active => "active"
  | PastDue => "past_due"
  | Unpaid => "unpaid"
  | Paused => "paused"
  | Canceled => "canceled"
  end.
Definition SubscriptionStatus_ALL : list SubscriptionStatus :=
  [Unset; Incomplete; IncompleteExpired; Trialing; Active; PastDue; Unpaid; Paused; Canceled].

#[export] Program Instance order_status_wire : Wire OrderStatus := {|
  wire := order_status_str; wire_parse := parse_variant order_status_str OrderStatus_ALL |}.
Next Obligation. by intros []. Qed.
Next Obligation. intros s t. apply parse_variant_spelling. Qed.

#[export] Program Instance reconciliation_status_wire : Wire ReconciliationStatus := {|
  wire := reconciliation_status_str;
  wire_parse := parse_variant reconciliation_status_str ReconciliationStatus_ALL |}.
Next Obligation. by intros []. Qed.
Next Obligation. intros s t. apply parse_variant_spelling. Qed.

#[export] Program Instance payment_status_wire : Wire ProviderPaymentStatus := {|
  wire := payment_status_str; wire_parse := parse_variant payment_status_str ProviderPaymentStatus_ALL |}.
Next Obligation. by intros []. Qed.
Next Obligation. intros s t. apply parse_variant_spelling. Qed.

#[export] Program Instance subscription_status_wire : Wire SubscriptionStatus := {|
  wire := subscription_status_str;
  wire_parse := parse_variant subscription_status_str SubscriptionStatus_ALL |}.
Next Obligation. by intros []. Qed.
Next Obligation. intros s t. apply parse_variant_spelling. Qed.

(** ** Predicates *)
Definition is_paid (s : OrderStatus) : bool :=
  match s with Completed | PartiallyRefunded | Refunded => true | _ => false end.
Definition is_refundable (s : OrderStatus) : bool :=
  match s with Completed | PartiallyRefunded => true | _ => false end.
Definition awaits_completion (s : OrderStatus) : bool :=
  match s with Pending | CheckoutStarted => true | _ => false end.

Definition is_unset (s : SubscriptionStatus) : bool := match s with Unset => true | _ => false end.
Definition is_terminal (s : SubscriptionStatus) : bool :=
  match s with Canceled | IncompleteExpired => true | _ => false end.
Definition sub_rank (s : SubscriptionStatus) : Z :=
  match s with
  | Canceled | IncompleteExpired => 2
  | PastDue | Unpaid => 1
  | Unset | Incomplete | Trialing | Active | Paused => 0
  end.

(** ** The transition rule *)
Definition subscription_transition_allowed (current_status : SubscriptionStatus)
    (current_event_created : Z) (incoming_status : SubscriptionStatus)
    (incoming_event_created : Z) : bool :=
  if incoming_event_created <? current_event_created then false
  else if is_terminal current_status && negb (is_terminal incoming_status) then false
  else if (current_event_created =? incoming_event_created) &&
          (sub_rank incoming_status <? sub_rank current_status) then false
  else true.

(** [30_i64.saturating_mul(2_i64.pow(exponent)).min(3600)], the exponent at
    most seven. *)
Definition MAX_ATTEMPTS : Z := 8.
Definition retry_delay_seconds (attempts : Z) : Z :=
  let exponent := Z.min (saturating_sub attempts 1) 7 in
  Z.min (30 * 2 ^ exponent) 3600.

(** ** Delivery order

    What one delivery does to the stored projection, a status and the
    timestamp of the event that wrote it. *)
Definition deliver (current : SubscriptionStatus * Z) (event : SubscriptionStatus * Z)
  : SubscriptionStatus * Z :=
  if subscription_transition_allowed current.1 current.2 event.1 event.2 then event else current.

(** The lexicographic order of timestamp and rank. *)
Definition at_most (a b : SubscriptionStatus * Z) : bool :=
  (a.2 <? b.2) || ((a.2 =? b.2) && (sub_rank a.1 <=? sub_rank b.1)).

Section Deliveries.
Implicit Types (e cur : SubscriptionStatus * Z).

Lemma terminal_rank s : is_terminal s = true <-> sub_rank s = 2.
Proof. by destruct s. Qed.
Lemma rank_le_2 s : 0 <= sub_rank s <= 2.
Proof. by destruct s. Qed.

Lemma at_most_spec e cur :
  at_most e cur = true <-> e.2 < cur.2 \/ e.2 = cur.2 /\ sub_rank e.1 <= sub_rank cur.1.
Proof. unfold at_most. rewrite orb_true_iff, andb_true_iff. lia. Qed.

Lemma transition_allowed_spec cur e :
  subscription_transition_allowed cur.1 cur.2 e.1 e.2 = true <->
  at_most cur e = true /\ (is_terminal cur.1 = true -> is_terminal e.1 = true).
Proof.
  rewrite at_most_spec. unfold subscription_transition_allowed.
  destruct (Z.ltb_spec e.2 cur.2); [split; [done|lia]|].
  destruct (is_terminal cur.1) eqn:Hc, (is_terminal e.1) eqn:He; simpl.
  all: destruct (Z.eqb_spec cur.2 e.2), (Z.ltb_spec (sub_rank e.1) (sub_rank cur.1)); simpl.
  all: split; try done; try (intros [? Ht]; try lia; by specialize (Ht eq_refl)); intros _; split; try done; lia.
Qed.

(** Every terminal delivery is as late as anything delivered: a provider
    reports nothing live after an end of life. *)
Definition terminal_last (es : list (SubscriptionStatus * Z)) : Prop :=
  forall e e', e ∈ es -> e' ∈ es -> is_terminal e.1 = true -> e'.2 <= e.2.

Lemma deliver_max cur e :
  (is_terminal cur.1 = true -> e.2 <= cur.2) ->
  deliver cur e = if at_most cur e then e else cur.
Proof.
  intros Hlast. unfold deliver.
  pose proof (transition_allowed_spec cur e) as Hs. pose proof (at_most_spec cur e) as Hm.
  destruct (subscription_transition_allowed _ _ _ _).
  - destruct (proj1 Hs eq_refl) as [-> _]. done.
  - destruct (at_most cur e) eqn:Hle; [|done]. exfalso.
    enough (false = true) by done. apply Hs. split; [done|]. intros Ht.
    specialize (Hlast Ht). apply terminal_rank in Ht. apply terminal_rank.
    pose proof (rank_le_2 e.1). destruct (proj1 Hm eq_refl); lia.
Qed.

(** Delivering one event after another keeps the greatest seen. *)
Lemma foldl_deliver es cur :
  terminal_last (cur :: es) ->
  let final := foldl deliver cur es in
  final ∈ cur :: es /\ forall e, e ∈ cur :: es -> at_most e final = true.
Proof.
  revert cur. induction es as [|e es IH]; intros cur Hlast; cbv zeta.
  - simpl. split; [set_solver|]. intros e He%list_elem_of_singleton. subst. apply at_most_spec. lia.
  - simpl. assert (deliver cur e = if at_most cur e then e else cur) as Hd.
    { apply deliver_max. intros Ht. apply Hlast; set_solver. }
    assert (deliver cur e ∈ cur :: e :: es) as Hin by (rewrite Hd; destruct (at_most cur e); set_solver).
    destruct (IH (deliver cur e)) as [Hf Hmax]; [intros a b Ha Hb; apply Hlast; set_solver|].
    simpl. split; [apply elem_of_cons in Hf as [->|Hf]; set_solver|].
    intros x Hx. rewrite at_most_spec.
    assert (at_most cur (deliver cur e) = true /\ at_most e (deliver cur e) = true) as [Hc He].
    { rewrite Hd, !at_most_spec. pose proof (at_most_spec cur e) as Hs.
      destruct (at_most cur e); [destruct (proj1 Hs eq_refl); lia|].
      destruct (decide (cur.2 < e.2 \/ cur.2 = e.2 /\ sub_rank cur.1 <= sub_rank e.1)) as [Hq|Hq];
        [by apply Hs in Hq|lia]. }
    specialize (Hmax (deliver cur e) ltac:(set_solver)) as Hmd. rewrite at_most_spec in *.
    apply elem_of_cons in Hx as [->|[->|Hx]%elem_of_cons]; [lia|lia|].
    specialize (Hmax x ltac:(set_solver)). rewrite at_most_spec in Hmax. lia.
Qed.
End Deliveries.

(** Delivery order does not matter: when nothing live is reported after an
    end of life and no two different events share timestamp and rank, any two
    orders in which the provider delivers the same events leave the same
    subscription state. *)
Theorem delivery_order_irrelevant (initial : SubscriptionStatus * Z) es es'
  (Hperm : Permutation es es') (Hlast : terminal_last (initial :: es))
  (Hdistinct : forall e e', e ∈ initial :: es -> e' ∈ initial :: es ->
     e.2 = e'.2 -> sub_rank e.1 = sub_rank e'.1 -> e = e') :
  foldl deliver initial es = foldl deliver initial es'.
Proof.
  assert (forall e, e ∈ initial :: es <-> e ∈ initial :: es') as Hsame
    by (intros e; by rewrite !elem_of_cons, Hperm).
  assert (terminal_last (initial :: es')) as Hlast' by (intros a b Ha Hb; apply Hlast; by apply Hsame).
  destruct (foldl_deliver es initial Hlast) as [Hin Hmax].
  destruct (foldl_deliver es' initial Hlast') as [Hin' Hmax'].
  pose proof (Hmax _ (proj2 (Hsame _) Hin')) as H1. pose proof (Hmax' _ (proj1 (Hsame _) Hin)) as H2.
  rewrite at_most_spec in H1, H2.
  apply Hdistinct; [done|by apply Hsame|lia..].
Qed.

Lemma delivery_order_irrelevant_witness :
  let initial := (Active, 10) in
  let es := [(PastDue, 20); (Active, 30); (Canceled, 30)] in
  foldl deliver initial es = (Canceled, 30) /\
  foldl deliver initial es = foldl deliver initial (rev es).
Proof.
  cbv zeta. split; [reflexivity|].
  apply delivery_order_irrelevant.
  - apply Permutation_rev.
  - intros a b Ha Hb Ht. rewrite !elem_of_cons in Ha, Hb.
    destruct Ha as [->|[->|[->|[->|Ha]]]], Hb as [->|[->|[->|[->|Hb]]]]; try discriminate Ht;
      try (by apply not_elem_of_nil in Ha); try (by apply not_elem_of_nil in Hb); simpl; lia.
  - intros a b Ha Hb H1 H2. rewrite !elem_of_cons in Ha, Hb.
    destruct Ha as [->|[->|[->|[->|Ha]]]], Hb as [->|[->|[->|[->|Hb]]]]; try done;
      try (by apply not_elem_of_nil in Ha); try (by apply not_elem_of_nil in Hb).
Defined.
