(* ===== verification/Effects.v ===== *)
(** * Database calls and interleaving

    The block code is asynchronous: every database call is an await point at
    which other requests run.  A handler is a program that issues calls one at
    a time; a pool of handlers interleaves at the calls.  The database client
    ([wafer_core::clients::database]) is another crate: its calls are atomic
    steps on the stored rows that may also fail, and how a backend evaluates a
    filter is a parameter. *)
From Stdlib Require Import String.
From S2P Require Import Prelude Ints Str Contracts Records Llm.

(** [wafer_block::db::{Filter, FilterOp}]: the operators the code uses. *)
Inductive FilterOp := OpEqual | OpNotEqual | OpLessEqual | OpLessThan | OpGreaterThan | OpIn | OpIsNull.

(** A column map, the rows of a table by id, the tables by name. *)
Abbreviation columns := (gmap string Value).
Abbreviation table_rows := (gmap string columns).
Abbreviation state := (gmap string table_rows).

(** The blobs of a folder of object storage, and the identifiers drawn so far,
    are kept beside the tables under names that no table has. *)
Definition storage_of (folder : string) : string := String.append "storage:" folder.
Definition drawn_ids : string := "ids:".

Section Effects.
Context {JN : JsonNumbers}.

Record Filter := { field : string; operator : FilterOp; value : Value }.

Definition rows (s : state) (table : string) : table_rows := default ∅ (s !! table).
Definition set_rows (s : state) (table : string) (r : table_rows) : state := <[table := r]> s.

(** [wafer_block::wire::database::BatchWrite]: the write the code batches. *)
Inductive BatchWrite := BatchCreate (collection : string) (data : columns).

(** A request to another block: its kind, its metadata as they are set, and its
    body before it is encoded; and the collected answer: a body, the error it
    ended with, or another terminal as [{:?}] shows it. *)
Record BlockRequest := { br_kind : string; br_meta : list (string * string); br_body : option Value }.
Inductive BlockAnswer := AnswerBody (body : string) | AnswerError (e : WaferError) | AnswerOther (shown : string).

(** What other services answer: the crypto service, the configuration service,
    the clock in the format of the auth tables, now plus a number of seconds in
    that format ([None] past the last date), now less a number of seconds as
    RFC 3339, the clock in nanoseconds, random
    identifiers, other blocks, and a chat with a model: refused, or the items it
    yields until it ends. *)
Inductive service : Type -> Type :=
| CryptoVerify (token : string) : service (WResult columns)
| CryptoSign (claims : columns) (ttl_secs : Z) : service (WResult string)
| RandomBytes (n : Z) : service (WResult (list Z))
| ConfigGetDefault (key default : string) : service (WResult string)
| ConfigGetOptional (key : string) : service (WResult (option string))
| UuidV7 : service string
| NowIso : service string
| IsoAfter (seconds : Z) : service (option string)
| Rfc3339Before (seconds : Z) : service string
| UtcNow : service Z
| AskBlock (block : string) (request : BlockRequest) : service BlockAnswer
| LlmChat (backend_id model : string) (messages : list ChatMessage) (max_tokens : option Z)
    : service (WResult (list (WResult ChatChunk))).

(** A cap that a guarded write keeps to: what the rows of a filter sum to, with
    an addition, is at most the cap; the rows of a filter are fewer than it. *)
Inductive CapGuard :=
| SumAtMost (field : string) (filters : list Filter) (add cap : Z)
| CountBelow (filters : list Filter) (cap : Z).
Inductive InsertGuardedResponse := GuardInserted | InsertRefused (guard : nat).
Inductive UpdateGuardedResponse := GuardUpdated (n : Z) | UpdateRefused (guard : nat) | UpdateNoMatch.

(** The calls of the client, with what they answer.  [InsertIfAbsent] is an
    [upsert] whose [OnConflict] sets no column: it answers the number of rows
    written.  [ListPage] sorts by a column and answers the number of matching rows
    beside the page.  The storage calls are of another client: a blob is its
    bytes, read with the type the backend reports.  [FreshId] draws a random identifier. *)
Inductive call : Type -> Type :=
| Get (table id : string) : call (WResult Row)
| GetByField (table column : string) (v : Value) : call (WResult Row)
| ListRows (table : string) (filters : list Filter) (limit : nat) : call (WResult (list Row))
| UpdateByFiltersCount (table : string) (filters : list Filter) (data : columns) : call (WResult Z)
| Update (table id : string) (data : columns) : call (WResult Row)
| Create (table : string) (data : columns) : call (WResult Row)
| Now : call string
| UpdateByFilters (table : string) (filters : list Filter) (data : columns) : call (WResult unit)
| DeleteByFiltersCount (table : string) (filters : list Filter) : call (WResult Z)
| Batch (ops : list BatchWrite) : call (WResult unit)
| Delete (table id : string) : call (WResult unit)
| ListById (table : string) (filters : list Filter) (columns : option (list string)) (limit : nat)
    : call (WResult (list Row))
| InsertIfAbsent (table : string) (keys : list string) (data : columns) : call (WResult Z)
| IncrementFieldWhere (table column : string) (amount : Z) (filters : list Filter) : call (WResult Z)
| ListPage (table : string) (filters : list Filter) (sort : string) (desc : bool) (limit offset : nat)
    : call (WResult (list Row * Z))
| InsertGuarded (table : string) (data : columns) (guards : list CapGuard) : call (WResult InsertGuardedResponse)
| UpdateGuarded (table : string) (filters : list Filter) (data : columns) (guards : list CapGuard)
    : call (WResult UpdateGuardedResponse)
| StorePut (folder key content content_type : string) : call (WResult unit)
| StoreGet (folder key : string) : call (WResult (string * string))
| StoreDelete (folder key : string) : call (WResult unit)
| FreshId : call string
| Ask {R : Type} (q : service R) : call R.

(** A handler: done, or a call and what to do with its answer. *)
Inductive prog (A : Type) : Type :=
| Done (a : A)
| Do {R : Type} (c : call R) (k : R -> prog A).
Arguments Done {A} a.
Arguments Do {A R} c k.

Fixpoint prog_bind {A B} (f : A -> prog B) (p : prog A) : prog B :=
  match p with
  | Done a => f a
  | Do c k => Do c (fun r => prog_bind f (k r))
  end.
#[global] Instance prog_mbind : MBind prog := @prog_bind.
#[global] Instance prog_mret : MRet prog := @Done.

Definition do_call {R} (c : call R) : prog R := Do c Done.

(** [m.await?] *)
Definition prog_try {E A B} (m : prog (outcome E A)) (f : A -> prog (outcome E B))
  : prog (outcome E B) :=
  r ← m; match r with Ok a => f a | Err e => Done (Err e) | Panic => Done Panic end.

(** A handler started for its result or its effect. *)
Definition spawn {A B} (f : A -> B) (p : prog A) : prog B := a ← p; Done (f a).

Definition ask {R} (q : service R) : prog R := do_call (Ask q).

(** [r.await.map_err(f)] *)
Definition map_err {E F A} (f : E -> F) (r : outcome E A) : outcome F A :=
  match r with Ok a => Ok a | Err e => Err (f e) | Panic => Panic end.

(** [match m.await { Ok(x) => x, Err(e) => return Err(f(e)) }] *)
Definition or_fail {E F A C} (f : E -> F) (m : prog (outcome E A)) (k : A -> prog (outcome F C)) : prog (outcome F C) :=
  r ← m; match r with Ok a => k a | Err e => Done (Err (f e)) | Panic => Done Panic end.

(** [chrono::Utc::now().to_rfc3339()] *)
Definition now_rfc3339 : prog string := do_call Now.
End Effects.

Arguments Done {JN A} a.
Arguments Do {JN A R} c k.

Declare Scope prog_scope.
Delimit Scope prog_scope with prog.
Notation "x ←? m ; k" := (prog_try m (fun x => k))
  (at level 20, m at level 100, k at level 200, right associativity) : prog_scope.
(** [?] on a result that needs no call. *)
Notation "x ←! m ; k" := (prog_try (Done m) (fun x => k))
  (at level 20, m at level 100, k at level 200, right associativity) : prog_scope.
Notation "'let?' x := m 'else' f 'in' k" := (or_fail f m (fun x => k))
  (at level 200, x name, m at level 100, f at level 100, k at level 200, right associativity).
Open Scope prog_scope.

(** ** What a call does *)
Section Semantics.
Context {JN : JsonNumbers}.

(** How the backend evaluates a filter on a row. *)
Class Backend := {
  holds : Filter -> string -> columns -> bool;
  (** What a new row holds in a column it was not given. *)
  column_default : string -> string -> Value;
  (** The columns of a unique index of a table beside its id, if it has one. *)
  unique_columns : string -> list string;
  (** [uuid::Uuid::try_parse] reads an identifier. *)
  is_uuid : string -> bool;
}.

Definition neither_slash_nor_tilde (c : ascii) : bool := negb (Ascii.eqb c "/") && negb (Ascii.eqb c "~").

(** What the code relies on, for the column shapes it compares: text against
    text, a 64-bit number against a number, and the id. *)
Class BackendLaws (B : Backend) := {
  holds_id : forall x id cols,
    holds {| field := "id"; operator := OpEqual; value := VString x |} id cols = String.eqb id x;
  holds_equal_text : forall f id cols s t, f <> "id" -> cols !! f = Some (VString s) ->
    holds {| field := f; operator := OpEqual; value := VString t |} id cols = String.eqb s t;
  holds_equal_bool : forall f id cols b c, f <> "id" -> cols !! f = Some (VBool b) ->
    holds {| field := f; operator := OpEqual; value := VBool c |} id cols = Bool.eqb b c;
  (** Ids are ordered bytewise. *)
  holds_id_greater : forall x id cols,
    holds {| field := "id"; operator := OpGreaterThan; value := VString x |} id cols = String.ltb x id;
  holds_not_equal_text : forall f id cols s t, f <> "id" -> cols !! f = Some (VString s) ->
    holds {| field := f; operator := OpNotEqual; value := VString t |} id cols = negb (String.eqb s t);
  holds_in : forall f id cols s l, f <> "id" -> cols !! f = Some (VString s) ->
    holds {| field := f; operator := OpIn; value := VArray (map VString l) |} id cols =
    existsb (String.eqb s) l;
  holds_equal_int : forall f id cols n m a b, f <> "id" -> cols !! f = Some (VNumber n) ->
    number_as_i64 n = Some a -> number_as_i64 m = Some b ->
    holds {| field := f; operator := OpEqual; value := VNumber m |} id cols = (a =? b);
  holds_less_equal_int : forall f id cols n m a b, f <> "id" -> cols !! f = Some (VNumber n) ->
    number_as_i64 n = Some a -> number_as_i64 m = Some b ->
    holds {| field := f; operator := OpLessEqual; value := VNumber m |} id cols = (a <=? b);
  (** A column the row does not hold is null. *)
  holds_is_null : forall f id cols v, f <> "id" -> default VNull (cols !! f) = VNull ->
    holds {| field := f; operator := OpIsNull; value := v |} id cols = true;
  (** A column that holds text is not. *)
  holds_is_null_text : forall f id cols v s, f <> "id" -> cols !! f = Some (VString s) ->
    holds {| field := f; operator := OpIsNull; value := v |} id cols = false;
  (** Null equals no text. *)
  holds_null_equal : forall f id cols t, f <> "id" -> default VNull (cols !! f) = VNull ->
    holds {| field := f; operator := OpEqual; value := VString t |} id cols = false;
  holds_less_int : forall f id cols n m a b, f <> "id" -> cols !! f = Some (VNumber n) ->
    number_as_i64 n = Some a -> number_as_i64 m = Some b ->
    holds {| field := f; operator := OpLessThan; value := VNumber m |} id cols = (a <? b);
  holds_id_not : forall x id cols,
    holds {| field := "id"; operator := OpNotEqual; value := VString x |} id cols = negb (String.eqb id x);
  (** Identifiers are hexadecimal digits and hyphens. *)
  is_uuid_plain : forall u, is_uuid u = true -> str_forall neither_slash_nor_tilde u = true;
}.

Context {B : Backend}.

Definition matches (filters : list Filter) (id : string) (cols : columns) : bool :=
  forallb (fun f => holds f id cols) filters.

(** The rows that satisfy every filter get the columns of [data]. *)
Definition overlay (data cols : columns) : columns := data ∪ cols.
Definition update_rows (filters : list Filter) (data : columns) (r : table_rows) : table_rows :=
  map_imap (fun id cols => Some (if matches filters id cols then overlay data cols else cols)) r.
Definition count_rows (filters : list Filter) (r : table_rows) : Z :=
  Z.of_nat (size (filter (fun p => matches filters p.1 p.2 = true) r)).

(** The matching rows in ascending order of their ids. *)
Definition id_le (p q : string * columns) : Prop := String.le p.1 q.1.
#[export] Instance id_le_dec p q : Decision (id_le p q).
Proof. unfold id_le. apply _. Defined.
Definition sorted_rows (filters : list Filter) (r : table_rows) : list (string * columns) :=
  merge_sort id_le (map_to_list (filter (fun p => matches filters p.1 p.2 = true) r)).

(** The order of a text column. *)
Definition column_le (sort : string) (desc : bool) (p q : string * columns) : Prop :=
  match p.2 !! sort, q.2 !! sort with
  | Some (VString s), Some (VString t) => if desc then String.le t s else String.le s t
  | _, _ => True
  end.
(** The matching rows in an order of the column. *)
Definition ordered_rows (filters : list Filter) (sort : string) (desc : bool) (r : table_rows)
    (l : list (string * columns)) : Prop :=
  Permutation l (map_to_list (filter (fun p => matches filters p.1 p.2 = true) r)) /\
  StronglySorted (column_le sort desc) l.

(** The columns a read asks for. *)
Definition project (columns : option (list string)) (cols : gmap string Value) : gmap string Value :=
  match columns with
  | None => cols
  | Some named => filter (fun p => p.1 ∈ named) cols
  end.

Definition row_of (id : string) (cols : columns) : Row := {| row_id := id; row_data := cols |}.

Definition delete_rows (filters : list Filter) (r : table_rows) : table_rows :=
  filter (fun p => matches filters p.1 p.2 = false) r.

(** [SET column = column + amount]: a 64-bit column is incremented, an increment
    past 64 bits is refused, and a null column stays null. *)
Definition increment_cols (column : string) (amount : Z) (cols : columns) : columns :=
  match cols !! column with
  | Some (VNumber n) =>
      match number_as_i64 n with Some z => <[column := json_i64 (z + amount)]> cols | None => cols end
  | _ => cols
  end.
Definition increment_rows (filters : list Filter) (column : string) (amount : Z) (r : table_rows) : table_rows :=
  map_imap (fun id cols => Some (if matches filters id cols then increment_cols column amount cols else cols)) r.
Definition overflows (filters : list Filter) (column : string) (amount : Z) (r : table_rows) : bool :=
  existsb (fun p => matches filters p.1 p.2 &&
                    match p.2 !! column with
                    | Some (VNumber n) =>
                        match number_as_i64 n with Some z => negb (in_i64 (z + amount)) | None => false end
                    | _ => false
                    end) (map_to_list r).

(** Creates in order, each under an id that is not taken. *)
Fixpoint creates (ops : list BatchWrite) (s s' : state) : Prop :=
  match ops with
  | [] => s' = s
  | BatchCreate table data :: ops =>
      exists (id : string) (cols : columns), rows s table !! id = None /\ data ⊆ cols /\
        creates ops (set_rows s table (<[id := cols]> (rows s table))) s'
  end.

(** The columns of a new row: its id, what it was given, and the defaults. *)
Definition created (table : string) (data : gmap string Value) (id : string) (cols : columns) : Prop :=
  cols !! "id" = Some (VString id) /\
  forall k v, cols !! k = Some v -> k = "id" \/ data !! k = Some v \/ v = column_default table k.

(** The rows an insert conflicts with: those that agree with it on the keys. *)
Definition key_filters (keys : list string) (data : gmap string Value) : list Filter :=
  omap (fun k => v ← data !! k; Some {| field := k; operator := OpEqual; value := v |}) keys.
Definition conflicts (keys : list string) (data : gmap string Value) (r : table_rows) : bool :=
  0 <? count_rows (key_filters keys data) r.

(** The sum of an integer column over the matching rows, and the first guard a
    write would not keep. *)
Definition cell_i64 (column : string) (cols : columns) : Z := default 0 (v ← cols !! column; json_as_i64 v).
Definition sum_rows (column : string) (filters : list Filter) (r : table_rows) : Z :=
  foldr Z.add 0 (map (fun p => cell_i64 column p.2) (map_to_list (filter (fun p => matches filters p.1 p.2 = true) r))).
Definition guard_keeps (r : table_rows) (g : CapGuard) : bool :=
  match g with
  | SumAtMost column filters add cap => sum_rows column filters r + add <=? cap
  | CountBelow filters cap => count_rows filters r <? cap
  end.
Fixpoint refusing (i : nat) (guards : list CapGuard) (r : table_rows) : option nat :=
  match guards with
  | [] => None
  | g :: guards => if guard_keeps r g then refusing (S i) guards r else Some i
  end.

(** A row may be added beside the unique index of its table. *)
Definition key_free (table : string) (data : columns) (r : table_rows) : Prop :=
  unique_columns table = [] \/ conflicts (unique_columns table) data r = false.

(** A failure of the backend: it is not reported as [NotFound]. *)
Definition outage {A} (r : WResult A) : Prop := exists e, r = Err e /\ we_code e <> NotFound.

(** A failure after which a write may have been applied: a key that is taken
    leaves the table as it was. *)
Definition lost_answer {A} (r : WResult A) : Prop :=
  exists e, r = Err e /\ we_code e <> NotFound /\ we_code e <> AlreadyExists.

Definition blob (content : string) : columns := {["content" := VString content]}.

Definition answers_one (table : string) (s : state) (p : string -> columns -> bool) (r : WResult Row)
  : Prop :=
  (exists id cols, rows s table !! id = Some cols /\ p id cols = true /\ r = Ok (row_of id cols)) \/
  (exists e, r = Err e /\ we_code e = NotFound /\
     forall id cols, rows s table !! id = Some cols -> p id cols = false).

(** One atomic call: its answer and the state after it.  A failed write may
    have been applied. *)
Definition call_step {R} (c : call R) (s : state) : R -> state -> Prop :=
  match c in call R return R -> state -> Prop with
  | Get table id => fun r s' =>
      s' = s /\ (outage r \/ answers_one table s (fun i _ => String.eqb i id) r)
  | GetByField table column v => fun r s' =>
      s' = s /\ (outage r \/
        answers_one table s (matches [{| field := column; operator := OpEqual; value := v |}]) r)
  | ListRows table filters limit => fun r s' =>
      s' = s /\ (outage r \/ exists l, r = Ok l /\
        Forall (fun row => rows s table !! row_id row = Some (row_data row) /\
                           matches filters (row_id row) (row_data row) = true) l /\
        NoDup (row_id <$> l) /\
        Z.of_nat (length l) = Z.min (Z.of_nat limit) (count_rows filters (rows s table)))
  | UpdateByFiltersCount table filters data => fun r s' =>
      let after := set_rows s table (update_rows filters data (rows s table)) in
      outage r /\ (s' = s \/ s' = after) \/
      r = Ok (count_rows filters (rows s table)) /\ s' = after
  | Update table id data => fun r s' =>
      let after cols := set_rows s table (<[id := overlay data cols]> (rows s table)) in
      match rows s table !! id with
      | Some cols =>
          outage r /\ (s' = s \/ s' = after cols) \/
          r = Ok (row_of id (overlay data cols)) /\ s' = after cols
      | None => s' = s /\ exists e, r = Err e
      end
  | Create table data => fun r s' =>
      s' = s /\ (exists e, r = Err e) \/
      exists id cols, rows s table !! id = None /\ data ⊆ cols /\ created table data id cols /\
        s' = set_rows s table (<[id := cols]> (rows s table)) /\
        (r = Ok (row_of id cols) \/ outage r)
  | Now => fun _ s' => s' = s
  | UpdateByFilters table filters data => fun r s' =>
      let after := set_rows s table (update_rows filters data (rows s table)) in
      outage r /\ (s' = s \/ s' = after) \/ r = Ok tt /\ s' = after
  | DeleteByFiltersCount table filters => fun r s' =>
      let after := set_rows s table (delete_rows filters (rows s table)) in
      outage r /\ (s' = s \/ s' = after) \/
      r = Ok (count_rows filters (rows s table)) /\ s' = after
  | Batch ops => fun r s' =>
      s' = s /\ (exists e, r = Err e) \/ creates ops s s' /\ (r = Ok tt \/ outage r)
  | Delete table id => fun r s' =>
      match rows s table !! id with
      | Some _ =>
          let after := set_rows s table (delete id (rows s table)) in
          outage r /\ (s' = s \/ s' = after) \/ r = Ok tt /\ s' = after
      | None => s' = s /\ exists e, r = Err e
      end
  | ListById table filters columns limit => fun r s' =>
      s' = s /\ (outage r \/
        r = Ok (map (fun p => row_of p.1 (project columns p.2))
                  (take limit (sorted_rows filters (rows s table)))))
  | InsertIfAbsent table keys data => fun r s' =>
      s' = s /\ ((exists e, r = Err e) \/ conflicts keys data (rows s table) = true /\ r = Ok 0) \/
      conflicts keys data (rows s table) = false /\
      exists id cols, rows s table !! id = None /\ data ⊆ cols /\
        (forall x, data !! "id" = Some (VString x) -> id = x) /\
        s' = set_rows s table (<[id := cols]> (rows s table)) /\ (r = Ok 1 \/ outage r)
  | IncrementFieldWhere table column amount filters => fun r s' =>
      let after := set_rows s table (increment_rows filters column amount (rows s table)) in
      let fits := overflows filters column amount (rows s table) = false in
      outage r /\ (s' = s \/ fits /\ s' = after) \/
      fits /\ r = Ok (count_rows filters (rows s table)) /\ s' = after
  | ListPage table filters sort desc limit offset => fun r s' =>
      s' = s /\ (outage r \/ exists l, ordered_rows filters sort desc (rows s table) l /\
        r = Ok (map (fun p => row_of p.1 p.2) (take limit (drop offset l)), count_rows filters (rows s table)))
  | InsertGuarded table data guards => fun r s' =>
      s' = s /\ (exists e, r = Err e) \/
      match refusing 0 guards (rows s table) with
      | Some i => s' = s /\ r = Ok (InsertRefused i)
      | None =>
          exists id cols, rows s table !! id = None /\ data ⊆ cols /\ created table data id cols /\
            (forall x, data !! "id" = Some (VString x) -> id = x) /\ key_free table data (rows s table) /\
            s' = set_rows s table (<[id := cols]> (rows s table)) /\ (r = Ok GuardInserted \/ lost_answer r)
      end
  | UpdateGuarded table filters data guards => fun r s' =>
      s' = s /\ outage r \/
      match refusing 0 guards (rows s table) with
      | Some i => s' = s /\ r = Ok (UpdateRefused i)
      | None =>
          if count_rows filters (rows s table) =? 0 then s' = s /\ r = Ok UpdateNoMatch
          else s' = set_rows s table (update_rows filters data (rows s table)) /\
               (r = Ok (GuardUpdated (count_rows filters (rows s table))) \/ outage r)
      end
  | StorePut folder key content _ => fun r s' =>
      let after cols := set_rows s (storage_of folder) (<[key := cols]> (rows s (storage_of folder))) in
      r = Ok tt /\ s' = after (blob content) \/ outage r /\ (s' = s \/ exists part, s' = after (blob part))
  | StoreGet folder key => fun r s' =>
      s' = s /\ (outage r \/
        match rows s (storage_of folder) !! key with
        | Some cols => exists content content_type,
            cols !! "content" = Some (VString content) /\ r = Ok (content, content_type)
        | None => exists e, r = Err e /\ we_code e = NotFound
        end)
  | StoreDelete folder key => fun r s' =>
      let after := set_rows s (storage_of folder) (delete key (rows s (storage_of folder))) in
      match rows s (storage_of folder) !! key with
      | Some _ => outage r /\ (s' = s \/ s' = after) \/ r = Ok tt /\ s' = after
      | None => s' = s /\ exists e, r = Err e
      end
  | FreshId => fun r s' =>
      rows s drawn_ids !! r = None /\ is_uuid r = true /\ s' = set_rows s drawn_ids (<[r := ∅]> (rows s drawn_ids))
  | Ask q => fun _ s' => s' = s
  end.

(** ** Pools of handlers *)
Definition prog_step {A} (p : prog A) (s : state) (p' : prog A) (s' : state) : Prop :=
  match p with
  | Done _ => False
  | Do c k => exists r, call_step c s r s' /\ p' = k r
  end.

(** One handler of the pool makes its next call. *)
Inductive pool_step {A} : list (prog A) * state -> list (prog A) * state -> Prop :=
| PoolStep ps i p p' s s' :
    ps !! i = Some p -> prog_step p s p' s' -> pool_step (ps, s) (<[i := p']> ps, s').
End Semantics.

(** ** Rely and guarantee

    [safe G Q p s]: from [s], whatever [G]-steps the others make between its
    calls, every call of [p] is a [G]-step, and [Q] holds of its result and of
    every later state. *)
Section RelyGuarantee.
Context {JN : JsonNumbers} {B : Backend} (G : state -> state -> Prop).

Fixpoint safe {A} (Q : A -> state -> Prop) (p : prog A) (s : state) : Prop :=
  match p with
  | Done a => forall s', G s s' -> Q a s'
  | Do c k => forall s', G s s' -> forall r s'', call_step c s' r s'' ->
      G s' s'' /\ safe Q (k r) s''
  end.

Context `{!PreOrder G}.

Lemma safe_stable {A} (Q : A -> state -> Prop) p s s' : G s s' -> safe Q p s -> safe Q p s'.
Proof. intros HG. destruct p; simpl; intros H s2 H2; apply H; by etrans. Qed.

Lemma safe_done {A} (Q : A -> state -> Prop) a s : (forall s', G s s' -> Q a s') -> safe Q (Done a) s.
Proof. done. Qed.

Lemma safe_bind {A C} (Q : A -> state -> Prop) (Q' : C -> state -> Prop) p f s :
  safe Q p s -> (forall a s', G s s' -> Q a s' -> safe Q' (f a) s') -> safe Q' (p ≫= f) s.
Proof.
  revert s. induction p as [a|R c k IH]; intros s Hp Hf.
  - apply (Hf a); [reflexivity|]. by apply Hp.
  - intros s' Hs r s'' Hc. destruct (Hp s' Hs r s'' Hc) as [HG Hk]. split; [done|].
    apply (IH r s'' Hk). intros a s3 H3 HQ. apply Hf; [|done]. do 2 (etrans; [done|]). done.
Qed.

Lemma safe_weaken {A} (Q Q' : A -> state -> Prop) p s :
  (forall a s', G s s' -> Q a s' -> Q' a s') -> safe Q p s -> safe Q' p s.
Proof.
  revert s. induction p as [a|R c k IH]; intros s HQ Hp.
  - intros s' Hs. apply HQ; [done|]. by apply Hp.
  - intros s' Hs r s'' Hc. destruct (Hp s' Hs r s'' Hc) as [HG Hk]. split; [done|].
    apply (IH r s''); [|done]. intros a s3 H3. apply HQ. do 2 (etrans; [done|]). done.
Qed.

Lemma safe_spawn {A C} (Q : C -> state -> Prop) (f : A -> C) p s :
  safe (fun a s' => Q (f a) s') p s -> safe Q (spawn f p) s.
Proof.
  revert s. induction p as [a|R c k IH]; intros s Hp; [done|].
  intros s' Hs r s'' Hc. destruct (Hp s' Hs r s'' Hc) as [HG Hk]. split; [done|]. by apply IH.
Qed.

(** A call that writes nothing. *)
Lemma safe_read {R A} (c : call R) (k : R -> prog A) (Q : A -> state -> Prop) s :
  (forall s1 r s2, call_step c s1 r s2 -> s2 = s1) ->
  (forall s1 r, G s s1 -> call_step c s1 r s1 -> safe Q (k r) s1) -> safe Q (Do c k) s.
Proof.
  intros Hr Hk s1 H1 r s2 Hc. assert (s2 = s1) as -> by by eapply Hr.
  split; [reflexivity|]. by apply Hk.
Qed.

(** Errors end a handler. *)
Lemma safe_try {E A C} (Q : outcome E A -> state -> Prop) (Q' : outcome E C -> state -> Prop) p f s :
  safe Q p s ->
  (forall e s', Q' (Err e) s') -> (forall s', Q' Panic s') ->
  (forall a s', G s s' -> Q (Ok a) s' -> safe Q' (f a) s') -> safe Q' (prog_try p f) s.
Proof.
  intros Hp He Hpan Hf. eapply safe_bind; [exact Hp|]. intros [a|e|] s' Hs HQ; simpl; auto.
Qed.

(** In a pool of safe handlers every step is a [G]-step, and a finished
    handler's result satisfies its condition. *)
Lemma pool_safe {A} (Qs : list (A -> state -> Prop)) cfg cfg' :
  rtc pool_step cfg cfg' -> Forall2 (fun Q p => safe Q p cfg.2) Qs cfg.1 ->
  G cfg.2 cfg'.2 /\ Forall2 (fun Q p => safe Q p cfg'.2) Qs cfg'.1.
Proof.
  induction 1 as [cfg|cfg1 cfg2 cfg3 Hstep _ IH]; intros Hall; [by split|].
  destruct Hstep as [ps i p p' s s' Hi Hp]. simpl in *.
  destruct (Forall2_lookup_r _ _ _ _ _ Hall Hi) as (Q & HQ & Hsafe).
  assert (G s s' /\ safe Q p' s') as [HG Hp'].
  { destruct p as [a|R c k]; simpl in *; [done|]. destruct Hp as (r & Hc & ->).
    apply (Hsafe s ltac:(reflexivity) r s' Hc). }
  destruct IH as [HG' Hall'].
  - rewrite <- (list_insert_id Qs i Q HQ). apply Forall2_insert; [|done].
    eapply Forall2_impl; [exact Hall|]. intros Q' q. by apply safe_stable.
  - split; [by etrans|done].
Qed.
End RelyGuarantee.

(** ** Runs

    A run of a program answers each of its calls as it likes. *)
Section Runs.
Context {JN : JsonNumbers}.

(** A call with its answer, and the runs of a program, whatever is answered. *)
Inductive happened : Type := | Happened {R : Type} (c : call R) (r : R).
Fixpoint ran {A} (p : prog A) (t : list happened) (a : A) : Prop :=
  match p, t with
  | Done b, [] => a = b
  | Do c k, h :: t => exists r, h = Happened c r /\ ran (k r) t a
  | _, _ => False
  end.

Lemma ran_done {A} (a b : A) t : ran (Done a) t b -> t = [] /\ b = a.
Proof. destruct t; cbn; [done|tauto]. Qed.
Lemma ran_do {A R} (c : call R) (k : R -> prog A) t b :
  ran (Do c k) t b -> exists r t', t = Happened c r :: t' /\ ran (k r) t' b.
Proof. destruct t as [|h t]; cbn; [done|]. intros (r & -> & H). eauto. Qed.

Lemma ran_bind {A C} (p : prog A) (f : A -> prog C) t b :
  ran (p ≫= f) t b -> exists a t1 t2, t = t1 ++ t2 /\ ran p t1 a /\ ran (f a) t2 b.
Proof.
  revert t. induction p as [a|R c k IH]; intros t H.
  - exists a, [], t. done.
  - apply ran_do in H as (r & t' & -> & (a & t1 & t2 & -> & H1 & H2)%IH).
    exists a, (Happened c r :: t1), t2. repeat split; [cbn; eauto|done].
Qed.

Lemma ran_call {R} (c : call R) t a : ran (do_call c) t a -> t = [Happened c a].
Proof. by intros (r & t' & -> & [-> ->]%ran_done)%ran_do. Qed.
(** A step that went on. *)
Lemma ran_try_ok {E A C} (p : prog (outcome E A)) (f : A -> prog (outcome E C)) t b :
  ran (prog_try p f) t (Ok b) -> exists a t1 t2, t = t1 ++ t2 /\ ran p t1 (Ok a) /\ ran (f a) t2 (Ok b).
Proof.
  intros (r & t1 & t2 & -> & H1 & H2)%ran_bind. destruct r as [a|e|]; [by exists a, t1, t2|by apply ran_done in H2 as [_ ?]..].
Qed.
Lemma ran_or_fail_ok {E F A C} (g : E -> F) (p : prog (outcome E A)) (f : A -> prog (outcome F C)) t b :
  ran (or_fail g p f) t (Ok b) -> exists a t1 t2, t = t1 ++ t2 /\ ran p t1 (Ok a) /\ ran (f a) t2 (Ok b).
Proof.
  intros (r & t1 & t2 & -> & H1 & H2)%ran_bind. destruct r as [a|e|]; [by exists a, t1, t2|by apply ran_done in H2 as [_ ?]..].
Qed.
End Runs.
