(* ===== verification/Columns.v ===== *)
(** * Columns and filters

    How the handlers write a row's columns and filter on them, and what a typed
    column means: text of an enumeration, a 64-bit number. *)
From Stdlib Require Import String.
From S2P Require Import Prelude Ints Str Contracts Records Effects.

Section Writing.
Context {JN : JsonNumbers}.

(** [HashMap::from] and the inserts after it: every column is set once. *)
Definition columns_of (l : list (string * Value)) : columns := list_to_map l.
(** [if b { data.insert(..); .. }] *)
Definition unless (b : bool) (l : list (string * Value)) : list (string * Value) := if b then [] else l.

Definition eq_filter (f : string) (v : Value) : Filter := {| field := f; operator := OpEqual; value := v |}.
Definition le_filter (f : string) (v : Value) : Filter := {| field := f; operator := OpLessEqual; value := v |}.
(** [if let Some(value) = o { data.insert(key, json!(value)) }] *)
Definition when_some {A} (o : option A) (key : string) (f : A -> Value) : list (string * Value) :=
  match o with Some a => [(key, f a)] | None => [] end.

End Writing.

#[global] Arguments columns_of {JN} l : simpl never.
#[global] Arguments unless {JN} b l : simpl never.
#[global] Arguments when_some {JN A} o key f : simpl never.

(** ** Typed columns *)
Section Reading.
Context {JN : JsonNumbers} {JS : JsonScalars JN}.

Definition int_col (cols : columns) (key : string) : option Z := v ← cols !! key; as_i64 v.
Definition text_col (cols : columns) (key : string) : option string := v ← cols !! key; as_str v.
Definition enum_col {T} `{Wire T} (cols : columns) (key : string) : option T :=
  v ← cols !! key; s ← as_str v; wire_parse s.

Lemma int_col_number cols key z :
  int_col cols key = Some z <-> exists n, cols !! key = Some (VNumber n) /\ number_as_i64 n = Some z.
Proof.
  unfold int_col. destruct (cols !! key) as [[]|]; simpl; split; intros H;
    try (by eauto); try (by destruct H as (? & [=] & ?)); try discriminate H.
  destruct H as (? & [= ->] & ?). done.
Qed.

Lemma enum_col_text {T} `{Wire T} cols key (t : T) :
  enum_col cols key = Some t <-> cols !! key = Some (VString (wire t)).
Proof.
  unfold enum_col. destruct (cols !! key) as [[]|]; simpl; split; intros He; try discriminate He.
  - apply wire_parse_spelling in He. by subst.
  - injection He as ->. apply wire_roundtrip.
Qed.

(** What the handlers read of a stored order. *)
Lemma i64_field_int id cols key z : int_col cols key = Some z -> i64_field (row_of id cols) key = z.
Proof.
  intros (n & Hn & Hz)%int_col_number. unfold i64_field, opt_i64_field. simpl. rewrite Hn. simpl.
  unfold json_as_i64. simpl. by rewrite Hz.
Qed.

Lemma enum_column_text {T} `{Wire T, DebugFmt} id cols key (t : T) :
  enum_col cols key = Some t -> enum_column (T:=T) (row_of id cols) key = Ok t.
Proof.
  intros Ht%enum_col_text. unfold enum_column, str_field. simpl. rewrite Ht. simpl.
  by rewrite wire_roundtrip.
Qed.

(** Columns after an update. *)
Lemma overlay_lookup data cols key :
  overlay data cols !! key = match data !! key with Some v => Some v | None => cols !! key end.
Proof. unfold overlay. rewrite lookup_union. by destruct (data !! key), (cols !! key). Qed.

Lemma int_col_overlay data cols key :
  int_col (overlay data cols) key =
  match data !! key with Some v => as_i64 v | None => int_col cols key end.
Proof. unfold int_col. rewrite overlay_lookup. by destruct (data !! key). Qed.

Lemma enum_col_overlay {T} `{Wire T} data cols key :
  enum_col (T:=T) (overlay data cols) key =
  match data !! key with Some v => s ← as_str v; wire_parse s | None => enum_col cols key end.
Proof. unfold enum_col. rewrite overlay_lookup. by destruct (data !! key). Qed.
Lemma text_col_overlay data cols key :
  text_col (overlay data cols) key =
  match data !! key with Some v => as_str v | None => text_col cols key end.
Proof. unfold text_col. rewrite overlay_lookup. by destruct (data !! key). Qed.

Lemma text_col_value cols key t : text_col cols key = Some t <-> cols !! key = Some (VString t).
Proof.
  unfold text_col. destruct (cols !! key) as [[]|]; simpl; try (by split); split; by intros [= ->].
Qed.

Lemma str_field_text id cols key t : text_col cols key = Some t -> str_field (row_of id cols) key = t.
Proof. intros Ht%text_col_value. unfold str_field. simpl. by rewrite Ht. Qed.
Lemma json_as_i64_range v z : json_as_i64 v = Some z -> in_i64 z = true.
Proof.
  unfold json_as_i64. destruct (as_i64 v) as [y|] eqn:Hy; simpl.
  - intros [= <-]. destruct v; try discriminate Hy. by eapply number_as_i64_range.
  - destruct (as_str v) as [s|]; [|done]. simpl. by apply parse_i64_range.
Qed.
Lemma i64_field_range row key : in_i64 (i64_field row key) = true.
Proof.
  unfold i64_field, opt_i64_field. destruct (row_data row !! key) as [v|]; [|done]. simpl.
  destruct (json_as_i64 v) as [z|] eqn:Hz; [|done]. by apply (json_as_i64_range v).
Qed.

Lemma u64_field_range `{!JsonScalarLaws JS} row key : 0 <= u64_field row key <= u64_max.
Proof.
  apply in_u64_spec. unfold u64_field. destruct (row_data row !! key) as [v|]; [|done]. simpl. unfold json_as_u64.
  destruct (as_u64_value v) as [z|] eqn:Hz; simpl.
  - destruct v; try discriminate Hz. by eapply number_as_u64_range.
  - destruct (as_str v) as [s|]; [|done]. simpl. destruct (parse_u64 s) as [z|] eqn:Hp; [|done]. simpl.
    unfold parse_u64 in Hp. repeat case_match; by apply parse_digits_some in Hp as (_ & _ & _ & ?).
Qed.

Lemma u64_field_int `{!JsonScalarLaws JS} id cols key z :
  int_col cols key = Some z -> 0 <= z -> u64_field (row_of id cols) key = z.
Proof.
  intros (n & Hn & Hz)%int_col_number H0. unfold u64_field. simpl. rewrite Hn. simpl.
  unfold json_as_u64. simpl. by rewrite (number_as_u64_i64 n z).
Qed.

Lemma rows_set_rows s t r : rows (set_rows s t r) t = r.
Proof. unfold rows, set_rows. by rewrite lookup_insert_eq. Qed.

End Reading.

(** ** Columns after an update *)

(** Look a column up in an update's data. *)
Fixpoint assoc {A} (key : string) (l : list (string * A)) : option A :=
  match l with
  | [] => None
  | (k, a) :: l => if String.eqb key k then Some a else assoc key l
  end.

Section DataLookup.
Context {JN : JsonNumbers}.

Lemma lookup_columns_of l key : columns_of l !! key = assoc key l.
Proof.
  unfold columns_of. induction l as [|[k v] l IH]; simpl; [done|].
  destruct (String.eqb_spec key k) as [->|Hne]; [by rewrite lookup_insert_eq|].
  by rewrite lookup_insert_ne.
Qed.

Lemma assoc_app (l l' : list (string * Value)) key :
  assoc key (l ++ l') = or_else (assoc key l) (assoc key l').
Proof. induction l as [|[k v] l IH]; simpl; [done|]. by destruct (String.eqb key k). Qed.

Lemma assoc_unless b l key : assoc key (unless b l) = if b then None else assoc key l.
Proof. by destruct b. Qed.

Lemma assoc_when_some {A} (o : option A) k f key :
  assoc key (when_some o k f) = if String.eqb key k then f <$> o else None.
Proof. destruct o; simpl; by destruct (String.eqb key k). Qed.
End DataLookup.

Ltac data_lookup :=
  rewrite !lookup_columns_of, ?assoc_app, ?assoc_unless, ?assoc_when_some;
  lazy [assoc or_else String.eqb Ascii.eqb Bool.eqb].

(** ** Filters on typed columns *)
Section Filters.
Context {JN : JsonNumbers} {NL : JsonNumberLaws JN} {B : Backend} {BL : BackendLaws B}.

Lemma matches_cons f fs id cols : matches (f :: fs) id cols = holds f id cols && matches fs id cols.
Proof. done. Qed.

Lemma holds_enum {T} `{Wire T, EqDecision T} f id cols (t u : T) :
  f <> "id" -> enum_col cols f = Some t ->
  holds (eq_filter f (VString (wire u))) id cols = bool_decide (t = u).
Proof. intros Hf Ht%enum_col_text. unfold eq_filter. rewrite (holds_equal_text f id cols (wire t)) by done. apply wire_eqb. Qed.

Lemma holds_int_eq f id cols a b :
  f <> "id" -> in_i64 b = true -> int_col cols f = Some a ->
  holds (eq_filter f (json_i64 b)) id cols = (a =? b).
Proof.
  intros Hf Hb (n & Hn & Ha)%int_col_number. unfold eq_filter, json_i64.
  apply (holds_equal_int f id cols n); try done. by apply number_i64_roundtrip.
Qed.

Lemma holds_int_le f id cols a b :
  f <> "id" -> in_i64 b = true -> int_col cols f = Some a ->
  holds (le_filter f (json_i64 b)) id cols = (a <=? b).
Proof.
  intros Hf Hb (n & Hn & Ha)%int_col_number. unfold le_filter, json_i64.
  apply (holds_less_equal_int f id cols n); try done. by apply number_i64_roundtrip.
Qed.

Lemma int_col_range cols key z : int_col cols key = Some z -> in_i64 z = true.
Proof. intros (n & _ & Hz)%int_col_number. by eapply number_as_i64_range. Qed.

Lemma count_one filters r :
  count_rows filters r = 1 -> exists id cols, r !! id = Some cols /\ matches filters id cols = true.
Proof.
  unfold count_rows. intros Hc.
  destruct (map_choose (filter (fun p => matches filters p.1 p.2 = true) r)) as (id & cols & Hin).
  { intros He. rewrite He, map_size_empty in Hc. done. }
  apply map_lookup_filter_Some in Hin as [Hin Hm]. by exists id, cols.
Qed.

Lemma count_rows_some filters (r : table_rows) :
  0 < count_rows filters r <-> exists i cols, r !! i = Some cols /\ matches filters i cols = true.
Proof.
  unfold count_rows. split.
  - intros Hc. destruct (map_choose (filter (fun p => matches filters p.1 p.2 = true) r)) as (i & cols & Hi).
    { intros He. rewrite He, map_size_empty in Hc. lia. }
    apply map_lookup_filter_Some in Hi. by exists i, cols.
  - intros (i & cols & Hi & Hm). assert (size (filter (fun p => matches filters p.1 p.2 = true) r) <> 0)%nat; [|lia].
    intros He%map_size_empty_inv. assert (filter (fun p => matches filters p.1 p.2 = true) r !! i = Some cols) as Hf.
    { by apply map_lookup_filter_Some. }
    by rewrite He in Hf.
Qed.
End Filters.
