(* ===== verification/TableMachine.v ===== *)
(** * Tables that implement a machine

    A table whose well-formed rows each store the state of an abstract machine,
    and the proof rules for handlers: every write is a step of the machine on
    the rows it changes, whatever other handlers do between its calls. *)
From Stdlib Require Import String.
From S2P Require Import Prelude Ints Str Contracts Records Effects Columns.

(** The machine a table implements: the state a row stores, the invariant of a
    stored state, and the steps. *)
Class Machine {JN : JsonNumbers} (V : Type) := {
  m_table : string;
  m_view : columns -> option V;
  m_inv : V -> Prop;
  m_step : V -> V -> Prop;
  m_step_inv : forall o o', m_step o o' -> m_inv o -> m_inv o';
}.

Section TableMachine.
Context {JN : JsonNumbers} {B : Backend} {V : Type} {M : Machine V}.
Implicit Types (o : V).

Lemma m_steps_inv o o' : rtc m_step o o' -> m_inv o -> m_inv o'.
Proof. induction 1; eauto using m_step_inv. Qed.

(** Every stored order is well formed. *)
Definition table_wf (s : state) : Prop :=
  forall id cols, rows s m_table !! id = Some cols ->
    exists o, m_view cols = Some o /\ m_inv o.

(** Well-formed orders stay where they are and take steps of the machine. *)
Definition evolve (s s' : state) : Prop :=
  table_wf s ->
  table_wf s' /\
  forall id cols o, rows s m_table !! id = Some cols -> m_view cols = Some o ->
    exists cols' o', rows s' m_table !! id = Some cols' /\ m_view cols' = Some o' /\
      rtc m_step o o'.

#[export] Instance evolve_preorder : PreOrder evolve.
Proof.
  split.
  - intros s Hwf. split; [done|]. intros id cols o Hr Hv. exists cols, o. by repeat split.
  - intros s1 s2 s3 H12 H23 Hwf. destruct (H12 Hwf) as [Hwf2 E12]. destruct (H23 Hwf2) as [Hwf3 E23].
    split; [done|]. intros id cols o Hr Hv.
    destruct (E12 _ _ _ Hr Hv) as (cols2 & o2 & Hr2 & Hv2 & Hs2).
    destruct (E23 _ _ _ Hr2 Hv2) as (cols3 & o3 & Hr3 & Hv3 & Hs3).
    exists cols3, o3. repeat split; try done. by etrans.
Qed.

Abbreviation G := evolve.

(** A row that was read is still there, further along. *)
Lemma evolve_read s s' id cols o :
  table_wf s -> G s s' -> rows s m_table !! id = Some cols -> m_view cols = Some o ->
  exists cols' o', rows s' m_table !! id = Some cols' /\ m_view cols' = Some o' /\
    m_inv o /\ m_inv o' /\ rtc m_step o o'.
Proof.
  intros Hwf HG Hr Hv. destruct (HG Hwf) as [Hwf' He]. destruct (He _ _ _ Hr Hv) as (cols' & o' & Hr' & Hv' & Hs).
  destruct (Hwf _ _ Hr) as (o1 & Ho1 & Hi). assert (o1 = o) as -> by congruence.
  exists cols', o'. do 3 (split; [done|]). split; [by eapply m_steps_inv|done].
Qed.

(** An update by filters is a machine step on each row it changes. *)
Lemma update_rows_evolve s filters data :
  (forall id cols o, table_wf s -> rows s m_table !! id = Some cols -> m_view cols = Some o ->
     m_inv o -> matches filters id cols = true ->
     exists o', m_view (overlay data cols) = Some o' /\ m_step o o') ->
  G s (set_rows s m_table (update_rows filters data (rows s m_table))).
Proof.
  intros Hstep Hwf. unfold table_wf. rewrite rows_set_rows. unfold update_rows.
  assert (forall id cols o, rows s m_table !! id = Some cols -> m_view cols = Some o ->
    exists o', m_view (if matches filters id cols then overlay data cols else cols) = Some o' /\
      m_inv o' /\ rtc m_step o o') as Hrow.
  { intros id cols o Hr Hv. destruct (Hwf _ _ Hr) as (o1 & Ho1 & Hi). assert (o1 = o) as -> by congruence.
    destruct (matches filters id cols) eqn:Hm; [|by exists o].
    destruct (Hstep id cols o Hwf Hr Hv Hi Hm) as (o' & Hv' & Hs). exists o'. split; [done|].
    split; [by eapply m_step_inv|by apply rtc_once]. }
  split.
  - intros id cols'. rewrite map_lookup_imap. intros (cols & Hr & [= <-])%bind_Some.
    destruct (Hwf _ _ Hr) as (o & Hv & _). destruct (Hrow _ _ _ Hr Hv) as (o' & Hv' & Hi' & _). by exists o'.
  - intros id cols o Hr Hv. destruct (Hrow _ _ _ Hr Hv) as (o' & Hv' & _ & Hs).
    eexists _, o'. rewrite map_lookup_imap, Hr. simpl. by repeat split.
Qed.
(** So are an update of one row and a new row. *)
Lemma update_id_evolve s id cols o o' cols' :
  rows s m_table !! id = Some cols -> m_view cols = Some o -> m_view cols' = Some o' -> rtc m_step o o' ->
  G s (set_rows s m_table (<[id := cols']> (rows s m_table))).
Proof.
  intros Hr Hv Hv' Hs Hwf. unfold table_wf. rewrite rows_set_rows. split.
  - intros i c [[<- <-]|[_ Hi]]%lookup_insert_Some; [|by eapply Hwf].
    destruct (Hwf _ _ Hr) as (o1 & Ho1 & Hi1). assert (o1 = o) as -> by congruence.
    exists o'. split; [done|by eapply m_steps_inv].
  - intros i c oi Hi Hvi. destruct (decide (id = i)) as [<-|Hne].
    + assert (oi = o) as -> by congruence. exists cols', o'. by rewrite lookup_insert_eq.
    + exists c, oi. by rewrite lookup_insert_ne.
Qed.

Lemma insert_evolve s id cols o :
  rows s m_table !! id = None -> m_view cols = Some o -> m_inv o ->
  G s (set_rows s m_table (<[id := cols]> (rows s m_table))).
Proof.
  intros Hid Hv Hi Hwf. unfold table_wf. rewrite rows_set_rows. split.
  - intros i c [[<- <-]|[_ Hi']]%lookup_insert_Some; [by exists o|by eapply Hwf].
  - intros i c oi Hi' Hvi. exists c, oi. rewrite lookup_insert_ne; [done|]. intros ->. congruence.
Qed.

Lemma same_rows_evolve s s' : rows s' m_table = rows s m_table -> G s s'.
Proof.
  intros Hr Hwf. unfold table_wf. rewrite Hr. split; [done|]. intros id cols o Hi Hv. by exists cols, o.
Qed.

(** *** Calls *)
Lemma safe_now {A} (Q : A -> state -> Prop) k s :
  (forall t s', G s s' -> safe G Q (k t) s') -> safe G Q (Do Now k) s.
Proof. intros Hk. apply safe_read; [apply _|by intros s1 r s2 ->|]. intros s1 r H1 _. by apply Hk. Qed.

Lemma safe_get {A} (Q : A -> state -> Prop) k id s :
  table_wf s ->
  (forall s' cols o, G s s' -> table_wf s' -> rows s' m_table !! id = Some cols -> m_view cols = Some o ->
     m_inv o -> safe G Q (k (Ok (row_of id cols))) s') ->
  (forall e s', G s s' -> table_wf s' -> safe G Q (k (Err e)) s') ->
  safe G Q (Do (Get m_table id) k) s.
Proof.
  intros Hwf Hok Herr. apply safe_read; [apply _|by intros s1 r s2 [-> _]|].
  intros s1 r H1 [_ Hr]. destruct (H1 Hwf) as [Hwf1 _].
  destruct Hr as [(e & -> & _)|[(id' & cols & Hin & Hid & ->)|(e & -> & _)]]; [by apply Herr| |by apply Herr].
  apply String.eqb_eq in Hid as ->. destruct (Hwf1 _ _ Hin) as (o & Hv & Hi). by eapply Hok.
Qed.

Lemma safe_get_by_field {A} (Q : A -> state -> Prop) k column v s :
  table_wf s ->
  (forall s' id cols o, G s s' -> table_wf s' -> rows s' m_table !! id = Some cols -> m_view cols = Some o ->
     m_inv o -> safe G Q (k (Ok (row_of id cols))) s') ->
  (forall e s', G s s' -> table_wf s' -> safe G Q (k (Err e)) s') ->
  safe G Q (Do (GetByField m_table column v) k) s.
Proof.
  intros Hwf Hok Herr. apply safe_read; [apply _|by intros s1 r s2 [-> _]|].
  intros s1 r H1 [_ Hr]. destruct (H1 Hwf) as [Hwf1 _].
  destruct Hr as [(e & -> & _)|[(id & cols & Hin & _ & ->)|(e & -> & _)]]; [by apply Herr| |by apply Herr].
  destruct (Hwf1 _ _ Hin) as (o & Hv & Hi). by eapply Hok.
Qed.

Lemma safe_update_count {A} (Q : A -> state -> Prop) k filters data s :
  table_wf s ->
  (forall s' id cols o, G s s' -> rows s' m_table !! id = Some cols -> m_view cols = Some o ->
     m_inv o -> matches filters id cols = true ->
     exists o', m_view (overlay data cols) = Some o' /\ m_step o o') ->
  (forall s', G s s' -> safe G Q (k (Ok (count_rows filters (rows s' m_table))))
     (set_rows s' m_table (update_rows filters data (rows s' m_table)))) ->
  (forall e s', G s s' -> table_wf s' -> safe G Q (k (Err e)) s') ->
  safe G Q (Do (UpdateByFiltersCount m_table filters data) k) s.
Proof.
  intros Hwf Hstep Hok Herr s1 H1 r s2 Hc.
  assert (G s1 (set_rows s1 m_table (update_rows filters data (rows s1 m_table)))) as Hu.
  { apply update_rows_evolve. intros id cols o _ Hr Hv Hi Hm. by eapply Hstep. }
  destruct Hc as [[(e & -> & _) Hs]|[-> ->]]; [|by split; [|apply Hok]].
  assert (G s1 s2) as H2 by (by destruct Hs as [->| ->]).
  split; [done|]. apply Herr; [by etrans|]. by apply H2, H1.
Qed.

(** A handler that is safe whatever it answers. *)
Definition harmless {A} (p : prog A) : Prop :=
  forall s, table_wf s -> safe G (fun _ _ => True) p s.

Lemma harmless_done {A} (a : A) : harmless (Done a).
Proof. by intros s _ s' _. Qed.

Lemma harmless_try_done {A C} (r : WResult A) (f : A -> prog (WResult C)) :
  (forall a, r = Ok a -> harmless (f a)) -> harmless (prog_try (Done r) f).
Proof. intros Hf. destruct r as [a|e|]; simpl; [by apply Hf|apply harmless_done..]. Qed.

Lemma harmless_now {A} (f : string -> prog A) : (forall t, harmless (f t)) -> harmless (now_rfc3339 ≫= f).
Proof. intros Hf s Hwf. apply safe_now. intros t s' Hs. apply Hf. by apply Hs. Qed.

Lemma harmless_get {A} (f : Row -> prog (WResult A)) id :
  (forall s cols o, table_wf s -> rows s m_table !! id = Some cols -> m_view cols = Some o -> m_inv o ->
     safe G (fun _ _ => True) (f (row_of id cols)) s) ->
  harmless (prog_try (do_call (Get m_table id)) f).
Proof.
  intros Hf s Hwf. apply safe_get; [done| |].
  - intros s' cols o _ Hwf' Hr Hv Hi. by eapply Hf.
  - by intros e s' _ _ s'' _.
Qed.

Lemma harmless_update {A} (k : WResult Z -> prog A) filters data :
  (forall id cols o, m_view cols = Some o -> m_inv o -> matches filters id cols = true ->
     exists o', m_view (overlay data cols) = Some o' /\ m_step o o') ->
  (forall r, harmless (k r)) ->
  harmless (do_call (UpdateByFiltersCount m_table filters data) ≫= k).
Proof.
  intros Hstep Hk s Hwf. apply safe_update_count; [done| | |].
  - intros s' id cols o _ _. apply Hstep.
  - intros s' Hs. apply Hk. destruct (Hs Hwf) as [Hwf' _].
    refine (proj1 (update_rows_evolve s' filters data _ Hwf')). intros id cols o _ _. apply Hstep.
  - intros e s' _ Hwf'. by apply Hk.
Qed.

Lemma harmless_update_only filters data :
  (forall id cols o, m_view cols = Some o -> m_inv o -> matches filters id cols = true ->
     exists o', m_view (overlay data cols) = Some o' /\ m_step o o') ->
  harmless (do_call (UpdateByFiltersCount m_table filters data)).
Proof. intros Hstep. apply (harmless_update (fun r => Done r)); [done|]. intros r. apply harmless_done. Qed.

Lemma harmless_bind_read {A C} (r : prog A) (f : A -> prog C) :
  harmless r -> (forall a, harmless (f a)) -> harmless (r ≫= f).
Proof.
  intros Hr Hf s Hwf. eapply safe_bind; [apply _|by apply Hr|]. intros a s' Hs _. apply Hf. by apply Hs.
Qed.

Lemma get_harmless id : harmless (do_call (Get m_table id)).
Proof. intros s Hwf. by apply safe_get. Qed.
Lemma get_by_field_harmless column v : harmless (do_call (GetByField m_table column v)).
Proof. intros s Hwf. by apply safe_get_by_field. Qed.

Lemma list_harmless filters limit : harmless (do_call (ListRows m_table filters limit)).
Proof. intros s Hwf. apply safe_read; [apply _|by intros s1 r s2 [-> _]|]. by intros s1 r _ _ s' _. Qed.

Lemma harmless_try {A C} (p : prog (WResult A)) (f : A -> prog (WResult C)) :
  harmless p -> (forall a, harmless (f a)) -> harmless (prog_try p f).
Proof.
  intros Hp Hf. apply harmless_bind_read; [done|]. intros [a|e|]; [apply Hf|apply harmless_done..].
Qed.


(** An update by id. *)
Lemma safe_update {A} (Q : A -> state -> Prop) k id data s :
  table_wf s ->
  (forall cols o, m_view cols = Some o -> m_inv o ->
     exists o', m_view (overlay data cols) = Some o' /\ rtc m_step o o') ->
  (forall r s', G s s' -> table_wf s' -> safe G Q (k r) s') ->
  safe G Q (Do (Update m_table id data) k) s.
Proof.
  intros Hwf Hstep Hk s1 H1 r s2 Hc. destruct (H1 Hwf) as [Hwf1 _].
  enough (G s1 s2) as HG by (split; [done|]; apply Hk; [by etrans|by apply HG]).
  simpl in Hc. destruct (rows s1 m_table !! id) as [cols|] eqn:Hr; [|by destruct Hc as [-> _]].
  destruct (Hwf1 _ _ Hr) as (o & Hv & Hi). destruct (Hstep cols o Hv Hi) as (o' & Hv' & Hs).
  enough (G s1 (set_rows s1 m_table (<[id := overlay data cols]> (rows s1 m_table)))) as HG
    by (by destruct Hc as [[_ [->| ->]]|[_ ->]]).
  by eapply update_id_evolve.
Qed.

(** A row that is inserted unless it conflicts with another. *)
Lemma safe_insert {A} (Q : A -> state -> Prop) k keys (data : columns) s :
  table_wf s ->
  (forall cols, data ⊆ cols -> exists o, m_view cols = Some o /\ m_inv o) ->
  (forall r s', G s s' -> table_wf s' -> safe G Q (k r) s') ->
  safe G Q (Do (InsertIfAbsent m_table keys data) k) s.
Proof.
  intros Hwf Hnew Hk s1 H1 r s2 Hc. destruct (H1 Hwf) as [Hwf1 _].
  enough (G s1 s2) as HG by (split; [done|]; apply Hk; [by etrans|by apply HG]).
  destruct Hc as [[-> _]|(_ & id & cols & Hid & Hsub & _ & -> & _)]; [done|].
  destruct (Hnew cols Hsub) as (o & Hv & Hi). by eapply insert_evolve.
Qed.

(** ** Pools of harmless handlers *)
Lemma harmless_spawn {A C} (f : A -> C) (p : prog A) : harmless p -> harmless (spawn f p).
Proof. intros Hp s Hwf. apply safe_spawn. by apply Hp. Qed.

Lemma harmless_all {A} (ps : list (prog A)) s :
  Forall harmless ps -> table_wf s ->
  Forall2 (fun Q p => safe G Q p s) (replicate (length ps) (fun _ _ => True)) ps.
Proof.
  intros Hps Hwf. apply Forall2_replicate_l; [done|]. eapply Forall_impl; [exact Hps|].
  intros p Hp. by apply Hp.
Qed.

Lemma pool_evolves {A} (ps : list (prog A)) s cfg' :
  Forall harmless ps -> table_wf s -> rtc pool_step (ps, s) cfg' -> G s cfg'.2.
Proof.
  intros Hps Hwf Hsteps. by apply (pool_safe G _ (ps, s) cfg' Hsteps (harmless_all ps s Hps Hwf)).
Qed.

(** *** Handlers of other tables *)
Definition written_tables {R} (c : call R) : list string :=
  match c with
  | UpdateByFiltersCount table _ _ | Update table _ _ | Create table _ | UpdateByFilters table _ _
  | DeleteByFiltersCount table _ | Delete table _ | InsertIfAbsent table _ _
  | IncrementFieldWhere table _ _ _ | InsertGuarded table _ _ | UpdateGuarded table _ _ _ => [table]
  | StorePut folder _ _ _ | StoreDelete folder _ => [storage_of folder]
  | FreshId => [drawn_ids]
  | Batch ops => map (fun op => let 'BatchCreate table _ := op in table) ops
  | Get _ _ | GetByField _ _ _ | ListRows _ _ _ | Now | ListById _ _ _ _ | ListPage _ _ _ _ _ _ | StoreGet _ _ | Ask _ => []
  end.
Fixpoint avoids {A} (table : string) (p : prog A) : Prop :=
  match p with
  | Done _ => True
  | Do c k => table ∉ written_tables c /\ forall r, avoids table (k r)
  end.

Lemma rows_set_other s t t' r : t <> t' -> rows (set_rows s t r) t' = rows s t'.
Proof. intros Hne. unfold rows, set_rows. by rewrite lookup_insert_ne. Qed.

Lemma creates_other table ops s s' :
  table ∉ map (fun op => let 'BatchCreate t _ := op in t) ops -> creates ops s s' -> rows s' table = rows s table.
Proof.
  revert s. induction ops as [|[t data] ops IH]; intros s Hn; simpl; [by intros ->|].
  intros (id & cols & _ & _ & Hc). simpl in Hn. apply not_elem_of_cons in Hn as [Ht Hn].
  rewrite (IH _ Hn Hc). by apply rows_set_other.
Qed.

Lemma call_step_other {R} (c : call R) s r s' table :
  table ∉ written_tables c -> call_step c s r s' -> rows s' table = rows s table.
Proof.
  destruct c; cbn [written_tables]; intros Hn; cbn [call_step];
    try (apply not_elem_of_cons in Hn as [Hn _]; try assert (table0 <> table) by done).
  - by intros [-> _].
  - by intros [-> _].
  - by intros [-> _].
  - by intros [[_ [->| ->]]|[_ ->]]; rewrite ?rows_set_other.
  - destruct (rows s table0 !! id); [|by intros [-> _]].
    by intros [[_ [->| ->]]|[_ ->]]; rewrite ?rows_set_other.
  - intros [[-> _]|(id & cols & _ & _ & _ & -> & _)]; rewrite ?rows_set_other; done.
  - by intros ->.
  - by intros [[_ [->| ->]]|[_ ->]]; rewrite ?rows_set_other.
  - by intros [[_ [->| ->]]|[_ ->]]; rewrite ?rows_set_other.
  - intros [[-> _]|[Hc _]]; [done|]. by eapply creates_other.
  - destruct (rows s table0 !! id); [|by intros [-> _]].
    by intros [[_ [->| ->]]|[_ ->]]; rewrite ?rows_set_other.
  - by intros [-> _].
  - intros [[-> _]|(_ & id & cols & _ & _ & _ & -> & _)]; rewrite ?rows_set_other; done.
  - by intros [[_ [->|[_ ->]]]|(_ & _ & ->)]; rewrite ?rows_set_other.
  - by intros [-> _].
  - intros [[-> _]|H']; [done|]. destruct (refusing _ _ _); [by destruct H' as [-> _]|].
    destruct H' as (id & cols & _ & _ & _ & _ & _ & -> & _). by rewrite rows_set_other.
  - intros [[-> _]|H']; [done|]. destruct (refusing _ _ _); [by destruct H' as [-> _]|].
    destruct (count_rows _ _ =? 0); destruct H' as [-> _]; rewrite ?rows_set_other; done.
  - intros [[_ ->]|[_ [->|[part ->]]]]; rewrite ?rows_set_other; done.
  - by intros [-> _].
  - destruct (rows s (storage_of folder) !! key); [|by intros [-> _]].
    by intros [[_ [->| ->]]|[_ ->]]; rewrite ?rows_set_other.
  - intros (_ & _ & ->). by rewrite rows_set_other.
  - by intros ->.
Qed.

(** What other tables' handlers do is no step of the machine. *)
Lemma avoids_harmless {A} (p : prog A) : avoids m_table p -> harmless p.
Proof.
  induction p as [a|R c k IH]; [intros _; apply harmless_done|]. intros [Hc Hk] s Hwf s1 H1 r s2 Hstep.
  pose proof (same_rows_evolve _ _ (call_step_other c s1 r s2 m_table Hc Hstep)) as HG.
  split; [done|]. apply IH; [done|]. by apply HG, H1.
Qed.

(** One handler of a pool whose others are harmless: when it has finished, its
    result satisfies its condition. *)
Lemma pool_one {A} (Q : A -> state -> Prop) (ps ps' : list (prog A)) s s' i p a :
  ps !! i = Some p -> (forall k q, k <> i -> ps !! k = Some q -> harmless q) ->
  safe G Q p s -> table_wf s -> rtc pool_step (ps, s) (ps', s') -> ps' !! i = Some (Done a) -> Q a s'.
Proof.
  intros Hi Hps Hsafe Hwf Hsteps Hok.
  set (Qs := map (fun k => if decide (k = i) then Q else fun _ _ => True) (seq 0 (length ps))).
  destruct (pool_safe G Qs (ps, s) (ps', s') Hsteps) as [_ Hall].
  { apply Forall2_same_length_lookup_2; [by unfold Qs; rewrite length_map, length_seq|].
    intros k Qk q HQ Hq. simpl in Hq. unfold Qs in HQ. rewrite list_lookup_fmap in HQ.
    apply fmap_Some in HQ as (k' & Hk & ->). apply lookup_seq in Hk as [-> _]. simpl.
    destruct (decide (k = i)) as [->|Hne]; [congruence|]. by apply (Hps k). }
  destruct (Forall2_lookup_r _ _ _ _ _ Hall Hok) as (Qi & HQ & Hdone). unfold Qs in HQ.
  rewrite list_lookup_fmap in HQ. apply fmap_Some in HQ as (k' & [-> _]%lookup_seq & ->).
  simpl in Hdone. rewrite decide_True in Hdone by done. by apply (Hdone s').
Qed.
End TableMachine.

(** ** Programs that leave a table alone *)
Section Avoiding.
Context {JN : JsonNumbers}.

Lemma avoids_bind {A C} table (p : prog A) (f : A -> prog C) :
  avoids table p -> (forall a, avoids table (f a)) -> avoids table (p ≫= f).
Proof.
  intros Hp Hf. induction p as [a|R c k IH]; [apply Hf|]. destruct Hp as [Hc Hk]. split; [exact Hc|]. intros r. by apply IH.
Qed.
Lemma avoids_try {E A C} table (p : prog (outcome E A)) (f : A -> prog (outcome E C)) :
  avoids table p -> (forall a, avoids table (f a)) -> avoids table (prog_try p f).
Proof. intros Hp Hf. apply avoids_bind; [done|]. by intros [a|e|]; [apply Hf|..]. Qed.
Lemma avoids_or_fail {E F A C} table (g : E -> F) (p : prog (outcome E A)) (f : A -> prog (outcome F C)) :
  avoids table p -> (forall a, avoids table (f a)) -> avoids table (or_fail g p f).
Proof. intros Hp Hf. apply avoids_bind; [done|]. by intros [a|e|]; [apply Hf|..]. Qed.
Lemma avoids_call {R} table (c : call R) : table ∉ written_tables c -> avoids table (do_call c).
Proof. by split. Qed.
Lemma avoids_done {A} table (a : A) : avoids table (Done a).
Proof. done. Qed.
End Avoiding.
Ltac avoid :=
  repeat first
    [ progress intros | apply avoids_done | apply avoids_try | apply avoids_or_fail | apply avoids_bind
    | apply avoids_call; first [apply not_elem_of_nil | intros [?%(f_equal String.length)|?%elem_of_nil]%elem_of_cons; done]
    | case_match ].
