(* ===== verification/MemoryDb.v ===== *)
(** * An in-memory database

    A concrete backend and an executable reading of the calls, on which the
    witnesses run handlers and schedules. *)
From Stdlib Require Import String.
From S2P Require Import Prelude Ints Str Contracts SampleLib Records Effects.

(** A filter on JSON columns, text and numbers compared as such. *)
Definition memory_holds (f : Filter) (id : string) (cols : columns) : bool :=
  let column := if String.eqb (field f) "id" then Some (VString id) else cols !! field f in
  match column, operator f, value f with
  | Some (VString s), OpEqual, VString t => String.eqb s t
  | Some (VBool b), OpEqual, VBool c => Bool.eqb b c
  | Some (VString s), OpLessThan, VString t => String.ltb s t
  | Some (VString s), OpGreaterThan, VString t => String.ltb t s
  | Some (VString s), OpNotEqual, VString t => negb (String.eqb s t)
  | Some (VString s), OpIn, VArray l =>
      existsb (fun v => match v with VString t => String.eqb s t | _ => false end) l
  | Some (VNumber n), OpEqual, VNumber m => bool_decide (number_as_i64 n = number_as_i64 m)
  | Some (VNumber n), OpLessThan, VNumber m =>
      match number_as_i64 n, number_as_i64 m with Some a, Some b => a <? b | _, _ => false end
  | Some (VNumber n), OpLessEqual, VNumber m =>
      match number_as_i64 n, number_as_i64 m with Some a, Some b => a <=? b | _, _ => false end
  | None, OpIsNull, _ | Some VNull, OpIsNull, _ => true
  | _, _, _ => false
  end.
#[export] Instance memory_backend : Backend := {|
  holds := memory_holds;
  column_default := fun _ _ => VNull;
  unique_columns := fun table => if String.eqb table "impresspress__files__objects" then ["bucket"; "key"] else [];
  is_uuid := str_forall neither_slash_nor_tilde;
|}.

Lemma existsb_map {A C} (f : A -> C) p (l : list A) : existsb p (map f l) = existsb (fun x => p (f x)) l.
Proof. induction l as [|x l IH]; simpl; [done|]. by rewrite IH. Qed.

#[export] Instance memory_backend_laws : BackendLaws memory_backend.
Proof.
  split; cbn [holds memory_backend]; unfold memory_holds; cbn [field operator value].
  - done.
  - intros f id cols s t ->%String.eqb_neq. by intros ->.
  - intros f id cols b c ->%String.eqb_neq. by intros ->.
  - done.
  - intros f id cols s t ->%String.eqb_neq. by intros ->.
  - intros f id cols s l ->%String.eqb_neq ->. by rewrite existsb_map.
  - intros f id cols n m a b ->%String.eqb_neq -> -> ->. apply Bool.eq_iff_eq_true.
    rewrite bool_decide_eq_true, Z.eqb_eq. split; [by intros [= ->]|by intros ->].
  - intros f id cols n m a b ->%String.eqb_neq -> -> ->. done.
  - intros f id cols v ->%String.eqb_neq. destruct (cols !! f) as [w|]; [|done]. by intros [= ->].
  - intros f id cols v s ->%String.eqb_neq. by intros ->.
  - intros f id cols t ->%String.eqb_neq. destruct (cols !! f) as [w|]; [|done]. by intros [= ->].
  - intros f id cols n m a b ->%String.eqb_neq -> -> ->. done.
  - done.
  - done.
Qed.

Definition not_found {A} : WResult A := Err (wafer_error NotFound "not found").

Definition find_row (filters : list Filter) (r : table_rows) : option (string * columns) :=
  List.find (fun p => matches filters p.1 p.2) (map_to_list r).

(** What the other services answer. *)
Class Services := answer : forall R, service R -> R.
#[export] Instance idle_services : Services := fun R q =>
  match q in service R return R with
  | CryptoVerify _ => Err (wafer_error Unavailable "offline")
  | CryptoSign _ _ => Err (wafer_error Unavailable "offline")
  | RandomBytes _ => Err (wafer_error Unavailable "offline")
  | ConfigGetDefault _ d => Ok d
  | ConfigGetOptional _ => Ok None
  | UuidV7 => "uuid"
  | NowIso => "2026-01-01T00:00:00Z"
  | IsoAfter _ => Some "2026-02-01T00:00:00Z"
  | Rfc3339Before _ => "2025-12-31T23:00:00Z"
  | UtcNow => 0
  | AskBlock _ _ => AnswerOther "none"
  | LlmChat _ _ _ _ => Ok []
  end.

(** The id of a new row: its own column, or its family, or one of two. *)
Definition create_id (r : table_rows) (data : columns) : string :=
  default (if r !! "row" then "row'" else "row") (or_else (v ← data !! "id"; as_str v) (v ← data !! "family"; as_str v)).

(** The id of an upserted row: its own column, or a fixed one. *)
Definition upsert_id (data : columns) : string :=
  match data !! "id" with Some (VString id) => id | _ => "row" end.

Definition create_run (s : state) (op : BatchWrite) : option state :=
  let 'BatchCreate table data := op in
  let id := create_id (rows s table) data in
  match rows s table !! id with
  | None => Some (set_rows s table (<[id := data]> (rows s table)))
  | Some _ => None
  end.
Fixpoint creates_run (ops : list BatchWrite) (s : state) : option state :=
  match ops with [] => Some s | op :: ops => s' ← create_run s op; creates_run ops s' end.

Lemma creates_run_spec ops s s' : creates_run ops s = Some s' -> creates ops s s'.
Proof.
  revert s. induction ops as [|[table data] ops IH]; intros s; simpl; [by intros [= ->]|].
  destruct (rows s table !! create_id (rows s table) data) eqn:Hr; simpl; [done|]. intros Hs.
  exists (create_id (rows s table) data), data. split; [done|]. split; [done|]. by apply IH.
Qed.

(** A page order: text ascending or descending, the rest as empty text. *)
Definition column_text (sort : string) (p : string * columns) : string :=
  match p.2 !! sort with Some (VString s) => s | _ => "" end.
Definition text_le (sort : string) (desc : bool) (p q : string * columns) : Prop :=
  if desc then String.le (column_text sort q) (column_text sort p)
  else String.le (column_text sort p) (column_text sort q).
#[export] Instance text_le_dec sort desc p q : Decision (text_le sort desc p q).
Proof. unfold text_le. destruct desc; apply _. Defined.
#[export] Instance text_le_total sort desc : Total (text_le sort desc).
Proof. intros p q. unfold text_le. destruct desc; apply total, _. Qed.
#[export] Instance text_le_trans sort desc : Transitive (text_le sort desc).
Proof. intros p q r. unfold text_le. destruct desc; intros H1 H2; by etrans. Qed.
Definition page_order (filters : list Filter) (sort : string) (desc : bool) (r : table_rows)
  : list (string * columns) :=
  merge_sort (text_le sort desc) (map_to_list (filter (fun p => matches filters p.1 p.2 = true) r)).

Lemma page_order_ordered filters sort desc r : ordered_rows filters sort desc r (page_order filters sort desc r).
Proof.
  split; [apply merge_sort_Permutation|].
  pose proof (StronglySorted_merge_sort (text_le sort desc)
    (map_to_list (filter (fun p => matches filters p.1 p.2 = true) r))) as Hs.
  unfold page_order. induction Hs as [|p l Hl IH Hp]; constructor; [done|].
  eapply Forall_impl; [exact Hp|]. intros q. unfold text_le, column_le, column_text.
  by destruct (p.2 !! sort) as [[]|], (q.2 !! sort) as [[]|].
Qed.

(** An identifier that was not drawn. *)
Definition next_id (ids : table_rows) : string :=
  dec (1 + foldr Z.max 0 (map (fun p => dec_value p.1) (map_to_list ids))).

Lemma next_id_fresh ids : ids !! next_id ids = None.
Proof.
  apply eq_None_not_Some. intros [cols Hin]. apply elem_of_map_to_list in Hin. unfold next_id in Hin.
  set (m := foldr Z.max 0 _) in Hin.
  assert (0 <= m /\ Forall (fun p => dec_value p.1 <= m) (map_to_list ids)) as [Hm Hall].
  { subst m. clear Hin. induction (map_to_list ids) as [|p l [IH0 IH]]; simpl; [done|]. split; [lia|].
    constructor; [lia|]. eapply Forall_impl; [exact IH|]. simpl. lia. }
  rewrite Forall_forall in Hall. specialize (Hall _ Hin). simpl in Hall. rewrite dec_value_dec in Hall; lia.
Qed.
Lemma next_id_uuid ids : is_uuid (next_id ids) = true.
Proof.
  cbn [is_uuid memory_backend]. unfold next_id. set (m := foldr Z.max 0 _).
  assert (0 <= m) as Hm by (subst m; induction (map_to_list ids) as [|p l IH]; simpl; lia).
  assert (str_forall is_ascii_digit (dec (1 + m)) = true) as Hd by (apply dec_digits; lia).
  revert Hd. induction (dec (1 + m)) as [|c s IH]; [done|]. cbn [str_forall]. intros [Hc Hs]%andb_true_iff.
  rewrite IH by done. unfold is_ascii_digit in Hc. unfold neither_slash_nor_tilde.
  destruct (Ascii.eqb_spec c "/") as [->|]; [done|]. by destruct (Ascii.eqb_spec c "~") as [->|].
Qed.

(** Calls that succeed whenever they can; the clock stands still. *)
Definition call_run `{Services} {R} (c : call R) (s : state) : R * state :=
  match c in call R return R * state with
  | Get table id =>
      (match rows s table !! id with Some cols => Ok (row_of id cols) | None => not_found end, s)
  | GetByField table column v =>
      (match find_row [{| field := column; operator := OpEqual; value := v |}] (rows s table) with
       | Some (id, cols) => Ok (row_of id cols)
       | None => not_found
       end, s)
  | ListRows table filters limit =>
      (Ok (map (fun p => row_of p.1 p.2)
             (take limit (map_to_list (filter (fun p => matches filters p.1 p.2 = true) (rows s table))))), s)
  | UpdateByFiltersCount table filters data =>
      (Ok (count_rows filters (rows s table)),
       set_rows s table (update_rows filters data (rows s table)))
  | Update table id data =>
      match rows s table !! id with
      | Some cols =>
          (Ok (row_of id (overlay data cols)), set_rows s table (<[id := overlay data cols]> (rows s table)))
      | None => (not_found, s)
      end
  | Create table data =>
      let id := create_id (rows s table) data in
      let cols := <["id" := VString id]> data in
      match rows s table !! id, data !! "id" with
      | None, (None | Some (VString _)) => (Ok (row_of id cols), set_rows s table (<[id := cols]> (rows s table)))
      | _, _ => (Err (wafer_error Internal "duplicate id"), s)
      end
  | Now => ("2026-01-01T00:00:00Z", s)
  | UpdateByFilters table filters data =>
      (Ok tt, set_rows s table (update_rows filters data (rows s table)))
  | DeleteByFiltersCount table filters =>
      (Ok (count_rows filters (rows s table)), set_rows s table (delete_rows filters (rows s table)))
  | Batch ops =>
      match creates_run ops s with
      | Some s' => (Ok tt, s')
      | None => (Err (wafer_error Internal "duplicate id"), s)
      end
  | Delete table id =>
      match rows s table !! id with
      | Some _ => (Ok tt, set_rows s table (delete id (rows s table)))
      | None => (not_found, s)
      end
  | ListById table filters columns limit =>
      (Ok (map (fun p => row_of p.1 (project columns p.2))
             (take limit (sorted_rows filters (rows s table)))), s)
  | InsertIfAbsent table keys data =>
      let id := upsert_id data in
      if conflicts keys data (rows s table) then (Ok 0, s)
      else
        match rows s table !! id with
        | None => (Ok 1, set_rows s table (<[id := data]> (rows s table)))
        | Some _ => (Err (wafer_error Internal "duplicate id"), s)
        end
  | IncrementFieldWhere table column amount filters =>
      if overflows filters column amount (rows s table) then (Err (wafer_error Internal "overflow"), s)
      else (Ok (count_rows filters (rows s table)),
            set_rows s table (increment_rows filters column amount (rows s table)))
  | ListPage table filters sort desc limit offset =>
      (Ok (map (fun p => row_of p.1 p.2)
             (take limit (drop offset (page_order filters sort desc (rows s table)))),
           count_rows filters (rows s table)), s)
  | InsertGuarded table data guards =>
      match refusing 0 guards (rows s table) with
      | Some i => (Ok (InsertRefused i), s)
      | None =>
          let id := create_id (rows s table) data in
          let cols := <["id" := VString id]> data in
          let free := bool_decide (unique_columns table = []) || negb (conflicts (unique_columns table) data (rows s table)) in
          match rows s table !! id, data !! "id", free with
          | None, (None | Some (VString _)), true =>
              (Ok GuardInserted, set_rows s table (<[id := cols]> (rows s table)))
          | _, _, _ => (Err (wafer_error AlreadyExists "duplicate key"), s)
          end
      end
  | UpdateGuarded table filters data guards =>
      match refusing 0 guards (rows s table) with
      | Some i => (Ok (UpdateRefused i), s)
      | None =>
          if count_rows filters (rows s table) =? 0 then (Ok UpdateNoMatch, s)
          else (Ok (GuardUpdated (count_rows filters (rows s table))),
                set_rows s table (update_rows filters data (rows s table)))
      end
  | StorePut folder key content _ =>
      (Ok tt, set_rows s (storage_of folder) (<[key := blob content]> (rows s (storage_of folder))))
  | StoreGet folder key =>
      (match rows s (storage_of folder) !! key with
       | Some cols =>
           match cols !! "content" with
           | Some (VString content) => Ok (content, "application/octet-stream")
           | _ => Err (wafer_error Internal "blob")
           end
       | None => not_found
       end, s)
  | StoreDelete folder key =>
      match rows s (storage_of folder) !! key with
      | Some _ => (Ok tt, set_rows s (storage_of folder) (delete key (rows s (storage_of folder))))
      | None => (not_found, s)
      end
  | FreshId => (next_id (rows s drawn_ids), set_rows s drawn_ids (<[next_id (rows s drawn_ids) := ∅]> (rows s drawn_ids)))
  | Ask q => (answer _ q, s)
  end.

Lemma created_id table data id : created table data id (<["id" := VString id]> data).
Proof.
  split; [apply lookup_insert_eq|]. intros k v [[<- _]|[_ Hk]]%lookup_insert_Some; [by left|by right; left].
Qed.

Lemma call_run_step `{Services} {R} (c : call R) s : call_step c s (call_run c s).1 (call_run c s).2.
Proof.
  destruct c as [table id|table column v|table filters limit|table filters data|table id data|table data| |table filters data|table filters|ops|table id|table filters columns limit|table keys data|table column amount filters|table filters sort desc limit offset|table data guards|table filters data guards|folder key content ct|folder key|folder key| |R q]; simpl.
  - split; [done|]. right. destruct (rows s table !! id) as [cols|] eqn:Hr.
    + left. exists id, cols. by rewrite String.eqb_refl.
    + right. exists (wafer_error NotFound "not found"). do 2 (split; [done|]).
      intros i cols Hi. apply String.eqb_neq. intros ->. congruence.
  - split; [done|]. right. unfold find_row.
    destruct (List.find _ (map_to_list (rows s table))) as [[id cols]|] eqn:Hf.
    + left. apply List.find_some in Hf as [Hin Hm]. exists id, cols. split; [|done].
      by apply elem_of_map_to_list, list_elem_of_In.
    + right. exists (wafer_error NotFound "not found"). do 2 (split; [done|]).
      intros i cols Hi. apply (List.find_none _ _ Hf (i, cols)).
      by apply list_elem_of_In, elem_of_map_to_list.
  - split; [done|]. right. eexists. split; [done|].
    set (m := filter _ (rows s table)). repeat split.
    + apply Forall_map, Forall_take, Forall_forall. intros [i cols] Hin%elem_of_map_to_list. simpl.
      by apply map_lookup_filter_Some in Hin.
    + rewrite <- list_fmap_compose. change (NoDup (fst <$> take limit (map_to_list m))).
      rewrite fmap_take. apply (sublist_NoDup _ ((map_to_list m).*1)); [apply NoDup_fst_map_to_list|apply sublist_take].
    + rewrite length_map, length_take, length_map_to_list. unfold count_rows. fold m. lia.
  - by right.
  - destruct (rows s table !! id); simpl; [by right|]. split; [done|]. by eexists.
  - destruct (rows s table !! create_id (rows s table) data) eqn:Hr; [left; split; [done|]; by eexists|].
    assert (forall v, data !! "id" = Some (VString v) -> create_id (rows s table) data = v) as Hid
      by (intros v Hv; unfold create_id; by rewrite Hv).
    destruct (data !! "id") as [[]|] eqn:Hd; cbn [fst snd]; try (left; split; [done|]; by eexists);
      (right; eexists _, _; split; [exact Hr|]; split; [|split; [by apply created_id|split; [done|by left]]]).
    + rewrite (Hid _ eq_refl). by rewrite insert_id.
    + by apply insert_subseteq.
  - done.
  - by right.
  - by right.
  - destruct (creates_run ops s) as [s'|] eqn:Hs; simpl.
    + right. split; [by apply creates_run_spec|by left].
    + left. split; [done|]. by eexists.
  - destruct (rows s table !! id); simpl; [by right|]. split; [done|]. by eexists.
  - split; [done|]. by right.
  - destruct (conflicts keys data (rows s table)) eqn:Hc; simpl; [left; split; [done|]; by right|].
    destruct (rows s table !! upsert_id data) eqn:Hr; simpl.
    + left. split; [done|]. left. by eexists.
    + right. split; [done|]. exists (upsert_id data), data. do 2 (split; [done|]). split; [|split; [done|by left]].
      intros x Hx. unfold upsert_id. by rewrite Hx.
  - destruct (overflows filters column amount (rows s table)) eqn:Ho; [left|by right].
    split; [by exists (wafer_error Internal "overflow")|by left].
  - split; [done|]. right. eexists. split; [apply page_order_ordered|done].
  - destruct (refusing 0 guards (rows s table)) as [i|]; simpl; [by right|].
    destruct (rows s table !! create_id (rows s table) data) eqn:Hr; [left; split; [done|]; by eexists|].
    assert (forall v, data !! "id" = Some (VString v) -> create_id (rows s table) data = v) as Hid
      by (intros v Hv; unfold create_id; by rewrite Hv).
    destruct (bool_decide _ || _) eqn:Hfree;
      [|destruct (data !! "id") as [[]|]; left; (split; [done|]); by eexists].
    assert (key_free table data (rows s table)) as Hkey.
    { apply orb_true_iff in Hfree as [?%bool_decide_eq_true|?%negb_true_iff]; [by left|by right]. }
    destruct (data !! "id") as [[]|] eqn:Hd; cbn [fst snd]; try (left; split; [done|]; by eexists);
      (right; eexists _, _; split; [exact Hr|]; split; [|split; [by apply created_id|split; [done|split; [done|split; [done|by left]]]]]).
    + rewrite (Hid _ eq_refl). by rewrite insert_id.
    + by apply insert_subseteq.
  - destruct (refusing 0 guards (rows s table)) as [i|]; simpl; [by right|].
    destruct (count_rows filters (rows s table) =? 0); simpl; right; [done|]. split; [done|by left].
  - by left.
  - split; [done|]. destruct (rows s (storage_of folder) !! key) as [cols|]; [|right; by eexists].
    destruct (cols !! "content") as [[]|]; try (left; by eexists). right. by eexists _, _.
  - destruct (rows s (storage_of folder) !! key); simpl; [by right|]. split; [done|]. by eexists.
  - split; [apply next_id_fresh|]. split; [apply next_id_uuid|done].
  - done.
Qed.

(** Let handler [i] of a pool make its next call. *)
Definition run_one `{Services} {A} (i : nat) (cfg : list (prog A) * state) : list (prog A) * state :=
  match cfg.1 !! i with
  | Some (Do c k) => let r := call_run c cfg.2 in (<[i := k r.1]> cfg.1, r.2)
  | _ => cfg
  end.
(** Run a schedule: which handler moves next. *)
Definition run_schedule `{Services} {A} (schedule : list nat) (cfg : list (prog A) * state) : list (prog A) * state :=
  foldl (fun cfg i => run_one i cfg) cfg schedule.

Lemma run_one_steps `{Services} {A} i (cfg : list (prog A) * state) : rtc pool_step cfg (run_one i cfg).
Proof.
  unfold run_one. destruct cfg as [ps s]. simpl. destruct (ps !! i) as [[a|R c k]|] eqn:Hi; [done| |done].
  apply rtc_once. econstructor; [exact Hi|]. simpl. eexists. split; [apply call_run_step|done].
Qed.

Lemma run_schedule_steps `{Services} {A} schedule (cfg : list (prog A) * state) :
  rtc pool_step cfg (run_schedule schedule cfg).
Proof.
  revert cfg. induction schedule as [|i schedule IH]; intros cfg; [done|].
  etrans; [apply (run_one_steps i)|]. apply IH.
Qed.

(** What a run of a handler on its own answers. *)
Fixpoint run_alone `{Services} {A} (p : prog A) (s : state) : A :=
  match p with
  | Done a => a
  | Do c k => let r := call_run c s in run_alone (k r.1) r.2
  end.
Lemma safe_run_alone `{Services} {G : state -> state -> Prop} `{!PreOrder G} {A} (Q : A -> state -> Prop) p s :
  safe G Q p s -> exists s', Q (run_alone p s) s'.
Proof.
  revert s. induction p as [a|R c k IH]; intros s Hp; [exists s; by apply Hp|].
  simpl. apply IH. by apply (Hp s ltac:(reflexivity) _ _ (call_run_step c s)).
Qed.

(** The run of a handler on its own in memory. *)
Fixpoint run_traced `{Services} {A} (p : prog A) (s : state) : list happened * A :=
  match p with
  | Done a => ([], a)
  | Do c k => let r := call_run c s in let q := run_traced (k r.1) r.2 in (Happened c r.1 :: q.1, q.2)
  end.
Lemma run_traced_ran `{Services} {A} (p : prog A) s : ran p (run_traced p s).1 (run_traced p s).2.
Proof. revert s. induction p as [a|R c k IH]; intros s; [done|]. exists (call_run c s).1. split; [done|]. apply IH. Qed.

(** The run of a handler that succeeds, and its result. *)
Definition ok_or_default {E A} (d : A) (r : outcome E A) : A := match r with Ok a => a | _ => d end.
Lemma run_traced_ok `{Services} {E A} (p : prog (outcome E A)) s d :
  match (run_traced p s).2 with Ok _ => true | _ => false end = true ->
  ran p (run_traced p s).1 (Ok (ok_or_default d (run_traced p s).2)).
Proof. pose proof (run_traced_ran p s) as Hr. by destruct (run_traced p s) as [t [a|e|]]. Qed.
Lemma run_traced_result `{Services} {A} (p : prog A) s a :
  (run_traced p s).2 = a -> ran p (run_traced p s).1 a.
Proof. intros <-. apply run_traced_ran. Qed.
