(* ===== verification/Ghost.v ===== *)
(** * Handlers with ghost state

    A pool of handlers keeps an invariant of the state and of what each handler
    is entitled to ([L]): every call of a handler may use the invariant, must
    restore it, and may change what this handler, and no other, is entitled to.
    The calls are those of a relation [step]: all that [call_step] allows, or
    those of the runs that a theorem is about. *)
From Stdlib Require Import String.
From S2P Require Import Prelude Contracts Records Effects.

Section Ghost.
Context {JN : JsonNumbers} {L : Type} {step : forall R, call R -> state -> R -> state -> Prop} (Inv : state -> list L -> Prop).

Fixpoint upholds_in {A} (Q : A -> L -> Prop) (l : L) (p : prog A) : Prop :=
  match p with
  | Done a => Q a l
  | Do c k => forall s others r s', Inv s (l :: others) -> step _ c s r s' ->
      exists l', Inv s' (l' :: others) /\ upholds_in Q l' (k r)
  end.

Lemma upholds_bind {A C} (Q : A -> L -> Prop) (Q' : C -> L -> Prop) l p f :
  upholds_in Q l p -> (forall a l', Q a l' -> upholds_in Q' l' (f a)) -> upholds_in Q' l (p ≫= f).
Proof.
  intros Hp Hf. revert l Hp. induction p as [a|R c k IH]; intros l Hp; [by apply Hf|].
  intros s others r s' HI Hc. destruct (Hp s others r s' HI Hc) as (l' & HI' & Hk). exists l'. split; [done|]. by apply IH.
Qed.
Lemma upholds_weaken {A} (Q Q' : A -> L -> Prop) l p :
  (forall a l', Q a l' -> Q' a l') -> upholds_in Q l p -> upholds_in Q' l p.
Proof.
  intros HQ. revert l. induction p as [a|R c k IH]; intros l Hp; [by apply HQ|].
  intros s others r s' HI Hc. destruct (Hp s others r s' HI Hc) as (l' & HI' & Hk). exists l'. split; [done|]. by apply IH.
Qed.
(** Errors end a handler. *)
Lemma upholds_try {E A C} (Q : outcome E A -> L -> Prop) (Q' : outcome E C -> L -> Prop) l p f :
  upholds_in Q l p ->
  (forall a l', Q (Ok a) l' -> upholds_in Q' l' (f a)) ->
  (forall e l', Q (Err e) l' -> Q' (Err e) l') -> (forall l', Q Panic l' -> Q' Panic l') ->
  upholds_in Q' l (prog_try p f).
Proof. intros Hp Hf He Hpan. eapply upholds_bind; [exact Hp|]. intros [a|e|] l' HQ; [by apply Hf|by apply He|by apply Hpan]. Qed.

(** A call that writes nothing: what it answers is known of a state of the
    invariant. *)
Lemma upholds_read {R A} (Q : A -> L -> Prop) (c : call R) (k : R -> prog A) l :
  (forall s r s', step _ c s r s' -> s' = s) ->
  (forall s others r, Inv s (l :: others) -> step _ c s r s -> exists l', Inv s (l' :: others) /\ upholds_in Q l' (k r)) ->
  upholds_in Q l (Do c k).
Proof.
  intros Hr Hk s others r s' HI Hc. pose proof (Hr s r s' Hc) as ->. by apply (Hk s).
Qed.

Hypothesis Inv_perm : forall s ls ls', ls ≡ₚ ls' -> Inv s ls -> Inv s ls'.

Lemma delete_insert_same {X} (l : list X) i x : delete i (<[i := x]> l) = delete i l.
Proof. revert i. induction l as [|y l IH]; intros [|i]; simpl; try done. by rewrite IH. Qed.

(** One handler of the pool makes its next call. *)
Inductive moves {A} : list (prog A) * state -> list (prog A) * state -> Prop :=
| PoolMove {R} ps i (c : call R) k r s s' :
    ps !! i = Some (Do c k) -> step _ c s r s' -> moves (ps, s) (<[i := k r]> ps, s').

Theorem upholds_moves {A} (Q : A -> L -> Prop) cfg cfg' :
  rtc moves cfg cfg' -> forall ls, Inv cfg.2 ls -> Forall2 (upholds_in Q) ls cfg.1 ->
  exists ls', Inv cfg'.2 ls' /\ Forall2 (upholds_in Q) ls' cfg'.1.
Proof.
  induction 1 as [cfg|cfg1 cfg2 cfg3 Hstep _ IH]; intros ls HI Hall; [by exists ls|].
  destruct Hstep as [R ps i c k r s s' Hi Hc]. simpl in *.
  destruct (Forall2_lookup_r _ _ _ _ _ Hall Hi) as (l & Hl & Hu).
  destruct (Hu s (delete i ls) r s') as (l' & HI' & Hk); [|done|].
  { eapply Inv_perm; [|exact HI]. by apply delete_Permutation. }
  apply (IH (<[i := l']> ls)); [|by apply Forall2_insert].
  eapply Inv_perm; [|exact HI']. symmetry. rewrite <- (delete_insert_same ls i l').
  apply delete_Permutation, list_lookup_insert_eq. by eapply lookup_lt_Some.
Qed.
End Ghost.
Arguments upholds_in {JN L} step Inv {A} Q l p.
Arguments moves {JN} step {A} _ _.

(** Every call that [call_step] allows. *)
Abbreviation any_call := (fun R => @call_step _ _ R).
Abbreviation upholds Inv := (upholds_in any_call Inv).
Lemma pool_moves {JN : JsonNumbers} {B : Backend} {A} (cfg cfg' : list (prog A) * state) :
  rtc pool_step cfg cfg' -> rtc (moves any_call) cfg cfg'.
Proof.
  apply rtc_subrel. intros c c' [ps i p p' s s' Hi Hp]. destruct p as [a|R cl k]; [done|].
  destruct Hp as (r & Hc & ->). by econstructor.
Qed.
Lemma upholds_pool {JN : JsonNumbers} {B : Backend} {L} (Inv : state -> list L -> Prop)
    (Inv_perm : forall s ls ls', ls ≡ₚ ls' -> Inv s ls -> Inv s ls') {A} (Q : A -> L -> Prop) cfg cfg' :
  rtc pool_step cfg cfg' -> forall ls, Inv cfg.2 ls -> Forall2 (upholds Inv Q) ls cfg.1 ->
  exists ls', Inv cfg'.2 ls' /\ Forall2 (upholds Inv Q) ls' cfg'.1.
Proof. intros H. by apply (upholds_moves _ Inv_perm), pool_moves. Qed.
