(* ===== verification/Orders.v ===== *)
(** * Orders ([blocks/products/repo/purchases.rs])

    The writes of the purchases table as programs over the database calls:
    claiming, completing, failing, payment-intent diagnostics, subscription
    projection and refunds.  Each is a read, the checks, and one guarded
    update. *)
From Stdlib Require Import String.
From S2P Require Import Prelude Ints Str Contracts Money Records Lifecycle Effects Columns.

Definition PURCHASES_TABLE : string := "impresspress__products__purchases".

Record CheckoutSessionCompletion := {
  cs_session_id : string;
  cs_client_reference_id : string;
  cs_event_account : string;
  cs_livemode : bool;
  cs_mode : string;
  cs_payment_status : string;
  cs_currency : string;
  cs_subtotal_minor : Z;
  cs_discount_minor : Z;
  cs_tax_minor : Z;
  cs_shipping_minor : Z;
  cs_total_minor : Z;
  cs_offer_id : string;
  cs_offer_version : Z;
  cs_payment_intent_id : string;
  cs_customer_id : string;
  cs_subscription_id : string;
}.

Record PaymentIntentSnapshot := {
  pi_purchase_id : string;
  pi_offer_id : string;
  pi_offer_version : Z;
  pi_payment_intent_id : string;
  pi_stripe_account_id : string;
  pi_livemode : bool;
  pi_status : ProviderPaymentStatus;
  pi_amount_minor : Z;
  pi_currency : string;
  pi_error_code : string;
  pi_error_message : string;
  pi_event_created : Z;
}.

Section Orders.
Context {JN : JsonNumbers} {JS : JsonScalars JN} {DF : DebugFmt}.

Definition status_in (statuses : list OrderStatus) : Filter :=
  {| field := "status"; operator := OpIn; value := VArray (map VString (map wire statuses)) |}.

Definition checkout_metadata (record : Row) : option Value :=
  metadata ← row_data record !! "metadata";
  value ← match metadata with VString raw => json_from_str raw | v => Some v end;
  if is_object value then Some value else None.

Definition get (id : string) : prog (WResult Row) := do_call (Get PURCHASES_TABLE id).
Definition update (id : string) (data : columns) : prog (WResult Row) :=
  do_call (Update PURCHASES_TABLE id data).
Definition find_by_payment_intent (payment_intent : string) : prog (WResult Row) :=
  do_call (GetByField PURCHASES_TABLE "provider_payment_intent_id" (VString payment_intent)).

Definition mark_checkout_failed (purchase_id message : string) : prog (WResult Row) :=
  now ← now_rfc3339;
  update purchase_id (columns_of
    [("status", VString (wire Failed));
     ("reconciliation_status", VString (wire ProviderError));
     ("reconciliation_error", VString message);
     ("updated_at", VString now)]).

Definition claim_for_checkout (purchase_id : string) : prog (WResult Z) :=
  now ← now_rfc3339;
  do_call (UpdateByFiltersCount PURCHASES_TABLE
    [eq_filter "id" (VString purchase_id); eq_filter "status" (VString (wire Pending))]
    (columns_of [("status", VString (wire CheckoutStarted)); ("updated_at", VString now)])).

Definition complete_checkout_atomic (purchase_id payment_intent stripe_customer_id
    stripe_subscription_id : string) (livemode : bool) : prog (WResult Z) :=
  now ← now_rfc3339;
  let data := columns_of (
    [("status", VString (wire Completed));
     ("provider_payment_intent_id", VString payment_intent);
     ("stripe_payment_intent_id", VString payment_intent)] ++
    unless (is_empty payment_intent)
      [("provider_payment_status", VString (wire Succeeded));
       ("provider_payment_error_code", VString "");
       ("provider_payment_error_message", VString "")] ++
    [("stripe_customer_id", VString stripe_customer_id);
     ("stripe_subscription_id", VString stripe_subscription_id)] ++
    unless (is_empty stripe_subscription_id)
      [("subscription_status", VString (wire Active));
       ("subscription_last_synced_at", VString now)] ++
    [("livemode", VBool livemode);
     ("reconciliation_status", VString (wire Reconciled));
     ("approved_at", VString now);
     ("payment_at", VString now);
     ("updated_at", VString now)]) in
  do_call (UpdateByFiltersCount PURCHASES_TABLE
    [eq_filter "id" (VString purchase_id); status_in [CheckoutStarted; Pending]] data).

(** ** The checks a Checkout Session shares *)

(** [metadata.get("offer_version").and_then(json_as_u64).and_then(u32::try_from)] *)
Definition offer_version_of (metadata : Value) : Z :=
  default 0 (v ← value_get "offer_version" metadata; n ← json_as_u64 v; checked in_u32 n).
Definition text_of (key : string) (metadata : Value) : string :=
  default "" (v ← value_get key metadata; as_str v).

Definition reconciliation_failed (message : string) : WaferError :=
  wafer_error FailedPrecondition (String.append "Checkout Session reconciliation failed: " message).
Definition failure_failed (message : string) : WaferError :=
  wafer_error FailedPrecondition
    (String.append "Checkout Session failure reconciliation failed: " message).

(** [client_reference_id] to [subtotal]: the identity of the order. *)
Definition check_order_identity (invalid : string -> WaferError) (purchase_id : string)
    (purchase : Row) (completion : CheckoutSessionCompletion) : WResult unit :=
  _ ← err_if (negb (String.eqb (cs_client_reference_id completion) purchase_id))
        (invalid "client reference does not match the order");
  _ ← err_if (negb (String.eqb (str_field purchase "stripe_account_id") (cs_event_account completion)))
        (invalid "Stripe account does not match the order");
  _ ← err_if (negb (Bool.eqb (bool_field purchase "livemode") (cs_livemode completion)))
        (invalid "test/live mode does not match the order");
  _ ← err_if (negb (String.eqb (str_field purchase "currency")
                      (to_ascii_uppercase (cs_currency completion))))
        (invalid "currency does not match the order");
  err_if (negb (i64_field purchase "subtotal_cents" =? cs_subtotal_minor completion))
    (invalid "subtotal does not match the immutable quote").

(** The mode and offer of the order's metadata. *)
Definition check_offer (invalid : string -> WaferError) (metadata : Value)
    (completion : CheckoutSessionCompletion) : WResult unit :=
  _ ← err_if (negb (String.eqb (text_of "offer_mode" metadata) (cs_mode completion)))
        (invalid "Checkout mode does not match the offer");
  err_if (negb (String.eqb (text_of "offer_id" metadata) (cs_offer_id completion)) ||
          negb (offer_version_of metadata =? cs_offer_version completion))
    (invalid "offer identity/version does not match the order").

Definition shipping_allowed (metadata : Value) (shipping_minor : Z) : bool :=
  match (v ← value_get "allowed_shipping_amounts_minor" metadata; as_array v) with
  | Some amounts => existsb (fun amount => amount =? shipping_minor) (omap as_i64 amounts)
  | None => shipping_minor =? 0
  end.

Definition expected_total (completion : CheckoutSessionCompletion) : option Z :=
  value ← checked_sub in_i64 (cs_subtotal_minor completion) (cs_discount_minor completion);
  value ← checked_add in_i64 value (cs_tax_minor completion);
  checked_add in_i64 value (cs_shipping_minor completion).

(** The match on the expected mode. *)
Definition check_mode (invalid : string -> WaferError) (completion : CheckoutSessionCompletion)
    (expected_mode : string) : WResult unit :=
  if String.eqb expected_mode "payment" then
    err_if (is_empty (cs_payment_intent_id completion) &&
            negb (String.eqb (cs_payment_status completion) "no_payment_required"))
      (invalid "paid one-time Checkout is missing its PaymentIntent")
  else if String.eqb expected_mode "subscription" then
    err_if (is_empty (cs_subscription_id completion))
      (invalid "subscription Checkout is missing its Subscription")
  else Err (invalid "order has an unsupported Checkout mode").

(** All the checks of [reconcile_checkout_session], in order. *)
Definition check_completion (purchase_id : string) (purchase : Row)
    (completion : CheckoutSessionCompletion) : WResult unit :=
  let invalid := reconciliation_failed in
  _ ← err_if (is_empty (cs_session_id completion)) (invalid "session id does not match the order");
  let stored_session_id := str_field purchase "provider_session_id" in
  _ ← err_if (negb (is_empty stored_session_id) &&
              negb (String.eqb stored_session_id (cs_session_id completion)))
        (invalid "session id does not match the order");
  _ ← check_order_identity invalid purchase_id purchase completion;
  _ ← err_if ((cs_discount_minor completion <? 0) || (cs_tax_minor completion <? 0) ||
              (cs_shipping_minor completion <? 0))
        (invalid "discount, tax, and shipping amounts must not be negative");
  metadata ← ok_or (checkout_metadata purchase) (invalid "order metadata is invalid");
  _ ← err_if (negb (shipping_allowed metadata (cs_shipping_minor completion)))
        (invalid "shipping amount is not allowed by the order snapshot");
  total ← ok_or (expected_total completion) (invalid "amount breakdown overflowed");
  _ ← err_if (negb (cs_total_minor completion =? total)) (invalid "amount breakdown is inconsistent");
  _ ← err_if (negb (String.eqb (cs_payment_status completion) "paid" ||
                    String.eqb (cs_payment_status completion) "no_payment_required"))
        (invalid "payment is not complete");
  _ ← check_offer invalid metadata completion;
  check_mode invalid completion (text_of "offer_mode" metadata).

Definition completion_data (completion : CheckoutSessionCompletion) (adopt_session : bool) (now : string)
  : columns := columns_of (
    [("status", VString (wire Completed));
     ("provider_payment_intent_id", VString (cs_payment_intent_id completion));
     ("stripe_payment_intent_id", VString (cs_payment_intent_id completion));
     ("stripe_customer_id", VString (cs_customer_id completion));
     ("stripe_subscription_id", VString (cs_subscription_id completion));
     ("discount_cents", json_i64 (cs_discount_minor completion));
     ("tax_cents", json_i64 (cs_tax_minor completion));
     ("shipping_cents", json_i64 (cs_shipping_minor completion));
     ("total_cents", json_i64 (cs_total_minor completion));
     ("amount_cents", json_i64 (cs_total_minor completion));
     ("reconciliation_status", VString (wire Reconciled));
     ("reconciliation_error", VString "");
     ("approved_at", VString now);
     ("payment_at", VString now);
     ("updated_at", VString now)] ++
    unless (is_empty (cs_payment_intent_id completion))
      [("provider_payment_status", VString (wire Succeeded));
       ("provider_payment_error_code", VString "");
       ("provider_payment_error_message", VString "")] ++
    unless (is_empty (cs_subscription_id completion))
      [("subscription_status", VString (wire Active));
       ("subscription_last_synced_at", VString now)] ++
    unless (negb adopt_session) [("provider_session_id", VString (cs_session_id completion))]).

Definition reconcile_checkout_session (purchase_id : string) (completion : CheckoutSessionCompletion)
  : prog (WResult Z) :=
  purchase ←? get purchase_id;
  _ ←! check_completion purchase_id purchase completion;
  let stored_session_id := str_field purchase "provider_session_id" in
  now ← now_rfc3339;
  do_call (UpdateByFiltersCount PURCHASES_TABLE
    [eq_filter "id" (VString purchase_id); status_in [CheckoutStarted; Pending];
     eq_filter "provider_session_id" (VString stored_session_id)]
    (completion_data completion (is_empty stored_session_id) now)).

Definition check_failure (purchase_id : string) (purchase : Row)
    (completion : CheckoutSessionCompletion) : WResult unit :=
  let invalid := failure_failed in
  let stored_session_id := str_field purchase "provider_session_id" in
  _ ← err_if (is_empty stored_session_id ||
              negb (String.eqb stored_session_id (cs_session_id completion)))
        (invalid "session id does not match the order");
  _ ← check_order_identity invalid purchase_id purchase completion;
  metadata ← ok_or (checkout_metadata purchase) (invalid "order metadata is invalid");
  check_offer invalid metadata completion.

Definition reconcile_checkout_failure (purchase_id : string) (completion : CheckoutSessionCompletion)
    (message : string) : prog (WResult Z) :=
  purchase ←? get purchase_id;
  _ ←! check_failure purchase_id purchase completion;
  now ← now_rfc3339;
  do_call (UpdateByFiltersCount PURCHASES_TABLE
    [eq_filter "id" (VString purchase_id); status_in [CheckoutStarted; Pending];
     eq_filter "provider_session_id" (VString (cs_session_id completion))]
    (columns_of
       [("status", VString (wire Failed));
        ("reconciliation_status", VString (wire ProviderError));
        ("reconciliation_error", VString message);
        ("updated_at", VString now)])).

(** ** Payment intents *)
Definition intent_failed (message : string) : WaferError :=
  wafer_error FailedPrecondition (String.append "PaymentIntent reconciliation failed: " message).

Definition check_snapshot (snapshot : PaymentIntentSnapshot) : WResult string :=
  _ ← err_if (is_empty (pi_payment_intent_id snapshot) || (pi_event_created snapshot <? 0) ||
              (pi_amount_minor snapshot <? 0) || bool_decide (pi_status snapshot = PayUnset))
        (intent_failed "id, supported status, non-negative amount, and event timestamp are required");
  map_err (fun _ => intent_failed "currency is invalid") (normalize_currency (pi_currency snapshot)).

(** [Ok(None)] for a lookup that finds nothing. *)
Definition found (r : WResult Row) : WResult (option Row) :=
  match r with
  | Ok purchase => Ok (Some purchase)
  | Err error => if bool_decide (we_code error = NotFound) then Ok None else Err error
  | Panic => Panic
  end.

Definition intent_purchase (snapshot : PaymentIntentSnapshot) : prog (WResult (option Row)) :=
  r ← (if is_empty (pi_purchase_id snapshot)
       then find_by_payment_intent (pi_payment_intent_id snapshot)
       else get (pi_purchase_id snapshot));
  Done (found r).

(** The checks against the order's metadata and identity. *)
Definition check_intent (snapshot : PaymentIntentSnapshot) (currency : string) (metadata : Value)
    (purchase : Row) : WResult unit :=
  _ ← err_if (negb (bool_decide ((v ← value_get "offer_mode" metadata; as_str v) = Some "payment")))
        (intent_failed "order is not a payment-mode Checkout");
  _ ← err_if (negb (is_empty (pi_purchase_id snapshot)) &&
              (is_empty (pi_offer_id snapshot) ||
               negb (String.eqb (pi_offer_id snapshot) (text_of "offer_id" metadata)) ||
               negb (pi_offer_version snapshot =? offer_version_of metadata)))
        (intent_failed "metadata offer identity/version does not match the order");
  _ ← err_if (negb (String.eqb (str_field purchase "stripe_account_id") (pi_stripe_account_id snapshot)))
        (intent_failed "Stripe account does not match the order");
  _ ← err_if (negb (Bool.eqb (bool_field purchase "livemode") (pi_livemode snapshot)))
        (intent_failed "test/live mode does not match the order");
  _ ← err_if (negb (String.eqb (str_field purchase "currency") currency))
        (intent_failed "currency does not match the order");
  let current_intent := str_field purchase "provider_payment_intent_id" in
  err_if (negb (is_empty current_intent) &&
          negb (String.eqb current_intent (pi_payment_intent_id snapshot)))
    (intent_failed "PaymentIntent id does not match the order").

Definition intent_reconciliation (status : ProviderPaymentStatus) : WResult ReconciliationStatus :=
  match status with
  | Succeeded => Ok PaymentSucceededAwaitingCheckout
  | PaymentFailed => Ok RecPaymentFailed
  | Processing => Ok PaymentProcessing
  | RequiresAction => Ok PaymentRequiresAction
  | PayCanceled => Ok PaymentCanceled
  | PayUnset => Err (intent_failed "PaymentIntent event carried no status")
  end.

Definition intent_data (snapshot : PaymentIntentSnapshot) (now : string)
    (reconciliation : list (string * Value)) : columns := columns_of (
    [("provider_payment_intent_id", VString (pi_payment_intent_id snapshot));
     ("stripe_payment_intent_id", VString (pi_payment_intent_id snapshot));
     ("provider_payment_status", VString (wire (pi_status snapshot)));
     ("provider_payment_error_code", VString (pi_error_code snapshot));
     ("provider_payment_error_message", VString (pi_error_message snapshot));
     ("payment_intent_event_created", json_i64 (pi_event_created snapshot));
     ("updated_at", VString now)] ++ reconciliation).

(** From [order_status] on: the conflict checks and the guarded update. *)
Definition write_intent (snapshot : PaymentIntentSnapshot) (purchase : Row)
  : prog (WResult (option Row)) :=
  order_status ←! enum_column (T:=OrderStatus) purchase "status";
  let paid := is_paid order_status in
  if paid && negb (bool_decide (pi_status snapshot = Succeeded)) then Done (Ok (Some purchase))
  else
    _ ←! err_if (paid && negb (i64_field purchase "total_cents" =? pi_amount_minor snapshot))
           (intent_failed "amount does not match the completed order");
    _ ←! err_if (negb paid && bool_decide (order_status = Failed) &&
                 bool_decide (pi_status snapshot = Succeeded))
           (intent_failed "a succeeded PaymentIntent conflicts with a terminal failed order");
    now ← now_rfc3339;
    reconciliation ←!
      (if paid then Ok []
       else
         reconciliation_status ← intent_reconciliation (pi_status snapshot);
         Ok [("reconciliation_status", VString (wire reconciliation_status));
             ("reconciliation_error", VString (pi_error_message snapshot))]);
    _ ←? do_call (UpdateByFiltersCount PURCHASES_TABLE
           [eq_filter "id" (VString (row_id purchase));
            eq_filter "status" (VString (wire order_status));
            eq_filter "provider_payment_intent_id"
              (VString (str_field purchase "provider_payment_intent_id"));
            le_filter "payment_intent_event_created" (json_i64 (pi_event_created snapshot))]
           (intent_data snapshot now reconciliation));
    purchase ←? get (row_id purchase);
    Done (Ok (Some purchase)).

Definition sync_payment_intent (snapshot : PaymentIntentSnapshot) : prog (WResult (option Row)) :=
  currency ←! check_snapshot snapshot;
  purchase ←? intent_purchase snapshot;
  match purchase with
  | None => Done (Ok None)
  | Some purchase =>
      match checkout_metadata purchase with
      | None => Done (Ok None)
      | Some metadata =>
          _ ←! check_intent snapshot currency metadata purchase;
          if pi_event_created snapshot <? i64_field purchase "payment_intent_event_created"
          then Done (Ok (Some purchase))
          else write_intent snapshot purchase
      end
  end.

(** ** Subscriptions sold through an order *)
Record SubscriptionEvent := {
  se_subscription_id : string;
  se_account_id : string;
  se_livemode : bool;
  se_status : SubscriptionStatus;
  se_current_period_end : option string;
  se_cancel_at_period_end : option bool;
  se_canceled_at : option string;
  se_expected_current_status : option SubscriptionStatus;
  se_event_created : Z;
}.

Definition subscription_data (event : SubscriptionEvent) (now : string) : columns := columns_of (
    [("subscription_status", VString (wire (se_status event)));
     ("subscription_last_synced_at", VString now);
     ("updated_at", VString now);
     ("subscription_event_created", json_i64 (se_event_created event))] ++
    when_some (se_cancel_at_period_end event) "subscription_cancel_at_period_end" VBool ++
    when_some (se_current_period_end event) "subscription_current_period_end" VString ++
    when_some (se_canceled_at event) "subscription_canceled_at" VString).

(** [for _ in 0..3]: [attempts] counts down. *)
Fixpoint sync_subscription_loop (attempts : nat) (event : SubscriptionEvent) (purchase_id : string)
    (purchase : Row) : prog (WResult (option Row)) :=
  match attempts with
  | O => Done (Err (wafer_error FailedPrecondition
           "commerce subscription state changed concurrently; retry the event"))
  | S attempts =>
      let current_created := i64_field purchase "subscription_event_created" in
      current_status ←! enum_column (T:=SubscriptionStatus) purchase "subscription_status";
      if negb (subscription_transition_allowed current_status current_created
                 (se_status event) (se_event_created event))
      then Done (Ok (Some purchase))
      else if match se_expected_current_status event with
              | Some expected => negb (bool_decide (current_status = expected))
              | None => false
              end
      then Done (Ok (Some purchase))
      else
        now ← now_rfc3339;
        affected ←? do_call (UpdateByFiltersCount PURCHASES_TABLE
          [eq_filter "id" (VString purchase_id);
           eq_filter "subscription_event_created" (json_i64 current_created);
           eq_filter "subscription_status" (VString (wire current_status))]
          (subscription_data event now));
        if affected =? 1 then
          purchase ←? get purchase_id;
          Done (Ok (Some purchase))
        else
          purchase ←? get purchase_id;
          sync_subscription_loop attempts event purchase_id purchase
  end.

Definition sync_commerce_subscription (event : SubscriptionEvent) : prog (WResult (option Row)) :=
  _ ←! err_if (is_empty (se_subscription_id event) || bool_decide (se_status event = Unset) ||
               (se_event_created event <? 0))
         (wafer_error InvalidArgument
            "subscription id, status, and a valid event timestamp are required");
  purchase ←? (r ← do_call (GetByField PURCHASES_TABLE "stripe_subscription_id"
                              (VString (se_subscription_id event)));
               Done (found r));
  match purchase with
  | None => Done (Ok None)
  | Some purchase =>
      _ ←! err_if (negb (String.eqb (str_field purchase "stripe_account_id") (se_account_id event)))
             (wafer_error FailedPrecondition
                "subscription event Stripe account does not match the commerce order");
      _ ←! err_if (negb (Bool.eqb (bool_field purchase "livemode") (se_livemode event)))
             (wafer_error FailedPrecondition
                "subscription event mode does not match the commerce order");
      sync_subscription_loop 3 event (row_id purchase) purchase
  end.

(** ** Refunds *)
Definition refund_data (target_refunded_total total : Z) (refunded_by note now : string) : columns :=
  columns_of (
    [("status", VString (wire (if target_refunded_total =? total then Refunded else PartiallyRefunded)));
     ("refunded_total_cents", json_i64 target_refunded_total);
     ("refunded_at", VString now);
     ("updated_at", VString now)] ++
    unless (is_empty refunded_by) [("refunded_by", VString refunded_by)] ++
    unless (is_empty note) [("refund_reason", VString note)]).

Definition reconcile_refund_total (id : string) (target_refunded_total : Z) (refunded_by note : string)
  : prog (WResult Row) :=
  purchase ←? get id;
  let total := i64_field purchase "total_cents" in
  let current := i64_field purchase "refunded_total_cents" in
  _ ←! err_if ((total <=? 0) || (target_refunded_total <=? 0) || (total <? target_refunded_total))
         (wafer_error InvalidArgument
            "refunded total must be positive and no greater than the order total");
  if target_refunded_total <=? current then Done (Ok purchase)
  else
    status ←! enum_column (T:=OrderStatus) purchase "status";
    _ ←! err_if (negb (is_refundable status))
           (wafer_error FailedPrecondition "purchase is not in a refundable state");
    now ← now_rfc3339;
    affected ←? do_call (UpdateByFiltersCount PURCHASES_TABLE
      [eq_filter "id" (VString id); eq_filter "refunded_total_cents" (json_i64 current);
       status_in [Completed; PartiallyRefunded]]
      (refund_data target_refunded_total total refunded_by note now));
    reconciled ←? get id;
    if (affected =? 1) || (target_refunded_total <=? i64_field reconciled "refunded_total_cents")
    then Done (Ok reconciled)
    else Done (Err (wafer_error FailedPrecondition "purchase refund state changed concurrently")).

(** [stripe.rs], after the provider session exists: its id is stored. *)
Definition store_session (order_id session_id : string) : prog (WResult Row) :=
  now ← now_rfc3339;
  update order_id (columns_of
    [("provider_session_id", VString session_id);
     ("reconciliation_status", VString (wire AwaitingPayment));
     ("updated_at", VString now)]).
End Orders.
