(* ===== verification/OrderSafety.v ===== *)
(** * Orders under concurrency

    The abstract order machine, and the proof that the writers of [Orders.v]
    implement it however their database calls interleave and fail. *)
From Stdlib Require Import String.
From S2P Require Import Prelude Ints Str Contracts Money SampleLib Records Lifecycle Effects Columns Orders TableMachine MemoryDb.

(** ** The abstract machine *)
Record Order := mkOrder {
  o_status : OrderStatus;
  o_total : Z;
  o_refunded : Z;
  o_intent_created : Z;
  o_sub_status : SubscriptionStatus;
  o_sub_created : Z;
}.

Inductive order_step : Order -> Order -> Prop :=
| StepClaim total refunded intent ss sc :
    order_step (mkOrder Pending total refunded intent ss sc)
      (mkOrder CheckoutStarted total refunded intent ss sc)
| StepComplete st total refunded intent ss sc total' ss' :
    awaits_completion st = true ->
    order_step (mkOrder st total refunded intent ss sc)
      (mkOrder Completed total' refunded intent ss' sc)
| StepFail st total refunded intent ss sc :
    awaits_completion st = true ->
    order_step (mkOrder st total refunded intent ss sc) (mkOrder Failed total refunded intent ss sc)
| StepIntent st total refunded intent ss sc intent' :
    intent <= intent' ->
    order_step (mkOrder st total refunded intent ss sc) (mkOrder st total refunded intent' ss sc)
| StepSubscription st total refunded intent ss sc ss' sc' :
    subscription_transition_allowed ss sc ss' sc' = true ->
    order_step (mkOrder st total refunded intent ss sc) (mkOrder st total refunded intent ss' sc')
| StepRefund st total refunded intent ss sc target :
    is_refundable st = true -> refunded < target <= total -> 0 < target ->
    order_step (mkOrder st total refunded intent ss sc)
      (mkOrder (if target =? total then Refunded else PartiallyRefunded) total target intent ss sc).

(** What every order satisfies: the refunded total fits the status. *)
Definition order_inv (o : Order) : Prop :=
  match o_status o with
  | PartiallyRefunded => 0 < o_refunded o < o_total o
  | Refunded => 0 < o_refunded o /\ o_refunded o = o_total o
  | _ => o_refunded o = 0
  end.

(** What no later state takes back: payment, the amount paid, refunds, failure,
    the order of payment-intent events and, once paid, of subscription
    events. *)
Definition order_after (o o' : Order) : Prop :=
  (is_paid (o_status o) = true ->
     is_paid (o_status o') = true /\ o_total o' = o_total o /\ o_refunded o <= o_refunded o' /\
     at_most (o_sub_status o, o_sub_created o) (o_sub_status o', o_sub_created o') = true /\
     (is_terminal (o_sub_status o) = true -> is_terminal (o_sub_status o') = true)) /\
  (o_status o = Failed -> o_status o' = Failed) /\
  (o_status o = Refunded -> o_status o' = Refunded) /\
  (o_status o = CheckoutStarted -> o_status o' <> Pending) /\
  o_intent_created o <= o_intent_created o'.

Lemma order_step_inv o o' : order_step o o' -> order_inv o -> order_inv o'.
Proof.
  destruct 1 as [| | | | |st total refunded intent ss sc target Hr Ht H0]; unfold order_inv; simpl;
    try done; [by destruct st|by destruct st|].
  destruct (Z.eqb_spec target total); destruct st; simpl in *; lia || done.
Qed.

Lemma order_steps_inv o o' : rtc order_step o o' -> order_inv o -> order_inv o'.
Proof. induction 1; eauto using order_step_inv. Qed.

Lemma at_most_refl e : at_most e e = true.
Proof. apply at_most_spec. lia. Qed.

Lemma order_after_refl o : order_after o o.
Proof. unfold order_after. rewrite at_most_refl. repeat split; try lia; congruence. Qed.

Lemma order_after_trans a b c : order_after a b -> order_after b c -> order_after a c.
Proof.
  unfold order_after. intros (P1 & F1 & R1 & C1 & I1) (P2 & F2 & R2 & C2 & I2).
  split; [|split; [auto|split; [auto|split; [|lia]]]].
  - intros Hp. destruct (P1 Hp) as (Hp1 & T1 & L1 & A1 & Te1). destruct (P2 Hp1) as (Hp2 & T2 & L2 & A2 & Te2).
    rewrite at_most_spec in *. simpl in *. repeat split; auto; try congruence; lia.
  - intros Hs Hc. destruct (o_status b) eqn:Hb; try (by apply (C2 eq_refl)); try (by apply (C1 Hs)).
    + destruct (P2 eq_refl) as [Hp _]. by rewrite Hc in Hp.
    + destruct (P2 eq_refl) as [Hp _]. by rewrite Hc in Hp.
    + destruct (P2 eq_refl) as [Hp _]. by rewrite Hc in Hp.
    + specialize (F2 eq_refl). congruence.
Qed.

Lemma order_step_after o o' : order_step o o' -> order_inv o -> order_after o o'.
Proof.
  destruct 1 as [| | | |st total refunded intent ss sc ss' sc' Ha|st total refunded intent ss sc target Hr Ht H0];
    unfold order_inv, order_after; simpl; intros Hi; rewrite ?at_most_refl.
  - done.
  - destruct st; try discriminate; repeat split; done || lia.
  - destruct st; try discriminate; repeat split; done || lia.
  - repeat split; auto; lia || congruence.
  - apply (transition_allowed_spec (ss, sc) (ss', sc')) in Ha as [Ha Htm].
    repeat split; auto; lia || congruence.
  - destruct st; try discriminate; destruct (Z.eqb_spec target total); simpl in *; repeat split; auto; lia || congruence.
Qed.

Lemma order_steps_after o o' : rtc order_step o o' -> order_inv o -> order_after o o'.
Proof.
  induction 1 as [o|o o1 o' Hs _ IH]; intros Hi; [apply order_after_refl|].
  eapply order_after_trans; [by apply order_step_after|]. apply IH. by eapply order_step_inv.
Qed.

(** ** The stored order *)
Section View.
Context {JN : JsonNumbers} {JS : JsonScalars JN} {NL : JsonNumberLaws JN}.

(** The order a row stores, when its columns hold what the schema says. *)
Definition view (cols : columns) : option Order :=
  st ← enum_col cols "status";
  total ← int_col cols "total_cents";
  refunded ← int_col cols "refunded_total_cents";
  intent ← int_col cols "payment_intent_event_created";
  ss ← enum_col cols "subscription_status";
  sc ← int_col cols "subscription_event_created";
  Some (mkOrder st total refunded intent ss sc).

Lemma view_some cols o :
  view cols = Some o <->
  enum_col cols "status" = Some (o_status o) /\ int_col cols "total_cents" = Some (o_total o) /\
  int_col cols "refunded_total_cents" = Some (o_refunded o) /\
  int_col cols "payment_intent_event_created" = Some (o_intent_created o) /\
  enum_col cols "subscription_status" = Some (o_sub_status o) /\
  int_col cols "subscription_event_created" = Some (o_sub_created o).
Proof.
  unfold view. destruct o as [st total refunded intent ss sc]; simpl. split.
  - intros H. repeat (apply bind_Some in H as (? & ? & H)). by simplify_eq.
  - intros (-> & -> & -> & -> & -> & ->). done.
Qed.

(** The purchases table implements the machine. *)
#[export] Instance order_machine : Machine Order := {|
  m_table := PURCHASES_TABLE;
  m_view := view;
  m_inv := order_inv;
  m_step := order_step;
  m_step_inv := order_step_inv;
|}.
End View.

(** Every stored order is well formed. *)
Abbreviation orders_wf := (table_wf (M:=order_machine)).

(** ** The handlers keep it *)

(** The order a row stores after an update. *)
Ltac view_after :=
  apply view_some; rewrite ?int_col_overlay, ?enum_col_overlay; data_lookup;
  cbn [o_status o_total o_refunded o_intent_created o_sub_status o_sub_created];
  repeat match goal with |- _ /\ _ => split end.

Section Handlers.
Context {JN : JsonNumbers} {JS : JsonScalars JN} {NL : JsonNumberLaws JN} {DF : DebugFmt}.
Context {B : Backend} {BL : BackendLaws B}.
Abbreviation G := (evolve (M:=order_machine)).
Abbreviation P := PURCHASES_TABLE.

(** What was read of an order still bounds it later. *)
Lemma order_read s s' id cols o :
  orders_wf s -> G s s' -> rows s P !! id = Some cols -> view cols = Some o ->
  exists cols' o', rows s' P !! id = Some cols' /\ view cols' = Some o' /\
    order_inv o /\ order_inv o' /\ order_after o o'.
Proof.
  intros Hwf HG Hr Hv. destruct (evolve_read _ _ _ _ _ Hwf HG Hr Hv) as (c' & o' & Hr' & Hv' & Hi & Hi' & Hs).
  exists c', o'. do 4 (split; [done|]). by apply order_steps_after.
Qed.


(** *** Filters *)
Lemma holds_status_in l id cols (st : OrderStatus) :
  enum_col cols "status" = Some st -> holds (status_in l) id cols = bool_decide (st ∈ l).
Proof.
  intros Hst%enum_col_text. unfold status_in. rewrite (holds_in _ _ _ (wire st)) by done.
  apply Bool.eq_iff_eq_true. rewrite bool_decide_eq_true, existsb_exists. split.
  - intros (w & Hw & He). apply in_map_iff in Hw as (t & <- & Ht).
    apply String.eqb_eq, wire_inj in He as ->. by apply list_elem_of_In.
  - intros Ht. exists (wire st). split; [by apply in_map, list_elem_of_In|apply String.eqb_refl].
Qed.

(** *** Claim, complete, fail *)
Lemma claim_harmless id : harmless (claim_for_checkout id).
Proof.
  apply harmless_now. intros now. apply (harmless_update_only (M:=order_machine)). intros i cols o Hv _ Hm.
  apply view_some in Hv as (Hst & Ht & Hr & Hp & Hss & Hsc).
  rewrite !matches_cons, (holds_enum "status" i cols (o_status o) Pending) in Hm by done.
  rewrite !andb_true_iff in Hm.
  destruct Hm as (_ & Hm & _). apply bool_decide_eq_true in Hm.
  destruct o as [st total refunded intent ss sc]; simpl in *; subst.
  eexists. split; [|apply StepClaim]. view_after; done.
Qed.

Lemma awaiting id cols o f fs :
  view cols = Some o -> matches (f :: status_in [CheckoutStarted; Pending] :: fs) id cols = true ->
  awaits_completion (o_status o) = true.
Proof.
  intros (Hst & _)%view_some. rewrite !matches_cons, (holds_status_in _ _ _ _ Hst).
  intros [_ [Hm%bool_decide_eq_true _]%andb_true_iff]%andb_true_iff. rewrite !elem_of_cons in Hm.
  destruct Hm as [->|[->|Hm]]; [done..|]. by apply not_elem_of_nil in Hm.
Qed.

Lemma complete_checkout_harmless id pi cus sub livemode :
  harmless (complete_checkout_atomic id pi cus sub livemode).
Proof.
  apply harmless_now. intros now. apply (harmless_update_only (M:=order_machine)). intros i cols o Hv _ Hm.
  apply (awaiting _ _ o) in Hm; [|done].
  apply view_some in Hv as (Hst & Ht & Hr & Hp & Hss & Hsc).
  destruct o as [st total refunded intent ss sc]; simpl in *.
  exists (mkOrder Completed total refunded intent (if is_empty sub then ss else Active) sc).
  split; [|by apply StepComplete].
  view_after; by destruct (is_empty pi), (is_empty sub).
Qed.

Lemma check_completion_total id purchase completion :
  check_completion id purchase completion = Ok tt -> in_i64 (cs_total_minor completion) = true.
Proof.
  unfold check_completion. cbv zeta. intros H.
  apply bind_ok in H as (u1 & _ & H). apply bind_ok in H as (u2 & _ & H).
  apply bind_ok in H as (u3 & _ & H). apply bind_ok in H as (u4 & _ & H).
  apply bind_ok in H as (metadata & _ & H). apply bind_ok in H as (u5 & _ & H).
  apply bind_ok in H as (total & Htotal%ok_or_ok & H).
  apply bind_ok in H as (u6 & Heq%err_if_ok & _).
  apply negb_false_iff, Z.eqb_eq in Heq as ->. unfold expected_total in Htotal.
  apply bind_Some in Htotal as (v & _ & Htotal). apply bind_Some in Htotal as (v' & _ & Htotal).
  by apply checked_some in Htotal as [-> ?].
Qed.

Lemma reconcile_session_harmless id completion : harmless (reconcile_checkout_session id completion).
Proof.
  intros s Hwf. apply (harmless_get (M:=order_machine)); [|done]. clear s Hwf. intros s cols o Hwf _ _ _. revert s Hwf.
  apply harmless_try_done. intros [] Hc. apply check_completion_total in Hc.
  apply harmless_now. intros now. apply (harmless_update_only (M:=order_machine)). intros i cols' o' Hv _ Hm.
  apply (awaiting _ _ o') in Hm; [|done].
  apply view_some in Hv as (Hst & Ht & Hr & Hp & Hss & Hsc).
  destruct o' as [st total refunded intent ss sc].
  cbn [o_status o_total o_refunded o_intent_created o_sub_status o_sub_created] in *.
  exists (mkOrder Completed (cs_total_minor completion) refunded intent
            (if is_empty (cs_subscription_id completion) then ss else Active) sc).
  split; [|by apply StepComplete]. unfold completion_data. view_after.
  all: destruct (is_empty (cs_payment_intent_id completion)), (is_empty (cs_subscription_id completion)),
    (is_empty (str_field (row_of id cols) "provider_session_id")); try done; by apply number_i64_roundtrip.
Qed.

Lemma reconcile_failure_harmless id completion message :
  harmless (reconcile_checkout_failure id completion message).
Proof.
  intros s Hwf. apply (harmless_get (M:=order_machine)); [|done]. clear s Hwf. intros s cols o Hwf _ _ _. revert s Hwf.
  apply harmless_try_done. intros [] _. apply harmless_now. intros now.
  apply (harmless_update_only (M:=order_machine)). intros i cols' o' Hv _ Hm.
  apply (awaiting _ _ o') in Hm; [|done].
  apply view_some in Hv as (Hst & Ht & Hr & Hp & Hss & Hsc).
  destruct o' as [st total refunded intent ss sc]; simpl in *.
  exists (mkOrder Failed total refunded intent ss sc). split; [view_after; done|by apply StepFail].
Qed.

(** *** Payment intents *)
Lemma write_intent_harmless snapshot purchase :
  in_i64 (pi_event_created snapshot) = true -> harmless (write_intent snapshot purchase).
Proof.
  intros Hrange. apply harmless_try_done. intros st _.
  cbv zeta. match goal with |- harmless (if ?b then _ else _) => destruct b; [apply harmless_done|] end.
  apply harmless_try_done. intros [] _. apply harmless_try_done. intros [] _.
  apply harmless_now. intros now. apply harmless_try_done. intros reconciliation Hrec.
  apply (harmless_update (M:=order_machine)).
  - intros i cols o Hv _ Hm. rewrite !matches_cons, !andb_true_iff in Hm. destruct Hm as (_ & _ & _ & Hm & _).
    apply view_some in Hv as (Hst & Ht & Hr & Hp & Hss & Hsc).
    rewrite (holds_int_le _ _ _ (o_intent_created o)) in Hm by done. apply Z.leb_le in Hm.
    destruct o as [st' total refunded intent ss sc]; simpl in *.
    exists (mkOrder st' total refunded (pi_event_created snapshot) ss sc). split; [|by apply StepIntent].
    assert (reconciliation = [] \/ exists r e, reconciliation =
      [("reconciliation_status", r); ("reconciliation_error", e)]) as [->|(r & e & ->)].
    { destruct (is_paid st); [injection Hrec as <-; by left|].
      apply bind_ok in Hrec as (rs & _ & [= <-]). right. by do 2 eexists. }
    all: unfold intent_data; view_after; try done; by apply number_i64_roundtrip.
  - intros [n|e|]; [|apply harmless_done..].
    apply harmless_try; [apply (get_harmless (M:=order_machine))|]. intros row. apply harmless_done.
Qed.

Lemma sync_intent_harmless snapshot :
  in_i64 (pi_event_created snapshot) = true -> harmless (sync_payment_intent snapshot).
Proof.
  intros Hrange. apply harmless_try_done. intros currency _.
  apply harmless_try.
  { apply harmless_bind_read; [|intros r; apply harmless_done].
    destruct (is_empty (pi_purchase_id snapshot)); [apply (get_by_field_harmless (M:=order_machine))|apply (get_harmless (M:=order_machine))]. }
  intros [purchase|]; [|apply harmless_done].
  destruct (checkout_metadata purchase) as [metadata|]; [|apply harmless_done].
  apply harmless_try_done. intros [] _.
  destruct (pi_event_created snapshot <? i64_field purchase "payment_intent_event_created"); [apply harmless_done|].
  by apply write_intent_harmless.
Qed.

(** *** Subscriptions *)
Lemma subscription_loop_harmless attempts event id purchase :
  in_i64 (se_event_created event) = true ->
  harmless (sync_subscription_loop attempts event id purchase).
Proof.
  intros Hrange. revert purchase. induction attempts as [|attempts IH]; intros purchase; [apply harmless_done|].
  apply harmless_try_done. intros current Hcur.
  destruct (subscription_transition_allowed current (i64_field purchase "subscription_event_created")
              (se_status event) (se_event_created event)) eqn:Hallowed; [|apply harmless_done]. cbn [negb].
  match goal with |- harmless (if ?b then _ else _) => destruct b; [apply harmless_done|] end.
  apply harmless_now. intros now. apply (harmless_update (M:=order_machine)).
  - intros i cols o Hv _ Hm. rewrite !matches_cons, !andb_true_iff in Hm. destruct Hm as (_ & Hc & Hs & _).
    apply view_some in Hv as (Hst & Ht & Hr & Hp & Hss & Hsc).
    rewrite (holds_enum _ _ _ (o_sub_status o)) in Hs by done. apply bool_decide_eq_true in Hs.
    rewrite (holds_int_eq _ _ _ (o_sub_created o)) in Hc by (done || apply i64_field_range).
    apply Z.eqb_eq in Hc.
    destruct o as [st total refunded intent ss sc]; simpl in *. subst ss. rewrite <- Hc in Hallowed.
    exists (mkOrder st total refunded intent (se_status event) (se_event_created event)).
    split; [|by apply StepSubscription]. unfold subscription_data.
    view_after; try done; [by destruct (se_status event)|by apply number_i64_roundtrip].
  - intros [n|e|]; [|apply harmless_done..].
    destruct (n =? 1); (apply harmless_try; [apply (get_harmless (M:=order_machine))|]); intros row; [apply harmless_done|apply IH].
Qed.

Lemma sync_subscription_harmless event :
  in_i64 (se_event_created event) = true -> harmless (sync_commerce_subscription event).
Proof.
  intros Hrange. apply harmless_try_done. intros [] _. apply harmless_try.
  { apply harmless_bind_read; [apply (get_by_field_harmless (M:=order_machine))|intros r; apply harmless_done]. }
  intros [purchase|]; [|apply harmless_done].
  apply harmless_try_done. intros [] _. apply harmless_try_done. intros [] _.
  by apply subscription_loop_harmless.
Qed.

(** *** Refunds *)

(** The stored refunded total of an order has reached a target. *)
Definition refunded_at_least (id : string) (target : Z) (s : state) : Prop :=
  exists cols o, rows s P !! id = Some cols /\ view cols = Some o /\ target <= o_refunded o.

Lemma order_refunded_mono o o' :
  order_inv o -> order_inv o' -> order_after o o' -> o_refunded o <= o_refunded o'.
Proof.
  unfold order_inv. intros Hi Hi' (Hp & _). destruct (o_status o) eqn:Hs; simpl in *;
    try (destruct (Hp eq_refl) as (_ & _ & ? & _); lia); destruct (o_status o'); lia.
Qed.

Lemma refunded_at_least_stable id target s s' :
  orders_wf s -> G s s' -> refunded_at_least id target s -> refunded_at_least id target s'.
Proof.
  intros Hwf HG (cols & o & Hr & Hv & Ht).
  destruct (order_read _ _ _ _ _ Hwf HG Hr Hv) as (cols' & o' & Hr' & Hv' & Hi & Hi' & Ha).
  exists cols', o'. split; [done|]. split; [done|]. pose proof (order_refunded_mono _ _ Hi Hi' Ha). lia.
Qed.

(** The filters of the refund write single out the order as it was read. *)
Lemma refund_filters id i cols o current :
  view cols = Some o -> in_i64 current = true ->
  matches [eq_filter "id" (VString id); eq_filter "refunded_total_cents" (json_i64 current);
           status_in [Completed; PartiallyRefunded]] i cols = true ->
  i = id /\ o_refunded o = current /\ is_refundable (o_status o) = true.
Proof.
  intros (Hst & _ & Hr & _)%view_some Hc. rewrite !matches_cons, !andb_true_iff. intros (Hid & Hcur & Hs & _).
  unfold eq_filter in Hid. rewrite holds_id in Hid. apply String.eqb_eq in Hid.
  rewrite (holds_int_eq _ _ _ (o_refunded o)) in Hcur by done. apply Z.eqb_eq in Hcur.
  rewrite (holds_status_in _ _ _ _ Hst) in Hs. apply bool_decide_eq_true in Hs. rewrite !elem_of_cons in Hs.
  repeat split; try done. destruct Hs as [->|[->|Hs]]; [done..|]. by apply not_elem_of_nil in Hs.
Qed.

(** A row after the refund write. *)
Lemma refund_view cols o target refunded_by note now :
  view cols = Some o -> in_i64 target = true ->
  view (overlay (refund_data target (o_total o) refunded_by note now) cols) =
  Some (mkOrder (if target =? o_total o then Refunded else PartiallyRefunded) (o_total o) target
          (o_intent_created o) (o_sub_status o) (o_sub_created o)).
Proof.
  intros (Hst & Ht & Hr & Hp & Hss & Hsc)%view_some Hrange. unfold refund_data. view_after.
  all: destruct (is_empty refunded_by), (is_empty note); try done; try (by apply number_i64_roundtrip).
  all: by destruct (target =? o_total o).
Qed.

(** The read after the refund write. *)
Lemma refund_answer id target n s :
  orders_wf s -> (n = 1 -> refunded_at_least id target s) ->
  safe G (fun r s' => match r with Ok _ => refunded_at_least id target s' | _ => True end)
    (reconciled ←? get id;
     if (n =? 1) || (target <=? i64_field reconciled "refunded_total_cents")
     then Done (Ok reconciled)
     else Done (Err (wafer_error FailedPrecondition "purchase refund state changed concurrently"))) s.
Proof.
  intros Hwf Hn. apply (safe_get (M:=order_machine)); [done| |by intros e s' _ _ s'' _].
  intros s1 cols o H1 Hwf1 Hr Hv Hi. pose proof Hv as (_ & _ & Hrf & _)%view_some.
  rewrite (i64_field_int _ _ _ _ Hrf).
  destruct (Z.eqb_spec n 1) as [Hone|_]; simpl; [|destruct (Z.leb_spec target (o_refunded o)); [|by intros s' _]].
  - intros s2 H2. apply (refunded_at_least_stable id target s); [done|by etrans|auto].
  - intros s2 H2. apply (refunded_at_least_stable id target s1); [done..|]. by exists cols, o.
Qed.

(** The guarded write of a refund, at any later state: if a row satisfies the
    filters it is the order that was read, and the write refunds it. *)
Lemma refund_write id target refunded_by note now s cols o s' i c' o' :
  orders_wf s -> rows s P !! id = Some cols -> view cols = Some o ->
  is_refundable (o_status o) = true -> 0 < target -> o_refunded o < target <= o_total o ->
  G s s' -> rows s' P !! i = Some c' -> view c' = Some o' ->
  matches [eq_filter "id" (VString id); eq_filter "refunded_total_cents" (json_i64 (o_refunded o));
           status_in [Completed; PartiallyRefunded]] i c' = true ->
  i = id /\ exists o2, view (overlay (refund_data target (o_total o) refunded_by note now) c') = Some o2 /\
    order_step o' o2 /\ o_refunded o2 = target.
Proof.
  intros Hwf Hr Hv Hrefundable H0 Hle HG Hr' Hv' Hm. pose proof Hv as (_ & Ht & Hrf & _)%view_some.
  apply (refund_filters id i c' o') in Hm as (-> & Hcur & Hs); [|done|by eapply int_col_range].
  destruct (order_read _ _ _ _ _ Hwf HG Hr Hv) as (c2 & o1 & Hr2 & Hv2 & _ & _ & Ha & _).
  assert (o1 = o') as -> by congruence.
  destruct Ha as (_ & Htot & _); [by destruct (o_status o)|]. split; [done|].
  pose proof (int_col_range _ _ _ Ht) as Hrange.
  assert (in_i64 target = true) as Htr by (rewrite in_i64_spec in *; unfold i64_min in *; lia).
  eexists. rewrite <- Htot. split; [by apply refund_view|].
  destruct o' as [st' total' refunded' intent' ss' sc']; simpl in *. subst. split; [by apply StepRefund|done].
Qed.

Lemma refund_safe id target refunded_by note s :
  orders_wf s ->
  safe G (fun r s' => match r with Ok _ => refunded_at_least id target s' | _ => True end)
    (reconcile_refund_total id target refunded_by note) s.
Proof.
  intros Hwf. apply (safe_get (M:=order_machine)); [done| |by intros e s' _ _ s'' _].
  intros s0 cols o _ Hwf0 Hr Hv _. clear s Hwf. rename s0 into s, Hwf0 into Hwf. cbv zeta.
  pose proof Hv as (Hst & Ht & Hrf & _)%view_some.
  rewrite (i64_field_int _ _ _ _ Ht), (i64_field_int _ _ _ _ Hrf).
  destruct ((o_total o <=? 0) || (target <=? 0) || (o_total o <? target)) eqn:Hbad; [by intros s' _|].
  rewrite !orb_false_iff in Hbad. destruct Hbad as [[_ H0%Z.leb_gt] Hle%Z.ltb_ge]. simpl.
  destruct (Z.leb_spec target (o_refunded o)) as [Hdone|Hmore].
  { apply safe_done. intros s' Hs. eapply refunded_at_least_stable; [exact Hwf|exact Hs|]. by exists cols, o. }
  rewrite (enum_column_text (T:=OrderStatus) _ _ _ _ Hst). cbn [prog_try mbind prog_mbind prog_bind].
  destruct (is_refundable (o_status o)) eqn:Hrefundable; [|by intros s' _]. cbn [negb err_if].
  apply safe_now. intros now s1 H1. destruct (H1 Hwf) as [Hwf1 _].
  pose proof (fun s' i c' o' => refund_write id target refunded_by note now s cols o s' i c' o'
    Hwf Hr Hv Hrefundable H0 (conj Hmore Hle)) as Hwrite.
  apply (safe_update_count (M:=order_machine)); [done| | |by intros e s' _ _ s'' _].
  - intros s' i c' o' HG Hr' Hv' _ Hm.
    destruct (Hwrite s' i c' o') as (_ & o2 & Hv2 & Hs2 & _); [by etrans|done..|]. by exists o2.
  - intros s' HG. assert (G s s') as Hss' by by etrans. destruct (HG Hwf1) as [Hwf' _].
    apply refund_answer.
    { eapply (update_rows_evolve s'); [|done]. intros i c' o' _ Hr' Hv' _ Hm.
      destruct (Hwrite s' i c' o') as (_ & o2 & Hv2 & Hs2 & _); [done..|]. by exists o2. }
    intros (i & c' & Hr' & Hm)%count_one. destruct (Hwf' _ _ Hr') as (o' & Hv' & _).
    destruct (Hwrite s' i c' o') as (-> & o2 & Hv2 & _ & Ht2); [done..|].
    eexists _, o2. rewrite rows_set_rows. unfold update_rows. rewrite map_lookup_imap, Hr'.
    cbn [mbind option_bind]. rewrite Hm. repeat split; [done|lia].
Qed.

(** *** The provider session *)
Lemma store_session_harmless id session_id : harmless (store_session id session_id).
Proof.
  apply harmless_now. intros now s Hwf. apply (safe_update (M:=order_machine)); [done| |by intros r s' _ _ s'' _].
  intros cols o (Hst & Ht & Hrf & Hp & Hss & Hsc)%view_some _. exists o. split; [view_after; done|done].
Qed.

(** ** Any interleaving *)

(** The writers of the table that run beside each other once an order exists:
    the checkout request claiming it and storing its session, webhook
    deliveries and refunds, with any arguments of the machine types. *)
Inductive order_writer : prog unit -> Prop :=
| WClaim id : order_writer (spawn (fun _ => tt) (claim_for_checkout id))
| WStoreSession id session_id : order_writer (spawn (fun _ => tt) (store_session id session_id))
| WComplete id pi cus sub livemode :
    order_writer (spawn (fun _ => tt) (complete_checkout_atomic id pi cus sub livemode))
| WReconcile id completion : order_writer (spawn (fun _ => tt) (reconcile_checkout_session id completion))
| WFail id completion message :
    order_writer (spawn (fun _ => tt) (reconcile_checkout_failure id completion message))
| WIntent snapshot : in_i64 (pi_event_created snapshot) = true ->
    order_writer (spawn (fun _ => tt) (sync_payment_intent snapshot))
| WSubscription event : in_i64 (se_event_created event) = true ->
    order_writer (spawn (fun _ => tt) (sync_commerce_subscription event))
| WRefund id target refunded_by note :
    order_writer (spawn (fun _ => tt) (reconcile_refund_total id target refunded_by note)).

Lemma refund_harmless id target refunded_by note : harmless (reconcile_refund_total id target refunded_by note).
Proof. intros s Hwf. eapply safe_weaken; [apply _| |by apply refund_safe]. done. Qed.

Lemma order_writer_harmless p : order_writer p -> harmless p.
Proof.
  destruct 1; apply harmless_spawn;
    [by apply claim_harmless|by apply store_session_harmless|by apply complete_checkout_harmless
    |by apply reconcile_session_harmless|by apply reconcile_failure_harmless|by apply sync_intent_harmless
    |by apply sync_subscription_harmless|by apply refund_harmless].
Qed.

Lemma order_writers_evolve ps s cfg' :
  Forall order_writer ps -> orders_wf s -> rtc pool_step (ps, s) cfg' -> G s cfg'.2.
Proof.
  intros Hps. apply pool_evolves. eapply Forall_impl; [exact Hps|]. apply order_writer_harmless.
Qed.

(** C11. The order writers refine the order machine: whatever writers run, however
    their database calls interleave and fail, every stored order moves only
    along steps of the machine. *)
Theorem order_writers_refine ps s ps' s' id cols o
  (Hps : Forall order_writer ps) (Hwf : orders_wf s) (Hsteps : rtc pool_step (ps, s) (ps', s'))
  (Hrow : rows s P !! id = Some cols) (Hview : view cols = Some o) :
  exists cols' o', rows s' P !! id = Some cols' /\ view cols' = Some o' /\ rtc order_step o o'.
Proof. exact (proj2 (order_writers_evolve _ _ _ Hps Hwf Hsteps Hwf) _ _ _ Hrow Hview). Qed.

(** C14. Nothing a customer or seller relies on is taken back: in any interleaving
    of the writers a paid order stays paid with the amount it was paid, its
    refunded total only grows and never passes the amount, a failed or fully
    refunded order stays so, and older payment-intent and subscription events
    never overwrite newer ones. *)
Theorem order_history_safe ps s ps' s' id cols o
  (Hps : Forall order_writer ps) (Hwf : orders_wf s) (Hsteps : rtc pool_step (ps, s) (ps', s'))
  (Hrow : rows s P !! id = Some cols) (Hview : view cols = Some o) :
  exists cols' o', rows s' P !! id = Some cols' /\ view cols' = Some o' /\
    order_after o o' /\ order_inv o'.
Proof.
  pose proof (order_writers_evolve _ _ _ Hps Hwf Hsteps) as HG.
  destruct (order_read _ _ _ _ _ Hwf HG Hrow Hview) as (cols' & o' & Hr' & Hv' & _ & Hi' & Ha).
  by exists cols', o'.
Qed.

(** C25. A refund that answers success is durable: when [reconcile_refund_total]
    returns a record, in any interleaving with the other writers and with
    other refunds, the order's stored refunded total has reached the target,
    at that moment and ever after. *)
Theorem refund_durable ps s ps' s' id target refunded_by note row
  (Hps : Forall order_writer ps) (Hwf : orders_wf s)
  (Hsteps : rtc pool_step
     (spawn Some (reconcile_refund_total id target refunded_by note) :: map (spawn (fun _ => None)) ps, s)
     (Done (Some (Ok row)) :: ps', s')) :
  refunded_at_least id target s'.
Proof.
  set (Q0 := fun (r : option (WResult Row)) s' =>
    match r with Some (Ok _) => refunded_at_least id target s' | _ => True end).
  assert (Forall harmless (map (spawn (fun _ => @None (WResult Row))) ps)) as Hothers.
  { apply Forall_map. eapply Forall_impl; [exact Hps|]. intros p Hp. simpl.
    by apply harmless_spawn, order_writer_harmless. }
  destruct (pool_safe G (Q0 :: replicate (length ps) (fun _ _ => True)) _ _ Hsteps) as [_ Hall].
  - constructor; [apply safe_spawn; by apply refund_safe|].
    pose proof (harmless_all _ s Hothers Hwf) as H. by rewrite length_map in H.
  - apply Forall2_cons in Hall as [Hsafe _]. simpl in Hsafe. by apply Hsafe.
Qed.
End Handlers.

(** ** Witnesses *)
Definition sample_order : columns := columns_of
  [("status", VString (wire Completed)); ("total_cents", json_i64 100);
   ("refunded_total_cents", json_i64 0); ("payment_intent_event_created", json_i64 0);
   ("subscription_status", VString (wire Unset)); ("subscription_event_created", json_i64 0)].
Definition sample_orders : state := set_rows ∅ PURCHASES_TABLE {["o1" := sample_order]}.

(** Two refunds race: both read the untouched order, the smaller one writes
    first and the larger one's guarded write misses. *)
Definition sample_refunds : list (prog unit) :=
  [spawn (fun _ => tt) (reconcile_refund_total "o1" 40 "" "");
   spawn (fun _ => tt) (reconcile_refund_total "o1" 70 "" "")].
Definition sample_run := run_schedule [0; 1; 0; 1; 0; 1; 0; 1]%nat (sample_refunds, sample_orders).

Definition order_at (s : state) (id : string) : option Order := rows s PURCHASES_TABLE !! id ≫= view.

Lemma sample_row : rows sample_orders PURCHASES_TABLE !! "o1" = Some sample_order.
Proof. unfold sample_orders. by rewrite rows_set_rows, lookup_singleton_eq. Qed.

Lemma sample_view : view sample_order = Some (mkOrder Completed 100 0 0 Unset 0).
Proof. vm_compute. reflexivity. Qed.

Lemma sample_orders_wf : orders_wf sample_orders.
Proof.
  intros id cols. unfold sample_orders. rewrite rows_set_rows, lookup_singleton_Some. intros [_ <-].
  exists (mkOrder Completed 100 0 0 Unset 0). split; [apply sample_view|done].
Qed.

Lemma order_writers_refine_witness :
  order_at sample_orders "o1" = Some (mkOrder Completed 100 0 0 Unset 0) /\
  order_at sample_run.2 "o1" = Some (mkOrder PartiallyRefunded 100 40 0 Unset 0) /\
  exists cols' o', rows sample_run.2 PURCHASES_TABLE !! "o1" = Some cols' /\ view cols' = Some o' /\
    rtc order_step (mkOrder Completed 100 0 0 Unset 0) o'.
Proof.
  split; [vm_compute; reflexivity|]. split; [vm_compute; reflexivity|].
  apply (order_writers_refine sample_refunds sample_orders sample_run.1 sample_run.2 "o1" sample_order).
  - repeat constructor.
  - apply sample_orders_wf.
  - rewrite <- surjective_pairing. apply run_schedule_steps.
  - exact sample_row.
  - exact sample_view.
Defined.

Lemma order_history_safe_witness :
  exists cols' o', rows sample_run.2 PURCHASES_TABLE !! "o1" = Some cols' /\ view cols' = Some o' /\
    order_after (mkOrder Completed 100 0 0 Unset 0) o' /\ order_inv o'.
Proof.
  apply (order_history_safe sample_refunds sample_orders sample_run.1 sample_run.2 "o1" sample_order).
  - repeat constructor.
  - apply sample_orders_wf.
  - rewrite <- surjective_pairing. apply run_schedule_steps.
  - exact sample_row.
  - exact sample_view.
Defined.

(** The refund of 70 beside the refund of 40, and alone after it. *)
Definition sample_durable :=
  run_schedule [1; 1; 1; 1; 0; 0; 0; 0]%nat
    (spawn Some (reconcile_refund_total "o1" 70 "" "") ::
     map (spawn (fun _ => None)) [spawn (fun _ => tt) (reconcile_refund_total "o1" 40 "" "")], sample_orders).

Lemma finished_first (ps : list (prog (option (WResult Row)))) :
  match ps with Done (Some (Ok _)) :: _ => true | _ => false end = true ->
  exists row, ps = Done (Some (Ok row)) :: tail ps.
Proof. destruct ps as [|[[[row| |]|]|] ps]; try done. intros _. by exists row. Qed.

Lemma refund_durable_witness :
  order_at sample_durable.2 "o1" = Some (mkOrder PartiallyRefunded 100 70 0 Unset 0) /\
  refunded_at_least "o1" 70 sample_durable.2.
Proof.
  split; [vm_compute; reflexivity|].
  destruct (finished_first sample_durable.1 ltac:(vm_compute; reflexivity)) as [row Hrow].
  apply (refund_durable [spawn (fun _ => tt) (reconcile_refund_total "o1" 40 "" "")] sample_orders
    (tail sample_durable.1) sample_durable.2 "o1" 70 "" "" row).
  - repeat constructor.
  - apply sample_orders_wf.
  - rewrite <- Hrow, <- surjective_pairing. apply run_schedule_steps.
Defined.
