(* ===== verification/Subscriptions.v ===== *)
(** * Platform subscriptions ([blocks/products/repo/subscriptions.rs])

    The platform-billing projection, one row per user: its writes as programs,
    and what they keep however they interleave. *)
From Stdlib Require Import String.
From S2P Require Import Prelude Ints Str Contracts SampleLib Records Lifecycle Effects Columns TableMachine MemoryDb.

Definition SUBSCRIPTIONS_TABLE : string := "impresspress__products__subscriptions".

(** The metadata keys and the columns of the add-on totals. *)
Definition ADDON_TOTALS : list (string * string) :=
  [("extra_projects", "addon_projects"); ("extra_requests", "addon_requests");
   ("extra_r2_bytes", "addon_r2_bytes"); ("extra_d1_bytes", "addon_d1_bytes")].

Section Subscriptions.
Context {JN : JsonNumbers} {JS : JsonScalars JN} {DF : DebugFmt}.

Definition sub_filter (stripe_subscription_id : string) : Filter :=
  eq_filter "stripe_subscription_id" (VString stripe_subscription_id).

Definition platform_update_data (stripe_customer_id stripe_subscription_id plan : string)
    (event_created : Z) (now : string) : list (string * Value) :=
  [("stripe_customer_id", VString stripe_customer_id);
   ("stripe_subscription_id", VString stripe_subscription_id);
   ("plan", VString plan);
   ("status", VString (wire Active));
   ("grace_period_end", VNull);
   ("stripe_event_created", json_i64 event_created);
   ("updated_at", VString now)].

Definition update_platform_if_current (user_id stripe_customer_id stripe_subscription_id plan : string)
    (event_created : Z) : prog (WResult Z) :=
  now ← now_rfc3339;
  do_call (UpdateByFiltersCount SUBSCRIPTIONS_TABLE
    [eq_filter "user_id" (VString user_id);
     le_filter "stripe_event_created" (json_i64 event_created)]
    (columns_of (platform_update_data stripe_customer_id stripe_subscription_id plan event_created now))).

Definition upsert_platform (user_id stripe_customer_id stripe_subscription_id plan : string)
    (event_created : Z) : prog (WResult Z) :=
  let update_current :=
    update_platform_if_current user_id stripe_customer_id stripe_subscription_id plan event_created in
  existing ← do_call (GetByField SUBSCRIPTIONS_TABLE "user_id" (VString user_id));
  match existing with
  | Ok _ => update_current
  | Panic => Done Panic
  | Err error =>
      if negb (bool_decide (we_code error = NotFound)) then Done (Err error)
      else
        now ← now_rfc3339;
        let sub_id := String.append "sub_" user_id in
        created ← do_call (Create SUBSCRIPTIONS_TABLE (columns_of (
          [("id", VString sub_id); ("user_id", VString user_id); ("created_at", VString now)] ++
          platform_update_data stripe_customer_id stripe_subscription_id plan event_created now)));
        match created with
        | Ok _ => Done (Ok 1)
        | Panic => Done Panic
        | Err create_error =>
            again ← do_call (GetByField SUBSCRIPTIONS_TABLE "user_id" (VString user_id));
            match again with
            | Ok _ => update_current
            | Panic => Done Panic
            | Err error =>
                if bool_decide (we_code error = NotFound) then Done (Err create_error)
                else Done (Err error)
            end
        end
  end.

(** [rows.records.into_iter().next()] *)
Definition first_row (rows : WResult (list Row)) : WResult (option Row) := l ← rows; Ok (head l).

Definition get_by_stripe_sub (stripe_subscription_id : string) : prog (WResult (option Row)) :=
  rows ← do_call (ListRows SUBSCRIPTIONS_TABLE [sub_filter stripe_subscription_id] 1);
  Done (first_row rows).

Definition platform_subscription_exists (stripe_subscription_id : string) : prog (WResult bool) :=
  row ←? get_by_stripe_sub stripe_subscription_id;
  Done (Ok (match row with Some _ => true | None => false end)).

(** The compare-and-swap of the two retry loops: the subscription id and the
    exact timestamp and status that were read. *)
Definition cas_filters (stripe_subscription_id : string) (created : Z) (status : SubscriptionStatus)
  : list Filter :=
  [sub_filter stripe_subscription_id;
   eq_filter "stripe_event_created" (json_i64 created);
   eq_filter "status" (VString (wire status))].

(** The columns of [update_status_plan]; an event without a status leaves the
    column as it is. *)
Definition status_plan_data (status : SubscriptionStatus) (plan : option string) (event_created : Z)
    (now : string) : columns := columns_of (
    unless (bool_decide (status = Unset)) [("status", VString (wire status))] ++
    [("updated_at", VString now); ("stripe_event_created", json_i64 event_created)] ++
    when_some plan "plan" VString).

Definition concurrent_change : WaferError :=
  wafer_error FailedPrecondition
    "platform subscription state changed concurrently; retry the event".

(** The bodies of the two loops differ in the status they want and the columns
    they write. *)
Fixpoint cas_loop (attempts : nat) (stripe_subscription_id : string)
    (incoming : SubscriptionStatus -> SubscriptionStatus) (event_created : Z)
    (data : string -> columns) (current : Row) : prog (WResult Z) :=
  match attempts with
  | O => Done (Err concurrent_change)
  | S attempts =>
      let current_created := i64_field current "stripe_event_created" in
      current_status ←! enum_column (T:=SubscriptionStatus) current "status";
      if negb (subscription_transition_allowed current_status current_created
                 (incoming current_status) event_created)
      then Done (Ok 0)
      else
        now ← now_rfc3339;
        affected ←? do_call (UpdateByFiltersCount SUBSCRIPTIONS_TABLE
          (cas_filters stripe_subscription_id current_created current_status) (data now));
        if affected =? 1 then Done (Ok 1)
        else
          again ←? get_by_stripe_sub stripe_subscription_id;
          match again with
          | Some record =>
              cas_loop attempts stripe_subscription_id incoming event_created data record
          | None => Done (Ok 0)
          end
  end.

Definition update_status_plan (stripe_subscription_id : string) (status : SubscriptionStatus)
    (plan : option string) (event_created : Z) : prog (WResult Z) :=
  current ←? get_by_stripe_sub stripe_subscription_id;
  match current with
  | None => Done (Ok 0)
  | Some current =>
      cas_loop 3 stripe_subscription_id
        (fun current_status => if bool_decide (status = Unset) then current_status else status)
        event_created (status_plan_data status plan event_created) current
  end.

(** [now + chrono::Duration::days(7)] is a text the model takes from the clock. *)
Definition past_due_data (event_created : Z) (grace_end now : string) : columns := columns_of
  [("status", VString (wire PastDue));
   ("grace_period_end", VString grace_end);
   ("updated_at", VString now);
   ("stripe_event_created", json_i64 event_created)].

Definition mark_past_due (grace_end : string -> string) (stripe_subscription_id : string)
    (event_created : Z) : prog (WResult Z) :=
  current ←? get_by_stripe_sub stripe_subscription_id;
  match current with
  | None => Done (Ok 0)
  | Some current =>
      cas_loop 3 stripe_subscription_id (fun _ => PastDue) event_created
        (fun now => past_due_data event_created (grace_end now) now) current
  end.

Definition recover_from_paid_invoice (stripe_subscription_id : string) (event_created : Z)
  : prog (WResult Z) :=
  now ← now_rfc3339;
  do_call (UpdateByFiltersCount SUBSCRIPTIONS_TABLE
    [sub_filter stripe_subscription_id; eq_filter "status" (VString (wire PastDue));
     le_filter "stripe_event_created" (json_i64 event_created)]
    (columns_of
       [("status", VString (wire Active)); ("grace_period_end", VNull);
        ("stripe_event_created", json_i64 event_created); ("updated_at", VString now)])).

Definition cancel_and_reset_addons (stripe_subscription_id : string) (event_created : Z)
  : prog (WResult Z) :=
  now ← now_rfc3339;
  do_call (UpdateByFiltersCount SUBSCRIPTIONS_TABLE
    [sub_filter stripe_subscription_id; le_filter "stripe_event_created" (json_i64 event_created)]
    (columns_of (
       [("status", VString (wire Canceled))] ++
       map (fun total => (total.2, json_i64 0)) ADDON_TOTALS ++
       [("updated_at", VString now); ("stripe_event_created", json_i64 event_created)]))).

(** [totals] is the source's array of four. *)
Definition set_addon_totals (user_id : string) (totals : list Z) (event_created : Z)
  : prog (WResult Z) :=
  now ← now_rfc3339;
  do_call (UpdateByFiltersCount SUBSCRIPTIONS_TABLE
    ([eq_filter "user_id" (VString user_id);
      le_filter "stripe_event_created" (json_i64 event_created)] ++
     map (fun status => {| field := "status"; operator := OpNotEqual; value := VString (wire status) |})
       (List.filter is_terminal SubscriptionStatus_ALL))
    (columns_of (zip_with (fun total n => (total.2, json_i64 n)) ADDON_TOTALS totals ++
                 [("updated_at", VString now)]))).

Definition find_user_by_stripe_sub (stripe_subscription_id : string) : prog (WResult (option string)) :=
  rows ←? do_call (ListRows SUBSCRIPTIONS_TABLE [sub_filter stripe_subscription_id] 1);
  Done (Ok (record ← head rows; v ← row_data record !! "user_id"; as_str v)).

Definition active_plan_exists (user_id plan : string) : prog (WResult bool) :=
  rows ←? do_call (ListRows SUBSCRIPTIONS_TABLE
    [eq_filter "user_id" (VString user_id); eq_filter "status" (VString (wire Active));
     eq_filter "plan" (VString plan)] 1);
  Done (Ok (match rows with [] => false | _ => true end)).
End Subscriptions.

(** ** The abstract projection *)
Record PlatformSub := mkSub {
  p_sub : string;
  p_status : SubscriptionStatus;
  p_created : Z;
  p_projects : Z;
  p_requests : Z;
  p_r2_bytes : Z;
  p_d1_bytes : Z;
}.

Inductive sub_step : PlatformSub -> PlatformSub -> Prop :=
| SubStatus sub st c a1 a2 a3 a4 st' c' :
    subscription_transition_allowed st c st' c' = true ->
    sub_step (mkSub sub st c a1 a2 a3 a4) (mkSub sub st' c' a1 a2 a3 a4)
| SubRecover sub c a1 a2 a3 a4 c' :
    c <= c' -> sub_step (mkSub sub PastDue c a1 a2 a3 a4) (mkSub sub Active c' a1 a2 a3 a4)
| SubCancel sub st c a1 a2 a3 a4 c' :
    c <= c' -> sub_step (mkSub sub st c a1 a2 a3 a4) (mkSub sub Canceled c' 0 0 0 0)
| SubAddons sub st c a1 a2 a3 a4 b1 b2 b3 b4 :
    is_terminal st = false ->
    sub_step (mkSub sub st c a1 a2 a3 a4) (mkSub sub st c b1 b2 b3 b4).

Definition addons (p : PlatformSub) : list Z := [p_projects p; p_requests p; p_r2_bytes p; p_d1_bytes p].

(** The end of a subscription is final and its quotas can only be reset. *)
Definition sub_after (p p' : PlatformSub) : Prop :=
  p_sub p' = p_sub p /\ p_created p <= p_created p' /\
  (is_terminal (p_status p) = true ->
     is_terminal (p_status p') = true /\ (addons p' = addons p \/ addons p' = [0; 0; 0; 0])).

Lemma sub_steps_after p p' : rtc sub_step p p' -> sub_after p p'.
Proof.
  induction 1 as [p|p p1 p' Hstep _ (Hs & Hc & Ht)]; [split; [done|]; split; [lia|]; auto|].
  assert (sub_after p p1) as (Hs1 & Hc1 & Ht1).
  { unfold sub_after.
    destruct Hstep as [sub st c a1 a2 a3 a4 st' c' Ha| | |sub st c a1 a2 a3 a4 b1 b2 b3 b4 Hn]; simpl.
    - apply (transition_allowed_spec (st, c) (st', c')) in Ha as [Ha%at_most_spec Ha']. simpl in *.
      split; [done|]. split; [lia|]. auto.
    - split; [done|]. split; [lia|]. done.
    - split; [done|]. split; [done|]. unfold addons. simpl. auto.
    - split; [done|]. split; [lia|]. by rewrite Hn. }
  unfold sub_after. split; [congruence|]. split; [lia|]. intros Hterm.
  destruct (Ht1 Hterm) as [Hterm1 Ha1]. destruct (Ht Hterm1) as [Hterm' Ha']. split; [done|].
  destruct Ha' as [->|Ha']; auto.
Qed.

Section SubView.
Context {JN : JsonNumbers}.

Definition sub_view (cols : columns) : option PlatformSub :=
  sub ← text_col cols "stripe_subscription_id";
  st ← enum_col cols "status";
  c ← int_col cols "stripe_event_created";
  a1 ← int_col cols "addon_projects";
  a2 ← int_col cols "addon_requests";
  a3 ← int_col cols "addon_r2_bytes";
  a4 ← int_col cols "addon_d1_bytes";
  Some (mkSub sub st c a1 a2 a3 a4).

Lemma sub_view_some cols p :
  sub_view cols = Some p <->
  text_col cols "stripe_subscription_id" = Some (p_sub p) /\ enum_col cols "status" = Some (p_status p) /\
  int_col cols "stripe_event_created" = Some (p_created p) /\
  int_col cols "addon_projects" = Some (p_projects p) /\ int_col cols "addon_requests" = Some (p_requests p) /\
  int_col cols "addon_r2_bytes" = Some (p_r2_bytes p) /\ int_col cols "addon_d1_bytes" = Some (p_d1_bytes p).
Proof.
  unfold sub_view. destruct p as [sub st c a1 a2 a3 a4]; simpl. split.
  - intros H. repeat (apply bind_Some in H as (? & ? & H)). injection H as -> -> -> -> -> -> ->. by repeat split.
  - intros (-> & -> & -> & -> & -> & -> & ->). done.
Qed.

#[export] Instance sub_machine : Machine PlatformSub := {|
  m_table := SUBSCRIPTIONS_TABLE;
  m_view := sub_view;
  m_inv := fun _ => True;
  m_step := sub_step;
  m_step_inv := fun _ _ _ _ => I;
|}.
End SubView.

Ltac sub_view_after :=
  apply sub_view_some; rewrite ?int_col_overlay, ?enum_col_overlay, ?text_col_overlay; data_lookup;
  cbn [p_sub p_status p_created p_projects p_requests p_r2_bytes p_d1_bytes];
  repeat match goal with |- _ /\ _ => split end.

(** ** The writers keep it *)
Section SubHandlers.
Context {JN : JsonNumbers} {JS : JsonScalars JN} {NL : JsonNumberLaws JN} {DF : DebugFmt}.
Context {B : Backend} {BL : BackendLaws B}.

Lemma get_by_stripe_sub_harmless id : harmless (get_by_stripe_sub id).
Proof. apply harmless_bind_read; [apply (list_harmless (M:=sub_machine))|]. intros r. apply harmless_done. Qed.

(** What the loop needs of its columns: with the status it wants, they make a
    transition of the projection. *)
Definition transition_data (incoming : SubscriptionStatus -> SubscriptionStatus) (event_created : Z)
    (data : string -> columns) : Prop :=
  forall now cols p, sub_view cols = Some p ->
    sub_view (overlay (data now) cols) =
    Some (mkSub (p_sub p) (incoming (p_status p)) event_created
            (p_projects p) (p_requests p) (p_r2_bytes p) (p_d1_bytes p)).

Lemma cas_loop_harmless attempts id incoming event_created data current :
  in_i64 event_created = true -> transition_data incoming event_created data ->
  harmless (cas_loop attempts id incoming event_created data current).
Proof.
  intros Hrange Hdata. revert current. induction attempts as [|attempts IH]; intros current; [apply harmless_done|].
  apply harmless_try_done. intros st _.
  destruct (subscription_transition_allowed st (i64_field current "stripe_event_created")
              (incoming st) event_created) eqn:Hallowed; [|apply harmless_done]. cbn [negb].
  apply harmless_now. intros now. apply (harmless_update (M:=sub_machine)).
  - intros i cols p Hv _ Hm. unfold cas_filters in Hm. rewrite !matches_cons, !andb_true_iff in Hm.
    destruct Hm as (_ & Hc & Hs & _). pose proof Hv as (_ & Hst & Hcr & _)%sub_view_some.
    rewrite (holds_enum _ _ _ (p_status p)) in Hs by done. apply bool_decide_eq_true in Hs.
    rewrite (holds_int_eq _ _ _ (p_created p)) in Hc by (done || apply i64_field_range). apply Z.eqb_eq in Hc.
    eexists. split; [by apply Hdata|]. rewrite <- Hc, <- Hs in Hallowed.
    destruct p; simpl in *. by apply SubStatus.
  - intros [n|e|]; [|apply harmless_done..]. destruct (n =? 1); [apply harmless_done|].
    apply harmless_try; [apply get_by_stripe_sub_harmless|]. intros [record|]; [apply IH|apply harmless_done].
Qed.

Lemma update_status_plan_harmless id status plan event_created :
  in_i64 event_created = true -> harmless (update_status_plan id status plan event_created).
Proof.
  intros Hrange. apply harmless_try; [apply get_by_stripe_sub_harmless|].
  intros [current|]; [|apply harmless_done]. apply cas_loop_harmless; [done|].
  intros now cols p (Hsub & Hst & Hc & H1 & H2 & H3 & H4)%sub_view_some. unfold status_plan_data.
  sub_view_after; destruct (bool_decide (status = Unset)); try done; try by apply number_i64_roundtrip.
  by destruct status.
Qed.

Lemma mark_past_due_harmless grace_end id event_created :
  in_i64 event_created = true -> harmless (mark_past_due grace_end id event_created).
Proof.
  intros Hrange. apply harmless_try; [apply get_by_stripe_sub_harmless|].
  intros [current|]; [|apply harmless_done]. apply cas_loop_harmless; [done|].
  intros now cols p (Hsub & Hst & Hc & H1 & H2 & H3 & H4)%sub_view_some. unfold past_due_data.
  sub_view_after; try done. by apply number_i64_roundtrip.
Qed.

Lemma recover_harmless id event_created :
  in_i64 event_created = true -> harmless (recover_from_paid_invoice id event_created).
Proof.
  intros Hrange. apply harmless_now. intros now. apply (harmless_update_only (M:=sub_machine)).
  intros i cols p Hv _ Hm. rewrite !matches_cons, !andb_true_iff in Hm. destruct Hm as (_ & Hs & Hc & _).
  apply sub_view_some in Hv as (Hsub & Hst & Hcr & H1 & H2 & H3 & H4).
  rewrite (holds_enum _ _ _ (p_status p)) in Hs by done. apply bool_decide_eq_true in Hs.
  rewrite (holds_int_le _ _ _ (p_created p)) in Hc by done. apply Z.leb_le in Hc.
  destruct p as [sub st c a1 a2 a3 a4]; simpl in *. subst st.
  eexists. split; [|by apply SubRecover]. sub_view_after; try done. by apply number_i64_roundtrip.
Qed.

Lemma cancel_harmless id event_created :
  in_i64 event_created = true -> harmless (cancel_and_reset_addons id event_created).
Proof.
  intros Hrange. apply harmless_now. intros now. apply (harmless_update_only (M:=sub_machine)).
  intros i cols p Hv _ Hm. rewrite !matches_cons, !andb_true_iff in Hm. destruct Hm as (_ & Hc & _).
  apply sub_view_some in Hv as (Hsub & Hst & Hcr & H1 & H2 & H3 & H4).
  rewrite (holds_int_le _ _ _ (p_created p)) in Hc by done. apply Z.leb_le in Hc.
  destruct p as [sub st c a1 a2 a3 a4]; simpl in *.
  eexists. split; [|by apply SubCancel].
  sub_view_after; try done; by apply number_i64_roundtrip.
Qed.

Lemma set_addons_harmless user_id b1 b2 b3 b4 event_created :
  Forall (fun n => in_i64 n = true) [b1; b2; b3; b4] ->
  harmless (set_addon_totals user_id [b1; b2; b3; b4] event_created).
Proof.
  intros Hrange. rewrite !Forall_cons in Hrange. destruct Hrange as (Hb1 & Hb2 & Hb3 & Hb4 & _).
  apply harmless_now. intros now. apply (harmless_update_only (M:=sub_machine)).
  intros i cols p Hv _ Hm. simpl in Hm. rewrite !andb_true_iff in Hm. destruct Hm as (_ & _ & Hn1 & Hn2 & _).
  apply sub_view_some in Hv as (Hsub & Hst & Hcr & H1 & H2 & H3 & H4).
  pose proof (proj1 (enum_col_text _ _ _) Hst) as Ht.
  rewrite (holds_not_equal_text _ _ _ (wire (p_status p))) in Hn1, Hn2 by done.
  destruct p as [sub st c a1 a2 a3 a4]; simpl in *.
  exists (mkSub sub st c b1 b2 b3 b4). split; [|apply SubAddons; by destruct st].
  sub_view_after; try done; by apply number_i64_roundtrip.
Qed.

(** The writers that webhook deliveries and the add-on sync run on a
    subscription's row; [upsert_platform] starts a new subscription on it. *)
Inductive sub_writer : prog unit -> Prop :=
| WStatusPlan id status plan created : in_i64 created = true ->
    sub_writer (spawn (fun _ => tt) (update_status_plan id status plan created))
| WPastDue grace_end id created : in_i64 created = true ->
    sub_writer (spawn (fun _ => tt) (mark_past_due grace_end id created))
| WRecover id created : in_i64 created = true ->
    sub_writer (spawn (fun _ => tt) (recover_from_paid_invoice id created))
| WCancel id created : in_i64 created = true ->
    sub_writer (spawn (fun _ => tt) (cancel_and_reset_addons id created))
| WAddons user b1 b2 b3 b4 created : Forall (fun n => in_i64 n = true) [b1; b2; b3; b4] ->
    sub_writer (spawn (fun _ => tt) (set_addon_totals user [b1; b2; b3; b4] created)).

Lemma sub_writer_harmless p : sub_writer p -> harmless p.
Proof.
  destruct 1; apply harmless_spawn;
    [by apply update_status_plan_harmless|by apply mark_past_due_harmless|by apply recover_harmless
    |by apply cancel_harmless|by apply set_addons_harmless].
Qed.

(** The end of a platform subscription is final: in any interleaving of its
    writers, with database failures anywhere, event timestamps never go
    back, a canceled or expired subscription never becomes live again, and its
    add-on quotas are never raised, only reset. *)
Theorem canceled_subscription_final ps s ps' s' id cols p
  (Hps : Forall sub_writer ps) (Hwf : table_wf (M:=sub_machine) s) (Hsteps : rtc pool_step (ps, s) (ps', s'))
  (Hrow : rows s SUBSCRIPTIONS_TABLE !! id = Some cols) (Hview : sub_view cols = Some p) :
  exists cols' p', rows s' SUBSCRIPTIONS_TABLE !! id = Some cols' /\ sub_view cols' = Some p' /\ sub_after p p'.
Proof.
  assert (Forall (harmless (M:=sub_machine)) ps) as Hh
    by (eapply Forall_impl; [exact Hps|]; apply sub_writer_harmless).
  pose proof (pool_evolves _ _ _ Hh Hwf Hsteps) as HG.
  destruct (evolve_read _ _ _ _ _ Hwf HG Hrow Hview) as (c' & p' & Hr' & Hv' & _ & _ & Hs).
  exists c', p'. do 2 (split; [done|]). by apply sub_steps_after.
Qed.
End SubHandlers.

(** ** Witness: a cancellation and a late add-on sync race *)
Definition sample_sub : columns := columns_of
  [("stripe_subscription_id", VString "sub_1"); ("user_id", VString "u1"); ("status", VString (wire Active));
   ("stripe_event_created", json_i64 10); ("addon_projects", json_i64 3); ("addon_requests", json_i64 0);
   ("addon_r2_bytes", json_i64 0); ("addon_d1_bytes", json_i64 0)].
Definition sample_subs : state := set_rows ∅ SUBSCRIPTIONS_TABLE {["r1" := sample_sub]}.
Definition sample_sub_writers : list (prog unit) :=
  [spawn (fun _ => tt) (update_status_plan "sub_1" Active (Some "pro") 20);
   spawn (fun _ => tt) (cancel_and_reset_addons "sub_1" 20);
   spawn (fun _ => tt) (set_addon_totals "u1" [9; 9; 9; 9] 20)].
Definition sample_sub_run :=
  run_schedule [0; 0; 1; 1; 2; 2; 0; 0]%nat (sample_sub_writers, sample_subs).

Lemma sample_sub_row : rows sample_subs SUBSCRIPTIONS_TABLE !! "r1" = Some sample_sub.
Proof. unfold sample_subs. by rewrite rows_set_rows, lookup_singleton_eq. Qed.

Lemma sample_sub_view : sub_view sample_sub = Some (mkSub "sub_1" Active 10 3 0 0 0).
Proof. vm_compute. reflexivity. Qed.

Lemma sample_subs_wf : table_wf (M:=sub_machine) sample_subs.
Proof.
  intros id cols. simpl. unfold sample_subs. rewrite rows_set_rows, lookup_singleton_Some. intros [_ <-].
  eexists. split; [apply sample_sub_view|done].
Qed.

Lemma canceled_subscription_final_witness :
  (rows sample_sub_run.2 SUBSCRIPTIONS_TABLE !! "r1" ≫= sub_view) = Some (mkSub "sub_1" Canceled 20 0 0 0 0) /\
  exists cols' p', rows sample_sub_run.2 SUBSCRIPTIONS_TABLE !! "r1" = Some cols' /\
    sub_view cols' = Some p' /\ sub_after (mkSub "sub_1" Active 10 3 0 0 0) p'.
Proof.
  split; [vm_compute; reflexivity|].
  apply (canceled_subscription_final sample_sub_writers sample_subs sample_sub_run.1 sample_sub_run.2 "r1" sample_sub).
  - repeat constructor.
  - apply sample_subs_wf.
  - rewrite <- surjective_pairing. apply run_schedule_steps.
  - exact sample_sub_row.
  - exact sample_sub_view.
Defined.
