(* ===== verification/Interleaving.v ===== *)
(** * Assertions on handlers in flight

    A rule in the style of [safe] for handlers that interfere: an assertion that
    holds of what is left of a handler at every point of its run ([always]). *)
From Stdlib Require Import String.
From S2P Require Import Prelude Ints Str Contracts Records Effects.

Section InFlight.
Context {JN : JsonNumbers} {B : Backend} (G : state -> state -> Prop) `{!PreOrder G}.

(** [always P p s]: from [s], [P] holds of what is left of [p] and the state
    whenever the others are between two of its calls, and its calls are
    [G]-steps. *)
Fixpoint always {A} (P : prog A -> state -> Prop) (p : prog A) (s : state) : Prop :=
  forall s', G s s' -> P p s' /\
    match p with
    | Done _ => True
    | Do c k => forall r s'', call_step c s' r s'' -> G s' s'' /\ always P (k r) s''
    end.

Lemma always_stable {A} (P : prog A -> state -> Prop) p s s' : G s s' -> always P p s -> always P p s'.
Proof. intros HG. destruct p; simpl; intros H s2 H2; apply H; by etrans. Qed.

Lemma always_now {A} (P : prog A -> state -> Prop) p s : always P p s -> P p s.
Proof. intros H. destruct p; by apply (H s ltac:(reflexivity)). Qed.

Lemma always_bind {A C} (P : prog C -> state -> Prop) (Q : A -> state -> Prop) (p : prog A) f s :
  (forall p' s', G s s' -> safe G Q p' s' -> P (p' ≫= f) s') ->
  safe G Q p s ->
  (forall a s', G s s' -> Q a s' -> always P (f a) s') -> always P (p ≫= f) s.
Proof.
  revert s. induction p as [a|R c k IH]; intros s HP Hp Hf.
  - apply Hf; [reflexivity|]. by apply Hp.
  - intros s' Hs. split.
    + apply (HP (Do c k)); [done|]. by eapply safe_stable.
    + intros r s'' Hc. destruct (Hp s' Hs r s'' Hc) as [HG Hk]. split; [done|].
      apply (IH r s''); [|done|].
      * intros p' s3 H3. apply HP. do 2 (etrans; [done|]). done.
      * intros a s3 H3. apply Hf. do 2 (etrans; [done|]). done.
Qed.

Lemma always_pool {A} (Ps : list (prog A -> state -> Prop)) cfg cfg' :
  rtc pool_step cfg cfg' -> Forall2 (fun P p => always P p cfg.2) Ps cfg.1 ->
  G cfg.2 cfg'.2 /\ Forall2 (fun P p => always P p cfg'.2) Ps cfg'.1.
Proof.
  induction 1 as [cfg|cfg1 cfg2 cfg3 Hstep _ IH]; intros Hall; [by split|].
  destruct Hstep as [ps i p p' s s' Hi Hp]. simpl in *.
  destruct (Forall2_lookup_r _ _ _ _ _ Hall Hi) as (P & HP & Halw).
  assert (G s s' /\ always P p' s') as [HG Hp'].
  { destruct p as [a|R c k]; simpl in *; [done|]. destruct Hp as (r & Hc & ->).
    by apply (Halw s ltac:(reflexivity)). }
  destruct IH as [HG' Hall'].
  - rewrite <- (list_insert_id Ps i P HP). apply Forall2_insert; [|done].
    eapply Forall2_impl; [exact Hall|]. intros P' q. by apply always_stable.
  - split; [by etrans|done].
Qed.

End InFlight.
