(* ===== verification/History.v ===== *)
(** * Assertions on the past

    The rely-guarantee rule of [Effects.safe] with a memory: a condition of a
    finished handler may speak of the states the run has visited, its own and
    those the others went through.  Two conditions about the past are about one
    past, so what one handler saw and what another did are compared in time. *)
From Stdlib Require Import String.
From S2P Require Import Prelude Ints Str Contracts Records Effects.

Section History.
Context {JN : JsonNumbers}.

(** The states a run has visited. *)
Definition visited : Type := state -> Prop.
Definition visit (V : visited) (s : state) : visited := fun x => V x \/ x = s.

Context {B : Backend} (G : state -> state -> Prop) `{!PreOrder G}.

(** The run goes on from [s] to [s'] by [G]-steps: everything visited on the
    way lies between the two. *)
Definition extends (V : visited) (s : state) (V' : visited) (s' : state) : Prop :=
  G s s' /\ V' s' /\ (forall x, V x -> V' x) /\ (forall x, V' x -> V x \/ G s x /\ G x s').

Lemma extends_refl V s : V s -> extends V s V s.
Proof. intros HV. split; [reflexivity|]. by auto. Qed.

Lemma extends_trans V1 s1 V2 s2 V3 s3 : extends V1 s1 V2 s2 -> extends V2 s2 V3 s3 -> extends V1 s1 V3 s3.
Proof.
  intros (G12 & H2 & M12 & N12) (G23 & H3 & M23 & N23). split; [by etrans|]. split; [done|].
  split; [by auto|]. intros x Hx. destruct (N23 x Hx) as [Hx2|[? ?]]; [|right; split; [by etrans|done]].
  destruct (N12 x Hx2) as [?|[? ?]]; [by left|right; split; [done|by etrans]].
Qed.

Lemma extends_visit V s s' : G s s' -> extends V s (visit V s') s'.
Proof.
  intros HG. split; [done|]. split; [by right|]. split; [by left|]. intros x [?| ->]; [by left|right]. by split.
Qed.

(** What has been visited lies before the present. *)
Definition past (V : visited) (s : state) : Prop := V s /\ forall x, V x -> G x s.

Lemma past_extends V s V' s' : extends V s V' s' -> past V s -> past V' s'.
Proof.
  intros (HG & HV & _ & HN) [_ HP]. split; [done|]. intros x [Hx|[_ ?]]%HN; [|done]. etrans; [by apply HP|done].
Qed.
Lemma past_start s : past (fun x => x = s) s.
Proof. split; [done|]. by intros x ->. Qed.

Fixpoint hsafe {A} (Q : A -> visited -> state -> Prop) (p : prog A) (V : visited) (s : state) : Prop :=
  match p with
  | Done a => forall V' s', extends V s V' s' -> Q a V' s'
  | Do c k => forall V' s', extends V s V' s' -> forall r s'', call_step c s' r s'' ->
      G s' s'' /\ hsafe Q (k r) (visit V' s'') s''
  end.

Lemma hsafe_stable {A} (Q : A -> visited -> state -> Prop) p V s V' s' :
  extends V s V' s' -> hsafe Q p V s -> hsafe Q p V' s'.
Proof. intros He. destruct p; simpl; intros H V2 s2 H2; apply H; by eapply extends_trans. Qed.

Lemma hsafe_bind {A C} (Q : A -> visited -> state -> Prop) (Q' : C -> visited -> state -> Prop) p f V s :
  hsafe Q p V s ->
  (forall a V' s', extends V s V' s' -> Q a V' s' -> hsafe Q' (f a) V' s') -> hsafe Q' (p ≫= f) V s.
Proof.
  revert V s. induction p as [a|R c k IH]; intros V s Hp Hf.
  - cbn [mbind prog_mbind prog_bind]. assert (forall V' s', extends V s V' s' -> hsafe Q' (f a) V' s') as Hfa
      by (intros V' s' He; by apply (Hf a V' s' He), Hp).
    destruct (f a); intros V' s' He; apply (Hfa V' s' He), extends_refl, (proj1 (proj2 He)).
  - intros V' s' He r s'' Hc. destruct (Hp V' s' He r s'' Hc) as [HG Hk]. split; [done|].
    apply (IH r (visit V' s'') s'' Hk). intros a V3 s3 H3. apply Hf.
    eapply extends_trans; [|exact H3]. eapply extends_trans; [exact He|by apply extends_visit].
Qed.

(** A handler that is safe needs no memory. *)
Lemma safe_hsafe {A} (Q : A -> state -> Prop) p V s : safe G Q p s -> hsafe (fun a _ s' => Q a s') p V s.
Proof.
  revert V s. induction p as [a|R c k IH]; intros V s Hp.
  - intros V' s' He. by apply Hp, He.
  - intros V' s' He r s'' Hc. destruct (Hp s' (proj1 He) r s'' Hc) as [HG Hk]. split; [done|]. by apply IH.
Qed.

Lemma hsafe_weaken {A} (Q Q' : A -> visited -> state -> Prop) p V s :
  (forall a V' s', extends V s V' s' -> Q a V' s' -> Q' a V' s') -> hsafe Q p V s -> hsafe Q' p V s.
Proof.
  revert V s. induction p as [a|R c k IH]; intros V s HQ Hp.
  - intros V' s' He. by apply HQ, Hp.
  - intros V' s' He r s'' Hc. destruct (Hp V' s' He r s'' Hc) as [HG Hk]. split; [done|].
    apply (IH r); [|done]. intros a V3 s3 H3. apply HQ.
    eapply extends_trans; [|exact H3]. eapply extends_trans; [exact He|by apply extends_visit].
Qed.

(** What is made of an answer without a call. *)
Lemma hsafe_map {A C} (Q : C -> visited -> state -> Prop) (f : A -> C) (k : A -> prog C) p V s :
  (forall a, k a = Done (f a)) -> hsafe (fun a => Q (f a)) p V s -> hsafe Q (p ≫= k) V s.
Proof.
  intros Hk. revert V s. induction p as [a|R c p IH]; intros V s Hp; cbn [mbind prog_mbind prog_bind].
  - rewrite Hk. exact Hp.
  - intros V' s' He r s'' Hc. destruct (Hp V' s' He r s'' Hc) as [HG Hr]. split; [done|]. by apply IH.
Qed.

(** In a pool of such handlers the run has one past, and every finished
    handler's condition holds of it. *)
Lemma hpool {A} (Qs : list (A -> visited -> state -> Prop)) V cfg cfg' :
  rtc pool_step cfg cfg' -> V cfg.2 -> Forall2 (fun Q p => hsafe Q p V cfg.2) Qs cfg.1 ->
  exists V', extends V cfg.2 V' cfg'.2 /\ Forall2 (fun Q p => hsafe Q p V' cfg'.2) Qs cfg'.1.
Proof.
  intros Hsteps. revert V. induction Hsteps as [cfg|cfg1 cfg2 cfg3 Hstep _ IH]; intros V HV Hall.
  { exists V. split; [by apply extends_refl|done]. }
  destruct Hstep as [ps i p p' s s' Hi Hp]. simpl in *.
  destruct (Forall2_lookup_r _ _ _ _ _ Hall Hi) as (Q & HQ & Hsafe).
  assert (G s s' /\ hsafe Q p' (visit V s') s') as [HG Hp'].
  { destruct p as [a|R c k]; simpl in *; [done|]. destruct Hp as (r & Hc & ->).
    apply (Hsafe V s (extends_refl V s HV) r s' Hc). }
  destruct (IH (visit V s')) as (V' & He & Hall'); [by right| |].
  - rewrite <- (list_insert_id Qs i Q HQ). apply Forall2_insert; [|done].
    eapply Forall2_impl; [exact Hall|]. intros Q' q. apply hsafe_stable. by apply extends_visit.
  - exists V'. split; [|done]. eapply extends_trans; [by apply extends_visit|done].
Qed.
End History.
