(* ===== verification/Failures.v ===== *)
(** * Refusals and failures ([blocks/errors.rs], [blocks/crud.rs], [http.rs])

    The API error codes and what they map to, the one classifier of a failed
    database call, and the answers built from it.  An answer is kept as the
    constructor that makes it: [wafer_block::err_internal] draws a fresh
    reference for its message. *)
From Stdlib Require Import String.
From S2P Require Import Prelude Ints Str Contracts SampleLib Records.

(** ** API error codes ([blocks/errors.rs]) *)
Module Errors.
Inductive ErrorCode :=
| InvalidCredentials | EmailAlreadyExists | AccountDisabled | NotAuthenticated | InvalidToken
| TokenExpired | EmailNotVerified | PasswordTooShort | PasswordTooLong | InvalidEmail
| InvalidInput | Forbidden | AdminRequired | NotFound | Conflict | DatabaseError
| PaymentNotConfigured | InvalidPurchaseStatus | RefundFailed | QuotaExceeded | FileTooLarge
| InternalError | ConfigurationError | RateLimitExceeded.

Definition as_str (c : ErrorCode) : string :=
  match c with
  | InvalidCredentials => "invalid_credentials"
  | EmailAlreadyExists => "email_already_exists"
  | AccountDisabled => "account_disabled"
  | NotAuthenticated => "not_authenticated"
  | InvalidToken => "invalid_token"
  | TokenExpired => "token_expired"
  | EmailNotVerified => "email_not_verified"
  | PasswordTooShort => "password_too_short"
  | PasswordTooLong => "password_too_long"
  | InvalidEmail => "invalid_email"
  | InvalidInput => "invalid_input"
  | Forbidden => "forbidden"
  | AdminRequired => "admin_required"
  | NotFound => "not_found"
  | Conflict => "conflict"
  | DatabaseError => "database_error"
  | PaymentNotConfigured => "payment_not_configured"
  | InvalidPurchaseStatus => "invalid_purchase_status"
  | RefundFailed => "refund_failed"
  | QuotaExceeded => "quota_exceeded"
  | FileTooLarge => "file_too_large"
  | InternalError => "internal_error"
  | ConfigurationError => "configuration_error"
  | RateLimitExceeded => "rate_limit_exceeded"
  end.

Definition default_message (c : ErrorCode) : string :=
  match c with
  | InvalidCredentials => "Invalid email or password"
  | EmailAlreadyExists => "That email is already registered"
  | AccountDisabled => "This account is disabled"
  | NotAuthenticated => "Not authenticated"
  | InvalidToken => "Invalid token"
  | TokenExpired => "Token expired"
  | EmailNotVerified => "Email address not verified"
  | PasswordTooShort => "Password is too short"
  | PasswordTooLong => "Password is too long"
  | InvalidEmail => "Invalid email address"
  | InvalidInput => "Invalid input"
  | Forbidden => "Access denied"
  | AdminRequired => "Administrator access required"
  | NotFound => "Not found"
  | Conflict => "Conflicts with the current state"
  | DatabaseError => "Database error"
  | PaymentNotConfigured => "Payments are not configured"
  | InvalidPurchaseStatus => "The purchase is not in a state that allows this"
  | RefundFailed => "The refund could not be completed"
  | QuotaExceeded => "Storage quota exceeded"
  | FileTooLarge => "File is too large"
  | InternalError => "Internal server error"
  | ConfigurationError => "Configuration error"
  | RateLimitExceeded => "Too many requests — try again later"
  end.

Definition ALL : list ErrorCode :=
  [InvalidCredentials; EmailAlreadyExists; AccountDisabled; NotAuthenticated; InvalidToken;
  TokenExpired; EmailNotVerified; PasswordTooShort; PasswordTooLong; InvalidEmail;
  InvalidInput; Forbidden; AdminRequired; NotFound; Conflict; DatabaseError;
  PaymentNotConfigured; InvalidPurchaseStatus; RefundFailed; QuotaExceeded; FileTooLarge;
  InternalError; ConfigurationError; RateLimitExceeded].

(** [impresspress_error_code_to_wafer] *)
Definition impresspress_error_code_to_wafer (c : ErrorCode) : Records.ErrorCode :=
  match c with
  | InvalidCredentials | NotAuthenticated | InvalidToken | TokenExpired => Unauthenticated
  | Forbidden | AdminRequired | AccountDisabled | EmailNotVerified => PermissionDenied
  | NotFound => Records.NotFound
  | EmailAlreadyExists | Conflict => AlreadyExists
  | PasswordTooShort | PasswordTooLong | InvalidEmail | InvalidInput | InvalidPurchaseStatus =>
      InvalidArgument
  | QuotaExceeded | FileTooLarge => ResourceExhausted
  | RateLimitExceeded => ResourceExhausted
  | PaymentNotConfigured | ConfigurationError | DatabaseError | InternalError | RefundFailed => Internal
  end.
End Errors.

(** [errors::db_failed]: the whole error, under a label. *)
Definition db_failed (what : string) (error : WaferError) : WaferError :=
  {| we_code := we_code error;
     we_message := String.append what (String.append ": " (we_message error));
     we_detail := we_detail error |}.

(** ** Answers *)

(** [ResponseBuilder]: what the handlers set; a body is bytes or JSON. *)
Inductive Body `{JsonNumbers} := Bytes (content media_type : string) | Json (v : Value).
Record Response `{JsonNumbers} := {
  status : Z;
  cookies : list string;
  headers : list (string * string);
  body : Body;
}.

Inductive OutputStream `{JsonNumbers} :=
| OutputError (e : WaferError)                       (* OutputStream::error *)
| ErrInternal (context : string) (cause : WaferError)  (* wafer_block::err_internal *)
| ForbiddenPage (reason : string)                    (* ui::forbidden_response *)
| Respond (r : Response).

Section Answers.
Context {JN : JsonNumbers}.

(** [errors::error_response] and [From<ErrorCode> for OutputStream] *)
Definition error_response (code : Errors.ErrorCode) (message : string) : OutputStream :=
  OutputError (with_detail_code (wafer_error (Errors.impresspress_error_code_to_wafer code) message)
                 (Errors.as_str code)).
Definition refuse (code : Errors.ErrorCode) : OutputStream :=
  error_response code (Errors.default_message code).

(** [http::err_unauthenticated]; its challenge header is metadata the model
    leaves out. *)
Definition err_unauthenticated (message : string) : OutputStream :=
  OutputError (with_detail_code (wafer_error Unauthenticated message)
                 (Errors.as_str Errors.NotAuthenticated)).
(** [wafer_block]'s constructors, and [http::err_unavailable]. *)
Definition err_bad_request (message : string) : OutputStream := OutputError (wafer_error InvalidArgument message).
Definition err_not_found (message : string) : OutputStream := OutputError (wafer_error NotFound message).
Definition err_conflict (message : string) : OutputStream := OutputError (wafer_error AlreadyExists message).
Definition err_forbidden (message : string) : OutputStream := OutputError (wafer_error PermissionDenied message).
Definition err_unavailable (message : string) : OutputStream := OutputError (wafer_error Unavailable message).

(** [http::ok_json] *)
Definition ok_json (v : Value) : OutputStream :=
  Respond {| status := 200; cookies := []; headers := []; body := Json v |}.

(** [http::require_row] *)
Definition require_row {T} (row : option T) (not_found : string) : outcome OutputStream T :=
  ok_or row (err_not_found not_found).

(** [http::is_json_media_type]: [split] has a first part. *)
Definition is_json_media_type (content_type : string) : bool :=
  match split_on ";" content_type with
  | media_type :: _ => eq_ignore_ascii_case (trim media_type) "application/json"
  | [] => false
  end.

(** ** The classifier ([blocks/crud.rs]) *)
Definition CALL_BUDGET_EXHAUSTED : string := "database.call_budget_exhausted".

(** [is_call_budget_refusal] *)
Definition is_call_budget_refusal (error : WaferError) : bool :=
  bool_decide (we_code error = ResourceExhausted) &&
  bool_decide (we_detail error = Some CALL_BUDGET_EXHAUSTED).

Definition UNAVAILABLE : string :=
  "Temporarily unavailable: a service this request depends on is not responding. Please try again shortly.".
Definition DUPLICATE_KEY : string := "A record with the same key already exists".

Inductive DbFailure := Refused (refusal : WaferError) | InternalFault (fault : WaferError).

Definition classify_db_error (error : WaferError) (not_found : option string) : DbFailure :=
  if is_call_budget_refusal error then
    Refused (with_detail_code (wafer_error (we_code error) (we_message error))
               (default "" (we_detail error)))
  else
    match we_code error, not_found with
    | NotFound, Some label => Refused (wafer_error NotFound label)
    | PermissionDenied, _ => Refused (wafer_error PermissionDenied "Access denied")
    | ResourceExhausted, _ => Refused (wafer_error ResourceExhausted (we_message error))
    | Unavailable, _ => Refused (wafer_error Unavailable UNAVAILABLE)
    | AlreadyExists, _ => Refused (wafer_error AlreadyExists DUPLICATE_KEY)
    | _, _ => InternalFault error
    end.

Definition seal (failure : DbFailure) (context : string) : OutputStream :=
  match failure with
  | Refused refusal => OutputError refusal
  | InternalFault fault => ErrInternal context fault
  end.

Definition db_error (error : WaferError) (not_found context : string) : OutputStream :=
  seal (classify_db_error error (Some not_found)) context.
Definition db_error_internal (error : WaferError) (context : string) : OutputStream :=
  seal (classify_db_error error None) context.

(** [db_error_notice]: the reason a fragment gives. *)
Definition db_error_notice (error : WaferError) : string :=
  match classify_db_error error None with
  | Refused refusal =>
      if is_call_budget_refusal refusal then "it needs more database work than one request may do"
      else
        match we_code refusal with
        | ResourceExhausted => "it is over its usage limit right now"
        | AlreadyExists => "it duplicates an entry that already exists"
        | Unavailable => "it is temporarily unavailable"
        | _ => "access to it was denied"
        end
  | InternalFault _ => "something went wrong"
  end.

(** *** Duplicate keys *)
Record TakenKey := { tk_record : string; tk_field : string; tk_value : string }.

Definition taken (k : TakenKey) : string :=
  concat_chars ["A "; tk_record k; " with the "; tk_field k; " "; bytes [34]; tk_value k; bytes [34];
                " already exists."].
Definition conflict_with (k : TakenKey) (remedy : string) : OutputStream :=
  err_conflict (concat_chars [taken k; " "; remedy]).
Definition conflict_message (k : TakenKey) : string :=
  concat_chars [taken k; " Choose a different "; tk_field k; "."].
Definition conflict (k : TakenKey) : OutputStream := err_conflict (conflict_message k).

Definition is_duplicate_key (error : WaferError) : bool := bool_decide (we_code error = AlreadyExists).
Definition taken_key_or (error : WaferError) (key : TakenKey) (otherwise : WaferError -> OutputStream)
  : OutputStream :=
  if is_duplicate_key error then conflict key else otherwise error.
Definition taken_key_or_db_error (error : WaferError) (key : TakenKey) (context : string) : OutputStream :=
  taken_key_or error key (fun e => db_error_internal e context).

(** ** Credential checks that could not run ([blocks/auth/mod.rs]) *)
Definition request_ended (error : WaferError) : option WaferError :=
  match we_code error with
  | Cancelled => Some (wafer_error Cancelled "The request was cancelled")
  | DeadlineExceeded => Some (wafer_error DeadlineExceeded "The request ran out of time")
  | _ => None
  end.

Definition credential_check_unavailable : WaferError :=
  wafer_error Unavailable "Authentication is temporarily unavailable".

Definition credential_check_failed (error : WaferError) : WaferError :=
  match request_ended error with
  | Some ended => ended
  | None =>
      match classify_db_error error None with
      | Refused refusal => refusal
      | InternalFault _ => credential_check_unavailable
      end
  end.

(** ** What a client sees

    The body and the status are made of the code, the message and the detail
    code; [err_internal] answers a fixed sentence with a reference drawn for
    the log line. *)
Inductive Seen := SeenError (e : WaferError) | SeenPage (reason : string) | SeenResponse (r : Response).
Definition client_sees (reference : string) (o : OutputStream) : Seen :=
  match o with
  | OutputError e => SeenError e
  | ErrInternal _ _ =>
      SeenError (wafer_error Internal (concat_chars ["Internal server error (ref: "; reference; ")"]))
  | ForbiddenPage reason => SeenPage reason
  | Respond r => SeenResponse r
  end.

End Answers.

(** ** Properties *)
Section FailureProperties.
Context {JN : JsonNumbers}.

Lemma budget_same_code e e' :
  we_code e = we_code e' -> we_detail e = we_detail e' ->
  is_call_budget_refusal e = is_call_budget_refusal e'.
Proof. unfold is_call_budget_refusal. by intros -> ->. Qed.

(** The classification of everything but a quota depends on the code alone. *)
Lemma classify_by_code e e' not_found :
  we_code e = we_code e' -> we_code e <> ResourceExhausted ->
  classify_db_error e not_found = classify_db_error e' not_found \/
  (classify_db_error e not_found = InternalFault e /\ classify_db_error e' not_found = InternalFault e').
Proof.
  intros Hc Hq. unfold classify_db_error, is_call_budget_refusal.
  rewrite <- !Hc, bool_decide_eq_false_2 by done. simpl.
  destruct (we_code e), not_found; try done; (by left) || (by right).
Qed.

(** C35. What a client is told about a failed database call carries nothing of
    the backend's text: two failures of the same code, whatever their messages,
    metadata and log contexts, are answered alike by every route, quotas apart,
    whose message is meant for the client. *)
Theorem failures_are_confidential e e' not_found ctx ctx' reference :
  we_code e = we_code e' -> we_code e <> ResourceExhausted ->
  client_sees reference (db_error e not_found ctx) = client_sees reference (db_error e' not_found ctx') /\
  client_sees reference (db_error_internal e ctx) = client_sees reference (db_error_internal e' ctx') /\
  db_error_notice e = db_error_notice e' /\
  credential_check_failed e = credential_check_failed e'.
Proof.
  intros Hc Hq. unfold db_error, db_error_internal, db_error_notice, credential_check_failed, request_ended.
  rewrite <- !Hc.
  pose proof (classify_by_code e e' (Some not_found) Hc Hq) as [->|[-> ->]];
    pose proof (classify_by_code e e' None Hc Hq) as [->|[-> ->]];
    repeat split; unfold seal; by destruct (classify_db_error e' _).
Qed.

(** A credential check that could not run is never answered as a bad
    credential, nor as a missing row or an internal fault: it ends as the
    request did, as a refusal, or as the retryable 503. *)
Theorem credential_check_never_blames_the_credential e :
  we_code (credential_check_failed e) ∈
    [Cancelled; DeadlineExceeded; PermissionDenied; ResourceExhausted; AlreadyExists; Unavailable].
Proof.
  unfold credential_check_failed, request_ended, classify_db_error.
  destruct (is_call_budget_refusal e) eqn:Hb.
  - unfold is_call_budget_refusal in Hb. apply andb_true_iff in Hb as [Hb%bool_decide_eq_true _].
    rewrite Hb. simpl. set_solver.
  - destruct (we_code e); simpl; set_solver.
Qed.
End FailureProperties.

(** ** Witness *)
Lemma failures_are_confidential_witness :
  client_sees "r1" (db_error_internal (wafer_error PermissionDenied "no grant on users") "Read") =
  client_sees "r1" (db_error_internal (wafer_error PermissionDenied "no grant on tokens") "Write").
Proof.
  apply (failures_are_confidential (wafer_error PermissionDenied "no grant on users")
           (wafer_error PermissionDenied "no grant on tokens") "Row not found" "Read" "Write" "r1");
    [reflexivity|discriminate].
Defined.
