(* ===== verification/DbRead.v ===== *)
(** * Reads that cannot truncate in silence ([db_read.rs])

    Bounded reads fail past their ceiling, capped reads say so, and the keyset
    walk [list_every] reads everything: it stops, and no row that is there
    throughout is missed or repeated, whatever is written meanwhile. *)
From Stdlib Require Import String.
From S2P Require Import Prelude Ints Str Contracts SampleLib Records Effects MemoryDb.

Definition UNPAGED_LIMIT : Z := 10000.
Definition KEYSET_PAGE : Z := 1000.

Inductive Bound := UniqueKey (reason : string) | OnePer (reason : string) | Curated (reason : string).

(** [Display for Bound] *)
Definition bound_display (b : Bound) : string :=
  match b with
  | UniqueKey reason => String.append "unique key: " reason
  | OnePer reason => String.append "one row per " reason
  | Curated reason => String.append "curated: " reason
  end.

Section DbRead.
Context {JN : JsonNumbers}.

Record Capped := { capped_rows : list Row; truncated : bool }.

(** [u32::saturating_add] *)
Definition saturating_add_u32 (a b : Z) : Z := Z.min u32_max (a + b).

(** [over_read]: without a sort order. *)
Definition over_read (collection : string) (filters : list Filter) (limit : Z) : prog (WResult Capped) :=
  rows ←? do_call (ListRows collection filters (Z.to_nat (saturating_add_u32 limit 1)));
  let truncated := limit <? Z.of_nat (length rows) in
  Done (Ok {| capped_rows := if truncated then take (Z.to_nat limit) rows else rows;
              truncated := truncated |}).

Definition bound_broken (collection : string) (bound : Bound) : WaferError :=
  wafer_error Internal
    (concat_chars ["bounded read of "; collection; " returned more than 10000 rows, so its stated bound no longer holds (";
                   bound_display bound; "); this read has to become a paginated or aggregated one"]).

Definition list_bounded (collection : string) (filters : list Filter) (bound : Bound)
  : prog (WResult (list Row)) :=
  capped ←? over_read collection filters UNPAGED_LIMIT;
  if truncated capped then Done (Err (bound_broken collection bound))
  else Done (Ok (capped_rows capped)).

Definition list_capped (collection : string) (filters : list Filter) : prog (WResult Capped) :=
  over_read collection filters UNPAGED_LIMIT.

Definition walk_needs_an_id (collection : string) : WaferError :=
  wafer_error Internal
    (concat_chars ["keyset walk of "; collection; " met a row with no id; this read pages on `id`, so the table must give every row a distinct non-empty one"]).

Definition after_filter (after : string) : Filter :=
  {| field := "id"; operator := OpGreaterThan; value := VString after |}.

Definition page_after (collection : string) (filters : list Filter) (columns : option (list string))
    (after_id : option string) : prog (WResult (list Row)) :=
  let filters := match after_id with Some after => filters ++ [after_filter after] | None => filters end in
  let columns := (fun named => if existsb (String.eqb "id") named then named else named ++ ["id"]) <$> columns in
  records ←? do_call (ListById collection filters columns (Z.to_nat KEYSET_PAGE));
  if existsb (fun record => is_empty (row_id record)) records
  then Done (Err (walk_needs_an_id collection))
  else Done (Ok records).

(** The loop of [list_every]; [None] when the fuel runs out. *)
Fixpoint walk (fuel : nat) (collection : string) (filters : list Filter) (all : list Row)
    (cursor : option string) : prog (option (WResult (list Row))) :=
  match fuel with
  | O => Done None
  | S fuel =>
      page ← page_after collection filters None cursor;
      match page with
      | Ok page =>
          let short := Z.of_nat (length page) <? KEYSET_PAGE in
          let cursor := row_id <$> last page in
          let all := all ++ page in
          if short || bool_decide (cursor = None) then Done (Some (Ok all))
          else walk fuel collection filters all cursor
      | Err e => Done (Some (Err e))
      | Panic => Done (Some Panic)
      end
  end.
Definition list_every (fuel : nat) (collection : string) (filters : list Filter)
  : prog (option (WResult (list Row))) := walk fuel collection filters [] None.
End DbRead.

(** ** Ids in order *)
Lemma ltb_leb x y : String.ltb x y = negb (String.leb y x).
Proof.
  unfold String.ltb, String.leb. rewrite (String.compare_antisym x y).
  by destruct (String.compare y x).
Qed.

Lemma ltb_spec x y : String.ltb x y = true <-> ~ String.le y x.
Proof. rewrite ltb_leb, negb_true_iff. unfold String.le. destruct (String.leb y x); naive_solver. Qed.

Section Sorted.
Context {JN : JsonNumbers} {B : Backend}.

#[export] Instance id_le_trans : Transitive id_le.
Proof. intros p q r. unfold id_le. apply transitivity. Qed.
#[export] Instance id_le_total : Total id_le.
Proof. intros p q. unfold id_le. apply total. apply _. Qed.

Lemma sorted_rows_perm filters r :
  sorted_rows filters r ≡ₚ map_to_list (filter (fun p => matches filters p.1 p.2 = true) r).
Proof. apply merge_sort_Permutation. Qed.

Lemma elem_sorted_rows filters r id cols :
  (id, cols) ∈ sorted_rows filters r <-> r !! id = Some cols /\ matches filters id cols = true.
Proof. by rewrite sorted_rows_perm, elem_of_map_to_list, map_lookup_filter_Some. Qed.

Lemma sorted_rows_nodup filters r : NoDup (sorted_rows filters r).*1.
Proof. rewrite sorted_rows_perm. apply NoDup_fst_map_to_list. Qed.

Lemma sorted_rows_sorted filters r : StronglySorted id_le (sorted_rows filters r).
Proof. apply StronglySorted_merge_sort; apply _. Qed.

Lemma length_sorted_rows filters r : Z.of_nat (length (sorted_rows filters r)) = count_rows filters r.
Proof. unfold count_rows. by rewrite sorted_rows_perm, length_map_to_list. Qed.

(** Everything up to the last of a prefix of a sorted list is in the prefix. *)
Lemma sorted_prefix (l : list (string * columns)) n p q :
  StronglySorted id_le l -> NoDup l.*1 -> last (take n l) = Some p -> q ∈ l -> String.le q.1 p.1 ->
  q ∈ take n l.
Proof.
  intros Hs Hd Hl Hq Hle. rewrite <- (take_drop n l) in Hs, Hq, Hd.
  apply elem_of_app in Hq as [Hq|Hq]; [done|].
  apply last_Some in Hl as (l' & Hl). rewrite Hl in Hs, Hd |- *.
  apply StronglySorted_app in Hs as (Hs & _ & _).
  assert (id_le p q) as Hpq by (apply Hs; [|done]; set_solver).
  rewrite fmap_app in Hd. apply NoDup_app in Hd as (_ & Hd & _). exfalso.
  apply (Hd p.1); [apply list_elem_of_fmap; exists p; split; [done|set_solver]|].
  apply list_elem_of_fmap. exists q. split; [|done]. by apply (anti_symm String.le).
Qed.
End Sorted.

(** ** The keyset walk *)
Section Walk.
Context {JN : JsonNumbers} {B : Backend} {BL : BackendLaws B}.

Definition after_cursor (filters : list Filter) (cursor : option string) : list Filter :=
  match cursor with Some after => filters ++ [after_filter after] | None => filters end.

(** One page of the walk. *)
Definition page_of (filters : list Filter) (cursor : option string) (r : table_rows)
  : list (string * columns) :=
  take (Z.to_nat KEYSET_PAGE) (sorted_rows (after_cursor filters cursor) r).

Definition beyond (cursor : option string) (id : string) : Prop :=
  match cursor with Some after => ~ String.le id after | None => True end.

Lemma matches_after filters cursor id cols :
  matches (after_cursor filters cursor) id cols = true <->
  matches filters id cols = true /\ beyond cursor id.
Proof.
  destruct cursor as [after|]; simpl; [|naive_solver]. unfold matches.
  rewrite forallb_app, andb_true_iff. simpl. unfold after_filter.
  rewrite holds_id_greater, andb_true_r, ltb_spec. done.
Qed.

Lemma page_elem filters cursor r id cols :
  (id, cols) ∈ page_of filters cursor r ->
  r !! id = Some cols /\ matches filters id cols = true /\ beyond cursor id.
Proof.
  intros Hp. assert ((id, cols) ∈ sorted_rows (after_cursor filters cursor) r) as [Hr Hm]%elem_sorted_rows.
  { rewrite <- (take_drop (Z.to_nat KEYSET_PAGE)). apply elem_of_app. by left. }
  by apply matches_after in Hm.
Qed.

(** Ids in strictly ascending order. *)
Definition id_lt (x y : string) : Prop := ~ String.le y x.
Definition ascending (ids : list string) : Prop := StronglySorted id_lt ids.

Lemma ascending_sorted_rows filters r : ascending (sorted_rows filters r).*1.
Proof.
  pose proof (sorted_rows_nodup filters r) as Hd.
  induction (sorted_rows_sorted filters r) as [|p l Hs IH Hp]; [constructor|].
  apply NoDup_cons in Hd as [Hn Hd]. constructor; [by apply IH|].
  apply Forall_forall. intros x Hx Hle. apply Hn. rewrite Forall_forall in Hp.
  apply list_elem_of_fmap in Hx as (q & -> & Hq).
  assert (q.1 = p.1) as Heq by (apply (anti_symm String.le); [done|by apply Hp]).
  rewrite <- Heq. by apply list_elem_of_fmap_2.
Qed.

Lemma ascending_page filters cursor r : ascending (page_of filters cursor r).*1.
Proof.
  pose proof (ascending_sorted_rows (after_cursor filters cursor) r) as Ha. unfold page_of.
  rewrite <- (take_drop (Z.to_nat KEYSET_PAGE) (sorted_rows _ _)), fmap_app in Ha.
  by apply StronglySorted_app in Ha as (_ & Ha & _).
Qed.

Lemma ascending_app ids ids' :
  ascending ids -> ascending ids' -> (forall x, x ∈ ids' -> beyond (last ids) x) -> ascending (ids ++ ids').
Proof.
  intros Hs Hs' Hb. apply StronglySorted_app. split; [|by split].
  intros x y Hx Hy Hle. specialize (Hb y Hy). destruct (last ids) as [z|] eqn:Hz; simpl in Hb.
  - apply Hb. etrans; [exact Hle|]. apply last_Some in Hz as (l & ->).
    apply elem_of_app in Hx as [Hx|Hx]; [|set_solver].
    apply StronglySorted_app in Hs as (Hs & _ & _). specialize (Hs x z Hx ltac:(set_solver)).
    unfold id_lt in Hs. destruct (String.leb_total x z) as [Ht|Ht]; [by apply Is_true_true|].
    exfalso. by apply Hs, Is_true_true.
  - apply last_None in Hz. subst. set_solver.
Qed.

(** A row beyond the cursor is on the page, or the page is full and ends
    before it. *)
Lemma page_complete filters cursor r id cols :
  r !! id = Some cols -> matches filters id cols = true -> beyond cursor id ->
  id ∈ (page_of filters cursor r).*1 \/
  KEYSET_PAGE <= Z.of_nat (length (page_of filters cursor r)) /\
  beyond (last (page_of filters cursor r).*1) id.
Proof.
  intros Hr Hm Hb. set (l := sorted_rows (after_cursor filters cursor) r).
  assert ((id, cols) ∈ l) as Hin by (apply elem_sorted_rows; split; [done|by apply matches_after]).
  unfold page_of. fold l. destruct (decide (Z.of_nat (length l) < KEYSET_PAGE)) as [Hl|Hl].
  - left. rewrite take_ge by lia. apply list_elem_of_fmap. by exists (id, cols).
  - destruct (last (take (Z.to_nat KEYSET_PAGE) l)) as [p|] eqn:Hp.
    + destruct (decide (String.le id p.1)) as [Hle|Hle].
      * left. apply list_elem_of_fmap. exists (id, cols). split; [done|].
        apply (sorted_prefix l _ p); [apply sorted_rows_sorted|apply sorted_rows_nodup|done..].
      * right. split; [rewrite length_take; lia|]. rewrite fmap_last, Hp. done.
    + apply last_None in Hp. apply (f_equal length) in Hp. rewrite length_take in Hp.
      rewrite length_nil in Hp. unfold KEYSET_PAGE in *. lia.
Qed.

(** A row that is there and matches. *)
Definition present (table : string) (filters : list Filter) (id : string) (s : state) : Prop :=
  exists cols, rows s table !! id = Some cols /\ matches filters id cols = true.

(** The others leave it there. *)
Definition keeps (table : string) (filters : list Filter) (id : string) (s s' : state) : Prop :=
  present table filters id s -> present table filters id s'.
#[export] Instance keeps_preorder table filters id : PreOrder (keeps table filters id).
Proof. split; unfold keeps; [intros s H; exact H|intros s1 s2 s3; auto]. Qed.

(** What a page read answers. *)
Lemma safe_page {A} G `{!PreOrder G} (Q : A -> state -> Prop) k table filters cursor s :
  (forall e s', G s s' -> safe G Q (k (Err e)) s') ->
  (forall s', G s s' ->
     safe G Q (k (Ok (map (fun p => row_of p.1 p.2) (page_of filters cursor (rows s' table))))) s') ->
  safe G Q (page_after table filters None cursor ≫= k) s.
Proof.
  intros He Hk. unfold page_after. simpl.
  intros s1 H1 r s2 [-> Hr]. split; [reflexivity|].
  destruct Hr as [(e & -> & _)| ->]; simpl; [by apply He|]. fold (after_cursor filters cursor).
  destruct (existsb _ _); simpl; [by apply He|]. by apply Hk.
Qed.

Lemma row_ids_page (l : list (string * columns)) :
  row_id <$> map (fun p => row_of p.1 p.2) l = l.*1.
Proof. rewrite <- list_fmap_compose. done. Qed.

(** C36. The keyset walk misses nothing and repeats nothing: whatever other
    requests write while it runs, as long as a row stays in the table and
    matches, the walk's answer lists it, and every id once, in ascending order. *)
Theorem list_every_misses_nothing fuel table filters id s :
  present table filters id s ->
  safe (keeps table filters id)
    (fun r _ => forall l, r = Some (Ok l) -> ascending (row_id <$> l) /\ id ∈ row_id <$> l)
    (list_every fuel table filters) s.
Proof.
  intros Hp. unfold list_every. set (G := keeps _ _ _). set (Q := fun r (_ : state) => _).
  enough (forall all cursor, ascending (row_id <$> all) -> cursor = last (row_id <$> all) ->
    (beyond cursor id \/ id ∈ row_id <$> all) ->
    safe G Q (walk fuel table filters all cursor) s) as Hw
    by (apply Hw; [constructor|done|by left]).
  revert s Hp. induction fuel as [|fuel IH]; intros s Hp all cursor Ha -> Hid; simpl; [by intros s' _ l|].
  apply (safe_page G); [by intros e s' _ s'' _ l|]. intros s' Hs. specialize (Hs Hp).
  set (page := map _ _).
  assert (ascending (row_id <$> all ++ page)) as Ha'.
  { rewrite fmap_app. apply ascending_app; [done|unfold page; rewrite row_ids_page; apply ascending_page|].
    intros x. unfold page. rewrite row_ids_page. intros ([y cols] & -> & Hy)%list_elem_of_fmap.
    by apply page_elem in Hy as (_ & _ & Hy). }
  assert (id ∈ row_id <$> all ++ page \/
          KEYSET_PAGE <= Z.of_nat (length page) /\ beyond (row_id <$> last page) id) as Hid'.
  { rewrite fmap_app, elem_of_app. destruct Hid as [Hb|Hin]; [|by auto].
    destruct Hs as (cols & Hr & Hm).
    destruct (page_complete filters _ _ id cols Hr Hm Hb) as [Hin|[Hlen Hb']].
    - left. right. unfold page. by rewrite row_ids_page.
    - right. unfold page. rewrite <- fmap_last, row_ids_page, length_map. done. }
  destruct ((Z.of_nat (length page) <? KEYSET_PAGE) || bool_decide (row_id <$> last page = None)) eqn:Hend.
  - intros s'' _ l [= <-]. split; [done|]. destruct Hid' as [Hin|[Hlen Hb]]; [done|].
    apply orb_true_iff in Hend as [Hend|Hend]; [lia|]. apply bool_decide_eq_true, fmap_None, last_None in Hend.
    rewrite Hend in Hlen. unfold KEYSET_PAGE in Hlen. simpl in Hlen. lia.
  - apply orb_false_iff in Hend as [_ Hend]. apply bool_decide_eq_false in Hend.
    apply IH; [done|done| |].
    + rewrite fmap_app, last_app, fmap_last. by destruct (row_id <$> last page).
    + destruct Hid' as [Hin|[_ Hb]]; [by right|by left].
Qed.

Lemma last_page_bounds (l rest : list (string * columns)) y x :
  ascending (l ++ rest).*1 -> last l.*1 = Some y ->
  (x ∈ l.*1 -> String.le x y) /\ (x ∈ rest.*1 -> ~ String.le x y).
Proof.
  rewrite fmap_app. intros (Hs & Hl & _)%StronglySorted_app Hy.
  apply last_Some in Hy as (l' & Hl'). rewrite Hl' in *. split.
  - intros [Hx|Hx]%elem_of_app; [|by apply list_elem_of_singleton in Hx as ->].
    apply StronglySorted_app in Hl as (Hl & _ & _). specialize (Hl x y Hx ltac:(set_solver)).
    destruct (String.leb_total x y) as [Ht|Ht]; [by apply Is_true_true|].
    exfalso. by apply Hl, Is_true_true.
  - intros Hx. apply (Hs y x); [set_solver|done].
Qed.

(** What is left after a page is what the next cursor selects. *)
Lemma sorted_rows_beyond filters cursor r l rest y :
  sorted_rows (after_cursor filters cursor) r = l ++ rest -> last l.*1 = Some y ->
  sorted_rows (after_cursor filters (Some y)) r = rest.
Proof.
  intros Hl Hy. pose proof (ascending_sorted_rows (after_cursor filters cursor) r) as Ha. rewrite Hl in Ha.
  assert (forall x cols, (x, cols) ∈ rest <->
    r !! x = Some cols /\ matches (after_cursor filters (Some y)) x cols = true) as Hin.
  { intros x cols. rewrite matches_after. simpl.
    destruct (last_page_bounds l rest y x Ha Hy) as [Hle Hnle].
    assert ((x, cols) ∈ l ++ rest <-> r !! x = Some cols /\ matches (after_cursor filters cursor) x cols = true)
      as Hall by (by rewrite <- Hl, elem_sorted_rows).
    rewrite elem_of_app, matches_after in Hall. split.
    - intros Hx. destruct (proj1 Hall (or_intror Hx)) as (Hr & Hm & _). do 2 (split; [done|]).
      apply Hnle, list_elem_of_fmap. by exists (x, cols).
    - intros (Hr & Hm & Hb). destruct (proj2 Hall) as [Hx|Hx]; [|exfalso|done].
      + do 2 (split; [done|]). destruct cursor as [c|]; simpl; [|done]. intros Hc. apply Hb.
        etrans; [exact Hc|].
        assert (y ∈ l.*1) as Hyl by (apply last_Some in Hy as (l' & ->); set_solver).
        apply list_elem_of_fmap in Hyl as ([y' cy] & -> & Hyl).
        assert ((y', cy) ∈ l ++ rest) as Hy' by (apply elem_of_app; by left).
        rewrite <- Hl, elem_sorted_rows, matches_after in Hy'. destruct Hy' as (_ & _ & Hy'). simpl in *.
        destruct (String.leb_total c y') as [Ht|Ht]; [by apply Is_true_true|].
        exfalso. by apply Hy', Is_true_true.
      + apply Hb, Hle, list_elem_of_fmap. by exists (x, cols). }
  apply (StronglySorted_unique_strong id_le).
  - intros [x c1] [x' c2] H1%elem_sorted_rows H2%Hin Hle Hle'. unfold id_le in *. simpl in *.
    assert (x = x') as <- by by apply (anti_symm String.le). destruct H1 as [H1 _], H2 as [H2 _]. congruence.
  - apply sorted_rows_sorted.
  - pose proof (sorted_rows_sorted (after_cursor filters cursor) r) as Hs. rewrite Hl in Hs.
    by apply StronglySorted_app in Hs as (_ & _ & Hs).
  - apply NoDup_Permutation.
    + eapply NoDup_fmap_1, sorted_rows_nodup.
    + pose proof (sorted_rows_nodup (after_cursor filters cursor) r) as Hd. rewrite Hl, fmap_app in Hd.
      apply NoDup_app in Hd as (_ & _ & Hd). by eapply NoDup_fmap_1.
    + intros [x cols]. by rewrite Hin, elem_sorted_rows.
Qed.

(** A run that nobody disturbs: every call finds the rows of [s] and leaves them. *)
Definition undisturbed (s : state) (t : list happened) : Prop :=
  Forall (fun h => match h with Happened c r => call_step c s r s end) t.

(** The matching rows of a table have ids. *)
Definition named (table : string) (filters : list Filter) (s : state) : Prop :=
  forall id cols, rows s table !! id = Some cols -> matches filters id cols = true -> id <> "".

(** A run ended with the failure of a read of the table. *)
Definition read_failed {A} (table : string) (t : list happened) (r : option (WResult A)) : Prop :=
  exists e filters columns limit,
    r = Some (Err e) /\ Happened (ListById table filters columns limit) (Err e) ∈ t.

(** The page of a run is that of the rows, unless its read failed. *)
Lemma ran_page {A} s table filters cursor (k : WResult (list Row) -> prog A) t r :
  named table filters s -> undisturbed s t -> ran (page_after table filters None cursor ≫= k) t r ->
  exists h t', t = h :: t' /\ undisturbed s t' /\
    ((exists e, h = Happened (ListById table (after_cursor filters cursor) None (Z.to_nat KEYSET_PAGE)) (Err e) /\
        ran (k (Err e)) t' r) \/
     ran (k (Ok (map (fun p => row_of p.1 p.2) (page_of filters cursor (rows s table))))) t' r).
Proof.
  intros Hids Ht H. apply ran_do in H as (a & t' & -> & H). apply Forall_cons in Ht as [[_ Ha] Ht].
  eexists _, t'. split; [done|]. split; [done|]. destruct Ha as [(e & -> & _)| ->]; [left; by exists e|right].
  fold (after_cursor filters cursor) in H. set (page := map _ _) in H.
  assert (page = map (fun p => row_of p.1 p.2) (page_of filters cursor (rows s table))) as Hp by done.
  assert (existsb (fun record => is_empty (row_id record)) page = false) as Hne.
  { apply not_true_iff_false. intros (rec & Hin & He)%existsb_exists. apply is_empty_spec in He.
    rewrite Hp in Hin. apply in_map_iff in Hin as ([id cols] & <- & Hin). apply list_elem_of_In in Hin.
    apply page_elem in Hin as (Hr & Hm & _). by apply (Hids id cols Hr Hm). }
  rewrite <- Hp. simpl in H. rewrite Hne in H. exact H.
Qed.

(** C37. The keyset walk stops with everything: on a table of [n] matching rows
    that nobody writes meanwhile, every one with a non-empty id, one page more
    than [n / 1000] is enough fuel, and every run answers every matching row, in
    the order of the ids; only the failure of a read call makes it fail, and with
    the error of that call. *)
Theorem list_every_terminates fuel table filters s t r
  (Hids : named table filters s) (Hn : count_rows filters (rows s table) < KEYSET_PAGE * Z.of_nat fuel)
  (Ht : undisturbed s t) (Hran : ran (list_every fuel table filters) t r) :
  r = Some (Ok (map (fun p => row_of p.1 p.2) (sorted_rows filters (rows s table)))) \/ read_failed table t r.
Proof.
  rewrite <- length_sorted_rows in Hn. unfold list_every in Hran. set (rs := rows s table) in *.
  set (row := fun p : string * columns => row_of p.1 p.2).
  enough (forall rest done cursor t, sorted_rows filters rs = done ++ rest ->
    sorted_rows (after_cursor filters cursor) rs = rest ->
    Z.of_nat (length rest) < KEYSET_PAGE * Z.of_nat fuel -> undisturbed s t ->
    ran (walk fuel table filters (map row done) cursor) t r ->
    r = Some (Ok (map row (sorted_rows filters rs))) \/ read_failed table t r) as Hw
    by by apply (Hw (sorted_rows filters rs) [] None).
  clear Hn Ht Hran t. induction fuel as [|fuel IH]; intros rest done cursor t Hall Hrest Hlen Ht H; simpl in H; [lia|].
  destruct (ran_page s table filters cursor _ t r Hids Ht H) as (h & t' & -> & Ht' & [(e & -> & He)|Hpage]).
  { apply ran_done in He as [_ ->]. right. do 4 eexists. split; [done|]. by left. }
  fold row rs in Hpage. unfold page_of in Hpage. rewrite Hrest in Hpage. set (n := Z.to_nat KEYSET_PAGE) in Hpage.
  rewrite <- map_app, length_map, length_take in Hpage.
  destruct (orb _ _) eqn:Hend.
  - apply ran_done in Hpage as [_ ->]. left. do 3 f_equal. rewrite Hall. f_equal.
    apply take_ge. apply orb_true_iff in Hend as [Hend|Hend]; [apply Z.ltb_lt in Hend; unfold n, KEYSET_PAGE in *; lia|].
    apply bool_decide_eq_true, fmap_None, last_None, map_eq_nil in Hend.
    apply (f_equal length) in Hend. rewrite length_take, length_nil in Hend. unfold n, KEYSET_PAGE in *. lia.
  - apply orb_false_iff in Hend as [Hfull Hne]. apply Z.ltb_ge in Hfull. apply bool_decide_eq_false in Hne.
    rewrite <- fmap_last in Hpage, Hne. change (map row (take n rest)) with (row <$> take n rest) in *.
    rewrite <- list_fmap_compose in Hpage, Hne. change (row_id ∘ row) with (@fst string columns) in *.
    destruct (last (take n rest).*1) as [y|] eqn:Hy; [|done].
    destruct (IH (drop n rest) (done ++ take n rest) (Some y) t') as [?|(e & f & c & l & ? & Hin)].
    + by rewrite Hall, <- app_assoc, take_drop.
    + apply (sorted_rows_beyond filters cursor rs (take n rest)); [|done]. by rewrite take_drop.
    + rewrite length_drop. unfold n, KEYSET_PAGE in *. lia.
    + done.
    + done.
    + by left.
    + right. exists e, f, c, l. split; [done|]. by right.
Qed.
End Walk.

(** ** Witnesses *)
Definition sample_rows : state := {["t" := {["a" := ∅]}]}.

Lemma list_every_misses_nothing_witness :
  safe (keeps "t" [] "a") (fun r _ => forall l, r = Some (Ok l) -> ascending (row_id <$> l) /\ "a" ∈ row_id <$> l)
    (list_every 2 "t" []) sample_rows.
Proof.
  apply (list_every_misses_nothing 2 "t" [] "a" sample_rows).
  exists ∅. unfold rows, sample_rows. by rewrite lookup_singleton_eq.
Defined.

(** The walk on its own in memory is a run that nobody disturbs. *)
Lemma walk_undisturbed `{Services} fuel table filters all cursor s :
  undisturbed (B:=memory_backend) s (run_traced (walk fuel table filters all cursor) s).1.
Proof.
  revert all cursor. induction fuel as [|fuel IH]; intros all cursor; [constructor|]. constructor.
  - apply (call_run_step (ListById _ _ _ _) s).
  - cbn [call_run fst snd]. set (page := map _ _). destruct (existsb _ page); [constructor|]. cbn [prog_bind].
    destruct (_ || _); [constructor|]. apply IH.
Qed.

Lemma named_check `{JsonNumbers} {B : Backend} table filters s :
  forallb (fun p => negb (is_empty p.1)) (map_to_list (rows s table)) = true -> named table filters s.
Proof.
  rewrite forallb_forall. intros Hall id cols Hr%elem_of_map_to_list%list_elem_of_In _ ->. by specialize (Hall _ Hr).
Qed.

(** A table of two pages. *)
Definition many_rows : state := set_rows ∅ "t" (list_to_map (map (fun n => (dec n, ∅)) (seqZ 0 1500))).
Definition many_walk := run_traced (list_every 2 "t" []) many_rows.

Lemma list_every_terminates_witness :
  (length many_walk.1, match many_walk.2 with Some (Ok l) => length l | _ => 0%nat end) = (2, 1500)%nat /\
  (many_walk.2 = Some (Ok (map (fun p => row_of p.1 p.2) (sorted_rows (B:=memory_backend) [] (rows many_rows "t")))) \/
   read_failed "t" many_walk.1 many_walk.2).
Proof.
  split; [vm_compute; reflexivity|].
  apply (list_every_terminates (B:=memory_backend) 2 "t" [] many_rows many_walk.1 many_walk.2).
  - apply named_check. vm_compute. reflexivity.
  - vm_compute. reflexivity.
  - apply walk_undisturbed.
  - exact (run_traced_ran (list_every 2 "t" []) many_rows).
Defined.
