(* ===== verification/Crud.v ===== *)
(** * Generic record handlers ([blocks/crud.rs])

    The primitives that do one database step each and answer a row or a refusal,
    and the owner-scoped ones built on them.  A handler for one user writes no
    row of another, at the very moment it writes, and its answer does not tell
    a row of another from a row that does not exist. *)
From Stdlib Require Import String.
From S2P Require Import Prelude Ints Str Contracts SampleLib Wafer Records Effects MemoryDb Interleaving Failures.

Section Crud.
Context {JN : JsonNumbers} {MS : Messages}.

(** [util::field_as_string] *)
Definition field_as_string (record : Row) (key : string) : string :=
  match row_data record !! key with
  | Some (VString s) => s
  | Some (VNumber n) => number_to_string n
  | _ => ""
  end.

(** [util::stamp_created] and [stamp_updated], at the time [now]. *)
Definition stamp_created (now : string) (data : columns) : columns :=
  let or_insert key (m : columns) := match m !! key with Some _ => m | None => <[key := VString now]> m end in
  or_insert "updated_at" (or_insert "created_at" data).
Definition stamp_updated (now : string) (data : columns) : columns := <["updated_at" := VString now]> data.

(** [Message::var]: what the router bound. *)
Definition msg_var (msg : Message) (var : string) : string :=
  get_meta msg (String.append META_REQ_PARAM_PREFIX var).

(** [Message::query] *)
Definition msg_query (msg : Message) (key : string) : string := get_meta msg (String.append "req.query." key).

Definition path_var (msg : Message) (var missing : string) : outcome OutputStream string :=
  let value := msg_var msg var in
  if is_empty value then Err (err_bad_request missing) else Ok value.

(** [str::to_lowercase] of the labels the blocks pass, which are ASCII. *)
Definition path_id (msg : Message) (not_found_label : string) : outcome OutputStream string :=
  path_var msg "id" (concat_chars ["Missing "; to_ascii_lowercase not_found_label; " ID"]).

(** [call.await.map_err(f)] *)
Definition await_err {R} (c : call (WResult R)) (f : WaferError -> OutputStream) : prog (outcome OutputStream R) :=
  r ← do_call c; Done (map_err f r).

Definition not_found_message (label : string) : string := String.append label " not found".
Definition row_error (label : string) (e : WaferError) : OutputStream :=
  db_error e (not_found_message label) "Database error".

Definition get_record (collection id not_found_label : string) : prog (outcome OutputStream Row) :=
  await_err (Get collection id) (row_error not_found_label).

Definition create_record (collection : string) (data : columns) : prog (outcome OutputStream Row) :=
  now ← now_rfc3339;
  created ←? await_err (Create collection (stamp_created now data))
               (fun e => db_error_internal e "Database error");
  await_err (Get collection (row_id created)) (fun e => db_error_internal e "Database error").

Definition update_record (collection id : string) (data : columns) (not_found_label : string)
  : prog (outcome OutputStream Row) :=
  now ← now_rfc3339;
  await_err (Update collection id (stamp_updated now data)) (row_error not_found_label).

(** The response body of a delete is the constant [Deleted::done]. *)
Definition delete_record (collection id not_found_label : string) : prog (outcome OutputStream unit) :=
  await_err (Delete collection id) (row_error not_found_label).

Record OwnedResource := { res_collection : string; res_owner_field : string; res_label : string }.

Definition verify_owner (collection id owner_field user_id not_found_label : string)
  : prog (outcome OutputStream Row) :=
  if is_empty user_id then Done (Err (err_unauthenticated "Not authenticated"))
  else
    r ← do_call (Get collection id);
    match r with
    | Ok record =>
        if negb (String.eqb (field_as_string record owner_field) user_id)
        then Done (Err (err_not_found (not_found_message not_found_label)))
        else Done (Ok record)
    | Err e => Done (Err (row_error not_found_label e))
    | Panic => Done Panic
    end.

Definition get_owned (msg : Message) (res : OwnedResource) : prog (outcome OutputStream Row) :=
  id ←! path_id msg (res_label res);
  verify_owner (res_collection res) id (res_owner_field res) (msg_user_id msg) (res_label res).

Definition update_owned (msg : Message) (res : OwnedResource) (data : columns)
  : prog (outcome OutputStream Row) :=
  id ←! path_id msg (res_label res);
  _ ←? verify_owner (res_collection res) id (res_owner_field res) (msg_user_id msg) (res_label res);
  update_record (res_collection res) id data (res_label res).

Definition delete_owned (msg : Message) (res : OwnedResource) : prog (outcome OutputStream unit) :=
  id ←! path_id msg (res_label res);
  _ ←? verify_owner (res_collection res) id (res_owner_field res) (msg_user_id msg) (res_label res);
  delete_record (res_collection res) id (res_label res).
End Crud.

(** ** Ownership *)
Section Ownership.
Context {JN : JsonNumbers} {MS : Messages} {B : Backend}.
Variables (res : OwnedResource) (owner : string -> string).

(** Every row has the owner its id was given for good. *)
Definition owners_stay (s : state) : Prop :=
  forall id cols, rows s (res_collection res) !! id = Some cols ->
    field_as_string (row_of id cols) (res_owner_field res) = owner id.
Definition ownership (s s' : state) : Prop := owners_stay s -> owners_stay s'.
#[export] Instance ownership_preorder : PreOrder ownership.
Proof. split; unfold ownership; [intros s H; exact H|intros s1 s2 s3; auto]. Qed.

(** The rows a call may write belong to [user]. *)
Definition writes_own (user : string) (table id : string) (s : state) : Prop :=
  table = res_collection res /\
  forall cols, rows s table !! id = Some cols ->
    field_as_string (row_of id cols) (res_owner_field res) = user.
Definition own_calls {A} (user : string) (p : prog A) (s : state) : Prop :=
  match p with
  | Done _ => True
  | Do c _ =>
      match c with
      | Get _ _ | GetByField _ _ _ | ListRows _ _ _ | ListById _ _ _ _ | ListPage _ _ _ _ _ _ | Now | Ask _ => True
      | Update table id _ | Delete table id => writes_own user table id s
      | _ => False
      end
  end.

(** A handler that does nothing but answer. *)
Lemma always_done {A} user (a : A) s : always ownership (own_calls user) (Done a) s.
Proof. done. Qed.

(** After the check the row is the requester's, for good. *)
Lemma always_verified {A} id user label s (k : outcome OutputStream Row -> prog A) :
  owners_stay s ->
  (forall r s', owners_stay s' -> (forall row, r = Ok row -> owner id = user) ->
     always ownership (own_calls user) (k r) s') ->
  always ownership (own_calls user)
    (verify_owner (res_collection res) id (res_owner_field res) user label ≫= k) s.
Proof.
  intros Hwf Hk. unfold verify_owner. destruct (is_empty user); simpl; [by apply Hk|].
  intros s1 H1. split; [done|]. intros r s2 [-> Hr]. split; [reflexivity|]. specialize (H1 Hwf).
  destruct Hr as [(e & -> & _)|[(i & cols & Hin & Hi & ->)|(e & -> & _)]]; simpl; try by apply Hk.
  apply String.eqb_eq in Hi as ->. rewrite (H1 _ _ Hin).
  destruct (String.eqb_spec (owner id) user); simpl; by apply Hk.
Qed.

Lemma owner_overlay data cols id key :
  data !! key = None -> field_as_string (row_of id (overlay data cols)) key = field_as_string (row_of id cols) key.
Proof. intros Hd. unfold field_as_string. simpl. unfold overlay. by rewrite lookup_union, Hd, (left_id None _). Qed.

Lemma owners_stay_set s (r : table_rows) :
  (forall id cols, r !! id = Some cols -> field_as_string (row_of id cols) (res_owner_field res) = owner id) ->
  owners_stay (set_rows s (res_collection res) r).
Proof. intros Hr id cols. unfold rows, set_rows. rewrite lookup_insert_eq. apply Hr. Qed.

Lemma update_keeps_owners id data s r s' :
  data !! res_owner_field res = None -> call_step (Update (res_collection res) id data) s r s' -> ownership s s'.
Proof.
  intros Hd Hc Hwf. simpl in Hc. destruct (rows s (res_collection res) !! id) as [cols|] eqn:Hr;
    [|by destruct Hc as [-> _]].
  enough (owners_stay (set_rows s (res_collection res) (<[id := overlay data cols]> (rows s (res_collection res)))))
    by (by destruct Hc as [[_ [->| ->]]|[_ ->]]).
  apply owners_stay_set. intros i c [[<- <-]|[_ Hi]]%lookup_insert_Some; [|by apply Hwf].
  rewrite owner_overlay by done. by apply Hwf.
Qed.

Lemma delete_keeps_owners id s r s' :
  call_step (Delete (res_collection res) id) s r s' -> ownership s s'.
Proof.
  intros Hc Hwf. simpl in Hc. destruct (rows s (res_collection res) !! id) as [cols|] eqn:Hr;
    [|by destruct Hc as [-> _]].
  enough (owners_stay (set_rows s (res_collection res) (delete id (rows s (res_collection res)))))
    by (by destruct Hc as [[_ [->| ->]]|[_ ->]]).
  apply owners_stay_set. intros i c [_ Hi]%lookup_delete_Some. by apply Hwf.
Qed.

(** C38. An owner-scoped handler writes nothing of another user: whatever other
    requests do between its check and its write, short of giving a row another
    owner, every row it is about to update or delete is the requester's, and
    its update leaves the owner column alone. *)
Theorem owned_writes_stay_own msg data s :
  owners_stay s -> data !! res_owner_field res = None -> res_owner_field res <> "updated_at" ->
  always ownership (own_calls (msg_user_id msg)) (update_owned msg res data) s /\
  always ownership (own_calls (msg_user_id msg)) (delete_owned msg res) s.
Proof.
  intros Hwf Hd Hf. set (user := msg_user_id msg).
  assert (forall id s', owner id = user -> ownership s s' -> writes_own user (res_collection res) id s') as Hown.
  { intros id s' Ho Hs. split; [done|]. intros cols Hr. rewrite <- Ho. by apply (Hs Hwf). }
  split; unfold update_owned, delete_owned; destruct (path_id msg (res_label res)) as [id|e|];
    try apply always_done; apply always_verified; try done;
    intros [row|e|] s1 H1 Ho; try apply always_done; specialize (Ho row eq_refl).
  - assert (forall now, stamp_updated now data !! res_owner_field res = None) as Hst
      by (intros now; unfold stamp_updated; by rewrite lookup_insert_ne).
    intros s2 H2. split; [done|]. intros now s3 ->. split; [reflexivity|].
    intros s3 H3. split; [split; [done|]; intros cols Hr; rewrite <- Ho; exact (H3 (H2 H1) _ _ Hr)|].
    intros r s4 Hc. split; [exact (update_keeps_owners id _ _ r s4 (Hst now) Hc)|done].
  - intros s2 H2. split; [split; [done|]; intros cols Hr; rewrite <- Ho; exact (H2 H1 _ _ Hr)|].
    intros r s3 Hc. split; [exact (delete_keeps_owners id _ r s3 Hc)|done].
Qed.

(** A row of another user answers exactly as a row that does not exist: if
    the database answers at all, both reads end in the same 404. *)
Theorem existence_is_not_leaked id user label s :
  user <> "" ->
  (rows s (res_collection res) !! id = None \/
   exists cols, rows s (res_collection res) !! id = Some cols /\
     field_as_string (row_of id cols) (res_owner_field res) <> user) ->
  safe eq (fun r _ => r = Err (err_not_found (not_found_message label)) \/
                      exists e, we_code e <> NotFound /\ r = Err (row_error label e))
    (verify_owner (res_collection res) id (res_owner_field res) user label) s.
Proof.
  intros Hu Hrow. unfold verify_owner. apply is_empty_false in Hu as ->. simpl.
  intros s' <- r s'' [-> Hr]. split; [done|].
  destruct Hr as [(e & -> & He)|[(i & cols & Hin & Hi & ->)|(e & -> & He & _)]]; simpl.
  - intros s' <-. right. by exists e.
  - apply String.eqb_eq in Hi as ->. destruct Hrow as [Hn|(cols' & Hr' & Hne)]; [congruence|].
    assert (cols' = cols) as -> by congruence. apply String.eqb_neq in Hne. rewrite Hne. simpl.
    intros s' <-. by left.
  - intros s' <-. left. unfold row_error, db_error, classify_db_error, is_call_budget_refusal. by rewrite He.
Qed.
End Ownership.

(** ** Witnesses *)
Definition product_of (user : string) : columns := {["user_id" := VString user]}.
Definition shop : state := {["products" := {["p1" := product_of "ann"]}]}.
Definition products : OwnedResource :=
  {| res_collection := "products"; res_owner_field := "user_id"; res_label := "Product" |}.
Definition request_by (user : string) : Message :=
  {| sm_action := "update"; sm_path := "/b/products/p1"; sm_user := user; sm_meta := [("req.param.id", "p1")] |}.

Lemma shop_row : rows shop "products" !! "p1" = Some (product_of "ann").
Proof. unfold rows, shop. by rewrite lookup_singleton_eq; simpl; rewrite lookup_singleton_eq. Qed.

Lemma shop_owner id cols : rows shop "products" !! id = Some cols ->
  field_as_string (row_of id cols) "user_id" = "ann".
Proof.
  unfold rows, shop. rewrite lookup_singleton_eq. simpl. intros [<- <-]%lookup_singleton_Some.
  unfold field_as_string. simpl. unfold product_of. by rewrite lookup_singleton_eq.
Qed.

Lemma owned_writes_stay_own_witness :
  always (ownership products (fun _ => "ann")) (own_calls products "bob")
    (delete_owned (request_by "bob") products) shop.
Proof.
  apply (owned_writes_stay_own products (fun _ => "ann") (request_by "bob") ∅ shop);
    [intros id cols; apply shop_owner|apply lookup_empty|discriminate].
Defined.

Lemma existence_is_not_leaked_witness :
  safe eq (fun r _ => r = Err (err_not_found "Product not found") \/
                      exists e, we_code e <> NotFound /\ r = Err (row_error "Product" e))
    (verify_owner "products" "p1" "user_id" "bob" "Product") shop.
Proof.
  apply (existence_is_not_leaked products "p1" "bob" "Product" shop); [discriminate|].
  right. exists (product_of "ann"). split; [apply shop_row|]. intros He.
  change (field_as_string (row_of "p1" (product_of "ann")) "user_id" = "bob") in He.
  rewrite (shop_owner "p1" _ shop_row) in He. discriminate He.
Defined.
