(* ===== verification/Messages.v ===== *)
(** * Messages ([blocks/messages/])

    Contexts (threads, tasks, notifications) and their entries: the service
    ([service.rs]) and the request handlers over it ([rest.rs]).  Every handler
    answers with rows of its caller and writes only those; the list of entries
    is the oldest page of them. *)
From Stdlib Require Import String.
From S2P Require Import Prelude Ints Str Contracts SampleLib Wafer Records Effects MemoryDb Interleaving Failures DbRead Crud.

(** ** Contracts *)
Inductive EntryKind := KindMessage | KindArtifact | KindNotification | KindStatus.
Inductive EntryRole := RoleOfUser | RoleOfAssistant | RoleOfSystem.
#[export] Instance entry_role_eq_dec : EqDecision EntryRole.
Proof. solve_decision. Defined.

Definition kind_str (k : EntryKind) : string :=
  match k with
  | KindMessage => "message" | KindArtifact => "artifact" | KindNotification => "notification"
  | KindStatus => "status"
  end.
Definition kind_parse : string -> option EntryKind :=
  parse_variant kind_str [KindMessage; KindArtifact; KindNotification; KindStatus].
Definition role_str (r : EntryRole) : string :=
  match r with RoleOfUser => "user" | RoleOfAssistant => "assistant" | RoleOfSystem => "system" end.
(** [agent] is read as [assistant]. *)
Definition role_parse (s : string) : option EntryRole :=
  if String.eqb s "agent" then Some RoleOfAssistant
  else parse_variant role_str [RoleOfUser; RoleOfAssistant; RoleOfSystem] s.

Lemma role_roundtrip r : role_parse (role_str r) = Some r.
Proof. by destruct r. Qed.

Section Bodies.
Context {JN : JsonNumbers}.

Record CreateContextRequest := {
  cc_type : string; cc_title : string; cc_sender_id : string; cc_recipient_id : string;
  cc_parent_id : option string; cc_metadata : option Value;
}.
Record UpdateContextRequest := {
  uc_status : option string; uc_title : option string; uc_metadata : option Value;
}.
Record AddEntryRequest := {
  ae_kind : EntryKind; ae_role : EntryRole; ae_sender_id : string; ae_content : string;
  ae_content_type : option string; ae_metadata : option Value;
}.

(** [serde_json]: parsing a text, and reading the three bodies off a value; the
    error is its text.  [url::form_urlencoded::parse]. *)
Class MessagesBodies := {
  json_from_slice : string -> outcome string Value;
  form_pairs : string -> list (string * string);
  create_context_body : Value -> outcome string CreateContextRequest;
  update_context_body : Value -> outcome string UpdateContextRequest;
  add_entry_body : Value -> outcome string AddEntryRequest;
}.

(** [Message::pagination_params]: page, page size and offset. *)
Class Pagination `{Messages} := pagination_params : Message -> nat -> nat * nat * nat.
End Bodies.
Arguments MessagesBodies {JN}.

(** ** Service *)
Section Service.
Context {JN : JsonNumbers}.

Definition CONTEXTS_TABLE : string := "impresspress__messages__contexts".
Definition ENTRIES_TABLE : string := "impresspress__messages__entries".

Definition equal_filter (f : string) (v : string) : Filter :=
  {| field := f; operator := OpEqual; value := VString v |}.
Definition maybe_eq (f : string) (v : option string) : option Filter := equal_filter f <$> v.
Definition empty_object : Value := VObject [].

Definition create_context (owner_id : string) (b : CreateContextRequest) : prog (WResult Row) :=
  let data : columns :=
    <["type" := VString (cc_type b)]> (<["status" := VString "active"]> (<["title" := VString (cc_title b)]>
    (<["owner_id" := VString owner_id]> (<["sender_id" := VString (cc_sender_id b)]>
    (<["recipient_id" := VString (cc_recipient_id b)]>
    (<["metadata" := default empty_object (cc_metadata b)]> ∅)))))) in
  let data := match cc_parent_id b with Some pid => <["parent_id" := VString pid]> data | None => data end in
  now ← now_rfc3339;
  do_call (Create CONTEXTS_TABLE (stamp_created now data)).

Record ListContextsParams := {
  lc_owner_id : option string; lc_type : option string; lc_status : option string;
  lc_sender_id : option string; lc_parent_id : option string; lc_page_size : nat; lc_offset : nat;
}.
Definition list_contexts (p : ListContextsParams) : prog (WResult (list Row * Z)) :=
  let filters := omap (fun q => maybe_eq q.1 q.2)
    [("owner_id", lc_owner_id p); ("type", lc_type p); ("status", lc_status p);
     ("sender_id", lc_sender_id p); ("parent_id", lc_parent_id p)] in
  do_call (ListPage CONTEXTS_TABLE filters "updated_at" true (lc_page_size p) (lc_offset p)).

Definition update_context (id : string) (b : UpdateContextRequest) : prog (WResult Row) :=
  let insert_some key (v : option Value) (data : columns) :=
    match v with Some v => <[key := v]> data | None => data end in
  let data := insert_some "metadata" (uc_metadata b)
    (insert_some "title" (VString <$> uc_title b) (insert_some "status" (VString <$> uc_status b) ∅)) in
  now ← now_rfc3339;
  do_call (Update CONTEXTS_TABLE id (stamp_updated now data)).

(** The count of [delete_by_filters] is not read. *)
Definition delete_context (id : string) : prog (WResult unit) :=
  _ ←? do_call (DeleteByFiltersCount ENTRIES_TABLE [equal_filter "context_id" id]);
  do_call (Delete CONTEXTS_TABLE id).

Definition entry_data (owner_id context_id now : string) (b : AddEntryRequest) : columns :=
  <["context_id" := VString context_id]> (<["kind" := VString (kind_str (ae_kind b))]>
  (<["role" := VString (role_str (ae_role b))]> (<["status" := VString ""]>
  (<["owner_id" := VString owner_id]> (<["sender_id" := VString (ae_sender_id b)]>
  (<["content" := VString (ae_content b)]>
  (<["content_type" := VString (default "text/plain" (ae_content_type b))]>
  (<["metadata" := default empty_object (ae_metadata b)]> (<["created_at" := VString now]> ∅))))))))).

Definition add_entry (owner_id context_id : string) (b : AddEntryRequest) : prog (WResult Row) :=
  now ← now_rfc3339;
  record ←? do_call (Create ENTRIES_TABLE (entry_data owner_id context_id now b));
  later ← now_rfc3339;
  _ ← do_call (Update CONTEXTS_TABLE context_id (stamp_updated later ∅));
  Done (Ok record).

Record ListEntriesParams := {
  le_kind : option EntryKind; le_role : option EntryRole; le_page_size : nat; le_offset : nat;
}.
Definition entry_filters (context_id : string) (p : ListEntriesParams) : list Filter :=
  equal_filter "context_id" context_id ::
  match le_kind p with Some k => [equal_filter "kind" (kind_str k)] | None => [] end ++
  match le_role p with Some r => [equal_filter "role" (role_str r)] | None => [] end.
Definition list_entries (context_id : string) (p : ListEntriesParams) : prog (WResult (list Row * Z)) :=
  do_call (ListPage ENTRIES_TABLE (entry_filters context_id p) "created_at" false (le_page_size p) (le_offset p)).
End Service.

(** ** Handlers *)
Section Handlers.
Context {JN : JsonNumbers} {MS : Messages} {MB : MessagesBodies} {PG : Pagination}.

Definition non_empty (s : string) : option string := if is_empty s then None else Some s.

(** [util::parse_body_value] *)
Fixpoint first_non_blank (s : string) : option ascii :=
  match s with
  | EmptyString => None
  | String.String c r => if existsb (Z.eqb (code c)) [32; 9; 10; 12; 13] then first_non_blank r else Some c
  end.
(** [util::parse_form_body]: the last value of a key counts. *)
Definition parse_form_body (data : string) : gmap string string := list_to_map (rev (form_pairs data)).
Definition form_object (data : string) : Value :=
  VObject (map (fun p => (p.1, VString p.2)) (map_to_list (parse_form_body data))).
Definition parse_body_value (data : string) : outcome string Value :=
  match first_non_blank data with
  | Some c => if Ascii.eqb c "{" || Ascii.eqb c "[" then json_from_slice data else Ok (form_object data)
  | None => Ok (form_object data)
  end.

Definition invalid_body (e : string) : OutputStream := err_bad_request (String.append "Invalid body: " e).
(** A body read, parsed and decoded. *)
Definition read_body {T} (raw : WResult string) (parse : string -> outcome string Value)
    (decode : Value -> outcome string T) : outcome OutputStream T :=
  bytes ← map_err OutputError raw;
  parsed ← map_err invalid_body (parse bytes);
  map_err invalid_body (decode parsed).

Definition enum_query {T} (parse : string -> option T) (msg : Message) (param : string) (error : string -> string)
  : outcome OutputStream (option T) :=
  let raw := msg_query msg param in
  if is_empty raw then Ok None
  else match parse raw with
       | Some t => Ok (Some t)
       | None => Err (err_bad_request (concat_chars ["Invalid `"; param; "` filter: "; error raw]))
       end.

Definition owned_record (msg : Message) (table label : string) : prog (outcome OutputStream Row) :=
  let id := msg_var msg "id" in
  if is_empty id then
    Done (Err (err_bad_request (concat_chars ["Missing "; to_ascii_lowercase label; " ID"])))
  else verify_owner table id "owner_id" (msg_user_id msg) label.

(** [map_err(f)] of a service result. *)
Definition served {A} (p : prog (WResult A)) (f : WaferError -> OutputStream) : prog (outcome OutputStream A) :=
  r ← p; Done (map_err f r).

(** The requests of the block, with the body as it was collected, and the text
    of serde's error for a filter that names no variant. *)
Inductive MessagesCall :=
| ListContexts
| CreateContext (raw : WResult string)
| GetContext
| UpdateContext (raw : WResult string)
| DeleteContext
| ListEntries
| AddEntry (raw : WResult string)
| GetEntry
| DeleteEntry.

Context (variant_error : string -> string).

(** The handler of a request: the rows it answers with, and of a list the
    total; a delete answers no row. *)
Definition handle (c : MessagesCall) (msg : Message) : prog (outcome OutputStream (list Row * Z)) :=
  let one (p : prog (outcome OutputStream Row)) := (row ←? p; Done (Ok ([row], 1))) in
  match c with
  | ListContexts =>
      let '(_, page_size, offset) := pagination_params msg 20%nat in
      served (list_contexts {|
        lc_owner_id := Some (msg_user_id msg);
        lc_type := non_empty (msg_query msg "type");
        lc_status := non_empty (msg_query msg "status");
        lc_sender_id := non_empty (msg_query msg "sender_id");
        lc_parent_id := non_empty (msg_query msg "parent_id");
        lc_page_size := page_size; lc_offset := offset |})
        (fun e => db_error_internal e "list_contexts failed")
  | CreateContext raw =>
      body ←! read_body raw parse_body_value create_context_body;
      one (served (create_context (msg_user_id msg) body) (fun e => db_error_internal e "create_context failed"))
  | GetContext => one (owned_record msg CONTEXTS_TABLE "Context")
  | UpdateContext raw =>
      record ←? owned_record msg CONTEXTS_TABLE "Context";
      body ←! read_body raw json_from_slice update_context_body;
      one (served (update_context (row_id record) body) (fun e => db_error e "Context not found" "Database error"))
  | DeleteContext =>
      record ←? owned_record msg CONTEXTS_TABLE "Context";
      _ ←? served (delete_context (row_id record)) (fun e => db_error e "Context not found" "delete_context failed");
      Done (Ok ([], 0))
  | ListEntries =>
      record ←? owned_record msg CONTEXTS_TABLE "Context";
      let '(_, page_size, offset) := pagination_params msg 100%nat in
      kind ←! enum_query kind_parse msg "kind" variant_error;
      role ←! enum_query role_parse msg "role" variant_error;
      served (list_entries (row_id record)
                {| le_kind := kind; le_role := role; le_page_size := page_size; le_offset := offset |})
        (fun e => db_error_internal e "list_entries failed")
  | AddEntry raw =>
      record ←? owned_record msg CONTEXTS_TABLE "Context";
      body ←! read_body raw parse_body_value add_entry_body;
      one (served (add_entry (msg_user_id msg) (row_id record) body) (fun e => db_error_internal e "add_entry failed"))
  | GetEntry => one (owned_record msg ENTRIES_TABLE "Entry")
  | DeleteEntry =>
      record ←? owned_record msg ENTRIES_TABLE "Entry";
      _ ←? delete_record ENTRIES_TABLE (row_id record) "Entry";
      Done (Ok ([], 0))
  end.
End Handlers.

(** ** Privacy *)
Section Privacy.
Context {JN : JsonNumbers} {MS : Messages} {MB : MessagesBodies} {PG : Pagination} {B : Backend} {BL : BackendLaws B}.
(** The owner of a context, by id, for good. *)
Variables (owner : string -> string) (variant_error : string -> string).

Definition text_col (cols : columns) (key v : string) : Prop := cols !! key = Some (VString v).
Definition contexts_owned (r : table_rows) : Prop :=
  map_Forall (fun id cols => text_col cols "owner_id" (owner id)) r.
(** An entry belongs to the owner of its context. *)
Definition entry_ok (cols : columns) : Prop :=
  exists c, text_col cols "context_id" c /\ text_col cols "owner_id" (owner c).
Definition entries_owned (r : table_rows) : Prop := map_Forall (fun _ => entry_ok) r.
Definition threads_wf (s : state) : Prop :=
  contexts_owned (rows s CONTEXTS_TABLE) /\ entries_owned (rows s ENTRIES_TABLE).

(** What others may do: anything that keeps the owners, and adds no entry to a
    context of someone else. *)
Definition keeps_owners (s s' : state) : Prop := threads_wf s -> threads_wf s'.
#[export] Instance keeps_owners_preorder : PreOrder keeps_owners.
Proof. split; unfold keeps_owners; [intros s H; exact H|intros s1 s2 s3; auto]. Qed.

Definition owned_by (user : string) (row : Row) : Prop := row_data row !! "owner_id" = Some (VString user).

Lemma threads_wf_contexts s r : threads_wf s -> contexts_owned r -> threads_wf (set_rows s CONTEXTS_TABLE r).
Proof.
  intros [_ He] Hr. split; unfold rows, set_rows; [by rewrite lookup_insert_eq|by rewrite lookup_insert_ne].
Qed.
Lemma threads_wf_entries s r : threads_wf s -> entries_owned r -> threads_wf (set_rows s ENTRIES_TABLE r).
Proof.
  intros [Hc _] Hr. split; unfold rows, set_rows; [by rewrite lookup_insert_ne|by rewrite lookup_insert_eq].
Qed.

Lemma update_context_keeps id data s r s' :
  data !! "owner_id" = None -> call_step (Update CONTEXTS_TABLE id data) s r s' -> keeps_owners s s'.
Proof.
  intros Hd Hc Hwf. simpl in Hc. destruct (rows s CONTEXTS_TABLE !! id) as [cols|] eqn:Hr; [|by destruct Hc as [-> _]].
  enough (threads_wf (set_rows s CONTEXTS_TABLE (<[id := overlay data cols]> (rows s CONTEXTS_TABLE))))
    by (by destruct Hc as [[_ [->| ->]]|[_ ->]]).
  apply threads_wf_contexts; [done|]. destruct Hwf as [Hco _]. apply map_Forall_insert_2; [|done].
  unfold text_col, overlay. rewrite lookup_union, Hd, (left_id None _). exact (Hco _ _ Hr).
Qed.

Lemma updated_owned id data s r s' row :
  threads_wf s -> data !! "owner_id" = None -> call_step (Update CONTEXTS_TABLE id data) s r s' -> r = Ok row ->
  owned_by (owner id) row.
Proof.
  intros [Hco _] Hd Hc ->. simpl in Hc. destruct (rows s CONTEXTS_TABLE !! id) as [cols|] eqn:Hr;
    [|by destruct Hc as (_ & e & ?)]. destruct Hc as [[(e & ? & _) _]|[[= ->] _]]; [done|].
  unfold owned_by. simpl. unfold overlay. rewrite lookup_union, Hd, (left_id None _). exact (Hco _ _ Hr).
Qed.

Lemma delete_keeps table filters s r s' :
  call_step (DeleteByFiltersCount table filters) s r s' -> keeps_owners s s'.
Proof.
  intros Hc Hwf. enough (threads_wf (set_rows s table (delete_rows filters (rows s table)))) as Hd
    by (simpl in Hc; by destruct Hc as [[_ [->| ->]]|[_ ->]]).
  destruct Hwf as [Hco He]. unfold threads_wf, rows, set_rows in *.
  split; (match goal with |- context [<[table := _]> s !! ?t] => destruct (decide (table = t)) as [->|] end;
    [rewrite lookup_insert_eq; cbn [default]; intros i x [Hi _]%map_lookup_filter_Some; eauto|by rewrite lookup_insert_ne]).
Qed.

Lemma delete_one_keeps table id s r s' : call_step (Delete table id) s r s' -> keeps_owners s s'.
Proof.
  intros Hc Hwf. simpl in Hc. destruct (rows s table !! id) as [cols|] eqn:Hr; [|by destruct Hc as [-> _]].
  enough (threads_wf (set_rows s table (delete id (rows s table)))) by (by destruct Hc as [[_ [->| ->]]|[_ ->]]).
  destruct Hwf as [Hco He]. unfold threads_wf, rows, set_rows in *.
  split; (match goal with |- context [<[table := _]> s !! ?t] => destruct (decide (table = t)) as [->|] end;
    [rewrite lookup_insert_eq; cbn [default]; by apply map_Forall_delete|by rewrite lookup_insert_ne]).
Qed.
Lemma create_entry_keeps user id now b s r s' :
  owner id = user -> call_step (Create ENTRIES_TABLE (entry_data user id now b)) s r s' -> keeps_owners s s'.
Proof.
  intros Ho Hc Hwf. simpl in Hc. destruct Hc as [[-> _]|(i & cols & Hi & Hd & _ & -> & _)]; [done|].
  apply threads_wf_entries; [done|]. destruct Hwf as [_ He]. apply map_Forall_insert_2; [|done]. exists id.
  split; (eapply lookup_weaken; [|exact Hd]); unfold entry_data;
    by rewrite ?lookup_insert_ne, lookup_insert_eq by done; rewrite ?Ho.
Qed.

Lemma created_entry_owned user id now b s r s' row :
  call_step (Create ENTRIES_TABLE (entry_data user id now b)) s r s' -> r = Ok row -> owned_by user row.
Proof.
  intros Hc ->. simpl in Hc. destruct Hc as [[_ (e & ?)]|(i & cols & _ & Hd & _ & _ & [[= ->]|(e & ? & _)])]; [done| |done].
  unfold owned_by. simpl. eapply lookup_weaken; [|exact Hd]. unfold entry_data.
  by rewrite !lookup_insert_ne, lookup_insert_eq by done.
Qed.

(** A page of rows that satisfy a text filter. *)
Lemma page_rows table filters sort desc limit offset s r s' l n :
  call_step (ListPage table filters sort desc limit offset) s r s' -> r = Ok (l, n) ->
  Forall (fun row => rows s table !! row_id row = Some (row_data row) /\
                     matches filters (row_id row) (row_data row) = true) l.
Proof.
  intros [-> [(e & -> & _)|(o & [Hperm _] & ->)]]; [done|]. intros [= <- <-].
  apply Forall_map, Forall_take, Forall_drop. rewrite Hperm. apply Forall_forall.
  intros [i cols] Hin%elem_of_map_to_list%map_lookup_filter_Some. done.
Qed.

(** ** Handlers *)
Abbreviation safely := (safe keeps_owners).
(** What a handler answers is its caller's. *)
Definition private (user : string) (r : outcome OutputStream (list Row * Z)) (_ : state) : Prop :=
  forall l n, r = Ok (l, n) -> Forall (owned_by user) l.

Lemma private_err user e s : private user (Err e) s.
Proof. by intros l n. Qed.
Lemma private_panic user s : private user Panic s.
Proof. by intros l n. Qed.

Lemma owned_record_context msg s :
  threads_wf s ->
  safely (fun r s' => threads_wf s' /\ forall row, r = Ok row -> owner (row_id row) = msg_user_id msg /\ owned_by (msg_user_id msg) row)
    (owned_record msg CONTEXTS_TABLE "Context") s.
Proof.
  intros Hwf. unfold owned_record. destruct (is_empty _); [intros s' Hs; split; [by apply Hs|done]|].
  unfold verify_owner. destruct (is_empty (msg_user_id msg)); [intros s' Hs; split; [by apply Hs|done]|].
  intros s1 H1 r s2 [-> Hr]. split; [reflexivity|]. specialize (H1 Hwf).
  destruct Hr as [(e & -> & _)|[(i & cols & Hin & Hi & ->)|(e & -> & _)]]; simpl;
    [intros s' Hs; split; [by apply Hs|done]| |intros s' Hs; split; [by apply Hs|done]].
  pose proof (proj1 H1 _ _ Hin) as Ho. unfold field_as_string. cbn [row_of row_data]. rewrite Ho.
  destruct (String.eqb_spec (owner i) (msg_user_id msg)) as [He|]; simpl;
    intros s' Hs; (split; [by apply Hs|]); [|done].
  intros row [= <-]. split; [done|]. unfold owned_by. simpl. by rewrite Ho, He.
Qed.

Lemma owned_record_entry msg s :
  threads_wf s ->
  safely (fun r s' => threads_wf s' /\ forall row, r = Ok row -> owned_by (msg_user_id msg) row)
    (owned_record msg ENTRIES_TABLE "Entry") s.
Proof.
  intros Hwf. unfold owned_record. destruct (is_empty _); [intros s' Hs; split; [by apply Hs|done]|].
  unfold verify_owner. destruct (is_empty (msg_user_id msg)); [intros s' Hs; split; [by apply Hs|done]|].
  intros s1 H1 r s2 [-> Hr]. split; [reflexivity|]. specialize (H1 Hwf).
  destruct Hr as [(e & -> & _)|[(i & cols & Hin & Hi & ->)|(e & -> & _)]]; simpl;
    [intros s' Hs; split; [by apply Hs|done]| |intros s' Hs; split; [by apply Hs|done]].
  destruct (proj2 H1 _ _ Hin) as (c & _ & Ho). unfold field_as_string. cbn [row_of row_data]. rewrite Ho.
  destruct (String.eqb_spec (owner c) (msg_user_id msg)) as [He|]; simpl;
    intros s' Hs; (split; [by apply Hs|]); [|done].
  intros row [= <-]. unfold owned_by. simpl. by rewrite Ho, He.
Qed.

Abbreviation handler c msg := (handle variant_error c msg).

(** A row that is answered after its check. *)
Lemma answer_one user (p : prog (outcome OutputStream Row)) s :
  safely (fun r _ => forall row, r = Ok row -> owned_by user row) p s ->
  safely (private user) (row ←? p; Done (Ok ([row], 1))) s.
Proof.
  intros Hp. eapply safe_try; [apply _|exact Hp|apply private_err|apply private_panic|].
  intros row s' _ Ho s2 _ l n [= <- <-]. constructor; [by apply Ho|done].
Qed.

Lemma served_safe {A} (Q : outcome OutputStream A -> state -> Prop) (p : prog (WResult A)) f s :
  safely (fun r s' => Q (map_err f r) s') p s -> safely Q (served p f) s.
Proof. apply safe_spawn. Qed.

(** The owner check in front of a handler of a context. *)
Lemma with_context msg s k :
  threads_wf s ->
  (forall row s', threads_wf s' -> owner (row_id row) = msg_user_id msg -> owned_by (msg_user_id msg) row ->
     safely (private (msg_user_id msg)) (k row) s') ->
  safely (private (msg_user_id msg)) (row ←? owned_record msg CONTEXTS_TABLE "Context"; k row) s.
Proof.
  intros Hwf Hk. eapply safe_bind; [apply _|by apply owned_record_context|].
  intros [row|e|] s' Hs [Hwf' Hr]; simpl; [|intros s2 _; apply private_err|intros s2 _; apply private_panic].
  destruct (Hr row eq_refl). by apply Hk.
Qed.
Lemma with_entry msg s k :
  threads_wf s ->
  (forall row s', threads_wf s' -> owned_by (msg_user_id msg) row -> safely (private (msg_user_id msg)) (k row) s') ->
  safely (private (msg_user_id msg)) (row ←? owned_record msg ENTRIES_TABLE "Entry"; k row) s.
Proof.
  intros Hwf Hk. eapply safe_bind; [apply _|by apply owned_record_entry|].
  intros [row|e|] s' Hs [Hwf' Hr]; simpl; [|intros s2 _; apply private_err|intros s2 _; apply private_panic].
  apply Hk; [done|]. by apply Hr.
Qed.

(** A refusal that needs no call. *)
Lemma private_check {A} user (m : outcome OutputStream A) k s :
  (forall a, safely (private user) (k a) s) -> safely (private user) (a ←! m; k a) s.
Proof. intros Hk. destruct m; simpl; [apply Hk|intros s' _; apply private_err|intros s' _; apply private_panic]. Qed.

(** A page of a table that a filter ties to the owner. *)
Lemma page_private table filters sort desc limit offset f user s :
  (forall s' i cols, threads_wf s' -> rows s' table !! i = Some cols -> matches filters i cols = true ->
     text_col cols "owner_id" user) ->
  threads_wf s ->
  safely (private user) (served (do_call (ListPage table filters sort desc limit offset)) f) s.
Proof.
  intros Hf Hwf. apply served_safe. intros s1 H1 r s2 Hc. specialize (H1 Hwf).
  assert (s2 = s1) as -> by (by destruct Hc). split; [reflexivity|]. intros s3 _ l n Hr.
  apply map_err_ok in Hr. eapply Forall_impl; [by eapply page_rows|]. intros row [Hrow Hm].
  by eapply (Hf s1).
Qed.

Lemma matches_context id p i cols c :
  matches (entry_filters id p) i cols = true -> text_col cols "context_id" c -> c = id.
Proof.
  unfold matches, entry_filters, equal_filter. cbn [forallb]. intros [Hm _]%andb_true_iff Hc.
  rewrite (holds_equal_text _ i cols c id) in Hm by done. by apply String.eqb_eq in Hm.
Qed.

Lemma list_contexts_private msg s :
  threads_wf s -> safely (private (msg_user_id msg)) (handler ListContexts msg) s.
Proof.
  intros Hwf. cbn [handle]. destruct (pagination_params msg 20%nat) as [[page size] offset].
  apply page_private; [|done]. intros s' i cols Hwf' Hi Hm. pose proof (proj1 Hwf' _ _ Hi) as Ho.
  cbn [omap list_omap maybe_eq lc_owner_id fmap option_fmap option_map fst snd] in Hm. unfold matches in Hm.
  cbn [forallb] in Hm. apply andb_true_iff in Hm as [Hm _]. unfold equal_filter in Hm.
  rewrite (holds_equal_text _ i cols (owner i) (msg_user_id msg)) in Hm by done.
  apply String.eqb_eq in Hm. by rewrite <- Hm.
Qed.

Lemma list_entries_private msg s :
  threads_wf s -> safely (private (msg_user_id msg)) (handler ListEntries msg) s.
Proof.
  intros Hwf. cbn [handle]. apply with_context; [done|]. intros row s' Hwf' Ho _.
  destruct (pagination_params msg 100%nat) as [[page size] offset].
  apply private_check. intros kind. apply private_check. intros role. apply page_private; [|done].
  intros s1 i cols Hwf1 Hi Hm. destruct (proj2 Hwf1 _ _ Hi) as (c & Hc & Hown).
  rewrite (matches_context _ _ _ _ _ Hm Hc), Ho in Hown. done.
Qed.

Lemma update_context_private raw msg s :
  threads_wf s -> safely (private (msg_user_id msg)) (handler (UpdateContext raw) msg) s.
Proof.
  intros Hwf. cbn [handle]. apply with_context; [done|]. intros row s' Hwf' Ho _.
  apply private_check. intros body. apply answer_one, served_safe. unfold update_context. cbv zeta.
  set (data := match uc_metadata body with Some v => _ | None => _ end).
  assert (forall now, stamp_updated now data !! "owner_id" = None) as Hd.
  { intros now. unfold stamp_updated, data. rewrite lookup_insert_ne by done.
    destruct (uc_metadata body), (uc_title body), (uc_status body); simpl;
      by rewrite ?lookup_insert_ne by done. }
  intros s1 H1 now s2 ->. split; [reflexivity|]. intros s3 H3 r s4 Hc.
  specialize (H3 (H1 Hwf')). split; [by eapply update_context_keeps|]. intros s5 _ row' Hr.
  apply map_err_ok in Hr. rewrite <- Ho. by eapply updated_owned.
Qed.

Lemma delete_context_private msg s :
  threads_wf s -> safely (private (msg_user_id msg)) (handler DeleteContext msg) s.
Proof.
  intros Hwf. cbn [handle]. apply with_context; [done|]. intros row s' Hwf' _ _.
  eapply (safe_try _ (fun (_ : outcome OutputStream unit) (_ : state) => True)); [|apply private_err|apply private_panic|].
  - apply served_safe. unfold delete_context. intros s1 _ r s2 Hc. split; [by eapply delete_keeps|].
    destruct r as [n|e|]; simpl; [|by intros|by intros].
    intros s3 _ r s4 Hc'. split; [by eapply delete_one_keeps|]. by intros.
  - intros _ s1 _ _ s2 _ l n [= <- <-]. constructor.
Qed.

Lemma add_entry_private raw msg s :
  threads_wf s -> safely (private (msg_user_id msg)) (handler (AddEntry raw) msg) s.
Proof.
  intros Hwf. cbn [handle]. apply with_context; [done|]. intros row s' Hwf' Ho _.
  apply private_check. intros body. apply answer_one, served_safe. unfold add_entry.
  intros s1 H1 now s2 ->. split; [reflexivity|]. intros s3 H3 r s4 Hc. split; [by eapply create_entry_keeps|].
  destruct r as [record|e|]; simpl; [|by intros|by intros].
  pose proof (created_entry_owned _ _ _ _ _ _ _ _ Hc eq_refl) as Hrec.
  intros s5 H5 later s6 ->. split; [reflexivity|]. intros s7 H7 r s8 Hc'. split.
  - eapply update_context_keeps; [|exact Hc']. unfold stamp_updated. by rewrite lookup_insert_ne.
  - intros s9 _ row' [= <-]. done.
Qed.

Lemma delete_entry_private msg s :
  threads_wf s -> safely (private (msg_user_id msg)) (handler DeleteEntry msg) s.
Proof.
  intros Hwf. cbn [handle]. apply with_entry; [done|]. intros row s' Hwf' _.
  eapply (safe_try _ (fun (_ : outcome OutputStream unit) (_ : state) => True)); [|apply private_err|apply private_panic|].
  - intros s1 _ r s2 Hc. split; [by eapply delete_one_keeps|]. by intros.
  - intros _ s1 _ _ s2 _ l n [= <- <-]. constructor.
Qed.

(** *** Creating a context

    What a creation may do besides: add a context that is its caller's under an
    identifier that is free. *)
Definition adds_own (user : string) (s s' : state) : Prop :=
  exists id cols, rows s CONTEXTS_TABLE !! id = None /\ text_col cols "owner_id" user /\
    s' = set_rows s CONTEXTS_TABLE (<[id := cols]> (rows s CONTEXTS_TABLE)).
Definition creates_own (user : string) : state -> state -> Prop :=
  rtc (fun s s' => keeps_owners s s' \/ adds_own user s s').
Definition steps_of (c : MessagesCall) (user : string) : state -> state -> Prop :=
  match c with CreateContext _ => creates_own user | _ => keeps_owners end.

Lemma create_context_private raw msg s :
  safe (creates_own (msg_user_id msg)) (private (msg_user_id msg)) (handler (CreateContext raw) msg) s.
Proof.
  cbn [handle]. destruct (read_body raw parse_body_value create_context_body) as [body|e|]; cbn [prog_try];
    [|intros s' _; apply private_err|intros s' _; apply private_panic].
  unfold served, create_context, now_rfc3339. cbn [mbind prog_mbind prog_bind prog_try do_call].
  intros s1 _ now s2 ->. split; [apply rtc_refl|]. intros s3 _ r s4 Hc.
  match type of Hc with call_step (Create _ ?d) _ _ _ => set (data := d) in * end.
  assert (data !! "owner_id" = Some (VString (msg_user_id msg))) as Hown.
  { unfold data, stamp_created. by destruct (cc_parent_id body). }
  destruct Hc as [[-> (e & ->)]|(i & cols & Hi & Hd & _ & -> & Hr)].
  { split; [apply rtc_refl|]. intros s5 _. apply private_err. }
  pose proof (lookup_weaken _ _ _ _ Hown Hd) as Hcols. split.
  { apply rtc_once. right. by exists i, cols. }
  destruct Hr as [->|(e & -> & _)]; intros s5 _; [|apply private_err].
  intros l n [= <- <-]. by constructor.
Qed.

(** C17. Threads are private: whatever other requests of the interface do
    meanwhile, short of giving a context another owner or putting an entry into
    someone else's, a handler of the block's interface answers with rows of its
    caller only, and leaves every context and entry with its owner; to create a
    context adds one of the caller's under a free identifier.  The pages of
    the administrator, which show every user's threads, are not among these
    handlers. *)
Theorem threads_are_private c msg s (Hwf : threads_wf s) :
  safe (steps_of c (msg_user_id msg)) (private (msg_user_id msg)) (handler c msg) s.
Proof.
  destruct c as [|raw| |raw| | |raw| |]; cbn [steps_of]; [by apply list_contexts_private|apply create_context_private| | | | | | |].
  - cbn [handle]. eapply with_context; [done|]. by intros row s' _ _ Ho s2 _ l n [= <- <-]; constructor.
  - by apply update_context_private.
  - by apply delete_context_private.
  - by apply list_entries_private.
  - by apply add_entry_private.
  - cbn [handle]. eapply with_entry; [done|]. by intros row s' _ Ho s2 _ l n [= <- <-]; constructor.
  - by apply delete_entry_private.
Qed.
End Privacy.

(** ** The page of entries *)
Section OldestPage.
Context {JN : JsonNumbers} {B : Backend}.

Definition earlier (sort : string) (p q : string * columns) : Prop :=
  exists s t, p.2 !! sort = Some (VString s) /\ q.2 !! sort = Some (VString t) /\ ~ String.le t s.

(** An ascending page of [limit] rows has no row that [limit] others precede. *)
Lemma page_stops filters sort (r : table_rows) l limit p (older : list (string * columns)) :
  ordered_rows filters sort false r l -> NoDup older -> (limit <= length older)%nat ->
  Forall (fun q => r !! q.1 = Some q.2 /\ matches filters q.1 q.2 = true /\ earlier sort q p) older ->
  p ∉ take limit l.
Proof.
  intros [Hperm Hsort] Hnd Hlen Hold Hin.
  apply list_elem_of_split in Hin as (l1 & l2 & Hl).
  assert (length l1 < limit)%nat as Hshort.
  { pose proof (f_equal length Hl) as Hll. rewrite length_take, length_app in Hll. simpl in Hll. lia. }
  assert (exists l3, l = l1 ++ p :: l3) as [l3 Hl3].
  { exists (l2 ++ drop limit l). rewrite <- (take_drop limit l) at 1. rewrite Hl. by rewrite <- app_assoc. }
  rewrite Hl3 in Hsort. apply StronglySorted_app in Hsort as (_ & _ & Hp%StronglySorted_cons).
  assert (older ⊆+ l1) as Hsub; [|apply submseteq_length in Hsub; lia].
  apply NoDup_submseteq; [done|]. intros q Hq. rewrite Forall_forall in Hold.
  destruct (Hold q Hq) as (Hr & Hm & s & t & Hs & Ht & Hlt).
  assert (q ∈ l1 ++ p :: l3) as Hql.
  { rewrite <- Hl3, Hperm. destruct q. by apply elem_of_map_to_list, map_lookup_filter_Some. }
  apply elem_of_app in Hql as [?|[->|Hq3]%elem_of_cons]; [done| |].
  - rewrite Hs in Ht. injection Ht as ->. by destruct Hlt.
  - destruct Hp as [Hp _]. rewrite Forall_forall in Hp. specialize (Hp q Hq3). unfold column_le in Hp.
    rewrite Ht, Hs in Hp. done.
Qed.
Context {MS : Messages} {MB : MessagesBodies} {PG : Pagination} {BL : BackendLaws B}.

Lemma entry_matches context i cols :
  text_col cols "context_id" context -> text_col cols "kind" "message" ->
  forall size offset, matches (entry_filters context
    {| le_kind := Some KindMessage; le_role := None; le_page_size := size; le_offset := offset |}) i cols = true.
Proof.
  intros Hc Hk size offset. unfold matches, entry_filters, equal_filter. cbn [le_kind le_role forallb app].
  rewrite (holds_equal_text _ i cols context), (holds_equal_text _ i cols "message") by done.
  by rewrite !String.eqb_refl.
Qed.

(** The history a chat asks for is the oldest page of its thread: in a
    thread with a hundred earlier messages, the answer to
    [entries?kind=message] does not hold the message that was just stored, nor
    any later one. *)
Theorem history_is_the_oldest_page variant_error msg s page id new older
  (Hpage : pagination_params msg 100%nat = (page, 100%nat, 0%nat))
  (Hkind : msg_query msg "kind" = "message") (Hrole : msg_query msg "role" = "")
  (Hnew : rows s ENTRIES_TABLE !! id = Some new)
  (Hlen : (100 <= length older)%nat) (Hnd : NoDup older)
  (Hold : Forall (fun q => rows s ENTRIES_TABLE !! q.1 = Some q.2 /\ text_col q.2 "context_id" (msg_var msg "id") /\
                           text_col q.2 "kind" "message" /\ earlier "created_at" q (id, new)) older) :
  safe eq (fun r _ => forall l n, r = Ok (l, n) -> id ∉ row_id <$> l) (handle variant_error ListEntries msg) s.
Proof.
  cbn [handle]. eapply safe_bind with
    (Q := fun r s' => s' = s /\ forall row, r = Ok row -> row_id row = msg_var msg "id"); [apply _| |].
  - unfold owned_record, verify_owner. destruct (is_empty _); [by intros s' <-|].
    destruct (is_empty _); [by intros s' <-|]. intros s1 <- r s2 [-> Hr]. split; [done|].
    destruct Hr as [(e & -> & _)|[(i & cols & Hin & Hi & ->)|(e & -> & _)]]; simpl; [by intros s' <-| |by intros s' <-].
    apply String.eqb_eq in Hi as ->. destruct (negb _); simpl; intros s' <-; (split; [done|]); [done|].
    by intros row [= <-].
  - intros [row|e|] s' <- [_ Hr]; simpl; [|by intros s' <-|by intros s' <-]. specialize (Hr row eq_refl).
    rewrite Hpage. unfold enum_query. rewrite Hkind, Hrole. simpl.
    intros s1 <- r s2 [-> Hans]. split; [done|]. intros s3 <- l n Hl. apply map_err_ok in Hl.
    destruct Hans as [(e & -> & _)|(o & Ho & ->)]; [done|]. injection Hl as <- <-. rewrite drop_0.
    intros (row' & -> & Hrow)%list_elem_of_fmap. apply list_elem_of_In, in_map_iff in Hrow as ([i cols] & <- & Hin).
    apply list_elem_of_In in Hin. simpl in Hnew.
    assert (cols = new) as ->.
    { assert ((i, cols) ∈ o) as Hio by (rewrite <- (take_drop 100 o); apply elem_of_app; by left).
      rewrite (proj1 Ho) in Hio. apply elem_of_map_to_list, map_lookup_filter_Some in Hio as [Hio _]. simpl in *. congruence. }
    revert Hin. eapply page_stops; [exact Ho|exact Hnd|exact Hlen|]. eapply Forall_impl; [exact Hold|].
    intros q (Hq & Hqc & Hqk & He). split; [done|]. split; [|done]. rewrite Hr. by apply entry_matches.
Qed.
End OldestPage.

(** ** Concrete threads *)
#[export] Instance sample_bodies : MessagesBodies (JN:=sample_numbers) := {|
  json_from_slice := fun _ => Err "not JSON";
  form_pairs := fun s => [("content", s)];
  create_context_body := fun _ => Err "no type";
  update_context_body := fun _ => Err "not an object";
  add_entry_body := fun v => Ok {|
    ae_kind := KindMessage; ae_role := RoleOfUser; ae_sender_id := "";
    ae_content := default "" (c ← value_get "content" v; as_str c);
    ae_content_type := None; ae_metadata := None |};
|}.
#[export] Instance sample_pagination : Pagination (H:=sample_messages) := fun _ size => (1%nat, size, 0%nat).

Definition ann_thread : columns := {["owner_id" := VString "ann"]}.
Definition ann_entry (created_at : string) : columns :=
  <["owner_id" := VString "ann"]> (<["context_id" := VString "t"]> (<["kind" := VString "message"]>
  (<["created_at" := VString created_at]> ∅))).
Definition thread_request (user : string) : Message :=
  {| sm_action := "retrieve"; sm_path := "/b/messages/api/contexts/t/entries"; sm_user := user;
     sm_meta := [("req.param.id", "t"); ("req.query.kind", "message")] |}.

Definition small_thread : state :=
  {[CONTEXTS_TABLE := {["t" := ann_thread]}; ENTRIES_TABLE := {["m" := ann_entry "a"]}]}.

Lemma small_thread_wf : threads_wf (fun _ => "ann") small_thread.
Proof.
  split; unfold small_thread, rows.
  - rewrite lookup_insert_eq. simpl. by apply map_Forall_singleton.
  - rewrite lookup_insert_ne, lookup_singleton_eq by done. simpl. apply map_Forall_singleton. by exists "t".
Qed.

Lemma threads_are_private_witness :
  (row_id <$> default [] (match run_alone (handle (fun e => e) ListEntries (thread_request "ann")) small_thread with
                          | Ok r => Some r.1 | _ => None end)) = ["m"] /\
  safe (keeps_owners (fun _ => "ann")) (private "ann") (handle (fun e => e) ListEntries (thread_request "ann")) small_thread.
Proof.
  split; [vm_compute; reflexivity|].
  apply (threads_are_private (fun _ => "ann") (fun e => e) ListEntries (thread_request "ann") small_thread).
  apply small_thread_wf.
Defined.

Definition older_entries : list (string * columns) :=
  map (fun n => (String.append "m" (dec (Z.of_nat n)), ann_entry "a")) (seq 0 100).
Definition long_thread : state :=
  {[CONTEXTS_TABLE := {["t" := ann_thread]};
    ENTRIES_TABLE := <["new" := ann_entry "b"]> (list_to_map older_entries)]}.

Lemma older_keys : NoDup older_entries.*1.
Proof. apply (bool_decide_unpack _). vm_compute. done. Qed.

Lemma long_thread_entries : rows long_thread ENTRIES_TABLE = <["new" := ann_entry "b"]> (list_to_map older_entries).
Proof. unfold long_thread, rows. by rewrite lookup_insert_ne, lookup_singleton_eq by done. Qed.

Lemma older_entries_spec : Forall (fun q : string * columns =>
  rows long_thread ENTRIES_TABLE !! q.1 = Some q.2 /\ text_col q.2 "context_id" "t" /\
  text_col q.2 "kind" "message" /\ earlier "created_at" q ("new", ann_entry "b")) older_entries.
Proof.
  apply Forall_forall. intros [k cols] Hq. rewrite long_thread_entries. cbn [fst snd].
  pose proof (elem_of_list_to_map_1 _ _ _ older_keys Hq) as Hk.
  apply list_elem_of_In, in_map_iff in Hq as (n & [= <- <-] & _).
  split; [by rewrite lookup_insert_ne|]. split; [done|]. split; [done|]. exists "a", "b". repeat split. by intros [].
Qed.

Lemma history_is_the_oldest_page_witness :
  safe eq (fun r _ => forall l n, r = Ok (l, n) -> "new" ∉ row_id <$> l)
    (handle (fun e => e) ListEntries (thread_request "ann")) long_thread.
Proof.
  apply (history_is_the_oldest_page (fun e => e) (thread_request "ann") long_thread 1%nat "new" (ann_entry "b") older_entries);
    [reflexivity|reflexivity|reflexivity|by rewrite long_thread_entries, lookup_insert_eq|apply Nat.leb_le; reflexivity
    |exact (NoDup_fmap_1 fst _ older_keys)|exact older_entries_spec].
Defined.
