(* ===== verification/Traces.v ===== *)
(** * Runs and what they show

    A run of a handler ([ran]) answers each of its calls as it likes; the requests to
    other blocks and to the model are what the rest of the system sees of it.
    [comes_to] relates a handler, what was seen, and its result; a handler is
    inverted step by step along its monadic structure. *)
From Stdlib Require Import String.
From S2P Require Import Prelude Contracts SampleLib Wafer Records Llm Effects MemoryDb Failures Messages.

Section Trace.
Context {JN : JsonNumbers}.

(** What the client's world sees: requests to blocks and chats with a model. *)
Inductive chat_event :=
| AskedBlock (block : string) (request : BlockRequest) (answer : BlockAnswer)
| AskedModel (backend_id model : string) (messages : list ChatMessage) (max_tokens : option Z)
    (answer : WResult (list (WResult ChatChunk))).
Definition service_event {R} (q : service R) : R -> option chat_event :=
  match q in service R return R -> option chat_event with
  | AskBlock block request => fun a => Some (AskedBlock block request a)
  | LlmChat backend_id model messages max_tokens => fun a => Some (AskedModel backend_id model messages max_tokens a)
  | _ => fun _ => None
  end.
Definition event_of (h : happened) : option chat_event :=
  match h with
  | Happened c r =>
      match c in call R return R -> option chat_event with Ask q => service_event q | _ => fun _ => None end r
  end.
Definition chat_events (t : list happened) : list chat_event := omap event_of t.

(** A program that asks neither. *)
Fixpoint quiet {A} (p : prog A) : Prop :=
  match p with
  | Done _ => True
  | Do c k => (forall r, event_of (Happened c r) = None) /\ forall r, quiet (k r)
  end.

Lemma chat_events_cons h t : chat_events (h :: t) = option_list (event_of h) ++ chat_events t.
Proof. unfold chat_events. cbn [omap list_omap]. by destruct (event_of h). Qed.
Lemma quiet_ran {A} (p : prog A) t a : quiet p -> ran p t a -> chat_events t = [].
Proof.
  revert t. induction p as [b|R c k IH]; intros t Hq Hr; [by apply ran_done in Hr as [-> _]|].
  apply ran_do in Hr as (r & t' & -> & Hr). destruct Hq as [Hc Hk].
  rewrite chat_events_cons, (Hc r). eapply IH; [apply Hk|done].
Qed.
Lemma chat_events_app t1 t2 : chat_events (t1 ++ t2) = chat_events t1 ++ chat_events t2.
Proof. apply omap_app. Qed.

Lemma quiet_bind {A C} (p : prog A) (f : A -> prog C) : quiet p -> (forall a, quiet (f a)) -> quiet (p ≫= f).
Proof.
  intros Hp Hf. induction p as [a|R c k IH]; [apply Hf|]. destruct Hp as [Hc Hk].
  split; [exact Hc|]. intros r. apply IH, Hk.
Qed.
Lemma quiet_try {E A C} (p : prog (outcome E A)) (f : A -> prog (outcome E C)) :
  quiet p -> (forall a, quiet (f a)) -> quiet (prog_try p f).
Proof. intros Hp Hf. apply quiet_bind; [done|]. by intros [a|e|]; [apply Hf|..]. Qed.
Lemma quiet_served {A} (p : prog (WResult A)) f : quiet p -> quiet (served p f).
Proof. intros Hp. by apply quiet_bind. Qed.

(** What a run came to, with the calls [l] the client's world saw. *)
Definition comes_to {A} (p : prog A) (l : list chat_event) (a : A) : Prop :=
  exists t, ran p t a /\ chat_events t = l.

Lemma comes_done {A} (a b : A) l : comes_to (Done a) l b -> l = [] /\ b = a.
Proof. intros (t & [-> ->]%ran_done & <-). done. Qed.
Lemma comes_quiet {A} (p : prog A) l a : quiet p -> comes_to p l a -> l = [].
Proof. intros Hq (t & Hr & <-). by eapply quiet_ran. Qed.
Lemma comes_bind {A C} (p : prog A) (f : A -> prog C) l b :
  comes_to (p ≫= f) l b -> exists a l1 l2, l = l1 ++ l2 /\ comes_to p l1 a /\ comes_to (f a) l2 b.
Proof.
  intros (t & (a & t1 & t2 & -> & H1 & H2)%ran_bind & <-). exists a, (chat_events t1), (chat_events t2).
  rewrite chat_events_app. repeat split; eexists; eauto.
Qed.

(** A step of a handler: it went on with an answer, or it ended with the
    failure. *)
Lemma comes_try {E A C} (p : prog (outcome E A)) (f : A -> prog (outcome E C)) l r :
  comes_to (prog_try p f) l r ->
  (exists a l1 l2, l = l1 ++ l2 /\ comes_to p l1 (Ok a) /\ comes_to (f a) l2 r) \/
  ((forall c, r <> Ok c) /\ exists a, comes_to p l a /\ forall c, a <> Ok c).
Proof.
  intros (a & l1 & l2 & -> & H1 & H2)%comes_bind. destruct a as [a|e|].
  - left. eauto 7.
  - right. apply comes_done in H2 as [-> ->]. rewrite app_nil_r. eauto.
  - right. apply comes_done in H2 as [-> ->]. rewrite app_nil_r. eauto.
Qed.
Lemma comes_served {A} (p : prog (WResult A)) f l r :
  comes_to (served p f) l r -> exists a, comes_to p l a /\ r = map_err f a.
Proof.
  intros (a & l1 & l2 & -> & H1 & [-> ->]%comes_done)%comes_bind. rewrite app_nil_r. eauto.
Qed.
Lemma comes_asked {R} (q : service R) l a :
  comes_to (ask q) l a -> l = option_list (service_event q a).
Proof.
  intros (t & (r & t' & -> & [-> ->]%ran_done)%ran_do & <-).
  rewrite chat_events_cons. apply app_nil_r.
Qed.

(** A step that calls a service, one that asks nothing of interest, and one that
    needs no call. *)
Lemma comes_service {A C} (p : prog (WResult A)) g (f : A -> prog (outcome OutputStream C)) l r :
  comes_to (prog_try (served p g) f) l r ->
  (exists a l1 l2, l = l1 ++ l2 /\ comes_to p l1 (Ok a) /\ comes_to (f a) l2 r) \/
  ((forall c, r <> Ok c) /\ exists a, comes_to p l a /\ forall b, a <> Ok b).
Proof.
  intros [(a & l1 & l2 & -> & (b & H1 & Hb)%comes_served & H)|[Hno (a & (b & H1 & ->)%comes_served & Ha)]]%comes_try.
  - left. exists a, l1, l2. destruct b; naive_solver.
  - right. split; [done|]. exists b. split; [done|]. intros c ->. by eapply Ha.
Qed.
Lemma comes_quietly {E A C} (p : prog (outcome E A)) (f : A -> prog (outcome E C)) l r :
  quiet p -> comes_to (prog_try p f) l r ->
  (exists a, comes_to p [] (Ok a) /\ comes_to (f a) l r) \/ ((forall c, r <> Ok c) /\ l = []).
Proof.
  intros Hq [(a & l1 & l2 & -> & H1 & H)|[Hno (a & H1 & _)]]%comes_try;
    pose proof (comes_quiet _ _ _ Hq H1) as ->; eauto.
Qed.
Lemma comes_pure {E A C} (m : outcome E A) (f : A -> prog (outcome E C)) l r :
  comes_to (prog_try (Done m) f) l r ->
  (exists a, m = Ok a /\ comes_to (f a) l r) \/ ((forall c, r <> Ok c) /\ l = []).
Proof. intros [(a & [_ <-]%comes_done & H)|H]%comes_quietly; [eauto|eauto|done]. Qed.

End Trace.

Lemma run_traced_comes `{Services} {A} (p : prog A) s :
  comes_to p (chat_events (run_traced p s).1) (run_traced p s).2.
Proof. eexists. split; [|done]. apply run_traced_ran. Qed.
