(* ===== verification/ChatRoutes.v ===== *)
(** * The chat endpoints ([blocks/llm/mod.rs], [routes/chat.rs],
    [routes/streaming.rs], [repo/settings.rs])

    A chat turn: the user's message is stored, the history read back, the
    provider and model resolved, the model called, and its answer stored and
    published.  The block reaches the messages block and the model by calls; what
    it does is seen in the order of those calls. *)
From Stdlib Require Import String.
From S2P Require Import Prelude Ints Str Contracts SampleLib Wafer Records Llm Sse Effects MemoryDb Failures DbRead Crud Messages.

(** ** Per-thread overrides ([repo/settings.rs]) *)
Module ThreadSettings.
Section ThreadSettings.
Context {JN : JsonNumbers}.
Definition TABLE : string := "impresspress__llm__settings".

Record ThreadSettingRow := {
  ts_id : string; ts_thread_id : string; ts_provider_block : string; ts_model : string;
  ts_created_at : string; ts_updated_at : string;
}.
Definition from_record (record : Row) : ThreadSettingRow := {|
  ts_id := row_id record;
  ts_thread_id := str_field record "thread_id";
  ts_provider_block := str_field record "provider_block";
  ts_model := str_field record "model";
  ts_created_at := str_field record "created_at";
  ts_updated_at := str_field record "updated_at" |}.

Definition find_for_thread (thread_id : string) : prog (WResult (option ThreadSettingRow)) :=
  r ← do_call (GetByField TABLE "thread_id" (VString thread_id));
  Done match r with
       | Ok record => Ok (Some (from_record record))
       | Err error => if bool_decide (we_code error = NotFound) then Ok None else Err error
       | Panic => Panic
       end.

(** The rows the settings page lists, and whether there are more. *)
Definition list_all : prog (WResult (list ThreadSettingRow * bool)) :=
  capped ←? list_capped TABLE [];
  Done (Ok (map from_record (capped_rows capped), truncated capped)).

Definition insert (thread_id provider_block model : string) : prog (WResult ThreadSettingRow) :=
  let data : columns := <["thread_id" := VString thread_id]> (<["provider_block" := VString provider_block]>
                        (<["model" := VString model]> ∅)) in
  now ← now_rfc3339;
  record ←? do_call (Create TABLE (stamp_created now data));
  Done (Ok (from_record record)).

Definition update (row : ThreadSettingRow) (provider_block model : option string) : prog (WResult ThreadSettingRow) :=
  let data : columns :=
    <["thread_id" := VString (ts_thread_id row)]>
    (<["provider_block" := VString (default (ts_provider_block row) provider_block)]>
    (<["model" := VString (default (ts_model row) model)]>
    (<["created_at" := VString (ts_created_at row)]> ∅))) in
  now ← now_rfc3339;
  record ←? do_call (Update TABLE (ts_id row) (stamp_updated now data));
  Done (Ok (from_record record)).

Definition delete (id : string) : prog (WResult unit) := do_call (Delete TABLE id).
End ThreadSettings.
End ThreadSettings.

(** ** Configuration *)
Definition DEFAULT_PROVIDER_VAR : string := "IMPRESSPRESS__LLM__DEFAULT_PROVIDER".
Definition DEFAULT_MODEL_VAR : string := "IMPRESSPRESS__LLM__DEFAULT_MODEL".
Definition DEFAULT_MAX_TOKENS_VAR : string := "IMPRESSPRESS__LLM__DEFAULT_MAX_TOKENS".
Definition DEFAULT_PROVIDER : string := "impresspress/provider-llm".
Definition DEFAULT_MAX_TOKENS : Z := 4096.
Definition MAX_BUFFERED_RESPONSE_BYTES : Z := 1024 * 1024.

Section Config.
Context {JN : JsonNumbers}.

Definition default_max_tokens : prog (WResult Z) :=
  raw ←? ask (ConfigGetDefault DEFAULT_MAX_TOKENS_VAR "");
  if is_empty raw then Done (Ok DEFAULT_MAX_TOKENS)
  else Done (Ok match parse_u32 raw with
                | Some v => if 0 <? v then v else DEFAULT_MAX_TOKENS
                | None => DEFAULT_MAX_TOKENS
                end).

Definition resolve_provider (thread_id : string) (req_provider req_model : option string)
  : prog (WResult (string * string)) :=
  thread_setting ←? ThreadSettings.find_for_thread thread_id;
  let pinned f := (row ← thread_setting; let v := f row in if is_empty v then None else Some v) in
  let provider_block := default "" (or_else (pinned ThreadSettings.ts_provider_block) req_provider) in
  let model := default "" (or_else (pinned ThreadSettings.ts_model) req_model) in
  default_provider ←? ask (ConfigGetDefault DEFAULT_PROVIDER_VAR DEFAULT_PROVIDER);
  default_model ←? ask (ConfigGetDefault DEFAULT_MODEL_VAR "");
  Done (Ok (if is_empty provider_block then default_provider else provider_block,
            if is_empty model then default_model else model)).

(** [llm_target::DefaultTarget] *)
Record DefaultTarget := { dt_provider : option string; dt_model : option string; dt_max_tokens : option Z }.
Definition unconfigured : DefaultTarget := {| dt_provider := None; dt_model := None; dt_max_tokens := None |}.
Definition default_target : prog (WResult DefaultTarget) :=
  provider ←? ask (ConfigGetDefault DEFAULT_PROVIDER_VAR DEFAULT_PROVIDER);
  model ←? ask (ConfigGetDefault DEFAULT_MODEL_VAR "");
  if is_empty model || is_empty provider then Done (Ok unconfigured)
  else
    max_tokens ←? default_max_tokens;
    Done (Ok {| dt_provider := Some provider; dt_model := Some model; dt_max_tokens := Some max_tokens |}).

(** [llm_target::DefaultTarget::resolve], the reader of the published target. *)
Record ResolvedTarget := { rt_provider : string; rt_model : string; rt_max_tokens : Z }.
Inductive TargetGap := NotConfigured | MissingBudget.
Definition resolve_target (t : DefaultTarget) : outcome TargetGap ResolvedTarget :=
  let present (v : option string) := (s ← v; if is_empty s then None else Some s) in
  match present (dt_provider t), present (dt_model t) with
  | Some provider, Some model =>
      match dt_max_tokens t with
      | Some max_tokens =>
          if 0 <? max_tokens then Ok {| rt_provider := provider; rt_model := model; rt_max_tokens := max_tokens |}
          else Err MissingBudget
      | None => Err MissingBudget
      end
  | _, _ => Err NotConfigured
  end.

(** [contracts::LlmConfigResponse], [handle_get_config]. *)
Record LlmConfigResponse := { lc_default_provider : string; lc_default_model : string }.
Definition handle_get_config : prog (outcome OutputStream LlmConfigResponse) :=
  served (provider ←? ask (ConfigGetDefault DEFAULT_PROVIDER_VAR DEFAULT_PROVIDER);
          model ←? ask (ConfigGetDefault DEFAULT_MODEL_VAR "");
          Done (Ok {| lc_default_provider := provider; lc_default_model := model |}))
    (fun e => db_error_internal e "Could not read the default llm target").

Record ConfigUpdateRequest := {
  cu_thread_id : option string; cu_provider_block : option string; cu_model : option string;
  cu_default_provider : option string; cu_default_model : option string;
}.
Inductive ConfigUpdateResponse := Override (row : ThreadSettings.ThreadSettingRow) | Acknowledged.

Definition DEFAULTS_FROM_ENVIRONMENT : string :=
  "Global default provider/model must be set via environment variables: IMPRESSPRESS__LLM__DEFAULT_PROVIDER and IMPRESSPRESS__LLM__DEFAULT_MODEL".

(** [handle_post_config], its body read and decoded before. *)
Definition handle_post_config (body : outcome OutputStream ConfigUpdateRequest)
  : prog (outcome OutputStream ConfigUpdateResponse) :=
  body ←! body;
  _ ←! err_if (bool_decide (is_Some (cu_default_provider body)) || bool_decide (is_Some (cu_default_model body)))
         (err_bad_request DEFAULTS_FROM_ENVIRONMENT);
  match cu_thread_id body with
  | None => Done (Ok Acknowledged)
  | Some thread_id =>
      existing ←? served (ThreadSettings.find_for_thread thread_id) (fun e => db_error_internal e "Database error");
      written ← match existing with
                | Some row => ThreadSettings.update row (cu_provider_block body) (cu_model body)
                | None => ThreadSettings.insert thread_id (default "" (cu_provider_block body)) (default "" (cu_model body))
                end;
      Done (Override <$> Prelude.map_err (fun e => db_error_internal e "Database error") written)
  end.
End Config.

(** ** Calls to the messages block *)
Section Calls.
Context {JN : JsonNumbers} {MS : Messages} {MB : MessagesBodies}.

Definition forward_auth_meta (original : Message) : list (string * string) :=
  flat_map (fun key => let v := get_meta original key in if is_empty v then [] else [(key, v)])
    ["auth.user_id"; "auth.user_email"; "auth.user_roles"].

(** [util::block_request], and its body. *)
Definition block_request (action method resource : string) (original : Message) (body : option Value) : BlockRequest :=
  let '(path, query) := default (resource, "") (split_once "?" resource) in
  {| br_kind := concat_chars [action; ":"; path];
     br_meta :=
       [("req.action", action); ("req.resource", path); ("http.method", method); ("http.path", path);
        ("http.raw_query", query)] ++
       flat_map (fun p => [(String.append "http.query." p.1, p.2); (String.append "req.query." p.1, p.2)])
         (map_to_list (parse_form_body query)) ++
       forward_auth_meta original;
     br_body := body |}.

Definition answer_of (out : BlockAnswer) (what : string) : WResult Value :=
  match out with
  | AnswerError error => Err error
  | AnswerOther other =>
      Err (wafer_error Internal (concat_chars [what; ": the messages block did not answer: "; other]))
  | AnswerBody body =>
      Prelude.map_err (fun error => wafer_error Internal
        (concat_chars [what; ": could not decode the messages block's answer: "; error])) (json_from_slice body)
  end.

Definition records_of (out : BlockAnswer) (what : string) : WResult (list Value) :=
  answer ← answer_of out what;
  ok_or (v ← value_get "records" answer; as_array v)
    (wafer_error Internal (String.append what ": the messages block's answer has no `records` array")).

Definition MESSAGES_BLOCK : string := "impresspress/messages".

(** The request that stores a turn, and the id its answer names. *)
Definition entry_request (msg : Message) (context_id : string) (role : EntryRole) (content : string) : BlockRequest :=
  let request := block_request "create" "POST" (concat_chars ["/b/messages/api/contexts/"; context_id; "/entries"]) msg
    (Some (VObject [("kind", VString (kind_str KindMessage)); ("role", VString (role_str role));
                    ("content", VString content)])) in
  {| br_kind := br_kind request; br_meta := br_meta request ++ [("req.content_type", "application/json")];
     br_body := br_body request |}.
Definition stored_id (out : BlockAnswer) : WResult string :=
  answer ← answer_of out "entry write";
  ok_or
    (v ← or_else (value_get "id" answer) (d ← value_get "data" answer; value_get "id" d);
     id ← as_str v; if is_empty id then None else Some id)
    (wafer_error Internal "entry write: the messages block named no stored entry").
Definition messages_create (msg : Message) (context_id : string) (role : EntryRole) (content : string)
  : prog (WResult string) :=
  out ← ask (AskBlock MESSAGES_BLOCK (entry_request msg context_id role content));
  Done (stored_id out).

Definition history_request (msg : Message) (context_id : string) : BlockRequest :=
  block_request "retrieve" "GET" (concat_chars ["/b/messages/api/contexts/"; context_id; "/entries?kind=message"]) msg None.
Definition messages_list (msg : Message) (context_id : string) : prog (WResult (list Value)) :=
  out ← ask (AskBlock MESSAGES_BLOCK (history_request msg context_id));
  Done (records_of out "entry list").

Definition record_field (record : Value) (field : string) : string :=
  default "" (v ← or_else (data ← value_get "data" record; value_get field data) (value_get field record); as_str v).

(** The threads of the sidebar. *)
Record ContextView := { cv_id : string; cv_title : string; cv_updated_at : string }.
Definition messages_list_contexts (msg : Message) : prog (WResult (list ContextView)) :=
  out ← ask (AskBlock MESSAGES_BLOCK (block_request "retrieve" "GET" "/b/messages/api/contexts?page_size=50" msg None));
  Done (map (fun record => {|
    cv_id := default "" (v ← value_get "id" record; as_str v);
    cv_title := record_field record "title";
    cv_updated_at := record_field record "updated_at" |}) <$> records_of out "thread list").
End Calls.

(** ** A chat turn *)
Section Chat.
Context {JN : JsonNumbers} {MS : Messages} {MB : MessagesBodies}.

Definition chat_role (role : EntryRole) : ChatRole :=
  match role with
  | RoleOfUser => RoleUser | RoleOfAssistant => RoleAssistant | RoleOfSystem => RoleSystem
  end.
Definition build_text_message (role : ChatRole) (content : string) : ChatMessage := {|
  cm_role := match role with RoleTool => RoleUser | other => other end;
  cm_content := ContentText content; cm_tool_call_id := None; cm_tool_calls := [] |}.
Definition history_to_messages (history : list Value) : list ChatMessage :=
  omap (fun entry =>
    role ← role_parse (record_field entry "role");
    Some (build_text_message (chat_role role) (record_field entry "content"))) history.

Definition NO_PROVIDER : string :=
  "No LLM provider is enabled on this deployment: an admin must add and enable one on the LLM Providers page (/b/llm/providers)".

(** [providers]: the configured providers, in the order they are listed. *)
Definition resolve_backend_id (providers : list ProviderConfig) (provider_block : string)
  : outcome OutputStream string :=
  if negb (String.eqb provider_block DEFAULT_PROVIDER) then Ok provider_block
  else ok_or (pc_name <$> List.find pc_enabled providers) (err_unavailable NO_PROVIDER).

Definition chat_service_failed (e : WaferError) (context : string) : OutputStream :=
  match we_code e with Unavailable => OutputError e | _ => db_error_internal e context end.

(** [contracts::ChatRequest] *)
Record ChatBody := {
  cb_thread_id : string; cb_message : string; cb_provider : option string; cb_model : option string;
  cb_max_tokens : option Z;
}.
Class ChatBodies := chat_body_from_slice : string -> outcome string ChatBody.
Context {CB : ChatBodies}.

Record DispatchOutcome := { do_thread_id : string; do_model : string; do_stream : list (WResult ChatChunk) }.

Definition dispatch_chat (providers : list ProviderConfig) (msg : Message) (raw : WResult string)
  : prog (outcome OutputStream DispatchOutcome) :=
  bytes ←! Prelude.map_err OutputError raw;
  body ←! Prelude.map_err invalid_body (chat_body_from_slice bytes);
  _ ←! err_if (bool_decide (cb_max_tokens body = Some 0)) (err_bad_request "max_tokens must be greater than zero");
  _ ←? served (messages_create msg (cb_thread_id body) RoleOfUser (cb_message body))
         (fun e => db_error e "Thread not found" "Chat message");
  history ←? served (messages_list msg (cb_thread_id body)) (fun e => db_error_internal e "Chat history");
  resolved ←? served (resolve_provider (cb_thread_id body) (cb_provider body) (cb_model body))
                (fun e => db_error_internal e "resolve_provider failed");
  backend_id ←! resolve_backend_id providers resolved.1;
  max_tokens ←? match cb_max_tokens body with
                | Some requested => Done (Ok requested)
                | None => served default_max_tokens (fun e => db_error_internal e "Could not read the max-token budget")
                end;
  stream ←? served (ask (LlmChat backend_id resolved.2 (history_to_messages history) (Some max_tokens)))
              (fun e => chat_service_failed e "llm chat dispatch");
  Done (Ok {| do_thread_id := cb_thread_id body; do_model := resolved.2; do_stream := stream |}).

(** *** The buffered reply *)
Record Reply := { rp_content : string; rp_truncated : bool; rp_budget_exhausted : bool }.
Definition empty_reply : Reply := {| rp_content := ""; rp_truncated := false; rp_budget_exhausted := false |}.

(** A text delta: kept while it fits, and nothing after one that did not. *)
Definition append_text (truncated : bool) (content s : string) : bool * string :=
  if truncated || (MAX_BUFFERED_RESPONSE_BYTES <? str_len content + str_len s) then (true, content)
  else (truncated, String.append content s).

Definition take_chunk (r : Reply) (chunk : ChatChunk) : Reply :=
  let budget := rp_budget_exhausted r || bool_decide (finish_reason chunk = Some FinishLength) in
  match delta chunk with
  | DeltaText s =>
      let '(truncated, content) := append_text (rp_truncated r) (rp_content r) s in
      {| rp_content := content; rp_truncated := truncated; rp_budget_exhausted := budget |}
  | _ => {| rp_content := rp_content r; rp_truncated := rp_truncated r; rp_budget_exhausted := budget |}
  end.
Fixpoint drain_stream (r : Reply) (stream : list (WResult ChatChunk)) : WResult Reply :=
  match stream with
  | [] => Ok r
  | item :: stream => chunk ← item; drain_stream (take_chunk r chunk) stream
  end.

Record ChatResponse := {
  resp_content : string; resp_message_id : string; resp_model : string; resp_truncated : bool;
}.
Definition handle_chat (providers : list ProviderConfig) (msg : Message) (raw : WResult string)
  : prog (outcome OutputStream ChatResponse) :=
  dispatched ←? dispatch_chat providers msg raw;
  reply ←! Prelude.map_err (fun e => chat_service_failed e "llm service error")
             (drain_stream empty_reply (do_stream dispatched));
  message_id ←? served (messages_create msg (do_thread_id dispatched) RoleOfAssistant (rp_content reply))
                  (fun error => db_error_internal error "Chat reply");
  Done (Ok {| resp_content := rp_content reply; resp_message_id := message_id; resp_model := do_model dispatched;
              resp_truncated := rp_truncated reply || rp_budget_exhausted reply |}).

(** *** The streamed reply ([sse.rs]) *)
(** [json_frame]: a chunk as JSON, [None] when it does not encode. *)
Class ChunkJson := chunk_to_vec : ChatChunk -> option string.
Context {CJ : ChunkJson}.

Inductive Frame := FOpen | FData (json : string) | FDone | FError.
Definition frame_bytes (f : Frame) : string :=
  match f with
  | FOpen => String.append ": open" blank_line
  | FData json => concat_chars ["data: "; json; blank_line]
  | FDone => String.append "data: [DONE]" blank_line
  | FError => concat_chars ["event: error"; nl; "data: {}"; blank_line]
  end.

(** The client of a stream: how many frames it takes before a send fails, and
    before which item, if any, a pull finds it gone. *)
Record Client := { frames_taken : nat; gone_at : option nat }.

(** The frames that were received, and what the loop ended with: the producer
    returned, or the stream ended with [content] to be stored, [room] frames
    still being taken. *)
Inductive LoopEnd := Returned | Failed (room : nat) | Natural (room : nat) (content : string).
Fixpoint sse_loop (room : nat) (gone : option nat) (content : string) (truncated : bool)
    (stream : list (WResult ChatChunk)) {struct stream} : list Frame * LoopEnd :=
  if bool_decide (gone = Some 0%nat) then ([], Returned)
  else
    match stream with
    | [] => ([], Natural room content)
    | Ok chunk :: stream =>
        let '(truncated, content) :=
          match delta chunk with
          | DeltaText s => append_text truncated content s
          | _ => (truncated, content)
          end in
        match chunk_to_vec chunk with
        | None => ([], Failed room)
        | Some json =>
            match room with
            | O => ([], Returned)
            | S room =>
                let r := sse_loop room (pred <$> gone) content truncated stream in
                (FData json :: r.1, r.2)
            end
        end
    | _ :: _ => ([], Failed room)
    end.

(** [EventSink::finish] *)
Definition finish_frame (room : nat) (f : Frame) : list Frame := match room with O => [] | S _ => [f] end.

(** [event_stream] with the producer of [sse_chat_response]. *)
Definition sse_chat_response (client : Client) (stream : list (WResult ChatChunk)) (msg : Message) (thread_id : string)
  : prog (list Frame) :=
  match frames_taken client with
  | O => Done []
  | S room =>
      let '(sent, ended) := sse_loop room (gone_at client) "" false stream in
      match ended with
      | Returned => Done (FOpen :: sent)
      | Failed room => Done (FOpen :: sent ++ finish_frame room FError)
      | Natural room content =>
          r ← messages_create msg thread_id RoleOfAssistant content;
          Done (FOpen :: sent ++ finish_frame room (match r with Ok _ => FDone | _ => FError end))
      end
  end.

Definition handle_chat_stream (providers : list ProviderConfig) (client : Client) (msg : Message) (raw : WResult string)
  : prog (outcome OutputStream (list Frame)) :=
  dispatched ←? dispatch_chat providers msg raw;
  match do_stream dispatched with
  | Err e :: _ => Done (Err (chat_service_failed e "llm service error"))
  | stream => spawn Ok (sse_chat_response client stream msg (do_thread_id dispatched))
  end.
End Chat.
