(* ===== verification/ChatSafety.v ===== *)
(** * The chat endpoints: what is stored and what is published

    The order of a chat turn's requests, over every run of the handlers of
    [ChatRoutes], whatever the messages block, the database and the model
    answer: the user's turn is stored before the model is asked, and a reply is
    published only once it is stored. *)
From Stdlib Require Import String.
From S2P Require Import Prelude Ints Str Contracts SampleLib Wafer Records Llm Effects MemoryDb Failures DbRead Crud Messages Traces ChatRoutes.

Section Turn.
Context {JN : JsonNumbers} {MS : Messages} {MB : MessagesBodies} {CB : ChatBodies}.

Lemma default_max_tokens_quiet : quiet default_max_tokens.
Proof. apply quiet_try; [done|]. intros raw. by destruct (is_empty raw). Qed.
Lemma resolve_provider_quiet thread_id provider model : quiet (resolve_provider thread_id provider model).
Proof. repeat (apply quiet_try; [|intros ?]); done. Qed.

Lemma default_max_tokens_pos l n : comes_to default_max_tokens l (Ok n) -> 0 < n.
Proof.
  intros [(raw & l1 & l2 & _ & _ & H)|[Hno _]]%comes_try; [|by edestruct Hno].
  destruct (is_empty raw); apply comes_done in H as [_ [= ->]]; [done|].
  destruct (parse_u32 raw) as [v|]; [|done]. by destruct (Z.ltb_spec 0 v).
Qed.
(** A published target is unconfigured or resolves: its readers never find a
    budget missing. *)
Lemma published_target_resolves l target :
  comes_to default_target l (Ok target) -> target = unconfigured \/ exists r, resolve_target target = Ok r.
Proof.
  intros [(provider & l1 & l2 & _ & _ & H)|[Hno _]]%comes_try; [|by edestruct Hno].
  apply comes_try in H as [(model & l3 & l4 & _ & _ & H)|[Hno _]]; [|by edestruct Hno].
  destruct (is_empty model) eqn:Hm, (is_empty provider) eqn:Hp; try (apply comes_done in H as [_ [= ->]]; by left).
  apply comes_try in H as [(n & l5 & l6 & _ & Hn & [_ [= ->]]%comes_done)|[Hno _]]; [|by edestruct Hno].
  right. unfold resolve_target. cbn. rewrite Hm, Hp. cbn.
  apply default_max_tokens_pos in Hn as Hpos.
  apply Z.ltb_lt in Hpos as ->. by eexists.
Qed.

(** The requests of a turn whose model was asked: the user's message was
    stored, the history was read after it, and the model got that history with a
    budget that is not zero. *)
Definition turn_taken (msg : Message) (raw : WResult string) (l : list chat_event) (body : ChatBody)
    (answer : WResult (list (WResult ChatChunk))) : Prop :=
  exists bytes turn id heard records backend_id model budget,
    raw = Ok bytes /\ chat_body_from_slice bytes = Ok body /\
    l = [AskedBlock MESSAGES_BLOCK (entry_request msg (cb_thread_id body) RoleOfUser (cb_message body)) turn;
         AskedBlock MESSAGES_BLOCK (history_request msg (cb_thread_id body)) heard;
         AskedModel backend_id model (history_to_messages records) (Some budget) answer] /\
    stored_id turn = Ok id /\ records_of heard "entry list" = Ok records /\ budget <> 0.

Definition to_block (e : chat_event) : Prop := match e with AskedBlock _ _ _ => True | AskedModel _ _ _ _ _ => False end.

Lemma create_comes msg context_id role content l a :
  comes_to (messages_create msg context_id role content) l a ->
  exists out, l = [AskedBlock MESSAGES_BLOCK (entry_request msg context_id role content) out] /\ a = stored_id out.
Proof.
  intros (out & l1 & l2 & -> & H1 & [-> ->]%comes_done)%comes_bind. apply comes_asked in H1 as ->. eauto.
Qed.
Lemma list_comes msg context_id l a :
  comes_to (messages_list msg context_id) l a ->
  exists out, l = [AskedBlock MESSAGES_BLOCK (history_request msg context_id) out] /\ a = records_of out "entry list".
Proof.
  intros (out & l1 & l2 & -> & H1 & [-> ->]%comes_done)%comes_bind. apply comes_asked in H1 as ->. eauto.
Qed.
Lemma budget_comes (requested : option Z) f l n :
  comes_to (match requested with Some n => Done (Ok n) | None => served default_max_tokens f end) l (Ok n) ->
  l = [] /\ (requested <> Some 0 -> n <> 0).
Proof.
  destruct requested as [m|].
  - intros [-> [= <-]]%comes_done. split; [done|congruence].
  - intros (a & H & Ha)%comes_served. split; [by eapply comes_quiet, H; apply default_max_tokens_quiet|]. intros _.
    symmetry in Ha. apply map_err_ok in Ha as ->. apply default_max_tokens_pos in H. lia.
Qed.

Lemma dispatch_comes providers msg raw l r :
  comes_to (dispatch_chat providers msg raw) l r ->
  (Forall to_block l /\ forall d, r <> Ok d) \/
  exists body answer, turn_taken msg raw l body answer /\
    forall d, r = Ok d -> answer = Ok (do_stream d) /\ do_thread_id d = cb_thread_id body.
Proof.
  unfold dispatch_chat.
  intros [(bytes & Hraw%map_err_ok & H)|[? ->]]%comes_pure; [|by left].
  apply comes_pure in H as [(body & Hbody%map_err_ok & H)|[? ->]]; [|by left].
  apply comes_pure in H as [([] & Hzero & H)|[? ->]]; [|by left].
  apply comes_service in H as [(id & l1 & l2 & -> & (turn & -> & Hturn)%create_comes & H)
    |[? (a & (turn & -> & _)%create_comes & _)]]; [|left; by repeat constructor].
  apply comes_service in H as [(history & l1 & l3 & -> & (heard & -> & Hheard)%list_comes & H)
    |[? (a & (heard & -> & _)%list_comes & _)]]; [|left; by repeat constructor].
  apply comes_quietly in H as [(resolved & _ & H)|[? ->]];
    [|left; by repeat constructor|apply quiet_served, resolve_provider_quiet].
  apply comes_pure in H as [(backend_id & _ & H)|[? ->]]; [|left; by repeat constructor].
  apply comes_quietly in H as [(budget & [_ Hbudget]%budget_comes & H)|[? ->]];
    [|left; by repeat constructor|destruct (cb_max_tokens body); [done|apply quiet_served, default_max_tokens_quiet]].
  right. apply err_if_ok in Hzero. apply bool_decide_eq_false in Hzero. specialize (Hbudget Hzero).
  apply comes_service in H as [(stream & l1 & l2 & -> & ->%comes_asked & [-> ->]%comes_done)|[Hno (a & ->%comes_asked & Ha)]].
  - exists body, (Ok stream). split; [|by intros d [= <-]]. repeat (eexists; eauto).
  - exists body, a. split; [|naive_solver]. repeat (eexists; eauto).
Qed.

(** ** The text of a reply *)
(** The text deltas of a stream, in order. *)
Definition delta_text (chunk : ChatChunk) : option string :=
  match delta chunk with DeltaText s => Some s | _ => None end.
Definition text_of (chunks : list ChatChunk) : string := concat_chars (omap delta_text chunks).
Definition take_text (tc : bool * string) (chunk : ChatChunk) : bool * string :=
  match delta_text chunk with Some s => append_text tc.1 tc.2 s | None => tc end.

(** [content] is what is kept of a text: a prefix within the bound, and all of
    it unless it is marked truncated. *)
Definition kept (truncated : bool) (content text : string) : Prop :=
  (exists rest, text = String.append content rest /\ (truncated = false -> rest = "")) /\
  str_len content <= MAX_BUFFERED_RESPONSE_BYTES.

(** What both loops keep. *)
Lemma append_text_kept truncated content text s :
  kept truncated content text ->
  kept (append_text truncated content s).1 (append_text truncated content s).2 (String.append text s).
Proof.
  intros [(rest & -> & Hrest) Hlen]. unfold append_text.
  destruct truncated; simpl; [|destruct (Z.ltb_spec MAX_BUFFERED_RESPONSE_BYTES (str_len content + str_len s)); simpl].
  - split; [|done]. exists (String.append rest s). by rewrite str_app_assoc.
  - split; [|done]. exists (String.append rest s). by rewrite str_app_assoc.
  - rewrite Hrest, str_app_nil_r by done. split; [|rewrite str_len_app; lia]. exists "". by rewrite str_app_nil_r.
Qed.
Lemma take_text_kept chunks tc text :
  kept tc.1 tc.2 text ->
  let tc' := foldl take_text tc chunks in kept tc'.1 tc'.2 (String.append text (text_of chunks)).
Proof.
  unfold text_of. revert tc text. induction chunks as [|chunk chunks IH]; intros tc text Hkept.
  { simpl. by rewrite str_app_nil_r. }
  cbn [omap list_omap foldl]. unfold take_text at 2 4. destruct (delta_text chunk) as [s|]; [|by apply IH].
  cbn [concat_chars foldr]. rewrite <- str_app_assoc. by apply IH, append_text_kept.
Qed.
Lemma text_kept chunks :
  let tc := foldl take_text (false, "") chunks in kept tc.1 tc.2 (text_of chunks).
Proof. apply (take_text_kept chunks (false, "") ""). split; [by exists ""|done]. Qed.

(** What is stored of a text that arrives in pieces: as many of them, from the
    first on, as fit the bound together. *)
Definition longest_fit (content : string) (pieces : list string) : Prop :=
  exists n, content = concat_chars (take n pieces) /\ str_len content <= MAX_BUFFERED_RESPONSE_BYTES /\
    forall piece, pieces !! n = Some piece -> MAX_BUFFERED_RESPONSE_BYTES < str_len content + str_len piece.
Definition fitting (tc : bool * string) (pieces : list string) : Prop :=
  exists n, tc.2 = concat_chars (take n pieces) /\ str_len tc.2 <= MAX_BUFFERED_RESPONSE_BYTES /\
    if tc.1 then exists piece, pieces !! n = Some piece /\ MAX_BUFFERED_RESPONSE_BYTES < str_len tc.2 + str_len piece
    else n = length pieces.
Lemma append_text_fitting tc pieces s : fitting tc pieces -> fitting (append_text tc.1 tc.2 s) (pieces ++ [s]).
Proof.
  destruct tc as [truncated content]. intros (n & Hc & Hlen & Hn). cbn [fst snd] in *. unfold append_text. destruct truncated; cbn [orb].
  - destruct Hn as (piece & Hp & Hover). exists n. cbn [fst snd]. pose proof (lookup_lt_Some _ _ _ Hp).
    rewrite take_app_le by lia. do 2 (split; [done|]). exists piece. split; [|done]. by apply lookup_app_l_Some.
  - subst n. rewrite firstn_all in Hc. destruct (Z.ltb_spec MAX_BUFFERED_RESPONSE_BYTES (str_len content + str_len s)) as [Hover|Hfit].
    + exists (length pieces). cbn [fst snd]. rewrite take_app_length. do 2 (split; [done|]). exists s. split; [|done].
      by rewrite list_lookup_middle.
    + exists (length (pieces ++ [s])). cbn [fst snd]. rewrite firstn_all, concat_chars_app, Hc. cbn [concat_chars foldr].
      rewrite str_app_nil_r, <- Hc. split; [done|]. split; [rewrite str_len_app; lia|done].
Qed.
Lemma take_text_fitting chunks tc pieces :
  fitting tc pieces -> fitting (foldl take_text tc chunks) (pieces ++ omap delta_text chunks).
Proof.
  revert tc pieces. induction chunks as [|chunk chunks IH]; intros tc pieces Hf; [by rewrite app_nil_r|].
  cbn [omap list_omap foldl]. unfold take_text at 2. destruct (delta_text chunk) as [s|]; [|by apply IH].
  rewrite cons_middle, app_assoc. apply IH. by apply append_text_fitting.
Qed.
Lemma text_fits chunks : longest_fit (foldl take_text (false, "") chunks).2 (omap delta_text chunks).
Proof.
  destruct (take_text_fitting chunks (false, "") []) as (n & Hc & Hlen & Hn); [by exists 0%nat|].
  exists n. split; [done|]. split; [done|]. intros piece Hp. destruct (foldl take_text (false, "") chunks) as [[] content].
  - destruct Hn as (piece' & Hp' & Hover). cbn [fst snd] in *. rewrite app_nil_l in Hp'. by assert (piece' = piece) as -> by congruence.
  - cbn [fst snd] in Hn. apply lookup_lt_Some in Hp. rewrite app_nil_l in Hn. lia.
Qed.

Definition out_of_budget (chunk : ChatChunk) : Prop := finish_reason chunk = Some FinishLength.

(** The buffered reply is the fold over the chunks, none of which failed. *)
Lemma drain_stream_ok stream r r' :
  drain_stream r stream = Ok r' ->
  exists chunks, stream = map Ok chunks /\
    (rp_truncated r', rp_content r') = foldl take_text (rp_truncated r, rp_content r) chunks /\
    (rp_budget_exhausted r' = false -> Forall (fun c => ~ out_of_budget c) chunks /\ rp_budget_exhausted r = false).
Proof.
  revert r. induction stream as [|item stream IH]; intros r H.
  { injection H as <-. by exists []. }
  apply bind_ok in H as (chunk & -> & (chunks & -> & Htext & Hbudget)%IH). exists (chunk :: chunks).
  split; [done|]. unfold take_chunk in Htext, Hbudget. cbn [foldl]. unfold take_text at 2, delta_text.
  destruct (delta chunk); simpl in *; try destruct (append_text _ _ _) as [? ?]; simpl in *;
    (split; [done|]); intros Hb; apply Hbudget in Hb as [Hb Hr]; apply orb_false_iff in Hr as [Hr Hc];
    apply bool_decide_eq_false in Hc; by repeat constructor.
Qed.

Lemma kept_weaken (t t' : bool) content text : (t' = false -> t = false) -> kept t content text -> kept t' content text.
Proof. intros Ht [(rest & -> & Hrest) Hlen]. split; [|done]. exists rest. split; [done|]. intros H. by apply Hrest, Ht. Qed.
Lemma drained stream r :
  drain_stream empty_reply stream = Ok r ->
  exists chunks, stream = map Ok chunks /\ kept (rp_truncated r) (rp_content r) (text_of chunks) /\
    (rp_budget_exhausted r = false -> Forall (fun c => ~ out_of_budget c) chunks).
Proof.
  intros (chunks & -> & Htext & Hbudget)%drain_stream_ok. exists chunks. pose proof (text_kept chunks) as Hkept.
  simpl in Htext. rewrite <- Htext in Hkept. repeat split; [apply Hkept..|]. intros H. by apply Hbudget.
Qed.

Context {CJ : ChunkJson}.

(** A stream that ran to its natural end sent every chunk. *)
Lemma sse_loop_natural room gone content truncated stream sent room' content' :
  sse_loop room gone content truncated stream = (sent, Natural room' content') ->
  exists chunks jsons, stream = map Ok chunks /\ chunk_to_vec <$> chunks = Some <$> jsons /\
    sent = map FData jsons /\ content' = (foldl take_text (truncated, content) chunks).2.
Proof.
  revert room gone content truncated sent. induction stream as [|item stream IH]; intros room gone content truncated sent;
    cbn [sse_loop]; case_bool_decide; try done; [intros [= <- <- <-]; exists [], []; by repeat split|].
  destruct item as [chunk| |]; try done.
  set (tc := match delta chunk with DeltaText s => append_text truncated content s | _ => (truncated, content) end).
  destruct tc as [t c] eqn:Htc. destruct (chunk_to_vec chunk) as [json|] eqn:Hjson; [|done]. destruct room as [|room]; [done|].
  destruct (sse_loop room (pred <$> gone) c t stream) as [sent' ended] eqn:Hloop. intros [= <- ->].
  apply IH in Hloop as (chunks & jsons & -> & Hvec & -> & ->). exists (chunk :: chunks), (json :: jsons).
  assert (take_text (truncated, content) chunk = (t, c)) as Htake
    by (rewrite <- Htc; unfold take_text, delta_text, tc; by destruct (delta chunk)).
  repeat split; [by rewrite !fmap_cons, Hjson, Hvec|]. cbn [foldl]. by rewrite Htake.
Qed.
Lemma sse_loop_sent room gone content truncated stream :
  Forall (fun f => exists json, f = FData json) (sse_loop room gone content truncated stream).1.
Proof.
  revert room gone content truncated. induction stream as [|item stream IH]; intros room gone content truncated;
    cbn [sse_loop]; case_bool_decide; [constructor..|].
  destruct item as [chunk| |]; [|constructor..].
  destruct (match delta chunk with DeltaText s => append_text truncated content s | _ => (truncated, content) end) as [t c].
  destruct (chunk_to_vec chunk) as [json|]; [|constructor]. destruct room as [|room]; constructor; eauto.
Qed.

(** C21. The model of a chat is asked once at most, and last: after the user's
    message was stored and the history read back, with that history and a
    budget that is not zero; and a chat goes on to its reply only with the
    stream the model answered. *)
Theorem turns_are_stored_before_the_model providers msg raw l r (Hrun : comes_to (dispatch_chat providers msg raw) l r) :
  (forall i backend_id model messages max_tokens answer,
     l !! i = Some (AskedModel backend_id model messages max_tokens answer) ->
     i = 2%nat /\ exists body, turn_taken msg raw l body answer) /\
  (forall d, r = Ok d -> exists body, turn_taken msg raw l body (Ok (do_stream d)) /\ do_thread_id d = cb_thread_id body).
Proof.
  apply dispatch_comes in Hrun as [[Hall Hno]|(body & answer & Hturn & Hok)].
  - split; [|naive_solver]. intros i b m ms mt a Hi. apply (Forall_lookup_1 _ _ _ _ Hall) in Hi. done.
  - split; [|intros d [-> Hid]%Hok; eauto]. intros i b m ms mt a Hi.
    pose proof Hturn as (bytes & turn & id & heard & records & b' & m' & n & _ & _ & -> & _).
    destruct i as [|[|[|i]]]; try done. injection Hi as <- <- <- <- <-. eauto.
Qed.

(** C18. A reply is published only once it is stored: the last request of a chat
    that answers stores exactly the published content under the published id.
    That content is the text of a stream no item of which failed, cut at one
    mebibyte, and a reply that is not marked truncated holds all of the text of a
    model that stopped by itself. *)
Theorem published_reply_is_stored providers msg raw l resp (Hrun : comes_to (handle_chat providers msg raw) l (Ok resp)) :
  exists body asked chunks out,
    turn_taken msg raw asked body (Ok (map Ok chunks)) /\
    l = asked ++ [AskedBlock MESSAGES_BLOCK
                    (entry_request msg (cb_thread_id body) RoleOfAssistant (resp_content resp)) out] /\
    stored_id out = Ok (resp_message_id resp) /\
    kept (resp_truncated resp) (resp_content resp) (text_of chunks) /\
    (resp_truncated resp = false -> Forall (fun c => ~ out_of_budget c) chunks).
Proof.
  unfold handle_chat in Hrun.
  apply comes_try in Hrun as [(d & asked & l2 & -> & Hd & H)|[Hno _]]; [|by edestruct Hno].
  apply dispatch_comes in Hd as [[_ Hno]|(body & answer & Hturn & Hok)]; [by edestruct Hno|].
  destruct (Hok d eq_refl) as [-> Hid].
  apply comes_pure in H as [(reply & Hdrain%map_err_ok & H)|[Hno _]]; [|by edestruct Hno].
  apply comes_service in H as [(id & l1 & l3 & -> & (out & -> & Hout)%create_comes & [-> [= ->]]%comes_done)|[Hno _]];
    [|by edestruct Hno].
  apply drained in Hdrain as (chunks & Hstream & Hkept & Hbudget). rewrite Hstream in Hturn. cbn.
  exists body, asked, chunks, out. rewrite <- Hid. split_and!; [done|done|done| |].
  - eapply kept_weaken, Hkept. by intros [? _]%orb_false_iff.
  - intros [_ ?]%orb_false_iff. by apply Hbudget.
Qed.

(** C22. A streamed chat ends with the done frame only once its reply is stored:
    then every chunk of the model's stream was sent, in order, and the entry
    that was stored holds the text of the stream, as many of its pieces from the
    first on as fit one mebibyte. *)
Theorem done_frame_follows_storage providers client msg raw l frames
  (Hrun : comes_to (handle_chat_stream providers client msg raw) l (Ok frames)) (Hdone : FDone ∈ frames) :
  exists body asked chunks jsons content out id,
    turn_taken msg raw asked body (Ok (map Ok chunks)) /\
    l = asked ++ [AskedBlock MESSAGES_BLOCK (entry_request msg (cb_thread_id body) RoleOfAssistant content) out] /\
    stored_id out = Ok id /\ longest_fit content (omap delta_text chunks) /\
    chunk_to_vec <$> chunks = Some <$> jsons /\ frames = FOpen :: map FData jsons ++ [FDone].
Proof.
  unfold handle_chat_stream in Hrun.
  apply comes_try in Hrun as [(d & asked & l2 & -> & Hd & H)|[Hno _]]; [|by edestruct Hno].
  apply dispatch_comes in Hd as [[_ Hno]|(body & answer & Hturn & Hok)]; [by edestruct Hno|].
  destruct (Hok d eq_refl) as [-> Hid].
  assert (comes_to (spawn Ok (sse_chat_response client (do_stream d) msg (do_thread_id d))) l2 (Ok (E:=OutputStream) frames)) as Hsse.
  { destruct (do_stream d) as [|[chunk|e|] stream]; try done. by apply comes_done in H as [_ [=]]. }
  apply comes_bind in Hsse as (sent & l1 & l3 & -> & Hsse & [-> [= ->]]%comes_done).
  unfold sse_chat_response in Hsse. destruct (frames_taken client) as [|room];
    [by apply comes_done in Hsse as [_ ->]; apply elem_of_nil in Hdone|].
  pose proof (sse_loop_sent room (gone_at client) "" false (do_stream d)) as Hsent.
  assert (forall sent, Forall (fun f => exists json, f = FData json) sent -> FDone ∉ sent) as Hdata.
  { clear. intros sent Hall Hin. by apply (proj1 (Forall_forall _ _) Hall) in Hin as [json [=]]. }
  destruct (sse_loop room (gone_at client) "" false (do_stream d)) as [fs [|room'|room' content]] eqn:Hloop.
  - apply comes_done in Hsse as [_ ->]. apply elem_of_cons in Hdone as [[=]|Hin]. by apply Hdata in Hin.
  - apply comes_done in Hsse as [_ ->]. apply elem_of_cons in Hdone as [[=]|[Hin|Hin]%elem_of_app]; [by apply Hdata in Hin|].
    destruct room'; simpl in Hin; [by apply elem_of_nil in Hin|by apply list_elem_of_singleton in Hin].
  - apply comes_bind in Hsse as (stored & l2 & l3 & -> & (out & -> & ->)%create_comes & [-> ->]%comes_done).
    apply elem_of_cons in Hdone as [[=]|[Hin|Hin]%elem_of_app]; [by apply Hdata in Hin|].
    destruct room'; simpl in Hin; [by apply elem_of_nil in Hin|apply list_elem_of_singleton in Hin].
    destruct (stored_id out) as [id| |] eqn:Hid'; try done.
    apply sse_loop_natural in Hloop as (chunks & jsons & Hstream & Hvec & -> & ->). rewrite Hstream in Hturn.
    exists body, asked, chunks, jsons. eexists _, out, id. rewrite <- Hid.
    split_and!; [done|done|done|exact (text_fits chunks)|done|done].
Qed.
End Turn.

(** ** Concrete chats *)
(** An answer names the entry by its text and lists one turn of the user's. *)
Definition chat_json : MessagesBodies (JN:=sample_numbers) := {|
  json_from_slice := fun s => Ok (VObject [("id", VString s);
    ("records", VArray [VObject [("role", VString "user"); ("content", VString "hi")]])]);
  form_pairs := fun _ => [];
  create_context_body := fun _ => Err "no type";
  update_context_body := fun _ => Err "not an object";
  add_entry_body := fun _ => Err "not an object";
|}.
#[local] Existing Instance chat_json.
#[export] Instance sample_chat_bodies : ChatBodies := fun s => Ok {|
  cb_thread_id := "t"; cb_message := s; cb_provider := Some "local"; cb_model := Some "m"; cb_max_tokens := Some 64 |}.
#[export] Instance sample_chunk_json : ChunkJson := fun c => delta_text c.

Definition said (s : string) : ChatChunk := chunk_text s.
Definition ann_chat : Message := {| sm_action := "create"; sm_path := "/b/llm/api/chat"; sm_user := "ann"; sm_meta := [] |}.

(** What is seen when the model answers [chunks]. *)
Definition hi_requests (answer : WResult (list (WResult ChatChunk))) : list chat_event :=
  [AskedBlock MESSAGES_BLOCK (entry_request ann_chat "t" RoleOfUser "hi") (AnswerBody "u1");
   AskedBlock MESSAGES_BLOCK (history_request ann_chat "t") (AnswerBody "");
   AskedModel "local" "m" [build_text_message RoleUser "hi"] (Some 64) answer].

#[local] Instance chat_services : Services := fun R q =>
  match q in service R return R with
  | AskBlock _ request =>
      AnswerBody (match br_body request with
                  | Some body => if String.eqb (default "" (role ← value_get "role" body; as_str role)) "user" then "u1" else "a1"
                  | None => ""
                  end)
  | LlmChat _ _ _ _ => Ok [Ok (said "hel"); Ok (said "lo")]
  | ConfigGetDefault _ d => Ok d
  | ConfigGetOptional _ => Ok None
  | q => answer _ q
  end.

Definition hello : WResult (list (WResult ChatChunk)) := Ok (map Ok [said "hel"; said "lo"]).
Definition hello_stored : chat_event :=
  AskedBlock MESSAGES_BLOCK (entry_request ann_chat "t" RoleOfAssistant "hello") (AnswerBody "a1").
Definition hello_response : ChatResponse :=
  {| resp_content := "hello"; resp_message_id := "a1"; resp_model := "m"; resp_truncated := false |}.

Lemma hello_dispatched :
  comes_to (dispatch_chat [] ann_chat (Ok "hi")) (hi_requests hello)
    (Ok {| do_thread_id := "t"; do_model := "m"; do_stream := map Ok [said "hel"; said "lo"] |}).
Proof. exact (run_traced_comes (dispatch_chat [] ann_chat (Ok "hi")) ∅). Qed.
Lemma hello_answered :
  comes_to (handle_chat [] ann_chat (Ok "hi")) (hi_requests hello ++ [hello_stored]) (Ok hello_response).
Proof. exact (run_traced_comes (handle_chat [] ann_chat (Ok "hi")) ∅). Qed.
Lemma hello_streamed :
  comes_to (handle_chat_stream [] {| frames_taken := 9; gone_at := None |} ann_chat (Ok "hi"))
    (hi_requests hello ++ [hello_stored]) (Ok [FOpen; FData "hel"; FData "lo"; FDone]).
Proof.
  exact (run_traced_comes (handle_chat_stream [] {| frames_taken := 9; gone_at := None |} ann_chat (Ok "hi")) ∅).
Qed.

Lemma turns_are_stored_before_the_model_witness :
  exists body, turn_taken ann_chat (Ok "hi") (hi_requests hello) body hello /\ "t" = cb_thread_id body.
Proof.
  exact (proj2 (turns_are_stored_before_the_model [] ann_chat (Ok "hi") _ _ hello_dispatched) _ eq_refl).
Defined.

Lemma published_reply_is_stored_witness :
  comes_to (handle_chat [] ann_chat (Ok "hi")) (hi_requests hello ++ [hello_stored]) (Ok hello_response) /\
  exists body asked chunks out,
    turn_taken ann_chat (Ok "hi") asked body (Ok (map Ok chunks)) /\
    hi_requests hello ++ [hello_stored] =
      asked ++ [AskedBlock MESSAGES_BLOCK (entry_request ann_chat (cb_thread_id body) RoleOfAssistant "hello") out] /\
    stored_id out = Ok "a1" /\ kept false "hello" (text_of chunks) /\
    (false = false -> Forall (fun c => ~ out_of_budget c) chunks).
Proof. split; [apply hello_answered|]. exact (published_reply_is_stored [] ann_chat (Ok "hi") _ _ hello_answered). Defined.

Lemma done_frame_follows_storage_witness :
  exists body asked chunks jsons content out id,
    turn_taken ann_chat (Ok "hi") asked body (Ok (map Ok chunks)) /\
    hi_requests hello ++ [hello_stored] =
      asked ++ [AskedBlock MESSAGES_BLOCK (entry_request ann_chat (cb_thread_id body) RoleOfAssistant content) out] /\
    stored_id out = Ok id /\ longest_fit content (omap delta_text chunks) /\
    chunk_to_vec <$> chunks = Some <$> jsons /\ [FOpen; FData "hel"; FData "lo"; FDone] = FOpen :: map FData jsons ++ [FDone].
Proof.
  apply (done_frame_follows_storage [] {| frames_taken := 9; gone_at := None |} ann_chat (Ok "hi") _ _ hello_streamed).
  do 3 right. by left.
Defined.

(** Two updates of one thread's override, interleaved: both read that there is
    none, and both insert.  The table then holds two rows for the thread. *)
Definition pin (provider : string) : prog (outcome OutputStream ConfigUpdateResponse) :=
  handle_post_config (Ok {| cu_thread_id := Some "t"; cu_provider_block := Some provider; cu_model := Some "m";
                            cu_default_provider := None; cu_default_model := None |}).
Definition pins : list (prog (outcome OutputStream ConfigUpdateResponse)) * state :=
  run_schedule [0; 1; 0; 1; 0; 1]%nat ([pin "a"; pin "b"], ∅).
Lemma overrides_race :
  rtc pool_step ([pin "a"; pin "b"], ∅) pins /\
  map (fun p => default "" (v ← p.2 !! "provider_block"; as_str v)) (map_to_list (rows pins.2 ThreadSettings.TABLE)) =
    ["b"; "a"].
Proof. split; [apply run_schedule_steps|]. vm_compute. reflexivity. Qed.
