(* ===== verification/RequestLog.v ===== *)
(** * The request log ([pipeline.rs], [platform_state/request_logs.rs], [after_response.rs])

    Which requests leave an audit row, how many, and what the row says of the
    path: a capability that travels in the path is replaced by the name of its
    variable, and a path that resembles no route by one label.  Two requests
    that differ in the values of their capabilities alone leave the same path. *)
From Stdlib Require Import String.
From S2P Require Import Prelude Ints Str Contracts SampleLib Wafer EndpointMatch Features Routing.
From S2P Require Import Records Effects Crud.

Definition REQUEST_LOGS_TABLE : string := "impresspress__admin__request_logs".

(** ** Rows *)
Definition CLIENT_ERROR_FLOOR : Z := 400.
Definition SERVER_ERROR_FLOOR : Z := 500.

Inductive StatusClass := Served | ClientError | ServerError.
#[export] Instance status_class_eq_dec : EqDecision StatusClass.
Proof. solve_decision. Defined.

Definition status_class_of (status_code : Z) : StatusClass :=
  if SERVER_ERROR_FLOOR <=? status_code then ServerError
  else if CLIENT_ERROR_FLOOR <=? status_code then ClientError
  else Served.
Definition is_error (c : StatusClass) : bool := negb (bool_decide (c = Served)).

Definition status_label (status_code : Z) : string :=
  if is_error (status_class_of status_code) then "ERROR" else "OK".

(** [split('/').next()] *)
Definition owning_block (path : string) : string :=
  default "" (rest ← strip_prefix "/b/" path; head (split_on "/" rest)).

Record NewRequestLog := {
  nl_method : string; nl_path : string; nl_status_code : Z; nl_error_message : string;
  nl_duration_ms : Z; nl_client_ip : string; nl_user_id : string;
}.
Definition with_path (path : string) (row : NewRequestLog) : NewRequestLog := {|
  nl_method := nl_method row; nl_path := path; nl_status_code := nl_status_code row;
  nl_error_message := nl_error_message row; nl_duration_ms := nl_duration_ms row;
  nl_client_ip := nl_client_ip row; nl_user_id := nl_user_id row;
|}.

(** [to_data], at the time [now]. *)
Definition to_data `{JsonNumbers} (now : string) (row : NewRequestLog) : columns :=
  stamp_created now (list_to_map [
    ("method", VString (nl_method row));
    ("path", VString (nl_path row));
    ("block", VString (owning_block (nl_path row)));
    ("status", VString (status_label (nl_status_code row)));
    ("status_code", json_i64 (nl_status_code row));
    ("duration_ms", json_i64 (nl_duration_ms row));
    ("error_message", VString (nl_error_message row));
    ("client_ip", VString (nl_client_ip row));
    ("user_id", VString (nl_user_id row))]).

(** ** What is kept *)
Inductive RequestLogPolicy := LogAll | LogErrors | LogOff.
#[export] Instance request_log_policy_eq_dec : EqDecision RequestLogPolicy.
Proof. solve_decision. Defined.

Definition parse_policy (raw : option string) : RequestLogPolicy :=
  let raw := default "" (trim <$> raw) in
  if String.eqb raw "errors" then LogErrors
  else if String.eqb raw "off" then LogOff
  else LogAll.
Definition writes_rows (p : RequestLogPolicy) : bool := negb (bool_decide (p = LogOff)).
Definition keeps (p : RequestLogPolicy) (status_code : Z) : bool :=
  match p with
  | LogAll => true
  | LogErrors => bool_decide (status_class_of status_code = ServerError)
  | LogOff => false
  end.
Definition is_bounded (p : RequestLogPolicy) : bool := bool_decide (p = LogErrors).

Definition REQUEST_LOG_CEILING_PER_WINDOW : Z := 200.
Definition REQUEST_LOG_WINDOW_MS : Z := 3600000.

(** The thread's budget: the start of the window and the rows written in it. *)
Record Budget := { window_start : Z; used : Z }.
Definition initial_budget : Budget := {| window_start := 0; used := 0 |}.

Definition claim_request_log_budget (now_ms : Z) (b : Budget) : bool * Budget :=
  let b := if REQUEST_LOG_WINDOW_MS <=? saturating_sub now_ms (window_start b)
           then {| window_start := now_ms; used := 0 |} else b in
  if REQUEST_LOG_CEILING_PER_WINDOW <=? used b then (false, b)
  else (true, {| window_start := window_start b; used := used b + 1 |}).

(** ** Capabilities in paths *)
Definition path_var_is_capability (name : string) : bool :=
  let name := to_ascii_lowercase name in
  String.eqb name "token" || ends_with "_token" name.

(** [seg.strip_prefix('{').and_then(|s| s.strip_suffix('}'))] *)
Definition braced (seg : string) : option string := s ← strip_prefix "{" seg; strip_suffix "}" s.
Definition strip_rest (var : string) : string := default var (strip_suffix "..." var).

Definition template_vars (template : string) : list string :=
  omap (fun seg => strip_rest <$> braced seg) (split_on "/" template).

Definition normalize_for_match (path : string) : string :=
  to_ascii_lowercase (trim_end_matches "/" path).

(** The loop over the template's segments, at index [i] of the path's. *)
Fixpoint rebuild (path_segments : list string) (i : nat) (template_segments : list string) : list string :=
  match template_segments with
  | [] => []
  | segment :: template_segments =>
      match braced segment with
      | None => default segment (path_segments !! i) :: rebuild path_segments (S i) template_segments
      | Some var =>
          let rest := ends_with "..." var in
          let name := strip_rest var in
          if path_var_is_capability name then
            segment :: (if rest then [] else rebuild path_segments (S i) template_segments)
          else if rest then drop i path_segments
          else default segment (path_segments !! i) :: rebuild path_segments (S i) template_segments
      end
  end.

Definition UNMATCHED_PATH_LABEL : string := "<unmatched>".

(** [after_response]: the row a request queues, and its slot. *)
Record QueuedRequestLog := { q_table : string; q_data : columns }.

(** [queue_audit_row], given the work of the request being polled, if any: the
    slot of its row.  [false]: the row is handed back. *)
Definition queue_audit_row (row : QueuedRequestLog) (current : option (option QueuedRequestLog))
  : bool * option (option QueuedRequestLog) :=
  match current with
  | None => (false, None)
  | Some None => (true, Some (Some row))
  | Some (Some queued) => (false, Some (Some queued))
  end.

Definition AUDIT_ROW_CALLS : Z := 3.
Definition audit_row_reservation (policy : option string) : Z :=
  if writes_rows (parse_policy policy) then AUDIT_ROW_CALLS else 0.

Section RequestLog.
Context {JN : JsonNumbers} {E : Endpoints} {BI : BlockInfos E}.
(** [wafer_block::declarations] *)
Context (declarations : list BlockInfo -> list BlockInfo).
Implicit Types (block_infos : list BlockInfo) (extra_routes : list ExtraRoute) (path : string).

Definition capability_path_templates block_infos : list string :=
  List.filter (fun template => existsb path_var_is_capability (template_vars template))
    (map ep_path (concat (map bi_endpoints (declarations block_infos)))).

(** The loop over the templates. *)
Fixpoint redact_loop path (templates : list string) : option string :=
  match templates with
  | [] => None
  | template :: templates =>
      match match_template template (normalize_for_match path) with
      | None => redact_loop path templates
      | Some _ =>
          Some (join "/" (rebuild (split_on "/" (trim_end_matches "/" path)) 0 (split_on "/" template)))
      end
  end.

Definition redact_capability_path_vars path block_infos : option string :=
  redact_loop path (capability_path_templates block_infos).

Definition resembles_a_declared_route path block_infos extra_routes : bool :=
  if String.eqb path "/" then true
  else
    let normalized := normalize_for_match path in
    if existsb (fun route => starts_with (normalize_for_match (extra_prefix route)) normalized) extra_routes
    then true
    else existsb (fun e => bool_decide (is_Some (match_template (ep_path e) normalized)))
           (concat (map bi_endpoints block_infos)).

(** The row as it is stored. *)
Definition stored_row (row : NewRequestLog) block_infos extra_routes : NewRequestLog :=
  match redact_capability_path_vars (nl_path row) block_infos with
  | Some path => with_path path row
  | None =>
      if negb (resembles_a_declared_route (nl_path row) block_infos extra_routes)
      then with_path UNMATCHED_PATH_LABEL row else row
  end.

Definition log_skips path : bool := starts_with STATIC_PREFIX path || String.eqb path "/health".

(** The thread's budget and the request's slot. *)
Record LogState := { ls_budget : Budget; ls_current : option (option QueuedRequestLog) }.

(** The two filters and the ceiling: whether a row is attempted. *)
Definition admits_row (config : option string) (now_ms : Z) (row : NewRequestLog) (b : Budget)
  : bool * Budget :=
  let policy := parse_policy config in
  if log_skips (nl_path row) || negb (keeps policy (nl_status_code row)) then (false, b)
  else if is_bounded policy then claim_request_log_budget now_ms b
  else (true, b).

(** [config] is the policy's configuration value, [now_ms] the clock when the
    budget is claimed. *)
Definition write_request_log (config : option string) (now_ms : Z) (row : NewRequestLog)
    block_infos extra_routes (s : LogState) : prog LogState :=
  let '(admitted, budget) := admits_row config now_ms row (ls_budget s) in
  let s := {| ls_budget := budget; ls_current := ls_current s |} in
  if negb admitted then Done s
  else
    let row := stored_row row block_infos extra_routes in
    now ← now_rfc3339;
    let '(taken, current) :=
      queue_audit_row {| q_table := REQUEST_LOGS_TABLE; q_data := to_data now row |} (ls_current s) in
    let s := {| ls_budget := budget; ls_current := current |} in
    if taken then Done s
    else
      now ← now_rfc3339;
      _ ← do_call (Create REQUEST_LOGS_TABLE (to_data now row));
      Done s.
End RequestLog.

(** ** Text lemmas *)
Lemma ascii_lower_slash c : Ascii.eqb (ascii_lower c) "/" = Ascii.eqb c "/".
Proof.
  unfold ascii_lower. destruct (is_ascii_uppercase c) eqn:Hu; [|done].
  unfold is_ascii_uppercase, in_range in Hu.
  transitivity false; [|symmetry]; apply Ascii.eqb_neq; intros Hc.
  - apply (f_equal code) in Hc. rewrite code_byte in Hc by lia. change (code "/") with 47 in Hc. lia.
  - subst c. vm_compute in Hu. discriminate.
Qed.

Lemma lowercase_append s t :
  to_ascii_lowercase (String.append s t) = String.append (to_ascii_lowercase s) (to_ascii_lowercase t).
Proof.
  unfold to_ascii_lowercase. induction s as [|c s IH]; [done|].
  rewrite str_app_cons. cbn [str_map]. by rewrite str_app_cons, IH.
Qed.

Lemma split_on_lowercase s :
  split_on "/" (to_ascii_lowercase s) = map to_ascii_lowercase (split_on "/" s).
Proof.
  induction s as [|c s IH]; [done|]. unfold to_ascii_lowercase in *. cbn [str_map split_on].
  rewrite IH, ascii_lower_slash. destruct (split_on_cons "/" s) as (p & ps & ->). cbn [map].
  by destruct (Ascii.eqb c "/").
Qed.

Lemma join_lowercase l : join "/" (map to_ascii_lowercase l) = to_ascii_lowercase (join "/" l).
Proof.
  induction l as [|x l IH]; [done|]. destruct l as [|y l]; [done|].
  change (join "/" (map to_ascii_lowercase (x :: y :: l)))
    with (String.append (to_ascii_lowercase x) (String.append "/" (join "/" (map to_ascii_lowercase (y :: l))))).
  rewrite IH. change (join "/" (x :: y :: l)) with (String.append x (String.append "/" (join "/" (y :: l)))).
  by rewrite !lowercase_append.
Qed.

Lemma lowercase_empty s : to_ascii_lowercase s = "" <-> s = "".
Proof. by destruct s. Qed.

(** A path without a final slash is not trimmed. *)
Lemma drop_while_end_last {A} (p : A -> bool) l :
  drop_while_end p l = l \/ exists k x, l = k ++ [x] /\ p x = true.
Proof.
  induction l as [|x l IH]; [by left|]. simpl. destruct IH as [->|(k & y & -> & Hy)].
  - destruct l as [|y l]; [|by left]. destruct (p x) eqn:Hx; [|by left]. right. by exists [], x.
  - right. by exists (x :: k), y.
Qed.

Lemma trim_end_matches_id c s : ends_with c s = false -> trim_end_matches c s = s.
Proof.
  intros He. unfold trim_end_matches. destruct (drop_while_end_last (String.eqb c) (split_chars s))
    as [->|(k & x & Hs & ->%String.eqb_eq)]; [apply concat_split_chars|].
  rewrite <- not_true_iff_false, ends_with_spec in He. destruct He. exists (concat_chars k).
  rewrite <- (concat_split_chars s), Hs, concat_chars_app. simpl. by rewrite str_app_nil_r.
Qed.

(** ** Template segments *)
Lemma braced_var_name seg : braced seg = var_name seg.
Proof.
  unfold braced, var_name. apply option_eq. intros v. rewrite !bind_Some.
  setoid_rewrite strip_prefix_some. setoid_rewrite strip_suffix_some. split.
  - intros (s & -> & ->). exists (String.append "{" v). by rewrite str_app_assoc.
  - intros (s & -> & ->). exists (String.append v "}"). by rewrite str_app_assoc.
Qed.

Lemma rest_var_name seg n : rest_name seg = Some n <-> var_name seg = Some (String.append n "...").
Proof.
  unfold rest_name, var_name. rewrite !bind_Some.
  setoid_rewrite strip_prefix_some. setoid_rewrite strip_suffix_some. split.
  - intros (s & -> & ->). exists (String.append "{" (String.append n "...")).
    by rewrite !str_app_assoc.
  - intros (s & -> & ->). exists (String.append "{" n). by rewrite !str_app_assoc.
Qed.

Lemma rest_segment_vars seg n :
  rest_name seg = Some n ->
  braced seg = Some (String.append n "...") /\ ends_with "..." (String.append n "...") = true /\
  strip_rest (String.append n "...") = n.
Proof.
  intros Hr%rest_var_name. rewrite braced_var_name. split; [done|]. split; [apply ends_with_spec; by exists n|].
  unfold strip_rest. by rewrite (proj2 (strip_suffix_some "..." _ n) eq_refl).
Qed.

Lemma plain_segment_vars seg n :
  rest_name seg = None -> var_name seg = Some n ->
  braced seg = Some n /\ ends_with "..." n = false /\ strip_rest n = n.
Proof.
  intros Hr Hv. rewrite braced_var_name. split; [done|].
  assert (strip_suffix "..." n = None) as Hs.
  { destruct (strip_suffix "..." n) as [m|] eqn:Hm; [|done]. apply strip_suffix_some in Hm as ->.
    apply rest_var_name in Hv. congruence. }
  unfold ends_with, strip_rest. by rewrite Hs.
Qed.

Lemma literal_segment seg : rest_name seg = None -> var_name seg = None -> braced seg = None.
Proof. by rewrite braced_var_name. Qed.

(** ** Rebuilding reads the public segments only *)

(** The two lists of segments differ at most in what the template binds to a
    capability. *)
Inductive same_public : list string -> list string -> list string -> Prop :=
| sp_nil ps ps' : same_public [] ps ps'
| sp_literal t ts s ps ps' :
    braced t = None -> same_public ts ps ps' -> same_public (t :: ts) (s :: ps) (s :: ps')
| sp_public t n ts s ps ps' :
    rest_name t = None -> var_name t = Some n -> path_var_is_capability n = false ->
    same_public ts ps ps' -> same_public (t :: ts) (s :: ps) (s :: ps')
| sp_capability t n ts s s' ps ps' :
    rest_name t = None -> var_name t = Some n -> path_var_is_capability n = true ->
    same_public ts ps ps' -> same_public (t :: ts) (s :: ps) (s' :: ps')
| sp_public_rest t n ts ps :
    rest_name t = Some n -> path_var_is_capability n = false -> same_public (t :: ts) ps ps
| sp_capability_rest t n ts ps ps' :
    rest_name t = Some n -> path_var_is_capability n = true -> same_public (t :: ts) ps ps'.

Lemma rebuild_same_public ts l l' i :
  same_public ts (drop i l) (drop i l') -> rebuild l i ts = rebuild l' i ts.
Proof.
  assert (forall (m : list string) j s ps, drop j m = s :: ps -> m !! j = Some s /\ drop (S j) m = ps) as Hd.
  { intros m j s ps Hm. split.
    - rewrite <- (Nat.add_0_r j), <- lookup_drop, Hm. done.
    - by rewrite <- Nat.add_1_r, <- drop_drop, Hm. }
  remember (drop i l) as d eqn:Hl. remember (drop i l') as d' eqn:Hl'. intros Hp.
  revert i Hl Hl'. induction Hp as [ps ps'|t ts s ps ps' Ht _ IH|t n ts s ps ps' Hr Hv Hc _ IH
    |t n ts s s' ps ps' Hr Hv Hc _ IH|t n ts ps Hr Hc|t n ts ps ps' Hr Hc]; intros i Hl Hl'; cbn [rebuild].
  - done.
  - rewrite Ht. apply eq_sym, Hd in Hl as [-> Hl]. apply eq_sym, Hd in Hl' as [-> Hl']. f_equal. by apply IH.
  - destruct (plain_segment_vars _ _ Hr Hv) as (-> & -> & ->). rewrite Hc.
    apply eq_sym, Hd in Hl as [-> Hl]. apply eq_sym, Hd in Hl' as [-> Hl']. f_equal. by apply IH.
  - destruct (plain_segment_vars _ _ Hr Hv) as (-> & -> & ->). rewrite Hc.
    apply eq_sym, Hd in Hl as [_ Hl]. apply eq_sym, Hd in Hl' as [_ Hl']. f_equal. by apply IH.
  - destruct (rest_segment_vars _ _ Hr) as (-> & -> & ->). by rewrite Hc, <- Hl, <- Hl'.
  - destruct (rest_segment_vars _ _ Hr) as (-> & -> & ->). by rewrite Hc.
Qed.

(** Two bindings of one template that agree on every name that is no capability. *)
Definition public_bindings (ps : params) : params :=
  List.filter (fun b => negb (path_var_is_capability b.1)) ps.

Lemma join_inj l l' :
  Forall (no_char "/") l -> Forall (no_char "/") l' -> l <> [] -> l' <> [] -> join "/" l = join "/" l' -> l = l'.
Proof. intros Hl Hl' Hn Hn' Hj. by rewrite <- (split_on_join "/" l), Hj, split_on_join. Qed.

Lemma public_bindings_cons n v ps :
  public_bindings ((n, v) :: ps) =
  if path_var_is_capability n then public_bindings ps else (n, v) :: public_bindings ps.
Proof. unfold public_bindings. cbn [List.filter fst]. by destruct (path_var_is_capability n). Qed.

(** The same remainder, bound to a rest variable that is public. *)
Lemma public_rest n (l l' : list string) :
  path_var_is_capability n = false -> Forall (no_char "/") l -> Forall (no_char "/") l' ->
  join "/" l <> "" -> join "/" l' <> "" ->
  public_bindings [(n, join "/" l)] = public_bindings [(n, join "/" l')] -> l = l'.
Proof.
  intros Hc Hl Hl' Hj Hj'. rewrite !public_bindings_cons, Hc. intros [= He].
  apply join_inj; try done; by intros ->.
Qed.

Lemma fits_same_public ts segs segs' ps ps' :
  fits ts segs ps -> fits ts segs' ps' -> Forall (no_char "/") segs -> Forall (no_char "/") segs' ->
  public_bindings ps = public_bindings ps' -> same_public ts segs segs'.
Proof.
  intros Hf. revert segs' ps'. induction Hf as [|t ts segs ps Hr Hv Hf IH|t n ts s segs ps Hr Hv Hp Hf IH
    |t n segs Hr Hj|t n segs Hr Hj]; intros segs' ps' Hf' Hs Hs' Hpub.
  - constructor.
  - inversion Hf' as [|? ? segs1 ps1 _ _ Hf1|? ? ? ? ? ? _ Hv1|? ? ? Hr1|? ? ? Hr1]; subst; try congruence.
    apply Forall_cons in Hs as [_ Hs], Hs' as [_ Hs'].
    apply sp_literal; [by apply literal_segment|]. by eapply IH.
  - inversion Hf' as [|? ? ? ? _ Hv1|? n1 ? s1 segs1 ps1 _ Hv1 Hp1 Hf1|? ? ? Hr1|? ? ? Hr1]; subst; try congruence.
    assert (n1 = n) as -> by congruence. apply Forall_cons in Hs as [_ Hs], Hs' as [_ Hs'].
    rewrite !public_bindings_cons in Hpub. destruct (path_var_is_capability n) eqn:Hc.
    + eapply sp_capability; [done..|]. by eapply IH.
    + injection Hpub as -> Hpub. eapply sp_public; [done..|]. by eapply IH.
  - inversion Hf' as [|? ? ? ? Hr1|? ? ? ? ? ? Hr1|? n1 segs1 Hr1 Hj1|]; subst; try congruence.
    assert (n1 = n) as -> by congruence.
    destruct (path_var_is_capability n) eqn:Hc; [by eapply sp_capability_rest|].
    apply (public_rest n segs segs') in Hpub as ->; try done. by eapply sp_public_rest.
  - inversion Hf' as [|? ? ? ? Hr1|? ? ? ? ? ? Hr1| |? n1 segs1 Hr1 Hj1]; subst; try congruence.
    assert (n1 = n) as -> by congruence. apply Forall_app in Hs as [Hs _], Hs' as [Hs' _].
    destruct (path_var_is_capability n) eqn:Hc; [by eapply sp_capability_rest|].
    apply (public_rest n segs segs1) in Hpub as ->; try done. by eapply sp_public_rest.
Qed.

(** ** Templates match in any case *)

(** The literal segments of a template are lowercase. *)
Definition lowercase_literals (template : string) : Prop :=
  Forall (fun seg => braced seg = None -> to_ascii_lowercase seg = seg) (split_on "/" template).

Lemma fits_lowercase ts segs ps :
  Forall (fun seg => braced seg = None -> to_ascii_lowercase seg = seg) ts -> fits ts segs ps ->
  fits ts (map to_ascii_lowercase segs) (map (fun b => (b.1, to_ascii_lowercase b.2)) ps).
Proof.
  intros Hl Hf. induction Hf as [|t ts segs ps Hr Hv Hf IH|t n ts s segs ps Hr Hv Hp Hf IH
    |t n segs Hr Hj|t n segs Hr Hj]; cbn [map fst snd].
  - constructor.
  - apply Forall_cons in Hl as [Ht Hl]. rewrite Ht by by apply literal_segment. constructor; auto.
  - apply Forall_cons in Hl as [_ Hl]. constructor; auto. by rewrite lowercase_empty.
  - rewrite <- join_lowercase. constructor; [done|]. by rewrite join_lowercase, lowercase_empty.
  - rewrite map_app. cbn [map]. rewrite <- join_lowercase. constructor; [done|].
    by rewrite join_lowercase, lowercase_empty.
Qed.

Lemma match_normalized template path ps :
  lowercase_literals template -> ends_with "/" path = false -> match_template template path = Some ps ->
  is_Some (match_template template (normalize_for_match path)).
Proof.
  intros Hl He Hm%match_template_fits. unfold normalize_for_match. rewrite trim_end_matches_id by done.
  eexists. apply match_template_fits. rewrite split_on_lowercase. by apply fits_lowercase.
Qed.

(** ** Trimmed paths *)
Lemma split_chars_chunks s :
  Forall (fun x => exists b r, x = String.String b r /\ str_forall is_continuation r = true) (split_chars s).
Proof.
  induction s as [|b s IH]; [constructor|]. simpl. destruct (split_chars s) as [|c cs] eqn:Hs.
  - repeat constructor. by exists b, "".
  - destruct (starts_continuation c) eqn:Hc.
    + apply Forall_cons in IH as [(b' & r & -> & Hr) IH]. constructor; [|done].
      exists b, (String.String b' r). split; [done|]. simpl in *. by rewrite Hc.
    + constructor; [by exists b, ""|done].
Qed.

Definition last_byte (s : string) : ascii := List.last (list_ascii_of_string s) "000"%char.
Lemma last_byte_snoc s c : last_byte (String.append s (String.String c "")) = c.
Proof.
  unfold last_byte. induction s as [|x s IH]; [done|]. rewrite str_app_cons. cbn [list_ascii_of_string].
  destruct s as [|y s]; [done|]. rewrite str_app_cons in *. done.
Qed.

Lemma last_char_slash s t b r :
  str_forall is_continuation r = true -> String.append s (String.String b r) = String.append t "/" ->
  String.String b r = "/".
Proof.
  intros Hr He. destruct r as [|c r].
  - apply (f_equal last_byte) in He.
    rewrite !last_byte_snoc in He. by subst b.
  - exfalso. assert (exists r' d, String.String c r = String.append r' (String.String d "") /\ is_continuation d = true)
      as (r' & d & Hd & Hc).
    { clear He. revert c Hr. induction r as [|c' r IH]; intros c; simpl; rewrite ?andb_true_iff.
      - intros [Hc _]. by exists "", c.
      - intros [Hc Hr]. destruct (IH c') as (r' & d & -> & Hd); [by simpl; rewrite andb_true_iff|].
        by exists (String.String c r'), d. }
    rewrite Hd in He. rewrite <- str_app_cons, <- str_app_assoc in He.
    apply (f_equal last_byte) in He.
    rewrite !last_byte_snoc in He. subst d. discriminate.
Qed.

Lemma drop_while_end_snoc {A} (p : A -> bool) l k x : drop_while_end p l = k ++ [x] -> p x = false.
Proof.
  revert k. induction l as [|y l IH]; intros k; simpl; [by destruct k|].
  destruct (drop_while_end p l) as [|z r] eqn:He.
  - destruct (p y) eqn:Hy; [by destruct k|]. intros Hk. destruct k as [|? [|]]; simplify_eq/=; done.
  - intros Hk. destruct k as [|w k]; simplify_eq/=. by eapply IH.
Qed.

Lemma trimmed_no_slash s : ends_with "/" (trim_end_matches "/" s) = false.
Proof.
  apply not_true_iff_false. rewrite ends_with_spec. unfold trim_end_matches.
  destruct (drop_while_end_prefix (String.eqb "/") (split_chars s)) as [cut Hcut].
  pose proof (split_chars_chunks s) as Hc. rewrite Hcut in Hc. apply Forall_app in Hc as [Hc _].
  remember (drop_while_end (String.eqb "/") (split_chars s)) as l eqn:Hl.
  destruct l as [|x k _] using rev_ind; [by intros [[|? ?] ?]|].
  intros [t Ht]. symmetry in Hl. apply drop_while_end_snoc in Hl.
  apply Forall_app in Hc as [_ (b & r & -> & Hr)%Forall_inv].
  rewrite concat_chars_app in Ht. cbn [concat_chars foldr] in Ht. rewrite str_app_nil_r in Ht.
  by rewrite (last_char_slash _ _ _ _ Hr Ht) in Hl.
Qed.

Lemma last_cons_some {A} (x y : A) l : last l = Some y -> last (x :: l) = Some y.
Proof. by destruct l. Qed.

(** A template with a final slash needs a path with one. *)
Lemma fits_last_empty ts segs ps : fits ts segs ps -> last ts = Some "" -> last segs = Some "".
Proof.
  induction 1 as [|t ts segs ps Hr Hv Hf IH|t n ts s segs ps Hr Hv Hp Hf IH|t n segs Hr Hj|t n segs Hr Hj];
    intros Hl.
  - done.
  - destruct ts as [|t' ts]; [inversion Hf; subst; by injection Hl as ->|]. apply last_cons_some, IH, Hl.
  - destruct ts as [|t' ts]; [injection Hl as ->; discriminate|]. apply last_cons_some, IH, Hl.
  - injection Hl as ->. discriminate.
  - apply last_snoc.
Qed.

Lemma split_on_last_empty s : last (split_on "/" s) = Some "" -> s = "" \/ ends_with "/" s = true.
Proof.
  intros Hl. destruct (split_on "/" s) as [|x l _] eqn:Hs using rev_ind; [done|].
  rewrite last_snoc in Hl. injection Hl as ->. rewrite <- (join_split_on "/" s), Hs.
  destruct l as [|y l]; [by left|right]. rewrite join_snoc_empty by done. apply ends_with_spec. eauto.
Qed.

Lemma lowercase_ends_slash s : ends_with "/" (to_ascii_lowercase s) = true -> ends_with "/" s = true.
Proof.
  rewrite !ends_with_spec. intros [t Ht].
  assert (last (split_on "/" (to_ascii_lowercase s)) = Some "") as Hl.
  { rewrite Ht, split_on_snoc. apply last_snoc. }
  rewrite split_on_lowercase in Hl. change (map to_ascii_lowercase (split_on "/" s))
    with (to_ascii_lowercase <$> split_on "/" s) in Hl. rewrite fmap_last in Hl.
  destruct (last (split_on "/" s)) as [x|] eqn:Hx; [|done]. injection Hl as ->%lowercase_empty.
  destruct (split_on_last_empty s Hx) as [->|He]; [by destruct t|]. by apply ends_with_spec in He.
Qed.

Lemma slash_template_unmatched template path :
  last (split_on "/" template) = Some "" -> template <> "" ->
  match_template template (normalize_for_match path) = None.
Proof.
  intros Hl Hne. destruct (match_template template _) as [ps|] eqn:Hm; [|done]. exfalso.
  apply match_template_fits in Hm. pose proof (fits_last_empty _ _ _ Hm Hl) as Hp.
  destruct (split_on_last_empty _ Hp) as [Hn|Hn%lowercase_ends_slash]; [|by rewrite trimmed_no_slash in Hn].
  rewrite Hn in Hm. change (split_on "/" "") with [""] in Hm.
  destruct (split_on "/" template) as [|t ts] eqn:Ht; [done|].
  inversion Hm as [|? ? ? ? Hr Hv Hf| | |? ? ps' Hr Hj]; subst; try congruence.
  - inversion Hf as [| | |? ? ? ? Hn'|]; subst; [|by destruct Hn'|].
    2: by match goal with H : ?l ++ _ = [] |- _ => destruct l end.
    by rewrite <- (join_split_on "/" template), Ht in Hne.
  - by match goal with H : join _ _ <> _ |- _ => destruct H end.
  - match goal with H : ?l ++ _ = [_] |- _ => destruct l as [|? [|]]; simplify_eq/= end.
Qed.

(** ** Properties *)
Section Properties.
Context {JN : JsonNumbers} {E : Endpoints} {BI : BlockInfos E}.
Context (declarations : list BlockInfo -> list BlockInfo).
Implicit Types (block_infos : list BlockInfo) (extra_routes : list ExtraRoute) (path : string).

(** The segments of a path as it is rebuilt, and the template that redacts it. *)
Definition path_segments path : list string := split_on "/" (trim_end_matches "/" path).
Definition redacting_template path block_infos : option string :=
  List.find (fun t => bool_decide (is_Some (match_template t (normalize_for_match path))))
    (capability_path_templates declarations block_infos).

Lemma redact_redacting path block_infos :
  redact_capability_path_vars declarations path block_infos =
  (fun t => join "/" (rebuild (path_segments path) 0 (split_on "/" t))) <$> redacting_template path block_infos.
Proof.
  unfold redact_capability_path_vars, redacting_template. induction (capability_path_templates _ _) as [|t ts IH];
    [done|]. cbn [redact_loop List.find]. destruct (match_template t _) as [ps|] eqn:Hm.
  - by rewrite bool_decide_eq_true_2 by by eexists.
  - by rewrite bool_decide_eq_false_2 by by intros [? ?].
Qed.

(** C23. A capability in a path is not written down.  Take two requests for one
    capability route that differ only in the segments the route binds to
    capability variables: the audit rows they leave are the same row, so no
    reader of the table can tell the capabilities apart. *)
Theorem capability_values_never_logged path path' t (row : NewRequestLog) block_infos extra_routes now
  (H : redacting_template path block_infos = Some t)
  (H' : redacting_template path' block_infos = Some t)
  (Hp : same_public (split_on "/" t) (path_segments path) (path_segments path')) :
  to_data now (stored_row declarations (with_path path row) block_infos extra_routes) =
  to_data now (stored_row declarations (with_path path' row) block_infos extra_routes).
Proof.
  unfold stored_row. cbn [nl_path with_path]. rewrite !redact_redacting, H, H'. cbn [fmap option_fmap option_map].
  by rewrite (rebuild_same_public _ _ (path_segments path')).
Qed.

(** Two paths that match one template and bind the same values to the
    variables that are no capabilities differ nowhere else. *)
Lemma same_bindings_same_public t path path' ps ps' :
  match_template t (trim_end_matches "/" path) = Some ps ->
  match_template t (trim_end_matches "/" path') = Some ps' ->
  public_bindings ps = public_bindings ps' -> same_public (split_on "/" t) (path_segments path) (path_segments path').
Proof.
  rewrite !match_template_fits. intros Hf Hf'. by apply (fits_same_public _ _ _ _ _ Hf Hf'); apply split_on_no_char.
Qed.

(** Every spelling of a capability route is redacted: when a declared
    template with lowercase literals binds a capability in a path, the path is
    redacted in whatever case and with however many final slashes it arrives,
    whether or not the request is served. *)
Theorem capability_routes_are_redacted t path ps path' block_infos
  (Ht : t ∈ capability_path_templates declarations block_infos)
  (Hl : lowercase_literals t) (He : ends_with "/" path = false)
  (Hm : match_template t path = Some ps)
  (Hn : normalize_for_match path' = normalize_for_match path) :
  exists t', t' ∈ capability_path_templates declarations block_infos /\
    redact_capability_path_vars declarations path' block_infos =
    Some (join "/" (rebuild (path_segments path') 0 (split_on "/" t'))).
Proof.
  rewrite redact_redacting. destruct (redacting_template path' block_infos) as [t'|] eqn:Hr.
  - apply List.find_some in Hr as [Hin _]. exists t'. by rewrite list_elem_of_In.
  - apply list_elem_of_In in Ht. pose proof (List.find_none _ _ Hr t Ht) as Hf. rewrite Hn in Hf.
    apply bool_decide_eq_false in Hf. by destruct Hf, (match_normalized _ _ _ Hl He Hm).
Qed.

(** A row that is kept verbatim names the site's root, a consumer's prefix or
    a declared endpoint; every other one stores the one label. *)
Lemma stored_path_cases (row : NewRequestLog) block_infos extra_routes :
  redact_capability_path_vars declarations (nl_path row) block_infos = None ->
  nl_path (stored_row declarations row block_infos extra_routes) =
  if resembles_a_declared_route (nl_path row) block_infos extra_routes then nl_path row else UNMATCHED_PATH_LABEL.
Proof. unfold stored_row. intros ->. by destruct (resembles_a_declared_route _ _ _). Qed.

(** ** The ceiling *)

(** The rows a thread attempts over a sequence of requests, each with the
    clock at its claim. *)
Fixpoint rows_admitted (config : option string) (reqs : list (Z * NewRequestLog)) (b : Budget)
  : list NewRequestLog :=
  match reqs with
  | [] => []
  | (now_ms, row) :: reqs =>
      let '(admitted, b) := admits_row config now_ms row b in
      (if admitted then [row] else []) ++ rows_admitted config reqs b
  end.

Lemma admits_row_errors config now_ms row b :
  parse_policy config = LogErrors ->
  admits_row config now_ms row b = (false, b) \/
  status_class_of (nl_status_code row) = ServerError /\
    admits_row config now_ms row b = claim_request_log_budget now_ms b.
Proof.
  unfold admits_row. intros ->. destruct (log_skips (nl_path row)); [by left|]. cbn [keeps orb].
  destruct (decide (status_class_of (nl_status_code row) = ServerError)) as [Hs|Hs].
  - rewrite bool_decide_eq_true_2 by done. by right.
  - rewrite bool_decide_eq_false_2 by done. by left.
Qed.

(** While no claim of a run opens a new window. *)
Lemma rows_in_window config reqs b :
  parse_policy config = LogErrors -> 0 <= used b <= REQUEST_LOG_CEILING_PER_WINDOW ->
  Forall (fun r => r.1 - window_start b < REQUEST_LOG_WINDOW_MS) reqs ->
  Z.of_nat (length (rows_admitted config reqs b)) <= REQUEST_LOG_CEILING_PER_WINDOW - used b.
Proof.
  intros Hc. revert b. induction reqs as [|[now_ms row] reqs IH]; intros b Hu Hw; cbn [rows_admitted];
    [simpl; lia|]. apply Forall_cons in Hw as [Hn Hw]. cbn [fst] in Hn.
  destruct (admits_row_errors config now_ms row b Hc) as [->|[_ ->]]; [by apply IH|].
  unfold claim_request_log_budget, saturating_sub.
  destruct (Z.leb_spec REQUEST_LOG_WINDOW_MS (Z.max 0 (now_ms - window_start b)));
    [unfold REQUEST_LOG_WINDOW_MS in *; lia|].
  destruct (Z.leb_spec REQUEST_LOG_CEILING_PER_WINDOW (used b)); [by apply IH|].
  cbn [app length]. rewrite Nat2Z.inj_succ.
  specialize (IH {| window_start := window_start b; used := used b + 1 |}). cbn [used window_start] in IH.
  specialize (IH ltac:(lia) Hw). lia.
Qed.

Lemma rows_admitted_errors config reqs b :
  parse_policy config = LogErrors ->
  Forall (fun row => status_class_of (nl_status_code row) = ServerError) (rows_admitted config reqs b).
Proof.
  intros Hc. revert b. induction reqs as [|[now_ms row] reqs IH]; intros b; cbn [rows_admitted]; [done|].
  destruct (admits_row_errors config now_ms row b Hc) as [->|[Hs ->]]; [apply IH|].
  destruct (claim_request_log_budget now_ms b) as [[] b']; cbn [app]; [by constructor|apply IH].
Qed.

(** Under the [errors] policy an error storm is bounded: of the requests
    whose clock readings fall in one span of an hour, in whatever order, a
    thread attempts at most 400 rows, at most 200 when its window was opened
    in that span, and every one of them is a server error, so nothing a
    visitor can provoke at will spends the ceiling. *)
Theorem error_storm_bounded config reqs b from
  (Hc : parse_policy config = LogErrors) (Hu : 0 <= used b <= REQUEST_LOG_CEILING_PER_WINDOW)
  (Hr : Forall (fun r => from <= r.1 < from + REQUEST_LOG_WINDOW_MS) reqs) :
  Forall (fun row => status_class_of (nl_status_code row) = ServerError) (rows_admitted config reqs b) /\
  Z.of_nat (length (rows_admitted config reqs b)) <=
    (if from <=? window_start b then 1 else 2) * REQUEST_LOG_CEILING_PER_WINDOW.
Proof.
  split; [by apply rows_admitted_errors|].
  assert (forall b reqs, from <= window_start b -> 0 <= used b <= REQUEST_LOG_CEILING_PER_WINDOW ->
    Forall (fun r => from <= r.1 < from + REQUEST_LOG_WINDOW_MS) reqs ->
    Z.of_nat (length (rows_admitted config reqs b)) <= REQUEST_LOG_CEILING_PER_WINDOW - used b) as Hopen.
  { intros b' reqs' Hb Hu' Hr'. apply rows_in_window; [done..|]. eapply Forall_impl; [exact Hr'|].
    cbn beta. intros r ?. lia. }
  destruct (Z.leb_spec from (window_start b)) as [Hb|Hb]; [specialize (Hopen b reqs Hb Hu Hr); lia|].
  cut (Z.of_nat (length (rows_admitted config reqs b)) <=
    REQUEST_LOG_CEILING_PER_WINDOW - used b + REQUEST_LOG_CEILING_PER_WINDOW); [lia|].
  clear Hb. revert b Hu. induction Hr as [|[now_ms row] reqs Hn Hr IH]; intros b Hu; cbn [rows_admitted];
    [cbn [length]; lia|]. cbn [fst] in Hn.
  destruct (admits_row_errors config now_ms row b Hc) as [->|[_ ->]]; [by apply IH|].
  unfold claim_request_log_budget.
  destruct (Z.leb_spec REQUEST_LOG_WINDOW_MS (saturating_sub now_ms (window_start b))); cbn [used window_start].
  - change (REQUEST_LOG_CEILING_PER_WINDOW <=? 0) with false. cbv iota. cbn [app length]. rewrite Nat2Z.inj_succ.
    specialize (Hopen {| window_start := now_ms; used := 0 + 1 |} reqs). cbn [used window_start] in Hopen.
    unfold REQUEST_LOG_CEILING_PER_WINDOW in *. specialize (Hopen ltac:(lia) ltac:(lia) Hr). lia.
  - destruct (Z.leb_spec REQUEST_LOG_CEILING_PER_WINDOW (used b)); [by apply IH|].
    cbn [app length]. rewrite Nat2Z.inj_succ.
    specialize (IH {| window_start := window_start b; used := used b + 1 |}). cbn [used] in IH.
    specialize (IH ltac:(lia)). lia.
Qed.

End Properties.

(** ** Witnesses *)
Definition share_infos : list BlockInfo :=
  [("impresspress/files", [(Wafer.Get, "/b/storage/direct/{token}", Public); (Wafer.Get, "/b/storage/api/buckets/{bucket}", Authenticated)], true)].
Definition log_row (path : string) (status : Z) : NewRequestLog := {|
  nl_method := "GET"; nl_path := path; nl_status_code := status; nl_error_message := "";
  nl_duration_ms := 3; nl_client_ip := "192.0.2.1"; nl_user_id := "";
|}.

Lemma capability_values_never_logged_witness :
  nl_path (stored_row id (log_row "/B/storage/direct/secret-1/" 404) share_infos []) = "/B/storage/direct/{token}" /\
  to_data "now" (stored_row id (with_path "/b/storage/direct/secret-1" (log_row "" 200)) share_infos []) =
  to_data "now" (stored_row id (with_path "/b/storage/direct/other-2" (log_row "" 200)) share_infos []).
Proof.
  split; [reflexivity|].
  apply (capability_values_never_logged id "/b/storage/direct/secret-1" "/b/storage/direct/other-2"
    "/b/storage/direct/{token}"); [reflexivity..|].
  do 4 (apply sp_literal; [reflexivity|]).
  eapply sp_capability; [reflexivity..|]. constructor.
Defined.

Lemma capability_routes_are_redacted_witness :
  exists t', t' ∈ capability_path_templates id share_infos /\
    redact_capability_path_vars id "/b/STORAGE/direct/abc//" share_infos =
    Some (join "/" (rebuild (path_segments "/b/STORAGE/direct/abc//") 0 (split_on "/" t'))).
Proof.
  apply (capability_routes_are_redacted id "/b/storage/direct/{token}" "/b/storage/direct/ABC" [("token", "ABC")]);
    [apply list_elem_of_here|repeat constructor; done|reflexivity..].
Defined.

Lemma error_storm_bounded_witness :
  let reqs := List.repeat (7, log_row "/b/products" 503) 250 in
  length (rows_admitted (Some "errors") reqs initial_budget) = 200%nat /\
  Forall (fun row => status_class_of (nl_status_code row) = ServerError)
    (rows_admitted (Some "errors") reqs initial_budget) /\
  Z.of_nat (length (rows_admitted (Some "errors") reqs initial_budget)) <=
    (if 0 <=? window_start initial_budget then 1 else 2) * REQUEST_LOG_CEILING_PER_WINDOW.
Proof.
  split; [vm_compute; reflexivity|].
  apply (error_storm_bounded (Some "errors") _ initial_budget 0); [reflexivity|by vm_compute|].
  apply Forall_forall. intros r Hr. apply list_elem_of_In, repeat_spec in Hr as ->. by vm_compute.
Defined.

(** The dashboard is declared, dispatched to, and logged as a request that
    names no route. *)
Definition admin_table : list (EndpointRoute nat) := [route_admin Wafer.Get "/b/admin/" 1%nat].
Definition admin_infos : list BlockInfo := [("impresspress/admin", declare admin_table, false)].

Theorem dashboard_logged_unmatched :
  snd (EndpointMatch.dispatch (sample_get "/b/admin/") admin_table) = Some 1%nat /\
  nl_path (stored_row id (log_row "/b/admin/" 200) admin_infos []) = UNMATCHED_PATH_LABEL.
Proof. split; reflexivity. Qed.
