(* ===== verification/AuthRepo.v ===== *)
(** * Rows of the auth block ([blocks/auth/repo/], [platform_state/user_roles.rs])

    Refresh tokens, login families (sessions), accounts and role grants: the
    reads and writes sign-in, refresh, logout and device revocation make. *)
From Stdlib Require Import String.
From S2P Require Import Prelude Ints Str Contracts Records Effects Columns DbRead Failures Features.

(** [wafer_run::hex_encode]; [sha256_hex] is [Features.Sha256]. *)
Class HexEncode := hex_encode : list Z -> string.

Section Shared.
Context {JN : JsonNumbers}.

(** [call.await.map_err(|e| db_failed(what, e))] *)
Definition labelled {A} (what : string) (p : prog (WResult A)) : prog (WResult A) :=
  r ← p; Done (map_err (db_failed what) r).

(** [n.max(0) as u64] and dropping the result. *)
Definition count_u64 (p : prog (WResult Z)) : prog (WResult Z) :=
  n ←? p; Done (Ok (Z.max 0 n)).
Definition ignore_result {A} (p : prog (WResult A)) : prog (WResult unit) :=
  _ ←? p; Done (Ok tt).

(** [repo::map_opt_str], [map_str], [value_bool], [map_bool] *)
Definition map_opt_str (m : columns) (key : string) : option string := v ← m !! key; as_str v.
Definition map_str (m : columns) (key : string) : string := default "" (map_opt_str m key).
Definition value_bool (v : Value) : bool :=
  match v with
  | VBool b => b
  | VNumber n => negb (default 0 (number_as_i64 n) =? 0)
  | VString s => String.eqb s "1" || eq_ignore_ascii_case s "true"
  | _ => false
  end.
Definition map_bool (m : columns) (key : string) : bool :=
  match m !! key with Some v => value_bool v | None => false end.

Definition internal_error (what : string) : WaferError := wafer_error Internal what.
Definition text_filter (f v : string) : Filter := eq_filter f (VString v).
Definition bool_filter (f : string) (b : bool) : Filter := eq_filter f (VBool b).
End Shared.

(** ** Refresh tokens ([repo/tokens.rs]) *)
Module Tokens.
Section Tokens.
Context {JN : JsonNumbers} {JS : JsonScalars JN} {SH : Sha256}.

Definition TABLE : string := "wafer_run__auth__tokens".
Definition hash (raw_token : string) : string := sha256_hex_bytes raw_token.

Definition new_row (user_id raw_token family : string) (generation : Z) (expires_at : string) : prog columns :=
  id ← ask UuidV7;
  now ← ask NowIso;
  Done (columns_of
    [("id", VString id); ("token_hash", VString (hash raw_token)); ("user_id", VString user_id);
     ("family", VString family); ("generation", json_i64 generation); ("revoked", VBool false);
     ("created_at", VString now); ("expires_at", VString expires_at)]).

Definition insert (user_id raw_token family : string) (generation : Z) (expires_at : string)
  : prog (WResult unit) :=
  data ← new_row user_id raw_token family generation expires_at;
  ignore_result (labelled "tokens insert" (do_call (Create TABLE data))).

Definition create_op (user_id raw_token family : string) (generation : Z) (expires_at : string)
  : prog BatchWrite :=
  data ← new_row user_id raw_token family generation expires_at;
  Done (BatchCreate TABLE data).

Record TokenRow := {
  tr_id : string; tr_user_id : string; tr_family : string; tr_generation : Z; tr_revoked : bool;
}.

Definition row_from_record (record : Row) : TokenRow := {|
  tr_family := str_field record "family";
  tr_user_id := str_field record "user_id";
  tr_generation := default 0 (v ← row_data record !! "generation"; as_i64 v);
  tr_revoked := bool_field record "revoked";
  tr_id := row_id record;
|}.

Definition find_by_token (raw_token : string) : prog (WResult (option TokenRow)) :=
  records ←? labelled "tokens lookup"
    (list_bounded TABLE [text_filter "token_hash" (hash raw_token)]
       (UniqueKey "wafer_run__auth__tokens_token_hash_uniq"));
  Done (Ok (row_from_record <$> head records)).

Definition live_filters (family : string) : list Filter :=
  [text_filter "family" family; bool_filter "revoked" false].
Definition family_has_live_row (family : string) : prog (WResult bool) :=
  records ←? labelled "tokens family lookup"
    (list_bounded TABLE (live_filters family)
       (OnePer "live generation in one refresh-token family — rotation revokes the predecessor"));
  Done (Ok (negb (bool_decide (records = [])))).

Definition revoked_data : columns := columns_of [("revoked", VBool true)].
Definition claim_filters (id : string) : list Filter :=
  [text_filter "id" id; bool_filter "revoked" false].
Definition revoke_if_live (id : string) : prog (WResult bool) :=
  n ←? labelled "tokens revoke_if_live"
    (do_call (UpdateByFiltersCount TABLE (claim_filters id) revoked_data));
  Done (Ok (0 <? n)).

Definition revoke_family (family : string) : prog (WResult unit) :=
  labelled "tokens revoke_family"
    (do_call (UpdateByFilters TABLE [text_filter "family" family] revoked_data)).

Definition revoke_all_for_user (user_id : string) : prog (WResult unit) :=
  labelled "tokens revoke_all_for_user"
    (do_call (UpdateByFilters TABLE [text_filter "user_id" user_id] revoked_data)).

Definition expired_filter (cutoff : string) : Filter :=
  {| field := "expires_at"; operator := OpLessThan; value := VString cutoff |}.
Definition delete_expired (cutoff : string) : prog (WResult Z) :=
  count_u64 (labelled "tokens delete_expired" (do_call (DeleteByFiltersCount TABLE [expired_filter cutoff]))).
End Tokens.
End Tokens.

(** ** Login families ([repo/sessions.rs]) *)
Module Sessions.
Section Sessions.
Context {JN : JsonNumbers}.

Definition TABLE : string := "wafer_run__auth__sessions".

Record SessionRow := {
  sr_family : string; sr_user_id : string; sr_auth_method : string;
  sr_created_at : string; sr_last_used_at : string; sr_expires_at : string;
}.
Record NewSession := {
  ns_family : string; ns_user_id : string; ns_auth_method : string; ns_expires_at : string;
}.

Definition row_from_map (m : columns) : WResult SessionRow :=
  family ← ok_or (map_opt_str m "family") (internal_error "missing family");
  user_id ← ok_or (map_opt_str m "user_id") (internal_error "missing user_id");
  Ok {| sr_family := family; sr_user_id := user_id; sr_auth_method := map_str m "auth_method";
        sr_created_at := map_str m "created_at"; sr_last_used_at := map_str m "last_used_at";
        sr_expires_at := map_str m "expires_at" |}.

Definition family_filter (family : string) : Filter := text_filter "family" family.
Definition user_filter (user_id : string) : Filter := text_filter "user_id" user_id.

Definition new_row (new : NewSession) : prog columns :=
  now ← ask NowIso;
  Done (columns_of
    [("family", VString (ns_family new)); ("user_id", VString (ns_user_id new));
     ("auth_method", VString (ns_auth_method new)); ("created_at", VString now);
     ("last_used_at", VString now); ("expires_at", VString (ns_expires_at new))]).

Definition create_op (new : NewSession) : prog BatchWrite :=
  data ← new_row new; Done (BatchCreate TABLE data).

Definition touch (family expires_at : string) : prog (WResult Z) :=
  now ← ask NowIso;
  let data := columns_of [("last_used_at", VString now); ("expires_at", VString expires_at)] in
  count_u64 (labelled "session touch" (do_call (UpdateByFiltersCount TABLE [family_filter family] data))).

Definition find_for_user (user_id family : string) : prog (WResult (option SessionRow)) :=
  records ←? labelled "session find_for_user"
    (list_bounded TABLE [family_filter family; user_filter user_id]
       (UniqueKey "sessions.family is the PRIMARY KEY"));
  match head records with
  | Some r => row ←! row_from_map (row_data r); Done (Ok (Some row))
  | None => Done (Ok None)
  end.

Definition is_live (user_id family : string) : prog (WResult bool) :=
  now ← ask NowIso;
  records ←? labelled "session is_live"
    (list_bounded TABLE
       [family_filter family; user_filter user_id;
        {| field := "expires_at"; operator := OpGreaterThan; value := VString now |}]
       (UniqueKey "sessions.family is the PRIMARY KEY"));
  Done (Ok (negb (bool_decide (records = [])))).

Definition delete (family : string) : prog (WResult Z) :=
  count_u64 (labelled "session delete" (do_call (DeleteByFiltersCount TABLE [family_filter family]))).

Definition delete_all_for_user (user_id : string) : prog (WResult Z) :=
  count_u64 (labelled "session delete_all_for_user"
    (do_call (DeleteByFiltersCount TABLE [user_filter user_id]))).

Definition delete_expired (cutoff : string) : prog (WResult Z) :=
  count_u64 (labelled "session delete_expired"
    (do_call (DeleteByFiltersCount TABLE [Tokens.expired_filter cutoff]))).
End Sessions.
End Sessions.

(** ** Accounts ([repo/users.rs]) *)
Module Users.
Section Users.
Context {JN : JsonNumbers} {JS : JsonScalars JN}.

Definition TABLE : string := "wafer_run__auth__users".
Definition AUTH_VERSION_FIELD : string := "auth_version".

Record UserRow := {
  ur_id : string; ur_email : string; ur_display_name : string; ur_name : option string;
  ur_avatar_url : option string; ur_disabled : bool; ur_deleted_at : option string;
  ur_email_verified : bool; ur_email_verified_by : option string; ur_last_login_at : option string;
  ur_created_at : string; ur_updated_at : string; ur_auth_version : Z;
}.

Definition is_deleted (u : UserRow) : bool :=
  match ur_deleted_at u with Some s => negb (is_empty s) | None => false end.
Definition is_active (u : UserRow) : bool := negb (ur_disabled u) && negb (is_deleted u).
Definition email_is_proven (u : UserRow) : bool :=
  match ur_email_verified_by u with Some by_ => negb (is_empty by_) | None => false end.

Definition row_from (id : string) (m : columns) : WResult UserRow :=
  email ← ok_or (map_opt_str m "email") (internal_error "missing email");
    Ok {| ur_id := id; ur_email := email; ur_display_name := map_str m "display_name";
          ur_name := map_opt_str m "name"; ur_avatar_url := map_opt_str m "avatar_url";
          ur_disabled := map_bool m "disabled"; ur_deleted_at := map_opt_str m "deleted_at";
          ur_email_verified := map_bool m "email_verified";
          ur_email_verified_by := map_opt_str m "email_verified_by";
          ur_last_login_at := map_opt_str m "last_login_at";
          ur_created_at := map_str m "created_at"; ur_updated_at := map_str m "updated_at";
          ur_auth_version := i64_field (row_of id m) AUTH_VERSION_FIELD |}.

Definition row_from_map (m : columns) : WResult UserRow :=
  id ← ok_or (map_opt_str m "id") (internal_error "missing id"); row_from id m.

Definition find_by_id (id : string) : prog (WResult (option UserRow)) :=
  r ← do_call (Get TABLE id);
  match r with
  | Ok rec => row ←! row_from_map (row_data rec); Done (Ok (Some row))
  | Err e => if bool_decide (we_code e = NotFound) then Done (Ok None)
             else Done (Err (db_failed "select by id" e))
  | Panic => Done Panic
  end.

Definition auth_version (user_id : string) : prog (WResult Z) :=
  r ← do_call (Get TABLE user_id);
  match r with
  | Ok rec => Done (Ok (i64_field rec AUTH_VERSION_FIELD))
  | Err e => if bool_decide (we_code e = NotFound) then Done (Ok 0)
             else Done (Err (db_failed (String.append "get auth_version for " user_id) e))
  | Panic => Done Panic
  end.

Definition bump_auth_version (user_id : string) : prog (WResult unit) :=
  ignore_result (labelled (String.append "bump_auth_version for " user_id)
    (do_call (IncrementFieldWhere TABLE AUTH_VERSION_FIELD 1 [text_filter "id" user_id]))).
End Users.
End Users.

(** ** Role grants ([platform_state/user_roles.rs]) *)
Module UserRoles.
Section UserRoles.
Context {JN : JsonNumbers} {JS : JsonScalars JN}.

Definition TABLE : string := "impresspress__admin__user_roles".

Record UserRoleRow := {
  rr_id : string; rr_user_id : string; rr_role : string; rr_assigned_at : option string;
  rr_assigned_by : string; rr_created_at : string; rr_updated_at : string;
}.

(** [None]: the row is refused, with a message for the log. *)
Definition from_record (id : string) (data : columns) : option UserRoleRow :=
  let text key := str_field (row_of id data) key in
  if is_empty (text "user_id") then None
  else if is_empty (text "role") then None
  else Some {| rr_id := id; rr_user_id := text "user_id"; rr_role := text "role";
               rr_assigned_at := map_opt_str data "assigned_at"; rr_assigned_by := text "assigned_by";
               rr_created_at := text "created_at"; rr_updated_at := text "updated_at" |}.

Definition decode_rows (records : list Row) : list UserRoleRow :=
  omap (fun r => from_record (row_id r) (row_data r)) records.

Definition list_for_principals (filters : list Filter) (bound : Bound) : prog (WResult (list UserRoleRow)) :=
  records ←? list_bounded TABLE filters bound; Done (Ok (decode_rows records)).

Definition list_for_user (user_id : string) : prog (WResult (list UserRoleRow)) :=
  list_for_principals [text_filter "user_id" user_id] (OnePer "role one user holds").

Definition list_for_users (user_ids : list string) : prog (WResult (list UserRoleRow)) :=
  match user_ids with
  | [] => Done (Ok [])
  | _ =>
      list_for_principals
        [{| field := "user_id"; operator := OpIn; value := VArray (map VString user_ids) |}]
        (OnePer "role held by one of the user ids on one admin list page")
  end.

Definition list_by_role (fuel : nat) (role : string) : prog (option (WResult (list UserRoleRow))) :=
  r ← list_every fuel TABLE [text_filter "role" role];
  Done (match r with
        | Some (Ok records) => Some (Ok (decode_rows records))
        | Some (Err e) => Some (Err e)
        | Some Panic => Some Panic
        | None => None
        end).
End UserRoles.
End UserRoles.
