(* ===== verification/AuthTail.v ===== *)
(** * The issuance tail ([blocks/auth/mod.rs], [blocks/auth/config.rs])

    Lifetimes, claims and the rows behind a session: minting a token pair,
    writing a login family or its next generation, and ending families. *)
From Stdlib Require Import String.
From S2P Require Import Prelude Ints Str Contracts Records Effects Columns DbRead Failures Features AuthRepo.

(** ** Configuration *)
Definition SESSION_LIFETIME_DAYS_DEFAULT : Z := 7.
Definition SESSION_LIFETIME_DAYS_MAX : Z := 3650.
Definition ACCESS_TOKEN_LIFETIME_SECS_DEFAULT : Z := 1800.
Definition ACCESS_TOKEN_LIFETIME_SECS_MAX : Z := 86400.
Definition SESSION_LIFETIME_DAYS_KEY : string := "WAFER_RUN_SHARED__AUTH__SESSION_LIFETIME_DAYS".
Definition ACCESS_TOKEN_LIFETIME_SECS_KEY : string := "WAFER_RUN__AUTH__ACCESS_TOKEN_LIFETIME_SECS".
Definition REQUIRE_VERIFICATION_KEY : string := "WAFER_RUN__AUTH__REQUIRE_VERIFICATION".
Definition ENVIRONMENT_KEY : string := "WAFER_RUN_SHARED__ENVIRONMENT".
Definition FRONTEND_URL_KEY : string := "WAFER_RUN_SHARED__FRONTEND_URL".

Definition parse_session_lifetime_days (raw : string) : outcome string Z :=
  if is_empty raw then Ok SESSION_LIFETIME_DAYS_DEFAULT
  else
    match parse_u32 raw with
    | Some days =>
        if in_range 1 SESSION_LIFETIME_DAYS_MAX days then Ok days
        else Err "must be a whole number of days from 1 to 3650"
    | None => Err "must be a whole number of days from 1 to 3650"
    end.

(** [config_vars::is_truthy] *)
Definition is_truthy (value : string) : bool :=
  existsb (String.eqb (to_ascii_lowercase (trim value))) ["1"; "true"; "yes"; "on"].

Section Tail.
Context {JN : JsonNumbers} {JS : JsonScalars JN} {SH : Sha256} {HE : HexEncode}.

(** [config_vars::get_bool] *)
Definition get_bool (key : string) (default : bool) : prog (WResult bool) :=
  value ←? ask (ConfigGetDefault key (if default then "true" else "false"));
  Done (Ok (is_truthy value)).

(** [crypto::expected_issuer] *)
Definition expected_issuer : prog (WResult string) :=
  ask (ConfigGetDefault FRONTEND_URL_KEY "http://localhost:5173").

Definition access_token_lifetime_secs : prog (WResult Z) :=
  raw ←? ask (ConfigGetDefault ACCESS_TOKEN_LIFETIME_SECS_KEY "");
  let n := match parse_u64 raw with
           | Some n => if 0 <? n then n else ACCESS_TOKEN_LIFETIME_SECS_DEFAULT
           | None => ACCESS_TOKEN_LIFETIME_SECS_DEFAULT
           end in
  Done (Ok (Z.min n ACCESS_TOKEN_LIFETIME_SECS_MAX)).

Definition session_lifetime_days : prog (WResult Z) :=
  raw ←? ask (ConfigGetDefault SESSION_LIFETIME_DAYS_KEY "");
  Done (map_err (fun e => wafer_error Internal
          (concat_chars [SESSION_LIFETIME_DAYS_KEY; " is misconfigured: "; e]))
       (parse_session_lifetime_days raw)).

Record SessionLifetime := { ttl_secs : Z; lt_expires_at : string }.

(** [SessionLifetime::resolve]: the clock is read when the number of seconds
    fits an [i64]. *)
Definition resolve_lifetime : prog (WResult SessionLifetime) :=
  days ←? session_lifetime_days;
  let ttl_secs := days * 86400 in
  expires_at ← match checked in_i64 ttl_secs with
               | Some secs => ask (IsoAfter secs)
               | None => Done None
               end;
  Done (match expires_at with
        | Some at_ => Ok {| ttl_secs := ttl_secs; lt_expires_at := at_ |}
        | None => Err (wafer_error Internal
            (concat_chars ["refresh-token lifetime of "; dec ttl_secs; "s is past the representable date range"]))
        end).

(** [map_err(OutputStream::error)] *)
Definition output_err {A} (p : prog (WResult A)) : prog (outcome OutputStream A) :=
  r ← p; Done (map_err OutputError r).
Definition resolve_or_error : prog (outcome OutputStream SessionLifetime) := output_err resolve_lifetime.

(** ** Roles and grants *)
Fixpoint role_names_loop (roles : list string) (grants : list UserRoles.UserRoleRow) : list string :=
  match grants with
  | [] => roles
  | grant :: grants =>
      role_names_loop
        (if existsb (String.eqb (UserRoles.rr_role grant)) roles then roles
         else roles ++ [UserRoles.rr_role grant]) grants
  end.
Definition role_names : list UserRoles.UserRoleRow -> list string := role_names_loop [].

Definition get_user_roles (user_id : string) : prog (WResult (list string)) :=
  grants ←? labelled "get_user_roles: roles table lookup" (UserRoles.list_for_user user_id);
  Done (Ok (role_names grants)).

Record TokenGrant := { tg_auth_version : Z; tg_roles : list string }.

Definition resolve_grant (user : Users.UserRow) : prog (WResult TokenGrant) :=
  grants ←? labelled "token roles: roles table lookup" (UserRoles.list_for_user (Users.ur_id user));
  Done (Ok {| tg_auth_version := Users.ur_auth_version user; tg_roles := role_names grants |}).

(** ** Tokens *)
Definition text (s : string) : Value := VString s.

(** [generate_tokens]: the access token, the refresh token and the family. *)
Definition generate_tokens (lifetime : SessionLifetime) (user_id email : string) (grant : TokenGrant)
    (auth_method : string) (family : option string) : prog (outcome OutputStream (string * string * string)) :=
  bytes ←? output_err (ask (RandomBytes (match family with Some _ => 16 | None => 32 end)));
  ids ←! match family with
         | Some f => Ok (f, hex_encode bytes)
         | None =>
             (* &bytes[..16] *)
             if (length bytes <? 16)%nat then Panic
             else Ok (hex_encode (take 16 bytes), hex_encode (drop 16 bytes))
         end;
  let '(family, refresh_jti) := ids in
  access_lifetime_secs ←? output_err access_token_lifetime_secs;
  issuer ←? output_err expected_issuer;
  let access_claims := columns_of
    [("user_id", text user_id); ("sub", text user_id); ("email", text email);
     ("roles", VArray (map text (tg_roles grant))); ("type", text "access");
     ("auth_method", text auth_method); ("iss", text issuer); ("family", text family);
     (Users.AUTH_VERSION_FIELD, json_i64 (tg_auth_version grant))] in
  access_token ←? output_err (ask (CryptoSign access_claims access_lifetime_secs));
  let refresh_claims := columns_of
    [("user_id", text user_id); ("sub", text user_id); ("type", text "refresh");
     ("family", text family); ("auth_method", text auth_method); ("iss", text issuer);
     ("jti", text refresh_jti); (Users.AUTH_VERSION_FIELD, json_i64 (tg_auth_version grant))] in
  refresh_token ←? output_err (ask (CryptoSign refresh_claims (ttl_secs lifetime)));
  Done (Ok (access_token, refresh_token, family)).

(** [cookie_secure_attribute]: [to_lowercase] and the ASCII one agree on which
    strings become [development]. *)
Definition cookie_secure_attribute : prog (WResult string) :=
  env ←? ask (ConfigGetDefault ENVIRONMENT_KEY "development");
  Done (Ok (if String.eqb (to_ascii_lowercase env) "development" then "" else "; Secure")).

Definition auth_cookie (token : string) (max_age : Z) : prog (WResult string) :=
  secure ←? cookie_secure_attribute;
  Done (Ok (concat_chars ["auth_token="; token; "; HttpOnly; Path=/; SameSite=Lax; Max-Age="; dec max_age; secure])).
Definition clear_auth_cookie : prog (WResult string) := auth_cookie "" 0.

(** ** Ending families *)
Definition end_family (family : string) : prog (WResult unit) :=
  _ ←? Sessions.delete family;
  Tokens.revoke_family family.

Inductive DevicesNotEnded := StillSignedIn (e : WaferError) | RefreshRowsLive (e : WaferError).
Definition devices_error (d : DevicesNotEnded) : WaferError :=
  match d with StillSignedIn e | RefreshRowsLive e => e end.

Definition end_all_families (user_id : string) : prog (outcome DevicesNotEnded unit) :=
  deleted ← Sessions.delete_all_for_user user_id;
  _ ←! map_err StillSignedIn deleted;
  revoked ← Tokens.revoke_all_for_user user_id;
  Done (map_err RefreshRowsLive revoked).

Definition refresh_token_revoked : OutputStream :=
  error_response Errors.InvalidToken "Refresh token has been revoked".

(** ** Establishing a family *)
Inductive Rotation := NewFamily | Within (family : string) (generation : Z).
Inductive FamilyNotEstablished := Ended | Failed (e : WaferError) (what : string).

Definition establish_family (lifetime : SessionLifetime) (user_id refresh_token family : string)
    (rotation : Rotation) (auth_method : string) : prog (outcome FamilyNotEstablished unit) :=
  match rotation with
  | NewFamily =>
      op1 ← Tokens.create_op user_id refresh_token family 0 (lt_expires_at lifetime);
      op2 ← Sessions.create_op
        {| Sessions.ns_family := family; Sessions.ns_user_id := user_id;
           Sessions.ns_auth_method := auth_method; Sessions.ns_expires_at := lt_expires_at lifetime |};
      r ← do_call (Batch [op1; op2]);
      Done (map_err (fun e => Failed (db_failed "login family insert" e) "Could not record the sign-in") r)
  | Within _ generation =>
      inserted ← Tokens.insert user_id refresh_token family generation (lt_expires_at lifetime);
      _ ←! map_err (fun e => Failed e "Could not persist the refresh token") inserted;
      touched ← Sessions.touch family (lt_expires_at lifetime);
      match touched with
      | Ok 0 =>
          revoked ← Tokens.revoke_family family;
          _ ←! map_err (fun e => Failed e "Refresh could not revoke the token family") revoked;
          Done (Err Ended)
      | Ok _ => Done (Ok tt)
      | Err e =>
          _ ← end_family family;
          Done (Err (Failed e "Refresh could not confirm the login family"))
      | Panic => Done Panic
      end
  end.

Record IssuedLogin := {
  il_access_token : string; il_refresh_token : string; il_access_lifetime : Z; il_cookie : string;
}.

Definition not_established (refused : FamilyNotEstablished) : OutputStream :=
  match refused with
  | Ended => refresh_token_revoked
  | Failed e what => db_error_internal e what
  end.

(** [issue_tokens_and_cookie]; the sweep it defers runs after the response, as
    a handler of its own. *)
Definition issue_tokens_and_cookie (lifetime : SessionLifetime) (user_id email : string)
    (grant : TokenGrant) (auth_method : string) (rotation : Rotation)
  : prog (outcome OutputStream IssuedLogin) :=
  let family := match rotation with NewFamily => None | Within family _ => Some family end in
  tokens ←? generate_tokens lifetime user_id email grant auth_method family;
  let '(access_token, refresh_token, issued_family) := tokens in
  established ← establish_family lifetime user_id refresh_token issued_family rotation auth_method;
  _ ←! map_err not_established established;
  access_lifetime ←? output_err access_token_lifetime_secs;
  cookie ←? output_err (auth_cookie access_token access_lifetime);
  Done (Ok {| il_access_token := access_token; il_refresh_token := refresh_token;
              il_access_lifetime := access_lifetime; il_cookie := cookie |}).
End Tail.
