(* ===== verification/Csrf.v ===== *)
(** * Cross-site request forgery ([csrf.rs])

    Where a request came from, as far as the browser says; which requests the
    origin policy refuses; the proof a session is issued on; and the
    synchronizer token of plain forms. *)
From Stdlib Require Import String.
From S2P Require Import Prelude Ints Str Contracts SampleLib Wafer Records Failures.

(** [url::Url]: the host and the explicit port of an absolute URL. *)
Record Url := { url_host : option string; url_port : option Z }.
Class UrlParse := url_parse : string -> option Url.

(** [wafer_block_crypto::primitives] as the token uses them: the key derived
    from the master secret, the code in hexadecimal, and the comparison. *)
Class TokenCrypto := {
  derive_block_key : string -> string -> string;
  hmac_sha256_hex : string -> string -> string;
  constant_time_eq : string -> string -> bool;
}.
Class TokenCryptoLaws (T : TokenCrypto) := {
  constant_time_eq_spec : forall a b, constant_time_eq a b = String.eqb a b;
}.

Section Csrf.
Context {JN : JsonNumbers} {MS : Messages} {UP : UrlParse}.

Definition is_unsafe_method (action : string) : bool :=
  existsb (String.eqb action) ["create"; "update"; "delete"].

Definition ORIGIN_BLOCKED_REASON : string :=
  "This request couldn't be verified as coming from this site. Reload the page and try again.".

Inductive Origin := SameOrigin | CrossOrigin | NoBrowserSignal.
#[export] Instance origin_eq_dec : EqDecision Origin.
Proof. solve_decision. Defined.

(** [Message::header] *)
Definition msg_header (msg : Message) (name : string) : string :=
  get_meta msg (String.append "http.header." name).

Definition request_authority (url_str : string) : option string :=
  url ← url_parse url_str;
  host ← url_host url;
  let host := to_ascii_lowercase host in
  Some (match url_port url with
        | Some p => concat_chars [host; ":"; dec p]
        | None => host
        end).

Definition normalize_authority (host_header : string) : option string :=
  if is_empty host_header then None
  else request_authority (String.append "http://" host_header).

(** The loop over the fallback headers: the first that is present decides. *)
Fixpoint first_present (msg : Message) (self_authority : option string) (hs : list string) : Origin :=
  match hs with
  | [] => NoBrowserSignal
  | header :: hs =>
      let value := msg_header msg header in
      if is_empty value then first_present msg self_authority hs
      else
        let authority := request_authority value in
        if bool_decide (is_Some authority) && bool_decide (authority = self_authority)
        then SameOrigin else CrossOrigin
  end.

Definition request_origin (msg : Message) : Origin :=
  let sec_fetch_site := msg_header msg "sec-fetch-site" in
  if negb (is_empty sec_fetch_site) then
    if existsb (String.eqb (to_ascii_lowercase sec_fetch_site)) ["same-origin"; "none"]
    then SameOrigin else CrossOrigin
  else first_present msg (normalize_authority (msg_header msg "host")) ["origin"; "referer"].

Definition origin_policy_refuses (msg : Message) (cookie_authenticated : bool) : bool :=
  if negb cookie_authenticated || is_empty (msg_user_id msg) || negb (is_unsafe_method (msg_action msg))
  then false
  else negb (bool_decide (request_origin msg = SameOrigin)).

Definition enforce_origin_policy (msg : Message) (cookie_authenticated : bool) : option OutputStream :=
  if origin_policy_refuses msg cookie_authenticated
  then Some (ForbiddenPage ORIGIN_BLOCKED_REASON) else None.

(** [SessionIssuance::verify]: the proof carries no data. *)
Definition session_issuance_verify (msg : Message) : outcome OutputStream unit :=
  match request_origin msg with
  | SameOrigin | NoBrowserSignal => Ok tt
  | CrossOrigin => Err (ForbiddenPage ORIGIN_BLOCKED_REASON)
  end.

(** ** The synchronizer token *)
Context {TC : TokenCrypto}.

Definition CSRF_KEY_LABEL : string := "impresspress/csrf".
Definition ANONYMOUS_SUBJECT : string := "anonymous".

Definition subject_for (msg : Message) : string :=
  let uid := msg_user_id msg in if is_empty uid then ANONYMOUS_SUBJECT else uid.

(** [token] under the master secret, [None] when it is not configured. *)
Definition token (secret : option string) (msg : Message) : string :=
  hmac_sha256_hex (derive_block_key (default "" secret) CSRF_KEY_LABEL) (subject_for msg).

Definition verify (secret : option string) (msg : Message) (submitted : string) : bool :=
  if is_empty submitted then false else constant_time_eq (token secret msg) submitted.

(** ** Properties *)

(** What a browser has to say for a request to count as same-origin. *)
Definition same_site_evidence (msg : Message) : Prop :=
  let site := msg_header msg "sec-fetch-site" in
  to_ascii_lowercase site ∈ ["same-origin"; "none"] \/
  site = "" /\ exists header authority,
    (header = "origin" \/ header = "referer" /\ msg_header msg "origin" = "") /\
    request_authority (msg_header msg header) = Some authority /\
    normalize_authority (msg_header msg "host") = Some authority.

Lemma first_present_same msg self hs :
  first_present msg self hs = SameOrigin ->
  exists pre header authority, pre ++ [header] `prefix_of` hs /\ Forall (fun h => msg_header msg h = "") pre /\
    request_authority (msg_header msg header) = Some authority /\ self = Some authority.
Proof.
  induction hs as [|h hs IH]; simpl; [done|]. destruct (is_empty (msg_header msg h)) eqn:He.
  - intros (pre & header & authority & [hs' ->] & Hpre & Ha)%IH. apply is_empty_spec in He.
    exists (h :: pre), header, authority. split; [by exists hs'|]. split; [by constructor|done].
  - destruct (_ && _) eqn:Hb; [|done]. intros _.
    apply andb_true_iff in Hb as [[a Ha]%bool_decide_eq_true Hs%bool_decide_eq_true].
    exists [], h, a. split; [by exists hs|]. split; [done|]. by rewrite <- Hs.
Qed.

Lemma request_origin_same msg : request_origin msg = SameOrigin -> same_site_evidence msg.
Proof.
  unfold request_origin, same_site_evidence. destruct (is_empty (msg_header msg "sec-fetch-site")) eqn:He; cbn [negb].
  - apply is_empty_spec in He. intros (pre & header & a & [hs Hhs] & Hpre & Ha & Hn)%first_present_same.
    right. split; [done|]. exists header, a. split; [|done].
    destruct pre as [|h1 [|h2 [|h3 pre]]]; simpl in Hhs; try discriminate Hhs.
    + injection Hhs as <- _. by left.
    + injection Hhs as <- <- _. right. split; [done|]. by apply Forall_inv in Hpre.
  - destruct (existsb _ _) eqn:Hx; [|done]. intros _. left.
    apply existsb_exists in Hx as (x & Hin & ->%String.eqb_eq). by apply list_elem_of_In.
Qed.

(** A request that reaches its handler with the ambient cookie as its
    credential and changes state came from this site: the browser said
    [same-origin] or [none], or, saying nothing, its [Origin] - or without one
    its [Referer] - names the host the request was sent to. *)
Theorem cookie_writes_are_same_site msg :
  enforce_origin_policy msg true = None -> msg_user_id msg <> "" ->
  msg_action msg ∈ ["create"; "update"; "delete"] -> same_site_evidence msg.
Proof.
  unfold enforce_origin_policy, origin_policy_refuses. intros Hp Hu Ha.
  apply is_empty_false in Hu. rewrite Hu in Hp.
  assert (is_unsafe_method (msg_action msg) = true) as Hm.
  { apply existsb_exists. exists (msg_action msg). rewrite String.eqb_refl. split; [by apply list_elem_of_In|done]. }
  rewrite Hm in Hp. cbn [negb orb] in Hp. destruct (bool_decide (request_origin msg = SameOrigin)) eqn:Ho; [|done].
  apply request_origin_same. by apply bool_decide_eq_true in Ho.
Qed.

(** A request that is handed a session comes from this site or from no
    browser at all: it carries none of the three headers. *)
Theorem issued_sessions_are_not_cross_site msg :
  session_issuance_verify msg = Ok tt ->
  same_site_evidence msg \/
  (forall header, header ∈ ["sec-fetch-site"; "origin"; "referer"] -> msg_header msg header = "").
Proof.
  unfold session_issuance_verify. destruct (request_origin msg) eqn:Ho; [|done|]; intros _.
  - left. by apply request_origin_same.
  - right. unfold request_origin in Ho.
    destruct (is_empty (msg_header msg "sec-fetch-site")) eqn:He; cbn [negb] in Ho.
    + apply is_empty_spec in He. simpl in Ho.
      destruct (is_empty (msg_header msg "origin")) eqn:H1; [|by destruct (_ && _)].
      destruct (is_empty (msg_header msg "referer")) eqn:H2; [|by destruct (_ && _)].
      apply is_empty_spec in H1, H2. set_solver.
    + by destruct (existsb _ _).
Qed.

(** The form token of one identity is accepted for it, and no other text is. *)
Lemma verify_token `{!TokenCryptoLaws TC} secret msg submitted :
  verify secret msg submitted = true <-> submitted <> "" /\ submitted = token secret msg.
Proof.
  unfold verify. rewrite constant_time_eq_spec. destruct (is_empty submitted) eqn:He.
  - apply is_empty_spec in He. naive_solver.
  - apply is_empty_false in He. rewrite String.eqb_eq. naive_solver.
Qed.
End Csrf.

(** ** Witnesses *)
#[export] Instance sample_url_parse : UrlParse := fun s =>
  h ← strip_prefix "http://" s; Some {| url_host := Some h; url_port := None |}.

Definition form_post (headers : list (string * string)) : Message :=
  {| sm_action := "create"; sm_path := "/b/products"; sm_user := "ann"; sm_meta := headers |}.

Lemma cookie_writes_are_same_site_witness :
  same_site_evidence (form_post [("http.header.host", "shop.test"); ("http.header.origin", "http://SHOP.test")]).
Proof.
  apply (cookie_writes_are_same_site
    (form_post [("http.header.host", "shop.test"); ("http.header.origin", "http://SHOP.test")]));
    [reflexivity|discriminate|set_solver].
Defined.

Lemma issued_sessions_are_not_cross_site_witness :
  same_site_evidence (form_post [("http.header.sec-fetch-site", "none")]) \/
  (forall header, header ∈ ["sec-fetch-site"; "origin"; "referer"] ->
     msg_header (form_post [("http.header.sec-fetch-site", "none")]) header = "").
Proof.
  apply (issued_sessions_are_not_cross_site (form_post [("http.header.sec-fetch-site", "none")])). reflexivity.
Defined.
