(* ===== verification/Refresh.v ===== *)
(** * Refresh, logout and device revocation
      ([auth_ui/api/refresh.rs], [auth_ui/api/logout.rs], [userportal/pages/sessions.rs])

    The three handlers that move the rows of a login family. *)
From Stdlib Require Import String.
From S2P Require Import Prelude Ints Str Contracts Wafer Records Effects Columns DbRead Failures Features AuthRepo AuthTail Csrf Crud.

Section Handlers.
Context {JN : JsonNumbers} {JS : JsonScalars JN} {SH : Sha256} {HE : HexEncode} {MS : Messages} {UP : UrlParse}.

(** A handler's early return: [match m { Ok(x) => x, Err(e) => return f(e) }]. *)
Definition or_return {E A} (m : prog (outcome E A)) (f : E -> OutputStream)
    (k : A -> prog (outcome unit OutputStream)) : prog (outcome unit OutputStream) :=
  r ← m; match r with Ok a => k a | Err e => Done (Ok (f e)) | Panic => Done Panic end.

Notation "'let!' x := m 'else' f 'in' k" := (or_return m f (fun x => k))
  (at level 200, x name, m at level 100, f at level 100, k at level 200, right associativity).

(** The answer a handler ends with. *)
Definition answer_with (o : OutputStream) : prog (outcome unit OutputStream) := Done (Ok o).

Definition claim_str (claims : columns) (key : string) : option string := v ← claims !! key; as_str v.

(** ** Refresh *)
Inductive NotLive := RevokedAtRead | CasLoss.

Definition refuse_not_live (row : Tokens.TokenRow) (cause : NotLive) : prog (outcome unit OutputStream) :=
  match cause with
  | CasLoss => answer_with refresh_token_revoked
  | RevokedAtRead =>
      let! family_live := Tokens.family_has_live_row (Tokens.tr_family row)
        else (fun e => db_error_internal e "Refresh could not check the token family") in
      if family_live then
        let! _ := end_family (Tokens.tr_family row)
          else (fun e => db_error_internal e "Refresh could not revoke the token family") in
        answer_with refresh_token_revoked
      else answer_with refresh_token_revoked
  end.

(** A failure to end the family is logged. *)
Definition refuse_stale_family (row : Tokens.TokenRow) : prog (outcome unit OutputStream) :=
  _ ← end_family (Tokens.tr_family row); answer_with refresh_token_revoked.

Definition refresh_response (issued : IssuedLogin) : OutputStream :=
  Respond {| status := 200; cookies := [il_cookie issued]; headers := [];
    body := Json (VObject [("access_token", VString (il_access_token issued));
                           ("refresh_token", VString (il_refresh_token issued));
                           ("token_type", VString "Bearer");
                           ("expires_in", json_i64 (il_access_lifetime issued))]) |}.

(** [row.generation + 1]: wraps where the build has no overflow checks. *)
Definition wrap_i64 (z : Z) : Z := (z + 2 ^ 63) mod 2 ^ 64 - 2 ^ 63.

(** The end of [handle], from the claim on: rotate the row and issue. *)
Definition rotate (row : Tokens.TokenRow) (lifetime : SessionLifetime) (user_id email : string)
    (grant : TokenGrant) (prior_auth_method : string) : prog (outcome unit OutputStream) :=
  let! claimed := Tokens.revoke_if_live (Tokens.tr_id row)
    else (fun e => db_error_internal e "Refresh could not rotate the token") in
  if claimed then
    let! issued := issue_tokens_and_cookie lifetime user_id email grant prior_auth_method
        (Within (Tokens.tr_family row) (wrap_i64 (Tokens.tr_generation row + 1)))
      else (fun r => r) in
    answer_with (refresh_response issued)
  else refuse_not_live row CasLoss.

(** From the live row on: the account, its version and its grants. *)
Definition check_account (claims : columns) (row : Tokens.TokenRow) (user_id : string)
  : prog (outcome unit OutputStream) :=
  let! found := Users.find_by_id user_id
    else (fun e => db_error_internal e "Refresh could not load the account") in
  match found with
  | None => answer_with (error_response Errors.NotAuthenticated "User not found")
  | Some user =>
      if negb (Users.is_active user)
      then answer_with (error_response Errors.AccountDisabled "Account is disabled")
      else
        let issued_at_version := default 0 (v ← claims !! Users.AUTH_VERSION_FIELD; as_i64 v) in
        if issued_at_version <? Users.ur_auth_version user then refuse_stale_family row
        else
          let! require_verification := get_bool REQUIRE_VERIFICATION_KEY false
            else (fun e => db_error_internal e "Could not read the verification policy") in
          if require_verification && negb (Users.ur_email_verified user)
          then answer_with (error_response Errors.EmailNotVerified "Email not verified")
          else
            let! grant := resolve_grant user
              else (fun e => db_error_internal e "Failed to resolve user roles") in
            let prior_auth_method := default "password" (claim_str claims "auth_method") in
            let! lifetime := resolve_or_error else (fun r => r) in
            rotate row lifetime user_id (Users.ur_email user) grant prior_auth_method
  end.

(** The subject of a token: [user_id], or [sub] when that claim is absent. *)
Definition claimed_user (claims : columns) : option string :=
  s ← (v ← or_else (claims !! "user_id") (claims !! "sub"); as_str v);
  if is_empty s then None else Some s.

(** [refresh::handle], with what [json_request] made of the body: the token, or
    the error it answers with. *)
Definition refresh (msg : Message) (body : WResult string) : prog (outcome unit OutputStream) :=
  let! _ := Done (session_issuance_verify msg) else (fun r => r) in
  let! refresh_token := Done body else OutputError in
  let! claims := ask (CryptoVerify refresh_token)
    else (fun e =>
      if bool_decide (we_code e = Unauthenticated)
      then error_response Errors.InvalidToken "Invalid or expired refresh token"
      else OutputError (credential_check_failed e)) in
  match claimed_user claims with
  | None => answer_with (error_response Errors.InvalidToken "Invalid refresh token")
  | Some user_id =>
      if negb (String.eqb (default "" (claim_str claims "type")) "refresh")
      then answer_with (error_response Errors.InvalidToken "Not a refresh token")
      else
        let! expected_iss := expected_issuer
          else (fun e => db_error_internal e "Could not read the token issuer") in
        if negb (String.eqb (default "" (claim_str claims "iss")) expected_iss)
        then answer_with (error_response Errors.InvalidToken "Invalid or expired refresh token")
        else
          let! found := Tokens.find_by_token refresh_token
            else (fun e => db_error_internal e "Refresh could not look the token up") in
          match found with
          | None => answer_with refresh_token_revoked
          | Some row =>
              if Tokens.tr_revoked row then refuse_not_live row RevokedAtRead
              else check_account claims row user_id
          end
  end.

(** ** Logout *)
Definition logout (msg : Message) : prog (outcome unit OutputStream) :=
  let user_id := msg_user_id msg in
  let finish :=
    let! cookie := clear_auth_cookie
      else (fun e => db_error_internal e "Logout could not build the cookie") in
    answer_with (Respond {| status := 303; cookies := [cookie]; headers := [("Location", "/b/auth/login")];
      body := Json (VObject [("message", VString "Logged out successfully")]) |}) in
  if is_empty user_id then finish
  else
    let! _ := end_all_families user_id
      else (fun d => db_error_internal (devices_error d) "Logout could not fully revoke the session") in
    finish.

(** ** Revoking one device ([handle_revoke]) *)
Definition META_AUTH_FAMILY : string := "auth.family".
Definition current_session_family (msg : Message) : option string :=
  let family := get_meta msg META_AUTH_FAMILY in if is_empty family then None else Some family.

Definition WWW_AUTHENTICATE : string :=
  concat_chars ["Bearer realm="; bytes [34]; "impresspress"; bytes [34];
                ", ApiKey realm="; bytes [34]; "impresspress"; bytes [34]].

Definition empty_html (cookies : list string) (headers : list (string * string)) : OutputStream :=
  Respond {| status := 200; cookies := cookies; headers := headers; body := Bytes "" "text/html" |}.

Definition handle_revoke (msg : Message) : prog (outcome unit OutputStream) :=
  let user_id := msg_user_id msg in
  if is_empty user_id then
    answer_with (Respond {| status := 401; cookies := []; headers := [("WWW-Authenticate", WWW_AUTHENTICATE)];
                            body := Bytes "unauthenticated" "text/plain" |})
  else
    let family := msg_var msg "family" in
    if is_empty family then
      answer_with (Respond {| status := 400; cookies := []; headers := []; body := Bytes "bad family" "text/plain" |})
    else
      let! found := Sessions.find_for_user user_id family
        else (fun e => db_error_internal e "Could not look up the session") in
      match found with
      | None => answer_with (empty_html [] [])
      | Some _ =>
          let! _ := end_family family else (fun e => db_error_internal e "Could not revoke the session") in
          if bool_decide (current_session_family msg = Some family) then
            let! cookie := clear_auth_cookie
              else (fun e => db_error_internal e "Could not clear the session cookie") in
            answer_with (empty_html [cookie] [("HX-Redirect", "/b/auth/login")])
          else answer_with (empty_html [] [])
      end.
End Handlers.

(** A sample encoding, for the witnesses. *)
#[export] Instance sample_hex : HexEncode := fun l => "jti".
