(* ===== verification/Rotation.v ===== *)
(** * The rows of a login family

    What a write of the tokens and the sessions table does to a family: token
    rows stay and are at most revoked, a family without a session row gets none,
    and how the number of live tokens changes. *)
From Stdlib Require Import String.
From S2P Require Import Prelude Ints Str Contracts Features Records Effects Columns TableMachine DbRead AuthRepo.

(** ** Rows *)
Record token_view := { tv_family : string; tv_hash : string; tv_revoked : bool }.

Section Rotation.
Context {JN : JsonNumbers} {JS : JsonScalars JN} {SH : Sha256} {B : Backend} {BL : BackendLaws B}.

Definition bool_col (cols : columns) (key : string) : option bool := v ← cols !! key; as_bool v.

Definition view_token (cols : columns) : option token_view :=
  family ← map_opt_str cols "family";
  hash ← map_opt_str cols "token_hash";
  revoked ← bool_col cols "revoked";
  Some {| tv_family := family; tv_hash := hash; tv_revoked := revoked |}.

(** The only thing that happens to a token row: it is revoked. *)
Definition token_step (v v' : token_view) : Prop :=
  v' = {| tv_family := tv_family v; tv_hash := tv_hash v; tv_revoked := true |}.

#[local] Instance token_machine : Machine token_view.
Proof.
  refine {| m_table := Tokens.TABLE; m_view := view_token; m_inv := fun _ => True; m_step := token_step |}.
  done.
Defined.

(** Every session row names its family. *)
Definition sessions_wf (s : state) : Prop :=
  forall id cols, rows s Sessions.TABLE !! id = Some cols -> is_Some (map_opt_str cols "family").
Definition wf (s : state) : Prop := table_wf s /\ sessions_wf s.

Variable f : string.

Definition no_session (s : state) : Prop :=
  forall id cols, rows s Sessions.TABLE !! id = Some cols -> map_opt_str cols "family" <> Some f.

(** What the handlers do to the two tables: token rows stay and are at most
    revoked, and a family that ended is not started again. *)
Definition moves (s s' : state) : Prop :=
  evolve s s' /\ (sessions_wf s -> sessions_wf s' /\ (no_session s -> no_session s')).

#[export] Instance moves_preorder : PreOrder moves.
Proof.
  split.
  - intros s. split; [reflexivity|]. by split.
  - intros s1 s2 s3 [E12 S12] [E23 S23]. split; [by etrans|]. intros H1.
    destruct (S12 H1) as [H2 N12]. destruct (S23 H2) as [H3 N23]. split; [done|]. intros N1. by apply N23, N12.
Qed.

Lemma moves_wf s s' : moves s s' -> wf s -> wf s'.
Proof. intros [E S] [Ht Hs]. split; [by apply E|by apply S]. Qed.

Lemma token_steps v v' :
  rtc m_step v v' ->
  tv_family v' = tv_family v /\ tv_hash v' = tv_hash v /\ (tv_revoked v = true -> tv_revoked v' = true).
Proof. induction 1 as [|v1 v2 v3 -> _ IH]; [done|]. simpl in IH. naive_solver. Qed.

(** A token row with a family and a hash. *)
Definition has_token (s : state) (id family hash : string) : Prop :=
  exists cols v, rows s Tokens.TABLE !! id = Some cols /\ view_token cols = Some v /\
    tv_family v = family /\ tv_hash v = hash.

Lemma moves_token s s' id cols v :
  wf s -> moves s s' -> rows s Tokens.TABLE !! id = Some cols -> view_token cols = Some v ->
  exists cols' v', rows s' Tokens.TABLE !! id = Some cols' /\ view_token cols' = Some v' /\
    tv_family v' = tv_family v /\ tv_hash v' = tv_hash v /\ (tv_revoked v = true -> tv_revoked v' = true).
Proof.
  intros [Hwf _] [HG _] Hr Hv.
  destruct (evolve_read (M:=token_machine) s s' id cols v Hwf HG Hr Hv) as (cols' & v' & Hr' & Hv' & _ & _ & Hs).
  apply token_steps in Hs. by exists cols', v'.
Qed.

Lemma moves_has_token s s' id family hash :
  wf s -> moves s s' -> has_token s id family hash -> has_token s' id family hash.
Proof.
  intros Hwf HG (cols & v & Hr & Hv & <- & <-).
  destruct (moves_token s s' id cols v Hwf HG Hr Hv) as (cols' & v' & Hr' & Hv' & Hf & Hh & _).
  by exists cols', v'.
Qed.

(** ** Live tokens *)
Definition live (cols : columns) : Prop :=
  map_opt_str cols "family" = Some f /\ bool_col cols "revoked" = Some false.
#[local] Instance live_dec cols : Decision (live cols).
Proof. unfold live. apply _. Defined.

Definition live_ids (r : table_rows) : gset string := dom (filter (fun p => live p.2) r).
Definition live_count (s : state) : nat := size (live_ids (rows s Tokens.TABLE)).

Lemma elem_live_ids r id : id ∈ live_ids r <-> exists cols, r !! id = Some cols /\ live cols.
Proof.
  unfold live_ids. rewrite elem_of_dom. unfold is_Some. setoid_rewrite map_lookup_filter_Some. done.
Qed.

Lemma live_count_le s s' :
  (forall id, id ∈ live_ids (rows s' Tokens.TABLE) -> id ∈ live_ids (rows s Tokens.TABLE)) ->
  (live_count s' <= live_count s)%nat.
Proof. intros H. unfold live_count. apply subseteq_size. exact H. Qed.

Lemma live_count_lt s s' id :
  id ∈ live_ids (rows s Tokens.TABLE) -> id ∉ live_ids (rows s' Tokens.TABLE) ->
  (forall i, i ∈ live_ids (rows s' Tokens.TABLE) -> i ∈ live_ids (rows s Tokens.TABLE)) ->
  (S (live_count s') <= live_count s)%nat.
Proof.
  intros Hin Hout Hsub. unfold live_count.
  assert (live_ids (rows s' Tokens.TABLE) ⊂ live_ids (rows s Tokens.TABLE)) as Hs.
  { split; [exact Hsub|]. intros H. by apply Hout, H. }
  apply subset_size in Hs. lia.
Qed.

(** ** What each call does *)
Lemma tables_differ : Tokens.TABLE <> Sessions.TABLE.
Proof. done. Qed.

Lemma rows_set_rows_ne s t t' r : t <> t' -> rows (set_rows s t r) t' = rows s t'.
Proof. intros Hne. unfold rows, set_rows. by rewrite lookup_insert_ne. Qed.

(** A write of another table. *)
Lemma evolve_other s t r : t <> Tokens.TABLE -> evolve s (set_rows s t r).
Proof.
  intros Hne Hwf. assert (rows (set_rows s t r) m_table = rows s m_table) as Heq by by apply rows_set_rows_ne.
  unfold table_wf. rewrite Heq. split; [done|]. intros id cols o Hr Hv. exists cols, o. by repeat split.
Qed.
Lemma sessions_other s t r : t <> Sessions.TABLE ->
  sessions_wf s -> sessions_wf (set_rows s t r) /\ (no_session s -> no_session (set_rows s t r)).
Proof. intros Hne. unfold sessions_wf, no_session. by rewrite rows_set_rows_ne. Qed.

Lemma live_count_other s t r : t <> Tokens.TABLE -> live_count (set_rows s t r) = live_count s.
Proof. intros Hne. unfold live_count. by rewrite rows_set_rows_ne. Qed.

Lemma revoked_view cols v :
  view_token cols = Some v ->
  view_token (overlay Tokens.revoked_data cols) =
  Some {| tv_family := tv_family v; tv_hash := tv_hash v; tv_revoked := true |}.
Proof.
  unfold view_token, map_opt_str, bool_col. rewrite !overlay_lookup. unfold Tokens.revoked_data. data_lookup.
  destruct (cols !! "family") as [[]|]; simpl; try done.
  destruct (cols !! "token_hash") as [[]|]; simpl; try done.
  destruct (cols !! "revoked") as [[]|]; simpl; try done. by intros [= <-].
Qed.

Lemma revoked_not_live cols : ~ live (overlay Tokens.revoked_data cols).
Proof.
  unfold live, bool_col. rewrite overlay_lookup. unfold Tokens.revoked_data. data_lookup.
  intros [_ [=]].
Qed.

(** Revoking the rows some filters select. *)
Definition after_revoke (filters : list Filter) (s : state) : state :=
  set_rows s Tokens.TABLE (update_rows filters Tokens.revoked_data (rows s Tokens.TABLE)).

Lemma revoke_moves filters s : moves s (after_revoke filters s).
Proof.
  split.
  - apply (update_rows_evolve (M:=token_machine)). intros id cols v _ Hr Hv _ _.
    eexists. split; [by apply revoked_view|done].
  - by apply sessions_other.
Qed.

Lemma update_rows_lookup filters data r id :
  update_rows filters data r !! id =
  (fun cols => if matches filters id cols then overlay data cols else cols) <$> r !! id.
Proof. unfold update_rows. rewrite map_lookup_imap. by destruct (r !! id). Qed.

Lemma revoke_live filters s id :
  id ∈ live_ids (rows (after_revoke filters s) Tokens.TABLE) <->
  exists cols, rows s Tokens.TABLE !! id = Some cols /\ live cols /\ matches filters id cols = false.
Proof.
  rewrite elem_live_ids. unfold after_revoke. rewrite rows_set_rows. split.
  - intros (cols' & Hr & Hl). rewrite update_rows_lookup in Hr.
    destruct (rows s Tokens.TABLE !! id) as [cols|]; [|done]. injection Hr as <-. exists cols.
    destruct (matches filters id cols); [by apply revoked_not_live in Hl|done].
  - intros (cols & Hr & Hl & Hm). exists cols. rewrite update_rows_lookup, Hr. simpl. by rewrite Hm.
Qed.

Lemma revoke_live_count filters s : (live_count (after_revoke filters s) <= live_count s)%nat.
Proof.
  apply live_count_le. intros id (cols & Hr & Hl & _)%revoke_live. apply elem_live_ids. by exists cols.
Qed.

(** Claiming the row [id]. *)
Lemma claim_matches id i cols v :
  view_token cols = Some v ->
  matches (Tokens.claim_filters id) i cols = String.eqb i id && negb (tv_revoked v).
Proof.
  unfold view_token, map_opt_str, bool_col. intros Hv.
  unfold matches, Tokens.claim_filters, text_filter, bool_filter, eq_filter. simpl.
  rewrite holds_id, andb_true_r. f_equal.
  destruct (cols !! "family") as [[]|]; try discriminate Hv. simpl in Hv.
  destruct (cols !! "token_hash") as [[]|]; try discriminate Hv. simpl in Hv.
  destruct (cols !! "revoked") as [[]|] eqn:Hr; try discriminate Hv. simpl in Hv. injection Hv as <-.
  rewrite (holds_equal_bool _ _ _ b) by done. by destruct b.
Qed.

Lemma claim_count s id family :
  wf s -> (exists h, has_token s id family h) -> 0 < count_rows (Tokens.claim_filters id) (rows s Tokens.TABLE) ->
  family = f -> (S (live_count (after_revoke (Tokens.claim_filters id) s)) <= live_count s)%nat.
Proof.
  intros [Hwf _] (h & cols & v & Hr & Hv & Hf & _) Hc ->.
  assert (exists i c, rows s Tokens.TABLE !! i = Some c /\ matches (Tokens.claim_filters id) i c = true)
    as (i & c & Hi & Hm).
  { unfold count_rows in Hc.
    destruct (map_choose (filter (fun p => matches (Tokens.claim_filters id) p.1 p.2 = true) (rows s Tokens.TABLE)))
      as (i & c & Hin); [intros He; rewrite He, map_size_empty in Hc; done|].
    apply map_lookup_filter_Some in Hin. by exists i, c. }
  destruct (Hwf i c Hi) as (w & Hw & _). simpl in Hw. pose proof Hm as Hm'. rewrite (claim_matches id i c w Hw) in Hm'.
  apply andb_true_iff in Hm' as [->%String.eqb_eq Hlive]. assert (c = cols) as -> by congruence.
  assert (w = v) as -> by congruence.
  assert (live cols) as Hl.
  { clear -Hv Hf Hlive. unfold view_token in Hv. unfold live.
    destruct (map_opt_str cols "family"); [|done]. destruct (map_opt_str cols "token_hash"); [|done].
    destruct (bool_col cols "revoked"); [|done]. injection Hv as <-. simpl in *. subst. by destruct b. }
  apply (live_count_lt _ _ id); [apply elem_live_ids; by exists cols| |].
  - intros (cols' & Hr' & _ & Hm')%revoke_live. congruence.
  - intros i (cols' & Hr' & Hl' & _)%revoke_live. apply elem_live_ids. by exists cols'.
Qed.
(** A new token row. *)
Definition new_token (data : columns) (family hash : string) : Prop :=
  view_token data = Some {| tv_family := family; tv_hash := hash; tv_revoked := false |}.

Lemma view_subseteq data cols v : data ⊆ cols -> view_token data = Some v -> view_token cols = Some v.
Proof.
  intros Hsub. unfold view_token, map_opt_str, bool_col.
  destruct (data !! "family") as [x|] eqn:Hx; [|done]. rewrite (lookup_weaken _ _ _ _ Hx Hsub).
  destruct (data !! "token_hash") as [y|] eqn:Hy; [|by destruct x].
  rewrite (lookup_weaken _ _ _ _ Hy Hsub).
  destruct (data !! "revoked") as [z|] eqn:Hz; [|by destruct x, y]. by rewrite (lookup_weaken _ _ _ _ Hz Hsub).
Qed.

Definition after_create (table id : string) (cols : columns) (s : state) : state :=
  set_rows s table (<[id := cols]> (rows s table)).

Lemma create_token_moves s id cols v :
  rows s Tokens.TABLE !! id = None -> view_token cols = Some v -> moves s (after_create Tokens.TABLE id cols s).
Proof.
  intros Hn Hv. split; [|by apply sessions_other]. intros Hwf. unfold table_wf, after_create. simpl.
  rewrite rows_set_rows. split.
  - intros i c [[<- <-]|[_ Hi]]%lookup_insert_Some; [by exists v|exact (Hwf i c Hi)].
  - intros i c w Hi Hw. exists c, w. rewrite lookup_insert_ne by congruence. done.
Qed.

Lemma create_token_live s id cols family hash :
  view_token cols = Some {| tv_family := family; tv_hash := hash; tv_revoked := false |} ->
  (live_count (after_create Tokens.TABLE id cols s) <= live_count s + (if decide (family = f) then 1 else 0))%nat.
Proof.
  intros Hv. unfold live_count, after_create. rewrite rows_set_rows.
  assert (live_ids (<[id := cols]> (rows s Tokens.TABLE)) ⊆
          live_ids (rows s Tokens.TABLE) ∪ (if decide (family = f) then {[id]} else ∅)) as Hsub.
  { intros i (c & Hi & Hl)%elem_live_ids. apply elem_of_union.
    apply lookup_insert_Some in Hi as [[<- <-]|[_ Hi]]; [|left; apply elem_live_ids; by exists c].
    right. unfold live in Hl. unfold view_token in Hv. destruct Hl as [Hf _]. rewrite Hf in Hv. simpl in Hv.
    destruct (map_opt_str cols "token_hash"); [|done]. destruct (bool_col cols "revoked"); [|done].
    simpl in Hv. injection Hv as <- _ _. by rewrite decide_True, elem_of_singleton. }
  apply subseteq_size in Hsub. rewrite size_union_alt in Hsub.
  assert (size ((if decide (family = f) then {[id]} else ∅) ∖ live_ids (rows s Tokens.TABLE)) <=
          size (if decide (family = f) then {[id]} else ∅ : gset string))%nat as Hd
    by (apply subseteq_size; set_solver).
  case_decide; [rewrite size_singleton in Hd|rewrite size_empty in Hd]; lia.
Qed.

(** Writes of the sessions table. *)
Lemma touch_moves filters data s :
  data !! "family" = None ->
  moves s (set_rows s Sessions.TABLE (update_rows filters data (rows s Sessions.TABLE))).
Proof.
  intros Hd. split; [by apply evolve_other|].
  assert (forall id cols, update_rows filters data (rows s Sessions.TABLE) !! id = Some cols ->
    exists cols', rows s Sessions.TABLE !! id = Some cols' /\ map_opt_str cols "family" = map_opt_str cols' "family") as Hrow.
  { intros id cols. rewrite update_rows_lookup. destruct (rows s Sessions.TABLE !! id) as [c|]; [|done].
    intros [= <-]. exists c. split; [done|]. destruct (matches filters id c); [|done].
    unfold map_opt_str. by rewrite overlay_lookup, Hd. }
  unfold sessions_wf, no_session. rewrite rows_set_rows.
  intros Hs. split; [|intros Hn]; intros id cols (c & Hc & ->)%Hrow; [by eapply Hs|by eapply Hn].
Qed.

Lemma delete_sessions_moves filters s :
  moves s (set_rows s Sessions.TABLE (delete_rows filters (rows s Sessions.TABLE))).
Proof.
  split; [by apply evolve_other|]. unfold sessions_wf, no_session. rewrite rows_set_rows. unfold delete_rows.
  intros Hs. split; [|intros Hn]; intros id cols [Hc _]%map_lookup_filter_Some; [by eapply Hs|by eapply Hn].
Qed.

Lemma create_session_moves s id cols g :
  map_opt_str cols "family" = Some g -> g <> f -> moves s (after_create Sessions.TABLE id cols s).
Proof.
  intros Hg Hne. split; [by apply evolve_other|]. unfold sessions_wf, no_session, after_create. rewrite rows_set_rows.
  intros Hs. split; [|intros Hn]; intros i c [[_ <-]|[_ Hi]]%lookup_insert_Some; try by eauto.
  rewrite Hg. congruence.
Qed.

(** A touch of a family without a session row reports no row. *)
Lemma touch_count s :
  sessions_wf s -> no_session s -> count_rows [Sessions.family_filter f] (rows s Sessions.TABLE) = 0.
Proof.
  intros Hwf Hn. unfold count_rows.
  assert (filter (fun p => matches [Sessions.family_filter f] p.1 p.2 = true) (rows s Sessions.TABLE) = ∅) as ->;
    [|by rewrite map_size_empty].
  apply map_empty. intros id. destruct (filter _ _ !! id) as [cols|] eqn:Hf; [exfalso|done].
  apply map_lookup_filter_Some in Hf as [Hr Hm]. simpl in Hm.
  destruct (Hwf id cols Hr) as [g Hg]. pose proof (Hn id cols Hr) as Hne. rewrite Hg in Hne.
  unfold map_opt_str in Hg. destruct (cols !! "family") as [[]|] eqn:Hc; try discriminate Hg. injection Hg as ->.
  unfold matches, Sessions.family_filter, text_filter, eq_filter in Hm. simpl in Hm.
  rewrite (holds_equal_text _ _ _ g), andb_true_r in Hm by done.
  apply String.eqb_eq in Hm. congruence.
Qed.
End Rotation.
