(* ===== verification/RotationProtocol.v ===== *)
(** * The rotation protocol

    What refresh, sign-in, logout and device revocation may do to the rows of
    login families, call by call, as an abstract specification: a rotation
    claims a token it has read, writes the successor, and answers with it only
    after its touch found the family's session row.  Whatever handlers of the
    protocol interleave, a family has at most one live token, and a token that
    was handed out does not outlive the family. *)
From Stdlib Require Import String.
From S2P Require Import Prelude Ints Str Contracts Features Records Effects Columns TableMachine DbRead AuthRepo Rotation.

(** Where a rotation is: it won the claim of a token of a family; it wrote the
    successor with a hash; its touch found the session row. *)
Inductive progress := Idle | Claimed (family : string) | Inserted (family hash : string)
| Confirmed (family hash : string).

(** What a handler has read: the family of a token row. *)
Definition facts := string -> string -> Prop.

Section Protocol.
Context {JN : JsonNumbers} {JS : JsonScalars JN} {SH : Sha256} {B : Backend} {BL : BackendLaws B}.
Variable f : string.

Definition learn (K : facts) (table : string) (r : WResult (list Row)) : facts := fun id g =>
  K id g \/ table = Tokens.TABLE /\ exists l row, r = Ok l /\ row ∈ l /\ row_id row = id /\ str_field row "family" = g.

(** The calls the protocol allows, and what the handler knows and is entitled
    to after each answer. *)
Definition allowed {R} (K : facts) (st : progress) (c : call R) : (R -> facts -> progress -> Prop) -> Prop :=
  match c in call R return (R -> facts -> progress -> Prop) -> Prop with
  | Ask q => fun next => forall r, next r K st
  | Get _ _ => fun next => forall r, next r K st
  | ListRows table _ _ => fun next => forall r, next r (learn K table r) st
  | UpdateByFilters table filters data => fun next =>
      table = Tokens.TABLE /\ data = Tokens.revoked_data /\ forall r, next r K st
  | DeleteByFiltersCount table filters => fun next => table = Sessions.TABLE /\ forall r, next r K st
  | UpdateByFiltersCount table filters data => fun next =>
      (exists id g, st = Idle /\ table = Tokens.TABLE /\ filters = Tokens.claim_filters id /\
         data = Tokens.revoked_data /\ K id g /\
         (forall n, next (Ok n) K (if 0 <? n then Claimed g else Idle)) /\ forall e, next (Err e) K Idle) \/
      (exists g h, st = Inserted g h /\ table = Sessions.TABLE /\ filters = [Sessions.family_filter g] /\
         data !! "family" = None /\
         (forall n, next (Ok n) K (if 0 <? n then Confirmed g h else Idle)) /\ forall e, next (Err e) K Idle)
  | Create table data => fun next =>
      exists g h, st = Claimed g /\ table = Tokens.TABLE /\ new_token data g h /\
        (forall row, next (Ok row) K (Inserted g h)) /\ forall e, next (Err e) K Idle
  | Batch ops => fun next =>
      exists g h data sdata, g <> f /\ ops = [BatchCreate Tokens.TABLE data; BatchCreate Sessions.TABLE sdata] /\
        new_token data g h /\ map_opt_str sdata "family" = Some g /\ forall r, next r K st
  | _ => fun _ => False
  end.

(** [Q] holds of the answer and of where the handler stands then. *)
Fixpoint follows {A} (Q : A -> facts -> progress -> Prop) (K : facts) (st : progress) (p : prog A) : Prop :=
  match p with
  | Done a => Q a K st
  | Do c k => allowed K st c (fun r K' st' => follows Q K' st' (k r))
  end.

Lemma allowed_mono {R} K st (c : call R) (next next' : R -> facts -> progress -> Prop) :
  (forall r K' st', next r K' st' -> next' r K' st') -> allowed K st c next -> allowed K st c next'.
Proof.
  intros Hn. destruct c; simpl; try (by eauto); try naive_solver.
Qed.

Lemma follows_bind {A C} (Q : A -> facts -> progress -> Prop) (Q' : C -> facts -> progress -> Prop) K st p k :
  follows Q K st p -> (forall a K' st', Q a K' st' -> follows Q' K' st' (k a)) -> follows Q' K st (p ≫= k).
Proof.
  intros Hp Hk. revert K st Hp. induction p as [a|R c k' IH]; intros K st; simpl; [apply Hk|].
  apply allowed_mono. intros r K' st'. apply IH.
Qed.

Lemma follows_weaken {A} (Q Q' : A -> facts -> progress -> Prop) K st p :
  (forall a K' st', Q a K' st' -> Q' a K' st') -> follows Q K st p -> follows Q' K st p.
Proof.
  intros HQ. revert K st. induction p as [a|R c k' IH]; intros K st; simpl; [apply HQ|].
  apply allowed_mono. intros r K' st'. apply IH.
Qed.

(** ** What a handler in flight is entitled to *)
Definition knows (K : facts) (s : state) : Prop := forall id g, K id g -> exists h, has_token s id g h.
Definition backed (st : progress) (s : state) : Prop :=
  match st with
  | Inserted g h | Confirmed g h => exists id, has_token s id g h
  | _ => True
  end.
Definition credit (st : progress) : nat :=
  match st with Claimed g => if decide (g = f) then 1 else 0 | _ => 0 end.

Lemma knows_stable K s s' : wf s -> moves f s s' -> knows K s -> knows K s'.
Proof.
  intros Hwf HG HK id g Hg. destruct (HK id g Hg) as [h Hh]. exists h. by apply (moves_has_token f s).
Qed.
Lemma backed_stable st s s' : wf s -> moves f s s' -> backed st s -> backed st s'.
Proof.
  intros Hwf HG. destruct st as [|g|g h|g h]; simpl; try done; intros [id Hh]; exists id;
    by apply (moves_has_token f s).
Qed.

Lemma str_field_map_opt row key v : map_opt_str (row_data row) key = Some v -> str_field row key = v.
Proof. unfold map_opt_str, str_field. by intros ->. Qed.

Lemma view_family cols v : view_token cols = Some v -> map_opt_str cols "family" = Some (tv_family v).
Proof.
  unfold view_token. destruct (map_opt_str cols "family"), (map_opt_str cols "token_hash"), (bool_col cols "revoked");
    try done. by intros [= <-].
Qed.

(** A read of token rows teaches their families. *)
Lemma knows_learn K s table l :
  wf s -> knows K s -> Forall (fun row => rows s table !! row_id row = Some (row_data row)) l ->
  knows (learn K table (Ok l)) s.
Proof.
  intros [Hwf _] HK Hl id g [Hk|(-> & l' & row & [= <-] & Hin & <- & <-)]; [by apply HK|].
  rewrite Forall_forall in Hl. specialize (Hl row Hin).
  destruct (Hwf _ _ Hl) as (v & Hv & _). exists (tv_hash v), (row_data row), v.
  rewrite (str_field_map_opt row "family" (tv_family v)) by by apply view_family.
  done.
Qed.

Lemma knows_learn_err K s table r : (forall l, r <> Ok l) -> knows K s -> knows (learn K table r) s.
Proof. intros Hr HK id g [Hk|(_ & l & _ & -> & _)]; [by apply HK|by destruct (Hr l)]. Qed.

(** ** One call of a handler *)

(** What is kept by the call of one handler; [st] is where it was. *)
Definition kept {A} (Q : A -> facts -> progress -> Prop) (st : progress) (s : state) (p : prog A) (s' : state) : Prop :=
  moves f s s' /\ exists K' st', follows Q K' st' p /\ knows K' s' /\ backed st' s' /\
    (live_count f s' + credit st' <= live_count f s + credit st)%nat /\
    (no_session f s -> forall h, st' = Confirmed f h -> st = Confirmed f h).

Section OneCall.
Context {A : Type} (Q : A -> facts -> progress -> Prop).
Implicit Types (K : facts) (st : progress) (s : state).

(** A call after which the handler stands where it stood. *)
Lemma kept_same K st s s' p :
  wf s -> knows K s -> backed st s -> moves f s s' -> (live_count f s' <= live_count f s)%nat ->
  follows Q K st p -> kept Q st s p s'.
Proof.
  intros Hwf HK Hst HG Hl Hp. split; [done|]. exists K, st. split; [done|].
  split; [by eapply knows_stable|]. split; [by eapply backed_stable|]. split; [lia|done].
Qed.

(** A call after which it is entitled to nothing. *)
Lemma kept_idle K st s s' p :
  wf s -> knows K s -> backed st s -> moves f s s' -> (live_count f s' <= live_count f s)%nat ->
  follows Q K Idle p -> kept Q st s p s'.
Proof.
  intros Hwf HK Hst HG Hl Hp. split; [done|]. exists K, Idle. split; [done|].
  split; [by eapply knows_stable|]. split; [done|]. split; [simpl; lia|done].
Qed.

Lemma kept_list K st s s' table filters limit k r :
  wf s -> knows K s -> backed st s ->
  (forall r, follows Q (learn K table r) st (k r)) -> call_step (ListRows table filters limit) s r s' ->
  kept Q st s (k r) s'.
Proof.
  intros Hwf HK Hst Hk [-> Hr]. split; [reflexivity|]. exists (learn K table r), st. split; [apply Hk|].
  split; [|split; [done|split; [lia|done]]].
  destruct Hr as [(e & -> & _)|(l & -> & Hl & _)]; [by apply knows_learn_err|].
  apply knows_learn; [done|done|]. eapply Forall_impl; [exact Hl|]. by intros row [Hr _].
Qed.

Lemma kept_claim K st s s' id g k r :
  wf s -> knows K s -> backed st s ->
  st = Idle -> K id g ->
  (forall n, follows Q K (if 0 <? n then Claimed g else Idle) (k (Ok n))) ->
  (forall e, follows Q K Idle (k (Err e))) ->
  call_step (UpdateByFiltersCount Tokens.TABLE (Tokens.claim_filters id) Tokens.revoked_data) s r s' ->
  kept Q st s (k r) s'.
Proof.
  intros Hwf HK Hst Hi Hg Hok Herr Hc. pose proof (revoke_moves f (Tokens.claim_filters id) s) as HG.
  pose proof (revoke_live_count f (Tokens.claim_filters id) s) as Hl.
  destruct Hc as [[(e & -> & _) Hs]|[-> ->]].
  - destruct Hs as [->| ->]; apply (kept_idle K); done.
  - specialize (Hok (count_rows (Tokens.claim_filters id) (rows s Tokens.TABLE))).
    destruct (Z.ltb_spec 0 (count_rows (Tokens.claim_filters id) (rows s Tokens.TABLE))) as [Hn|_];
      [|by apply (kept_idle K)].
    split; [exact HG|]. exists K, (Claimed g). split; [done|]. split; [by eapply knows_stable|].
    split; [done|]. split; [|done]. rewrite Hi. simpl. case_decide as Hf; [|fold (after_revoke (Tokens.claim_filters id) s); lia].
    pose proof (claim_count f s id g Hwf (HK id g Hg) Hn Hf) as Hlt.
    fold (after_revoke (Tokens.claim_filters id) s). lia.
Qed.

Lemma kept_create K st s s' g h data k r :
  wf s -> knows K s -> backed st s ->
  st = Claimed g -> new_token data g h ->
  (forall row, follows Q K (Inserted g h) (k (Ok row))) -> (forall e, follows Q K Idle (k (Err e))) ->
  call_step (Create Tokens.TABLE data) s r s' -> kept Q st s (k r) s'.
Proof.
  intros Hwf HK Hst Hi Hnew Hok Herr Hc.
  destruct Hc as [[-> (e & ->)]|(id & cols & Hn & Hsub & _ & -> & Hr)]; [by apply (kept_idle K)|].
  pose proof (view_subseteq data cols _ Hsub Hnew) as Hv.
  fold (after_create Tokens.TABLE id cols s).
  pose proof (create_token_moves f s id cols _ Hn Hv) as HG.
  pose proof (create_token_live f s id cols g h Hv) as Hl.
  split; [done|]. destruct Hr as [->|(e & -> & _)].
  - exists K, (Inserted g h). split; [done|]. split; [by eapply knows_stable|]. split.
    + exists id, cols, {| tv_family := g; tv_hash := h; tv_revoked := false |}.
      unfold after_create. rewrite rows_set_rows, lookup_insert_eq. done.
    + split; [rewrite Hi; simpl; lia|done].
  - exists K, Idle. split; [done|]. split; [by eapply knows_stable|]. split; [done|].
    split; [rewrite Hi; simpl; lia|done].
Qed.

Lemma kept_touch K st s s' g h data k r :
  wf s -> knows K s -> backed st s ->
  st = Inserted g h -> data !! "family" = None ->
  (forall n, follows Q K (if 0 <? n then Confirmed g h else Idle) (k (Ok n))) ->
  (forall e, follows Q K Idle (k (Err e))) ->
  call_step (UpdateByFiltersCount Sessions.TABLE [Sessions.family_filter g] data) s r s' ->
  kept Q st s (k r) s'.
Proof.
  intros Hwf HK Hst Hi Hd Hok Herr Hc. pose proof (touch_moves f [Sessions.family_filter g] data s Hd) as HG.
  assert (live_count f (set_rows s Sessions.TABLE
    (update_rows [Sessions.family_filter g] data (rows s Sessions.TABLE))) = live_count f s) as Hl
    by by apply live_count_other.
  destruct Hc as [[(e & -> & _) Hs]|[-> ->]].
  - destruct Hs as [->| ->]; apply (kept_idle K); try done. by rewrite Hl.
  - specialize (Hok (count_rows [Sessions.family_filter g] (rows s Sessions.TABLE))).
    destruct (Z.ltb_spec 0 (count_rows [Sessions.family_filter g] (rows s Sessions.TABLE))) as [Hn|_];
      [|apply (kept_idle K); try done; by rewrite Hl].
    split; [exact HG|]. exists K, (Confirmed g h). split; [done|]. split; [by eapply knows_stable|].
    rewrite Hi in Hst. split; [by apply (backed_stable (Confirmed g h) s)|].
    split; [rewrite Hi; simpl; lia|].
    intros Hno h' [= -> <-]. rewrite touch_count in Hn; [done|by apply Hwf|done].
Qed.

Lemma kept_batch K st s s' g h data sdata k r :
  wf s -> knows K s -> backed st s ->
  g <> f -> new_token data g h -> map_opt_str sdata "family" = Some g ->
  (forall r, follows Q K st (k r)) ->
  call_step (Batch [BatchCreate Tokens.TABLE data; BatchCreate Sessions.TABLE sdata]) s r s' ->
  kept Q st s (k r) s'.
Proof.
  intros Hwf HK Hst Hne Hnew Hg Hk Hc. destruct Hc as [[-> _]|[(id & cols & Hn & Hsub & id' & cols' & Hn' & Hsub' & ->) _]].
  - by apply (kept_same K).
  - pose proof (view_subseteq data cols _ Hsub Hnew) as Hv.
    fold (after_create Tokens.TABLE id cols s) in *.
    set (s1 := after_create Tokens.TABLE id cols s) in *. fold (after_create Sessions.TABLE id' cols' s1).
    assert (moves f s s1) as H1 by by eapply create_token_moves.
    assert (map_opt_str cols' "family" = Some g) as Hg'.
    { unfold map_opt_str in *. destruct (sdata !! "family") as [v|] eqn:Hx; [|done].
      by rewrite (lookup_weaken _ _ _ _ Hx Hsub'). }
    apply (kept_same K); [done..| |unfold after_create; rewrite live_count_other by done|apply Hk].
    + etrans; [exact H1|]. by eapply create_session_moves.
    + pose proof (create_token_live f s id cols g h Hv) as Hl. rewrite decide_False in Hl by done.
      unfold s1. lia.
Qed.

Lemma call_kept K st s s' {R} (c : call R) (k : R -> prog A) r :
  wf s -> knows K s -> backed st s ->
  follows Q K st (Do c k) -> call_step c s r s' -> kept Q st s (k r) s'.
Proof.
  intros Hwf HK Hst. destruct c; simpl; intros Hk Hc; try done.
  - destruct Hc as [-> _]. by apply (kept_same K).
  - by eapply kept_list.
  - destruct Hk as [(id & g & Hi & -> & -> & -> & Hg & Hok & Herr)|(g & h & Hi & -> & -> & Hd & Hok & Herr)].
    + by eapply kept_claim.
    + by eapply kept_touch.
  - destruct Hk as (g & h & Hi & -> & Hnew & Hok & Herr). by eapply kept_create.
  - destruct Hk as (-> & -> & Hk). apply (kept_same K); [done..| | |apply Hk].
    + destruct Hc as [[_ [->| ->]]|[_ ->]]; [reflexivity|apply revoke_moves..].
    + destruct Hc as [[_ [->| ->]]|[_ ->]]; [done|apply revoke_live_count..].
  - destruct Hk as [-> Hk]. apply (kept_same K); [done..| | |apply Hk].
    + destruct Hc as [[_ [->| ->]]|[_ ->]]; [reflexivity|apply delete_sessions_moves..].
    + destruct Hc as [[_ [->| ->]]|[_ ->]]; [done|by rewrite live_count_other..].
  - destruct Hk as (g & h & data & sdata & Hne & -> & Hnew & Hg & Hk). by eapply kept_batch.
  - destruct Hc. by apply (kept_same K).
Qed.
End OneCall.

(** ** Pools of handlers *)
Section Pool.
Context {A : Type} (issues : A -> string -> Prop).

Abbreviation ghost := (facts * progress)%type.
(** [issues a h]: the answer [a] hands out the token with the hash [h]. *)
Definition entitled (a : A) (K : facts) (st : progress) : Prop :=
  forall h, issues a h -> exists g, st = Confirmed g h.
Definition in_flight (s : state) (gh : ghost) (p : prog A) : Prop :=
  follows entitled gh.1 gh.2 p /\ knows gh.1 s /\ backed gh.2 s.
Definition credits (gs : list ghost) : nat := foldr (fun gh n => (credit gh.2 + n)%nat) O gs.

(** The invariant of a pool: [c] bounds the live tokens and the claims that are
    still to write their successor. *)
Definition pool_ok (c : nat) (gs : list ghost) (ps : list (prog A)) (s : state) : Prop :=
  wf s /\ Forall2 (in_flight s) gs ps /\ (live_count f s + credits gs <= c)%nat.

Definition confirmed (gs : list ghost) (i : nat) (h : string) : Prop :=
  exists K, gs !! i = Some (K, Confirmed f h).

Lemma credits_insert gs i gh gh' :
  gs !! i = Some gh -> (credits (<[i := gh']> gs) + credit gh.2 = credits gs + credit gh'.2)%nat.
Proof.
  revert i. induction gs as [|g gs IH]; intros [|i] Hi; simpl in *; try done.
  - injection Hi as ->. lia.
  - specialize (IH i Hi). lia.
Qed.

Lemma in_flight_stable s s' gh p : wf s -> moves f s s' -> in_flight s gh p -> in_flight s' gh p.
Proof.
  intros Hwf HG (Hp & HK & Hb). split; [done|]. split; [by eapply knows_stable|by eapply backed_stable].
Qed.

(** A write of somebody else. *)
Lemma pool_ok_env c gs ps s s' :
  moves f s s' -> (live_count f s' <= live_count f s)%nat -> pool_ok c gs ps s -> pool_ok c gs ps s'.
Proof.
  intros HG Hl (Hwf & Hall & Hc). split; [by eapply moves_wf|]. split; [|lia].
  eapply Forall2_impl; [exact Hall|]. intros gh p. by apply in_flight_stable.
Qed.

Lemma pool_ok_step c gs ps s ps' s' :
  pool_step (ps, s) (ps', s') -> pool_ok c gs ps s ->
  exists gs', pool_ok c gs' ps' s' /\ moves f s s' /\
    (no_session f s -> forall i h, confirmed gs' i h -> confirmed gs i h).
Proof.
  intros Hstep (Hwf & Hall & Hc). inversion Hstep as [ps0 i p p' s0 s0' Hi Hp]; subst.
  destruct (Forall2_lookup_r _ _ _ _ _ Hall Hi) as ([K st] & Hgh & Hfl & HK & Hb). simpl in *.
  destruct p as [a|R cl k]; [done|]. destruct Hp as (r & Hcall & ->).
  destruct (call_kept entitled K st s s' cl k r Hwf HK Hb Hfl Hcall) as (HG & K' & st' & Hfl' & HK' & Hb' & Hl & Hconf).
  exists (<[i := (K', st')]> gs). split; [|split; [done|]].
  - split; [by eapply moves_wf|]. split.
    + apply Forall2_insert; [|done]. eapply Forall2_impl; [exact Hall|]. intros gh q. by apply in_flight_stable.
    + pose proof (credits_insert gs i (K, st) (K', st') Hgh) as Hcr. simpl in Hcr. lia.
  - intros Hno j h [K2 Hj]. destruct (decide (i = j)) as [<-|Hne].
    + rewrite list_lookup_insert_eq in Hj by by eapply lookup_lt_Some. injection Hj as _ ->.
      exists K. rewrite Hgh. do 2 f_equal. by apply Hconf.
    + exists K2. by rewrite list_lookup_insert_ne in Hj.
Qed.

Lemma moves_no_session s s' : wf s -> moves f s s' -> no_session f s -> no_session f s'.
Proof. intros [_ Hs] [_ HS]. by apply HS. Qed.

Lemma pool_ok_run c gs cfg cfg' :
  rtc pool_step cfg cfg' -> pool_ok c gs cfg.1 cfg.2 ->
  exists gs', pool_ok c gs' cfg'.1 cfg'.2 /\ moves f cfg.2 cfg'.2 /\
    (no_session f cfg.2 -> forall i h, confirmed gs' i h -> confirmed gs i h).
Proof.
  intros Hsteps. revert gs. induction Hsteps as [cfg|[ps s] [ps1 s1] cfg3 Hstep _ IH]; intros gs Hok.
  - exists gs. by split; [|split].
  - destruct (pool_ok_step c gs ps s ps1 s1 Hstep Hok) as (gs1 & Hok1 & HG & Hc1).
    destruct (IH gs1 Hok1) as (gs2 & Hok2 & HG2 & Hc2). exists gs2. split; [done|]. split; [by etrans|].
    simpl in *. intros Hno i h Hi. apply Hc1; [done|]. apply Hc2; [|done].
    eapply moves_no_session; [apply Hok|done|done].
Qed.

Definition start : ghost := (fun _ _ => False, Idle).
Definition conforms (p : prog A) : Prop := follows entitled start.1 start.2 p.

Lemma pool_ok_start ps s :
  wf s -> Forall conforms ps -> pool_ok (live_count f s) (replicate (length ps) start) ps s.
Proof.
  intros Hwf Hps. split; [done|]. split.
  - apply Forall2_replicate_l; [done|]. eapply Forall_impl; [exact Hps|]. intros p Hp.
    split; [exact Hp|]. split; [by intros id g|done].
  - enough (credits (replicate (length ps) start) = O) as -> by lia.
    clear. induction ps; simpl; [done|]. by rewrite IHps.
Qed.

(** The number of live tokens of a family never grows. *)
Lemma live_tokens_bounded ps s cfg' :
  wf s -> Forall conforms ps -> rtc pool_step (ps, s) cfg' -> (live_count f cfg'.2 <= live_count f s)%nat.
Proof.
  intros Hwf Hps Hsteps.
  destruct (pool_ok_run _ _ _ _ Hsteps (pool_ok_start ps s Hwf Hps)) as (gs' & (_ & _ & Hc) & _). lia.
Qed.

(** A token that was handed out: its row is there, and revoked if it is of the
    family. *)
Definition handed_out_revoked (s : state) (h : string) : Prop :=
  exists id g cols v, rows s Tokens.TABLE !! id = Some cols /\ view_token cols = Some v /\
    tv_family v = g /\ tv_hash v = h /\ (g = f -> tv_revoked v = true).

(** Deleting the family's sessions and revoking its rows later, anywhere in a
    run, revokes every token of the family that is handed out in it. *)
Lemma revoked_once_ended ps s ps1 s1 s2 ps3 s3 s4 cfg' :
  wf s -> Forall conforms ps ->
  rtc pool_step (ps, s) (ps1, s1) ->
  s2 = set_rows s1 Sessions.TABLE (delete_rows [Sessions.family_filter f] (rows s1 Sessions.TABLE)) ->
  rtc pool_step (ps1, s2) (ps3, s3) ->
  s4 = after_revoke [text_filter "family" f] s3 ->
  rtc pool_step (ps3, s4) cfg' ->
  forall i a h, cfg'.1 !! i = Some (Done a) -> issues a h -> handed_out_revoked cfg'.2 h.
Proof.
  intros Hwf Hps H01 -> H23 -> H45 i a h Hi Hissued.
  destruct (pool_ok_run _ _ _ _ H01 (pool_ok_start ps s Hwf Hps)) as (gs1 & Hok1 & _). simpl in *.
  set (s2 := set_rows s1 _ _) in *.
  assert (moves f s1 s2) as HG12 by apply delete_sessions_moves.
  assert (pool_ok (live_count f s) gs1 ps1 s2) as Hok2.
  { eapply pool_ok_env; [exact HG12| |done]. unfold s2. by rewrite live_count_other. }
  assert (no_session f s2) as Hno2.
  { intros id cols. unfold s2. rewrite rows_set_rows. intros [Hr Hm]%map_lookup_filter_Some Hf.
    simpl in Hm. unfold map_opt_str in Hf. destruct (cols !! "family") as [[]|] eqn:Hc; try discriminate Hf.
    injection Hf as ->. unfold matches, Sessions.family_filter, text_filter, eq_filter in Hm. simpl in Hm.
    by rewrite (holds_equal_text _ _ _ f), String.eqb_refl in Hm. }
  destruct (pool_ok_run _ _ _ _ H23 Hok2) as (gs3 & Hok3 & HG23 & Hc23). simpl in *.
  set (s4 := after_revoke _ s3) in *.
  assert (moves f s3 s4) as HG34 by apply revoke_moves.
  assert (pool_ok (live_count f s) gs3 ps3 s4) as Hok4 by (eapply pool_ok_env; [exact HG34|apply revoke_live_count|done]).
  destruct (pool_ok_run _ _ _ _ H45 Hok4) as (gs5 & Hok5 & HG45 & Hc45). simpl in *.
  destruct Hok5 as (Hwf5 & Hall5 & _).
  destruct (Forall2_lookup_r _ _ _ _ _ Hall5 Hi) as ([K st] & Hgh & Hfl & _ & Hb). simpl in *.
  destruct (Hfl h Hissued) as [g ->]. destruct (decide (g = f)) as [->|Hne].
  - assert (confirmed gs1 i h) as [K1 Hg1].
    { apply Hc23, Hc45; [done| |by exists K].
      eapply moves_no_session; [apply Hok3|done|]. eapply moves_no_session; [apply Hok2|done|done]. }
    destruct Hok2 as (Hwf2 & Hall2 & _). destruct (Forall2_lookup_l _ _ _ _ _ Hall2 Hg1) as (q & _ & _ & _ & Hb2).
    simpl in Hb2. destruct Hb2 as (id & cols & v & Hr & Hv & Hf & Hh).
    destruct (moves_token f s2 s3 id cols v Hwf2 HG23 Hr Hv) as (c3 & v3 & Hr3 & Hv3 & Hf3 & Hh3 & _).
    set (v4 := {| tv_family := tv_family v3; tv_hash := tv_hash v3; tv_revoked := true |}).
    assert (rows s4 Tokens.TABLE !! id = Some (overlay Tokens.revoked_data c3)) as Hr4.
    { unfold s4, after_revoke. rewrite rows_set_rows, update_rows_lookup, Hr3. simpl.
      pose proof (view_family c3 v3 Hv3) as Hfam. unfold map_opt_str in Hfam.
      destruct (c3 !! "family") as [[]|] eqn:Hc; try discriminate Hfam. injection Hfam as Hfam.
      unfold matches, text_filter, eq_filter. simpl.
      rewrite (holds_equal_text _ _ _ (tv_family v3)) by congruence.
      by rewrite Hf3, Hf, String.eqb_refl. }
    destruct (moves_token f s4 cfg'.2 id _ v4 (proj1 Hok4) HG45 Hr4 (revoked_view c3 v3 Hv3))
      as (c5 & v5 & Hr5 & Hv5 & Hf5 & Hh5 & Hrev).
    exists id, (tv_family v5), c5, v5. do 3 (split; [done|]). split; [simpl in *; congruence|]. by intros _; apply Hrev.
  - destruct Hb as (id & cols & v & Hr & Hv & Hf & Hh). exists id, g, cols, v. by repeat split.
Qed.
End Pool.
End Protocol.
