(* ===== verification/RefreshSafety.v ===== *)
(** * Login families are safe

    The handlers of [Refresh.v] and [AuthTail.v] follow the rotation protocol,
    so in every interleaving of refreshes, logouts, device revocations and
    sign-ins a family has at most one live token, and a token handed out by a
    refresh does not outlive the family's revocation. *)
From Stdlib Require Import String.
From S2P Require Import Prelude Ints Str Contracts SampleLib Wafer Features Records Effects Columns TableMachine MemoryDb DbRead Failures AuthRepo AuthTail Csrf Crud Refresh Rotation RotationProtocol.

Section Conformance.
Context {JN : JsonNumbers} {JS : JsonScalars JN} {SH : Sha256} {HE : HexEncode} {MS : Messages} {UP : UrlParse}.
Context {B : Backend} {BL : BackendLaws B}.
Variable f : string.

Abbreviation handler := (prog (outcome unit OutputStream)).

(** The answer hands out a token with a given hash. *)
Definition hands_out (a : outcome unit OutputStream) (h : string) : Prop :=
  exists issued, a = Ok (refresh_response issued) /\ h = Tokens.hash (il_refresh_token issued).

Abbreviation good K st p := (follows f (entitled hands_out) K st p).

(** ** Parts of handlers *)

(** A part that neither claims a token nor writes or confirms a successor; [P]
    holds of its answer. *)
Definition steady {A} (P : A -> Prop) (p : prog A) : Prop :=
  forall K st, follows f (fun a K' st' => P a /\ st' = st /\ forall id g, K id g -> K' id g) K st p.

Lemma steady_done {A} (P : A -> Prop) (a : A) : P a -> steady P (Done a).
Proof. intros HP K st. by split; [|split]. Qed.

Lemma steady_bind {A C} (P : A -> Prop) (P' : C -> Prop) (p : prog A) (k : A -> prog C) :
  steady P p -> (forall a, P a -> steady P' (k a)) -> steady P' (p ≫= k).
Proof.
  intros Hp Hk K st. eapply follows_bind; [apply Hp|]. intros a K' st' (HP & -> & HK).
  eapply follows_weaken; [|by apply Hk]. naive_solver.
Qed.

Definition any {A} (a : A) : Prop := True.

Lemma steady_any {A} (P : A -> Prop) (p : prog A) : steady P p -> steady any p.
Proof. intros Hp K st. eapply follows_weaken; [|apply Hp]. naive_solver. Qed.

Lemma steady_seq {A C} (P : C -> Prop) (p : prog A) (k : A -> prog C) :
  steady any p -> (forall a, steady P (k a)) -> steady P (p ≫= k).
Proof. intros Hp Hk. eapply steady_bind; [exact Hp|]. intros a _. apply Hk. Qed.

Lemma steady_try {E A C} (p : prog (outcome E A)) (k : A -> prog (outcome E C)) :
  steady any p -> (forall a, steady any (k a)) -> steady any (prog_try p k).
Proof. intros Hp Hk. apply steady_seq; [done|]. intros [a|e|]; [apply Hk|by apply steady_done..]. Qed.

Lemma steady_ask {R} (q : service R) : steady any (ask q).
Proof. intros K st r. by split; [|split]. Qed.
Lemma steady_get table id : steady any (do_call (Get table id)).
Proof. intros K st r. by split; [|split]. Qed.
Lemma steady_list table filters n : steady any (do_call (ListRows table filters n)).
Proof. intros K st r. split; [done|]. split; [done|]. intros id g Hk. by left. Qed.
Lemma steady_revoke filters : steady any (do_call (UpdateByFilters Tokens.TABLE filters Tokens.revoked_data)).
Proof. intros K st. do 2 (split; [done|]). intros r. by split; [|split]. Qed.
Lemma steady_end filters : steady any (do_call (DeleteByFiltersCount Sessions.TABLE filters)).
Proof. intros K st. split; [done|]. intros r. by split; [|split]. Qed.
End Conformance.

(** [steady_tac] walks through the calls of a part. *)
Ltac steady_step :=
  lazymatch goal with
  | |- steady _ _ (Done _) => apply steady_done; exact I
  | |- steady _ _ (ask _) => apply steady_ask
  | |- steady _ _ (do_call (Get _ _)) => apply steady_get
  | |- steady _ _ (do_call (UpdateByFilters _ _ _)) => apply steady_revoke
  | |- steady _ _ (do_call (DeleteByFiltersCount _ _)) => apply steady_end
  | |- steady _ _ (prog_try _ _) => apply steady_try
  | |- steady _ _ (_ ≫= _) => apply steady_seq
  | |- steady _ _ (match ?x with _ => _ end) => destruct x
  | |- forall _, _ => intros ?
  end.
Ltac steady_tac := cbv zeta; repeat (steady_step; cbv zeta).

Section Handlers.
Context {JN : JsonNumbers} {JS : JsonScalars JN} {SH : Sha256} {HE : HexEncode} {MS : Messages} {UP : UrlParse}.
Context {B : Backend} {BL : BackendLaws B}.
Variable f : string.
Abbreviation steady := (steady f).
Abbreviation good K st p := (follows f (entitled hands_out) K st p).

Lemma steady_labelled {A} what (p : prog (WResult A)) : steady any p -> steady any (labelled what p).
Proof. intros Hp. apply steady_seq; [done|]. steady_tac. Qed.
Lemma steady_count_u64 p : steady any p -> steady any (count_u64 p).
Proof. intros Hp. apply steady_try; [done|]. steady_tac. Qed.
Lemma steady_list_bounded table filters bound : steady any (list_bounded table filters bound).
Proof.
  apply steady_try; [apply steady_try; [apply steady_list|]|]; intros a; [by apply steady_done|].
  destruct (truncated a); by apply steady_done.
Qed.
Lemma steady_roles user_id : steady any (UserRoles.list_for_user user_id).
Proof. unfold UserRoles.list_for_user, UserRoles.list_for_principals. apply steady_try; [apply steady_list_bounded|steady_tac]. Qed.
Lemma steady_grant user : steady any (resolve_grant user).
Proof. apply steady_try; [apply steady_labelled, steady_roles|steady_tac]. Qed.
Lemma steady_user id : steady any (Users.find_by_id id).
Proof. unfold Users.find_by_id. steady_tac. Qed.
Lemma steady_get_bool key d : steady any (get_bool key d).
Proof. unfold get_bool. steady_tac. Qed.
Lemma steady_access_lifetime : steady any access_token_lifetime_secs.
Proof. unfold access_token_lifetime_secs. steady_tac. Qed.
Lemma steady_issuer : steady any expected_issuer.
Proof. apply steady_ask. Qed.
Lemma steady_lifetime : steady any resolve_lifetime.
Proof. unfold resolve_lifetime, session_lifetime_days. steady_tac. Qed.
Lemma steady_cookie token age : steady any (auth_cookie token age).
Proof. unfold auth_cookie, cookie_secure_attribute. steady_tac. Qed.
Lemma steady_end_family family : steady any (end_family family).
Proof.
  apply steady_try.
  - apply steady_count_u64, steady_labelled, steady_end.
  - intros _. apply steady_labelled, steady_revoke.
Qed.
Lemma steady_end_all user_id : steady any (end_all_families user_id).
Proof.
  unfold end_all_families. apply steady_seq; [apply steady_count_u64, steady_labelled, steady_end|].
  intros a. apply steady_try; [by apply steady_done|]. intros _.
  apply steady_seq; [apply steady_labelled, steady_revoke|]. steady_tac.
Qed.
Lemma steady_find_session user family : steady any (Sessions.find_for_user user family).
Proof. apply steady_try; [apply steady_labelled, steady_list_bounded|]. steady_tac. Qed.
Lemma steady_family_live family : steady any (Tokens.family_has_live_row family).
Proof. apply steady_try; [apply steady_labelled, steady_list_bounded|]. steady_tac. Qed.

(** ** Handlers *)

(** An answer that hands out nothing. *)
Definition plain (o : OutputStream) : Prop := forall issued, o <> refresh_response issued.
Lemma plain_error e : plain (OutputError e).
Proof. by intros issued. Qed.
Lemma plain_error_response code message : plain (error_response code message).
Proof. by intros issued. Qed.
Lemma plain_db_error e ctx : plain (db_error_internal e ctx).
Proof. unfold db_error_internal, seal. by destruct (classify_db_error e None); intros issued. Qed.

Lemma good_answer K st o : plain o -> good K st (answer_with o).
Proof. intros Ho h (issued & [= He] & _). by destruct (Ho issued). Qed.
Lemma good_panic K st : good K st (Done Panic).
Proof. by intros h (issued & [=] & _). Qed.

Lemma good_return {E A} (P : outcome E A -> Prop) (m : prog (outcome E A)) g k K st :
  steady P m -> (forall e, P (Err e) -> plain (g e)) ->
  (forall a K', P (Ok a) -> (forall id g, K id g -> K' id g) -> good K' st (k a)) ->
  good K st (or_return m g k).
Proof.
  intros Hm Hg Hk. eapply follows_bind; [apply Hm|]. intros [a|e|] K' st' (HP & -> & HK).
  - by apply Hk.
  - by apply good_answer, Hg.
  - apply good_panic.
Qed.

(** Errors of the issuance steps are errors of the services. *)
Definition error_plain {A} (r : outcome OutputStream A) : Prop := forall o, r = Err o -> plain o.
Lemma steady_output_err {A} (p : prog (WResult A)) : steady any p -> steady error_plain (output_err p).
Proof.
  intros Hp. eapply steady_bind; [exact Hp|]. intros r _. apply steady_done.
  intros o Ho. destruct r; simpl in Ho; try discriminate Ho. injection Ho as <-. apply plain_error.
Qed.

Lemma steady_try_plain {A C} (P : A -> Prop) (p : prog (outcome OutputStream A))
    (k : A -> prog (outcome OutputStream C)) :
  steady (fun r => error_plain r /\ forall a, r = Ok a -> P a) p ->
  (forall a, P a -> steady error_plain (k a)) -> steady error_plain (prog_try p k).
Proof.
  intros Hp Hk. eapply steady_bind; [exact Hp|]. intros [a|e|] [He Ha]; [by apply Hk, Ha|..]; apply steady_done.
  - intros o [= <-]. by apply He.
  - by intros o.
Qed.

(** The token handler's read: it learns the family of the row it found. *)
Lemma find_by_token_follows raw K st :
  follows f (fun r K' st' => st' = st /\
      forall row, r = Ok (Some row) -> K' (Tokens.tr_id row) (Tokens.tr_family row))
    K st (Tokens.find_by_token raw).
Proof.
  unfold Tokens.find_by_token, labelled, list_bounded, over_read, do_call, prog_try. simpl.
  intros [l|e|]; simpl; try (by split). destruct (_ <? _); simpl; [by split|]. split; [done|].
  intros row [= Hrow]. destruct l as [|r l]; simpl in Hrow; [done|]. injection Hrow as <-. simpl.
  right. split; [done|]. exists (r :: l), r. split; [done|]. split; [by left|done].
Qed.

(** Where a claim leaves the handler. *)
Definition after_claim (g : string) (r : WResult bool) : progress :=
  match r with Ok true => Claimed g | _ => Idle end.

Lemma revoke_if_live_follows id g (K : facts) :
  K id g -> follows f (fun r K' st' => K' = K /\ st' = after_claim g r) K Idle (Tokens.revoke_if_live id).
Proof.
  intros Hg. unfold Tokens.revoke_if_live, labelled, prog_try, do_call. simpl. left. exists id, g.
  do 5 (split; [done|]). split; [|done].
  intros n. simpl. by destruct (0 <? n).
Qed.

Lemma new_row_spec {A} user raw family generation expires (k : columns -> prog A) Q K st :
  (forall data, new_token data family (Tokens.hash raw) -> follows f Q K st (k data)) ->
  follows f Q K st (Tokens.new_row user raw family generation expires ≫= k).
Proof.
  intros Hk id now. apply Hk. unfold new_token, view_token, map_opt_str, bool_col. by data_lookup.
Qed.

(** The tail of a rotation confirms the successor or hands out nothing. *)
Lemma establish_within lifetime user raw family generation method K :
  follows f (fun r K' st' => (r = Ok tt -> st' = Confirmed family (Tokens.hash raw)))
    K (Claimed family) (establish_family lifetime user raw family (Within family generation) method).
Proof.
  unfold establish_family. eapply (follows_bind f (fun r K' st' =>
    st' = match r with Ok _ => Inserted family (Tokens.hash raw) | _ => Idle end)).
  - unfold Tokens.insert. apply new_row_spec. intros data Hd.
    unfold ignore_result, labelled, prog_try, do_call. simpl. exists family, (Tokens.hash raw).
    do 3 (split; [done|]). by split.
  - intros [[]|e|] K' st' ->; simpl; try done.
    unfold Sessions.touch, count_u64, labelled, prog_try, do_call, ask, do_call. simpl.
    intros now. right. exists family, (Tokens.hash raw). do 4 (split; [done|]). split.
    + intros n. simpl. destruct (Z.ltb_spec 0 n) as [Hn|Hn].
      * rewrite Z.max_r by lia. destruct n; try lia. done.
      * rewrite Z.max_l by lia. split; [done|]. split; [done|]. by intros [[]|e|].
    + intros e. simpl. split; [done|]. by intros [n|e'|].
Qed.

(** A step of the issuance that asks a service. *)
Lemma steady_output_seq {A C} (P : outcome OutputStream C -> Prop) (p : prog (WResult A))
    (k : A -> prog (outcome OutputStream C)) :
  steady any p -> (forall e, P (Err (OutputError e))) -> P Panic -> (forall a, steady P (k a)) ->
  steady P (prog_try (output_err p) k).
Proof.
  intros Hp He Hpan Hk. eapply (steady_bind f (fun r => exists x, r = map_err OutputError x)).
  - eapply steady_bind; [exact Hp|]. intros x _. apply steady_done. by exists x.
  - intros r [x ->]. destruct x as [a|e|]; [apply Hk|by apply steady_done..].
Qed.

(** An issuance keeps the family it was given. *)
Definition keeps_family (family : string) (r : outcome OutputStream (string * string * string)) : Prop :=
  error_plain r /\ forall t, r = Ok t -> t.2 = family.

Lemma keeps_family_error family e : keeps_family family (Err (OutputError e)).
Proof. split; [|done]. intros o [= <-]. apply plain_error. Qed.

Lemma generate_tokens_steady lifetime user email grant method family :
  steady (keeps_family family) (generate_tokens lifetime user email grant method (Some family)).
Proof.
  assert (keeps_family family Panic) as Hp by by split.
  unfold generate_tokens.
  apply steady_output_seq; [apply steady_ask|apply keeps_family_error|exact Hp|intros bytes]. cbn [prog_try mbind prog_mbind prog_bind].
  apply steady_output_seq; [apply steady_access_lifetime|apply keeps_family_error|exact Hp|intros secs].
  apply steady_output_seq; [apply steady_issuer|apply keeps_family_error|exact Hp|intros issuer].
  apply steady_output_seq; [apply steady_ask|apply keeps_family_error|exact Hp|intros access].
  apply steady_output_seq; [apply steady_ask|apply keeps_family_error|exact Hp|intros token].
  apply steady_done. split; [by intros o|]. by intros t [= <-].
Qed.

(** The issuance of a rotation: what it hands out is confirmed. *)
Definition issued_confirmed (g : string) (r : outcome OutputStream IssuedLogin) (st : progress) : Prop :=
  error_plain r /\ forall issued, r = Ok issued -> st = Confirmed g (Tokens.hash (il_refresh_token issued)).

Lemma not_established_plain e : plain (not_established e).
Proof. destruct e; [apply plain_error_response|apply plain_db_error]. Qed.

Lemma issue_within lifetime user email grant method g generation K :
  follows f (fun r _ st' => issued_confirmed g r st') K (Claimed g)
    (issue_tokens_and_cookie lifetime user email grant method (Within g generation)).
Proof.
  unfold issue_tokens_and_cookie. eapply follows_bind; [apply generate_tokens_steady|].
  intros [[[access token] family]|e|] K1 st1 ([Herr Hfam] & -> & _); [|split; [by intros o [= <-]; apply Herr|done]|by split].
  specialize (Hfam _ eq_refl). simpl in Hfam. subst family.
  eapply follows_bind; [apply establish_within|].
  intros [[]|e|] K2 st2 Hst; [|split; [intros o [= <-]; apply not_established_plain|done]|by split].
  rewrite (Hst eq_refl). simpl. clear.
  eapply (follows_bind f _ _ _ _ (output_err access_token_lifetime_secs)).
  { apply steady_output_err, steady_access_lifetime. }
  intros [age|e|] K3 st3 (He & -> & _); [|split; [by intros o [= <-]; apply He|done]|by split].
  eapply (follows_bind f _ _ _ _ (output_err (auth_cookie access age))).
  { apply steady_output_err, steady_cookie. }
  intros [cookie|e|] K4 st4 (He' & -> & _); [|split; [by intros o [= <-]; apply He'|done]|by split].
  split; [by intros o|]. by intros issued [= <-].
Qed.

(** ** The handlers conform *)
Lemma good_any {A} (m : prog (WResult A)) ctx k K st :
  steady any m ->
  (forall a K', (forall id g, K id g -> K' id g) -> good K' st (k a)) ->
  good K st (or_return m (fun e => db_error_internal e ctx) k).
Proof. intros Hm Hk. eapply good_return; [exact Hm|intros e _; apply plain_db_error|intros a K' _; apply Hk]. Qed.

Lemma refuse_not_live_good row cause K st : good K st (refuse_not_live row cause).
Proof.
  destruct cause; [|apply good_answer, plain_error_response].
  apply good_any; [apply steady_family_live|]. intros [] K' _; [|apply good_answer, plain_error_response].
  apply good_any; [apply steady_end_family|]. intros _ K2 _. apply good_answer, plain_error_response.
Qed.

Lemma refuse_stale_good row K st : good K st (refuse_stale_family row).
Proof.
  eapply follows_bind; [apply steady_end_family|]. intros _ K' st' _. apply good_answer, plain_error_response.
Qed.

Lemma rotate_good row lifetime user email grant method (K : facts) :
  K (Tokens.tr_id row) (Tokens.tr_family row) -> good K Idle (rotate row lifetime user email grant method).
Proof.
  intros HK. eapply follows_bind; [by apply revoke_if_live_follows|].
  intros [[]|e|] K' st' [-> ->]; [|apply refuse_not_live_good|apply good_answer, plain_db_error|apply good_panic].
  eapply follows_bind; [apply issue_within|].
  intros [issued|o|] K2 st2 [Herr Hok]; [|by apply good_answer, Herr|apply good_panic].
  rewrite (Hok issued eq_refl). intros h (issued' & [= _ _ Htoken _] & ->). exists (Tokens.tr_family row). by rewrite Htoken.
Qed.

Lemma check_account_good claims row user_id (K : facts) :
  K (Tokens.tr_id row) (Tokens.tr_family row) -> good K Idle (check_account claims row user_id).
Proof.
  intros HK. apply good_any; [apply steady_user|]. intros [user|] K1 H1; [|apply good_answer, plain_error_response].
  destruct (negb (Users.is_active user)); [apply good_answer, plain_error_response|].
  cbv zeta. destruct (_ <? _); [apply refuse_stale_good|].
  apply good_any; [apply steady_get_bool|]. intros verify K2 H2.
  destruct (verify && _); [apply good_answer, plain_error_response|].
  apply good_any; [apply steady_grant|]. intros grant K3 H3.
  eapply good_return; [apply steady_output_err, steady_lifetime|by intros e He; apply He|].
  intros lifetime K4 _ H4. apply rotate_good. by apply H4, H3, H2, H1.
Qed.

Lemma session_issuance_plain msg o : session_issuance_verify msg = Err o -> plain o.
Proof. unfold session_issuance_verify. destruct (request_origin msg); intros [= <-]; by intros issued. Qed.

Lemma refresh_conforms msg body : conforms f hands_out (refresh msg body).
Proof.
  unfold conforms, refresh, start. cbn [fst snd].
  eapply (good_return (fun r => r = session_issuance_verify msg));
    [by apply steady_done|intros o Ho; by eapply session_issuance_plain|]. intros _ K1 _ _.
  eapply (good_return any); [by apply steady_done|intros e _; apply plain_error|]. intros token K2 _ _.
  eapply (good_return any); [apply steady_ask|intros e _; case_bool_decide; [apply plain_error_response|apply plain_error]|].
  intros claims K3 _ _. destruct (claimed_user claims) as [user|]; [|apply good_answer, plain_error_response].
  destruct (negb _); [apply good_answer, plain_error_response|].
  apply good_any; [apply steady_issuer|]. intros iss K4 _.
  destruct (negb _); [apply good_answer, plain_error_response|].
  eapply follows_bind; [apply find_by_token_follows|].
  intros [[row|]|e|] K5 st [-> Hrow];
    [|apply good_answer, plain_error_response|apply good_answer, plain_db_error|apply good_panic].
  destruct (Tokens.tr_revoked row); [apply refuse_not_live_good|apply check_account_good, (Hrow row eq_refl)].
Qed.

Lemma finish_good K st o m ctx :
  steady any m -> (forall c : string, plain (o c)) ->
  good K st (or_return m (fun e => db_error_internal e ctx) (fun c => answer_with (o c))).
Proof. intros Hm Ho. apply good_any; [done|]. intros c K' _. apply good_answer, Ho. Qed.

Lemma logout_conforms msg : conforms f hands_out (logout msg).
Proof.
  unfold conforms, logout, start. cbn [fst snd]. cbv zeta. destruct (is_empty _).
  - apply finish_good; [apply steady_cookie|by intros c issued].
  - eapply good_return; [apply steady_end_all|intros d _; apply plain_db_error|]. intros _ K _ _.
    apply finish_good; [apply steady_cookie|by intros c issued].
Qed.

Lemma handle_revoke_conforms msg : conforms f hands_out (handle_revoke msg).
Proof.
  unfold conforms, handle_revoke, start. cbn [fst snd]. cbv zeta.
  destruct (is_empty _); [by apply good_answer; intros issued|].
  destruct (is_empty _); [by apply good_answer; intros issued|].
  apply good_any; [apply steady_find_session|]. intros [row|] K _; [|by apply good_answer; intros issued].
  apply good_any; [apply steady_end_family|]. intros _ K1 _.
  case_bool_decide; [|by apply good_answer; intros issued].
  apply finish_good; [apply steady_cookie|by intros c issued].
Qed.
End Handlers.

(** * Properties *)
Section Properties.
Context {JN : JsonNumbers} {JS : JsonScalars JN} {SH : Sha256} {HE : HexEncode} {MS : Messages} {UP : UrlParse}.
Context {B : Backend} {BL : BackendLaws B}.
Variable f : string.

(** The handlers that touch login families: a sign-in starts a family of its
    own, drawn at random, and answers without a refreshed pair. *)
Inductive family_handler : prog (outcome unit OutputStream) -> Prop :=
| IsRefresh msg body : family_handler (refresh msg body)
| IsLogout msg : family_handler (logout msg)
| IsRevocation msg : family_handler (handle_revoke msg)
| IsSignIn lifetime user token family method answer :
    family <> f -> (forall r h, ~ hands_out (answer r) h) ->
    family_handler (spawn answer (establish_family lifetime user token family NewFamily method)).

Lemma sign_in_conforms lifetime user token family method answer :
  family <> f -> (forall r h, ~ hands_out (answer r) h) ->
  conforms f hands_out (spawn answer (establish_family lifetime user token family NewFamily method)).
Proof.
  intros Hne Ha. unfold conforms, spawn, establish_family, Tokens.create_op, Sessions.create_op.
  apply (follows_bind f (fun _ _ _ => True)); [|by intros r K st _ h Hh; destruct (Ha r h)].
  apply (follows_bind f (fun op _ _ => exists data, op = BatchCreate Tokens.TABLE data /\
    new_token data family (Tokens.hash token))).
  { apply new_row_spec. intros data Hd. by exists data. }
  intros op K st (data & -> & Hd).
  intros now. simpl. exists family, (Tokens.hash token), data. eexists. do 3 (split; [done|]).
  split; [|done]. unfold map_opt_str. by data_lookup.
Qed.

Lemma handlers_conform ps : Forall family_handler ps -> Forall (conforms f hands_out) ps.
Proof.
  intros H. eapply Forall_impl; [exact H|]. intros p [msg body|msg|msg|lifetime user token family method answer Hne Ha].
  - apply refresh_conforms.
  - apply logout_conforms.
  - apply handle_revoke_conforms.
  - by apply sign_in_conforms.
Qed.

(** A family has at most one token that is not revoked. *)
Definition one_live_token (s : state) : Prop :=
  forall id1 id2 cols1 cols2,
    rows s Tokens.TABLE !! id1 = Some cols1 -> rows s Tokens.TABLE !! id2 = Some cols2 ->
    live f cols1 -> live f cols2 -> id1 = id2.

Lemma one_live_token_count s : one_live_token s <-> (live_count f s <= 1)%nat.
Proof.
  unfold live_count. split.
  - intros H. destruct (decide (live_ids f (rows s Tokens.TABLE) ≡ ∅)) as [He|He].
    + apply size_empty_iff in He. lia.
    + apply set_choose in He as [id Hid].
      assert (live_ids f (rows s Tokens.TABLE) ⊆ {[id]}) as Hsub.
      { intros i Hi. apply elem_of_singleton. apply elem_live_ids in Hi as (c & Hc & Hl), Hid as (c' & Hc' & Hl').
        by apply (H i id c c'). }
      apply subseteq_size in Hsub. by rewrite size_singleton in Hsub.
  - intros Hs id1 id2 c1 c2 H1 H2 Hl1 Hl2.
    assert (id1 ∈ live_ids f (rows s Tokens.TABLE)) as Hid1 by (apply elem_live_ids; by eexists).
    assert (id2 ∈ live_ids f (rows s Tokens.TABLE)) as Hid2 by (apply elem_live_ids; by eexists).
    apply (size_singleton_inv (live_ids f (rows s Tokens.TABLE))); [|done..].
    enough (size (live_ids f (rows s Tokens.TABLE)) <> O) by lia.
    intros He%size_empty_inv. set_solver.
Qed.

(** C12. However refreshes, logouts, device revocations and sign-ins interleave,
    and whichever of their calls fail, a login family never has two live
    tokens: of the holders of one token a single one gets its successor. *)
Theorem one_live_token_per_family ps s cfg' :
  wf s -> one_live_token s -> Forall family_handler ps -> rtc pool_step (ps, s) cfg' ->
  one_live_token cfg'.2.
Proof.
  rewrite !one_live_token_count. intros Hwf Hs Hps%handlers_conform Hsteps.
  pose proof (live_tokens_bounded f hands_out ps s cfg' Hwf Hps Hsteps). lia.
Qed.

(** The unique index of the token hashes. *)
Definition hashes_unique (s : state) : Prop :=
  forall id1 id2 g1 g2 h, has_token s id1 g1 h -> has_token s id2 g2 h -> id1 = id2.

Lemma end_family_steps s1 p1 s2 s3 s4 :
  prog_step (end_family f) s1 p1 s2 -> prog_step p1 s3 (Done (Ok tt)) s4 ->
  s2 = set_rows s1 Sessions.TABLE (delete_rows [Sessions.family_filter f] (rows s1 Sessions.TABLE)) /\
  s4 = after_revoke [text_filter "family" f] s3.
Proof.
  unfold end_family, Sessions.delete, Tokens.revoke_family, count_u64, labelled, prog_try, do_call. simpl.
  intros (r & Hc & ->) H2. destruct Hc as [[(e & -> & _) _]|[-> ->]]; simpl in H2; [done|]. split; [done|].
  destruct H2 as (r2 & [[(e & -> & _) _]|[-> ->]] & [=]). done.
Qed.

(** C13. Ending a family is final.  When a logout or a revocation deletes the
    family's session row at one point of a run and revokes its tokens at a later
    one, every token of the family a refresh hands out, before, between or
    after the two, is revoked: no rotation in flight escapes it. *)
Theorem ended_family_stays_ended ps s ps1 s1 p1 s2 ps3 s3 s4 cfg' :
  wf s -> Forall family_handler ps ->
  rtc pool_step (ps, s) (ps1, s1) -> prog_step (end_family f) s1 p1 s2 ->
  rtc pool_step (ps1, s2) (ps3, s3) -> prog_step p1 s3 (Done (Ok tt)) s4 ->
  rtc pool_step (ps3, s4) cfg' -> hashes_unique cfg'.2 ->
  forall i issued id cols,
    cfg'.1 !! i = Some (Done (Ok (refresh_response issued))) ->
    rows cfg'.2 Tokens.TABLE !! id = Some cols ->
    map_opt_str cols "token_hash" = Some (Tokens.hash (il_refresh_token issued)) ->
    ~ live f cols.
Proof.
  intros Hwf Hps%handlers_conform H01 He1 H23 He2 H45 Hu i issued id cols Hi Hr Hh Hl.
  destruct (end_family_steps s1 p1 s2 s3 s4 He1 He2) as [Hs2 Hs4].
  destruct (revoked_once_ended f hands_out ps s ps1 s1 s2 ps3 s3 s4 cfg' Hwf Hps H01 Hs2 H23 Hs4 H45 i _ _ Hi
    ltac:(by exists issued)) as (id' & g & cols' & v & Hr' & Hv & Hg & Hh' & Hrev).
  destruct Hl as [Hf Hlive].
  assert (view_token cols = Some {| tv_family := f; tv_hash := Tokens.hash (il_refresh_token issued); tv_revoked := false |})
    as Hw by (unfold view_token; by rewrite Hf, Hh, Hlive).
  assert (id' = id) as ->.
  { apply (Hu id' id g f (Tokens.hash (il_refresh_token issued))); [by exists cols', v|]. by eexists cols, _. }
  assert (cols' = cols) as -> by congruence. rewrite Hw in Hv. injection Hv as <-. simpl in *.
  by specialize (Hrev (eq_sym Hg)).
Qed.
End Properties.

(** ** Witnesses *)
Definition sample_claims : columns := columns_of
  [("user_id", VString "ann"); ("type", VString "refresh"); ("iss", VString "http://localhost:5173");
   ("auth_method", VString "password")].

(** A crypto service that signs a token with its type and its [jti]. *)
#[local] Instance signing_services : Services := fun R q =>
  match q in service R return R with
  | CryptoVerify _ => Ok sample_claims
  | CryptoSign claims _ => Ok (String.append (map_str claims "type") (map_str claims "jti"))
  | RandomBytes _ => Ok []
  | ConfigGetDefault _ d => Ok d
  | ConfigGetOptional _ => Ok None
  | UuidV7 => "t2"
  | NowIso => "2026-01-01T00:00:00Z"
  | IsoAfter _ => Some "2026-01-08T00:00:00Z"
  | Rfc3339Before _ => "2025-12-31T23:00:00Z"
  | UtcNow => 0
  | AskBlock _ _ => AnswerOther "none"
  | LlmChat _ _ _ _ => Ok []
  end.

Definition sample_token (revoked : bool) (token : string) : columns := columns_of
  [("family", VString "laptop"); ("user_id", VString "ann"); ("token_hash", VString token);
   ("revoked", VBool revoked)].
Definition sample_session : columns := columns_of [("family", VString "laptop"); ("user_id", VString "ann")].
Definition sample_user : columns := columns_of [("id", VString "ann"); ("email", VString "ann@shop.test")].
Definition signed_in : state :=
  set_rows (set_rows (set_rows ∅ Users.TABLE {["ann" := sample_user]})
    Sessions.TABLE {["laptop" := sample_session]}) Tokens.TABLE {["t1" := sample_token false "old"]}.

(** Two tabs refresh with the same token and the user logs out. *)
Definition tabs : list (prog (outcome unit OutputStream)) :=
  let msg := form_post [("http.header.sec-fetch-site", "same-origin")] in
  [refresh msg (Ok "old"); refresh msg (Ok "old"); logout msg].
Definition both_tabs := run_schedule (replicate 8 0 ++ replicate 8 1 ++ replicate 13 0 ++ replicate 13 1)%nat (tabs, signed_in).

Lemma tabs_handlers : Forall (family_handler "laptop") tabs.
Proof. repeat constructor. Qed.

Lemma signed_in_tokens : rows signed_in Tokens.TABLE = {["t1" := sample_token false "old"]}.
Proof. unfold signed_in. by rewrite rows_set_rows. Qed.

Lemma signed_in_sessions : rows signed_in Sessions.TABLE = {["laptop" := sample_session]}.
Proof. unfold signed_in. rewrite rows_set_rows_ne, rows_set_rows by done. done. Qed.

Lemma signed_in_wf : wf signed_in.
Proof.
  split.
  - intros id cols. simpl. rewrite signed_in_tokens, lookup_singleton_Some. intros [_ <-].
    exists {| tv_family := "laptop"; tv_hash := "old"; tv_revoked := false |}. split; [|done]. vm_compute. reflexivity.
  - intros id cols. rewrite signed_in_sessions, lookup_singleton_Some. intros [_ <-]. exists "laptop". vm_compute. reflexivity.
Qed.

Lemma signed_in_one : one_live_token "laptop" signed_in.
Proof. intros id1 id2 c1 c2. rewrite signed_in_tokens, !lookup_singleton_Some. intros [<- _] [<- _] _ _. done. Qed.

Definition revoked_ids (s : state) : list (string * option bool) :=
  map (fun p => (p.1, bool_col p.2 "revoked")) (map_to_list (rows s Tokens.TABLE)).

Lemma one_live_token_per_family_witness :
  revoked_ids both_tabs.2 = [("t1", Some true); ("t2", Some false)] /\ one_live_token "laptop" both_tabs.2.
Proof.
  split; [vm_compute; reflexivity|].
  apply (one_live_token_per_family "laptop" tabs signed_in both_tabs).
  - apply signed_in_wf.
  - apply signed_in_one.
  - apply tabs_handlers.
  - apply run_schedule_steps.
Defined.

(** One tab has rotated when the device is revoked; the other claims the
    predecessor in vain. *)
Definition next_call {A} (p : prog A) (s : state) : prog A * state :=
  match p with Do c k => let r := call_run c s in (k r.1, r.2) | Done a => (Done a, s) end.
Definition is_call {A} (p : prog A) : bool := match p with Do _ _ => true | Done _ => false end.

Lemma next_call_step {A} (p p' : prog A) s s' :
  is_call p = true -> next_call p s = (p', s') -> prog_step p s p' s'.
Proof. destruct p as [a|R c k]; [done|]. intros _ [= <- <-]. simpl. eexists. by split; [apply call_run_step|]. Qed.

Definition rotated := run_schedule (replicate 21 0)%nat (tabs, signed_in).
Definition session_ended := next_call (end_family "laptop") rotated.2.
Definition between := run_schedule (replicate 9 1)%nat (rotated.1, session_ended.2).
Definition tokens_revoked := next_call session_ended.1 between.2.
Definition afterwards := run_schedule (replicate 4 1)%nat (between.1, tokens_revoked.2).

Lemma ended_ok : tokens_revoked.1 = Done (Ok tt).
Proof.
  assert (match tokens_revoked.1 with Done (Ok tt) => true | _ => false end = true) as H by (vm_compute; reflexivity).
  by destruct tokens_revoked.1 as [[[]|e|]|R c k].
Qed.

Lemma first_call : prog_step (end_family "laptop") rotated.2 session_ended.1 session_ended.2.
Proof. apply next_call_step; [reflexivity|apply surjective_pairing]. Qed.
Lemma second_call : prog_step session_ended.1 between.2 (Done (Ok tt)) tokens_revoked.2.
Proof.
  assert (is_call session_ended.1 = true) as Hc by (vm_compute; reflexivity).
  rewrite <- ended_ok. apply next_call_step; [exact Hc|apply surjective_pairing].
Qed.

Definition issued_first : IssuedLogin := {|
  il_access_token := "access"; il_refresh_token := "refreshjti"; il_access_lifetime := 1800;
  il_cookie := "auth_token=access; HttpOnly; Path=/; SameSite=Lax; Max-Age=1800" |}.

(** The pair an answer carries. *)
Definition issued_of (o : OutputStream) : option IssuedLogin :=
  match o with
  | Respond {| status := 200; cookies := [cookie]; headers := [];
               body := Json (VObject [(k1, VString access); (k2, VString token); (k3, VString bearer); (k4, VNumber age)]) |} =>
      if forallb (fun p => String.eqb p.1 p.2)
           [(k1, "access_token"); (k2, "refresh_token"); (k3, "token_type"); (k4, "expires_in"); (bearer, "Bearer")]
      then Some {| il_access_token := access; il_refresh_token := token; il_access_lifetime := age; il_cookie := cookie |}
      else None
  | _ => None
  end.

Lemma issued_of_response o issued : issued_of o = Some issued -> o = refresh_response issued.
Proof.
  unfold issued_of. repeat case_match; try done. intros [= <-]. subst.
  repeat match goal with H : forallb _ _ = true |- _ => simpl in H; rewrite !andb_true_iff, !String.eqb_eq in H end.
  naive_solver.
Qed.

Lemma first_answered : afterwards.1 !! 0%nat = Some (Done (Ok (refresh_response issued_first))).
Proof.
  assert (match afterwards.1 with Done (Ok o) :: _ => issued_of o | _ => None end = Some issued_first) as H
    by (vm_compute; reflexivity).
  destruct afterwards.1 as [|[[o|e|]|R c k] ps]; try discriminate H. by apply issued_of_response in H as ->.
Qed.

Definition hash_list (s : state) : list (string * option string) :=
  map (fun p => (p.1, map_opt_str p.2 "token_hash")) (map_to_list (rows s Tokens.TABLE)).

Lemma hash_listed s id g h : has_token s id g h -> (id, Some h) ∈ hash_list s.
Proof.
  intros (cols & v & Hr & Hv & _ & <-). apply list_elem_of_fmap. exists (id, cols).
  split; [|by apply elem_of_map_to_list]. unfold view_token in Hv.
  destruct (map_opt_str cols "family"); [|done]. destruct (map_opt_str cols "token_hash") eqn:Hh; [|done].
  destruct (bool_col cols "revoked"); [|done]. injection Hv as <-. simpl. by rewrite Hh.
Qed.

Lemma afterwards_unique : hashes_unique afterwards.2.
Proof.
  assert (hash_list afterwards.2 = [("t1", Some "old"); ("t2", Some "refreshjti")]) as Hl by (vm_compute; reflexivity).
  intros id1 id2 g1 g2 h H1%hash_listed H2%hash_listed. rewrite Hl in H1, H2. clear -H1 H2.
  apply list_elem_of_In in H1, H2. simpl in H1, H2. intuition congruence.
Qed.

Lemma ended_family_stays_ended_witness :
  revoked_ids afterwards.2 = [("t1", Some true); ("t2", Some true)] /\
  forall cols, rows afterwards.2 Tokens.TABLE !! "t2" = Some cols ->
    map_opt_str cols "token_hash" = Some "refreshjti" -> ~ live "laptop" cols.
Proof.
  split; [vm_compute; reflexivity|]. intros cols.
  refine (ended_family_stays_ended "laptop" tabs signed_in rotated.1 rotated.2 session_ended.1 session_ended.2
    between.1 between.2 tokens_revoked.2 afterwards signed_in_wf tabs_handlers _ _ _ _ _ afterwards_unique
    0%nat issued_first "t2" cols first_answered).
  - rewrite <- surjective_pairing. apply run_schedule_steps.
  - exact first_call.
  - rewrite <- surjective_pairing. apply run_schedule_steps.
  - exact second_call.
  - apply run_schedule_steps.
Defined.
