(* ===== verification/RateLimit.v ===== *)
(** * Rate limiting ([blocks/rate_limit.rs])

    The fixed-window limiter: the native map of counters with its eviction, the
    decision over a counter kept by the database, configured limits, client
    networks, and the checks the routes make. *)
From Stdlib Require Import String.
From S2P Require Import Prelude Ints Str Contracts SampleLib Wafer Features Records Effects Columns Failures AuthTail MemoryDb.

(** ** Limits *)

(** Instants and durations are nanoseconds; [Instant::duration_since]
    saturates at zero. *)
Definition duration_since (now earlier : Z) : Z := Z.max 0 (now - earlier).
Definition from_secs (secs : Z) : Z := secs * 1000000000.
Definition as_secs (d : Z) : Z := d / 1000000000.

Record RateLimit := { max_requests : Z; window : Z }.

Definition AUTH : RateLimit := {| max_requests := 30; window := from_secs 60 |}.
Definition REFRESH : RateLimit := {| max_requests := 30; window := from_secs 60 |}.
Definition AUTH_EMAIL : RateLimit := {| max_requests := 10; window := from_secs 3600 |}.
Definition API_READ : RateLimit := {| max_requests := 300; window := from_secs 60 |}.
Definition API_WRITE : RateLimit := {| max_requests := 120; window := from_secs 60 |}.
Definition UPLOAD : RateLimit := {| max_requests := 60; window := from_secs 60 |}.
Definition PRODUCTS_PREVIEW : RateLimit := {| max_requests := 120; window := from_secs 60 |}.
Definition PRODUCTS_CHECKOUT : RateLimit := {| max_requests := 30; window := from_secs 60 |}.
Definition PRODUCTS_RECEIPT : RateLimit := {| max_requests := 120; window := from_secs 60 |}.

(** The categories are ASCII, where [to_uppercase] is the ASCII one. *)
Definition override_key (name : string) : string :=
  String.append "WAFER_RUN_SHARED__RATE_LIMIT_" (to_ascii_uppercase name).

Definition parse_override (self : RateLimit) (value : string) : option RateLimit :=
  if String.eqb (trim value) "0" then None
  else
    match split_once "/" value with
    | Some (req_str, sec_str) =>
        let max := default (max_requests self) (parse_u32 (trim req_str)) in
        if max =? 0 then None
        else
          let secs := default (as_secs (window self)) (parse_u64 (trim sec_str)) in
          Some {| max_requests := max; window := from_secs secs |}
    | None =>
        let max := default (max_requests self) (parse_u32 (trim value)) in
        if max =? 0 then None else Some {| max_requests := max; window := window self |}
    end.

(** ** The native limiter *)
Record RateBucket := { rb_count : Z; rb_window_start : Z; rb_limit : RateLimit }.

Definition expired (b : RateBucket) (now : Z) : bool :=
  window (rb_limit b) <? duration_since now (rb_window_start b).
Definition throttled (b : RateBucket) : bool := max_requests (rb_limit b) <=? rb_count b.

Definition MAX_BUCKETS : nat := Z.to_nat 50000.
Abbreviation Buckets := (gmap string RateBucket).

(** A bucket as it is ranked for eviction: the order of the tuples. *)
Definition victim : Type := bool * Z * Z * string.
Definition victim_of (p : string * RateBucket) : victim :=
  (throttled p.2, rb_count p.2, rb_window_start p.2, p.1).
Definition victim_le (v w : victim) : Prop :=
  let '(t, c, s, k) := v in let '(t', c', s', k') := w in
  t = false /\ t' = true \/
  t = t' /\ (c < c' \/ c = c' /\ (s < s' \/ s = s' /\ str_le k k')).
#[export] Instance victim_le_dec v w : Decision (victim_le v w).
Proof. destruct v as [[[t c] s] k], w as [[[t' c'] s'] k']. unfold victim_le, str_le. apply _. Defined.

Definition evict_for_new_key (buckets : Buckets) (capacity : nat) (now : Z) : Buckets :=
  let buckets := filter (fun p => expired p.2 now = false) buckets in
  if (size buckets <? capacity)%nat then buckets
  else
    let target := (capacity - capacity / 10)%nat in
    let excess := (size buckets + 1 - target)%nat in
    let victims := merge_sort victim_le (map victim_of (map_to_list buckets)) in
    foldl (fun b v => delete v.2 b) buckets (take excess victims).

(** [bucket.count += 1] on an [u32], without overflow checks. *)
Definition wrap_u32 (z : Z) : Z := z mod 2 ^ 32.

(** [UserRateLimiter::check], under its lock: [Ok] of the requests that are
    left, or [Err] of the seconds to wait. *)
Definition check (buckets : Buckets) (capacity : nat) (now : Z) (key : string) (limit : RateLimit)
  : outcome Z Z * Buckets :=
  let buckets :=
    if bool_decide (buckets !! key = None) && (capacity <=? size buckets)%nat
    then evict_for_new_key buckets capacity now else buckets in
  let bucket := default {| rb_count := 0; rb_window_start := now; rb_limit := limit |} (buckets !! key) in
  let bucket := {| rb_count := rb_count bucket; rb_window_start := rb_window_start bucket; rb_limit := limit |} in
  let bucket :=
    if expired bucket now
    then {| rb_count := 0; rb_window_start := now; rb_limit := limit |} else bucket in
  let bucket := {| rb_count := wrap_u32 (rb_count bucket + 1);
                   rb_window_start := rb_window_start bucket; rb_limit := rb_limit bucket |} in
  (if max_requests limit <? rb_count bucket then
     let remaining := saturating_sub (window limit) (duration_since now (rb_window_start bucket)) in
     Err (Z.max 1 (as_secs remaining))
   else Ok (max_requests limit - rb_count bucket),
   <[key := bucket]> buckets).

Definition rate_key (identity category : string) : string := concat_chars [identity; ":"; category].

(** ** The counter of the database *)
Inductive BackendCheckOutcome := BackendAllowed (remaining : Z) | BackendLimited (retry_after : Z) | FailedOpen.

(** [count as u32] *)
Definition decide_rate_limit (count : WResult Z) (max_requests retry_after_secs : Z)
  : outcome unit BackendCheckOutcome :=
  match count with
  | Ok count =>
      let count := wrap_u32 count in
      Ok (if max_requests <? count then BackendLimited retry_after_secs
          else BackendAllowed (max_requests - count))
  | Err _ => Ok FailedOpen
  | Panic => Panic
  end.

(** ** Client networks *)
Inductive IpAddr := V4 (bits : Z) | V6 (bits : Z).
(** [std::net]: parsing an address and an address with a port, and printing. *)
Class IpText := {
  parse_ip : string -> option IpAddr;
  parse_socket_ip : string -> option IpAddr;
  ip_to_string : IpAddr -> string;
}.

Definition UNKNOWN_IP : string := "unknown".
Definition IPV6_CLIENT_PREFIX : Z := 64.

(** [Ipv6Addr::to_ipv4_mapped]: [::ffff:a.b.c.d] *)
Definition to_ipv4_mapped (v6 : Z) : option Z :=
  if Z.shiftr v6 32 =? 65535 then Some (Z.land v6 (Z.ones 32)) else None.

(** [u128::MAX << (128 - IPV6_CLIENT_PREFIX)] *)
Definition client_mask : Z := Z.land (Z.shiftl (Z.ones 128) (128 - IPV6_CLIENT_PREFIX)) (Z.ones 128).

Definition ip_bucket `{IpText} (remote_addr : string) : string :=
  let value := trim remote_addr in
  match or_else (parse_ip value) (parse_socket_ip value) with
  | None => UNKNOWN_IP
  | Some (V4 v4) => ip_to_string (V4 v4)
  | Some (V6 v6) =>
      match to_ipv4_mapped v6 with
      | Some v4 => ip_to_string (V4 v4)
      | None =>
          concat_chars [ip_to_string (V6 (Z.land v6 client_mask)); "/"; dec IPV6_CLIENT_PREFIX]
      end
  end.

(** ** The checks of the routes *)
Record RateLimitHeaders := { rl_limit : Z; rl_remaining : Z }.

Section Checks.
Context {JN : JsonNumbers} {MS : Messages} {IT : IpText}.

Definition resolve (self : RateLimit) (name : string) : prog (WResult (option RateLimit)) :=
  value ←? ask (ConfigGetDefault (override_key name)
                  (concat_chars [dec (max_requests self); "/"; dec (as_secs (window self))]));
  Done (Ok (parse_override self value)).

Inductive RateLimitOutcome := Allowed (h : RateLimitHeaders) | Disabled | Limited (o : OutputStream).

(** The answer also carries a [Retry-After] header. *)
Definition rate_limited_response (retry_after : Z) : OutputStream :=
  error_response Errors.RateLimitExceeded (Errors.default_message Errors.RateLimitExceeded).

(** The counters, the capacity and the clock are those of the moment the check
    takes the lock. *)
Definition check_rate_limit (buckets : Buckets) (capacity : nat) (now : Z)
    (identity category : string) (default_limit : RateLimit) : prog (RateLimitOutcome * Buckets) :=
  limit ← resolve default_limit category;
  Done match limit with
       | Ok (Some limit) =>
           let '(r, buckets) := check buckets capacity now (rate_key identity category) limit in
           (match r with
            | Ok remaining => Allowed {| rl_limit := max_requests limit; rl_remaining := remaining |}
            | Err retry_after => Limited (rate_limited_response retry_after)
            | Panic => Disabled
            end, buckets)
       | Ok None => (Disabled, buckets)
       | Err e => (Limited (db_error_internal e "Could not read the rate limit"), buckets)
       | Panic => (Disabled, buckets)
       end.

Definition check_user_rate_limit_with (buckets : Buckets) (capacity : nat) (now : Z) (msg : Message)
    (create_override : option (RateLimit * string)) : prog (RateLimitOutcome * Buckets) :=
  let user_id := msg_user_id msg in
  if is_empty user_id then Done (Disabled, buckets)
  else
    let '(limit, category) :=
      if String.eqb (msg_action msg) "retrieve" then (API_READ, "api_read")
      else if String.eqb (msg_action msg) "create" then default (API_WRITE, "api_write") create_override
      else (API_WRITE, "api_write") in
    check_rate_limit buckets capacity now user_id category limit.

Inductive LimitKey := LimitIp | LimitUser.

(** [None]: proceed. *)
Definition apply_route_limit (buckets : Buckets) (capacity : nat) (now : Z) (msg : Message) (remote_addr : string)
    (key : LimitKey) (category : string) (limit : RateLimit) : prog (option OutputStream * Buckets) :=
  let identity := match key with
                  | LimitIp => Some (ip_bucket remote_addr)
                  | LimitUser => if is_empty (msg_user_id msg) then None else Some (msg_user_id msg)
                  end in
  match identity with
  | None => Done (None, buckets)
  | Some identity =>
      r ← check_rate_limit buckets capacity now identity category limit;
      Done (match r.1 with Limited response => Some response | Allowed _ | Disabled => None end, r.2)
  end.
End Checks.

(** ** Lemmas *)

Lemma check_never_panics buckets capacity now key limit : (check buckets capacity now key limit).1 <> Panic.
Proof. unfold check. cbv zeta. simpl. by destruct (_ <? _). Qed.

#[export] Instance victim_le_total : Total victim_le.
Proof.
  intros [[[t c] s] k] [[[t' c'] s'] k']. unfold victim_le.
  destruct t, t'; try (by left; left); try (by right; left);
    (destruct (Z.lt_trichotomy c c') as [?|[->|?]]; [by left; auto|
      destruct (Z.lt_trichotomy s s') as [?|[->|?]]; [by left; auto 6| |by right; auto 6]|by right; auto]);
    (destruct (total str_le k k'); [left|right]; auto 8).
Qed.

#[export] Instance victim_le_trans : Transitive victim_le.
Proof.
  intros [[[t1 c1] s1] k1] [[[t2 c2] s2] k2] [[[t3 c3] s3] k3]. unfold victim_le.
  intros [[-> ->]|[-> H12]] [[H1 H2]|[H1 H23]]; [done|by left; subst|by left; subst|].
  right. split; [congruence|]. clear H1.
  destruct H12 as [?|[-> H12]], H23 as [?|[<- H23]]; try (left; lia). right. split; [done|].
  destruct H12 as [?|[-> H12]], H23 as [?|[<- H23]]; try (left; lia). right. split; [done|]. by etrans.
Qed.

(** What an eviction leaves. *)
Lemma foldl_delete_lookup (vs : list victim) (b : Buckets) k x :
  foldl (fun b v => delete v.2 b) b vs !! k = Some x <-> k ∉ vs.*2 /\ b !! k = Some x.
Proof.
  revert b. induction vs as [|v vs IH]; intros b; cbn [foldl].
  - rewrite fmap_nil. set_solver.
  - rewrite IH, fmap_cons, not_elem_of_cons, lookup_delete_Some. naive_solver.
Qed.

Lemma foldl_delete_dom (vs : list victim) (b : Buckets) :
  dom (foldl (fun b v => delete v.2 b) b vs) = dom b ∖ list_to_set vs.*2.
Proof.
  apply set_eq. intros k. rewrite elem_of_difference, elem_of_list_to_set, !elem_of_dom. unfold is_Some.
  setoid_rewrite foldl_delete_lookup. naive_solver.
Qed.

(** The victims of an eviction, cheapest first. *)
Definition victims_of (b : Buckets) : list victim := merge_sort victim_le (map victim_of (map_to_list b)).

Lemma elem_victims b k t c s :
  (t, c, s, k) ∈ victims_of b <->
  exists x, b !! k = Some x /\ t = throttled x /\ c = rb_count x /\ s = rb_window_start x.
Proof.
  unfold victims_of. rewrite merge_sort_Permutation. rewrite list_elem_of_fmap. split.
  - intros ([k' x] & [= -> -> -> ->] & Hin%elem_of_map_to_list). by exists x.
  - intros (x & Hx & -> & -> & ->). exists (k, x). by rewrite elem_of_map_to_list.
Qed.

Lemma victims_keys b : (victims_of b).*2 ≡ₚ (map_to_list b).*1.
Proof.
  unfold victims_of. rewrite merge_sort_Permutation. change (map victim_of (map_to_list b)) with (victim_of <$> map_to_list b).
  rewrite <- list_fmap_compose. done.
Qed.

Lemma length_victims b : length (victims_of b) = size b.
Proof. unfold victims_of. rewrite merge_sort_Permutation, length_map. apply length_map_to_list. Qed.

Lemma take_victims_size b n :
  (n <= size b)%nat -> size (foldl (fun b v => delete v.2 b) b (take n (victims_of b))) = (size b - n)%nat.
Proof.
  intros Hn. rewrite <- size_dom, foldl_delete_dom.
  assert ((take n (victims_of b)).*2 ⊆+ (victims_of b).*2) as Hsub.
  { rewrite fmap_take. apply sublist_submseteq, sublist_take. }
  assert (NoDup (take n (victims_of b)).*2) as Hnd.
  { rewrite fmap_take. apply (sublist_NoDup _ (victims_of b).*2); [|apply sublist_take].
    rewrite victims_keys. apply NoDup_fst_map_to_list. }
  rewrite size_difference.
  - rewrite size_list_to_set by done. rewrite length_fmap, length_take, length_victims, size_dom. lia.
  - intros k Hk%elem_of_list_to_set. apply (elem_of_submseteq _ _ _ Hk) in Hsub.
    rewrite victims_keys in Hsub. apply list_elem_of_fmap in Hsub as ([k' x] & -> & Hin%elem_of_map_to_list).
    apply elem_of_dom. by exists x.
Qed.

Definition unexpired (b : Buckets) (now : Z) : Buckets := filter (fun p => expired p.2 now = false) b.

Lemma evict_size b capacity now :
  (0 < capacity)%nat -> (size (evict_for_new_key b capacity now) < capacity)%nat.
Proof.
  intros Hc. unfold evict_for_new_key. fold (unexpired b now). cbv zeta.
  destruct (Nat.ltb_spec (size (unexpired b now)) capacity) as [?|Hs]; [done|].
  fold (victims_of (unexpired b now)).
  pose proof (Nat.div_lt capacity 10 Hc ltac:(lia)).
  rewrite take_victims_size by lia. lia.
Qed.

(** Where a check leaves the buckets. *)
Definition made_room (b : Buckets) (capacity : nat) (now : Z) (key : string) : Buckets :=
  if bool_decide (b !! key = None) && (capacity <=? size b)%nat then evict_for_new_key b capacity now else b.

Lemma check_buckets b capacity now key limit :
  exists bucket, (check b capacity now key limit).2 = <[key := bucket]> (made_room b capacity now key).
Proof. by eexists. Qed.

(** ** Properties *)

(** The limiter never holds more buckets than its capacity, whatever keys a
    flood of requests names. *)
Theorem check_within_capacity b capacity now key limit :
  (0 < capacity)%nat -> (size b <= capacity)%nat ->
  (size (check b capacity now key limit).2 <= capacity)%nat.
Proof.
  intros Hc Hs. destruct (check_buckets b capacity now key limit) as [bucket ->].
  unfold made_room. destruct (decide (b !! key = None)) as [Hk|Hk].
  - rewrite bool_decide_eq_true_2 by done. cbn [andb].
    assert (forall m : Buckets, size m < capacity -> size (<[key:=bucket]> m) <= capacity)%nat as Hi.
    { intros m Hm. destruct (m !! key) as [x|] eqn:Hx.
      - rewrite map_size_insert_Some; [lia|by eexists].
      - rewrite map_size_insert_None by done. lia. }
    destruct (Nat.leb_spec capacity (size b)); apply Hi; [by apply evict_size|lia].
  - rewrite bool_decide_eq_false_2 by done. cbn [andb]. rewrite map_size_insert_Some; [lia|].
    by apply not_eq_None_Some.
Qed.

(** A sorted list cut after its first elements. *)
Lemma sorted_take {A} (R : A -> A -> Prop) (l : list A) n x y :
  StronglySorted R l -> x ∈ take n l -> y ∈ l -> y ∉ take n l -> R x y.
Proof.
  intros Hs Hx Hy Hn. rewrite <- (take_drop n l) in Hs, Hy. apply elem_of_app in Hy as [?|Hy]; [done|].
  apply StronglySorted_app in Hs as (Hs & _ & _). by apply Hs.
Qed.

(** Eviction never resets a client that is being throttled while a cheaper
    bucket could go: a throttled live bucket is dropped only after every live
    bucket that is still under its budget. *)
Theorem throttled_evicted_last b capacity now k x k' x' :
  b !! k = Some x -> expired x now = false -> throttled x = true ->
  evict_for_new_key b capacity now !! k = None ->
  b !! k' = Some x' -> throttled x' = false -> evict_for_new_key b capacity now !! k' = None.
Proof.
  intros Hk He Ht Hgone Hk' Ht'. unfold evict_for_new_key in *. cbv zeta in *.
  fold (unexpired b now) in *. set (m := unexpired b now) in *.
  assert (m !! k = Some x) as Hm by by apply map_lookup_filter_Some.
  destruct (size m <? capacity)%nat; [congruence|].
  fold (victims_of m) in *. set (n := (size m + 1 - _)%nat) in *.
  destruct (foldl _ m _ !! k') as [y|] eqn:Hy; [exfalso|done].
  apply foldl_delete_lookup in Hy as [Hnot Hm'].
  pose proof (proj1 (proj1 (map_lookup_filter_Some _ _ _ _) Hm')) as Hy. assert (y = x') as -> by congruence.
  destruct (decide (k ∈ (take n (victims_of m)).*2)) as [Hin|Hout].
  - apply list_elem_of_fmap in Hin as ([[[t c] s] k0] & Heq & Hin). simpl in Heq. subst k0.
    assert ((t, c, s, k) ∈ victims_of m) as Hv by (rewrite <- (take_drop n (victims_of m)), elem_of_app; by left).
    apply elem_victims in Hv as (x0 & Hx0 & -> & -> & ->). assert (x0 = x) as -> by congruence.
    assert (victim_le (throttled x, rb_count x, rb_window_start x, k)
                      (throttled x', rb_count x', rb_window_start x', k')) as Hle.
    { apply (sorted_take victim_le (victims_of m) n); [|done| |].
      - apply StronglySorted_merge_sort; apply _.
      - apply elem_victims. by exists x'.
      - intros Hin'. apply Hnot, list_elem_of_fmap.
        by exists (throttled x', rb_count x', rb_window_start x', k'). }
    unfold victim_le in Hle. rewrite Ht, Ht' in Hle. naive_solver.
  - assert (foldl (fun b v => delete v.2 b) m (take n (victims_of m)) !! k = Some x) by by apply foldl_delete_lookup.
    congruence.
Qed.

(** *** Budgets *)
Record Request := { rq_now : Z; rq_key : string; rq_limit : RateLimit }.

Definition is_allowed (r : outcome Z Z) : bool := match r with Ok _ => true | _ => false end.

(** How many requests of a key a run of requests lets through. *)
Fixpoint allowed_of (key : string) (capacity : nat) (b : Buckets) (reqs : list Request) : Z :=
  match reqs with
  | [] => 0
  | r :: reqs =>
      let '(answer, b) := check b capacity (rq_now r) (rq_key r) (rq_limit r) in
      (if String.eqb (rq_key r) key && is_allowed answer then 1 else 0) + allowed_of key capacity b reqs
  end.

(** The live counter of [key] is dropped to make room for another key. *)
Definition drops (key : string) (b b' : Buckets) (now : Z) : bool :=
  match b !! key with
  | Some x => negb (expired x now) && bool_decide (b' !! key = None)
  | None => false
  end.
(** A run of requests that never drops the live counter of [key], whatever it
    does to the counters of other keys. *)
Fixpoint keeps_counter (key : string) (capacity : nat) (b : Buckets) (reqs : list Request) : bool :=
  match reqs with
  | [] => true
  | r :: reqs =>
      negb (drops key b (made_room b capacity (rq_now r) (rq_key r)) (rq_now r)) &&
      keeps_counter key capacity (check b capacity (rq_now r) (rq_key r) (rq_limit r)).2 reqs
  end.

Lemma made_room_lookup b capacity now key k x : made_room b capacity now key !! k = Some x -> b !! k = Some x.
Proof.
  assert (unexpired b now !! k = Some x -> b !! k = Some x) as Hu
    by (unfold unexpired; rewrite map_lookup_filter_Some; intros [Hx _]; exact Hx).
  unfold made_room. destruct (_ && _); [|done]. unfold evict_for_new_key. fold (unexpired b now). cbv zeta.
  destruct (_ <? _)%nat; [done|]. intros [_ Hm]%foldl_delete_lookup. by apply Hu.
Qed.
(** A request makes no room at the cost of its own key. *)
Lemma made_room_own b capacity now key : made_room b capacity now key !! key = b !! key.
Proof.
  destruct (made_room b capacity now key !! key) as [x|] eqn:Hm; [symmetry; by eapply made_room_lookup|].
  unfold made_room in Hm. destruct (b !! key) as [y|] eqn:Hk; [|done].
  rewrite bool_decide_eq_false_2 in Hm by done. simpl in Hm. congruence.
Qed.

(** What is left of a key's budget in a span that starts at [t0] and is no
    longer than the window: the rest of its window, and a new window if the
    current one started before the span. *)
Definition allowance (limit : RateLimit) (t0 : Z) (b : option RateBucket) : Z :=
  match b with
  | None => max_requests limit
  | Some b =>
      Z.max 0 (max_requests limit - rb_count b) +
      (if rb_window_start b <? t0 then max_requests limit else 0)
  end.

(** The bucket of a key counts at most up to [n] more without wrapping. *)
Definition countable (n : Z) (b : option RateBucket) : Prop :=
  n <= u32_max /\ forall x, b = Some x -> 0 <= rb_count x /\ rb_count x + n <= u32_max.

Lemma wrap_u32_small z : 0 <= z <= u32_max -> wrap_u32 z = z.
Proof. intros Hz. unfold wrap_u32, u32_max in *. apply Z.mod_small. lia. Qed.

(** The counter of the key, under the key's own limit. *)
Definition under (limit : RateLimit) (b : option RateBucket) : Prop := forall x, b = Some x -> rb_limit x = limit.

Lemma check_spends b capacity now key limit t0 n :
  0 <= max_requests limit -> 0 <= n -> t0 <= now <= t0 + window limit -> countable (n + 1) (b !! key) ->
  let '(answer, b') := check b capacity now key limit in
  (if is_allowed answer then 1 else 0) + allowance limit t0 (b' !! key) <= allowance limit t0 (b !! key) /\
  countable n (b' !! key) /\ under limit (b' !! key).
Proof.
  intros Hm Hn Hnow [Hn1 Hb]. unfold check. fold (made_room b capacity now key). cbv zeta.
  rewrite made_room_own, lookup_insert_eq. cbn [allowance].
  destruct (b !! key) as [x|]; cbn [allowance default from_option id rb_count rb_window_start rb_limit].
  - destruct (Hb x eq_refl) as [Hx0 Hx]. unfold expired, duration_since. cbn [rb_count rb_window_start rb_limit].
    destruct (Z.ltb_spec (window limit) (Z.max 0 (now - rb_window_start x))) as [He|He];
      cbn [rb_count rb_window_start rb_limit];
      (rewrite wrap_u32_small by lia; split; [|split; [split; [lia|intros y [= <-]; simpl; lia]|by intros y [= <-]]]).
    + destruct (Z.ltb_spec now t0); [lia|]. destruct (Z.ltb_spec (rb_window_start x) t0); [|lia].
      destruct (Z.ltb_spec (max_requests limit) (0 + 1)); simpl; lia.
    + destruct (Z.ltb_spec (max_requests limit) (rb_count x + 1)); simpl; destruct (_ <? t0); lia.
  - unfold expired, duration_since. cbn [rb_count rb_window_start rb_limit].
    destruct (Z.ltb_spec (window limit) (Z.max 0 (now - now))) as [He|He]; cbn [rb_count rb_window_start rb_limit];
      (rewrite wrap_u32_small by (unfold u32_max in *; lia));
      (split; [|split; [split; [lia|intros y [= <-]; simpl; lia]|by intros y [= <-]]]);
      (destruct (Z.ltb_spec now t0); [lia|]); destruct (Z.ltb_spec (max_requests limit) (0 + 1)); simpl; lia.
Qed.

(** A request of another key that keeps the live counter spends nothing: a
    counter that has expired counts for nothing any more. *)
Lemma check_other b capacity now key limit other t0 n :
  key <> other -> 0 <= max_requests limit -> t0 <= now <= t0 + window limit -> 0 <= n ->
  drops key b (made_room b capacity now other) now = false ->
  countable (n + 1) (b !! key) -> under limit (b !! key) -> forall limit',
  let b' := (check b capacity now other limit').2 in
  allowance limit t0 (b' !! key) <= allowance limit t0 (b !! key) /\
  countable n (b' !! key) /\ under limit (b' !! key).
Proof.
  intros Hne Hm Hnow Hn Hd [Hn1 Hb] Hu limit' b'. unfold b'.
  destruct (check_buckets b capacity now other limit') as [bucket ->]. rewrite lookup_insert_ne by congruence.
  destruct (made_room b capacity now other !! key) as [y|] eqn:Hy.
  { rewrite (made_room_lookup _ _ _ _ _ _ Hy) in *. split; [done|]. split; [|done]. split; [lia|].
    intros z Hz. specialize (Hb z Hz). lia. }
  split; [|split; [split; [lia|done]|done]]. unfold drops in Hd. rewrite Hy in Hd. destruct (b !! key) as [x|]; [|done].
  rewrite bool_decide_eq_true_2, andb_true_r in Hd by done. apply negb_false_iff in Hd.
  unfold expired, duration_since in Hd. rewrite (Hu x eq_refl) in Hd. apply Z.ltb_lt in Hd.
  unfold allowance. destruct (Z.ltb_spec (rb_window_start x) t0); lia.
Qed.

Lemma allowed_within_allowance reqs : forall key capacity b limit t0,
  keeps_counter key capacity b reqs = true -> 0 <= max_requests limit ->
  Forall (fun r => t0 <= rq_now r <= t0 + window limit /\ (rq_key r = key -> rq_limit r = limit)) reqs ->
  countable (Z.of_nat (length reqs)) (b !! key) -> under limit (b !! key) ->
  allowed_of key capacity b reqs <= allowance limit t0 (b !! key).
Proof.
  induction reqs as [|r reqs IH]; intros key capacity b limit t0 Hk Hm Hall Hcount Hu; cbn [allowed_of].
  - unfold allowance. destruct (b !! key) as [x|]; [|done]. destruct (_ <? t0); lia.
  - apply Forall_cons in Hall as [[Hnow Hlimit] Hall]. cbn [keeps_counter] in Hk.
    apply andb_true_iff in Hk as [Hd Hk]. apply negb_true_iff in Hd.
    rewrite length_cons, Nat2Z.inj_succ in Hcount. unfold Z.succ in Hcount.
    destruct (String.eqb_spec (rq_key r) key) as [<-|Hne]; cbn [andb].
    + rewrite (Hlimit eq_refl) in *.
      pose proof (check_spends b capacity (rq_now r) (rq_key r) limit t0 (Z.of_nat (length reqs)) Hm ltac:(lia) Hnow Hcount) as Hs.
      destruct (check b capacity _ _ _) as [answer b']. destruct Hs as (Hle & Hc' & Hu').
      pose proof (IH (rq_key r) capacity b' limit t0 Hk Hm Hall Hc' Hu'). lia.
    + destruct (check_other b capacity (rq_now r) key limit (rq_key r) t0 (Z.of_nat (length reqs)))
        with (limit' := rq_limit r) as (Hle & Hc' & Hu'); [congruence|done|done|lia|done..|].
      destruct (check b capacity _ _ _) as [answer b']. simpl in Hle, Hc', Hu', Hk.
      pose proof (IH key capacity b' limit t0 Hk Hm Hall Hc' Hu'). lia.
Qed.

(** C29. The budget of a key holds over every span of time: as long as the live
    counter of the key itself is not dropped - whatever other keys ask for and
    however many of their counters are evicted - no more than twice the
    configured number of its requests passes within one window's length, wherever
    the span starts, and from its first request on no more than the number itself.
    The key has one limit throughout, and its counter stays below 2^32. *)
Theorem budget_per_window key capacity b reqs limit t0 :
  keeps_counter key capacity b reqs = true -> 0 <= max_requests limit ->
  Forall (fun r => t0 <= rq_now r <= t0 + window limit /\ (rq_key r = key -> rq_limit r = limit)) reqs ->
  countable (Z.of_nat (length reqs)) (b !! key) -> under limit (b !! key) ->
  allowed_of key capacity b reqs <= 2 * max_requests limit /\
  (b !! key = None -> allowed_of key capacity b reqs <= max_requests limit).
Proof.
  intros Hk Hm Hall Hcount Hu. pose proof (allowed_within_allowance reqs key capacity b limit t0 Hk Hm Hall Hcount Hu) as Hle.
  unfold allowance in Hle. split; [|intros Hn; by rewrite Hn in Hle].
  destruct (b !! key) as [x|] eqn:Hx; [|lia]. destruct Hcount as [_ Hx']. specialize (Hx' x eq_refl).
  destruct (_ <? t0); lia.
Qed.

(** An override never makes a limit that lets nothing or everything through: it
    is a positive 32-bit number, or the category is off. *)
Lemma parse_u32_range s z : parse_u32 s = Some z -> 0 <= z <= u32_max.
Proof.
  assert (forall t, parse_digits in_u32 t = Some z -> 0 <= z <= u32_max) as H.
  { intros t (_ & _ & _ & Hr)%parse_digits_some. unfold in_u32, in_range in Hr. lia. }
  unfold parse_u32. destruct s as [|c s]; [apply H|]. destruct (Ascii.eqb_spec c "+"%char) as [->|Hne]; [apply H|].
  repeat (destruct c as [[] [] [] [] [] [] [] []]; try apply H; try done).
Qed.

Lemma parse_override_bounds self value limit :
  0 <= max_requests self <= u32_max -> 0 <= window self -> parse_override self value = Some limit ->
  1 <= max_requests limit <= u32_max /\ 0 <= window limit.
Proof.
  intros Hm Hw. unfold parse_override. destruct (String.eqb _ "0"); [done|].
  assert (forall s, 0 <= default (max_requests self) (parse_u32 s) <= u32_max) as Hmax.
  { intros s. destruct (parse_u32 s) as [z|] eqn:Hz; [by apply parse_u32_range in Hz|done]. }
  destruct (split_once "/" value) as [[req sec]|]; cbv zeta.
  - specialize (Hmax (trim req)). destruct (Z.eqb_spec (default (max_requests self) (parse_u32 (trim req))) 0); [done|].
    intros [= <-]. simpl. split; [lia|].
    assert (0 <= default (as_secs (window self)) (parse_u64 (trim sec))); [|unfold from_secs; lia].
    destruct (parse_u64 (trim sec)) as [z|] eqn:Hz; [|by apply Z.div_pos].
    assert (forall t, parse_digits in_u64 t = Some z -> 0 <= z) as Hd.
    { intros t (_ & _ & _ & Hr)%parse_digits_some. unfold in_u64, in_range in Hr. lia. }
    unfold parse_u64 in Hz. simpl. destruct (trim sec) as [|c s]; [by eapply Hd|].
    repeat (destruct c as [[] [] [] [] [] [] [] []]; try (by eapply Hd)).
  - specialize (Hmax (trim value)). destruct (Z.eqb_spec (default (max_requests self) (parse_u32 (trim value))) 0); [done|].
    intros [= <-]. simpl. lia.
Qed.

(** One network, one budget: every address of a /64 that is not an embedded
    IPv4 address spends the same bucket, so a host gains nothing by changing the
    interface half of its address. *)
Theorem one_bucket_per_network `{IpText} s t a b :
  or_else (parse_ip (trim s)) (parse_socket_ip (trim s)) = Some (V6 a) ->
  or_else (parse_ip (trim t)) (parse_socket_ip (trim t)) = Some (V6 b) ->
  0 <= a < 2 ^ 128 -> 0 <= b < 2 ^ 128 -> to_ipv4_mapped a = None -> to_ipv4_mapped b = None ->
  Z.shiftr a 64 = Z.shiftr b 64 -> ip_bucket s = ip_bucket t.
Proof.
  intros Hs Ht Ha Hb Hma Hmb Hab. unfold ip_bucket. cbv zeta. rewrite Hs, Ht, Hma, Hmb.
  assert (forall x, 0 <= x < 2 ^ 128 -> Z.land x client_mask = Z.shiftl (Z.shiftr x 64) 64) as Hnet.
  { intros x Hx. apply Z.bits_inj'. intros n Hn. change client_mask with (Z.shiftl (Z.ones 64) 64).
    rewrite Z.land_spec, !Z.shiftl_spec by done.
    destruct (Z.ltb_spec n 64).
    - rewrite !(Z.testbit_neg_r _ (n - 64)) by lia. by rewrite andb_false_r.
    - rewrite Z.shiftr_spec by lia. replace (n - 64 + 64) with n by lia.
      destruct (Z.ltb_spec n 128) as [Hl|Hl].
      + rewrite Z.ones_spec_low by lia. by rewrite andb_true_r.
      + rewrite Z.ones_spec_high by lia. rewrite andb_false_r. symmetry.
        destruct (Z.eq_dec x 0) as [->|]; [apply Z.testbit_0_l|]. apply Z.bits_above_log2; [lia|].
        apply Z.log2_lt_pow2; [lia|]. eapply Z.lt_le_trans; [apply Hx|]. by apply Z.pow_le_mono_r. }
  by rewrite !Hnet, Hab by done.
Qed.

(** ** Witnesses *)
Definition login (now : Z) (key : string) : Request := {| rq_now := now; rq_key := key; rq_limit := AUTH |}.
(** A client that hammers the login while a flood of other addresses keeps
    evicting counters. *)
Definition client : string := "203.0.113.7:auth".
Definition flood : list Request :=
  flat_map (fun n => [login (from_secs n) client; login (from_secs n) (dec n)]) (seqZ 0 40).
Definition stays (key : string) (b : Buckets) : bool := match b !! key with Some _ => true | None => false end.

Lemma budget_per_window_witness :
  existsb (fun n => stays (dec n) (foldl (fun b r => (check b 4 (rq_now r) (rq_key r) (rq_limit r)).2) ∅ flood))
    (seqZ 0 30) = false /\
  allowed_of client 4 ∅ flood = 30 /\
  (allowed_of client 4 ∅ flood <= 60 /\ ((∅ : Buckets) !! client = None -> allowed_of client 4 ∅ flood <= 30)).
Proof.
  split; [vm_compute; reflexivity|]. split; [vm_compute; reflexivity|].
  apply (budget_per_window client 4 ∅ flood AUTH 0).
  - vm_compute. reflexivity.
  - cbn. lia.
  - apply Forall_forall. intros r Hr. apply list_elem_of_In, in_flat_map in Hr as (n & Hn & Hr).
    apply list_elem_of_In, elem_of_seqZ in Hn. destruct Hr as [<-|[<-|[]]]; cbn; unfold from_secs; (split; [lia|done]).
  - split; [vm_compute; discriminate|]. intros x Hx. rewrite lookup_empty in Hx. discriminate Hx.
  - intros x Hx. rewrite lookup_empty in Hx. discriminate Hx.
Defined.

Definition full : Buckets :=
  {["a" := {| rb_count := 30; rb_window_start := 0; rb_limit := AUTH |}]} ∪
  {["b" := {| rb_count := 1; rb_window_start := 5; rb_limit := AUTH |}]}.

Lemma check_within_capacity_witness : (size (check full 2 10 "c" AUTH).2 <= 2)%nat.
Proof. apply (check_within_capacity full 2 10 "c" AUTH); vm_compute; lia. Defined.

Lemma throttled_evicted_last_witness :
  evict_for_new_key full 1 10 !! "b" = None.
Proof.
  apply (throttled_evicted_last full 1 10 "a" {| rb_count := 30; rb_window_start := 0; rb_limit := AUTH |}
    "b" {| rb_count := 1; rb_window_start := 5; rb_limit := AUTH |}); vm_compute; reflexivity.
Defined.

#[local] Instance sample_ip : IpText := {|
  parse_ip := fun s => if String.eqb s "2001:db8::1" then Some (V6 42540766411282592856903984951653826561)
                       else if String.eqb s "2001:db8::2" then Some (V6 42540766411282592856903984951653826562)
                       else None;
  parse_socket_ip := fun _ => None;
  ip_to_string := fun ip => match ip with V4 z | V6 z => dec z end;
|}.

Lemma one_bucket_per_network_witness : ip_bucket "2001:db8::1" = ip_bucket " 2001:db8::2".
Proof.
  apply (one_bucket_per_network _ _ 42540766411282592856903984951653826561 42540766411282592856903984951653826562);
    try (vm_compute; reflexivity); split; reflexivity || discriminate.
Defined.
