(* ===== verification/Lease.v ===== *)
(** * Leased work ([blocks/products/repo/provider_operations.rs], [blocks/products/stripe.rs])

    What the queue of provider operations and the ledger of Stripe events have in
    common: a row is work that one worker at a time holds under a lease, for a
    bounded number of attempts.  This file is the abstract machine of such a row
    and the rules for its writes; the two tables are instances. *)
From Stdlib Require Import String.
From S2P Require Import Prelude Ints Str Contracts Records Lifecycle Effects Columns TableMachine.

(** [chrono]: an instant in nanoseconds, read from and written to RFC 3339
    text; the instants of the years 0001 to 9999 are written without loss. *)
Class Instants := {
  parse_rfc3339 : string -> option Z;
  to_rfc3339 : Z -> string;
}.
Definition in_calendar (t : Z) : Prop := -62135596800 * 10 ^ 9 <= t < 253402300800 * 10 ^ 9.
Class InstantLaws (I : Instants) := {
  rfc3339_roundtrip : forall t, in_calendar t -> parse_rfc3339 (to_rfc3339 t) = Some t;
}.

(** [TimeDelta::num_seconds]: towards zero. *)
Definition num_seconds (delta : Z) : Z := Z.quot delta (10 ^ 9).
Definition after_seconds (now seconds : Z) : Z := now + seconds * 10 ^ 9.
(** [s.chars().take(n).collect()] *)
Definition chars_take (n : nat) (s : string) : string := concat_chars (take n (split_chars s)).

Inductive stage := Waiting | Working | Retrying | Finished | Dead.
#[export] Instance stage_eq_dec : EqDecision stage.
Proof. solve_decision. Defined.

Record Job := mkJob { j_stage : stage; j_owner : string; j_attempts : Z }.

(** Work that may still be claimed. *)
Definition open_stage (s : stage) : Prop := s = Waiting \/ s = Working \/ s = Retrying.
Definition closed_stage (s : stage) : Prop := s = Finished \/ s = Dead.

(** [reset]: an operator may put failed work back; [resolve]: a webhook may
    settle it without holding the lease.  A claim counts one up from the row as
    its worker has read it.  The write that takes the lease names the status and
    the owner of that row, not its attempts: it also takes a row that was claimed,
    and failed again, since ([LStale]: the worker has read [m], and whatever count
    [n] the others have brought the row to meanwhile is overwritten).  What a
    worker has read is a fact of its calls, not of the row: see [took_lease]. *)
Inductive lease_step (reset resolve : bool) : Job -> Job -> Prop :=
| LClaim st o n o' : open_stage st -> n < MAX_ATTEMPTS ->
    lease_step reset resolve (mkJob st o n) (mkJob Working o' (n + 1))
| LStale st o n m o' : open_stage st -> 0 <= m < MAX_ATTEMPTS -> m <> n ->
    lease_step reset resolve (mkJob st o n) (mkJob Working o' (m + 1))
| LFinish o n : lease_step reset resolve (mkJob Working o n) (mkJob Finished "" n)
| LFail o n st : st = Retrying \/ st = Dead -> lease_step reset resolve (mkJob Working o n) (mkJob st "" n)
| LExhaust st o n : open_stage st -> lease_step reset resolve (mkJob st o n) (mkJob Dead "" n)
| LReset st o n : reset = true -> st = Retrying \/ st = Dead ->
    lease_step reset resolve (mkJob st o n) (mkJob Waiting "" 0)
| LResolve st o n st' : resolve = true -> closed_stage st' ->
    lease_step reset resolve (mkJob st o n) (mkJob st' "" n).

(** A claim by a worker that has read [m]. *)
Lemma claim_step reset resolve st o n m o' :
  open_stage st -> 0 <= m < MAX_ATTEMPTS -> lease_step reset resolve (mkJob st o n) (mkJob Working o' (m + 1)).
Proof. intros Hst Hm. destruct (decide (m = n)) as [->|Hne]; [apply LClaim|apply LStale]; auto; lia. Qed.

Definition job_inv (j : Job) : Prop := 0 <= j_attempts j <= MAX_ATTEMPTS.

Lemma lease_step_inv reset resolve j j' : lease_step reset resolve j j' -> job_inv j -> job_inv j'.
Proof. unfold job_inv. destruct 1; simpl; unfold MAX_ATTEMPTS in *; lia. Qed.

(** A job with the row that stores it: a step may write any column. *)
Definition row_step {C} (reset resolve : bool) (p p' : Job * C) : Prop := lease_step reset resolve p.1 p'.1.
Definition row_inv {C} (p : Job * C) : Prop := job_inv p.1.

(** What a history of such steps keeps. *)
Definition job_after {C} (reset resolve : bool) (p p' : Job * C) : Prop :=
  (resolve = false -> j_stage p.1 = Finished -> p' = p) /\
  (reset = false -> closed_stage (j_stage p.1) -> closed_stage (j_stage p'.1)).

(** Finished work that no webhook settles takes no step. *)
Lemma finished_stuck reset resolve j j' :
  lease_step reset resolve j j' -> resolve = false -> j_stage j <> Finished.
Proof.
  intros [? ? ? ? H|? ? ? ? ? H| | |? ? ? H|? ? ? H H'|? ? ? ? H H'] Hr; simpl; intros Hst;
    unfold open_stage in *; simplify_eq; destruct_or?; simplify_eq.
Qed.
Lemma closed_step reset resolve j j' :
  lease_step reset resolve j j' -> reset = false -> closed_stage (j_stage j) -> closed_stage (j_stage j').
Proof.
  intros [st ? ? ? Hst|st ? ? ? ? Hst| | |st ? ? Hst|st ? ? Hres Hst|? ? ? ? Hres] Hr; simpl;
    unfold closed_stage, open_stage in *; intros Hc; simplify_eq; destruct_or?; simplify_eq; auto.
Qed.

Lemma lease_steps_after {C} reset resolve (p p' : Job * C) : rtc (row_step reset resolve) p p' -> job_after reset resolve p p'.
Proof.
  unfold job_after. induction 1 as [p|p p1 p' Hstep _ [IH1 IH2]]; [by split|]. unfold row_step in Hstep. split.
  - intros Hr Hj. by apply finished_stuck in Hstep.
  - intros Hr Hj. apply IH2; [done|]. by eapply closed_step.
Qed.

(** ** Rows that store a job *)

(** The table, and the stage each spelling of its status column stands for. *)
Class LeaseTable (T : Type) `{Wire T} := {
  lt_table : string;
  lt_stage : T -> stage;
  lt_reset : bool;
  lt_resolve : bool;
}.

Section LeaseRows.
Context {JN : JsonNumbers} {JS : JsonScalars JN} {NL : JsonNumberLaws JN} {T : Type} `{LT : LeaseTable T}.

Definition view_job (cols : columns) : option Job :=
  st ← enum_col (T:=T) cols "status";
  o ← text_col cols "processing_owner";
  n ← int_col cols "attempts";
  Some (mkJob (lt_stage st) o n).

Lemma view_job_some cols st o n :
  view_job cols = Some (mkJob st o n) <->
  exists t, enum_col (T:=T) cols "status" = Some t /\ lt_stage t = st /\
    text_col cols "processing_owner" = Some o /\ int_col cols "attempts" = Some n.
Proof.
  unfold view_job. split.
  - intros (t & Ht & H1)%bind_Some. apply bind_Some in H1 as (o' & Ho & H1). apply bind_Some in H1 as (n' & Hn & H1).
    injection H1 as <- -> ->. by exists t.
  - intros (t & -> & <- & -> & ->). done.
Qed.

Definition view_row (cols : columns) : option (Job * columns) := (fun j => (j, cols)) <$> view_job cols.
Lemma view_row_some cols p : view_row cols = Some p <-> view_job cols = Some p.1 /\ p.2 = cols.
Proof.
  unfold view_row. destruct p as [j c]. rewrite fmap_Some. simpl. split; [by intros (j' & ? & [= -> ->])|].
  intros [? ->]. by exists j.
Qed.

#[export] Instance lease_machine : Machine (Job * columns) := {|
  m_table := lt_table;
  m_view := view_row;
  m_inv := row_inv;
  m_step := row_step lt_reset lt_resolve;
  m_step_inv p p' := lease_step_inv lt_reset lt_resolve p.1 p'.1;
|}.

(** Every row of a well-formed table stores a job. *)
Lemma lease_wf s : table_wf s <->
  forall id cols, rows s lt_table !! id = Some cols -> exists j, view_job cols = Some j /\ job_inv j.
Proof.
  split; intros Hwf id cols Hr.
  - destruct (Hwf id cols Hr) as ([j c] & [Hv _]%view_row_some & Hi). by exists j.
  - destruct (Hwf id cols Hr) as (j & Hv & Hi). exists (j, cols). split; [by apply view_row_some|done].
Qed.

(** What the data of an update makes of a row. *)
Definition job_data (data : columns) (j j' : Job) : Prop :=
  (exists t, lt_stage t = j_stage j' /\ data !! "status" = Some (VString (wire t))) /\
  data !! "processing_owner" = Some (VString (j_owner j')) /\
  (data !! "attempts" = None /\ j_attempts j' = j_attempts j \/
   exists v, data !! "attempts" = Some v /\ as_i64 v = Some (j_attempts j')).

Lemma view_overlay data cols j j' :
  view_job cols = Some j -> job_data data j j' -> view_job (overlay data cols) = Some j'.
Proof.
  destruct j as [st o n], j' as [st' o' n']. unfold job_data. simpl.
  intros (t & Ht & Hst & Ho & Hn)%view_job_some ((t' & Hst' & Hd) & Hdo & Hdn).
  apply view_job_some. exists t'.
  rewrite enum_col_overlay, text_col_overlay, int_col_overlay, Hd, Hdo. simpl. rewrite wire_roundtrip.
  do 3 (split; [done|]). destruct Hdn as [[-> ->]|(v & -> & Hv)]; done.
Qed.

(** ** The writes *)

(** Every write names the row and the status it was read in; the writes of a
    lease holder also name the owner. *)
Definition row_in (id : string) (t : T) : list Filter :=
  [eq_filter "id" (VString id); eq_filter "status" (VString (wire t))].
Definition lease_filters (id : string) (t : T) (owner : string) : list Filter :=
  row_in id t ++ [eq_filter "processing_owner" (VString owner)].

(** What the calls of a worker show of a lease it took: [record] is the row as it
    had read it, in an open status and with fewer attempts than the budget; it
    sent the compare-and-set for that status and owner, with its own name and one
    attempt more; and the answer was one row. *)
Definition took_lease `{DebugFmt} (t : list happened) (id : string) (record : Row) (owner : string) (n : Z) : Prop :=
  n = u64_field record "attempts" + 1 /\ n <= MAX_ATTEMPTS /\
  exists st working data, enum_column (T:=T) record "status" = Ok st /\ open_stage (lt_stage st) /\
    Happened (UpdateByFiltersCount lt_table (lease_filters id st (str_field record "processing_owner")) data) (Ok 1) ∈ t /\
    lt_stage working = Working /\ data !! "status" = Some (VString (wire working)) /\
    data !! "processing_owner" = Some (VString owner) /\ data !! "attempts" = Some (json_i64 n).

Lemma took_lease_app `{DebugFmt} t1 t t2 id record owner n :
  took_lease t id record owner n -> took_lease (t1 ++ t ++ t2) id record owner n.
Proof.
  intros (Hn & Hb & st & w & data & Hst & Ho & Hin & Hd). split; [done|]. split; [done|]. exists st, w, data.
  do 2 (split; [done|]). split; [|done]. apply elem_of_app. right. apply elem_of_app. by left.
Qed.

Context {B : Backend} {BL : BackendLaws B} `{!EqDecision T}.

Lemma matches_row_in id t rest i cols j :
  view_job cols = Some j -> matches (row_in id t ++ rest) i cols = true ->
  i = id /\ j_stage j = lt_stage t.
Proof.
  destruct j as [st o n]. intros (t' & Ht & <- & _)%view_job_some.
  unfold row_in. cbn [app]. rewrite !matches_cons, !andb_true_iff, (holds_enum _ _ _ t') by done.
  unfold eq_filter at 1. rewrite holds_id. intros (->%String.eqb_eq & ->%bool_decide_eq_true & _). done.
Qed.

(** A compare-and-set: it takes the row to a state that satisfies [P], or it
    reports something else than one row. *)
Lemma safe_lease_cas {A} (Q : A -> state -> Prop) (P : Job -> Prop) k id t rest data s :
  table_wf s ->
  (forall j, j_stage j = lt_stage t -> job_inv j ->
     exists j', job_data data j j' /\ lease_step lt_reset lt_resolve j j' /\ P j') ->
  (forall s' cols j', evolve s s' -> table_wf s' -> rows s' lt_table !! id = Some cols ->
     view_job cols = Some j' -> P j' -> safe evolve Q (k (Ok 1)) s') ->
  (forall r s', r <> Ok 1 -> evolve s s' -> table_wf s' -> safe evolve Q (k r) s') ->
  safe evolve Q (Do (UpdateByFiltersCount lt_table (row_in id t ++ rest) data) k) s.
Proof.
  intros Hwf Hstep Hone Hother.
  assert (forall cols j, view_job cols = Some j -> job_inv j -> j_stage j = lt_stage t ->
    exists j', view_job (overlay data cols) = Some j' /\ lease_step lt_reset lt_resolve j j' /\ P j') as Hrow.
  { intros cols j Hv Hi Hst. destruct (Hstep j Hst Hi) as (j' & Hd & Hs & HP).
    exists j'. split; [by eapply view_overlay|done]. }
  apply (safe_update_count (M:=lease_machine)); [done| | |].
  - intros s' i cols [j c] _ _ [Hv _]%view_row_some Hi Hm. destruct (matches_row_in _ _ _ _ _ _ Hv Hm) as [_ Hst].
    destruct (Hrow cols j Hv Hi Hst) as (j' & Hv' & Hs & _). exists (j', overlay data cols). split; [by apply view_row_some|done].
  - intros s' Hs. destruct (Hs Hwf) as [Hwf' _]. change (@m_table _ _ lease_machine) with lt_table.
    set (s2 := set_rows _ _ _).
    assert (evolve s' s2) as Hu.
    { apply (update_rows_evolve (M:=lease_machine)). intros i cols [j c] _ _ [Hv _]%view_row_some Hi Hm.
      destruct (matches_row_in _ _ _ _ _ _ Hv Hm) as [_ Hst]. destruct (Hrow cols j Hv Hi Hst) as (j' & Hv' & Hs' & _).
      exists (j', overlay data cols). split; [by apply view_row_some|done]. }
    destruct (decide (count_rows (row_in id t ++ rest) (rows s' lt_table) = 1)) as [Hc|Hc].
    + destruct (count_one _ _ Hc) as (i & cols & Hr & Hm). destruct (proj1 (lease_wf s') Hwf' i cols Hr) as (j & Hv & Hi).
      destruct (matches_row_in _ _ _ _ _ _ Hv Hm) as [-> Hst]. destruct (Hrow cols j Hv Hi Hst) as (j' & Hv' & Hs' & HP).
      rewrite Hc. apply (Hone s2 (overlay data cols) j'); [by etrans|by apply Hu| |done|done].
      unfold s2. rewrite rows_set_rows. unfold update_rows. rewrite map_lookup_imap, Hr. cbn [mbind option_bind]. by rewrite Hm.
    + apply Hother; [congruence|by etrans|by apply Hu].
  - intros e s' Hs Hwf'. by apply Hother.
Qed.

Lemma harmless_lease_cas {A} (k : WResult Z -> prog A) id t rest data :
  (forall j, j_stage j = lt_stage t -> job_inv j ->
     exists j', job_data data j j' /\ lease_step lt_reset lt_resolve j j') ->
  (forall r, harmless (k r)) ->
  harmless (do_call (UpdateByFiltersCount lt_table (row_in id t ++ rest) data) ≫= k).
Proof.
  intros Hstep Hk s Hwf. apply (safe_lease_cas _ (fun _ => True)); [done| | |].
  - intros j Hj Hi. destruct (Hstep j Hj Hi) as (j' & Hd & Hs). by exists j'.
  - intros s' cols j' _ Hwf' _ _ _. by apply Hk.
  - intros r s' _ _ Hwf'. by apply Hk.
Qed.

(** What a history of the table keeps of a row. *)
Definition row_after (s s' : state) : Prop :=
  forall id cols j, rows s lt_table !! id = Some cols -> view_job cols = Some j ->
    exists cols' j', rows s' lt_table !! id = Some cols' /\ view_job cols' = Some j' /\ job_inv j' /\
      job_after lt_reset lt_resolve (j, cols) (j', cols').

Lemma evolve_row_after s s' : table_wf s -> evolve s s' -> row_after s s'.
Proof.
  intros Hwf HG id cols j Hr Hv.
  destruct (evolve_read (M:=lease_machine) s s' id cols (j, cols) Hwf HG Hr)
    as (cols' & [j' c'] & Hr' & [Hv' Hc]%view_row_some & _ & Hi' & Hs); [by apply view_row_some|]. simpl in Hv', Hc. subst c'.
  exists cols', j'. do 3 (split; [done|]). by apply lease_steps_after.
Qed.
End LeaseRows.

(** ** Concrete instants: the nanoseconds in decimal *)
#[export] Instance sample_instants : Instants := {|
  parse_rfc3339 s :=
    match s with
    | String.String "-" r => Z.opp <$> parse_digits (fun _ => true) r
    | _ => parse_digits (fun _ => true) s
    end;
  to_rfc3339 t := if t <? 0 then String.String "-" (dec (- t)) else dec t;
|}.
#[export] Instance sample_instant_laws : InstantLaws sample_instants.
Proof.
  split. intros t _. simpl. destruct (Z.ltb_spec t 0).
  - rewrite parse_digits_dec by lia. simpl. f_equal. lia.
  - pose proof (dec_digits t ltac:(lia)) as Hd. pose proof (dec_nonempty t ltac:(lia)) as Hne.
    pose proof (parse_digits_dec (fun _ => true) t ltac:(lia) eq_refl) as Hp.
    destruct (dec t) as [|c r]; [done|]. simpl in Hd. apply andb_true_iff in Hd as [Hc _].
    repeat case_match; try done; subst; done.
Qed.
