(* ===== verification/ProviderOps.v ===== *)
(** * Provider operations ([blocks/products/repo/provider_operations.rs])

    The queue of Stripe mutations: rows leased for a bounded number of attempts,
    completed, retried or dead-lettered under the lease, or settled by a webhook
    without it. *)
From Stdlib Require Import String.
From S2P Require Import Features.
From S2P Require Import Prelude Ints Str Contracts SampleLib Records Lifecycle Effects Columns TableMachine MemoryDb Lease.

Inductive OperationStatus := OpPending | OpProcessing | OpFailed | OpSucceeded | OpDeadLetter.
#[export] Instance operation_status_eq_dec : EqDecision OperationStatus.
Proof. solve_decision. Defined.

Definition operation_status_str (s : OperationStatus) : string :=
  match s with
  | OpPending => "pending"
  | OpProcessing => "processing"
  | OpFailed => "failed"
  | OpSucceeded => "succeeded"
  | OpDeadLetter => "dead_letter"
  end.
Definition OperationStatus_ALL : list OperationStatus :=
  [OpPending; OpProcessing; OpFailed; OpSucceeded; OpDeadLetter].
#[export] Program Instance operation_status_wire : Wire OperationStatus := {|
  wire := operation_status_str; wire_parse := parse_variant operation_status_str OperationStatus_ALL |}.
Next Obligation. by intros []. Qed.
Next Obligation. intros s t. apply parse_variant_spelling. Qed.

Definition OPERATIONS_TABLE : string := "impresspress__products__provider_operations".
Definition OPERATION_LEASE_SECONDS : Z := 300.

#[export] Instance operation_table : LeaseTable OperationStatus := {|
  lt_table := OPERATIONS_TABLE;
  lt_stage t :=
    match t with
    | OpPending => Waiting | OpProcessing => Working | OpFailed => Retrying
    | OpSucceeded => Finished | OpDeadLetter => Dead
    end;
  lt_reset := false;
  lt_resolve := true;
|}.

Section ProviderOperations.
Context {JN : JsonNumbers} {JS : JsonScalars JN} {DF : DebugFmt} {SH : Sha256} {CI : Instants}.

Record OperationClaim := { oc_record : Row; oc_owner : string; oc_attempts : Z }.
Record ClaimBatch := {
  cb_claims : list OperationClaim;
  cb_dead_lettered : Z;
  cb_failures : list (string * WaferError);
}.
Inductive Candidate := CandidateClaimed (c : OperationClaim) | CandidateDeadLettered | Skipped.
Inductive RetryRecorded := Scheduled | DeadLettered.

Definition status_of (record : Row) : WResult OperationStatus := enum_column record "status".
Definition timestamp (record : Row) (f : string) : option Z := parse_rfc3339 (str_field record f).

(** The columns every write that ends a lease clears. *)
Definition released : list (string * Value) :=
  [("processing_owner", VString ""); ("processing_started_at", VNull)].

Definition operation_rows (id : string) (status : OperationStatus) (owner : string) : list Filter :=
  lease_filters id status owner.

Definition ensure (operation_type aggregate_type aggregate_id stripe_account_id idempotency_key
    request_json : string) : prog (WResult Row) :=
  if is_empty operation_type || is_empty aggregate_type || is_empty aggregate_id || is_empty idempotency_key
  then Done (Err (wafer_error InvalidArgument "provider operation identity is incomplete"))
  else
    now ← now_rfc3339;
    let id := String.append "op_" (str_take 32 (sha256_hex_bytes idempotency_key)) in
    _ ←? do_call (InsertIfAbsent OPERATIONS_TABLE ["idempotency_key"] (columns_of
      [("id", VString id); ("operation_type", VString operation_type);
       ("aggregate_type", VString aggregate_type); ("aggregate_id", VString aggregate_id);
       ("stripe_account_id", VString stripe_account_id); ("idempotency_key", VString idempotency_key);
       ("status", VString (wire OpPending)); ("request_json", VString request_json);
       ("created_at", VString now); ("updated_at", VString now)]));
    record ←? do_call (GetByField OPERATIONS_TABLE "idempotency_key" (VString idempotency_key));
    if negb (String.eqb (str_field record "operation_type") operation_type) ||
       negb (String.eqb (str_field record "aggregate_type") aggregate_type) ||
       negb (String.eqb (str_field record "aggregate_id") aggregate_id) ||
       negb (String.eqb (str_field record "stripe_account_id") stripe_account_id)
    then Done (Err (wafer_error FailedPrecondition
           "provider-operation idempotency key was reused for another request"))
    else Done (Ok record).

Definition exhausted_reason (record : Row) (status : OperationStatus) : string :=
  let attempts := u64_field record "attempts" in
  let reason :=
    if bool_decide (status = OpProcessing) then
      concat_chars ["retry budget of "; dec MAX_ATTEMPTS; " attempts exhausted: the lease of attempt ";
                    dec attempts; " expired without recording an outcome"]
    else
      concat_chars ["retry budget of "; dec MAX_ATTEMPTS; " attempts exhausted after "; dec attempts;
                    " attempts"] in
  let previous := str_field record "last_error" in
  if is_empty previous then reason
  else concat_chars [reason; "; last recorded error: "; previous].

Definition dead_letter_data (reason now : string) : columns := columns_of
  (("status", VString (wire OpDeadLetter)) :: released ++
   [("next_attempt_at", VNull); ("last_error", VString (chars_take 1000 reason));
    ("terminal_at", VString now); ("updated_at", VString now)]).

Definition dead_letter_unclaimed (record : Row) (status : OperationStatus) : prog (WResult bool) :=
  now ← now_rfc3339;
  rows ←? do_call (UpdateByFiltersCount OPERATIONS_TABLE
    (operation_rows (row_id record) status (str_field record "processing_owner"))
    (dead_letter_data (exhausted_reason record status) now));
  Done (Ok (rows =? 1)).

(** Whether a row is due at [now]. *)
Definition eligible (record : Row) (status : OperationStatus) (now_value : Z) : bool :=
  match status with
  | OpPending | OpFailed =>
      match timestamp record "next_attempt_at" with None => true | Some next => next <=? now_value end
  | OpProcessing =>
      match timestamp record "processing_started_at" with
      | None => true
      | Some started => OPERATION_LEASE_SECONDS <=? num_seconds (now_value - started)
      end
  | OpSucceeded | OpDeadLetter => false
  end.

Definition claimed_fields (attempts : Z) (owner now : string) : columns := columns_of
  [("status", VString (wire OpProcessing)); ("attempts", json_i64 attempts);
   ("processing_owner", VString owner); ("processing_started_at", VString now);
   ("next_attempt_at", VNull); ("updated_at", VString now)].

(** [u64::saturating_add(1)] *)
Definition next_attempt (record : Row) : Z := Z.min (u64_field record "attempts" + 1) u64_max.

Definition claim_one (record : Row) (now_value : Z) : prog (WResult Candidate) :=
  status ←! status_of record;
  if negb (eligible record status now_value) then Done (Ok Skipped)
  else
    let attempts := next_attempt record in
    if MAX_ATTEMPTS <? attempts then
      moved ←? dead_letter_unclaimed record status;
      Done (Ok (if moved then CandidateDeadLettered else Skipped))
    else
      owner ← ask UuidV7;
      let fields := claimed_fields attempts owner (to_rfc3339 now_value) in
      rows ←? do_call (UpdateByFiltersCount OPERATIONS_TABLE
        (operation_rows (row_id record) status (str_field record "processing_owner")) fields);
      if negb (rows =? 1) then Done (Ok Skipped)
      else Done (Ok (CandidateClaimed
        {| oc_record := row_of (row_id record) (overlay fields (row_data record));
           oc_owner := owner; oc_attempts := attempts |})).

Definition no_claims : ClaimBatch := {| cb_claims := []; cb_dead_lettered := 0; cb_failures := [] |}.
Definition add_candidate (id : string) (r : WResult Candidate) (batch : ClaimBatch) : outcome WaferError ClaimBatch :=
  match r with
  | Ok (CandidateClaimed c) => Ok {| cb_claims := cb_claims batch ++ [c];
      cb_dead_lettered := cb_dead_lettered batch; cb_failures := cb_failures batch |}
  | Ok CandidateDeadLettered => Ok {| cb_claims := cb_claims batch;
      cb_dead_lettered := cb_dead_lettered batch + 1; cb_failures := cb_failures batch |}
  | Ok Skipped => Ok batch
  | Err error => Ok {| cb_claims := cb_claims batch;
      cb_dead_lettered := cb_dead_lettered batch; cb_failures := cb_failures batch ++ [(id, error)] |}
  | Panic => Panic
  end.

(** The loop over the candidates. *)
Fixpoint claim_all (limit : nat) (now_value : Z) (candidates : list Row) (batch : ClaimBatch)
  : prog (WResult ClaimBatch) :=
  match candidates with
  | [] => Done (Ok batch)
  | record :: candidates =>
      if (limit <=? length (cb_claims batch))%nat then Done (Ok batch)
      else
        r ← claim_one record now_value;
        batch ←! add_candidate (row_id record) r batch;
        claim_all limit now_value candidates batch
  end.

Definition due_filter : Filter := {| field := "status"; operator := OpIn;
  value := VArray (map VString (map wire [OpPending; OpFailed; OpProcessing])) |}.

Definition claim_due (limit : nat) : prog (WResult ClaimBatch) :=
  now_value ← ask UtcNow;
  candidates ←? do_call (ListRows OPERATIONS_TABLE [due_filter] (Nat.min (Nat.max limit 1) 100 * 4));
  claim_all limit now_value candidates no_claims.

Definition completed_data (response_json now : string) : columns := columns_of
  ([("status", VString (wire OpSucceeded)); ("response_json", VString response_json)] ++ released ++
   [("next_attempt_at", VNull); ("last_error", VString ""); ("completed_at", VString now);
    ("terminal_at", VString now); ("updated_at", VString now)]).

Definition lease_lost (before : string) : WaferError :=
  wafer_error FailedPrecondition (String.append "provider-operation lease was lost before " before).

Definition mark_completed (id owner response_json : string) : prog (WResult unit) :=
  now ← now_rfc3339;
  rows ←? do_call (UpdateByFiltersCount OPERATIONS_TABLE (operation_rows id OpProcessing owner)
    (completed_data response_json now));
  if rows =? 1 then Done (Ok tt)
  else
    record ←? do_call (Get OPERATIONS_TABLE id);
    status ←! status_of record;
    if bool_decide (status = OpSucceeded) then Done (Ok tt)
    else Done (Err (lease_lost "completion")).

Definition retry_data (now attempts : Z) (message : string) : columns :=
  let dead_letter := MAX_ATTEMPTS <=? attempts in
  columns_of
    (("status", VString (wire (if dead_letter then OpDeadLetter else OpFailed))) :: released ++
     [("next_attempt_at",
        if dead_letter then VNull
        else VString (to_rfc3339 (after_seconds now (retry_delay_seconds attempts))));
      ("last_error", VString (chars_take 1000 message));
      ("terminal_at", if dead_letter then VString (to_rfc3339 now) else VNull);
      ("updated_at", VString (to_rfc3339 now))]).

Definition mark_retry (id owner : string) (attempts : Z) (message : string) : prog (WResult RetryRecorded) :=
  now ← ask UtcNow;
  rows ←? do_call (UpdateByFiltersCount OPERATIONS_TABLE (operation_rows id OpProcessing owner)
    (retry_data now attempts message));
  if negb (rows =? 1) then Done (Err (lease_lost "retry was recorded"))
  else Done (Ok (if MAX_ATTEMPTS <=? attempts then DeadLettered else Scheduled)).

Definition settled (succeeded : bool) : OperationStatus := if succeeded then OpSucceeded else OpDeadLetter.

Definition resolved_data (succeeded : bool) (response_json message now : string) : columns := columns_of
  ([("status", VString (wire (settled succeeded))); ("response_json", VString response_json);
    ("last_error", VString (chars_take 1000 message))] ++ released ++
   [("next_attempt_at", VNull); ("completed_at", if succeeded then VString now else VNull);
    ("terminal_at", VString now); ("updated_at", VString now)]).

Definition resolve_unleased (id : string) (succeeded : bool) (response_json message : string)
  : prog (WResult unit) :=
  now ← now_rfc3339;
  _ ←? do_call (Update OPERATIONS_TABLE id (resolved_data succeeded response_json message now));
  Done (Ok tt).

Fixpoint resolve_each (succeeded : bool) (response_json message : string) (operations : list Row)
  : prog (WResult unit) :=
  match operations with
  | [] => Done (Ok tt)
  | operation :: operations =>
      status ←! status_of operation;
      _ ←? (if bool_decide (status = settled succeeded) then Done (Ok tt)
            else resolve_unleased (row_id operation) succeeded response_json message);
      resolve_each succeeded response_json message operations
  end.

Definition resolve_for_aggregate (operation_type aggregate_id : string) (succeeded : bool)
    (response_json message : string) : prog (WResult unit) :=
  operations ←? do_call (ListRows OPERATIONS_TABLE
    [eq_filter "operation_type" (VString operation_type); eq_filter "aggregate_id" (VString aggregate_id)] 10);
  resolve_each succeeded response_json message operations.

Definition complete_for_aggregate (operation_type aggregate_id response_json : string) : prog (WResult unit) :=
  resolve_for_aggregate operation_type aggregate_id true response_json "".
End ProviderOperations.

(** ** The writers are steps of the lease machine *)
Section OperationWrites.
Context {JN : JsonNumbers} {JS : JsonScalars JN} {NL : JsonNumberLaws JN} {DF : DebugFmt} {CI : Instants}.

(** What the data of each write makes of a row. *)
Ltac job_data_of t :=
  unfold job_data; simpl; data_lookup; split; [by exists t|]; split; [done|].

Lemma dead_letter_data_job reason now j :
  job_data (T:=OperationStatus) (dead_letter_data reason now) j (mkJob Dead "" (j_attempts j)).
Proof. unfold dead_letter_data, released. job_data_of OpDeadLetter. by left. Qed.

Lemma claimed_fields_job attempts owner now j :
  in_i64 attempts = true ->
  job_data (T:=OperationStatus) (claimed_fields attempts owner now) j (mkJob Working owner attempts).
Proof.
  intros Ha. unfold claimed_fields. job_data_of OpProcessing. right. eexists. split; [done|]. by apply as_i64_json.
Qed.

Lemma completed_data_job response now j :
  job_data (T:=OperationStatus) (completed_data response now) j (mkJob Finished "" (j_attempts j)).
Proof. unfold completed_data, released. job_data_of OpSucceeded. by left. Qed.

Lemma retry_data_job now attempts message j :
  job_data (T:=OperationStatus) (retry_data now attempts message) j
    (mkJob (if MAX_ATTEMPTS <=? attempts then Dead else Retrying) "" (j_attempts j)).
Proof.
  unfold retry_data, released. destruct (MAX_ATTEMPTS <=? attempts).
  - job_data_of OpDeadLetter. by left.
  - job_data_of OpFailed. by left.
Qed.

Lemma resolved_data_job succeeded response message now j :
  job_data (T:=OperationStatus) (resolved_data succeeded response message now) j
    (mkJob (lt_stage (settled succeeded)) "" (j_attempts j)).
Proof. unfold resolved_data, released. destruct succeeded; [job_data_of OpSucceeded|job_data_of OpDeadLetter]; by left. Qed.

Lemma next_attempt_range `{!JsonScalarLaws JS} record : 1 <= next_attempt record.
Proof. unfold next_attempt. pose proof (u64_field_range record "attempts"). unfold u64_max in *. lia. Qed.
End OperationWrites.

Section OperationHandlers.
Context {JN : JsonNumbers} {JS : JsonScalars JN} {NL : JsonNumberLaws JN} {SL : JsonScalarLaws JS}.
Context {DF : DebugFmt} {CI : Instants} {B : Backend} {BL : BackendLaws B}.
Abbreviation operations_machine := (lease_machine (LT:=operation_table)).

(** An attempt number the code writes is one up from the row, within the budget. *)
Lemma claim_attempt record :
  (MAX_ATTEMPTS <? next_attempt record) = false ->
  0 <= u64_field record "attempts" < MAX_ATTEMPTS /\ next_attempt record = u64_field record "attempts" + 1 /\
  in_i64 (next_attempt record) = true.
Proof.
  intros Hm%Z.ltb_ge. pose proof (next_attempt_range record) as H1. pose proof (u64_field_range record "attempts") as Hr.
  assert (next_attempt record = u64_field record "attempts" + 1) as Heq.
  { unfold next_attempt in *. destruct (Z.min_spec (u64_field record "attempts" + 1) u64_max) as [[_ He]|[_ He]]; [done|].
    rewrite He in Hm. unfold MAX_ATTEMPTS, u64_max in Hm. lia. }
  split; [lia|]. split; [done|]. apply in_i64_spec. unfold MAX_ATTEMPTS, i64_min, i64_max in *. lia.
Qed.

Lemma eligible_open record status now : eligible record status now = true -> open_stage (lt_stage status).
Proof. unfold open_stage. destruct status; simpl; intros; (discriminate || auto). Qed.

Lemma dead_letter_harmless record status :
  open_stage (lt_stage status) -> harmless (M:=operations_machine) (dead_letter_unclaimed record status).
Proof.
  intros Hopen. apply (harmless_now (M:=operations_machine)). intros now.
  unfold prog_try, operation_rows, lease_filters. apply (harmless_lease_cas (LT:=operation_table)).
  - intros [st o n] Hst _. simpl in Hst. subst st. eexists. split; [apply dead_letter_data_job|]. by apply LExhaust.
  - intros [n|e|]; apply (harmless_done (M:=operations_machine)).
Qed.

(** One candidate: safe, and a lease it reports is within the budget. *)
Definition claim_within (r : WResult Candidate) : Prop :=
  forall c, r = Ok (CandidateClaimed c) -> 1 <= oc_attempts c <= MAX_ATTEMPTS.

Lemma claim_one_safe record now s :
  table_wf (M:=operations_machine) s ->
  safe (evolve (M:=operations_machine)) (fun r _ => claim_within r) (claim_one record now) s.
Proof.
  intros Hwf. unfold claim_one. destruct (status_of record) as [status|e|] eqn:Hst; try (by intros s' _ c [=]).
  unfold prog_try at 1. cbn [mbind prog_mbind prog_bind].
  destruct (eligible record status now) eqn:Hel; cbn [negb]; [|by intros s' _ c [=]].
  pose proof (eligible_open _ _ _ Hel) as Hopen.
  destruct (MAX_ATTEMPTS <? next_attempt record) eqn:Hmax.
  - eapply (safe_try _ (fun _ _ => True)); [by apply dead_letter_harmless|by intros e s' c [=]|by intros s' c [=]|].
    intros moved s' _ _ s'' _ c. by destruct moved.
  - destruct (claim_attempt _ Hmax) as (Hn & Heq & Hi64).
    apply (safe_read _ (Ask UuidV7)); [by intros s1 r s2 ->|]. intros s1 owner H1 _. destruct (H1 Hwf) as [Hwf1 _].
    apply (safe_lease_cas (LT:=operation_table) _ (fun _ => True)); [done| | |].
    + intros [st o n] Hst' _. simpl in Hst'. subst st. eexists. split; [by apply claimed_fields_job|].
      split; [|done]. rewrite Heq. by apply claim_step.
    + intros s' cols j' _ _ _ _ _ s'' _ c [= <-]. simpl. lia.
    + intros [n|e|] s' Hr _ _; simpl; try (by intros s'' _ c [=]).
      destruct (Z.eqb_spec n 1) as [->|]; [done|]. by intros s'' _ c [=].
Qed.

Definition batch_within (limit : nat) (batch : ClaimBatch) : Prop :=
  (length (cb_claims batch) <= limit)%nat /\
  Forall (fun c => 1 <= oc_attempts c <= MAX_ATTEMPTS) (cb_claims batch).

Lemma add_candidate_within limit id r batch batch' :
  add_candidate id r batch = Ok batch' -> claim_within r -> batch_within limit batch ->
  (length (cb_claims batch) < limit)%nat -> batch_within limit batch'.
Proof.
  unfold batch_within, claim_within. intros Ha Hr [Hl Hf] Hlt.
  destruct r as [[c| |]|e|]; simpl in Ha; try discriminate Ha; injection Ha as <-; simpl; try done.
  rewrite length_app, Forall_app, Forall_singleton. simpl. split; [lia|]. split; [done|]. by apply Hr.
Qed.

Lemma claim_all_safe limit now candidates batch s :
  table_wf (M:=operations_machine) s -> batch_within limit batch ->
  safe (evolve (M:=operations_machine)) (fun r _ => forall b, r = Ok b -> batch_within limit b)
    (claim_all limit now candidates batch) s.
Proof.
  revert batch s. induction candidates as [|record candidates IH]; intros batch s Hwf Hb.
  { by intros s' _ b [= <-]. }
  simpl. destruct (Nat.leb_spec limit (length (cb_claims batch))) as [Hl|Hl]; [by intros s' _ b [= <-]|].
  eapply safe_bind; [apply _|by apply claim_one_safe|]. intros r s' Hs Hr. destruct (Hs Hwf) as [Hwf' _].
  destruct (add_candidate (row_id record) r batch) as [batch'|e|] eqn:Ha; [|by intros s2 _ b [=]..].
  apply IH; [done|]. by eapply add_candidate_within.
Qed.

Lemma claim_due_safe limit s :
  table_wf (M:=operations_machine) s ->
  safe (evolve (M:=operations_machine)) (fun r _ => forall b, r = Ok b -> batch_within limit b) (claim_due limit) s.
Proof.
  intros Hwf. unfold claim_due. apply (safe_read _ (Ask UtcNow)); [by intros s1 r s2 ->|].
  intros s1 now H1 _. destruct (H1 Hwf) as [Hwf1 _].
  eapply (safe_try _ (fun _ _ => True)); [exact (list_harmless (M:=operations_machine) [due_filter] _ s1 Hwf1)|by intros e s' b [=]|by intros s' b [=]|].
  intros candidates s' Hs _. destruct (Hs Hwf1) as [Hwf' _]. apply claim_all_safe; [done|].
  split; simpl; [lia|constructor].
Qed.

Definition closed_row (id : string) (r : WResult unit) (s : state) : Prop :=
  r = Ok tt -> exists cols j, rows s OPERATIONS_TABLE !! id = Some cols /\
    view_job (T:=OperationStatus) cols = Some j /\ closed_stage (j_stage j).

Lemma finished_row_closed id s cols j r :
  table_wf (M:=operations_machine) s -> rows s OPERATIONS_TABLE !! id = Some cols ->
  view_job (T:=OperationStatus) cols = Some j -> j_stage j = Finished ->
  safe (evolve (M:=operations_machine)) (closed_row id) (Done r) s.
Proof.
  intros Hwf Hr Hv Hj s2 Hs _.
  destruct (evolve_row_after (LT:=operation_table) _ _ Hwf Hs id cols j Hr Hv) as (cols2 & j2 & Hr2 & Hv2 & _ & _ & Hc).
  exists cols2, j2. do 2 (split; [done|]). apply Hc; [done|]. by left.
Qed.

Lemma mark_completed_safe id owner response s :
  table_wf (M:=operations_machine) s ->
  safe (evolve (M:=operations_machine)) (closed_row id) (mark_completed id owner response) s.
Proof.
  intros Hwf. unfold mark_completed.
  apply (safe_now (M:=operations_machine)). intros now s1 H1. destruct (H1 Hwf) as [Hwf1 _].
  unfold operation_rows, lease_filters.
  apply (safe_lease_cas (LT:=operation_table) _ (fun j => j_stage j = Finished)); [done| | |].
  - intros [st o n] Hst _. simpl in Hst. subst st. eexists. split; [apply completed_data_job|]. split; [|done].
    apply LFinish.
  - intros s2 cols j _ Hwf2 Hr Hv Hj. by eapply finished_row_closed.
  - intros [n|e|] s2 Hn Hs2 Hwf2; try (by intros s3 _ [=]). simpl.
    destruct (Z.eqb_spec n 1) as [->|_]; [done|].
    unfold prog_try at 1, do_call. cbn [mbind prog_mbind prog_bind].
    apply (safe_get (M:=operations_machine) _ _ id); [done| |by intros e s3 _ _ s4 _ [=]].
    intros s3 cols [j c] _ Hwf3 Hr [Hv _]%view_row_some _. simpl in Hv.
    destruct (status_of (row_of id cols)) as [st|e|] eqn:Hst; try (by intros s4 _ [=]).
    unfold prog_try. cbn [mbind prog_mbind prog_bind].
    destruct (bool_decide_reflect (st = OpSucceeded)) as [->|]; [|by intros s4 _ [=]].
    destruct j as [st o k]. apply view_job_some in Hv as (t & Ht & Hst' & Ho & Hk).
    apply (finished_row_closed id s3 cols (mkJob st o k)); [done|done|apply view_job_some; by exists t|].
    unfold status_of in Hst. rewrite (enum_column_text id cols "status" t Ht) in Hst. injection Hst as ->. done.
Qed.

Lemma mark_retry_harmless id owner attempts message :
  harmless (M:=operations_machine) (mark_retry id owner attempts message).
Proof.
  apply (harmless_bind_read (M:=operations_machine)).
  { intros s Hwf. apply (safe_read _ (Ask UtcNow)); [by intros s1 r s2 ->|]. by intros s1 r _ _ s2 _. }
  intros now. unfold operation_rows, lease_filters. apply (harmless_lease_cas (LT:=operation_table)).
  - intros [st o n] Hst _. simpl in Hst. subst st. eexists. split; [apply retry_data_job|]. apply LFail.
    destruct (MAX_ATTEMPTS <=? attempts); auto.
  - intros [n|e|]; simpl; [destruct (n =? 1)|..]; apply (harmless_done (M:=operations_machine)).
Qed.

Lemma resolve_unleased_harmless id succeeded response message :
  harmless (M:=operations_machine) (resolve_unleased id succeeded response message).
Proof.
  apply (harmless_now (M:=operations_machine)). intros now s Hwf. unfold prog_try.
  apply (safe_update (M:=operations_machine)); [done| |].
  - intros cols [j c] [Hv _]%view_row_some _. simpl in Hv. eexists (_, _). split.
    { apply view_row_some. split; [eapply view_overlay; [exact Hv|apply resolved_data_job]|done]. }
    apply rtc_once. destruct j as [st o n]. apply LResolve; [done|]. unfold closed_stage. destruct succeeded; simpl; auto.
  - intros [r|e|] s' _ _ s'' _; done.
Qed.

Lemma resolve_each_harmless succeeded response message operations :
  harmless (M:=operations_machine) (resolve_each succeeded response message operations).
Proof.
  induction operations as [|operation operations IH]; [apply (harmless_done (M:=operations_machine))|]. simpl.
  apply (harmless_try_done (M:=operations_machine)). intros st _.
  apply (harmless_try (M:=operations_machine)); [|by intros []].
  case_bool_decide; [apply (harmless_done (M:=operations_machine))|apply resolve_unleased_harmless].
Qed.

Lemma resolve_for_aggregate_harmless ty aggregate succeeded response message :
  harmless (M:=operations_machine) (resolve_for_aggregate ty aggregate succeeded response message).
Proof.
  apply (harmless_try (M:=operations_machine)); [apply (list_harmless (M:=operations_machine))|].
  intros l. apply resolve_each_harmless.
Qed.

(** ** What a claiming pass sends *)

(** The lease that a pass reports as [c] is of a row the pass had listed. *)
Definition leased (t : list happened) (candidates : list Row) (c : OperationClaim) : Prop :=
  exists record, record ∈ candidates /\ row_id (oc_record c) = row_id record /\
    took_lease (T:=OperationStatus) t (row_id record) record (oc_owner c) (oc_attempts c).
Definition leased_row (t : list happened) (c : OperationClaim) : Prop :=
  exists filters limit candidates,
    Happened (ListRows OPERATIONS_TABLE filters limit) (Ok candidates) ∈ t /\ leased t candidates c.

Lemma ran_claim_one record now t c :
  ran (claim_one record now) t (Ok (CandidateClaimed c)) ->
  row_id (oc_record c) = row_id record /\
  took_lease (T:=OperationStatus) t (row_id record) record (oc_owner c) (oc_attempts c).
Proof.
  unfold claim_one. intros (status & t1 & t2 & -> & [-> Hst]%ran_done & H)%ran_try_ok.
  destruct (eligible record status now) eqn:Hel; cbn [negb] in H; [|by apply ran_done in H as [_ [=]]].
  destruct (MAX_ATTEMPTS <? next_attempt record) eqn:Hmax.
  { apply ran_try_ok in H as (moved & t3 & t4 & -> & _ & [-> [= H]]%ran_done). by destruct moved. }
  destruct (claim_attempt _ Hmax) as (Hn & Heq & _).
  apply ran_bind in H as (owner & t3 & t4 & -> & _ & H).
  apply ran_try_ok in H as (n & t5 & t6 & -> & ->%ran_call & H).
  destruct (Z.eqb_spec n 1) as [->|]; apply ran_done in H as [-> [= H]]. subst c. split; [done|].
  split; [done|]. split; [simpl; lia|]. exists status, OpProcessing. eexists. split; [done|].
  split; [by eapply eligible_open|]. split; [simpl; apply elem_of_app; right; by left|].
  unfold claimed_fields. split; [done|]. split; [|split]; by data_lookup.
Qed.

Lemma leased_app t1 t t2 candidates c : leased t candidates c -> leased (t1 ++ t ++ t2) candidates c.
Proof. intros (record & Hr & Hid & H). exists record. do 2 (split; [done|]). by apply took_lease_app. Qed.

Lemma ran_claim_all limit now candidates batch t batch' c :
  ran (claim_all limit now candidates batch) t (Ok batch') -> c ∈ cb_claims batch' ->
  c ∈ cb_claims batch \/ leased t candidates c.
Proof.
  revert batch t. induction candidates as [|record candidates IH]; intros batch t H Hc.
  { apply ran_done in H as [_ [= ->]]. by left. }
  cbn [claim_all] in H. destruct (limit <=? _)%nat; [apply ran_done in H as [_ [= ->]]; by left|].
  apply ran_bind in H as (r & t1 & t2 & -> & H1 & H).
  apply ran_try_ok in H as (batch1 & t3 & t4 & -> & [-> Ha]%ran_done & H). simpl in H |- *.
  destruct (IH _ _ H Hc) as [Hin|(record' & Hr & Hid & Hl)].
  - destruct r as [[c'| |]|e|]; simpl in Ha; try discriminate Ha; injection Ha as Ha; subst batch1; simpl in Hin; try by left.
    apply elem_of_app in Hin as [Hin| ->%list_elem_of_singleton]; [by left|]. right.
    apply ran_claim_one in H1 as [Hid Hl]. exists record. split; [by left|]. split; [done|].
    by apply (took_lease_app []).
  - right. exists record'. split; [by right|]. split; [done|].
    rewrite <- (app_nil_r t4). by apply took_lease_app.
Qed.

Lemma ran_claim_due limit t batch c :
  ran (claim_due limit) t (Ok batch) -> c ∈ cb_claims batch -> leased_row t c.
Proof.
  intros (now & t1 & t2 & -> & _ & H)%ran_bind Hc. apply ran_try_ok in H as (candidates & t3 & t4 & -> & ->%ran_call & H).
  destruct (ran_claim_all _ _ _ _ _ _ _ H Hc) as [Hin|Hl]; [by apply elem_of_nil in Hin|].
  exists [due_filter]. eexists _, candidates. split; [simpl; apply elem_of_app; right; by left|].
  rewrite (app_assoc t1), <- (app_nil_r t4). by apply leased_app.
Qed.

(** ** Properties *)

(** A worker or a webhook of the block, whatever is made of its answer. *)
Inductive operation_handler {A} : prog A -> Prop :=
| OClaim limit f : operation_handler (spawn f (claim_due limit))
| OComplete id owner response f : operation_handler (spawn f (mark_completed id owner response))
| ORetry id owner attempts message f : operation_handler (spawn f (mark_retry id owner attempts message))
| OResolve id succeeded response message f :
    operation_handler (spawn f (resolve_unleased id succeeded response message))
| OSettle ty aggregate succeeded response message f :
    operation_handler (spawn f (resolve_for_aggregate ty aggregate succeeded response message)).

Lemma operation_handler_harmless {A} (p : prog A) :
  operation_handler p -> harmless (M:=operations_machine) p.
Proof.
  destruct 1; apply (harmless_spawn (M:=operations_machine)).
  - intros s Hwf. eapply safe_weaken; [apply _| |by apply claim_due_safe]. done.
  - intros s Hwf. eapply safe_weaken; [apply _| |by apply mark_completed_safe]. done.
  - apply mark_retry_harmless.
  - apply resolve_unleased_harmless.
  - apply resolve_for_aggregate_harmless.
Qed.

(** C27. In any interleaving of the workers and the webhooks that move the queue
    of provider operations, with database failures anywhere and clocks that
    disagree, the attempt count of a row stays between zero and [MAX_ATTEMPTS],
    and an operation that succeeded or was dead-lettered is never worked on
    again.  Every lease a claiming pass reports was counted: it is of a row the
    pass had listed as open with fewer than [MAX_ATTEMPTS] attempts, and the write
    that took it, conditional on that status and owner, set one attempt more than
    the pass had read.  (It is not conditional on the count, so what was read may
    be out of date: [stale_claim_repeats_attempt].) *)
Theorem operations_stay_closed {A} (ps : list (prog A)) s ps' s' id cols j
  (Hps : Forall operation_handler ps) (Hwf : table_wf (M:=operations_machine) s)
  (Hsteps : rtc pool_step (ps, s) (ps', s'))
  (Hrow : rows s OPERATIONS_TABLE !! id = Some cols) (Hview : view_job (T:=OperationStatus) cols = Some j) :
  exists cols' j', rows s' OPERATIONS_TABLE !! id = Some cols' /\ view_job (T:=OperationStatus) cols' = Some j' /\
    0 <= j_attempts j' <= MAX_ATTEMPTS /\ (closed_stage (j_stage j) -> closed_stage (j_stage j')) /\
    (forall limit t batch, ran (claim_due limit) t (Ok batch) -> Forall (leased_row t) (cb_claims batch)).
Proof.
  assert (Forall (harmless (M:=operations_machine)) ps) as Hh
    by (eapply Forall_impl; [exact Hps|]; apply operation_handler_harmless).
  pose proof (pool_evolves (M:=operations_machine) _ _ _ Hh Hwf Hsteps) as HG.
  destruct (evolve_row_after (LT:=operation_table) _ _ Hwf HG id cols j Hrow Hview)
    as (cols' & j' & Hr' & Hv' & Hi' & _ & Hc).
  exists cols', j'. do 3 (split; [done|]). split; [by apply Hc|].
  intros limit t batch Hr. apply Forall_forall. intros c. by apply (ran_claim_due limit).
Qed.

(** A completion that was acknowledged to the worker is durable: when
    [mark_completed] has answered [Ok], by its own write or because somebody
    else had already settled the row, the row is settled and stays settled,
    whatever the other workers and webhooks do. *)
Theorem completion_durable (ps : list (prog (WResult unit))) s ps' s' i id owner response
  (Hi : ps !! i = Some (mark_completed id owner response))
  (Hps : forall k p, k <> i -> ps !! k = Some p -> operation_handler p)
  (Hwf : table_wf (M:=operations_machine) s)
  (Hsteps : rtc pool_step (ps, s) (ps', s')) (Hok : ps' !! i = Some (Done (Ok tt))) :
  exists cols j, rows s' OPERATIONS_TABLE !! id = Some cols /\
    view_job (T:=OperationStatus) cols = Some j /\ closed_stage (j_stage j).
Proof.
  refine (pool_one (M:=operations_machine) (closed_row id) ps ps' s s' i _ (Ok tt) Hi _ _ Hwf Hsteps Hok eq_refl).
  - intros k p Hk Hp. apply operation_handler_harmless. by apply (Hps k).
  - by apply mark_completed_safe.
Qed.

(** A claiming pass leases at most the number of rows it was asked for,
    and every lease is one of the eight attempts a row has, whatever other
    workers do to the rows between its calls. *)
Theorem claims_within_budget limit s (Hwf : table_wf (M:=operations_machine) s) :
  safe (evolve (M:=operations_machine))
    (fun r _ => forall batch, r = Ok batch ->
       (length (cb_claims batch) <= limit)%nat /\
       Forall (fun c => 1 <= oc_attempts c <= MAX_ATTEMPTS) (cb_claims batch))
    (claim_due limit) s.
Proof. by apply claim_due_safe. Qed.
End OperationHandlers.

(** ** Witnesses: a queue with one row *)
#[local] Instance worker_services : Services := fun R q =>
  match q in service R return R with
  | UuidV7 => "w1"
  | UtcNow => 0
  | AskBlock _ _ => AnswerOther "none"
  | LlmChat _ _ _ _ => Ok []
  | CryptoVerify _ => Err (wafer_error Unavailable "offline")
  | CryptoSign _ _ => Err (wafer_error Unavailable "offline")
  | RandomBytes _ => Err (wafer_error Unavailable "offline")
  | ConfigGetDefault _ d => Ok d
  | ConfigGetOptional _ => Ok None
  | NowIso => ""
  | IsoAfter _ => None
  | Rfc3339Before _ => "2025-12-31T23:00:00Z"
  end.

Definition sample_operation (status : OperationStatus) (attempts : Z) (owner : string) : columns := columns_of
  [("operation_type", VString "refund.reconcile"); ("aggregate_id", VString "rf_1");
   ("status", VString (wire status)); ("attempts", json_i64 attempts); ("processing_owner", VString owner)].
Definition sample_queue (cols : columns) : state := set_rows ∅ OPERATIONS_TABLE {["op_1" := cols]}.

Lemma sample_queue_row cols : rows (sample_queue cols) OPERATIONS_TABLE !! "op_1" = Some cols.
Proof. unfold sample_queue. by rewrite rows_set_rows, lookup_singleton_eq. Qed.

Lemma sample_queue_wf cols j :
  view_job (T:=OperationStatus) cols = Some j -> job_inv j ->
  table_wf (M:=lease_machine (LT:=operation_table)) (sample_queue cols).
Proof.
  intros Hv Hi. apply lease_wf. intros id c. simpl. unfold sample_queue.
  rewrite rows_set_rows, lookup_singleton_Some. intros [_ <-]. by exists j.
Qed.

Definition job_of (s : state) : option Job := rows s OPERATIONS_TABLE !! "op_1" ≫= view_job (T:=OperationStatus).

(** A webhook settles the operation while a worker holds its lease and fails. *)
Definition settle_race : list (prog unit) :=
  [spawn (fun _ => tt) (resolve_for_aggregate "refund.reconcile" "rf_1" true "{}" "");
   spawn (fun _ => tt) (mark_retry "op_1" "w1" 3 "card declined");
   spawn (fun _ => tt) (claim_due 5)].
Definition settle_run := run_schedule [0; 0; 1; 1; 0; 2; 2; 2]%nat
  (settle_race, sample_queue (sample_operation OpProcessing 3 "w1")).

(** What a pass over a row with three failures sends. *)
Definition retry_pass := run_traced (claim_due 5) (sample_queue (sample_operation OpFailed 3 "")).
Definition retry_batch : ClaimBatch := ok_or_default no_claims retry_pass.2.

Lemma operations_stay_closed_witness :
  job_of settle_run.2 = Some (mkJob Finished "" 3) /\ map oc_attempts (cb_claims retry_batch) = [4] /\
  exists cols' j', rows settle_run.2 OPERATIONS_TABLE !! "op_1" = Some cols' /\
    view_job (T:=OperationStatus) cols' = Some j' /\ 0 <= j_attempts j' <= MAX_ATTEMPTS /\
    (closed_stage Working -> closed_stage (j_stage j')) /\ Forall (leased_row retry_pass.1) (cb_claims retry_batch).
Proof.
  split; [vm_compute; reflexivity|]. split; [vm_compute; reflexivity|].
  destruct (operations_stay_closed settle_race (sample_queue (sample_operation OpProcessing 3 "w1"))
           settle_run.1 settle_run.2 "op_1" (sample_operation OpProcessing 3 "w1") (mkJob Working "w1" 3))
    as (cols' & j' & Hr & Hv & Hb & Hc & Hl).
  - repeat constructor.
  - apply (sample_queue_wf _ (mkJob Working "w1" 3)); [vm_compute; reflexivity|]. unfold job_inv, MAX_ATTEMPTS. simpl. lia.
  - rewrite <- surjective_pairing. apply run_schedule_steps.
  - apply sample_queue_row.
  - vm_compute. reflexivity.
  - exists cols', j'. do 4 (split; [done|]). apply (Hl 5%nat).
    apply (run_traced_ok (claim_due 5)). vm_compute. reflexivity.
Defined.

(** The lease holder completes the row while another worker looks for work. *)
Definition completion_pool : list (prog (WResult unit)) :=
  [mark_completed "op_1" "w1" "{}"; spawn (fun _ => Ok tt) (claim_due 5)].
Definition completion_run := run_schedule [1; 1; 0; 0; 1]%nat
  (completion_pool, sample_queue (sample_operation OpProcessing 3 "w1")).
Definition is_ok_done (p : option (prog (WResult unit))) : bool :=
  match p with Some (Done (Ok tt)) => true | _ => false end.
Lemma is_ok_done_spec p : is_ok_done p = true -> p = Some (Done (Ok tt)).
Proof. by destruct p as [[[[]| |]|]|]. Qed.

Lemma completion_durable_witness :
  exists cols j, rows completion_run.2 OPERATIONS_TABLE !! "op_1" = Some cols /\
    view_job (T:=OperationStatus) cols = Some j /\ closed_stage (j_stage j).
Proof.
  apply (completion_durable completion_pool (sample_queue (sample_operation OpProcessing 3 "w1"))
           completion_run.1 completion_run.2 0%nat "op_1" "w1" "{}").
  - reflexivity.
  - intros [|[|k]] p Hk Hp; [done| |done]. injection Hp as <-. constructor.
  - apply (sample_queue_wf _ (mkJob Working "w1" 3)); [vm_compute; reflexivity|]. unfold job_inv, MAX_ATTEMPTS. simpl. lia.
  - rewrite <- surjective_pairing. apply run_schedule_steps.
  - apply is_ok_done_spec. vm_compute. reflexivity.
Defined.

Definition claimed_attempts (r : WResult ClaimBatch) : list Z :=
  match r with Ok b => map oc_attempts (cb_claims b) | _ => [] end.

Lemma claims_within_budget_witness :
  claimed_attempts (run_alone (claim_due 5) (sample_queue (sample_operation OpFailed 3 ""))) = [4] /\
  safe (evolve (M:=lease_machine (LT:=operation_table)))
    (fun r _ => forall batch, r = Ok batch ->
       (length (cb_claims batch) <= 5)%nat /\
       Forall (fun c => 1 <= oc_attempts c <= MAX_ATTEMPTS) (cb_claims batch))
    (claim_due 5) (sample_queue (sample_operation OpFailed 3 "")).
Proof.
  split; [vm_compute; reflexivity|]. apply claims_within_budget.
  apply (sample_queue_wf _ (mkJob Retrying "" 3)); [vm_compute; reflexivity|]. unfold job_inv, MAX_ATTEMPTS. simpl. lia.
Defined.

(** ** A claim from a row that has moved on

    The compare-and-set of a claim names the status and the owner of the row it
    was read in, not its attempts: a row that was leased and failed in between is
    in that state again. *)
Definition stale_pool : list (prog (list Z)) :=
  [spawn claimed_attempts (claim_due 1); spawn claimed_attempts (claim_due 1);
   spawn (fun _ => []) (mark_retry "op_1" "w1" 4 "card declined")].
Definition stale_run := run_schedule [0; 0; 1; 1; 1; 1; 2; 2; 0; 0]%nat
  (stale_pool, sample_queue (sample_operation OpFailed 3 "")).
Definition finished_with {A} (p : option (prog A)) : option A :=
  match p with Some (Done a) => Some a | _ => None end.

(** Two workers are granted the same attempt of a row, one after the other, the
    second within the backoff the first one's failure had scheduled; its second
    failure is not counted. *)
Theorem stale_claim_repeats_attempt :
  rtc pool_step (stale_pool, sample_queue (sample_operation OpFailed 3 "")) stale_run /\
  finished_with (stale_run.1 !! 1%nat) = Some [4] /\ finished_with (stale_run.1 !! 0%nat) = Some [4] /\
  job_of stale_run.2 = Some (mkJob Working "w1" 4).
Proof. split; [apply run_schedule_steps|]. split; [|split]; vm_compute; reflexivity. Qed.
