(* ===== verification/StripeEvents.v ===== *)
(** * The ledger of Stripe events ([blocks/products/stripe.rs])

    The signature of a delivery, the row a delivery claims before its side
    effects run, how it is sealed or released, and the operator's replay.  The
    arms of [handle_webhook] that run the side effects of one event type are a
    parameter ([dispatch]). *)
From Stdlib Require Import String.
From S2P Require Import Features.
From S2P Require Import Prelude Ints Str Contracts SampleLib Wafer Records Lifecycle Effects Columns TableMachine MemoryDb Failures Csrf Lease.

Inductive EventStatus := EvPending | EvProcessing | EvFailed | EvProcessed | EvDeadLetter.
#[export] Instance event_status_eq_dec : EqDecision EventStatus.
Proof. solve_decision. Defined.

Definition event_status_str (s : EventStatus) : string :=
  match s with
  | EvPending => "pending"
  | EvProcessing => "processing"
  | EvFailed => "failed"
  | EvProcessed => "processed"
  | EvDeadLetter => "dead_letter"
  end.
Definition EventStatus_ALL : list EventStatus := [EvPending; EvProcessing; EvFailed; EvProcessed; EvDeadLetter].
#[export] Program Instance event_status_wire : Wire EventStatus := {|
  wire := event_status_str; wire_parse := parse_variant event_status_str EventStatus_ALL |}.
Next Obligation. by intros []. Qed.
Next Obligation. intros s t. apply parse_variant_spelling. Qed.

Definition STRIPE_EVENTS_TABLE : string := "impresspress__products__stripe_events".
Definition EVENT_LEASE_SECONDS : Z := 300.
Definition STRIPE_WEBHOOK_SECRET : string := "IMPRESSPRESS__PRODUCTS__STRIPE_WEBHOOK_SECRET".

#[export] Instance event_table : LeaseTable EventStatus := {|
  lt_table := STRIPE_EVENTS_TABLE;
  lt_stage t :=
    match t with
    | EvPending => Waiting | EvProcessing => Working | EvFailed => Retrying
    | EvProcessed => Finished | EvDeadLetter => Dead
    end;
  lt_reset := true;
  lt_resolve := false;
|}.

(** [base64ct::Base64], [serde_json::from_slice] (a value or the parser's
    message) and [wafer_block::err_internal_no_cause]. *)
Class WebhookHost (JN : JsonNumbers) := {
  base64_encode : string -> string;
  base64_decode : string -> option string;
  json_from_slice : string -> sum string Value;
  internal_no_cause : string -> WaferError;
}.

(** ** The signature *)
Section Signature.
Context {TC : TokenCrypto}.

Definition sig_values (prefix : string) (sig_header : string) : list string :=
  omap (fun part => strip_prefix prefix (trim part)) (split_on "," sig_header).

(** [now] is the clock in seconds; [now as u64] of a clock before 1970 wraps. *)
Definition verify_stripe_signature (now : Z) (payload sig_header secret : string) : bool :=
  let candidates := sig_values "v1=" sig_header in
  let timestamp := default "" (last (sig_values "t=" sig_header)) in
  if is_empty timestamp || forallb is_empty candidates then false
  else
    match parse_u64 timestamp with
    | None => false
    | Some ts =>
        if 300 <? Z.abs (now mod 2 ^ 64 - ts) then false
        else
          let computed_hex := hmac_sha256_hex secret (concat_chars [timestamp; "."; payload]) in
          existsb (fun candidate => constant_time_eq computed_hex candidate) candidates
    end.
End Signature.

(** ** The ledger *)
Section Ledger.
Context {JN : JsonNumbers} {JS : JsonScalars JN} {DF : DebugFmt} {SH : Sha256} {CI : Instants} {WH : WebhookHost JN}.

Inductive EventRecordState :=
| Claimed (owner : string) (attempts : Z)
| InFlight
| RetryScheduled
| AlreadyProcessed
| EventDeadLetter.

Definition event_timestamp (record : Row) (f : string) : option Z := parse_rfc3339 (str_field record f).
Definition event_status (record : Row) : WResult EventStatus := enum_column record "status".

Definition exhausted_event_reason (status : EventStatus) (existing : Row) : string :=
  let attempts := u64_field existing "attempts" in
  let reason :=
    match status with
    | EvProcessing => concat_chars
        ["retry budget of "; dec MAX_ATTEMPTS; " attempts exhausted: the processing lease of attempt ";
         dec attempts; " expired without recording an outcome"]
    | _ => concat_chars
        ["retry budget of "; dec MAX_ATTEMPTS; " attempts exhausted after "; dec attempts; " attempts"]
    end in
  let previous := str_field existing "last_error" in
  chars_take 1000
    (if is_empty previous then reason else concat_chars [reason; "; last recorded error: "; previous]).

(** What one delivery brings. *)
Record Delivery := {
  d_event_id : string;
  d_event_type : string;
  d_payload : string;
  d_account : string;
  d_livemode : bool;
}.

Definition new_event (d : Delivery) (now owner : string) : columns := columns_of
  [("id", VString (d_event_id d)); ("event_type", VString (d_event_type d));
   ("status", VString (wire EvProcessing)); ("stripe_account_id", VString (d_account d));
   ("livemode", VBool (d_livemode d)); ("attempts", json_i64 1); ("processing_owner", VString owner);
   ("processing_started_at", VString now); ("payload_sha256", VString (sha256_hex_bytes (d_payload d)));
   ("payload_base64", VString (base64_encode (d_payload d))); ("created_at", VString now)].

Definition event_exhausted (reason now : string) : columns := columns_of
  [("status", VString (wire EvDeadLetter)); ("processing_owner", VString ""); ("processing_started_at", VNull);
   ("next_retry_at", VNull); ("last_error", VString reason); ("terminal_at", VString now)].

Definition event_claimed (d : Delivery) (attempts : Z) (now owner : string) : columns := columns_of
  [("status", VString (wire EvProcessing)); ("attempts", json_i64 attempts); ("processing_owner", VString owner);
   ("processing_started_at", VString now); ("next_retry_at", VNull);
   ("payload_sha256", VString (sha256_hex_bytes (d_payload d)));
   ("payload_base64", VString (base64_encode (d_payload d)));
   ("stripe_account_id", VString (d_account d)); ("livemode", VBool (d_livemode d))].

(** [existing.u64_field("attempts").saturating_add(1)] *)
Definition event_attempt (existing : Row) : Z := Z.min (u64_field existing "attempts" + 1) u64_max.

(** The answer a stored status gives at once, if any. *)
Definition settled_or_busy (status : EventStatus) (existing : Row) (now_value : Z) : option EventRecordState :=
  match status with
  | EvProcessed => Some AlreadyProcessed
  | EvDeadLetter => Some EventDeadLetter
  | EvProcessing =>
      match event_timestamp existing "processing_started_at" with
      | Some started =>
          if num_seconds (now_value - started) <? EVENT_LEASE_SECONDS then Some InFlight else None
      | None => None
      end
  | EvFailed =>
      match event_timestamp existing "next_retry_at" with
      | Some next => if now_value <? next then Some RetryScheduled else None
      | None => None
      end
  | EvPending => None
  end.

Definition event_conflict : WaferError :=
  wafer_error FailedPrecondition "Stripe event id was reused with a different signed payload".

(** The second half of [record_event]: the id is already on record. *)
Definition reclaim_event (d : Delivery) (now_value : Z) (owner : string) (existing : Row)
  : prog (WResult EventRecordState) :=
  let now := to_rfc3339 now_value in
  let stored_hash := str_field existing "payload_sha256" in
  if negb (is_empty stored_hash) && negb (String.eqb stored_hash (sha256_hex_bytes (d_payload d)))
  then Done (Err event_conflict)
  else
    status ←! event_status existing;
    match settled_or_busy status existing now_value with
    | Some state => Done (Ok state)
    | None =>
        let unchanged := lease_filters (d_event_id d) status (str_field existing "processing_owner") in
        let attempts := event_attempt existing in
        if MAX_ATTEMPTS <? attempts then
          dead_lettered ←? do_call (UpdateByFiltersCount STRIPE_EVENTS_TABLE unchanged
            (event_exhausted (exhausted_event_reason status existing) now));
          Done (Ok (if dead_lettered =? 1 then EventDeadLetter else InFlight))
        else
          claimed ←? do_call (UpdateByFiltersCount STRIPE_EVENTS_TABLE unchanged
            (event_claimed d attempts now owner));
          Done (Ok (if claimed =? 1 then Claimed owner attempts else InFlight))
    end.

Definition record_event (d : Delivery) : prog (WResult EventRecordState) :=
  now_value ← ask UtcNow;
  owner ← ask UuidV7;
  rows ←? do_call (InsertIfAbsent STRIPE_EVENTS_TABLE ["id"] (new_event d (to_rfc3339 now_value) owner));
  if 0 <? rows then Done (Ok (Claimed owner 1))
  else
    existing ←? do_call (Get STRIPE_EVENTS_TABLE (d_event_id d));
    reclaim_event d now_value owner existing.

Definition event_lease_lost (before : string) : WaferError :=
  wafer_error FailedPrecondition (String.append "Stripe webhook processing lease was lost before " before).

Definition processed_data (now : string) : columns := columns_of
  [("status", VString (wire EvProcessed)); ("processing_owner", VString ""); ("processing_started_at", VNull);
   ("next_retry_at", VNull); ("last_error", VString ""); ("processed_at", VString now); ("terminal_at", VString now)].

Definition mark_event_processed (event_id owner : string) : prog (WResult unit) :=
  now ← now_rfc3339;
  updated ←? do_call (UpdateByFiltersCount STRIPE_EVENTS_TABLE (lease_filters event_id EvProcessing owner)
    (processed_data now));
  if updated =? 1 then Done (Ok tt) else Done (Err (event_lease_lost "completion")).

Definition failed_data (now attempts : Z) (error : string) : columns :=
  let dead_letter := MAX_ATTEMPTS <=? attempts in
  columns_of
    ([("status", VString (wire (if dead_letter then EvDeadLetter else EvFailed)));
      ("processing_owner", VString ""); ("processing_started_at", VNull);
      ("last_error", VString (chars_take 1000 error))] ++
     if dead_letter then [("next_retry_at", VNull); ("terminal_at", VString (to_rfc3339 now))]
     else [("next_retry_at", VString (to_rfc3339 (after_seconds now (retry_delay_seconds attempts))))]).

Definition mark_event_failed (event_id owner : string) (attempts : Z) (error : string) : prog (WResult unit) :=
  now ← ask UtcNow;
  updated ←? do_call (UpdateByFiltersCount STRIPE_EVENTS_TABLE (lease_filters event_id EvProcessing owner)
    (failed_data now attempts error));
  if updated =? 1 then Done (Ok tt) else Done (Err (event_lease_lost "failure was recorded")).
End Ledger.

(** ** The webhook *)
Section Webhook.
Context {JN : JsonNumbers} {JS : JsonScalars JN} {DF : DebugFmt} {SH : Sha256} {CI : Instants} {WH : WebhookHost JN}.
Context {TC : TokenCrypto}.

Record WebhookAck := { ack_received : bool; ack_duplicate : bool; ack_dead_letter : bool }.
Definition received : WebhookAck := {| ack_received := true; ack_duplicate := false; ack_dead_letter := false |}.
Definition duplicate : WebhookAck := {| ack_received := true; ack_duplicate := true; ack_dead_letter := false |}.
Definition dead_letter : WebhookAck := {| ack_received := true; ack_duplicate := false; ack_dead_letter := true |}.

(** A flag that is not set is left out. *)
Definition ack_json (a : WebhookAck) : Value := VObject
  ([("received", VBool (ack_received a))] ++
   unless (negb (ack_duplicate a)) [("duplicate", VBool true)] ++
   unless (negb (ack_dead_letter a)) [("dead_letter", VBool true)]).
Definition ok_ack (a : WebhookAck) : OutputStream :=
  Respond {| status := 200; cookies := []; headers := []; body := Json (ack_json a) |}.

(** A verified delivery as the arms read it. *)
Record WebhookEvent := {
  we_event : Value;
  we_object : Value;
  we_delivery : Delivery;
  we_created : Z;
}.
Definition read_event (event : Value) (raw_body : string) : WebhookEvent :=
  let text key := default "" (v ← value_get key event; as_str v) in
  let data_object := default VNull (d ← value_get "data" event; value_get "object" d) in
  let livemode := v ← or_else (value_get "livemode" event) (value_get "livemode" data_object); as_bool v in
  {| we_event := event; we_object := data_object;
     we_delivery := {| d_event_id := text "id"; d_event_type := text "type"; d_payload := raw_body;
                       d_account := text "account"; d_livemode := default false livemode |};
     we_created := Z.max (default 0 (v ← value_get "created" event; as_i64 v)) 0 |}.

(** The answers an arm fails the webhook with: [crud::db_error_internal],
    [err_internal_no_cause] and [err_internal], which are errors. *)
Inductive ArmFailure := ArmError (e : WaferError) | ArmInternal (context : string) (cause : WaferError).
Definition arm_response (f : ArmFailure) : OutputStream :=
  match f with ArmError e => OutputError e | ArmInternal context cause => ErrInternal context cause end.

(** The side effects of an event: done, or the failure and the message an arm
    ends with. *)
Variable dispatch : WebhookEvent -> prog (outcome (ArmFailure * string) unit).

Definition answer (o : OutputStream) : prog (outcome unit OutputStream) := Done (Ok o).
Definition internal_error (message : string) : prog (outcome unit OutputStream) :=
  answer (OutputError (internal_no_cause message)).

(** From the claim on.  [lease] is [None] for a delivery without an id. *)
Definition run_event (w : WebhookEvent) (lease : option (string * Z)) : prog (outcome unit OutputStream) :=
  let event_id := d_event_id (we_delivery w) in
  r ← dispatch w;
  match r with
  | Ok _ =>
      match lease with
      | Some (owner, _) =>
          sealed ← mark_event_processed event_id owner;
          match sealed with
          | Ok _ => answer (ok_ack received)
          | Err error => answer (db_error_internal error "Failed to complete webhook processing lease")
          | Panic => Done Panic
          end
      | None => answer (ok_ack received)
      end
  | Err (failure, message) =>
      let response := arm_response failure in
      match lease with
      | Some (owner, attempts) =>
          released ← mark_event_failed event_id owner attempts message;
          match released with Panic => Done Panic | _ => answer response end
      | None => answer response
      end
  | Panic => Done Panic
  end.

Definition process_event (w : WebhookEvent) : prog (outcome unit OutputStream) :=
  if is_empty (d_event_id (we_delivery w)) then run_event w None
  else
    recorded ← record_event (we_delivery w);
    match recorded with
    | Ok (Claimed owner attempts) => run_event w (Some (owner, attempts))
    | Ok InFlight =>
        internal_error "Stripe webhook event is already being processed; retry this delivery"
    | Ok RetryScheduled =>
        internal_error "Stripe webhook retry is scheduled after a prior processing failure"
    | Ok AlreadyProcessed => answer (ok_ack duplicate)
    | Ok EventDeadLetter => answer (ok_ack dead_letter)
    | Err e => answer (db_error_internal e "Failed to record webhook event")
    | Panic => Done Panic
    end.

(** [handle_webhook], with whether the runtime allows secret operations, the
    signature header and what reading the body gave. *)
Definition handle_webhook (secret_operations_allowed : bool) (sig_header : string) (body : WResult string)
  : prog (outcome unit OutputStream) :=
  settings ← ask (ConfigGetDefault STRIPE_WEBHOOK_SECRET "");
  match settings with
  | Err e => answer (db_error_internal e "Could not read the Stripe webhook settings")
  | Panic => Done Panic
  | Ok webhook_secret =>
      if negb secret_operations_allowed
      then answer (OutputError (wafer_error PermissionDenied "Stripe webhooks are disabled in the browser runtime"))
      else if is_empty webhook_secret
      then answer (err_unavailable
        "STRIPE_WEBHOOK_SECRET not configured — webhook processing disabled for security")
      else if is_empty sig_header
      then answer (OutputError (wafer_error Unauthenticated "Missing Stripe-Signature header"))
      else
        match body with
        | Err e => answer (OutputError e)
        | Panic => Done Panic
        | Ok raw_body =>
            now ← ask UtcNow;
            if negb (verify_stripe_signature (now / 10 ^ 9) raw_body sig_header webhook_secret)
            then answer (OutputError (wafer_error Unauthenticated "Invalid webhook signature"))
            else
              match json_from_slice raw_body with
              | inl e => answer (err_bad_request (String.append "Invalid webhook body: " e))
              | inr event => process_event (read_event event raw_body)
              end
        end
  end.

(** ** The operator's replay *)
Definition refuse_replay {A} (message : string) : prog (WResult A) :=
  Done (Err (wafer_error FailedPrecondition message)).
Definition BAD_PAYLOAD : string := "stored Stripe event payload failed its integrity check".

Definition replay_data : columns := columns_of
  [("status", VString (wire EvPending)); ("attempts", json_i64 0); ("processing_owner", VString "");
   ("processing_started_at", VNull); ("next_retry_at", VNull); ("processed_at", VNull); ("terminal_at", VNull);
   ("last_error", VString "manual replay requested")].

(** The signature the replay makes for its own delivery. *)
Definition replay_signature (timestamp : Z) (payload secret : string) : string :=
  concat_chars ["t="; dec timestamp; ",v1=";
                hmac_sha256_hex secret (concat_chars [dec timestamp; "."; payload])].

(** The stored payload, once its checks have passed. *)
Definition replay_payload (event_id : string) (event : Row) : WResult string :=
  previous_status ← event_status event;
  if negb (bool_decide (previous_status = EvFailed \/ previous_status = EvDeadLetter))
  then Err (wafer_error FailedPrecondition "only failed or dead-letter Stripe events can be replayed")
  else
    payload ← ok_or (base64_decode (str_field event "payload_base64")) (wafer_error FailedPrecondition BAD_PAYLOAD);
    if is_empty payload || is_empty (str_field event "payload_sha256") ||
       negb (String.eqb (sha256_hex_bytes payload) (str_field event "payload_sha256"))
    then Err (wafer_error FailedPrecondition BAD_PAYLOAD)
    else
      match json_from_slice payload with
      | inl _ => Err (wafer_error FailedPrecondition "stored Stripe event payload is not valid JSON")
      | inr parsed =>
          if bool_decide ((v ← value_get "id" parsed; as_str v) = Some event_id) then Ok payload
          else Err (wafer_error FailedPrecondition "stored Stripe event id does not match its row")
      end.

Definition replay_webhook_event (secret_operations_allowed : bool) (event_id : string)
  : prog (WResult (outcome unit OutputStream)) :=
  if negb secret_operations_allowed
  then refuse_replay "Stripe webhook replay is disabled in the browser runtime"
  else
    secret ←? ask (ConfigGetDefault STRIPE_WEBHOOK_SECRET "");
    if is_empty secret then refuse_replay "Stripe webhook secret is not configured"
    else
      event ←? do_call (Get STRIPE_EVENTS_TABLE event_id);
      payload ←! replay_payload event_id event;
      previous_status ←! event_status event;
      reset ←? do_call (UpdateByFiltersCount STRIPE_EVENTS_TABLE (row_in event_id previous_status) replay_data);
      if negb (reset =? 1)
      then Done (Err (wafer_error (OtherCode "Aborted") "Stripe event changed state before replay could start"))
      else
        now ← ask UtcNow;
        let timestamp := (now / 10 ^ 9) mod 2 ^ 64 in
        response ← handle_webhook secret_operations_allowed (replay_signature timestamp payload secret) (Ok payload);
        Done (Ok response).
End Webhook.

(** ** The writes are steps of the lease machine *)
Section EventWrites.
Context {JN : JsonNumbers} {JS : JsonScalars JN} {NL : JsonNumberLaws JN} {CI : Instants} {SH : Sha256}.
Context {WH : WebhookHost JN}.

Ltac job_data_of t :=
  unfold job_data; simpl; data_lookup; split; [by exists t|]; split; [done|].

Lemma event_exhausted_job reason now j :
  job_data (T:=EventStatus) (event_exhausted reason now) j (mkJob Dead "" (j_attempts j)).
Proof. unfold event_exhausted. job_data_of EvDeadLetter. by left. Qed.

Lemma event_claimed_job d attempts now owner j :
  in_i64 attempts = true ->
  job_data (T:=EventStatus) (event_claimed d attempts now owner) j (mkJob Working owner attempts).
Proof.
  intros Ha. unfold event_claimed. job_data_of EvProcessing. right. eexists. split; [done|]. by apply as_i64_json.
Qed.

Lemma processed_data_job now j :
  job_data (T:=EventStatus) (processed_data now) j (mkJob Finished "" (j_attempts j)).
Proof. unfold processed_data. job_data_of EvProcessed. by left. Qed.

Lemma failed_data_job now attempts error j :
  job_data (T:=EventStatus) (failed_data now attempts error) j
    (mkJob (if MAX_ATTEMPTS <=? attempts then Dead else Retrying) "" (j_attempts j)).
Proof.
  unfold failed_data. destruct (MAX_ATTEMPTS <=? attempts).
  - job_data_of EvDeadLetter. by left.
  - job_data_of EvFailed. by left.
Qed.

Lemma replay_data_job j : job_data (T:=EventStatus) replay_data j (mkJob Waiting "" 0).
Proof.
  unfold replay_data. job_data_of EvPending. right. eexists. split; [done|]. by apply as_i64_json.
Qed.

Lemma new_event_view d now owner (cols : columns) :
  new_event d now owner ⊆ cols -> view_job (T:=EventStatus) cols = Some (mkJob Working owner 1).
Proof.
  intros Hsub. assert (forall key v, new_event d now owner !! key = Some v -> cols !! key = Some v) as Hc
    by (intros key v Hk; by eapply lookup_weaken).
  apply view_job_some. exists EvProcessing. split; [|split; [done|split]].
  - apply enum_col_text, Hc. unfold new_event. by data_lookup.
  - apply text_col_value, Hc. unfold new_event. by data_lookup.
  - unfold int_col. rewrite (Hc "attempts" (json_i64 1)); [by apply as_i64_json|]. unfold new_event. by data_lookup.
Qed.
End EventWrites.

Abbreviation events_machine := (lease_machine (LT:=event_table)).
Abbreviation ledger_evolve := (evolve (M:=events_machine)).
Abbreviation ledger_wf := (table_wf (M:=events_machine)).

Section EventHandlers.
Context {JN : JsonNumbers} {JS : JsonScalars JN} {NL : JsonNumberLaws JN} {SL : JsonScalarLaws JS}.
Context {DF : DebugFmt} {SH : Sha256} {CI : Instants} {WH : WebhookHost JN} {TC : TokenCrypto}.
Context {B : Backend} {BL : BackendLaws B}.

Lemma ask_harmless {R} (q : service R) : harmless (M:=events_machine) (ask q).
Proof. intros s Hwf. apply safe_read; [apply _|by intros s1 r s2 ->|]. by intros s1 r _ _ s2 _. Qed.

(** The row of an event is in a stage. *)
Definition event_in (P : stage -> Prop) (event_id : string) (s : state) : Prop :=
  exists cols j, rows s STRIPE_EVENTS_TABLE !! event_id = Some cols /\
    view_job (T:=EventStatus) cols = Some j /\ P (j_stage j).
Abbreviation processed := (event_in (fun st => st = Finished)).

Lemma processed_stable event_id s s' : ledger_wf s -> ledger_evolve s s' -> processed event_id s -> processed event_id s'.
Proof.
  intros Hwf HG (cols & j & Hr & Hv & Hj).
  destruct (evolve_row_after (LT:=event_table) _ _ Hwf HG event_id cols j Hr Hv) as (cols' & j' & Hr' & Hv' & _ & Hf & _).
  exists cols', j'. do 2 (split; [done|]). by injection (Hf eq_refl Hj) as -> _.
Qed.

Lemma unsettled_open status existing now :
  settled_or_busy status existing now = None -> open_stage (lt_stage status).
Proof. unfold open_stage. destruct status; simpl; intros; (discriminate || auto). Qed.

Lemma event_attempt_range existing :
  (MAX_ATTEMPTS <? event_attempt existing) = false ->
  0 <= u64_field existing "attempts" < MAX_ATTEMPTS /\ event_attempt existing = u64_field existing "attempts" + 1 /\
  in_i64 (event_attempt existing) = true.
Proof.
  intros Hm%Z.ltb_ge. pose proof (u64_field_range existing "attempts") as Hr.
  assert (event_attempt existing = u64_field existing "attempts" + 1) as Heq.
  { unfold event_attempt in *. destruct (Z.min_spec (u64_field existing "attempts" + 1) u64_max) as [[_ He]|[_ He]]; [done|].
    rewrite He in Hm. unfold MAX_ATTEMPTS, u64_max in Hm. lia. }
  split; [lia|]. split; [done|]. apply in_i64_spec. unfold MAX_ATTEMPTS, i64_min, i64_max in *. lia.
Qed.

(** What a claim answers: [AlreadyProcessed] of a processed row only. *)
Definition recorded (d : Delivery) (r : WResult EventRecordState) (s : state) : Prop :=
  r = Ok AlreadyProcessed -> processed (d_event_id d) s.

Lemma reclaim_safe d now owner s id cols j :
  ledger_wf s -> id = d_event_id d -> rows s STRIPE_EVENTS_TABLE !! id = Some cols -> view_job (T:=EventStatus) cols = Some j ->
  safe ledger_evolve (recorded d) (reclaim_event d now owner (row_of id cols)) s.
Proof.
  intros Hwf -> Hr Hv. unfold reclaim_event. set (existing := row_of _ cols).
  destruct (_ && _); [by intros s' _ [=]|].
  destruct j as [st o n]. pose proof Hv as (t & Ht & Hst & _)%view_job_some.
  assert (event_status existing = Ok t) as -> by by apply enum_column_text. unfold prog_try at 1. cbn [mbind prog_mbind prog_bind].
  destruct (settled_or_busy t existing now) as [answer|] eqn:Hs.
  { intros s' HG [= ->]. eapply processed_stable; [done..|]. exists cols, (mkJob st o n). do 2 (split; [done|]).
    simpl. destruct t; simpl in Hs; try (injection Hs as Hs; discriminate Hs); try (by subst); try done.
    - by repeat case_match.
    - by repeat case_match. }
  pose proof (unsettled_open _ _ _ Hs) as Hopen. unfold lease_filters.
  destruct (MAX_ATTEMPTS <? event_attempt existing) eqn:Hmax.
  - unfold prog_try. apply (safe_lease_cas (LT:=event_table) _ (fun _ => True)); [done| | |].
    + intros [st' o' n'] Hst' _. simpl in Hst'. subst st'. eexists. split; [apply event_exhausted_job|].
      split; [by apply LExhaust|done].
    + by intros s' c' j' _ _ _ _ _ s'' _ [=].
    + intros [m|e|] s' Hm _ _ s'' _; try done. by destruct (m =? 1).
  - destruct (event_attempt_range _ Hmax) as (Hn & Heq & Hi64). unfold prog_try.
    apply (safe_lease_cas (LT:=event_table) _ (fun _ => True)); [done| | |].
    + intros [st' o' n'] Hst' _. simpl in Hst'. subst st'. eexists. split; [by apply event_claimed_job|].
      split; [rewrite Heq; by apply claim_step|done].
    + by intros s' c' j' _ _ _ _ _ s'' _ [=].
    + intros [m|e|] s' Hm _ _ s'' _; try done. by destruct (m =? 1).
Qed.

Lemma record_event_safe d s : ledger_wf s -> safe ledger_evolve (recorded d) (record_event d) s.
Proof.
  intros Hwf. unfold record_event.
  apply (safe_read _ (Ask UtcNow)); [by intros s1 r s2 ->|]. intros s1 now H1 _. destruct (H1 Hwf) as [Hwf1 _].
  apply (safe_read _ (Ask UuidV7)); [by intros s2 r s3 ->|]. intros s2 owner H2 _. destruct (H2 Hwf1) as [Hwf2 _].
  unfold prog_try at 1, do_call. cbn [mbind prog_mbind prog_bind].
  apply (safe_insert (M:=events_machine)); [done| |].
  { intros cols Hsub. eexists (_, _). split; [apply view_row_some; split; [by eapply new_event_view|done]|].
    unfold m_inv, lease_machine, row_inv, job_inv, MAX_ATTEMPTS. simpl. lia. }
  intros [n|e|] s3 _ Hwf3; try by intros s4 _ [=]. destruct (0 <? n); [by intros s4 _ [=]|].
  unfold prog_try at 1. cbn [mbind prog_mbind prog_bind].
  apply (safe_get (M:=events_machine) _ _ (d_event_id d)); [done| |by intros e s4 _ _ s5 _ [=]].
  intros s4 cols [j c] _ Hwf4 Hr [Hv _]%view_row_some _. by eapply reclaim_safe.
Qed.

Lemma mark_processed_safe event_id owner s :
  ledger_wf s ->
  safe ledger_evolve (fun r s' => r = Ok tt -> processed event_id s') (mark_event_processed event_id owner) s.
Proof.
  intros Hwf. apply (safe_now (M:=events_machine)). intros now s1 H1. destruct (H1 Hwf) as [Hwf1 _].
  unfold lease_filters, prog_try.
  apply (safe_lease_cas (LT:=event_table) _ (fun j => j_stage j = Finished)); [done| | |].
  - intros [st o n] Hst _. simpl in Hst. subst st. eexists. split; [apply processed_data_job|]. split; [|done]. apply LFinish.
  - intros s2 cols j _ Hwf2 Hr Hv Hj s3 HG _. eapply processed_stable; [done..|]. by exists cols, j.
  - intros [n|e|] s2 Hn _ _; try by intros s3 _ [=]. simpl.
    destruct (Z.eqb_spec n 1) as [->|_]; [done|]. by intros s3 _ [=].
Qed.

Lemma mark_failed_harmless event_id owner attempts error :
  harmless (M:=events_machine) (mark_event_failed event_id owner attempts error).
Proof.
  apply (harmless_bind_read (M:=events_machine)); [apply ask_harmless|].
  intros now. unfold lease_filters, prog_try. apply (harmless_lease_cas (LT:=event_table)).
  - intros [st o n] Hst _. simpl in Hst. subst st. eexists. split; [apply failed_data_job|]. apply LFail.
    destruct (MAX_ATTEMPTS <=? attempts); auto.
  - intros [n|e|]; simpl; [destruct (n =? 1)|..]; apply (harmless_done (M:=events_machine)).
Qed.

(** *** The handlers *)
Context (dispatch : WebhookEvent -> prog (outcome (ArmFailure * string) unit)).
Context (Hdispatch : forall w, avoids STRIPE_EVENTS_TABLE (dispatch w)).

(** An acknowledgement that does not speak of a dead letter stands for a
    processed event. *)
Definition acknowledged (event_id : string) (r : outcome unit OutputStream) (s : state) : Prop :=
  forall a, r = Ok (ok_ack a) -> ack_dead_letter a = false -> processed event_id s.

Lemma ok_ack_dead_letter a : ok_ack a = ok_ack dead_letter -> ack_dead_letter a = true.
Proof. destruct a as [[] [] []]; done. Qed.

Lemma not_ack event_id s o : (forall a, o <> ok_ack a) -> safe ledger_evolve (acknowledged event_id) (answer o) s.
Proof. intros Ho s' _ a [= Ha]. by destruct (Ho a). Qed.

Lemma db_error_not_ack e m a : db_error_internal e m <> ok_ack a.
Proof. unfold db_error_internal. by destruct (classify_db_error e None). Qed.

Lemma run_event_safe w owner attempts s :
  ledger_wf s ->
  safe ledger_evolve (acknowledged (d_event_id (we_delivery w))) (run_event dispatch w (Some (owner, attempts))) s.
Proof.
  intros Hwf. unfold run_event.
  eapply safe_bind; [apply _|by apply (avoids_harmless (M:=events_machine)), Hwf|].
  intros [u|[failure message]|] s1 H1 _; [| |by intros s2 _ a [=]]; destruct (H1 Hwf) as [Hwf1 _].
  - eapply safe_bind; [apply _|by apply mark_processed_safe|]. intros [v|e|] s2 H2 Hok; [| |by intros s3 _ a [=]].
    + destruct (H2 Hwf1) as [Hwf2 _]. intros s3 H3 a _ _. destruct v. eapply processed_stable; [exact Hwf2|done|by apply Hok].
    + apply not_ack. intros a. apply db_error_not_ack.
  - eapply safe_bind; [apply _|by apply mark_failed_harmless|].
    intros [v|e|] s2 H2 _; [| |by intros s3 _ a [=]]; apply not_ack; by destruct failure.
Qed.

Lemma process_event_safe w s :
  ledger_wf s -> d_event_id (we_delivery w) <> "" ->
  safe ledger_evolve (acknowledged (d_event_id (we_delivery w))) (process_event dispatch w) s.
Proof.
  intros Hwf Hid. unfold process_event. destruct (is_empty _) eqn:He; [by apply is_empty_spec in He|].
  eapply safe_bind; [apply _|by apply record_event_safe|].
  intros [r|e|] s1 H1 Hr; [|apply not_ack; intros a; apply db_error_not_ack|by intros s2 _ a [=]].
  destruct (H1 Hwf) as [Hwf1 _]. destruct r as [owner attempts| | | |].
  - by apply run_event_safe.
  - by apply not_ack.
  - by apply not_ack.
  - intros s2 H2 a _ _. eapply processed_stable; [exact Hwf1|done|by apply Hr].
  - intros s2 _ a Ha Hd. rewrite (ok_ack_dead_letter a) in Hd; [done|]. congruence.
Qed.

Lemma run_event_harmless w lease : harmless (M:=events_machine) (run_event dispatch w lease).
Proof.
  intros s Hwf. destruct lease as [[owner attempts]|].
  - eapply safe_weaken; [apply _| |by apply run_event_safe]. done.
  - revert s Hwf. apply (harmless_bind_read (M:=events_machine)); [by apply (avoids_harmless (M:=events_machine))|].
    intros [u|[failure message]|]; apply (harmless_done (M:=events_machine)).
Qed.

Lemma process_event_harmless w : harmless (M:=events_machine) (process_event dispatch w).
Proof.
  intros s Hwf. destruct (decide (d_event_id (we_delivery w) = "")) as [Hid|Hid].
  - unfold process_event. rewrite Hid. by apply run_event_harmless.
  - eapply safe_weaken; [apply _| |by apply process_event_safe]. done.
Qed.

(** The checks before the claim end the handler or leave it with the event. *)
Lemma handle_webhook_safe (Q : outcome unit OutputStream -> state -> Prop) allowed sig_header body s :
  ledger_wf s ->
  (forall o s', (forall a, o <> ok_ack a) -> Q (Ok o) s') -> (forall s', Q Panic s') ->
  (forall raw event s', body = Ok raw -> json_from_slice raw = inr event -> ledger_wf s' ->
     safe ledger_evolve Q (process_event dispatch (read_event event raw)) s') ->
  safe ledger_evolve Q (handle_webhook dispatch allowed sig_header body) s.
Proof.
  intros Hwf Ho Hpanic Hrun. assert (forall o s', (forall a, o <> ok_ack a) -> safe ledger_evolve Q (answer o) s') as Hans
    by (intros o s' Hna s'' _; by apply Ho).
  apply (safe_read _ (Ask _)); [by intros s1 r s2 ->|]. intros s1 settings H1 _. destruct (H1 Hwf) as [Hwf1 _].
  destruct settings as [secret|e|]; [|apply Hans; intros a; apply db_error_not_ack|by intros s2 _].
  destruct (negb allowed); [by apply Hans|]. destruct (is_empty secret); [by apply Hans|].
  destruct (is_empty sig_header); [by apply Hans|]. destruct body as [raw|e|]; [|by apply Hans|by intros s2 _].
  apply (safe_read _ (Ask UtcNow)); [by intros s2 r s3 ->|]. intros s2 now H2 _. destruct (H2 Hwf1) as [Hwf2 _].
  destruct (negb _); [by apply Hans|]. destruct (json_from_slice raw) as [e|event] eqn:Hj; [by apply Hans|].
  by eapply Hrun.
Qed.

Lemma handle_webhook_harmless allowed sig_header body :
  harmless (M:=events_machine) (handle_webhook dispatch allowed sig_header body).
Proof. intros s Hwf. apply handle_webhook_safe; try done. intros. by apply process_event_harmless. Qed.

Lemma replay_harmless allowed event_id :
  harmless (M:=events_machine) (replay_webhook_event dispatch allowed event_id).
Proof.
  unfold replay_webhook_event. destruct (negb allowed); [apply (harmless_done (M:=events_machine))|].
  apply (harmless_try (M:=events_machine)); [apply ask_harmless|]. intros secret.
  destruct (is_empty secret); [apply (harmless_done (M:=events_machine))|].
  apply (harmless_try (M:=events_machine)); [apply (get_harmless (M:=events_machine))|]. intros event.
  apply (harmless_try_done (M:=events_machine)). intros payload Hp.
  apply (harmless_try_done (M:=events_machine)). intros st Hst.
  unfold replay_payload in Hp. rewrite Hst in Hp. cbn [mbind outcome_bind] in Hp.
  unfold prog_try at 1. rewrite <- (app_nil_r (row_in event_id st)). apply (harmless_lease_cas (LT:=event_table)).
  - intros [st' o n] Hst' _. simpl in Hst'. subst st'. eexists. split; [apply replay_data_job|].
    apply LReset; [done|]. destruct st; simpl in *; auto; discriminate Hp.
  - intros [n|e|]; [|apply (harmless_done (M:=events_machine))..].
    destruct (negb (n =? 1)); [apply (harmless_done (M:=events_machine))|].
    apply (harmless_bind_read (M:=events_machine)); [apply ask_harmless|]. intros now.
    apply (harmless_bind_read (M:=events_machine)); [apply handle_webhook_harmless|].
    intros r. apply (harmless_done (M:=events_machine)).
Qed.

(** *** What a claim sends *)

(** A delivery that is granted the event made its row, with one attempt, or took
    the lease of the row it had read. *)
Definition claimed_row (d : Delivery) (t : list happened) (owner : string) (n : Z) : Prop :=
  (n = 1 /\ exists now rows, 0 < rows /\
     Happened (InsertIfAbsent STRIPE_EVENTS_TABLE ["id"] (new_event d now owner)) (Ok rows) ∈ t) \/
  (exists existing, Happened (Get STRIPE_EVENTS_TABLE (d_event_id d)) (Ok existing) ∈ t /\
     took_lease (T:=EventStatus) t (d_event_id d) existing owner n).

Lemma ran_reclaim d now w existing t owner n :
  ran (reclaim_event d now w existing) t (Ok (Claimed owner n)) ->
  took_lease (T:=EventStatus) t (d_event_id d) existing owner n.
Proof.
  unfold reclaim_event. destruct (_ && _); [by intros [_ [=]]%ran_done|].
  intros (status & t1 & t2 & -> & [-> Hst]%ran_done & H)%ran_try_ok. simpl.
  destruct (settled_or_busy status existing now) as [a|] eqn:Hs.
  { apply ran_done in H as [_ [= <-]]. exfalso. destruct status; simpl in Hs; repeat case_match; by simplify_eq. }
  pose proof (unsettled_open _ _ _ Hs) as Hopen. destruct (MAX_ATTEMPTS <? event_attempt existing) eqn:Hmax.
  { apply ran_try_ok in H as (m & t3 & t4 & -> & _ & [_ [= H]]%ran_done). by destruct (m =? 1). }
  destruct (event_attempt_range _ Hmax) as (Hn & Heq & _).
  apply ran_try_ok in H as (m & t3 & t4 & -> & ->%ran_call & [-> [= H]]%ran_done).
  destruct (m =? 1) eqn:Hm; [|done]. apply Z.eqb_eq in Hm. subst m. injection H as -> ->.
  split; [done|]. split; [lia|]. exists status, EvProcessing. eexists. split; [done|]. split; [done|].
  split; [by left|]. split; [done|]. unfold event_claimed. split; [|split]; by data_lookup.
Qed.

Lemma ran_record_event d t owner n : ran (record_event d) t (Ok (Claimed owner n)) -> claimed_row d t owner n.
Proof.
  intros (now & t1 & t2 & -> & _ & H)%ran_bind. apply ran_bind in H as (w & t3 & t4 & -> & _ & H).
  apply ran_try_ok in H as (m & t5 & t6 & -> & ->%ran_call & H). destruct (Z.ltb_spec 0 m) as [Hm|_].
  - apply ran_done in H as [-> [= -> ->]]. left. split; [done|]. exists (to_rfc3339 now), m. split; [done|].
    rewrite !elem_of_app. right. right. left. by left.
  - apply ran_try_ok in H as (existing & t7 & t8 & -> & ->%ran_call & H). right. exists existing. split.
    { rewrite !elem_of_app. do 3 right. left. by left. }
    apply ran_reclaim in H. rewrite !(app_assoc _ _ t8), <- (app_nil_r t8). by apply took_lease_app.
Qed.

(** *** Properties *)

(** A delivery or a replay, whatever is made of its answer. *)
Inductive event_handler {A} : prog A -> Prop :=
| EWebhook allowed sig_header body f : event_handler (spawn f (handle_webhook dispatch allowed sig_header body))
| EReplay allowed event_id f : event_handler (spawn f (replay_webhook_event dispatch allowed event_id)).

Lemma event_handler_harmless {A} (p : prog A) : event_handler p -> harmless (M:=events_machine) p.
Proof.
  destruct 1; apply (harmless_spawn (M:=events_machine)); [apply handle_webhook_harmless|apply replay_harmless].
Qed.

(** C28. In any interleaving of deliveries and operator replays, with database
    failures anywhere and clocks that disagree, the attempts on record of a
    Stripe event stay between zero and [MAX_ATTEMPTS], and the row of a processed
    event is never changed again, in no column.  Every claim of an event was
    counted: the delivery either made the row, with one attempt, or read it in an
    open status with fewer than [MAX_ATTEMPTS] attempts and took it with a write
    that is conditional on that status and owner and sets one attempt more than it
    had read (which, as in the queue of operations, may be out of date). *)
Theorem processed_event_final {A} (ps : list (prog A)) s ps' s' id cols j
  (Hps : Forall event_handler ps) (Hwf : ledger_wf s) (Hsteps : rtc pool_step (ps, s) (ps', s'))
  (Hrow : rows s STRIPE_EVENTS_TABLE !! id = Some cols) (Hview : view_job (T:=EventStatus) cols = Some j) :
  exists cols' j', rows s' STRIPE_EVENTS_TABLE !! id = Some cols' /\ view_job (T:=EventStatus) cols' = Some j' /\
    0 <= j_attempts j' <= MAX_ATTEMPTS /\ (j_stage j = Finished -> cols' = cols) /\
    (forall d t owner n, ran (record_event d) t (Ok (Claimed owner n)) -> claimed_row d t owner n).
Proof.
  assert (Forall (harmless (M:=events_machine)) ps) as Hh
    by (eapply Forall_impl; [exact Hps|]; apply event_handler_harmless).
  pose proof (pool_evolves (M:=events_machine) _ _ _ Hh Hwf Hsteps) as HG.
  destruct (evolve_row_after (LT:=event_table) _ _ Hwf HG id cols j Hrow Hview) as (cols' & j' & Hr' & Hv' & Hi' & Hf & _).
  exists cols', j'. do 3 (split; [done|]). split; [|apply ran_record_event].
  intros Hj. by injection (Hf eq_refl Hj) as _ ->.
Qed.

(** C26. No event is acknowledged before it is durably processed: when
    [handle_webhook] has answered a delivery that names an event with a
    success that does not report a dead letter, the row of that event is
    processed, now and whatever the other deliveries and replays do later. *)
Theorem ack_means_processed (ps : list (prog (outcome unit OutputStream))) s ps' s' i allowed sig_header raw event a
  (Hi : ps !! i = Some (handle_webhook dispatch allowed sig_header (Ok raw)))
  (Hps : forall k p, k <> i -> ps !! k = Some p -> event_handler p) (Hwf : ledger_wf s)
  (Hevent : json_from_slice raw = inr event) (Hid : d_event_id (we_delivery (read_event event raw)) <> "")
  (Hsteps : rtc pool_step (ps, s) (ps', s'))
  (Hack : ps' !! i = Some (Done (Ok (ok_ack a)))) (Hdead : ack_dead_letter a = false) :
  processed (d_event_id (we_delivery (read_event event raw))) s'.
Proof.
  refine (pool_one (M:=events_machine) (acknowledged _) ps ps' s s' i _ _ Hi _ _ Hwf Hsteps Hack a eq_refl Hdead).
  - intros k p Hk Hp. apply event_handler_harmless. by apply (Hps k).
  - apply handle_webhook_safe; [done| |by intros s1 b|].
    + intros o s1 Hno b [= Hb]. by destruct (Hno b).
    + intros raw' event' s1 [= <-] Hev Hwf1. rewrite Hevent in Hev. injection Hev as <-. by apply process_event_safe.
Qed.
End EventHandlers.

Section Claims.
Context {JN : JsonNumbers} {JS : JsonScalars JN} {NL : JsonNumberLaws JN} {SL : JsonScalarLaws JS}.
Context {DF : DebugFmt} {SH : Sha256} {CI : Instants} {WH : WebhookHost JN} {B : Backend} {BL : BackendLaws B}.

(** The insert of a delivery conflicts with the row of its event. *)
Lemma new_event_conflicts d now owner (r : table_rows) cols :
  r !! d_event_id d = Some cols -> conflicts ["id"] (new_event d now owner) r = true.
Proof.
  intros Hr. apply Z.ltb_lt. unfold count_rows.
  assert (filter (fun p => matches (key_filters ["id"] (new_event d now owner)) p.1 p.2 = true) r
            !! d_event_id d = Some cols) as Hin.
  { apply map_lookup_filter_Some. split; [done|].
    assert (new_event d now owner !! "id" = Some (VString (d_event_id d))) as Hk by (unfold new_event; by data_lookup).
    unfold key_filters. cbn [omap list_omap]. rewrite Hk. cbn [mbind option_bind]. rewrite matches_cons. cbn [fst snd]. rewrite holds_id, String.eqb_refl. done. }
  destruct (size (filter _ r)) eqn:Hsz; [|lia]. apply map_size_empty_inv in Hsz. rewrite Hsz in Hin. done.
Qed.

Definition not_claimed (r : WResult EventRecordState) : Prop := forall owner n, r <> Ok (Claimed owner n).

(** The side effects of a processed event never run again: a delivery of an
    event whose row is processed is never granted a claim, whatever other
    deliveries and replays do meanwhile. *)
Theorem processed_never_claimed d s
  (Hwf : ledger_wf s) (Hdone : event_in (fun st => st = Finished) (d_event_id d) s) :
  safe ledger_evolve (fun r _ => not_claimed r) (record_event d) s.
Proof.
  assert (forall e s1, safe ledger_evolve (fun r _ => not_claimed r) (Done (Err e)) s1) as Herr
    by (by intros e s1 s2 _ o n [=]).
  apply (safe_read _ (Ask UtcNow)); [by intros s1 r s2 ->|]. intros s1 now H1 _. destruct (H1 Hwf) as [Hwf1 _].
  apply (safe_read _ (Ask UuidV7)); [by intros s2 r s3 ->|]. intros s2 owner H2 _. destruct (H2 Hwf1) as [Hwf2 _].
  pose proof (processed_stable _ _ _ Hwf1 H2 (processed_stable _ _ _ Hwf H1 Hdone)) as Hdone2.
  intros s3 H3 r s4 Hc. destruct (H3 Hwf2) as [Hwf3 _]. pose proof (processed_stable _ _ _ Hwf2 H3 Hdone2) as Hdone3.
  assert (conflicts ["id"] (new_event d (to_rfc3339 now) owner) (rows s3 STRIPE_EVENTS_TABLE) = true) as Hconf
    by (destruct Hdone3 as (cols & j & Hr & _); by eapply new_event_conflicts).
  destruct Hc as [[-> Hr]|[Hno _]]; [|discriminate (eq_trans (eq_sym Hconf) Hno)]. split; [done|].
  destruct Hr as [[e ->]|[_ ->]]; [apply Herr|]. cbn [Z.ltb Z.compare].
  apply (safe_get (M:=lease_machine (LT:=event_table)) _ _ (d_event_id d)); [done| |by intros].
  intros s5 cols [j c] H5 Hwf5 Hr [Hv _]%view_row_some _. simpl in Hv.
  destruct (processed_stable _ _ _ Hwf3 H5 Hdone3) as (cols' & j' & Hr' & Hv' & Hj').
  pose proof (eq_trans (eq_sym Hr') Hr) as [= ->]. pose proof (eq_trans (eq_sym Hv') Hv) as [= ->].
  unfold reclaim_event. destruct (_ && _); [apply Herr|]. destruct j as [st o n].
  apply view_job_some in Hv as (t & Ht & Hst & _). simpl in Hj'. subst st.
  assert (event_status (row_of (d_event_id d) cols) = Ok t) as -> by by apply enum_column_text.
  destruct t; try discriminate Hj'. by intros s6 _ o' n' [=].
Qed.

(** The lease is exclusive for exactly 300 seconds: a redelivery of the same
    payload that reads the row another delivery has claimed at [claimed_at] is
    refused as in flight while fewer than 300 whole seconds have passed, and
    from then on it tries to take the lease over (or, out of attempts, to
    dead-letter the row). *)
Theorem lease_excludes {IL : InstantLaws CI} d d' attempts owner owner' claimed_at now cols
  (Hcal : in_calendar claimed_at) (Hpay : d_payload d' = d_payload d) :
  let existing := row_of (d_event_id d) (overlay (event_claimed d attempts (to_rfc3339 claimed_at) owner) cols) in
  (reclaim_event d' now owner' existing = Done (Ok InFlight) <-> now - claimed_at < 300 * 10 ^ 9).
Proof.
  intros existing. unfold reclaim_event.
  assert (str_field existing "payload_sha256" = sha256_hex_bytes (d_payload d)) as ->.
  { apply str_field_text. rewrite text_col_overlay. unfold event_claimed. by data_lookup. }
  rewrite Hpay, String.eqb_refl, andb_false_r.
  assert (event_status existing = Ok EvProcessing) as ->.
  { apply enum_column_text. rewrite enum_col_overlay. unfold event_claimed. by data_lookup. }
  unfold prog_try at 1. cbn [mbind prog_mbind prog_bind settled_or_busy]. unfold event_timestamp.
  assert (str_field existing "processing_started_at" = to_rfc3339 claimed_at) as ->.
  { apply str_field_text. rewrite text_col_overlay. unfold event_claimed. by data_lookup. }
  rewrite rfc3339_roundtrip by done. unfold num_seconds, EVENT_LEASE_SECONDS.
  destruct (Z.ltb_spec (Z.quot (now - claimed_at) (10 ^ 9)) 300) as [Hlt|Hge].
  - split; [intros _|done]. apply Z.nle_gt. intros Hle.
    pose proof (Z.quot_le_lower_bound (now - claimed_at) (10 ^ 9) 300). lia.
  - split; [by destruct (MAX_ATTEMPTS <? _)|]. intros Hlt. exfalso.
    destruct (Z.le_gt_cases 0 (now - claimed_at)).
    + pose proof (Z.quot_lt_upper_bound (now - claimed_at) (10 ^ 9) 300). lia.
    + pose proof (Z.quot_opp_l (now - claimed_at) (10 ^ 9)).
      pose proof (Z.quot_pos (- (now - claimed_at)) (10 ^ 9)). lia.
Qed.
End Claims.

(** The code in hexadecimal: letters and digits, never empty. *)
Class TokenHexLaws (T : TokenCrypto) := {
  hmac_hex_alphanumeric : forall key m, str_forall is_ascii_alphanumeric (hmac_sha256_hex key m) = true;
  hmac_hex_nonempty : forall key m, hmac_sha256_hex key m <> "";
}.

Section Signatures.
Context {TC : TokenCrypto} {TL : TokenCryptoLaws TC} {HL : TokenHexLaws TC}.

Lemma alphanumeric_graphic c : is_ascii_alphanumeric c = true -> is_ascii_graphic c = true.
Proof.
  unfold is_ascii_alphanumeric. rewrite orb_true_iff.
  intros [H|H]; [by apply alphabetic_graphic|by apply digit_graphic].
Qed.

Lemma alphanumeric_no_comma s : str_forall is_ascii_alphanumeric s = true -> no_char "," s.
Proof. apply str_forall_impl. intros c Hc. by destruct (Ascii.eqb_spec c ",") as [->|]. Qed.

Lemma parse_u64_dec n : 0 <= n <= u64_max -> parse_u64 (dec n) = Some n.
Proof.
  intros Hn. assert (in_u64 n = true) as Hf by (by apply in_u64_spec).
  pose proof (parse_digits_dec in_u64 n ltac:(lia) Hf) as Hp. pose proof (dec_digits n ltac:(lia)) as Hd.
  unfold parse_u64. destruct (dec n) as [|c r]; [done|]. simpl in Hd. apply andb_true_iff in Hd as [Hc _].
  repeat case_match; done.
Qed.

(** What a signature header has to prove: a delivery is accepted exactly
    when the last [t=] part is a timestamp within five minutes of the clock and
    some [v1=] part is the code of that timestamp, a dot and the payload under
    the webhook secret; no other part of the header counts. *)
Theorem verify_stripe_signature_spec now payload sig_header secret :
  verify_stripe_signature now payload sig_header secret = true <->
  exists timestamp ts, last (sig_values "t=" sig_header) = Some timestamp /\ parse_u64 timestamp = Some ts /\
    Z.abs (now mod 2 ^ 64 - ts) <= 300 /\
    hmac_sha256_hex secret (concat_chars [timestamp; "."; payload]) ∈ sig_values "v1=" sig_header.
Proof.
  unfold verify_stripe_signature. split.
  - destruct (last (sig_values "t=" sig_header)) as [timestamp|]; [|done]. cbn [default from_option id].
    destruct (_ || _); [done|]. destruct (parse_u64 timestamp) as [ts|] eqn:Hts; [|done].
    destruct (Z.ltb_spec 300 (Z.abs (now mod 2 ^ 64 - ts))); [done|].
    intros (c & Hc & He)%existsb_exists. rewrite constant_time_eq_spec in He. apply String.eqb_eq in He as <-.
    exists timestamp, ts. do 3 (split; [done|]). by apply list_elem_of_In.
  - intros (timestamp & ts & -> & Hts & Habs & Hin). cbn [default from_option id].
    destruct (is_empty timestamp) eqn:He; [by apply is_empty_spec in He as ->|].
    destruct (forallb is_empty (sig_values "v1=" sig_header)) eqn:Hall.
    { rewrite forallb_forall in Hall. apply list_elem_of_In in Hin. apply Hall, is_empty_spec in Hin.
      by apply hmac_hex_nonempty in Hin. }
    cbn [orb]. rewrite Hts. destruct (Z.ltb_spec 300 (Z.abs (now mod 2 ^ 64 - ts))); [lia|].
    apply existsb_exists. eexists. split; [by apply list_elem_of_In|]. rewrite constant_time_eq_spec. apply String.eqb_refl.
Qed.

Lemma replay_parts timestamp payload secret :
  0 <= timestamp ->
  split_on "," (replay_signature timestamp payload secret) =
  [String.append "t=" (dec timestamp);
   String.append "v1=" (hmac_sha256_hex secret (concat_chars [dec timestamp; "."; payload]))].
Proof.
  intros Ht. unfold replay_signature.
  set (h := hmac_sha256_hex _ _). assert (no_char "," (String.append "v1=" h)) as Hh.
  { unfold no_char. simpl. apply alphanumeric_no_comma. apply hmac_hex_alphanumeric. }
  assert (no_char "," (String.append "t=" (dec timestamp))) as Hd.
  { unfold no_char. simpl. apply alphanumeric_no_comma. eapply str_forall_impl; [|by apply dec_digits].
    intros c Hc. unfold is_ascii_alphanumeric. by rewrite Hc, orb_true_r. }
  rewrite <- (split_on_no_sep _ _ Hh), <- split_on_app by done.
  f_equal. simpl. rewrite !str_app_nil_r. by autorewrite with str.
Qed.

(** The signature the operator's replay makes for the stored payload is
    accepted by the webhook it hands it to, as long as no more than five minutes
    pass between the two. *)
Theorem replay_signature_accepted timestamp now payload secret
  (Ht : 0 <= timestamp <= u64_max) (Hnow : 0 <= now <= u64_max) (Hnear : Z.abs (now - timestamp) <= 300) :
  verify_stripe_signature now payload (replay_signature timestamp payload secret) secret = true.
Proof.
  apply verify_stripe_signature_spec. exists (dec timestamp), timestamp. unfold sig_values.
  rewrite replay_parts by lia. cbn [omap list_omap].
  rewrite !trim_graphic.
  - simpl. rewrite !str_app_nil_l. split; [done|]. split; [by apply parse_u64_dec|].
    rewrite Z.mod_small by (unfold u64_max in *; lia). split; [done|]. by left.
  - simpl. eapply str_forall_impl; [apply alphanumeric_graphic|]. apply hmac_hex_alphanumeric.
  - simpl. apply digits_graphic, dec_digits. lia.
Qed.
End Signatures.

(** ** Witnesses: two deliveries of one event race *)
#[local] Instance sample_token : TokenCrypto := {|
  derive_block_key key label := String.append key label;
  hmac_sha256_hex key m := String.append "h" (dec (str_len key * 1000 + str_len m));
  constant_time_eq := String.eqb;
|}.
#[local] Instance sample_token_laws : TokenCryptoLaws sample_token.
Proof. split. done. Qed.
#[local] Instance sample_token_hex : TokenHexLaws sample_token.
Proof.
  split; simpl; intros key m; [|done].
  pose proof (str_len_nonneg key). pose proof (str_len_nonneg m).
  eapply str_forall_impl; [|apply dec_digits; lia]. intros c Hc. unfold is_ascii_alphanumeric. by rewrite Hc, orb_true_r.
Qed.
#[local] Instance sample_host : WebhookHost sample_numbers := {|
  base64_encode s := s;
  base64_decode s := Some s;
  json_from_slice s :=
    if String.eqb s "{evt_1}" then inr (VObject [("id", VString "evt_1"); ("type", VString "charge.refunded")])
    else inl "expected value";
  internal_no_cause m := wafer_error Internal m;
|}.
#[local] Instance webhook_services : Services := fun R q =>
  match q in service R return R with
  | UuidV7 => "w1"
  | UtcNow => 1000 * 10 ^ 9
  | AskBlock _ _ => AnswerOther "none"
  | LlmChat _ _ _ _ => Ok []
  | ConfigGetDefault _ _ => Ok "whsec"
  | ConfigGetOptional _ => Ok None
  | CryptoVerify _ => Err (wafer_error Unavailable "offline")
  | CryptoSign _ _ => Err (wafer_error Unavailable "offline")
  | RandomBytes _ => Err (wafer_error Unavailable "offline")
  | NowIso => ""
  | IsoAfter _ => None
  | Rfc3339Before _ => "2025-12-31T23:00:00Z"
  end.

(** An arm that marks the orders refunded. *)
Definition sample_arm (w : WebhookEvent) : prog (outcome (ArmFailure * string) unit) :=
  r ← do_call (UpdateByFiltersCount "orders" [] (columns_of [("status", VString "refunded")]));
  Done (match r with Ok _ => Ok tt | Err e => Err (ArmError e, "refund failed") | Panic => Panic end).
Lemma sample_arm_avoids w : avoids STRIPE_EVENTS_TABLE (sample_arm w).
Proof. split; [|done]. simpl. rewrite list_elem_of_singleton. done. Qed.

Definition sample_delivery : prog (outcome unit OutputStream) :=
  handle_webhook sample_arm true (replay_signature 900 "{evt_1}" "whsec") (Ok "{evt_1}").
Definition delivery_pool : list (prog (outcome unit OutputStream)) :=
  [sample_delivery; spawn (fun r => r) sample_delivery].
Definition delivery_run := run_schedule [0; 1; 0; 1; 0; 0; 1; 0; 1; 1; 0; 1; 0; 0; 1]%nat (delivery_pool, ∅).
Definition event_job (s : state) : option Job :=
  rows s STRIPE_EVENTS_TABLE !! "evt_1" ≫= view_job (T:=EventStatus).

Lemma empty_ledger : table_wf (M:=lease_machine (LT:=event_table)) ∅.
Proof. intros id cols. simpl. unfold rows. rewrite lookup_empty. simpl. by rewrite lookup_empty. Qed.

Definition is_received (p : option (prog (outcome unit OutputStream))) : bool :=
  match p with
  | Some (Done (Ok (Respond {| status := st; cookies := []; headers := []; body := Json (VObject [(k, VBool true)]) |})))
      => (st =? 200) && String.eqb k "received"
  | _ => false
  end.
Lemma is_received_spec p : is_received p = true -> p = Some (Done (Ok (ok_ack received))).
Proof.
  unfold is_received. repeat case_match; try done. rewrite andb_true_iff. intros [->%Z.eqb_eq ->%String.eqb_eq].
  by subst.
Qed.

Lemma ack_means_processed_witness :
  event_job delivery_run.2 = Some (mkJob Finished "" 1) /\ event_in (fun st => st = Finished) "evt_1" delivery_run.2.
Proof.
  split; [vm_compute; reflexivity|].
  apply (ack_means_processed sample_arm sample_arm_avoids delivery_pool ∅ delivery_run.1 delivery_run.2 0%nat
           true (replay_signature 900 "{evt_1}" "whsec") "{evt_1}"
           (VObject [("id", VString "evt_1"); ("type", VString "charge.refunded")]) received).
  - reflexivity.
  - intros [|[|k]] p Hk Hp; [done| |done]. injection Hp as <-. constructor.
  - apply empty_ledger.
  - reflexivity.
  - discriminate.
  - rewrite <- surjective_pairing. apply run_schedule_steps.
  - apply is_received_spec. vm_compute. reflexivity.
  - reflexivity.
Defined.

Definition sample_event (status : EventStatus) (attempts : Z) (owner : string) : columns := columns_of
  [("status", VString (wire status)); ("attempts", json_i64 attempts); ("processing_owner", VString owner);
   ("payload_sha256", VString "{evt_1}"); ("payload_base64", VString "{evt_1}")].
Definition sample_ledger (cols : columns) : state := set_rows ∅ STRIPE_EVENTS_TABLE {["evt_1" := cols]}.
Lemma sample_ledger_row cols : rows (sample_ledger cols) STRIPE_EVENTS_TABLE !! "evt_1" = Some cols.
Proof. unfold sample_ledger. by rewrite rows_set_rows, lookup_singleton_eq. Qed.
Lemma sample_ledger_wf cols j :
  view_job (T:=EventStatus) cols = Some j -> job_inv j ->
  table_wf (M:=lease_machine (LT:=event_table)) (sample_ledger cols).
Proof.
  intros Hv Hi. apply lease_wf. intros id c. simpl. unfold sample_ledger.
  rewrite rows_set_rows, lookup_singleton_Some. intros [_ <-]. by exists j.
Qed.

(** A replay and a redelivery of an event that is processed. *)
Definition replay_pool : list (prog unit) :=
  [spawn (fun _ => tt) (replay_webhook_event sample_arm true "evt_1"); spawn (fun _ => tt) sample_delivery].
Definition replay_run := run_schedule [0; 0; 0; 1; 1; 1; 1; 0; 1; 0; 1; 1; 1; 1; 0; 0; 0; 0; 0; 0; 0; 0; 1; 1; 1; 1]%nat
  (replay_pool, sample_ledger (sample_event EvProcessed 2 "")).

Definition evt_1 : Delivery := {| d_event_id := "evt_1"; d_event_type := "charge.refunded"; d_payload := "{evt_1}";
  d_account := ""; d_livemode := false |}.
(** What a redelivery sends of an event that failed three times. *)
Definition redelivery := run_traced (record_event evt_1) (sample_ledger (sample_event EvFailed 3 "")).

Lemma processed_event_final_witness :
  redelivery.2 = Ok (Claimed "w1" 4) /\
  claimed_row evt_1 redelivery.1 "w1" 4 /\
  exists cols' j', rows replay_run.2 STRIPE_EVENTS_TABLE !! "evt_1" = Some cols' /\
    view_job (T:=EventStatus) cols' = Some j' /\ 0 <= j_attempts j' <= MAX_ATTEMPTS /\
    cols' = sample_event EvProcessed 2 "".
Proof.
  destruct (processed_event_final sample_arm sample_arm_avoids replay_pool (sample_ledger (sample_event EvProcessed 2 ""))
           replay_run.1 replay_run.2 "evt_1" (sample_event EvProcessed 2 "") (mkJob Finished "" 2))
    as (cols' & j' & Hr & Hv & Hb & Hf & Hc).
  - repeat constructor.
  - apply (sample_ledger_wf _ (mkJob Finished "" 2)); [vm_compute; reflexivity|]. unfold job_inv, MAX_ATTEMPTS. simpl. lia.
  - rewrite <- surjective_pairing. apply run_schedule_steps.
  - apply sample_ledger_row.
  - vm_compute. reflexivity.
  - assert (redelivery.2 = Ok (Claimed "w1" 4)) as Ho by (vm_compute; reflexivity).
    split; [exact Ho|]. split; [exact (Hc evt_1 _ "w1" 4 (run_traced_result _ _ _ Ho))|].
    exists cols', j'. exact (conj Hr (conj Hv (conj Hb (Hf eq_refl)))).
Defined.

Definition is_already_processed (r : WResult EventRecordState) : bool :=
  match r with Ok AlreadyProcessed => true | _ => false end.

Lemma processed_never_claimed_witness :
  is_already_processed (run_alone (record_event evt_1) (sample_ledger (sample_event EvProcessed 2 ""))) = true /\
  safe ledger_evolve (fun r _ => not_claimed r) (record_event evt_1) (sample_ledger (sample_event EvProcessed 2 "")).
Proof.
  split; [vm_compute; reflexivity|]. apply processed_never_claimed.
  - apply (sample_ledger_wf _ (mkJob Finished "" 2)); [vm_compute; reflexivity|]. unfold job_inv, MAX_ATTEMPTS. simpl. lia.
  - exists (sample_event EvProcessed 2 ""), (mkJob Finished "" 2). split; [apply sample_ledger_row|].
    split; [vm_compute; reflexivity|done].
Defined.

Lemma lease_excludes_witness :
  reclaim_event evt_1 (299 * 10 ^ 9) "w2"
    (row_of "evt_1" (overlay (event_claimed evt_1 1 (to_rfc3339 0) "w1") ∅)) = Done (Ok InFlight).
Proof.
  apply (lease_excludes evt_1 evt_1 1 "w1" "w2" 0 (299 * 10 ^ 9) ∅); [|done|done]. unfold in_calendar. lia.
Defined.

Lemma verify_stripe_signature_spec_witness :
  verify_stripe_signature 1000 "{evt_1}" " v1=old, t=900,v1=h5011" "whsec" = true /\
  exists timestamp ts, last (sig_values "t=" " v1=old, t=900,v1=h5011") = Some timestamp /\
    parse_u64 timestamp = Some ts /\ Z.abs (1000 mod 2 ^ 64 - ts) <= 300 /\
    hmac_sha256_hex "whsec" (concat_chars [timestamp; "."; "{evt_1}"]) ∈ sig_values "v1=" " v1=old, t=900,v1=h5011".
Proof.
  split; [vm_compute; reflexivity|].
  apply (verify_stripe_signature_spec 1000 "{evt_1}" " v1=old, t=900,v1=h5011" "whsec"). vm_compute. reflexivity.
Defined.

Lemma replay_signature_accepted_witness :
  replay_signature 900 "{evt_1}" "whsec" = "t=900,v1=h5011" /\
  verify_stripe_signature 1000 "{evt_1}" (replay_signature 900 "{evt_1}" "whsec") "whsec" = true.
Proof.
  split; [vm_compute; reflexivity|].
  apply (replay_signature_accepted 900 1000 "{evt_1}" "whsec"); [unfold u64_max; lia..|lia].
Defined.
