(* ===== verification/Authenticate.v ===== *)
(** * Request credentials ([crypto.rs], [blocks/auth/mod.rs], [repo/api_keys.rs], [auth_ui/api/api_keys.rs])

    How a request is given an identity: the checks on an access token and on an
    API key, and what they write on the message; the cache of account versions;
    the end of every credential after a password change; the handlers of API
    keys. *)
From Stdlib Require Import String.
From S2P Require Import Prelude Ints Str Contracts SampleLib Wafer Features Routing.
From S2P Require Import Records Effects Columns DbRead Failures Lease AuthRepo AuthTail Csrf Crud Refresh.

(** [wafer_block_crypto::primitives::jwt_verify] with an expiry required: the
    claims of a token under a key. *)
Class JwtVerify `{JsonNumbers} := jwt_verify : string -> string -> option columns.

(** [repo::iso]: an instant in the format of the auth tables, which is never
    empty. *)
Class IsoFormat := iso : Z -> string.
Class IsoLaws `{IsoFormat} := iso_not_empty : forall t, is_empty (iso t) = false.

(** [repo::now_iso] *)
Definition now_iso {JN : JsonNumbers} {IF : IsoFormat} : prog string := now ← ask UtcNow; Done (iso now).

Definition META_AUTH_USER_ID : string := "auth.user_id".
Definition META_AUTH_USER_EMAIL : string := "auth.user_email".
Definition META_AUTH_USER_ROLES : string := "auth.user_roles".
Definition META_AUTH_VERSION : string := "auth.version".
Definition META_AUTH_API_KEY_ID : string := "auth.api_key_id".
Definition AUTH_UI_BLOCK_ID : string := "impresspress/auth-ui".

(** ** API keys ([repo/api_keys.rs]) *)
Module ApiKeys.
Section ApiKeys.
Context {JN : JsonNumbers} {IN : Instants} {IF : IsoFormat}.

Definition TABLE : string := "wafer_run__auth__api_keys".

Record ApiKeyRow := {
  ak_id : string; ak_user_id : string; ak_name : string; ak_key_prefix : string; ak_key_hash : string;
  ak_created_at : string; ak_expires_at : option string; ak_revoked_at : option string;
}.

Definition non_empty (o : option string) : option string :=
  s ← o; if is_empty s then None else Some s.
Definition is_revoked (k : ApiKeyRow) : bool := bool_decide (is_Some (non_empty (ak_revoked_at k))).
Definition is_expired (k : ApiKeyRow) (now : Z) : bool :=
  match non_empty (ak_expires_at k) with
  | Some exp => match parse_rfc3339 exp with Some t => t <=? now | None => true end
  | None => false
  end.

Record NewApiKey := {
  nk_user_id : string; nk_name : string; nk_key_hash : string; nk_key_prefix : string;
  nk_expires_at : option Z;
}.

Definition row_from_map (m : columns) : WResult ApiKeyRow :=
  id ← ok_or (map_opt_str m "id") (internal_error "missing id");
  Ok {| ak_id := id; ak_user_id := map_str m "user_id"; ak_name := map_str m "name";
        ak_key_prefix := map_str m "key_prefix"; ak_key_hash := map_str m "key_hash";
        ak_created_at := map_str m "created_at"; ak_expires_at := map_opt_str m "expires_at";
        ak_revoked_at := map_opt_str m "revoked_at" |}.

Definition new_key (new : NewApiKey) (now : string) : columns :=
  columns_of ([("user_id", VString (nk_user_id new)); ("name", VString (nk_name new));
               ("key_hash", VString (nk_key_hash new)); ("key_prefix", VString (nk_key_prefix new));
               ("created_at", VString now)]
              ++ when_some (nk_expires_at new) "expires_at" (fun exp => VString (iso exp))).

Definition insert (new : NewApiKey) : prog (WResult ApiKeyRow) :=
  now ← now_iso;
  rec ←? labelled "api_keys insert" (do_call (Create TABLE (new_key new now)));
  Done (row_from_map (row_data rec)).

(** What a lookup made of its answer. *)
Definition found (what : string) (r : WResult Row) : WResult (option ApiKeyRow) :=
  match r with
  | Ok rec => row ← row_from_map (row_data rec); Ok (Some row)
  | Err e => if bool_decide (we_code e = NotFound) then Ok None else Err (db_failed what e)
  | Panic => Panic
  end.
Definition find_by_key_hash (key_hash : string) : prog (WResult (option ApiKeyRow)) :=
  r ← do_call (GetByField TABLE "key_hash" (VString key_hash));
  Done (found "api_keys find_by_key_hash" r).
Definition find_by_id (id : string) : prog (WResult (option ApiKeyRow)) :=
  r ← do_call (Get TABLE id); Done (found "api_keys find_by_id" r).

Definition revoked_now (now : string) : columns := columns_of [("revoked_at", VString now)].
Definition revoke (id : string) : prog (WResult unit) :=
  now ← now_iso;
  ignore_result (labelled "api_keys revoke" (do_call (Update TABLE id (revoked_now now)))).

Definition unrevoked_filters (user_id : string) : list Filter :=
  [text_filter "user_id" user_id; {| field := "revoked_at"; operator := OpIsNull; value := VNull |}].
Definition revoke_all_for_user (user_id : string) : prog (WResult unit) :=
  now ← now_iso;
  ignore_result (labelled "api_keys revoke_all_for_user"
    (do_call (UpdateByFilters TABLE (unrevoked_filters user_id) (revoked_now now)))).

Definition delete (id : string) : prog (WResult unit) :=
  ignore_result (labelled "api_keys delete" (do_call (Delete TABLE id))).
End ApiKeys.
End ApiKeys.

(** ** The cache of account versions *)
Definition AUTH_VERSION_CACHE_TTL_MS : Z := 5000.
Definition AUTH_VERSION_CACHE_MAX_ENTRIES : nat := Z.to_nat 50000.

Record AuthVersionCacheEntry := { version : Z; cached_at_ms : Z }.
Abbreviation AuthVersionCache := (gmap string AuthVersionCacheEntry).

(** The lookup and the fill of [current_auth_version_at], each under the lock. *)
Definition cached_version (cache : AuthVersionCache) (user_id : string) (now_ms : Z) : option Z :=
  e ← cache !! user_id;
  if now_ms - cached_at_ms e <? AUTH_VERSION_CACHE_TTL_MS then Some (version e) else None.
Definition cache_version (cache : AuthVersionCache) (user_id : string) (now_ms v : Z) : AuthVersionCache :=
  let cache := if (AUTH_VERSION_CACHE_MAX_ENTRIES <=? size cache)%nat then ∅ else cache in
  <[user_id := {| version := v; cached_at_ms := now_ms |}]> cache.
Definition invalidate_auth_version_cache (cache : AuthVersionCache) (user_id : string) : AuthVersionCache :=
  delete user_id cache.

Section Credentials.
Context {JN : JsonNumbers} {JS : JsonScalars JN} {SH : Sha256} {HE : HexEncode} {MS : Messages}
        {TC : TokenCrypto} {JV : JwtVerify} {IN : Instants} {IF : IsoFormat} {DF : DebugFmt}.

(** The version of the account, [hit] what the cache answered. *)
Definition current_auth_version (hit : option Z) (user_id : string) : prog (WResult Z) :=
  match hit with Some v => Done (Ok v) | None => Users.auth_version user_id end.

(** [futures::join!]: the reads of the two futures, in either order. *)
Definition join_both {A C} (left_first : bool) (p : prog A) (q : prog C) : prog (A * C) :=
  if left_first then a ← p; c ← q; Done (a, c) else c ← q; a ← p; Done (a, c).

(** ** Access tokens ([crypto.rs]) *)
Record AccessClaims := {
  ac_sub : string; ac_email : option string; ac_roles : string; ac_family : string;
  ac_auth_version : Z; ac_auth_method : string;
}.

Definition claim_text (claims : columns) (key : string) : string := default "" (claim_str claims key).
Definition claim_version (claims : columns) : Z :=
  default 0 (v ← claims !! Users.AUTH_VERSION_FIELD; as_i64 v).
Definition claim_roles (claims : columns) : string :=
  match claims !! "roles" with Some (VArray roles) => join "," (omap as_str roles) | _ => "" end.

Definition claims_of (claims : columns) : AccessClaims := {|
  ac_sub := claim_text claims "sub"; ac_email := claim_str claims "email"; ac_roles := claim_roles claims;
  ac_family := claim_text claims "family"; ac_auth_version := claim_version claims;
  ac_auth_method := claim_text claims "auth_method";
|}.

(** The rules that need no read: the signature, the type, the issuer, and a
    subject and a family to check. *)
Definition token_claims (token jwt_secret expected_iss : string) : option columns :=
  claims ← jwt_verify token (derive_block_key jwt_secret AUTH_UI_BLOCK_ID);
  if negb (String.eqb (claim_text claims "type") "access") then None
  else if negb (is_empty expected_iss) && negb (String.eqb (claim_text claims "iss") expected_iss) then None
  else if is_empty (claim_text claims "sub") || is_empty (claim_text claims "family") then None
  else Some claims.

(** [cached] is what the cache answers for an account, [family_first] the order
    the two reads run in. *)
Definition verify_access_token (cached : string -> option Z) (family_first : bool) (token jwt_secret expected_iss : string)
  : prog (WResult (option AccessClaims)) :=
  match token_claims token jwt_secret expected_iss with
  | None => Done (Ok None)
  | Some claims =>
      r ← join_both family_first
            (Sessions.is_live (claim_text claims "sub") (claim_text claims "family"))
            (current_auth_version (cached (claim_text claims "sub")) (claim_text claims "sub"));
      live ←! map_err credential_check_failed r.1;
      if negb live then Done (Ok None)
      else
        current ←! map_err credential_check_failed r.2;
        if claim_version claims <? current then Done (Ok None)
        else Done (Ok (Some (claims_of claims)))
  end.

(** The metadata a verified token writes. *)
Definition stamp_claims (claims : AccessClaims) (msg : Message) : Message :=
  let msg := set_meta msg META_AUTH_USER_ID (ac_sub claims) in
  let msg := match ac_email claims with Some email => set_meta msg META_AUTH_USER_EMAIL email | None => msg end in
  let msg := set_meta msg META_AUTH_USER_ROLES (ac_roles claims) in
  let msg := set_meta msg META_AUTH_FAMILY (ac_family claims) in
  set_meta msg META_AUTH_VERSION (z_to_string (ac_auth_version claims)).

Definition extract_auth_meta (cached : string -> option Z) (family_first : bool) (auth_header jwt_secret expected_iss : string)
    (msg : Message) : prog (WResult Message) :=
  match strip_prefix "Bearer " auth_header with
  | None => Done (Ok msg)
  | Some token =>
      claims ←? verify_access_token cached family_first token jwt_secret expected_iss;
      Done (Ok (match claims with Some claims => stamp_claims claims msg | None => msg end))
  end.

(** ** API keys as credentials ([blocks/auth/mod.rs]) *)

(** A failed read refuses the request with the classified error. *)
Definition checked {A} (p : prog (WResult A)) : prog (WResult A) :=
  r ← p; Done (map_err credential_check_failed r).

Definition stamp_key (key : ApiKeys.ApiKeyRow) (user : Users.UserRow) (roles : list string) (msg : Message)
  : Message :=
  let msg := set_meta msg META_AUTH_USER_ID (ApiKeys.ak_user_id key) in
  let msg := set_meta msg META_AUTH_USER_EMAIL (Users.ur_email user) in
  let msg := set_meta msg META_AUTH_USER_ROLES (join "," roles) in
  set_meta msg META_AUTH_API_KEY_ID (ApiKeys.ak_id key).

Definition authenticate_api_key (api_key : string) (msg : Message) : prog (WResult Message) :=
  found ←? checked (ApiKeys.find_by_key_hash (sha256_hex_bytes api_key));
  match found with
  | None => Done (Ok msg)
  | Some key =>
      if ApiKeys.is_revoked key then Done (Ok msg)
      else
        now ← ask UtcNow;
        if ApiKeys.is_expired key now then Done (Ok msg)
        else if is_empty (ApiKeys.ak_user_id key) then Done (Ok msg)
        else
          account ←? checked (Users.find_by_id (ApiKeys.ak_user_id key));
          match account with
          | None => Done (Ok msg)
          | Some user =>
              if negb (Users.is_active user) then Done (Ok msg)
              else
                roles ←? checked (get_user_roles (ApiKeys.ak_user_id key));
                Done (Ok (stamp_key key user roles msg))
          end
  end.

(** The check after a write that mints a credential. *)
Definition presented_credential_is_live (family_first : bool) (msg : Message) : prog (WResult bool) :=
  let user_id := msg_user_id msg in
  if is_empty user_id then Done (Ok false)
  else
    let family := get_meta msg META_AUTH_FAMILY in
    if negb (is_empty family) then
      match parse_i64 (get_meta msg META_AUTH_VERSION) with
      | None => Done (Ok false)
      | Some claim_version =>
          r ← join_both family_first (Sessions.is_live user_id family) (Users.auth_version user_id);
          live ←! r.1;
          if negb live then Done (Ok false)
          else current ←! r.2; Done (Ok (current <=? claim_version))
      end
    else
      let key_id := get_meta msg META_AUTH_API_KEY_ID in
      if negb (is_empty key_id) then
        found ←? ApiKeys.find_by_id key_id;
        match found with
        | None => Done (Ok false)
        | Some key =>
            if negb (String.eqb (ApiKeys.ak_user_id key) user_id) || ApiKeys.is_revoked key then Done (Ok false)
            else now ← ask UtcNow; Done (Ok (negb (ApiKeys.is_expired key now)))
        end
      else Done (Ok false).

(** ** The end of credentials *)

(** The cache entry of the process is dropped with it
    ([invalidate_auth_version_cache]). *)
Definition bump_auth_version (user_id : string) : prog (WResult unit) := Users.bump_auth_version user_id.

(** [a.and(b)] *)
Definition result_and {E A C} (a : outcome E A) (b : outcome E C) : outcome E C :=
  match a with Ok _ => b | Err e => Err e | Panic => Panic end.

(** Failures are logged as well. *)
Definition end_credentials_after_password_change (user_id : string) : prog (WResult unit) :=
  ended ← end_all_families user_id;
  let devices := match ended with
                 | Ok _ => Ok tt
                 | Err (RefreshRowsLive _) => Ok tt
                 | Err (StillSignedIn e) => Err e
                 | Panic => Panic
                 end in
  version ← bump_auth_version user_id;
  keys ← ApiKeys.revoke_all_for_user user_id;
  Done (result_and (result_and devices version) keys).

(** ** The handlers of API keys ([auth_ui/api/api_keys.rs]) *)
Definition parse_expiry (raw : option string) (now : Z) : outcome OutputStream (option Z) :=
  match (r ← raw; let r := trim r in if is_empty r then None else Some r) with
  | None => Ok None
  | Some raw =>
      match parse_rfc3339 raw with
      | None =>
          Err (err_bad_request (String.append
            "expires_at must be an RFC 3339 timestamp (e.g. 2027-01-31T09:00:00Z), got " (debug_str raw)))
      | Some parsed =>
          if parsed <=? now
          then Err (err_bad_request (String.append "expires_at must be in the future, got " (debug_str raw)))
          else Ok (Some parsed)
      end
  end.

Record CreateApiKeyRequest := { cr_name : string; cr_expires_at : option string }.

(** [handle_create] up to its answer, which shows the key that is returned
    once: [body] is what reading and decoding the request's body made. *)
Definition create_key (family_first : bool) (msg : Message) (body : outcome OutputStream CreateApiKeyRequest)
  : prog (outcome OutputStream (ApiKeys.ApiKeyRow * string)) :=
  let user_id := msg_user_id msg in
  if is_empty user_id then Done (Err (err_unauthenticated "Authentication required"))
  else
    body ←! body;
    if is_empty (cr_name body) then Done (Err (err_bad_request "API key name is required"))
    else
      now ← ask UtcNow;
      expires_at ←! parse_expiry (cr_expires_at body) now;
      let? random_bytes := ask (RandomBytes 24) else ErrInternal "Failed to generate key" in
      let key_string := String.append "sb_" (hex_encode random_bytes) in
      let? record := ApiKeys.insert {| ApiKeys.nk_user_id := user_id; ApiKeys.nk_name := cr_name body;
                         ApiKeys.nk_key_hash := sha256_hex_bytes key_string;
                         ApiKeys.nk_key_prefix := str_take 10 key_string; ApiKeys.nk_expires_at := expires_at |}
        else (fun e => db_error_internal e "Could not create the API key") in
      live ← presented_credential_is_live family_first msg;
      match live with
      | Ok true => Done (Ok (record, key_string))
      | Ok false =>
          let? _ := ApiKeys.revoke (ApiKeys.ak_id record)
            else (fun e => db_error_internal e "Could not withdraw the API key") in
          Done (Err (err_unauthenticated "Authentication required"))
      | Err e =>
          _ ← ApiKeys.revoke (ApiKeys.ak_id record);
          Done (Err (OutputError (credential_check_failed e)))
      | Panic => Done Panic
      end.

(** The answer to a caller that is not htmx. *)
Definition created_json (record : ApiKeys.ApiKeyRow) (key_string : string) : Value :=
  VObject [("id", VString (ApiKeys.ak_id record)); ("key", VString key_string);
           ("name", VString (ApiKeys.ak_name record)); ("key_prefix", VString (ApiKeys.ak_key_prefix record));
           ("message", VString "Save this key — it won't be shown again")].

(** The key a handler is about to change, once it is the caller's to change. *)
Definition owned_key (msg : Message) (forbidden : string) : prog (outcome OutputStream string) :=
  id ←! path_id msg "Key";
  let? key := ApiKeys.find_by_id id else (fun e => db_error_internal e "Could not load the API key") in
  match key with
  | None => Done (Err (err_not_found "API key not found"))
  | Some key =>
      if negb (String.eqb (ApiKeys.ak_user_id key) (msg_user_id msg)) && negb (is_admin msg)
      then Done (Err (OutputError (wafer_error PermissionDenied forbidden)))
      else Done (Ok id)
  end.

Definition handle_revoke (msg : Message) : prog (outcome OutputStream OutputStream) :=
  id ←? owned_key msg "Cannot revoke another user's API key";
  let? _ := ApiKeys.revoke id
    else (fun e => db_error e "API key not found" "Could not revoke the API key") in
  Done (Ok (ok_json (VObject [("message", VString "API key revoked")]))).

Definition handle_delete (msg : Message) : prog (outcome OutputStream OutputStream) :=
  id ←? owned_key msg "Cannot delete another user's API key";
  let? _ := ApiKeys.delete id
    else (fun e => db_error e "API key not found" "Could not delete the API key") in
  Done (Ok (ok_json (VObject [("deleted", VBool true)]))).
End Credentials.
