(* ===== verification/ApiKeySafety.v ===== *)
(** * API keys end with the password

    A request that mints an API key checks its credential again after the key is
    written, and a password change first makes the old credentials fail that
    check, then revokes the keys.  However the two interleave, no key that was
    handed out on an old credential is left. *)
From Stdlib Require Import String.
From S2P Require Import Prelude Ints Str Contracts SampleLib Wafer Features Routing.
From S2P Require Import Records Effects Columns TableMachine MemoryDb DbRead Failures Lease AuthRepo AuthTail Csrf Crud Refresh Interleaving History Authenticate.

(** ** The two tables *)
Record key_view := mkKey { kv_user : string; kv_hash : string; kv_revoked : bool }.

Section Machines.
Context {JN : JsonNumbers} {NL : JsonNumberLaws JN}.

(** Whether [revoked_at] is set: it is null or a text, never an empty one. *)
Definition revoked_col (cols : columns) : option bool :=
  match cols !! "revoked_at" with
  | None | Some VNull => Some false
  | Some (VString t) => if is_empty t then None else Some true
  | Some _ => None
  end.

(** A key row: whose it is, its hash, and whether it is revoked. *)
Definition view_key (cols : columns) : option key_view :=
  user ← text_col cols "user_id"; hash ← text_col cols "key_hash"; revoked ← revoked_col cols;
  Some (mkKey user hash revoked).

(** The only thing that happens to a key row: it is revoked. *)
Definition key_step (k k' : key_view) : Prop := k' = mkKey (kv_user k) (kv_hash k) true.

#[local] Instance keys_machine : Machine key_view.
Proof.
  refine {| m_table := ApiKeys.TABLE; m_view := view_key; m_inv := fun _ => True; m_step := key_step |}. done.
Defined.

(** An account row: its version, which never goes back. *)
Definition view_version (cols : columns) : option Z := int_col cols Users.AUTH_VERSION_FIELD.
#[local] Instance users_machine : Machine Z.
Proof.
  refine {| m_table := Users.TABLE; m_view := view_version; m_inv := fun _ => True; m_step := Z.le |}. done.
Defined.
End Machines.

Section Safety.
Context {JN : JsonNumbers} {NL : JsonNumberLaws JN} {JS : JsonScalars JN} {SH : Sha256} {HE : HexEncode}
        {MS : Messages} {IN : Instants} {IF : IsoFormat} {IL : IsoLaws} {DF : DebugFmt}.
Context {B : Backend} {BL : BackendLaws B}.

(** What the handlers of keys and accounts do: key rows stay and are at most
    revoked, account rows stay and their versions grow. *)
Definition account_moves (s s' : state) : Prop :=
  evolve (M:=keys_machine) s s' /\ evolve (M:=users_machine) s s'.
Abbreviation G := account_moves.

#[export] Instance account_moves_preorder : PreOrder account_moves.
Proof.
  split; [by intros s; split|]. intros s1 s2 s3 [K12 U12] [K23 U23]. split; by etrans.
Qed.

(** Every key row names a user and a hash, and every account row has a
    version. *)
Definition accounts_wf (s : state) : Prop := table_wf (M:=keys_machine) s /\ table_wf (M:=users_machine) s.

Lemma moves_accounts_wf s s' : account_moves s s' -> accounts_wf s -> accounts_wf s'.
Proof. intros [K U] [Hk Hu]. split; [by apply K|by apply U]. Qed.

(** ** Facts *)
Definition key_at (s : state) (id user hash : string) (revoked : bool) : Prop :=
  exists cols, rows s ApiKeys.TABLE !! id = Some cols /\ view_key cols = Some (mkKey user hash revoked).
Definition version_at (s : state) (user : string) (n : Z) : Prop :=
  exists cols, rows s Users.TABLE !! user = Some cols /\ view_version cols = Some n.

Lemma key_steps k k' :
  rtc key_step k k' -> kv_user k' = kv_user k /\ kv_hash k' = kv_hash k /\ (kv_revoked k = true -> kv_revoked k' = true).
Proof. induction 1 as [|k1 k2 k3 -> _ IH]; [done|]. simpl in IH. naive_solver. Qed.

Lemma key_stays s s' id user hash revoked :
  accounts_wf s -> account_moves s s' -> key_at s id user hash revoked ->
  exists revoked', key_at s' id user hash revoked' /\ (revoked = true -> revoked' = true).
Proof.
  intros [Hk _] [K _] (cols & Hr & Hv). destruct (K Hk) as [_ Hs].
  destruct (Hs _ _ _ Hr Hv) as (cols' & [u h r] & Hr' & Hv' & (Hu & Hh & Hrev)%key_steps). simpl in *. subst.
  exists r. split; [by exists cols'|done].
Qed.

Lemma revoked_stays s s' id user hash :
  accounts_wf s -> account_moves s s' -> key_at s id user hash true -> key_at s' id user hash true.
Proof.
  intros Hwf HG Hk. destruct (key_stays _ _ _ _ _ _ Hwf HG Hk) as (r & Hk' & Hr). by rewrite Hr in Hk'.
Qed.

Lemma le_steps n n' : rtc Z.le n n' -> n <= n'.
Proof. induction 1; lia. Qed.

Lemma version_grows s s' user n :
  accounts_wf s -> account_moves s s' -> version_at s user n -> exists n', version_at s' user n' /\ n <= n'.
Proof.
  intros [_ Hu] [_ U] (cols & Hr & Hv). destruct (U Hu) as [_ Hs].
  destruct (Hs _ _ _ Hr Hv) as (cols' & n' & Hr' & Hv' & Hle%le_steps). exists n'. split; [by exists cols'|done].
Qed.

Lemma version_unique s user n n' : version_at s user n -> version_at s user n' -> n' = n.
Proof. intros (cols & Hr & Hv) (cols' & Hr' & Hv'). congruence. Qed.

(** ** What each write does *)
Lemma tables_apart : ApiKeys.TABLE <> Users.TABLE.
Proof. done. Qed.

Lemma keys_write s r :
  evolve (M:=keys_machine) s (set_rows s ApiKeys.TABLE r) -> account_moves s (set_rows s ApiKeys.TABLE r).
Proof.
  intros HK. split; [done|]. apply same_rows_evolve. apply rows_set_other, tables_apart.
Qed.
Lemma users_write s r :
  evolve (M:=users_machine) s (set_rows s Users.TABLE r) -> account_moves s (set_rows s Users.TABLE r).
Proof.
  intros HU. split; [|done]. apply same_rows_evolve. by apply rows_set_other, not_eq_sym, tables_apart.
Qed.

(** A handler of other tables. *)
Definition elsewhere {A} (p : prog A) : Prop := avoids ApiKeys.TABLE p /\ avoids Users.TABLE p.

Lemma elsewhere_safe {A} (p : prog A) s : elsewhere p -> safe G (fun _ _ => True) p s.
Proof.
  intros [Hk Hu]. revert s. induction p as [a|R c k IH]; intros s; [done|].
  destruct Hk as [Hk Hks], Hu as [Hu Hus]. intros s1 H1 r s2 Hc. split; [|by apply IH].
  split; apply same_rows_evolve; by eapply call_step_other.
Qed.

Lemma elsewhere_done {A} (a : A) : elsewhere (Done a).
Proof. done. Qed.
Lemma elsewhere_bind {A C} (p : prog A) (f : A -> prog C) :
  elsewhere p -> (forall a, elsewhere (f a)) -> elsewhere (p ≫= f).
Proof.
  intros [Hk Hu] Hf. induction p as [a|R c k IH]; [apply Hf|]. destruct Hk as [Hk Hks], Hu as [Hu Hus].
  split; (split; [done|]); intros r; by apply (IH r).
Qed.
Lemma elsewhere_try {E A C} (p : prog (outcome E A)) (f : A -> prog (outcome E C)) :
  elsewhere p -> (forall a, elsewhere (f a)) -> elsewhere (prog_try p f).
Proof. intros Hp Hf. apply elsewhere_bind; [done|]. intros [a|e|]; [apply Hf|done..]. Qed.
Lemma elsewhere_call {R} (c : call R) :
  ApiKeys.TABLE ∉ written_tables c -> Users.TABLE ∉ written_tables c -> elsewhere (do_call c).
Proof. intros Hk Hu. by split. Qed.
Lemma elsewhere_ask {R} (q : service R) : elsewhere (ask q).
Proof. apply elsewhere_call; cbn [written_tables]; apply not_elem_of_nil. Qed.
Lemma elsewhere_labelled {A} what (p : prog (WResult A)) : elsewhere p -> elsewhere (labelled what p).
Proof. intros Hp. apply elsewhere_bind; [done|]. intros r. done. Qed.
Lemma elsewhere_ignore {A} (p : prog (WResult A)) : elsewhere p -> elsewhere (ignore_result p).
Proof. intros Hp. apply elsewhere_try; done. Qed.

Lemma revoked_key_view t cols k :
  view_key cols = Some k ->
  view_key (overlay (ApiKeys.revoked_now (iso t)) cols) = Some (mkKey (kv_user k) (kv_hash k) true).
Proof.
  unfold view_key, revoked_col. rewrite !text_col_overlay, overlay_lookup.
  change (ApiKeys.revoked_now (iso t) !! "user_id") with (@None Value).
  change (ApiKeys.revoked_now (iso t) !! "key_hash") with (@None Value).
  change (ApiKeys.revoked_now (iso t) !! "revoked_at") with (Some (VString (iso t))).
  cbv iota beta. rewrite iso_not_empty. by intros (u & -> & (h & -> & (r & _ & [= <-])%bind_Some)%bind_Some)%bind_Some.
Qed.

Lemma sweep_moves filters t s :
  account_moves s (set_rows s ApiKeys.TABLE (update_rows filters (ApiKeys.revoked_now (iso t)) (rows s ApiKeys.TABLE))).
Proof.
  apply keys_write, (update_rows_evolve (M:=keys_machine)). intros id cols k _ _ Hv _ _.
  eexists. split; [by apply revoked_key_view|done].
Qed.

Lemma live_null cols u h : view_key cols = Some (mkKey u h false) -> default VNull (cols !! "revoked_at") = VNull.
Proof.
  intros (u' & _ & (h' & _ & (r & Hr & [= _ _ ->])%bind_Some)%bind_Some)%bind_Some. unfold revoked_col in Hr.
  destruct (cols !! "revoked_at") as [[]|]; try done. by destruct (is_empty s).
Qed.

Lemma view_key_user cols k : view_key cols = Some k -> text_col cols "user_id" = Some (kv_user k).
Proof. by intros (u' & -> & (h' & _ & (r & _ & [= <-])%bind_Some)%bind_Some)%bind_Some. Qed.

Lemma sweep_revokes t s id user hash r :
  key_at s id user hash r ->
  key_at (set_rows s ApiKeys.TABLE (update_rows (ApiKeys.unrevoked_filters user) (ApiKeys.revoked_now (iso t))
    (rows s ApiKeys.TABLE))) id user hash true.
Proof.
  intros (cols & Hr & Hv). unfold key_at. rewrite rows_set_rows. unfold update_rows. rewrite map_lookup_imap, Hr.
  eexists. split; [done|]. destruct (matches (ApiKeys.unrevoked_filters user) id cols) eqn:Hm.
  - by rewrite (revoked_key_view t _ _ Hv).
  - destruct r; [done|]. exfalso. apply Bool.not_true_iff_false in Hm. apply Hm.
    pose proof (view_key_user _ _ Hv) as Hu%text_col_value.
    unfold matches, ApiKeys.unrevoked_filters, text_filter, eq_filter. cbn [forallb].
    rewrite (holds_equal_text "user_id" id cols user user), String.eqb_refl by done. cbn [andb].
    rewrite holds_is_null; [done..|]. by eapply live_null.
Qed.

Lemma revoke_id_moves id cols t s :
  accounts_wf s -> rows s ApiKeys.TABLE !! id = Some cols ->
  account_moves s (set_rows s ApiKeys.TABLE
    (<[id := overlay (ApiKeys.revoked_now (iso t)) cols]> (rows s ApiKeys.TABLE))).
Proof.
  intros [Hk _] Hr. destruct (Hk _ _ Hr) as (k & Hv & _). apply keys_write.
  eapply (update_id_evolve (M:=keys_machine)); [done..|by apply revoked_key_view|by apply rtc_once].
Qed.

Lemma new_key_moves id cols k s :
  rows s ApiKeys.TABLE !! id = None -> view_key cols = Some k ->
  account_moves s (set_rows s ApiKeys.TABLE (<[id := cols]> (rows s ApiKeys.TABLE))).
Proof. intros Hr Hv. apply keys_write. by eapply (insert_evolve (M:=keys_machine)). Qed.

(** *** The version of an account *)
Lemma increment_view cols n :
  view_version cols = Some n -> in_i64 (n + 1) = true ->
  view_version (increment_cols Users.AUTH_VERSION_FIELD 1 cols) = Some (n + 1).
Proof.
  intros (m & Hm & Hn)%int_col_number Hr. unfold increment_cols. rewrite Hm, Hn.
  unfold view_version, int_col. rewrite lookup_insert_eq. by apply as_i64_json.
Qed.

Lemma fits_increment s filters id cols n :
  overflows filters Users.AUTH_VERSION_FIELD 1 (rows s Users.TABLE) = false ->
  rows s Users.TABLE !! id = Some cols -> matches filters id cols = true -> view_version cols = Some n ->
  in_i64 (n + 1) = true.
Proof.
  intros Ho Hr Hm (m & Hc & Hn)%int_col_number. apply Bool.not_false_iff_true. intros Hi.
  apply Bool.not_true_iff_false in Ho. apply Ho. apply existsb_exists. exists (id, cols).
  split; [by apply list_elem_of_In, elem_of_map_to_list|]. cbn [fst snd]. by rewrite Hm, Hc, Hn, Hi.
Qed.

Lemma bump_moves filters s :
  overflows filters Users.AUTH_VERSION_FIELD 1 (rows s Users.TABLE) = false ->
  account_moves s (set_rows s Users.TABLE (increment_rows filters Users.AUTH_VERSION_FIELD 1 (rows s Users.TABLE))).
Proof.
  intros Ho. apply users_write. intros Hwf. unfold table_wf. rewrite rows_set_rows. unfold increment_rows.
  assert (forall id cols n, rows s Users.TABLE !! id = Some cols -> view_version cols = Some n ->
    exists n', view_version (if matches filters id cols then increment_cols Users.AUTH_VERSION_FIELD 1 cols else cols)
               = Some n' /\ n <= n') as Hrow.
  { intros id cols n Hr Hv. destruct (matches filters id cols) eqn:Hm; [|by exists n].
    exists (n + 1). split; [|lia]. apply increment_view; [done|]. by eapply fits_increment. }
  split.
  - intros id cols'. rewrite map_lookup_imap. intros (cols & Hr & [= <-])%bind_Some.
    destruct (Hwf _ _ Hr) as (n & Hv & _). destruct (Hrow _ _ _ Hr Hv) as (n' & Hv' & _). by exists n'.
  - intros id cols n Hr Hv. destruct (Hrow _ _ _ Hr Hv) as (n' & Hv' & Hle).
    eexists _, n'. change (rows s m_table) with (rows s Users.TABLE) in Hr. rewrite map_lookup_imap, Hr.
    split; [done|]. split; [done|by apply rtc_once].
Qed.

Lemma bump_version s user n :
  overflows [text_filter "id" user] Users.AUTH_VERSION_FIELD 1 (rows s Users.TABLE) = false ->
  version_at s user n ->
  version_at (set_rows s Users.TABLE
    (increment_rows [text_filter "id" user] Users.AUTH_VERSION_FIELD 1 (rows s Users.TABLE))) user (n + 1).
Proof.
  intros Ho (cols & Hr & Hv). unfold version_at. rewrite rows_set_rows. unfold increment_rows.
  rewrite map_lookup_imap, Hr. eexists. split; [done|].
  assert (matches [text_filter "id" user] user cols = true) as Hm.
  { unfold matches, text_filter, eq_filter. cbn [forallb]. by rewrite holds_id, String.eqb_refl. }
  rewrite Hm. apply increment_view; [done|]. by eapply fits_increment.
Qed.

(** ** The end of the credentials *)
Abbreviation hs := (hsafe account_moves).

Lemma elsewhere_hsafe {A} (p : prog A) V s : elsewhere p -> hs (fun _ _ _ => True) p V s.
Proof. intros Hp. by apply (safe_hsafe _ (fun _ _ => True)), elsewhere_safe. Qed.

(** A read of the clock. *)
Lemma hsafe_ask {R A} (Q : A -> visited -> state -> Prop) (q : service R) (k : R -> prog A) V s :
  (forall r V' s', extends G V s V' s' -> hs Q (k r) V' s') -> hs Q (r ← ask q; k r) V s.
Proof.
  intros Hk V1 s1 H1 r s2 ->. split; [reflexivity|]. apply Hk.
  eapply extends_trans; [apply _|exact H1|]. apply extends_visit; [apply _|reflexivity].
Qed.
Lemma hsafe_now {A} (Q : A -> visited -> state -> Prop) (k : string -> prog A) V s :
  (forall t V' s', extends G V s V' s' -> hs Q (k (iso t)) V' s') -> hs Q (r ← now_iso; k r) V s.
Proof. intros Hk. apply (hsafe_ask Q UtcNow (fun t => k (iso t))). intros t. apply Hk. Qed.

Lemma extends_wf V s V' s' : extends account_moves V s V' s' -> accounts_wf s -> accounts_wf s'.
Proof. intros (HG & _) Hwf. by eapply moves_accounts_wf. Qed.

(** A run whose visited states are well formed. *)
Definition lived (V : visited) (s : state) : Prop :=
  past account_moves V s /\ accounts_wf s /\ forall x, V x -> accounts_wf x.

Lemma lived_extends V s V' s' : extends account_moves V s V' s' -> lived V s -> lived V' s'.
Proof.
  intros He (Hp & Hwf & Hall). split; [by apply (past_extends _ V s)|]. split; [by eapply extends_wf|].
  destruct He as (_ & _ & _ & Hn). intros x [Hx|[Hx _]]%Hn; [by apply Hall|by eapply moves_accounts_wf].
Qed.
Lemma lived_wf V s : lived V s -> accounts_wf s.
Proof. by intros (_ & ? & _). Qed.
Lemma lived_start s : accounts_wf s -> lived (fun x => x = s) s.
Proof. intros Hwf. split; [apply past_start, _|]. split; [done|]. by intros x ->. Qed.

(** Everything visited lies before [s1] or after [s2]. *)
Definition splits (V : visited) (s1 s2 : state) : Prop := forall x, V x -> accounts_wf x /\ G x s1 \/ G s2 x.

Lemma splits_extends V V' s1 s2 s' :
  lived V s1 -> extends account_moves (visit V s2) s2 V' s' -> splits V' s1 s2.
Proof.
  intros ([_ Hp] & _ & Hall) (_ & _ & _ & Hn) x [[Hx| ->]|[Hx _]]%Hn; [left|right; reflexivity|by right].
  split; [by apply Hall|by apply Hp].
Qed.

(** The keys of an account are revoked at one point of the run. *)
Definition swept (user : string) (s : state) (V : visited) (s' : state) : Prop :=
  exists s1 s2, accounts_wf s1 /\ G s s1 /\ G s1 s2 /\ G s2 s' /\ splits V s1 s2 /\
    forall id hash r, key_at s1 id user hash r -> key_at s2 id user hash true.

Lemma revoke_all_swept user V s :
  lived V s ->
  hs (fun r V' s' => r = Ok tt -> swept user s V' s') (ApiKeys.revoke_all_for_user user) V s.
Proof.
  intros Hl. unfold ApiKeys.revoke_all_for_user. apply hsafe_now. intros t V1 s1 H1.
  pose proof (lived_extends _ _ _ _ H1 Hl) as Hl1.
  eapply (hsafe_map _ _ (fun r => match r with Ok _ => Ok tt | Err e => Err e | Panic => Panic end));
    [by intros []|]. eapply (hsafe_map _ _ (map_err _)); [done|].
  intros V2 s2 H2 r s3 Hc. pose proof (lived_extends _ _ _ _ H2 Hl1) as Hl2.
  destruct Hc as [[(e & -> & _) Hs]|[-> ->]].
  - split; [destruct Hs as [->| ->]; [reflexivity|apply sweep_moves]|]. by intros V3 s4 _.
  - split; [apply sweep_moves|]. intros V3 s4 H3 _.
    exists s2, (set_rows s2 ApiKeys.TABLE (update_rows (ApiKeys.unrevoked_filters user) (ApiKeys.revoked_now (iso t))
      (rows s2 ApiKeys.TABLE))).
    split; [by eapply lived_wf|]. split; [etrans; [apply (proj1 H1)|apply (proj1 H2)]|]. split; [apply sweep_moves|].
    split; [apply (proj1 H3)|]. split; [by eapply splits_extends|]. intros id hash r. apply sweep_revokes.
Qed.

(** The version of an account has passed [n]. *)
Definition passed (user : string) (n : Z) (s : state) : Prop := exists m, version_at s user m /\ n < m.

Lemma passed_stable user n s s' : accounts_wf s -> G s s' -> passed user n s -> passed user n s'.
Proof.
  intros Hwf HG (m & Hm & Hlt). destruct (version_grows _ _ _ _ Hwf HG Hm) as (m' & Hm' & Hle).
  exists m'. split; [done|lia].
Qed.

Lemma bump_passes user V s :
  accounts_wf s ->
  hs (fun r _ s' => r = Ok tt -> forall n, version_at s user n -> passed user n s') (bump_auth_version user) V s.
Proof.
  intros Hwf.
  eapply (hsafe_map _ _ (fun r => match r with Ok _ => Ok tt | Err e => Err e | Panic => Panic end));
    [by intros []|]. eapply (hsafe_map _ _ (map_err _)); [done|].
  intros V1 s1 H1 r s2 Hc. pose proof (extends_wf _ _ _ _ H1 Hwf) as Hwf1.
  destruct Hc as [[(e & -> & _) Hs]|(Ho & -> & ->)].
  - split; [destruct Hs as [->|[Ho ->]]; [reflexivity|by apply bump_moves]|]. by intros V2 s3 _.
  - assert (G s1 (set_rows s1 Users.TABLE (increment_rows [text_filter "id" user] Users.AUTH_VERSION_FIELD 1
      (rows s1 Users.TABLE)))) as HG by by apply bump_moves.
    split; [done|]. intros V2 s3 H2 _ n Hn. destruct (version_grows _ _ _ _ Hwf (proj1 H1) Hn) as (m & Hm & Hle).
    eapply passed_stable; [by eapply moves_accounts_wf|apply H2|].
    exists (m + 1). split; [by apply bump_version|lia].
Qed.

Lemma end_all_elsewhere user : elsewhere (end_all_families user).
Proof.
  unfold end_all_families, Sessions.delete_all_for_user, Tokens.revoke_all_for_user, count_u64.
  apply elsewhere_bind.
  - apply elsewhere_try; [|done]. apply elsewhere_labelled, elsewhere_call; cbn [written_tables]; set_solver.
  - intros r. apply elsewhere_try; [done|]. intros n. apply elsewhere_bind; [|done].
    apply elsewhere_labelled, elsewhere_call; cbn [written_tables]; set_solver.
Qed.

(** A credential of an account: an access token minted at a version, or an API
    key. *)
Inductive Credential := AccessToken (version : Z) | ApiKey (id : string).

(** It was minted before [s]. *)
Definition minted_before (user : string) (c : Credential) (s : state) : Prop :=
  match c with
  | AccessToken v => exists n, version_at s user n /\ v <= n
  | ApiKey id => exists hash r, key_at s id user hash r
  end.
(** It passes the check at [s]. *)
Definition passes (user : string) (c : Credential) (s : state) : Prop :=
  match c with
  | AccessToken v => exists n, version_at s user n /\ n <= v
  | ApiKey id => exists hash, key_at s id user hash false
  end.

Lemma key_unique s id user hash r user' hash' r' :
  key_at s id user hash r -> key_at s id user' hash' r' -> user' = user /\ hash' = hash /\ r' = r.
Proof. intros (cols & Hr & Hv) (cols' & Hr' & Hv'). assert (cols' = cols) as -> by congruence. by simplify_eq. Qed.

Lemma minted_stable user c s s' : accounts_wf s -> G s s' -> minted_before user c s -> minted_before user c s'.
Proof.
  intros Hwf HG. destruct c as [v|id]; simpl.
  - intros (n & Hn & Hle). destruct (version_grows _ _ _ _ Hwf HG Hn) as (m & Hm & ?). exists m. split; [done|lia].
  - intros (hash & r & Hk). destruct (key_stays _ _ _ _ _ _ Hwf HG Hk) as (r' & Hk' & _). by exists hash, r'.
Qed.

(** A key written while an old credential still passed the check is revoked. *)
Definition keys_ended (user : string) (c : Credential) (V : visited) (s : state) : Prop :=
  forall x id hash r, V x -> passes user c x -> key_at x id user hash r -> key_at s id user hash true.

Lemma swept_extends user s V s' V' s'' :
  swept user s V s' -> extends account_moves V s' V' s'' -> swept user s V' s''.
Proof.
  intros (s1 & s2 & Hwf & H1 & H12 & H2 & Hs & Hk) (HG & _ & _ & Hn).
  exists s1, s2. do 3 (split; [done|]). split; [by etrans|]. split; [|done].
  intros x [Hx|[Hx _]]%Hn; [by apply Hs|]. right. by etrans.
Qed.

Lemma swept_ended user c s V s' :
  accounts_wf s -> minted_before user c s ->
  match c with AccessToken v => passed user v s | ApiKey _ => True end ->
  swept user s V s' -> keys_ended user c V s'.
Proof.
  intros Hwf Hm Hpass (s1 & s2 & Hwf1 & H1 & H12 & H2 & Hs & Hk) x id hash r Hx Hp Ha.
  assert (accounts_wf s2) as Hwf2 by by eapply moves_accounts_wf.
  destruct (Hs x Hx) as [[Hwfx Hx1]|Hx2].
  - destruct (key_stays _ _ _ _ _ _ Hwfx Hx1 Ha) as (r1 & Hr1 & _). apply (revoked_stays s2); [done..|]. by eapply Hk.
  - exfalso. destruct c as [v|key]; simpl in Hp, Hm.
    + assert (passed user v x) as (m & Hm' & Hlt).
      { apply (passed_stable user v s2); [done..|]. apply (passed_stable user v s1); [done..|].
        by apply (passed_stable user v s). }
      destruct Hp as (n & Hn & Hle). rewrite (version_unique _ _ _ _ Hm' Hn) in Hle. lia.
    + destruct Hm as (h & r0 & Hk0). destruct (key_stays _ _ _ _ _ _ Hwf H1 Hk0) as (r1 & Hk1 & _).
      pose proof (revoked_stays _ _ _ _ _ Hwf2 Hx2 (Hk _ _ _ Hk1)) as Hrev.
      destruct Hp as (h' & Hp). by destruct (key_unique _ _ _ _ _ _ _ _ Hrev Hp) as (_ & _ & ?).
Qed.

Lemma end_credentials_hsafe user V s :
  lived V s ->
  hs (fun r V' s' => r = Ok tt -> forall c, minted_before user c s -> keys_ended user c V' s')
    (end_credentials_after_password_change user) V s.
Proof.
  intros Hl. unfold end_credentials_after_password_change.
  eapply hsafe_bind; [apply _|apply elsewhere_hsafe, end_all_elsewhere|]. intros ended V1 s1 H1 _.
  pose proof (lived_extends _ _ _ _ H1 Hl) as Hl1.
  eapply hsafe_bind; [apply _|apply (bump_passes user), (lived_wf _ _ Hl1)|]. intros version V2 s2 H2 Hv.
  pose proof (lived_extends _ _ _ _ H2 Hl1) as Hl2.
  eapply hsafe_map; [done|]. eapply hsafe_weaken; [apply _| |by apply (revoke_all_swept user)].
  intros keys V3 s3 H3 Hk Hok c Hm.
  pose proof (minted_stable user c _ _ (lived_wf _ _ Hl) (proj1 H1) Hm) as Hm1.
  assert (version = Ok tt /\ keys = Ok tt) as [-> ->].
  { by destruct (match ended with Ok _ => _ | Err _ => _ | Panic => _ end), version as [[]| |], keys as [[]| |]. }
  eapply swept_ended; [exact (lived_wf _ _ Hl2)| | |by apply Hk].
  - apply (minted_stable user c s1); [exact (lived_wf _ _ Hl1)|apply (proj1 H2)|done].
  - destruct c as [v|id]; [|done]. destruct Hm1 as (n & Hn & Hle). destruct (Hv eq_refl n Hn) as (m & Hm' & ?).
    exists m. split; [done|lia].
Qed.

(** ** The check after a key is written *)

(** The credential a message presents. *)
Definition presented (msg : Message) : option Credential :=
  if negb (is_empty (get_meta msg META_AUTH_FAMILY)) then AccessToken <$> parse_i64 (get_meta msg META_AUTH_VERSION)
  else if negb (is_empty (get_meta msg META_AUTH_API_KEY_ID)) then Some (ApiKey (get_meta msg META_AUTH_API_KEY_ID))
  else None.

(** A credential of before [s] passed at a state the run has visited since. *)
Definition passed_since (user : string) (c : Credential) (s : state) (V : visited) : Prop :=
  minted_before user c s -> exists x, V x /\ G s x /\ passes user c x.

Lemma version_reads user v V s :
  accounts_wf s ->
  hs (fun r V' _ => forall n, r = Ok n -> n <= v -> passed_since user (AccessToken v) s V') (Users.auth_version user) V s.
Proof.
  intros Hwf V1 s1 H1 r s2 [-> Hr]. split; [reflexivity|].
  assert (forall V' s', extends G (visit V1 s1) s1 V' s' -> V' s1) as Hin
    by (intros V' s' (_ & _ & Hsub & _); apply Hsub; by right).
  destruct Hr as [(e & -> & Hnf)|[(id & cols & Hid & ->%String.eqb_eq & ->)|(e & -> & Hnf & Hnone)]].
  - simpl. rewrite bool_decide_eq_false_2 by done. by intros V2 s2 _ k.
  - intros V2 s2 H2 k [= <-] Hle Hm. exists s1. split; [by apply (Hin _ _ H2)|]. split; [apply H1|].
    destruct (minted_stable user (AccessToken v) _ _ Hwf (proj1 H1) Hm) as (n & (cols' & Hc' & Hv) & _).
    assert (cols' = cols) as -> by congruence.
    exists n. split; [by exists cols|]. by rewrite (i64_field_int user cols Users.AUTH_VERSION_FIELD n Hv) in Hle.
  - simpl. rewrite bool_decide_eq_true_2 by done. intros V2 s2 _ k _ _ Hm. exfalso.
    destruct (minted_stable user (AccessToken v) _ _ Hwf (proj1 H1) Hm) as (n & (cols' & Hc' & _) & _).
    specialize (Hnone _ _ Hc'). by rewrite String.eqb_refl in Hnone.
Qed.

Lemma is_live_elsewhere user family : elsewhere (Sessions.is_live user family).
Proof.
  apply elsewhere_bind; [apply elsewhere_ask|]. intros now. apply elsewhere_try; [|by intros []].
  apply elsewhere_labelled. unfold list_bounded, over_read.
  apply elsewhere_try; [|intros []; by destruct truncated].
  apply elsewhere_try; [apply elsewhere_call; cbn [written_tables]; apply not_elem_of_nil|done].
Qed.

Lemma passed_since_later user c s s1 V1 V2 s2 :
  accounts_wf s -> extends G V1 s V2 s1 -> passed_since user c s1 s2 -> passed_since user c s s2.
Proof.
  intros Hwf (HG & _) Hp Hm. destruct (Hp (minted_stable user c _ _ Hwf HG Hm)) as (x & Hx & Hgx & ?).
  exists x. split; [done|]. split; [by etrans|done].
Qed.
Lemma passed_since_more user c s V s1 V' s2 :
  extends G V s1 V' s2 -> passed_since user c s V -> passed_since user c s V'.
Proof. intros (_ & _ & Hsub & _) Hp Hm. destruct (Hp Hm) as (x & Hx & ?). exists x. split; [by apply Hsub|done]. Qed.

(** The two reads of [join!], in either order. *)
Lemma token_check user v ff family V s :
  accounts_wf s ->
  hs (fun r V' _ => forall n, r.2 = Ok n -> n <= v -> passed_since user (AccessToken v) s V')
    (join_both ff (Sessions.is_live user family) (Users.auth_version user)) V s.
Proof.
  intros Hwf. unfold join_both. destruct ff.
  - eapply hsafe_bind; [apply _|apply elsewhere_hsafe, is_live_elsewhere|]. intros live V1 s1 H1 _.
    eapply hsafe_map; [done|]. eapply hsafe_weaken; [apply _| |apply (version_reads user v)].
    + intros r V2 s2 _ Hr n Hn Hle. apply (passed_since_later _ _ _ _ _ _ _ Hwf H1), (Hr n Hn Hle).
    + by eapply extends_wf.
  - eapply hsafe_bind; [apply _|by apply (version_reads user v)|]. intros r V1 s1 H1 Hr.
    eapply hsafe_map; [done|]. eapply hsafe_weaken; [apply _| |apply elsewhere_hsafe, is_live_elsewhere].
    intros live V2 s2 H2 _ n Hn Hle. apply (passed_since_more _ _ _ _ _ _ _ H2), (Hr n Hn Hle).
Qed.

Lemma not_revoked_null cols k u h rev :
  ApiKeys.row_from_map cols = Ok k -> view_key cols = Some (mkKey u h rev) -> ApiKeys.is_revoked k = false -> rev = false.
Proof.
  unfold ApiKeys.row_from_map. destruct (map_opt_str cols "id"); [|done]. intros [= <-] Hv Hrev.
  unfold ApiKeys.is_revoked in Hrev. apply bool_decide_eq_false in Hrev. cbn in Hrev.
  apply bind_Some in Hv as (u' & _ & (h' & _ & (b & Hb & [= _ _ ->])%bind_Some)%bind_Some).
  unfold revoked_col in Hb. unfold map_opt_str in Hrev.
  destruct (cols !! "revoked_at") as [[| | |t| |]|]; cbn in Hb, Hrev; try congruence.
  destruct (is_empty t) eqn:He; [done|]. exfalso. apply Hrev. exists t. cbn. by destruct t.
Qed.

Lemma key_reads user id V s :
  accounts_wf s ->
  hs (fun r V' _ => forall k, r = Ok (Some k) -> ApiKeys.is_revoked k = false -> passed_since user (ApiKey id) s V')
    (ApiKeys.find_by_id id) V s.
Proof.
  intros Hwf V1 s1 H1 r s2 [-> Hr]. split; [reflexivity|].
  intros V2 s2 (_ & _ & Hsub & _) k Hk Hrev (hash & rev & Hm).
  destruct (key_stays _ _ _ _ _ _ Hwf (proj1 H1) Hm) as (rev' & (cols & Hc & Hv) & _).
  destruct Hr as [(e & -> & Hnf)|[(i & cols' & Hi & ->%String.eqb_eq & ->)|(e & -> & Hnf & Hnone)]].
  - simpl in Hk. by rewrite bool_decide_eq_false_2 in Hk.
  - assert (cols' = cols) as -> by congruence. exists s1. split; [apply Hsub; by right|]. split; [apply H1|].
    exists hash, cols. split; [done|]. unfold ApiKeys.found in Hk. cbn [row_of row_data] in Hk.
    destruct (ApiKeys.row_from_map cols) as [row| |] eqn:Hrow; [|done..]. injection Hk as <-.
    by rewrite (not_revoked_null _ _ _ _ _ Hrow Hv Hrev) in Hv.
  - simpl in Hk. by rewrite bool_decide_eq_true_2 in Hk.
Qed.

Lemma credential_check ff msg V s :
  accounts_wf s ->
  hs (fun r V' _ => r = Ok true ->
        exists c, presented msg = Some c /\ passed_since (msg_user_id msg) c s V')
    (presented_credential_is_live ff msg) V s.
Proof.
  intros Hwf. unfold presented_credential_is_live, presented. cbv zeta.
  destruct (is_empty (msg_user_id msg)); [by intros V' s' _|].
  destruct (negb (is_empty (get_meta msg META_AUTH_FAMILY))).
  - destruct (parse_i64 _) as [v|]; [|by intros V' s' _].
    eapply hsafe_bind; [apply _|by apply (token_check _ v)|].
    intros [live current] V1 s1 _ Hr. cbn in Hr |- *.
    destruct live as [[]| |], current as [n| |]; intros V2 s2 H2; try done.
    intros [= Hle%Z.leb_le]. exists (AccessToken v). split; [done|].
    apply (passed_since_more _ _ _ _ _ _ _ H2), (Hr n eq_refl Hle).
  - set (id := get_meta msg META_AUTH_API_KEY_ID). destruct (negb (is_empty id)); [|by intros V' s' _].
    eapply hsafe_bind; [apply _|by apply (key_reads (msg_user_id msg))|].
    intros r V1 s1 _ Hr. destruct r as [[k|]|e|]; try (intros V2 s2 _; done). cbn.
    destruct (ApiKeys.is_revoked k) eqn:Hrev; [rewrite orb_true_r; by intros V2 s2 _|]. rewrite orb_false_r.
    destruct (negb (String.eqb _ _)); [by intros V2 s2 _|].
    apply hsafe_ask. intros now V2 s2 H2 V3 s3 H3 _. exists (ApiKey id). split; [done|].
    apply (passed_since_more _ _ _ _ _ _ _ H3), (passed_since_more _ _ _ _ _ _ _ H2), (Hr k eq_refl Hrev).
Qed.

(** ** A key is minted *)
Context (revoked_null : column_default ApiKeys.TABLE "revoked_at" = VNull).

Lemma new_key_view new t id cols :
  ApiKeys.new_key new t ⊆ cols -> created ApiKeys.TABLE (ApiKeys.new_key new t) id cols ->
  view_key cols = Some (mkKey (ApiKeys.nk_user_id new) (ApiKeys.nk_key_hash new) false).
Proof.
  intros Hsub [_ Hd]. unfold view_key, revoked_col, text_col.
  assert (forall k s, ApiKeys.new_key new t !! k = Some (VString s) -> cols !! k = Some (VString s)) as Hk
    by (intros k v Hv; by eapply lookup_weaken).
  rewrite (Hk "user_id" (ApiKeys.nk_user_id new)), (Hk "key_hash" (ApiKeys.nk_key_hash new))
    by (unfold ApiKeys.new_key; by destruct (ApiKeys.nk_expires_at new)).
  cbn. destruct (cols !! "revoked_at") as [v|] eqn:Hv; [|done].
  destruct (Hd _ _ Hv) as [?|[Hn| ->]]; [done| |by rewrite revoked_null].
  exfalso. unfold ApiKeys.new_key in Hn. by destruct (ApiKeys.nk_expires_at new).
Qed.

(** The inserted row is there, under the id of the record. *)
Definition minted (new : ApiKeys.NewApiKey) (r : WResult ApiKeys.ApiKeyRow) (s : state) : Prop :=
  forall record, r = Ok record ->
    exists rev, key_at s (ApiKeys.ak_id record) (ApiKeys.nk_user_id new) (ApiKeys.nk_key_hash new) rev.

Lemma key_at_stable s s' id user hash :
  accounts_wf s -> G s s' -> (exists rev, key_at s id user hash rev) -> exists rev, key_at s' id user hash rev.
Proof. intros Hwf HG (r & Hk). destruct (key_stays _ _ _ _ _ _ Hwf HG Hk) as (r' & ? & _). by exists r'. Qed.

Lemma insert_mints new V s : lived V s -> hs (fun r _ s' => minted new r s') (ApiKeys.insert new) V s.
Proof.
  intros Hl. unfold ApiKeys.insert. apply hsafe_now. intros t V1 s1 H1.
  pose proof (lived_extends _ _ _ _ H1 Hl) as Hl1.
  eapply (hsafe_map _ _ (fun r => match r with Ok rec => ApiKeys.row_from_map (row_data rec) | Err e => Err e | Panic => Panic end));
    [by intros []|]. eapply (hsafe_map _ _ (map_err _)); [done|].
  intros V2 s2 H2 r s3 Hc. pose proof (lived_extends _ _ _ _ H2 Hl1) as Hl2.
  destruct Hc as [[-> (e & ->)]|(id & cols & Hid & Hsub & Hcr & -> & Hr)].
  - split; [reflexivity|]. by intros V3 s3 _.
  - pose proof (new_key_view _ _ _ _ Hsub Hcr) as Hv.
    assert (G s2 (set_rows s2 ApiKeys.TABLE (<[id := cols]> (rows s2 ApiKeys.TABLE)))) as HG by by eapply new_key_moves.
    split; [done|]. intros V3 s4 (HG4 & _) record Hrec.
    destruct Hr as [->|(e & -> & _)]; [|done]. simpl in Hrec. unfold ApiKeys.row_from_map, map_opt_str in Hrec.
    cbn [row_of row_data] in Hrec. rewrite (proj1 Hcr) in Hrec. injection Hrec as <-.
    eapply key_at_stable; [eapply moves_accounts_wf; [exact HG|exact (lived_wf _ _ Hl2)]|exact HG4|].
    exists false, cols. rewrite rows_set_rows. by rewrite lookup_insert_eq.
Qed.

Lemma revoke_key_moves id V s : lived V s -> hs (fun _ _ _ => True) (ApiKeys.revoke id) V s.
Proof.
  intros Hl. unfold ApiKeys.revoke. apply hsafe_now. intros t V1 s1 H1.
  pose proof (lived_extends _ _ _ _ H1 Hl) as Hl1.
  eapply (hsafe_map _ _ (fun r => match r with Ok _ => Ok tt | Err e => Err e | Panic => Panic end));
    [by intros []|]. eapply (hsafe_map _ _ (map_err _)); [done|].
  intros V2 s2 H2 r s3 Hc. pose proof (lived_wf _ _ (lived_extends _ _ _ _ H2 Hl1)) as Hwf2.
  split; [|by intros V3 s4 _]. simpl in Hc.
  destruct (rows s2 ApiKeys.TABLE !! id) as [cols|] eqn:Hr; [|by destruct Hc as [-> _]].
  destruct Hc as [[_ [->| ->]]|[_ ->]]; [reflexivity|by apply revoke_id_moves..].
Qed.

(** A key that was handed out was there while the credential passed. *)
Definition handed_out (msg : Message) (s : state)
    (r : outcome OutputStream (ApiKeys.ApiKeyRow * string)) (V : visited) (_ : state) : Prop :=
  forall record key, r = Ok (record, key) ->
    exists c, presented msg = Some c /\
      (minted_before (msg_user_id msg) c s ->
       exists x rev, V x /\ passes (msg_user_id msg) c x /\
         key_at x (ApiKeys.ak_id record) (msg_user_id msg) (sha256_hex_bytes key) rev).

Lemma handed_out_none msg s0 r V s : (forall record key, r <> Ok (record, key)) -> hs (handed_out msg s0) (Done r) V s.
Proof. intros Hr V' s' _ record key Hok. by destruct (Hr record key). Qed.

Lemma create_key_hsafe ff msg body V s : lived V s -> hs (handed_out msg s) (create_key ff msg body) V s.
Proof.
  intros Hl. unfold create_key. cbv zeta.
  destruct (is_empty (msg_user_id msg)); [by apply handed_out_none|].
  destruct body as [body|e|]; [|by apply handed_out_none..].
  cbn [prog_try mbind prog_mbind prog_bind]. destruct (is_empty (cr_name body)); [by apply handed_out_none|].
  apply hsafe_ask. intros now V1 s1 H1. destruct (parse_expiry _ _) as [expires_at|e|]; [|by apply handed_out_none..].
  apply hsafe_ask. intros bytes V2 s2 H2. destruct bytes as [bytes|e|]; [|by apply handed_out_none..].
  pose proof (extends_trans _ _ _ _ _ _ _ H1 H2) as H12.
  pose proof (lived_extends _ _ _ _ H12 Hl) as Hl2. set (key := String.append "sb_" (hex_encode bytes)).
  eapply hsafe_bind; [apply _|by apply insert_mints|]. intros r V3 s3 H3 Hr. cbn beta.
  pose proof (lived_extends _ _ _ _ H3 Hl2) as Hl3. destruct r as [record|e|]; [|by apply handed_out_none..].
  specialize (Hr record eq_refl). cbn [ApiKeys.nk_user_id ApiKeys.nk_key_hash] in Hr.
  pose proof (extends_trans _ _ _ _ _ _ _ H12 H3) as H13.
  eapply hsafe_bind; [apply _|by apply credential_check, (lived_wf _ _ Hl3)|]. intros live V4 s4 H4 Hlive.
  pose proof (lived_extends _ _ _ _ H4 Hl3) as Hl4. destruct live as [[]|e|]; [| | |by apply handed_out_none].
  - intros V5 s5 (_ & _ & Hsub & _) record' key' [= <- <-]. destruct (Hlive eq_refl) as (c & Hc & Hp).
    exists c. split; [done|]. intros Hm.
    destruct (Hp (minted_stable _ c _ _ (lived_wf _ _ Hl) (proj1 H13) Hm)) as (x & Hx & HGx & Hpass).
    destruct (key_at_stable _ _ _ _ _ (lived_wf _ _ Hl3) HGx Hr) as (rev & Hk).
    exists x, rev. split; [by apply Hsub|done].
  - eapply hsafe_bind; [apply _|by apply revoke_key_moves|]. intros r V5 s5 _ _. destruct r; by apply handed_out_none.
  - eapply hsafe_bind; [apply _|by apply revoke_key_moves|]. intros r V5 s5 _ _. by apply handed_out_none.
Qed.

(** ** The handlers together *)
Inductive AccountRequest :=
| MintKey (family_first : bool) (msg : Message) (body : outcome OutputStream CreateApiKeyRequest)
| EndCredentials (user_id : string)
| RevokeKey (msg : Message)
| Aside (p : prog unit).
Inductive Answer :=
| Minted (r : outcome OutputStream (ApiKeys.ApiKeyRow * string))
| Ended (r : WResult unit)
| Other.

Definition run_request (request : AccountRequest) : prog Answer :=
  match request with
  | MintKey family_first msg body => r ← create_key family_first msg body; Done (Minted r)
  | EndCredentials user_id => r ← end_credentials_after_password_change user_id; Done (Ended r)
  | RevokeKey msg => _ ← handle_revoke msg; Done Other
  | Aside p => _ ← p; Done Other
  end.

(** What a request has done once it has answered; an aside writes other
    tables. *)
Definition done_with (s : state) (request : AccountRequest) (answer : Answer) (V : visited) (s' : state) : Prop :=
  match request, answer with
  | MintKey _ msg _, Minted r => handed_out msg s r V s'
  | EndCredentials user, Ended (Ok _) => forall c, minted_before user c s -> keys_ended user c V s'
  | _, _ => True
  end.
Definition aside (request : AccountRequest) : Prop := match request with Aside p => elsewhere p | _ => True end.

Lemma handle_revoke_moves msg V s : lived V s -> hs (fun _ _ _ => True) (handle_revoke msg) V s.
Proof.
  intros Hl. unfold handle_revoke. eapply hsafe_bind; [apply _|apply elsewhere_hsafe|].
  - unfold owned_key. apply elsewhere_try; [done|]. intros id. apply elsewhere_bind.
    + apply elsewhere_bind; [apply elsewhere_call; cbn [written_tables]; apply not_elem_of_nil|done].
    + intros [[key|]|e|]; [|done..]. by destruct (_ && _).
  - intros [id|e|] V1 s1 H1 _; [|by intros V2 s2 _..].
    eapply hsafe_bind; [apply _|by eapply revoke_key_moves, lived_extends|]. intros r V2 s2 _ _. by destruct r; intros V3 s3 _.
Qed.

Lemma run_request_hsafe request V s : lived V s -> aside request -> hs (done_with s request) (run_request request) V s.
Proof.
  intros Hl Ha. destruct request as [ff msg body|user|msg|p]; cbn [run_request].
  - eapply hsafe_map; [done|]. by apply create_key_hsafe.
  - eapply hsafe_map; [done|]. eapply hsafe_weaken; [apply _| |by apply end_credentials_hsafe].
    intros [[]| |] V' s' _ Hr; [exact (Hr eq_refl)|done..].
  - eapply hsafe_map; [done|]. by apply handle_revoke_moves.
  - eapply hsafe_map; [done|]. by apply elsewhere_hsafe.
Qed.

Lemma requests_hsafe requests V s :
  lived V s -> Forall aside requests ->
  Forall2 (fun Q p => hs Q p V s) (map (done_with s) requests) (map run_request requests).
Proof.
  intros Hl Ha. induction Ha as [|r rs Hr _ IH]; [constructor|]. constructor; [by apply run_request_hsafe|done].
Qed.

(** A request of the pool that has answered. *)
Lemma answered_request requests s0 ps s :
  accounts_wf s0 -> Forall aside requests -> rtc pool_step (map run_request requests, s0) (ps, s) ->
  exists V, forall i request answer, requests !! i = Some request -> ps !! i = Some (Done answer) ->
    done_with s0 request answer V s.
Proof.
  intros Hwf Ha Hsteps.
  destruct (hpool G _ (fun x => x = s0) _ _ Hsteps eq_refl (requests_hsafe _ _ _ (lived_start _ Hwf) Ha))
    as (V & (_ & HV & _) & Hall).
  exists V. intros i request answer Hi Hp.
  assert (map (done_with s0) requests !! i = Some (done_with s0 request)) as HQ
    by (change (map (done_with s0) requests) with (done_with s0 <$> requests); by rewrite list_lookup_fmap, Hi).
  exact (Forall2_lookup_lr _ _ _ _ _ _ Hall HQ Hp V s (extends_refl G V s HV)).
Qed.

(** C15. However the requests on an account interleave - minting keys, changing
    the password, revoking keys, requests on other tables - an API key that was
    handed out to a request on a credential of before is revoked once the end
    of the account's credentials has answered [Ok]. *)
Theorem no_key_outlives_its_credential requests s0 ps s i j ff msg body record key c :
  accounts_wf s0 -> Forall aside requests -> rtc pool_step (map run_request requests, s0) (ps, s) ->
  requests !! i = Some (MintKey ff msg body) -> ps !! i = Some (Done (Minted (Ok (record, key)))) ->
  requests !! j = Some (EndCredentials (msg_user_id msg)) -> ps !! j = Some (Done (Ended (Ok tt))) ->
  presented msg = Some c -> minted_before (msg_user_id msg) c s0 ->
  key_at s (ApiKeys.ak_id record) (msg_user_id msg) (sha256_hex_bytes key) true.
Proof.
  intros Hwf Ha Hsteps Hi Hpi Hj Hpj Hc Hm.
  destruct (answered_request _ _ _ _ Hwf Ha Hsteps) as (V & Hdone).
  destruct (Hdone _ _ _ Hi Hpi record key eq_refl) as (c' & Hc' & Hout). simplify_eq.
  destruct (Hout Hm) as (x & rev & Hx & Hpass & Hk). exact (Hdone _ _ _ Hj Hpj c Hm x _ _ _ Hx Hpass Hk).
Qed.
End Safety.

(** ** Witness *)
#[export] Instance sample_iso : IsoFormat := fun _ => "2026-01-01T00:00:00Z".
#[export] Instance sample_iso_laws : IsoLaws.
Proof. done. Qed.

#[local] Instance key_services : Services := fun R q =>
  match q in service R return R with
  | RandomBytes _ => Ok []
  | q => idle_services _ q
  end.

Definition ann_signed_in : state :=
  set_rows (set_rows ∅ Users.TABLE {["ann" := columns_of [("email", VString "ann@shop.test"); ("auth_version", json_i64 3)]]})
    Sessions.TABLE {["laptop" := columns_of
      [("family", VString "laptop"); ("user_id", VString "ann"); ("expires_at", VString "2027-01-01T00:00:00Z")]]}.
Definition ann_message : Message := {|
  sm_action := "create"; sm_path := "/b/auth/api/api-keys"; sm_user := "ann";
  sm_meta := [(META_AUTH_FAMILY, "laptop"); (META_AUTH_VERSION, "3")] |}.
Definition ann_requests : list AccountRequest :=
  [MintKey true ann_message (Ok {| cr_name := "deploy"; cr_expires_at := None |}); EndCredentials "ann"].

(** The check of the new key reads the account before the password change bumps
    its version, and answers after it has ended. *)
Definition ann_run :=
  run_schedule (replicate 7 0 ++ replicate 8 1 ++ replicate 4 0)%nat (map run_request ann_requests, ann_signed_in).

Definition handed (answer : option (prog Answer)) : option (string * string) :=
  match answer with Some (Done (Minted (Ok (record, key)))) => Some (ApiKeys.ak_id record, key) | _ => None end.
Definition ended (answer : option (prog Answer)) : bool :=
  match answer with Some (Done (Ended (Ok _))) => true | _ => false end.

Lemma handed_answer answer id key :
  handed answer = Some (id, key) ->
  exists record, answer = Some (Done (Minted (Ok (record, key)))) /\ ApiKeys.ak_id record = id.
Proof.
  unfold handed. destruct answer as [[[[[record k]|e|]|r|]|R c q]|]; try discriminate.
  intros [= <- <-]. by exists record.
Qed.
Lemma ended_answer answer : ended answer = true -> answer = Some (Done (Ended (Ok tt))).
Proof. unfold ended. by destruct answer as [[[r|[[]|e|]|]|R c q]|]. Qed.

Lemma ann_users : rows ann_signed_in Users.TABLE =
  {["ann" := columns_of [("email", VString "ann@shop.test"); ("auth_version", json_i64 3)]]}.
Proof. unfold ann_signed_in. rewrite rows_set_other, rows_set_rows by done. done. Qed.

Lemma ann_accounts_wf : accounts_wf ann_signed_in.
Proof.
  split; intros id cols.
  - intros Hr. exfalso. revert Hr. unfold ann_signed_in. rewrite !rows_set_other by done. done.
  - intros Hr. change (rows ann_signed_in Users.TABLE !! id = Some cols) in Hr.
    rewrite ann_users, lookup_singleton_Some in Hr. destruct Hr as [_ <-]. exists 3. split; [vm_compute; reflexivity|done].
Qed.

Lemma no_key_outlives_its_credential_witness :
  exists record, ann_run.1 !! 0%nat = Some (Done (Minted (Ok (record, "sb_jti")))) /\
    key_at ann_run.2 (ApiKeys.ak_id record) "ann" "sb_jti" true.
Proof.
  assert (handed (ann_run.1 !! 0%nat) = Some ("row", "sb_jti")) as (record & H0 & _)%handed_answer
    by (vm_compute; reflexivity).
  assert (ended (ann_run.1 !! 1%nat) = true) as H1%ended_answer by (vm_compute; reflexivity).
  exists record. split; [exact H0|].
  refine (no_key_outlives_its_credential eq_refl ann_requests ann_signed_in ann_run.1 ann_run.2 0 1 true ann_message
    (Ok {| cr_name := "deploy"; cr_expires_at := None |}) record "sb_jti" (AccessToken 3)
    ann_accounts_wf _ _ eq_refl H0 eq_refl H1 _ _).
  - by repeat constructor.
  - rewrite <- surjective_pairing. apply run_schedule_steps.
  - vm_compute. reflexivity.
  - exists 3. split; [|lia]. eexists. rewrite ann_users, lookup_singleton_eq. split; [done|]. vm_compute. reflexivity.
Defined.

(** A key whose [revoked_at] is the empty text is not revoked to the check that
    reads it, and the sweep passes it over. *)
Lemma blank_key_outlives_sweep :
  matches (ApiKeys.unrevoked_filters "ann") "k1" (columns_of [("user_id", VString "ann"); ("revoked_at", VString "")]) = false /\
  ApiKeys.is_revoked {| ApiKeys.ak_id := "k1"; ApiKeys.ak_user_id := "ann"; ApiKeys.ak_name := ""; ApiKeys.ak_key_prefix := "";
    ApiKeys.ak_key_hash := ""; ApiKeys.ak_created_at := ""; ApiKeys.ak_expires_at := None;
    ApiKeys.ak_revoked_at := Some "" |} = false.
Proof. split; vm_compute; reflexivity. Qed.
