(* ===== verification/Files.v ===== *)
(** * The files block: objects ([blocks/files/])

    An object is a row of metadata and a blob in storage.  An upload claims its
    key with a row before it stores its bytes under a key of its own, and the
    row says which blob is the object's.  The repository of the rows
    ([repo/objects.rs], [repo/buckets.rs], [repo/quota.rs]), quotas
    ([quota.rs], [models.rs]) and the handlers ([storage/]). *)
From Stdlib Require Import String.
From S2P Require Import Features.
From S2P Require Import Prelude Ints Str Contracts SampleLib Wafer Records Effects Columns Failures DbRead Crud Routing Streaming Serving Multipart.

(** ** Data *)
Inductive ObjectStatus := ObjectPending | ObjectComplete.
#[export] Instance object_status_eq_dec : EqDecision ObjectStatus.
Proof. solve_decision. Defined.
Definition object_status_str (s : ObjectStatus) : string :=
  match s with ObjectPending => "pending" | ObjectComplete => "complete" end.
#[export] Program Instance object_status_wire : Wire ObjectStatus := {|
  wire := object_status_str; wire_parse := parse_variant object_status_str [ObjectPending; ObjectComplete] |}.
Next Obligation. by intros []. Qed.
Next Obligation. intros s t. apply parse_variant_spelling. Qed.

Definition OBJECTS_TABLE : string := "impresspress__files__objects".
Definition BUCKETS_TABLE : string := "impresspress__files__buckets".
Definition QUOTAS_TABLE : string := "impresspress__files__cloud_quotas".
Definition VIEWS_TABLE : string := "impresspress__files__views".

Record QuotaConfig := {
  max_storage_bytes : Z; max_file_size_bytes : Z; max_files_per_bucket : Z
}.
Record ObjectRow := {
  o_id : string; o_bucket : string; o_key : string; o_size : Z; o_content_type : string;
  o_status : ObjectStatus; o_uploaded_by : string; o_uploaded_at : string
}.
Record StoredRow := { sr_row : ObjectRow; sr_claim_id : option string; sr_blob_key : option string }.
Record ReplacedObject := {
  ro_size : Z; ro_content_type : string; ro_uploaded_by : string; ro_uploaded_at : string
}.
Record Reservation := {
  rv_id : string; rv_bucket : string; rv_key : string; rv_claim_id : string;
  rv_replaced : option ReplacedObject; rv_blob_key : string; rv_superseded_blobs : list string
}.
Inductive ReserveError :=
| Held
| HeldByOwnEarlierUpload (since : string)
| OverStorageQuota
| OverFileCount
| ReserveDb (error : WaferError).
Record PendingClaim := {
  pc_bucket : string; pc_key : string; pc_size : Z; pc_content_type : string; pc_uploaded_by : string;
  pc_uploaded_at : string; pc_claim_id : string; pc_quota : QuotaConfig
}.
Inductive Inserted := InsertedRow (id : string) | KeyTaken | InsertRefusedBy (e : ReserveError).
Inductive Completion := Completed | TakenOver | Deleted.

(** ** Validation ([storage/validation.rs]) *)
Definition is_valid_storage_key (key : string) : bool :=
  negb (is_empty key) && negb (contains ".." key) && negb (starts_with "/" key) &&
  negb (contains (bytes [0]) key) && negb (contains (bytes [92]) key).

Definition BUCKET_NAME_MIN_LEN : nat := 3.
Definition BUCKET_NAME_MAX_LEN : nat := 63.
Definition is_bucket_alnum (b : ascii) : bool := is_ascii_lowercase b || is_ascii_digit b.
Definition is_valid_bucket_name (name : string) : bool :=
  let len := String.length name in
  if negb ((BUCKET_NAME_MIN_LEN <=? len)%nat && (len <=? BUCKET_NAME_MAX_LEN)%nat) then false
  else
    let alnum_at i := match str_drop i name with String.String b _ => is_bucket_alnum b | EmptyString => false end in
    if negb (alnum_at 0%nat) || negb (alnum_at (len - 1)%nat) then false
    else str_forall (fun b => is_bucket_alnum b || Ascii.eqb b "-") name.

(** ** Blob keys ([repo/objects.rs]) *)
Definition claim_blob_key (key claim_id : string) : string :=
  match rsplit_once "/" key with
  | Some (dir, name) => concat_chars [dir; "/"; claim_id; "~"; name]
  | None => concat_chars [claim_id; "~"; key]
  end.
Definition object_key_of_blob `{JsonNumbers, Backend} (blob_key : string) : string :=
  let '(dir, name) :=
    match rsplit_once "/" blob_key with Some (dir, name) => (Some dir, name) | None => (None, blob_key) end in
  let name :=
    match split_once "~" name with
    | Some (claim_id, rest) => if is_uuid claim_id then rest else name
    | None => name
    end in
  match dir with Some dir => concat_chars [dir; "/"; name] | None => name end.
Definition stored_blob_key (key : string) (blob_key : option string) : string := default key blob_key.

(** ** Quotas ([models.rs], [quota.rs], [repo/quota.rs]) *)
Definition DEFAULT_MAX_STORAGE_BYTES : Z := 1073741824.
Definition DEFAULT_MAX_FILE_SIZE_BYTES : Z := 104857600.
Definition DEFAULT_MAX_FILES_PER_BUCKET : Z := 10000.
Definition default_quota : QuotaConfig :=
  {| max_storage_bytes := DEFAULT_MAX_STORAGE_BYTES; max_file_size_bytes := DEFAULT_MAX_FILE_SIZE_BYTES;
     max_files_per_bucket := DEFAULT_MAX_FILES_PER_BUCKET |}.
Definition clamp_to_transport (config : QuotaConfig) : QuotaConfig :=
  if MAX_REQUEST_BODY_BYTES <? max_file_size_bytes config
  then {| max_storage_bytes := max_storage_bytes config; max_file_size_bytes := MAX_REQUEST_BODY_BYTES;
          max_files_per_bucket := max_files_per_bucket config |}
  else config.
Definition effective_default : QuotaConfig := clamp_to_transport default_quota.

Section Quotas.
Context {JN : JsonNumbers} {JS : JsonScalars JN}.

(** [QuotaRow::from_record]: the caps of a row. *)
Definition quota_from_record (rec : Row) : QuotaConfig :=
  clamp_to_transport
    {| max_storage_bytes := default DEFAULT_MAX_STORAGE_BYTES (opt_i64_field rec "max_storage_bytes");
       max_file_size_bytes := default DEFAULT_MAX_FILE_SIZE_BYTES (opt_i64_field rec "max_file_size_bytes");
       max_files_per_bucket := default DEFAULT_MAX_FILES_PER_BUCKET (opt_i64_field rec "max_files_per_bucket") |}.
Definition find_for_user (user_id : string) : prog (WResult QuotaConfig) :=
  r ←? do_call (GetByField QUOTAS_TABLE "user_id" (VString user_id));
  Done (Ok (quota_from_record r)).
Definition get_user_quota (user_id : string) : prog (WResult QuotaConfig) :=
  r ← find_for_user user_id;
  Done match r with
       | Ok config => Ok config
       | Err e => if bool_decide (we_code e = NotFound) then Ok effective_default else Err e
       | Panic => Panic
       end.
End Quotas.

(** ** Rows of objects *)
Section Objects.
Context {JN : JsonNumbers} {JS : JsonScalars JN} {DF : DebugFmt}.

Definition object_from_record (rec : Row) : WResult ObjectRow :=
  status ← enum_column_or rec "status" ObjectComplete;
  Ok {| o_id := row_id rec; o_bucket := str_field rec "bucket"; o_key := str_field rec "key";
        o_size := i64_field rec "size"; o_content_type := str_field rec "content_type"; o_status := status;
        o_uploaded_by := str_field rec "uploaded_by"; o_uploaded_at := str_field rec "uploaded_at" |}.
Definition stored_row (rec : Row) : WResult StoredRow :=
  row ← object_from_record rec;
  Ok {| sr_row := row; sr_claim_id := opt_str_field rec "claim_id"; sr_blob_key := opt_str_field rec "blob_key" |}.
(** [StoredRow::blobs] *)
Definition row_blobs (r : StoredRow) : list string :=
  let blobs := [stored_blob_key (o_key (sr_row r)) (sr_blob_key r)] in
  let add blob blobs := if existsb (String.eqb blob) blobs then blobs else blobs ++ [blob] in
  let blobs := add (o_key (sr_row r)) blobs in
  match sr_claim_id r with
  | Some claim_id => add (claim_blob_key (o_key (sr_row r)) claim_id) blobs
  | None => blobs
  end.

(** *** Filters *)
Definition status_is (status : ObjectStatus) : Filter := eq_filter "status" (VString (wire status)).
Definition bucket_key_filters (bucket key : string) : list Filter :=
  [eq_filter "bucket" (VString bucket); eq_filter "key" (VString key)].
Definition owned_objects_filter (user_id : string) : list Filter := [eq_filter "uploaded_by" (VString user_id)].
Definition still_claimed_by (id : string) (claim_id : option string) : list Filter :=
  [eq_filter "id" (VString id);
   match claim_id with
   | Some claim_id => eq_filter "claim_id" (VString claim_id)
   | None => {| field := "claim_id"; operator := OpIsNull; value := VNull |}
   end].

(** *** Reads *)
Definition rows_of_key (bucket key : string) : prog (WResult (list Row)) :=
  list_bounded OBJECTS_TABLE (bucket_key_filters bucket key) (UniqueKey "idx_objects_bucket_key on (bucket, key)").
(** [records.first().map(f).transpose()] *)
Definition first_row {A} (f : Row -> WResult A) (records : list Row) : WResult (option A) :=
  match records with
  | [] => Ok None
  | rec :: _ => a ← f rec; Ok (Some a)
  end.
Definition find_stored (bucket key : string) : prog (WResult (option StoredRow)) :=
  records ←? rows_of_key bucket key; Done (first_row stored_row records).
Definition find_by_bucket_key (bucket key : string) : prog (WResult (option ObjectRow)) :=
  records ←? rows_of_key bucket key; Done (first_row object_from_record records).
Definition find_blob_key (bucket key : string) : prog (WResult (option string)) :=
  found ←? find_stored bucket key;
  Done (Ok ((fun r => stored_blob_key key (sr_blob_key r)) <$> found)).

Definition PENDING_RESERVATION_TTL_SECONDS : Z := 3600.
Definition pending_reservation_cutoff : prog string := ask (Rfc3339Before PENDING_RESERVATION_TTL_SECONDS).

(** *** Claiming a key *)
Definition STORAGE_GUARD : nat := 0.
Definition FILE_COUNT_GUARD : nat := 1.
Definition pc_blob_key (c : PendingClaim) : string := claim_blob_key (pc_key c) (pc_claim_id c).
Definition quota_guards (claim : PendingClaim) (replacing : option ObjectRow) : list CapGuard :=
  let owned := owned_objects_filter (pc_uploaded_by claim) ++
    match replacing with
    | Some row => [{| field := "id"; operator := OpNotEqual; value := VString (o_id row) |}]
    | None => []
    end in
  let replaces_own :=
    match replacing with Some row => String.eqb (o_uploaded_by row) (pc_uploaded_by claim) | None => false end in
  let size := if in_i64 (pc_size claim) then pc_size claim else i64_max in
  SumAtMost "size" owned size (max_storage_bytes (pc_quota claim)) ::
  (if (0 <? max_files_per_bucket (pc_quota claim)) && negb replaces_own
   then [CountBelow (owned ++ [eq_filter "bucket" (VString (pc_bucket claim))]) (max_files_per_bucket (pc_quota claim))]
   else []).
Definition refused_by (guard : nat) : ReserveError :=
  match guard with
  | 0%nat => OverStorageQuota
  | 1%nat => OverFileCount
  | other => ReserveDb (wafer_error Internal
      (concat_chars ["an upload reservation was refused by guard "; dec (Z.of_nat other); ", which it did not set"]))
  end.

Definition insert_data (claim : PendingClaim) (id now : string) : columns := columns_of
  [("id", VString id); ("bucket", VString (pc_bucket claim)); ("key", VString (pc_key claim));
   ("size", json_i64 (pc_size claim)); ("content_type", VString (pc_content_type claim));
   ("status", VString (wire ObjectPending)); ("uploaded_by", VString (pc_uploaded_by claim));
   ("uploaded_at", VString (pc_uploaded_at claim)); ("claim_id", VString (pc_claim_id claim));
   ("blob_key", VString (pc_blob_key claim)); ("created_at", VString now); ("updated_at", VString now)].
Definition insert_reservation (claim : PendingClaim) : prog (WResult Inserted) :=
  id ← do_call FreshId;
  now ← now_rfc3339;
  r ← do_call (InsertGuarded OBJECTS_TABLE (insert_data claim id now) (quota_guards claim None));
  Done match r with
       | Ok GuardInserted => Ok (InsertedRow id)
       | Ok (InsertRefused guard) => Ok (InsertRefusedBy (refused_by guard))
       | Err e => if bool_decide (we_code e = AlreadyExists) then Ok KeyTaken else Err e
       | Panic => Panic
       end.

(** What a take-over makes of the row as it was read: the object it replaces,
    or why the key is not free. *)
Definition replaced_object (row : ObjectRow) (claim : PendingClaim) : prog (outcome ReserveError (option ReplacedObject)) :=
  match o_status row with
  | ObjectComplete =>
      Done (Ok (Some {| ro_size := o_size row; ro_content_type := o_content_type row;
                        ro_uploaded_by := o_uploaded_by row; ro_uploaded_at := o_uploaded_at row |}))
  | ObjectPending =>
      cutoff ← pending_reservation_cutoff;
      Done (if String.ltb (o_uploaded_at row) cutoff then Ok None
            else if String.eqb (o_uploaded_by row) (pc_uploaded_by claim)
            then Err (HeldByOwnEarlierUpload (o_uploaded_at row))
            else Err Held)
  end.
Definition take_over_data (claim : PendingClaim) (orphan : bool) : columns := columns_of
  ([("size", json_i64 (pc_size claim)); ("content_type", VString (pc_content_type claim));
    ("status", VString (wire ObjectPending)); ("uploaded_by", VString (pc_uploaded_by claim));
    ("uploaded_at", VString (pc_uploaded_at claim)); ("updated_at", VString (pc_uploaded_at claim));
    ("claim_id", VString (pc_claim_id claim))] ++
   unless (negb orphan) [("blob_key", VString (pc_blob_key claim))]).
Definition as_read (existing : StoredRow) (now : option StoredRow) : bool :=
  match now with
  | Some now => String.eqb (o_id (sr_row now)) (o_id (sr_row existing)) && bool_decide (sr_claim_id now = sr_claim_id existing)
  | None => false
  end.
Definition claim_existing (existing : StoredRow) (claim : PendingClaim) : prog (outcome ReserveError Reservation) :=
  let row := sr_row existing in
  let guards := quota_guards claim (Some row) in
  replaced ←? replaced_object row claim;
  let data := take_over_data claim (bool_decide (replaced = None)) in
  let unchanged := still_claimed_by (o_id row) (sr_claim_id existing) in
  let? written := do_call (UpdateGuarded OBJECTS_TABLE unchanged data guards) else ReserveDb in
  match written with
  | GuardUpdated _ =>
      Done (Ok {| rv_id := o_id row; rv_bucket := pc_bucket claim; rv_key := pc_key claim;
                  rv_claim_id := pc_claim_id claim; rv_blob_key := pc_blob_key claim; rv_replaced := replaced;
                  rv_superseded_blobs := row_blobs existing |})
  | UpdateRefused guard =>
      let? now := find_stored (pc_bucket claim) (pc_key claim) else ReserveDb in
      Done (Err (if as_read existing now then refused_by guard else Held))
  | UpdateNoMatch => Done (Err Held)
  end.

Definition reserve_upload (bucket key : string) (size : Z) (content_type uploaded_by : string) (quota : QuotaConfig)
  : prog (outcome ReserveError Reservation) :=
  uploaded_at ← now_rfc3339;
  claim_id ← do_call FreshId;
  let claim := {| pc_bucket := bucket; pc_key := key; pc_size := size; pc_content_type := content_type;
                  pc_uploaded_by := uploaded_by; pc_uploaded_at := uploaded_at; pc_claim_id := claim_id;
                  pc_quota := quota |} in
  let? existing := find_stored bucket key else ReserveDb in
  match existing with
  | Some existing => claim_existing existing claim
  | None =>
      let? inserted := insert_reservation claim else ReserveDb in
      let retry not_inserted :=
        let? existing := find_stored bucket key else ReserveDb in
        match existing with
        | Some existing => claim_existing existing claim
        | None => Done (Err not_inserted)
        end in
      match inserted with
      | InsertedRow id =>
          Done (Ok {| rv_id := id; rv_bucket := bucket; rv_key := key; rv_blob_key := pc_blob_key claim;
                      rv_claim_id := claim_id; rv_replaced := None; rv_superseded_blobs := [] |})
      | KeyTaken => retry Held
      | InsertRefusedBy refusal => retry refusal
      end
  end.

(** *** Settling a claim *)
Definition claim_lost : WaferError := wafer_error (OtherCode "Aborted") "the upload's reservation of this key was taken over".

(** The blobs a failed upload deletes once its row is settled. *)
Definition blobs_released_by_rollback (r : Reservation) : list string :=
  rv_blob_key r :: match rv_replaced r with None => rv_superseded_blobs r | Some _ => [] end.
Definition restore_data (previous : ReplacedObject) : columns := columns_of
  [("size", json_i64 (ro_size previous)); ("content_type", VString (ro_content_type previous));
   ("status", VString (wire ObjectComplete)); ("uploaded_by", VString (ro_uploaded_by previous));
   ("uploaded_at", VString (ro_uploaded_at previous))].
Definition release_reservation (reservation : Reservation) : prog (WResult unit) :=
  let mine := still_claimed_by (rv_id reservation) (Some (rv_claim_id reservation)) in
  touched ←? match rv_replaced reservation with
             | None => do_call (DeleteByFiltersCount OBJECTS_TABLE mine)
             | Some previous => do_call (UpdateByFiltersCount OBJECTS_TABLE mine (restore_data previous))
             end;
  Done (if touched =? 0 then Err claim_lost else Ok tt).

Definition complete_data (reservation : Reservation) : columns := columns_of
  [("status", VString (wire ObjectComplete)); ("blob_key", VString (rv_blob_key reservation))].
Definition mark_complete (reservation : Reservation) : prog (WResult Completion) :=
  let mine := still_claimed_by (rv_id reservation) (Some (rv_claim_id reservation)) in
  touched ←? do_call (UpdateByFiltersCount OBJECTS_TABLE mine (complete_data reservation));
  if 0 <? touched then Done (Ok Completed)
  else
    found ←? find_by_bucket_key (rv_bucket reservation) (rv_key reservation);
    Done (Ok match found with Some _ => TakenOver | None => Deleted end).

Definition unchanged_filters (stored : StoredRow) : list Filter :=
  still_claimed_by (o_id (sr_row stored)) (sr_claim_id stored) ++ [status_is (o_status (sr_row stored))].
Definition delete_if_unchanged (stored : StoredRow) : prog (WResult bool) :=
  deleted ←? do_call (DeleteByFiltersCount OBJECTS_TABLE (unchanged_filters stored));
  Done (Ok (0 <? deleted)).

Fixpoint collect_rows {A} (f : Row -> WResult A) (records : list Row) : WResult (list A) :=
  match records with
  | [] => Ok []
  | rec :: records => a ← f rec; l ← collect_rows f records; Ok (a :: l)
  end.
Definition list_stale_pending (user_id cutoff : string) (limit : nat) : prog (WResult (list StoredRow)) :=
  page ←? do_call (ListPage OBJECTS_TABLE
    (owned_objects_filter user_id ++
     [status_is ObjectPending; {| field := "uploaded_at"; operator := OpLessThan; value := VString cutoff |}])
    "uploaded_at" false limit 0);
  Done (collect_rows stored_row page.1).
End Objects.

(** ** Blobs and the sweep *)
Section Sweeps.
Context {JN : JsonNumbers} {JS : JsonScalars JN} {DF : DebugFmt}.

(** Best effort: every failure is logged. *)
Fixpoint delete_blobs (bucket : string) (blobs : list string) : prog unit :=
  match blobs with
  | [] => Done tt
  | blob :: blobs => _ ← do_call (StoreDelete bucket blob); delete_blobs bucket blobs
  end.

Definition STALE_SWEEP_BATCH : nat := 10.
Fixpoint sweep_rows (stale : list StoredRow) : prog unit :=
  match stale with
  | [] => Done tt
  | row :: stale =>
      deleted ← delete_if_unchanged row;
      _ ← match deleted with
          | Ok true => delete_blobs (o_bucket (sr_row row)) (row_blobs row)
          | _ => Done tt
          end;
      sweep_rows stale
  end.
Definition sweep_stale_pending (user_id : string) : prog unit :=
  cutoff ← pending_reservation_cutoff;
  stale ← list_stale_pending user_id cutoff STALE_SWEEP_BATCH;
  match stale with Ok rows => sweep_rows rows | _ => Done tt end.
End Sweeps.

(** ** Access ([storage/access.rs], [storage/params.rs], [repo/buckets.rs]) *)
Section Handlers.
Context {JN : JsonNumbers} {JS : JsonScalars JN} {DF : DebugFmt} {MS : Messages} {RM : ResponseMeta} {PE : PathEncode}.

Definition extract_bucket_name (msg : Message) : outcome OutputStream string := path_var msg "name" "Missing bucket name".
Definition extract_object_key (msg : Message) : outcome OutputStream string := path_var msg "key" "Missing object key".

(** [find_owned]: of the row the callers need its presence. *)
Definition bucket_owned_by (user_id bucket : string) : prog (WResult bool) :=
  records ←? list_bounded BUCKETS_TABLE
    [eq_filter "name" (VString bucket); eq_filter "created_by" (VString user_id)]
    (UniqueKey "buckets.name is declared UNIQUE");
  Done (Ok (bool_decide (records <> []))).
Definition require_bucket_access (msg : Message) (bucket : string) : prog (outcome OutputStream unit) :=
  if is_admin msg then Done (Ok tt)
  else
    let? owned := bucket_owned_by (msg_user_id msg) bucket
      else (fun e => db_error_internal e "Bucket ownership check failed") in
    Done (if owned then Ok tt else Err (err_forbidden "Access denied to this bucket")).

(** ** Uploads ([storage/objects.rs]) *)
Inductive CappedBodyError := TooLarge | BodyError (e : WaferError).
(** A cap that is not positive is none. *)
Fixpoint collect_loop (cap : option Z) (out : string) (input : list (WResult string)) : outcome CappedBodyError string :=
  match input with
  | [] => Ok out
  | chunk :: input =>
      chunk ← map_err BodyError chunk;
      if match cap with Some cap => cap <? str_len out + str_len chunk | None => false end then Err TooLarge
      else collect_loop cap (String.append out chunk) input
  end.
Definition collect_with_cap (input : list (WResult string)) (cap_bytes : Z) : outcome CappedBodyError string :=
  collect_loop (if cap_bytes <=? 0 then None else Some cap_bytes) "" input.

(** [wafer_core::mime]: the type by the extension of a key. *)
Context (mime_for_key : string -> string).

(** What is stored, under which key, as what. *)
Definition upload_content (is_multipart : bool) (request_content_type query_key body_bytes : string)
  : outcome OutputStream (string * string * string) :=
  if is_multipart then
    file ← ok_or (extract_multipart_file body_bytes request_content_type)
             (err_bad_request "Multipart body contains no file part");
    let key := if is_empty query_key then default "" (mp_filename file) else query_key in
    if is_empty key then Err (err_bad_request "Missing object key (pass as ?key=filename)")
    else if negb (is_valid_storage_key key) then Err (err_bad_request "Invalid object key")
    else
      let content_type :=
        match mp_content_type file with
        | Some ct => if is_empty ct then mime_for_key key else ct
        | None => mime_for_key key
        end in
      Ok (mp_content file, key, content_type)
  else Ok (body_bytes, query_key, if is_empty request_content_type then FALLBACK_CONTENT_TYPE else request_content_type).

Definition reserve_refusal (quota : QuotaConfig) (e : ReserveError) : OutputStream :=
  match e with
  | OverStorageQuota => err_bad_request "Storage quota exceeded"
  | OverFileCount =>
      err_bad_request (concat_chars ["File count limit reached for this bucket (max "; dec (max_files_per_bucket quota); ")"])
  | Held => err_conflict "Another upload of this key is in progress; retry once it finishes"
  | HeldByOwnEarlierUpload since =>
      err_conflict (concat_chars
        ["Your earlier upload of this key, started at "; since;
         ", has not been recorded: it is still in progress, or it was stored but could not be recorded. The key is released ";
         dec (PENDING_RESERVATION_TTL_SECONDS / 60); " minutes after that upload started; retry then"])
  | ReserveDb e => db_error_internal e "Failed to reserve upload slot"
  end.

Definition finish_upload (bucket key : string) (reservation : Reservation) : prog (outcome OutputStream OutputStream) :=
  completion ← mark_complete reservation;
  match completion with
  | Ok Completed =>
      _ ← delete_blobs bucket (rv_superseded_blobs reservation);
      Done (Ok (ok_json (VObject [("bucket", VString bucket); ("key", VString key); ("uploaded", VBool true)])))
  | Ok TakenOver =>
      _ ← delete_blobs bucket [rv_blob_key reservation];
      Done (Err (err_conflict "Another upload now holds this key, so this upload was not recorded; retry"))
  | Ok Deleted =>
      _ ← delete_blobs bucket [rv_blob_key reservation];
      Done (Err (err_conflict
        "The object or its bucket was deleted while this upload was in progress, so the upload was not recorded"))
  | Err e => Done (Err (db_error_internal e "Upload stored but could not be recorded"))
  | Panic => Done Panic
  end.
Definition abandon_upload (bucket : string) (reservation : Reservation) (e : WaferError)
  : prog (outcome OutputStream OutputStream) :=
  released ← release_reservation reservation;
  match released with
  | Ok tt => _ ← delete_blobs bucket (blobs_released_by_rollback reservation); Done (Err (db_error_internal e "Upload failed"))
  | Err _ => _ ← delete_blobs bucket [rv_blob_key reservation]; Done (Err (db_error_internal e "Upload failed"))
  | Panic => Done Panic
  end.
(** The claim, the blob and the row, in that order. *)
Definition store_object (user_id bucket content key content_type : string) (quota : QuotaConfig)
  : prog (outcome OutputStream OutputStream) :=
  let? reservation := reserve_upload bucket key (str_len content) content_type user_id quota
    else reserve_refusal quota in
  stored ← do_call (StorePut bucket (rv_blob_key reservation) content content_type);
  match stored with
  | Ok _ => finish_upload bucket key reservation
  | Err e => abandon_upload bucket reservation e
  | Panic => Done Panic
  end.

Definition handle_upload_object (msg : Message) (input : list (WResult string)) : prog (outcome OutputStream OutputStream) :=
  bucket ←! extract_bucket_name msg;
  let request_content_type := get_meta msg "req.content_type" in
  let is_multipart := bool_decide (is_Some (multipart_boundary request_content_type)) in
  let query_key := msg_query msg "key" in
  if is_empty query_key && negb is_multipart
  then Done (Err (err_bad_request "Missing object key (pass as ?key=filename)"))
  else if negb (is_empty query_key) && negb (is_valid_storage_key query_key)
  then Done (Err (err_bad_request "Invalid object key"))
  else
    _ ←? require_bucket_access msg bucket;
    _ ← sweep_stale_pending (msg_user_id msg);
    let? quota := get_user_quota (msg_user_id msg) else (fun e => db_error_internal e "Quota lookup failed") in
    body_bytes ←! map_err (fun e => match e with
        | TooLarge => err_bad_request
            (concat_chars ["File exceeds maximum size of "; dec (max_file_size_bytes quota); " bytes"])
        | BodyError e => OutputError e
        end) (collect_with_cap input (max_file_size_bytes quota));
    found ←! upload_content is_multipart request_content_type query_key body_bytes;
    let '(content, key, content_type) := found in
    store_object (msg_user_id msg) bucket content key content_type quota.

(** ** Deletes and downloads *)
Definition DELETE_ATTEMPTS : nat := 3.
Fixpoint delete_rounds (attempts : nat) (bucket key : string) : prog (outcome OutputStream OutputStream) :=
  match attempts with
  | O => Done (Err (err_conflict "The object changed while it was being deleted; retry"))
  | S attempts =>
      let? stored := find_stored bucket key else (fun e => db_error_internal e "Object lookup failed") in
      match stored with
      | None => Done (Err (err_not_found "Object not found"))
      | Some stored =>
          let? deleted := delete_if_unchanged stored else (fun e => db_error_internal e "Delete failed") in
          if deleted then
            _ ← delete_blobs bucket (row_blobs stored);
            Done (Ok (ok_json (VObject [("deleted", VBool true)])))
          else delete_rounds attempts bucket key
      end
  end.
Definition handle_delete_object (msg : Message) : prog (outcome OutputStream OutputStream) :=
  bucket ←! extract_bucket_name msg;
  key ←! extract_object_key msg;
  if negb (is_valid_storage_key key) then Done (Err (err_bad_request "Invalid object key"))
  else
    _ ←? require_bucket_access msg bucket;
    delete_rounds DELETE_ATTEMPTS bucket key.

(** [views::insert]: its failure is logged. *)
Definition insert_view (bucket key user_id : string) : prog (WResult Row) :=
  now ← now_rfc3339;
  do_call (Create VIEWS_TABLE (columns_of
    [("bucket", VString bucket); ("key", VString key); ("user_id", VString user_id); ("viewed_at", VString now)])).

(** A download as it arrives whole: the leading metadata as headers. *)
Definition stream_download (content : string) (leading : list (string * string)) : OutputStream :=
  Respond {| status := 200; cookies := [];
             headers := leading ++ [(META_RESP_CONTENT_LENGTH, dec (str_len content))]; body := Bytes content "" |}.
Definition handle_get_object (msg : Message) : prog (outcome OutputStream OutputStream) :=
  bucket ←! extract_bucket_name msg;
  key ←! extract_object_key msg;
  if negb (is_valid_storage_key key) then Done (Err (err_bad_request "Invalid object key"))
  else
    _ ←? require_bucket_access msg bucket;
    _ ← insert_view bucket key (msg_user_id msg);
    let? found := find_blob_key bucket key else (fun e => db_error_internal e "Object lookup failed") in
    match found with
    | None => Done (Err (err_not_found "Object not found"))
    | Some blob_key =>
        let? stream := do_call (StoreGet bucket blob_key) else (fun e => db_error e "Object not found" "Storage error") in
        Done (Ok (stream_download stream.1 (user_object_leading_meta stream.2 key [])))
    end.
End Handlers.
