(* ===== verification/Claims.v ===== *)
(** * Claims on objects

    The bookkeeping behind the upload protocol of the files block, apart from
    the calls that carry it out: the objects a table describes, the blobs in
    storage, the identifiers drawn, and what each running handler knows and is
    entitled to.  A stored object's bytes are in storage, and every step that a
    handler may take keeps it so. *)
From Stdlib Require Import String.
From S2P Require Import Prelude Ints Str Files.

(** What a row says. *)
Record Obj := {
  ob_bucket : string; ob_key : string; ob_status : ObjectStatus;
  ob_claim : option string; ob_blob : option string; ob_size : Z
}.
Definition ob_name (o : Obj) : string := stored_blob_key (ob_key o) (ob_blob o).

(** The claim a handler holds: an identifier that no row carries yet, or the
    claim of a row, with the size of the object it replaces if it does, whether
    its bytes are stored, and the blobs it supersedes. *)
Record Holding := {
  h_claim : string; h_id : string; h_bucket : string; h_key : string; h_size : Z;
  h_replaced : option Z; h_stored : bool; h_superseded : list string
}.
Definition with_stored (stored : bool) (h : Holding) : Holding :=
  {| h_claim := h_claim h; h_id := h_id h; h_bucket := h_bucket h; h_key := h_key h; h_size := h_size h;
     h_replaced := h_replaced h; h_stored := stored; h_superseded := h_superseded h |}.
Inductive Own := NoClaim | Drawn (claim : string) | Holds (h : Holding).
Definition own_claim (w : Own) : option string :=
  match w with NoClaim => None | Drawn c => Some c | Holds h => Some (h_claim h) end.

(** A handler: its claim, the rows as it read them, and the blobs, by bucket,
    that it may delete. *)
Record Handler := { own : Own; facts : list (string * Obj); rights : list (string * string) }.
Definition idle : Handler := {| own := NoClaim; facts := []; rights := [] |}.

Section Claims.
Context (B : string -> string -> string) (uuid plain : string -> Prop).
Hypothesis B_inj : forall k k' c c', uuid c -> uuid c' -> B k c = B k' c' -> k = k' /\ c = c'.
Hypothesis B_not_plain : forall k c, uuid c -> plain (B k c) -> False.
Implicit Types (objs : gmap string Obj) (o : Obj) (drawn : string -> Prop) (w : Own) (l : Handler).

Definition stored_at (blob : string -> string -> option string) (bucket name : string) (size : Z) : Prop :=
  exists content, blob bucket name = Some content /\ str_len content = size.
Definition known drawn (c : string) : Prop := uuid c /\ drawn c.
Definition is_drawn (ls : list Handler) (c : string) : Prop := exists l, l ∈ ls /\ own l = Drawn c.
Definition held (ls : list Handler) (c : string) : Prop := exists l, l ∈ ls /\ own_claim (own l) = Some c.
(** No row carries the claim. *)
Definition gone objs (c : string) : Prop := forall id o, objs !! id = Some o -> ob_claim o <> Some c.

Definition obj_ok drawn o : Prop :=
  plain (ob_key o) /\ (forall c, ob_claim o = Some c -> known drawn c) /\
  (forall b, ob_blob o = Some b -> exists c, known drawn c /\ b = B (ob_key o) c).

Definition own_ok objs blob drawn (taken : string -> Prop) w : Prop :=
  match w with
  | NoClaim => True
  | Drawn c => known drawn c /\ gone objs c /\ forall id o, objs !! id = Some o -> ob_blob o <> Some (B (ob_key o) c)
  | Holds h =>
      let c := h_claim h in
      known drawn c /\ plain (h_key h) /\
      (forall id o, objs !! id = Some o -> ob_claim o = Some c ->
         id = h_id h /\ ob_bucket o = h_bucket h /\ ob_key o = h_key h /\ ob_status o = ObjectPending /\ ob_size o = h_size h /\
         match h_replaced h with
         | Some size => ob_blob o <> Some (B (h_key h) c) /\ stored_at blob (h_bucket h) (ob_name o) size
         | None => ob_blob o = Some (B (h_key h) c)
         end /\
         (h_stored h = true -> stored_at blob (h_bucket h) (B (h_key h) c) (h_size h))) /\
      (forall id o, objs !! id = Some o -> ob_blob o = Some (B (ob_key o) c) -> ob_claim o = Some c) /\
      (forall b, b ∈ h_superseded h ->
         b = h_key h \/ exists c', known drawn c' /\ b = B (h_key h) c' /\ c' <> c /\ ~ taken c' /\ gone objs c')
  end.

(** A row as it was read, against the row there is. *)
Definition fact_ok objs drawn (taken : string -> Prop) (p : string * Obj) : Prop :=
  let f := p.2 in
  obj_ok drawn f /\ (forall c, ob_claim f = Some c -> ~ taken c) /\
  (forall c, ob_blob f = Some (B (ob_key f) c) -> uuid c -> ~ taken c /\
     forall id o, objs !! id = Some o -> ob_claim o = Some c -> id = p.1 /\ ob_claim f = Some c) /\
  (forall c id o, ob_claim f = Some c -> objs !! id = Some o -> ob_claim o = Some c -> id = p.1) /\
  (forall o, objs !! p.1 = Some o -> ob_claim o = ob_claim f ->
     ob_bucket o = ob_bucket f /\ ob_key o = ob_key f /\ (ob_status o = ob_status f -> o = f) /\
     (ob_status f = ObjectComplete -> ob_status o = ObjectComplete)).

(** A blob that may go: nothing serves it or will. *)
Definition right_ok objs drawn (taken reserved : string -> Prop) (p : string * string) : Prop :=
  exists key, plain key /\
    (p.2 = key \/ exists c, known drawn c /\ p.2 = B key c /\ ~ taken c /\ (gone objs c \/ ~ reserved c)) /\
    forall id o, objs !! id = Some o -> ob_bucket o = p.1 -> ob_name o = p.2 ->
      ob_status o = ObjectPending /\ exists c, p.2 = B key c /\ known drawn c /\ ob_claim o = Some c /\ ~ reserved c.

(** What the rows promise, and what the handlers do. *)
Record rows_ok objs blob drawn : Prop := {
  ro_obj : forall id o, objs !! id = Some o -> obj_ok drawn o;
  ro_key : forall id id' o o', objs !! id = Some o -> objs !! id' = Some o' ->
    ob_bucket o = ob_bucket o' -> ob_key o = ob_key o' -> id = id';
  ro_claim : forall id id' o o' c, objs !! id = Some o -> objs !! id' = Some o' ->
    ob_claim o = Some c -> ob_claim o' = Some c -> id = id';
  ro_named : forall id id' o o' c, objs !! id = Some o -> ob_blob o = Some (B (ob_key o) c) -> uuid c ->
    objs !! id' = Some o' -> ob_claim o' = Some c -> id = id';
  ro_stored : forall id o, objs !! id = Some o -> ob_status o = ObjectComplete ->
    stored_at blob (ob_bucket o) (ob_name o) (ob_size o);
}.
Record claims_ok objs blob drawn (ls : list Handler) : Prop := {
  co_rows : rows_ok objs blob drawn;
  co_own : Forall (fun l => own_ok objs blob drawn (is_drawn ls) (own l)) ls;
  co_distinct : NoDup (omap (fun l => own_claim (own l)) ls);
  co_facts : Forall (fun l => Forall (fact_ok objs drawn (is_drawn ls)) (facts l)) ls;
  co_rights : Forall (fun l => Forall (right_ok objs drawn (is_drawn ls) (held ls)) (rights l)) ls;
}.

(** ** The claims of a pool *)
Lemma is_drawn_cons l ls c : is_drawn (l :: ls) c <-> own l = Drawn c \/ is_drawn ls c.
Proof.
  unfold is_drawn. split.
  - intros (l' & [->|Hin]%elem_of_cons & Hc); [by left|right; by exists l'].
  - intros [Hc|(l' & Hin & Hc)]; [exists l|exists l']; (split; [|done]); [by left|by right].
Qed.
Lemma held_cons l ls c : held (l :: ls) c <-> own_claim (own l) = Some c \/ held ls c.
Proof.
  unfold held. split.
  - intros (l' & [->|Hin]%elem_of_cons & Hc); [by left|right; by exists l'].
  - intros [Hc|(l' & Hin & Hc)]; [exists l|exists l']; (split; [|done]); [by left|by right].
Qed.
Lemma drawn_held ls c : is_drawn ls c -> held ls c.
Proof. intros (l & Hl & Hc). exists l. split; [done|]. by rewrite Hc. Qed.
Lemma distinct_head l ls : NoDup (omap (fun l => own_claim (own l)) (l :: ls)) ->
  (forall c, own_claim (own l) = Some c -> ~ held ls c) /\ NoDup (omap (fun l => own_claim (own l)) ls).
Proof.
  simpl. destruct (own_claim (own l)) as [c|]; [|by split].
  intros [Hn Hd]%NoDup_cons. split; [|done]. intros c' [= <-] (l' & Hin & Hc). apply Hn, list_elem_of_omap. by exists l'.
Qed.
Lemma distinct_cons l ls : (forall c, own_claim (own l) = Some c -> ~ held ls c) ->
  NoDup (omap (fun l => own_claim (own l)) ls) -> NoDup (omap (fun l => own_claim (own l)) (l :: ls)).
Proof.
  intros Hc Hd. simpl. destruct (own_claim (own l)) as [c|]; [|done]. apply NoDup_cons. split; [|done].
  intros (l' & Hin & Hl)%list_elem_of_omap. apply (Hc c); [done|]. by exists l'.
Qed.

(** More identifiers drawn, fewer claims waiting. *)
Lemma known_mono drawn drawn' c : (forall c, drawn c -> drawn' c) -> known drawn c -> known drawn' c.
Proof. intros Hd [Hu Hc]. split; [done|by apply Hd]. Qed.
Lemma obj_ok_mono drawn drawn' o : (forall c, drawn c -> drawn' c) -> obj_ok drawn o -> obj_ok drawn' o.
Proof.
  intros Hd (Hk & Hc & Hb). split; [done|]. split.
  - intros c Ho. eapply known_mono; [done|by apply Hc].
  - intros b Ho. destruct (Hb b Ho) as (c & Hc' & ->). exists c. split; [by eapply known_mono|done].
Qed.
Section Mono.
Context objs (blob : string -> string -> option string) (drawn drawn' taken taken' reserved reserved' : string -> Prop).
Hypothesis Hdrawn : forall c, drawn c -> drawn' c.
Hypothesis Htaken : forall c, known drawn c -> taken' c -> taken c.
Hypothesis Hreserved : forall c, known drawn c -> reserved' c -> reserved c.

Lemma own_ok_mono w : own_ok objs blob drawn taken w -> own_ok objs blob drawn' taken' w.
Proof.
  destruct w as [|c|h]; simpl; [done| |].
  - intros (Hk & Hg & Hb). split; [by eapply known_mono|done].
  - intros (Hk & Hp & H3 & H4 & H5). split; [by eapply known_mono|]. do 3 (split; [done|]).
    intros b Hb. destruct (H5 b Hb) as [->|(c & Hc & -> & Hne & Ht & Hg)]; [by left|]. right. exists c.
    split; [by eapply known_mono|]. split; [done|]. split; [done|]. split; [|done]. intros Hc'. by apply Ht, Htaken.
Qed.
Lemma fact_ok_mono p : fact_ok objs drawn taken p -> fact_ok objs drawn' taken' p.
Proof.
  intros (Hok & H1 & H2 & H3 & H4). pose proof Hok as (_ & Hk & Hb). split; [by eapply obj_ok_mono|]. split; [|split; [|done]].
  - intros c Hc Ht. apply (H1 c Hc), Htaken; [by apply Hk|done].
  - intros c Hc Hu. destruct (H2 c Hc Hu) as [Hn Hr]. split; [|done]. intros Ht. apply Hn, Htaken; [|done].
    destruct (Hb _ Hc) as (c' & Hc' & He). destruct (B_inj _ _ _ _ Hu (proj1 Hc') He) as [_ ->]. done.
Qed.
Lemma right_ok_mono p : right_ok objs drawn taken reserved p -> right_ok objs drawn' taken' reserved' p.
Proof.
  intros (key & Hkey & Hp & Hn). exists key. split; [done|]. split.
  - destruct Hp as [->|(c & Hc & -> & Ht & Hg)]; [by left|]. right. exists c. split; [by eapply known_mono|]. split; [done|].
    split; [intros Hc'; by apply Ht, Htaken|]. destruct Hg as [Hg|Hg]; [by left|]. right. intros Hc'. by apply Hg, Hreserved.
  - intros id o Ho Hbk Hnm. destruct (Hn id o Ho Hbk Hnm) as (Hs & c & Hb & Hc & Hoc & Hr). split; [done|]. exists c.
    split; [done|]. split; [by eapply known_mono|]. split; [done|]. intros Hc'. by apply Hr, Hreserved.
Qed.
End Mono.

(** A step of the first handler of a pool. *)
Lemma claims_step objs blob drawn l ls objs' blob' drawn' l' :
  claims_ok objs blob drawn (l :: ls) ->
  rows_ok objs' blob' drawn' ->
  (forall c, own_claim (own l') = Some c -> ~ held ls c) ->
  own_ok objs' blob' drawn' (is_drawn (l' :: ls)) (own l') ->
  (forall w, (forall c, own_claim w = Some c -> held ls c) ->
     own_ok objs blob drawn (is_drawn (l :: ls)) w -> own_ok objs' blob' drawn' (is_drawn (l' :: ls)) w) ->
  (forall p, fact_ok objs drawn (is_drawn (l :: ls)) p -> fact_ok objs' drawn' (is_drawn (l' :: ls)) p) ->
  (forall p, right_ok objs drawn (is_drawn (l :: ls)) (held (l :: ls)) p ->
     right_ok objs' drawn' (is_drawn (l' :: ls)) (held (l' :: ls)) p) ->
  (forall p, p ∈ facts l' -> p ∈ facts l \/ fact_ok objs' drawn' (is_drawn (l' :: ls)) p) ->
  (forall p, p ∈ rights l' -> p ∈ rights l \/ right_ok objs' drawn' (is_drawn (l' :: ls)) (held (l' :: ls)) p) ->
  claims_ok objs' blob' drawn' (l' :: ls).
Proof.
  intros [Hrows Hown Hd Hfacts Hrights] Hrows' Hd' Hown' Hw Hf Hr Hf' Hr'.
  apply Forall_cons in Hown as [_ Hown], Hfacts as [Hfl Hfacts], Hrights as [Hrl Hrights].
  apply distinct_head in Hd as [_ Hd]. constructor; [done| |by apply distinct_cons| |].
  - constructor; [done|]. rewrite Forall_forall in *. intros w Hin. apply Hw; [|by apply Hown].
    intros c Hc. by exists w.
  - rewrite Forall_forall in Hfl. constructor.
    + apply Forall_forall. intros p Hp. destruct (Hf' p Hp) as [Hp'|Hp']; [|done]. by apply Hf, Hfl.
    + eapply Forall_impl; [exact Hfacts|]. intros w Hw'. eapply Forall_impl; [exact Hw'|done].
  - rewrite Forall_forall in Hrl. constructor.
    + apply Forall_forall. intros p Hp. destruct (Hr' p Hp) as [Hp'|Hp']; [|done]. by apply Hr, Hrl.
    + eapply Forall_impl; [exact Hrights|]. intros w Hw'. eapply Forall_impl; [exact Hw'|done].
Qed.

(** ** One row changes

    A row takes a drawn claim - it is new, or a stored object or an orphan is
    taken over - or the row of a claim is settled. *)
Inductive change objs (taken : string -> Prop) (id c : string) (o' : Obj) : Prop :=
| ChangeClaim :
    taken c ->
    ob_blob o' = Some (B (ob_key o') c) \/
      (exists o, objs !! id = Some o /\ ob_status o = ObjectComplete /\ ob_bucket o = ob_bucket o' /\
         ob_key o = ob_key o' /\ ob_blob o = ob_blob o') ->
    change objs taken id c o'
| ChangeSettle o :
    objs !! id = Some o -> ob_claim o = Some c -> ob_status o = ObjectPending -> ob_status o' = ObjectComplete ->
    ob_bucket o = ob_bucket o' -> ob_key o = ob_key o' ->
    ob_blob o' = Some (B (ob_key o') c) \/ ob_blob o' = ob_blob o ->
    change objs taken id c o'.

Lemma insert_cases objs id o' i o : <[id := o']> objs !! i = Some o -> i = id /\ o = o' \/ i <> id /\ objs !! i = Some o.
Proof. intros [[<- <-]|[Hne Hi]]%lookup_insert_Some; [by left|by right]. Qed.

Section Change.
Context objs (taken reserved : string -> Prop) (id c : string) (o' : Obj).
Hypothesis Hclaim : ob_claim o' = Some c.
Hypothesis Huuid : uuid c.
Hypothesis Hchange : change objs taken id c o'.
Abbreviation objs' := (<[id := o']> objs).

Lemma fact_ok_change drawn p : fact_ok objs drawn taken p -> fact_ok objs' drawn taken p.
Proof.
  intros (Hok & H1 & H2 & H3 & H4). split; [done|]. split; [done|]. split; [|split].
  - intros c1 Hb Hu. destruct (H2 c1 Hb Hu) as [Ht Hr]. split; [done|].
    intros i o [[-> ->]|[_ Hi]]%insert_cases Hc; [|by eapply Hr].
    assert (c1 = c) as -> by congruence. destruct Hchange as [Ht' _|o Ho Hoc _ _ _ _ _]; [done|]. by apply (Hr id o).
  - intros c1 i o Hf [[-> ->]|[_ Hi]]%insert_cases Hc; [|by eapply H3].
    assert (c1 = c) as -> by congruence. destruct Hchange as [Ht' _|o Ho Hoc _ _ _ _ _]; [by apply H1 in Hf|].
    by eapply H3.
  - intros o [[Hi ->]|[_ Hi]]%insert_cases Hc; [|by apply H4].
    destruct Hchange as [Ht' _|o Ho Hoc Hp Hcomp Hbk Hk _].
    { rewrite Hclaim in Hc. symmetry in Hc. by apply H1 in Hc. }
    rewrite <- Hi in Ho. destruct (H4 o Ho) as (Hb & Hky & Hst & Hfc); [congruence|].
    split_and!; [congruence|congruence| |done].
    intros Hs. rewrite Hcomp in Hs. rewrite Hfc in Hp by done. done.
Qed.

Lemma right_ok_change drawn p : reserved c -> right_ok objs drawn taken reserved p -> right_ok objs' drawn taken reserved p.
Proof.
  intros Hres (key & Hkey & Hp & Hn).
  assert (forall k c1, uuid c1 -> p.2 = B k c1 -> p.2 = key \/ c1 <> c) as Hnot.
  { intros k c1 Hu Hb. destruct Hp as [Hp|(c2 & [Hu2 _] & Hp & Ht & Hg)]; [by left|]. right. intros ->.
    assert (c2 = c) as -> by (destruct (B_inj k key c c2 Hu Hu2) as [_ ->]; congruence).
    destruct Hchange as [Ht' _|o Ho Hoc _ _ _ _ _]; [done|]. destruct Hg as [Hg|Hg]; [by apply (Hg id o)|done]. }
  exists key. split; [done|]. split.
  - destruct Hp as [Hp|(c2 & Hk2 & Hp & Ht & Hg)]; [by left|]. right. exists c2. do 3 (split; [done|]).
    destruct Hg as [Hg|Hg]; [|by right]. left. intros i o [[-> ->]|[_ Hi]]%insert_cases; [|by eapply Hg].
    intros Hc. assert (c2 = c) as -> by congruence. destruct Hchange as [Ht' _|o Ho Hoc _ _ _ _ _]; [done|].
    by apply (Hg id o).
  - intros i o [[-> ->]|[_ Hi]]%insert_cases Hbk Hnm; [|by eapply Hn]. exfalso.
    assert (forall k, ob_blob o' = Some (B k c) -> False) as Hown.
    { intros k Hb. unfold ob_name, stored_blob_key in Hnm. rewrite Hb in Hnm. simpl in Hnm. symmetry in Hnm.
      destruct (Hnot k c Huuid Hnm) as [Hk|]; [|done]. apply (B_not_plain k c Huuid). by rewrite <- Hnm, Hk. }
    destruct Hchange as [_ [Hb|(o & Ho & Hst & Hob & Hok & Hobl)]|o Ho Hoc Hst _ Hob Hok [Hb|Hobl]];
      [by eapply Hown| |by eapply Hown|].
    + destruct (Hn id o Ho) as [Hs _]; [congruence| |congruence]. unfold ob_name in *. congruence.
    + destruct (Hn id o Ho) as (_ & c2 & _ & _ & Hc2 & Hr2); [congruence|unfold ob_name in *; congruence|].
      assert (c2 = c) as -> by congruence. done.
Qed.

Lemma own_ok_change blob drawn w :
  own_claim w <> Some c -> own_ok objs blob drawn taken w -> own_ok objs' blob drawn taken w.
Proof.
  intros Hne. destruct w as [|c1|h]; simpl in *; [done| |].
  - intros (Hk & Hg & Hb). split; [done|]. split.
    + intros i o [[-> ->]|[_ Hi]]%insert_cases; [congruence|by eapply Hg].
    + intros i o [[-> ->]|[_ Hi]]%insert_cases; [|by eapply Hb]. intros He.
      destruct Hchange as [_ [Hb'|(o & Ho & _ & _ & Hok & Hobl)]|o Ho _ _ _ _ Hok [Hb'|Hobl]].
      * rewrite Hb' in He. injection He as He. apply B_inj in He as [_ He]; [congruence|done|apply Hk].
      * apply (Hb id o Ho). congruence.
      * rewrite Hb' in He. injection He as He. apply B_inj in He as [_ He]; [congruence|done|apply Hk].
      * apply (Hb id o Ho). congruence.
  - intros (Hk & Hp & H3 & H4 & H5). do 2 (split; [done|]). split; [|split].
    + intros i o [[-> ->]|[_ Hi]]%insert_cases Hc; [congruence|by apply H3].
    + intros i o [[-> ->]|[_ Hi]]%insert_cases He; [|by eapply H4]. exfalso.
      destruct Hchange as [_ [Hb'|(o & Ho & Hst & _ & Hok & Hobl)]|o Ho Hoc _ _ _ Hok [Hb'|Hobl]].
      * rewrite Hb' in He. injection He as He. apply B_inj in He as [_ He]; [congruence|done|apply Hk].
      * assert (ob_claim o = Some (h_claim h)) as Hc by (apply (H4 id o Ho); congruence).
        destruct (H3 id o Ho Hc) as (_ & _ & _ & Hs & _). congruence.
      * rewrite Hb' in He. injection He as He. apply B_inj in He as [_ He]; [congruence|done|apply Hk].
      * assert (ob_claim o = Some (h_claim h)) as Hc by (apply (H4 id o Ho); congruence). congruence.
    + intros b Hb. destruct (H5 b Hb) as [->|(c' & Hk' & -> & Hne' & Ht & Hg)]; [by left|]. right. exists c'.
      do 4 (split; [done|]). intros i o [[-> ->]|[_ Hi]]%insert_cases; [|by eapply Hg]. intros Hc.
      assert (c' = c) as -> by congruence. destruct Hchange as [Ht' _|o Ho Hoc _ _ _ _ _]; [done|]. by apply (Hg id o).
Qed.
End Change.

(** ** What names a blob *)
Lemma named_key objs blob drawn i o key c :
  rows_ok objs blob drawn -> objs !! i = Some o -> plain key -> uuid c ->
  ob_name o = key \/ ob_name o = B key c -> ob_key o = key.
Proof.
  intros Hr Hi Hkey Hu Hn. destruct (ro_obj _ _ _ Hr i o Hi) as (Hk & _ & Hb). unfold ob_name, stored_blob_key in Hn.
  destruct (ob_blob o) as [b|]; simpl in Hn.
  - destruct (Hb b eq_refl) as (c1 & [Hu1 _] & ->). destruct Hn as [Hn|Hn].
    + destruct (B_not_plain (ob_key o) c1 Hu1). by rewrite Hn.
    + by apply B_inj in Hn as [-> _].
  - destruct Hn as [Hn|Hn]; [done|]. destruct (B_not_plain key c Hu). by rewrite <- Hn.
Qed.
Lemma named_claim objs blob drawn i o key c :
  rows_ok objs blob drawn -> objs !! i = Some o -> uuid c -> ob_name o = B key c -> ob_blob o = Some (B (ob_key o) c).
Proof.
  intros Hr Hi Hu Hn. destruct (ro_obj _ _ _ Hr i o Hi) as (Hk & _ & Hb). unfold ob_name, stored_blob_key in Hn.
  destruct (ob_blob o) as [b|]; simpl in Hn.
  - destruct (Hb b eq_refl) as (c1 & [Hu1 _] & ->). by apply B_inj in Hn as [-> ->].
  - destruct (B_not_plain key c Hu). by rewrite <- Hn.
Qed.

Lemma rows_ok_insert objs blob drawn id o' c :
  rows_ok objs blob drawn -> obj_ok drawn o' -> ob_claim o' = Some c -> uuid c ->
  (forall i o, i <> id -> objs !! i = Some o ->
     ~ (ob_bucket o = ob_bucket o' /\ ob_key o = ob_key o') /\ ob_claim o <> Some c /\
     ob_blob o <> Some (B (ob_key o) c) /\
     forall c', uuid c' -> ob_blob o' = Some (B (ob_key o') c') -> ob_claim o <> Some c') ->
  (ob_status o' = ObjectComplete -> stored_at blob (ob_bucket o') (ob_name o') (ob_size o')) ->
  rows_ok (<[id := o']> objs) blob drawn.
Proof.
  intros Hr Hok Hc Hu Hothers Hst. constructor.
  - intros i o [[-> ->]|[_ Hi]]%insert_cases; [done|by eapply ro_obj].
  - intros i i' o1 o2 [[-> ->]|[Hne Hi]]%insert_cases [[-> ->]|[Hne' Hi']]%insert_cases Hb Hk; [done| | |by eapply ro_key].
    + by destruct (Hothers i' o2 Hne' Hi') as [[] _].
    + by destruct (Hothers i o1 Hne Hi) as [[] _].
  - intros i i' o1 o2 c1 [[-> ->]|[Hne Hi]]%insert_cases [[-> ->]|[Hne' Hi']]%insert_cases H1 H2; [done| | |by eapply ro_claim].
    + destruct (Hothers i' o2 Hne' Hi') as (_ & Hn & _). congruence.
    + destruct (Hothers i o1 Hne Hi) as (_ & Hn & _). congruence.
  - intros i i' o1 o2 c1 [[-> ->]|[Hne Hi]]%insert_cases H1 Hu1 [[-> ->]|[Hne' Hi']]%insert_cases H2; [done| | |by eapply ro_named].
    + destruct (Hothers i' o2 Hne' Hi') as (_ & _ & _ & Hn). by destruct (Hn c1 Hu1 H1).
    + destruct (Hothers i o1 Hne Hi) as (_ & _ & Hn & _). congruence.
  - intros i o [[-> ->]|[_ Hi]]%insert_cases; [done|by eapply ro_stored].
Qed.

(** ** What handlers do *)

(** A handler forgets, or learns something that holds. *)
Lemma claims_learn objs blob drawn l ls fs rs :
  claims_ok objs blob drawn (l :: ls) ->
  (forall p, p ∈ fs -> p ∈ facts l \/ fact_ok objs drawn (is_drawn (l :: ls)) p) ->
  (forall p, p ∈ rs -> p ∈ rights l \/ right_ok objs drawn (is_drawn (l :: ls)) (held (l :: ls)) p) ->
  claims_ok objs blob drawn ({| own := own l; facts := fs; rights := rs |} :: ls).
Proof.
  intros H Hf Hr. pose proof H as [Hrows Hown Hd _ _]. apply Forall_cons in Hown as [Hown _].
  apply distinct_head in Hd as [Hd _].
  assert (forall c, is_drawn ({| own := own l; facts := fs; rights := rs |} :: ls) c -> is_drawn (l :: ls) c) as Ht.
  { intros c. by rewrite !is_drawn_cons. }
  assert (forall c, held ({| own := own l; facts := fs; rights := rs |} :: ls) c -> held (l :: ls) c) as Hh.
  { intros c. by rewrite !held_cons. }
  eapply claims_step; [exact H|done|done| | | | | |].
  - eapply own_ok_mono; [done| |exact Hown]. intros c _. apply Ht.
  - intros w _. apply own_ok_mono; [done|]. intros c _. apply Ht.
  - intros p. apply fact_ok_mono; [done|]. intros c _. apply Ht.
  - intros p. apply right_ok_mono; [done| |]; intros c _; [apply Ht|apply Hh].
  - intros p Hp. destruct (Hf p Hp) as [|Hp']; [by left|]. right. eapply fact_ok_mono; [done| |exact Hp']. intros c _. apply Ht.
  - intros p Hp. destruct (Hr p Hp) as [|Hp']; [by left|]. right. eapply right_ok_mono; [done| | |exact Hp']; intros c _; [apply Ht|apply Hh].
Qed.

Lemma fact_of_row objs blob drawn ls id o :
  claims_ok objs blob drawn ls -> objs !! id = Some o -> fact_ok objs drawn (is_drawn ls) (id, o).
Proof.
  intros [Hrows Hown _ _ _] Ho. rewrite Forall_forall in Hown.
  assert (forall c, is_drawn ls c -> gone objs c /\ forall id o, objs !! id = Some o -> ob_blob o <> Some (B (ob_key o) c)) as Hdr.
  { intros c (l & Hl & Hc). specialize (Hown l Hl). rewrite Hc in Hown. destruct Hown as (_ & Hg & Hb). done. }
  split; [by eapply ro_obj|]. cbn [fst snd]. split; [|split; [|split]].
  - intros c Hc [Hg _]%Hdr. by apply (Hg id o).
  - intros c Hb Hu. split.
    + intros [_ Hb']%Hdr. by apply (Hb' id o).
    + intros i o1 Hi Hc. assert (id = i) as <- by (by eapply ro_named). split; [done|]. congruence.
  - intros c i o1 Hc Hi Hc1. by eapply ro_claim.
  - intros o1 Ho1 _. assert (o1 = o) as -> by congruence. by split_and!.
Qed.

(** A handler with no claim draws an identifier. *)
Lemma claims_draw objs blob drawn drawn' l ls c :
  claims_ok objs blob drawn (l :: ls) -> own l = NoClaim -> uuid c -> ~ drawn c ->
  (forall x, drawn' x <-> x = c \/ drawn x) ->
  claims_ok objs blob drawn' ({| own := Drawn c; facts := facts l; rights := rights l |} :: ls).
Proof.
  intros H Hl Hu Hc Hdr. pose proof H as [Hrows Hown Hd _ _].
  set (l' := {| own := Drawn c; facts := facts l; rights := rights l |}).
  assert (forall x, drawn x -> drawn' x) as Hm by (intros x Hx; apply Hdr; by right).
  assert (forall x, known drawn x -> x <> c) as Hne by (intros x [_ Hx] ->; done).
  assert (forall x, known drawn x -> is_drawn (l' :: ls) x -> is_drawn (l :: ls) x) as Ht.
  { intros x Hk. rewrite !is_drawn_cons. intros [[= <-]|Hx]; [by destruct (Hne c Hk)|by right]. }
  assert (forall x, known drawn x -> held (l' :: ls) x -> held (l :: ls) x) as Hh.
  { intros x Hk. rewrite !held_cons. intros [[= <-]|Hx]; [by destruct (Hne c Hk)|by right]. }
  eapply claims_step; [exact H| | | | | | |by left|by left].
  - destruct Hrows. constructor; try done. intros id o Ho. eapply obj_ok_mono; [exact Hm|by eauto].
  - simpl. intros ? [= <-] (l1 & Hin & Hc1). apply Forall_cons in Hown as [_ Hown]. rewrite Forall_forall in Hown.
    specialize (Hown l1 Hin). destruct (own l1) as [|c1|h]; simpl in *; [done| |].
    + injection Hc1 as ->. by destruct Hown as [[_ ?] _].
    + injection Hc1 as <-. by destruct Hown as [[_ ?] _].
  - simpl. split; [split; [done|]; apply Hdr; by left|]. split.
    + intros id o Ho Hoc. destruct (ro_obj _ _ _ Hrows id o Ho) as (_ & Hk & _). by destruct (Hne c (Hk c Hoc)).
    + intros id o Ho Hob. destruct (ro_obj _ _ _ Hrows id o Ho) as (_ & _ & Hk).
      destruct (Hk _ Hob) as (c1 & Hk1 & He). apply B_inj in He as [_ <-]; [|done|apply Hk1]. by destruct (Hne c Hk1).
  - intros w _. by apply own_ok_mono.
  - intros p. by apply fact_ok_mono.
  - intros p. by apply right_ok_mono.
Qed.

(** A row takes the drawn claim of a handler: it is new, or it was as the
    handler read it. *)
Section Take.
Context objs (blob : string -> string -> option string) (drawn : string -> Prop) (l : Handler) (ls : list Handler) (c id : string) (o' : Obj).
Hypothesis Hok : claims_ok objs blob drawn (l :: ls).
Hypothesis Hdrawn : own l = Drawn c.
Hypothesis Hclaim : ob_claim o' = Some c.
Hypothesis Hpending : ob_status o' = ObjectPending.
Hypothesis Hobj : obj_ok drawn o'.

Lemma take_known : known drawn c /\ gone objs c /\ forall id o, objs !! id = Some o -> ob_blob o <> Some (B (ob_key o) c).
Proof. pose proof (co_own _ _ _ _ Hok) as [Hw _]%Forall_cons. by rewrite Hdrawn in Hw. Qed.
Lemma take_taken : is_drawn (l :: ls) c.
Proof. apply is_drawn_cons. by left. Qed.

Lemma claims_take h :
  h_claim h = c -> change objs (is_drawn (l :: ls)) id c o' ->
  (forall i o, i <> id -> objs !! i = Some o ->
     ~ (ob_bucket o = ob_bucket o' /\ ob_key o = ob_key o') /\
     forall c', uuid c' -> ob_blob o' = Some (B (ob_key o') c') -> ob_claim o <> Some c') ->
  own_ok (<[id := o']> objs) blob drawn (is_drawn ls) (Holds h) ->
  claims_ok (<[id := o']> objs) blob drawn ({| own := Holds h; facts := facts l; rights := rights l |} :: ls).
Proof.
  intros Hh Hchange Hothers Hown'. pose proof Hok as [Hrows Hown Hd _ _].
  destruct take_known as (Hk & Hg & Hb). apply distinct_head in Hd as [Hd _]. rewrite Hdrawn in Hd.
  set (l' := {| own := Holds h; facts := facts l; rights := rights l |}).
  assert (forall x, is_drawn (l' :: ls) x -> is_drawn (l :: ls) x) as Ht.
  { intros x. rewrite !is_drawn_cons. intros [[=]|Hx]. by right. }
  assert (forall x, held (l' :: ls) x -> held (l :: ls) x) as Hhd.
  { intros x. rewrite !held_cons, Hdrawn. simpl. by rewrite Hh. }
  eapply claims_step; [exact Hok| | | | | | |by left|by left].
  - eapply rows_ok_insert; [done|done|done|apply Hk| |by rewrite Hpending].
    intros i o Hne Hi. destruct (Hothers i o Hne Hi) as [H1 H2]. split; [done|]. split; [by eapply Hg|]. split; [by eapply Hb|done].
  - simpl. rewrite Hh. apply Hd.
  - eapply own_ok_mono; [done| |exact Hown']. intros x _. rewrite is_drawn_cons. intros [[=]|Hx]; done.
  - intros w Hw Hwok. eapply own_ok_mono; [done|intros x _; apply Ht|]. apply (own_ok_change objs (is_drawn (l :: ls)) id c o'); try done; [apply Hk|].
    intros Hc. by destruct (Hd c eq_refl); apply Hw.
  - intros p Hp. eapply fact_ok_mono; [done|intros x _; apply Ht|]. by apply (fact_ok_change objs (is_drawn (l :: ls)) id c o').
  - intros p Hp. eapply right_ok_mono; [done|intros x _; apply Ht|intros x _; apply Hhd|].
    apply (right_ok_change objs (is_drawn (l :: ls)) (held (l :: ls)) id c o'); try done; [apply Hk|].
    apply held_cons. left. by rewrite Hdrawn.
Qed.
End Take.

(** The blobs that a row, as it was read, may have caused to be stored. *)
Definition blob_of_row (f : Obj) (b : string) : Prop :=
  b = ob_name f \/ b = ob_key f \/ exists c, ob_claim f = Some c /\ b = B (ob_key f) c.

Lemma fact_blob objs drawn taken id f b :
  fact_ok objs drawn taken (id, f) -> blob_of_row f b ->
  b = ob_key f \/ exists c, known drawn c /\ b = B (ob_key f) c /\ ~ taken c /\
    forall i o, objs !! i = Some o -> ob_claim o = Some c -> i = id /\ ob_claim f = Some c.
Proof.
  intros ((Hk & Hcl & Hbl) & H1 & H2 & H3 & _) Hb. simpl in *.
  assert (forall c, ob_claim f = Some c -> known drawn c /\ ~ taken c /\
    forall i o, objs !! i = Some o -> ob_claim o = Some c -> i = id /\ ob_claim f = Some c) as Hc.
  { intros c Hc. split; [by apply Hcl|]. split; [by apply H1|]. intros i o Hi Ho. split; [by eapply H3|done]. }
  destruct Hb as [->|[->|(c & Hfc & ->)]]; [|by left|right; exists c; by destruct (Hc c Hfc) as (? & ? & ?)].
  unfold ob_name, stored_blob_key. destruct (ob_blob f) as [b|] eqn:Hfb; simpl; [|by left].
  destruct (Hbl b eq_refl) as (c & Hkc & ->). right. exists c. destruct (H2 c eq_refl (proj1 Hkc)). done.
Qed.

Lemma claims_insert objs blob drawn l ls c id o' h :
  claims_ok objs blob drawn (l :: ls) -> own l = Drawn c -> objs !! id = None ->
  (forall i o, objs !! i = Some o -> ob_bucket o = ob_bucket o' -> ob_key o <> ob_key o') ->
  plain (ob_key o') -> ob_claim o' = Some c -> ob_status o' = ObjectPending -> ob_blob o' = Some (B (ob_key o') c) ->
  h = {| h_claim := c; h_id := id; h_bucket := ob_bucket o'; h_key := ob_key o'; h_size := ob_size o';
         h_replaced := None; h_stored := false; h_superseded := [] |} ->
  claims_ok (<[id := o']> objs) blob drawn ({| own := Holds h; facts := facts l; rights := rights l |} :: ls).
Proof.
  intros Hok Hl Hid Hfree Hkey Hc Hst Hb ->. destruct (take_known _ _ _ _ _ c Hok Hl) as (Hk & Hg & Hnb).
  eapply claims_take; try done.
  - split; [done|]. split; [by intros ? [= <-]%(eq_trans (eq_sym Hc))|]. intros b Hb'. exists c. split; [done|]. congruence.
  - apply ChangeClaim; [by eapply take_taken|by left].
  - intros i o Hne Hi. split; [intros [H1 H2]; by apply (Hfree i o)|]. intros c' Hu Hb'.
    rewrite Hb in Hb'. injection Hb' as Hb'. apply B_inj in Hb' as [_ <-]; [|apply Hk|done]. by eapply Hg.
  - simpl. split; [done|]. split; [done|]. split; [|split].
    + intros i o [[-> ->]|[_ Hi]]%insert_cases Hoc; [|by destruct (Hg i o)]. by split_and!.
    + intros i o [[-> ->]|[_ Hi]]%insert_cases Hob; [done|]. by destruct (Hnb i o).
    + by intros b ?%elem_of_nil.
Qed.

Lemma claims_take_over objs blob drawn l ls c id f o o' h :
  claims_ok objs blob drawn (l :: ls) -> own l = Drawn c -> (id, f) ∈ facts l ->
  objs !! id = Some o -> ob_claim o = ob_claim f ->
  ob_bucket o' = ob_bucket o -> ob_key o' = ob_key o -> ob_claim o' = Some c -> ob_status o' = ObjectPending ->
  ob_blob o' = match ob_status f with ObjectComplete => ob_blob o | ObjectPending => Some (B (ob_key o) c) end ->
  (h_claim h = c /\ h_id h = id /\ h_bucket h = ob_bucket o' /\ h_key h = ob_key o' /\ h_size h = ob_size o' /\ h_stored h = false) ->
  h_replaced h = match ob_status f with ObjectComplete => Some (ob_size f) | ObjectPending => None end ->
  (forall b, b ∈ h_superseded h -> blob_of_row f b) ->
  claims_ok (<[id := o']> objs) blob drawn ({| own := Holds h; facts := facts l; rights := rights l |} :: ls).
Proof.
  intros Hok Hl Hf Ho Hof Hbk Hky Hc Hst Hb (Hh1 & Hh2 & Hh3 & Hh4 & Hh5 & Hh6) Hrep Hsup.
  destruct (take_known _ _ _ _ _ c Hok Hl) as (Hk & Hg & Hnb). pose proof (take_taken l ls c Hl) as Htk.
  pose proof Hok as [Hrows _ _ Hfacts _]. apply Forall_cons in Hfacts as [Hfacts _]. rewrite Forall_forall in Hfacts.
  pose proof (Hfacts _ Hf) as Hfact. pose proof (ro_obj _ _ _ Hrows id o Ho) as (Hkey & Hcl & Hbl).
  destruct Hfact as (Hfok & _ & _ & _ & H4). destruct (H4 o Ho Hof) as (Hfb & Hfk & Hsame & Hcomp). simpl in *.
  assert (ob_status f = ObjectComplete -> ob_status o = ObjectComplete /\ o = f) as Hsf.
  { intros Hs. split; [by apply Hcomp|]. apply Hsame. rewrite Hs. by apply Hcomp. }
  eapply claims_take; try done.
  - split; [by rewrite Hky|]. split; [by intros ? [= <-]%(eq_trans (eq_sym Hc))|]. intros b Hb'. rewrite Hky.
    destruct (ob_status f); [|by apply Hbl; congruence]. exists c. split; [done|]. congruence.
  - apply ChangeClaim; [done|]. destruct (ob_status f); [left; congruence|]. right. exists o.
    destruct (Hsf eq_refl) as [Hs _]. by split_and!.
  - intros i o1 Hne Hi. split.
    + intros [H1 H2]. apply Hne. eapply (ro_key _ _ _ Hrows i id); try done; congruence.
    + intros c' Hu Hb' Hc'. destruct (ob_status f).
      * rewrite Hb, Hky in Hb'. injection Hb' as Hb'. apply B_inj in Hb' as [_ <-]; [|apply Hk|done]. by apply (Hg i o1).
      * apply Hne. symmetry. apply (ro_named _ _ _ Hrows id i o o1 c'); try done. by rewrite <- Hky, <- Hb.
  - simpl. rewrite Hh1, Hh2, Hh3, Hh4, Hh5, Hh6, Hrep, Hky. split; [done|]. split; [done|]. split; [|split].
    + intros i o1 [[-> ->]|[_ Hi]]%insert_cases Hoc; [|by destruct (Hg i o1)]. split_and!; try done.
      destruct (ob_status f); [congruence|]. destruct (Hsf eq_refl) as [Hs <-]. split; [by rewrite Hb; apply (Hnb id)|].
      unfold ob_name. rewrite Hb, Hbk, Hky. by apply (ro_stored _ _ _ Hrows id).
    + intros i o1 [[-> ->]|[_ Hi]]%insert_cases Hob; [done|]. by destruct (Hnb i o1).
    + intros b Hbs. destruct (fact_blob objs drawn (is_drawn (l :: ls)) id f b (Hfacts _ Hf) (Hsup b Hbs)) as [->|(c' & Hk' & -> & Ht & Hr)].
      { left. by symmetry. }
      right. exists c'. assert (c' <> c) as Hne by (intros ->; done). split; [done|]. split; [by rewrite Hfk|]. split; [done|]. split.
      { intros Ht'. apply Ht, is_drawn_cons. by right. }
      intros i o1 [[-> ->]|[Hi' Hi]]%insert_cases Hc1; [congruence|]. by destruct (Hr i o1 Hi Hc1) as [-> _].
Qed.

(** *** Blobs come and go *)
Lemma stored_elsewhere blob blob' bucket name b n size :
  (forall b n, (b, n) <> (bucket, name) -> blob' b n = blob b n) -> (b, n) <> (bucket, name) ->
  stored_at blob b n size -> stored_at blob' b n size.
Proof. intros Hb Hne (x & Hx & Hs). exists x. by rewrite Hb. Qed.
(** What a handler's claim needs of the storage. *)
Lemma own_ok_blob objs blob blob' drawn taken w :
  (forall c i o n size, own_claim w = Some c -> objs !! i = Some o -> ob_claim o = Some c ->
     n = ob_name o \/ n = B (ob_key o) c -> stored_at blob (ob_bucket o) n size -> stored_at blob' (ob_bucket o) n size) ->
  own_ok objs blob drawn taken w -> own_ok objs blob' drawn taken w.
Proof.
  intros Hs. destruct w as [|c|h]; simpl; [done|done|]. intros (Hk & Hp & H3 & H4 & H5). do 2 (split; [done|]).
  split; [|by split]. intros i o Hi Hc. destruct (H3 i o Hi Hc) as (-> & Hb & Hky & Hst & Hsz & Hr & Hstored).
  pose proof (fun n size => Hs (h_claim h) _ o n size eq_refl Hi Hc) as Hs'. rewrite Hb, Hky in Hs'.
  do 5 (split; [done|]). split.
  - destruct (h_replaced h) as [size|]; [|done]. destruct Hr as [Hr1 Hr2]. split; [done|]. apply Hs'; [by left|done].
  - intros Ht. apply Hs'; [by right|by apply Hstored].
Qed.

(** A handler stores its blob. *)
Lemma claims_put objs blob blob' drawn l ls h stored :
  claims_ok objs blob drawn (l :: ls) -> own l = Holds h ->
  (forall b n, (b, n) <> (h_bucket h, B (h_key h) (h_claim h)) -> blob' b n = blob b n) ->
  (stored = true -> stored_at blob' (h_bucket h) (B (h_key h) (h_claim h)) (h_size h)) ->
  claims_ok objs blob' drawn ({| own := Holds (with_stored stored h); facts := facts l; rights := rights l |} :: ls).
Proof.
  intros Hok Hl Hb' Hput. pose proof Hok as [Hrows Hown Hd _ _]. apply Forall_cons in Hown as [Hown _].
  rewrite Hl in Hown. destruct Hown as (Hk & Hp & H3 & H4 & H5). apply distinct_head in Hd as [Hd _]. rewrite Hl in Hd.
  assert (forall i o, objs !! i = Some o -> ob_name o = B (h_key h) (h_claim h) -> ob_claim o = Some (h_claim h)) as Hn.
  { intros i o Hi Hnm. apply (H4 i o Hi). eapply named_claim; [done|done|apply Hk|done]. }
  eapply claims_step; [exact Hok| | | | | | |by left|by left].
  - destruct Hrows. constructor; try done. intros i o Hi Hs. eapply stored_elsewhere; [done| |by eauto].
    intros [= _ Hnm]. destruct (H3 i o Hi (Hn i o Hi Hnm)) as (_ & _ & _ & Hs' & _). congruence.
  - done.
  - simpl. do 2 (split; [done|]). split; [|split; [done|]].
    + intros i o Hi Hc. destruct (H3 i o Hi Hc) as (Hid & Hbk & Hky & Hst & Hsz & Hr & _). do 5 (split; [done|]). split; [|done].
      destruct (h_replaced h) as [size|]; [|done]. destruct Hr as [Hr1 Hr2]. split; [done|].
      eapply stored_elsewhere; [done| |done]. intros [= Hnm]. apply Hr1. rewrite <- Hky.
      eapply named_claim; [done|done|apply Hk|done].
    + intros b Hbs. destruct (H5 b Hbs) as [->|(c' & Hk' & -> & Hne & Ht & Hg)]; [by left|]. right. exists c'.
      do 3 (split; [done|]). split; [|done]. intros [[=]|Hd']%is_drawn_cons. apply Ht, is_drawn_cons. by right.
  - intros w Hw Hwok. eapply own_ok_blob; [|eapply own_ok_mono; [done| |exact Hwok]].
    + intros c i o n size Hwc Hi Hc Hno. apply stored_elsewhere with (1 := Hb'). intros [= _ ->].
      assert (ob_claim o = Some (h_claim h) \/ c = h_claim h) as Hcc.
      { destruct Hno as [Hno|Hno]; [left; by eapply Hn|right].
        symmetry. apply B_inj in Hno as [_ Hno]; [done|apply Hk|]. by apply (ro_obj _ _ _ Hrows i o Hi). }
      assert (c = h_claim h) as -> by (destruct Hcc; congruence). by destruct (Hd (h_claim h) eq_refl); apply Hw.
    + intros x _. rewrite !is_drawn_cons, Hl. intros [[=]|]; by right.
  - intros p. apply fact_ok_mono; [done|]. intros x _. rewrite !is_drawn_cons, Hl. intros [[=]|]; by right.
  - intros p. apply right_ok_mono; [done| |]; intros x _.
    + rewrite !is_drawn_cons, Hl. intros [[=]|]; by right.
    + rewrite !held_cons, Hl. done.
Qed.

(** A handler deletes a blob it has a right to. *)
Lemma claims_erase objs blob blob' drawn l ls p :
  claims_ok objs blob drawn (l :: ls) -> p ∈ rights l ->
  (forall b n, (b, n) <> p -> blob' b n = blob b n) ->
  claims_ok objs blob' drawn (l :: ls).
Proof.
  intros Hok Hp Hb'. pose proof Hok as [Hrows Hown Hd _ Hrights]. apply Forall_cons in Hrights as [Hrights _].
  rewrite Forall_forall in Hrights. destruct (Hrights p Hp) as (key & Hkey & Hpn & Hn). destruct p as [bucket name]; simpl in *.
  assert (forall c i o n size, held (l :: ls) c -> objs !! i = Some o -> ob_claim o = Some c ->
    n = ob_name o \/ n = B (ob_key o) c -> stored_at blob (ob_bucket o) n size -> stored_at blob' (ob_bucket o) n size) as Hkeep.
  { intros c i o n size Hh Hi Hc Hno. apply stored_elsewhere with (1 := Hb'). intros [= Hbk ->].
    destruct Hno as [Hno|Hno].
    - destruct (Hn i o Hi Hbk (eq_sym Hno)) as (_ & c1 & _ & _ & Hc1 & Hr). by assert (c1 = c) as -> by congruence.
    - destruct (ro_obj _ _ _ Hrows i o Hi) as (_ & Hcl & _). destruct Hpn as [->|(c1 & Hk1 & Hb1 & _ & Hg)].
      + destruct (B_not_plain (ob_key o) c); [by apply Hcl|]. by rewrite <- Hno.
      + rewrite Hb1 in Hno. apply B_inj in Hno as [_ ->]; [|apply Hk1|by apply Hcl].
        destruct Hg as [Hg|Hg]; [by destruct (Hg i o Hi)|done]. }
  eapply claims_step; [exact Hok| | | | |done|done|by left|by left].
  - destruct Hrows. constructor; try done. intros i o Hi Hs. eapply stored_elsewhere; [done| |by eauto].
    intros [= Hbk Hnm]. destruct (Hn i o Hi Hbk Hnm) as [Hs' _]. congruence.
  - by apply distinct_head in Hd as [Hd _].
  - apply Forall_cons in Hown as [Hown _]. eapply own_ok_blob; [|exact Hown]. intros c i o n size Hc. apply Hkeep, held_cons. by left.
  - intros w Hw. apply own_ok_blob. intros c i o n size Hc. apply Hkeep, held_cons. right. by apply Hw.
Qed.

(** *** Rows go *)
Lemma claims_delete objs blob drawn ls id :
  claims_ok objs blob drawn ls -> claims_ok (delete id objs) blob drawn ls.
Proof.
  assert (forall i o, delete id objs !! i = Some o -> objs !! i = Some o) as Hd by (intros i o [_ Hi]%lookup_delete_Some; done).
  assert (forall c, gone objs c -> gone (delete id objs) c) as Hg by (intros c Hg i o Hi; by eapply Hg, Hd).
  intros [Hrows Hown Hdist Hfacts Hrights]. constructor; [| |done| |].
  - destruct Hrows. constructor; eauto.
  - eapply Forall_impl; [exact Hown|]. intros l. simpl. destruct (own l) as [|c|h]; simpl; [done| |].
    + intros (Hk & Hgc & Hb). split; [done|]. split; [by apply Hg|]. intros i o Hi. by eapply Hb, Hd.
    + intros (Hk & Hp & H3 & H4 & H5). do 2 (split; [done|]). split; [|split].
      * intros i o Hi. by apply H3, Hd.
      * intros i o Hi. by eapply H4, Hd.
      * intros b Hb. destruct (H5 b Hb) as [|(c' & ? & ? & ? & ? & ?)]; [by left|]. right. exists c'. do 4 (split; [done|]). by apply Hg.
  - eapply Forall_impl; [exact Hfacts|]. intros l Hl. eapply Forall_impl; [exact Hl|]. intros p (Hok & H1 & H2 & H3 & H4).
    split; [done|]. split; [done|]. split; [|split].
    + intros c Hc Hu. destruct (H2 c Hc Hu) as [? Hr]. split; [done|]. intros i o Hi. by eapply Hr, Hd.
    + intros c i o Hc Hi. by eapply H3, Hd.
    + intros o Ho. by apply H4, Hd.
  - eapply Forall_impl; [exact Hrights|]. intros l Hl. eapply Forall_impl; [exact Hl|]. intros p (key & Hk & Hp & Hn).
    exists key. split; [done|]. split.
    + destruct Hp as [|(c & ? & ? & ? & Hgr)]; [by left|]. right. exists c. do 3 (split; [done|]). destruct Hgr; [left; by apply Hg|by right].
    + intros i o Hi. by eapply Hn, Hd.
Qed.

(** *** Claims end *)

(** A handler lets its claim go: its own blob is not the object's, ever. *)
Lemma claims_let_go objs blob drawn l ls :
  claims_ok objs blob drawn (l :: ls) ->
  claims_ok objs blob drawn
    ({| own := NoClaim; facts := facts l;
        rights := match own l with Holds h => [(h_bucket h, B (h_key h) (h_claim h))] | _ => [] end ++ rights l |} :: ls).
Proof.
  intros Hok. pose proof Hok as [Hrows Hown Hd _ _]. apply Forall_cons in Hown as [Hown _]. apply distinct_head in Hd as [Hd _].
  set (l' := {| own := NoClaim; facts := facts l; rights := _ |}).
  assert (forall x, is_drawn (l' :: ls) x -> is_drawn (l :: ls) x) as Ht.
  { intros x. rewrite !is_drawn_cons. intros [[=]|]; by right. }
  assert (forall x, held (l' :: ls) x -> held (l :: ls) x) as Hh.
  { intros x. rewrite !held_cons. intros [[=]|]; by right. }
  eapply claims_step; [exact Hok|done|done|done| | | |by left|].
  - intros w _. apply own_ok_mono; [done|]. intros x _. apply Ht.
  - intros p. apply fact_ok_mono; [done|]. intros x _. apply Ht.
  - intros p. apply right_ok_mono; [done| |]; intros x _; [apply Ht|apply Hh].
  - intros p. cbn [rights l']. intros [Hp|Hp]%elem_of_app; [|by left]. right.
    destruct (own l) as [|c|h]; [by apply elem_of_nil in Hp..|]. apply list_elem_of_singleton in Hp as ->.
    destruct Hown as (Hk & Hkey & H3 & H4 & _). simpl in Hd. specialize (Hd _ eq_refl).
    assert (~ held (l' :: ls) (h_claim h)) as Hnh by (rewrite held_cons; by intros [[=]|]).
    exists (h_key h). split; [done|]. split.
    + right. exists (h_claim h). do 2 (split; [done|]). split; [|by right]. intros Hc%drawn_held. done.
    + intros i o Hi _ Hnm. assert (ob_claim o = Some (h_claim h)) as Hc.
      { apply (H4 i o Hi). eapply named_claim; [done|done|apply Hk|done]. }
      destruct (H3 i o Hi Hc) as (_ & _ & _ & Hs & _). split; [done|]. by exists (h_claim h).
Qed.

(** What a handler may delete once no row of its key names it. *)
Lemma right_superseded objs blob drawn l ls bucket key b :
  claims_ok objs blob drawn (l :: ls) -> plain key ->
  b = key \/ (exists c, known drawn c /\ b = B key c /\ ~ is_drawn (l :: ls) c /\ gone objs c) ->
  (forall i o, objs !! i = Some o -> ob_bucket o = bucket -> ob_key o = key -> ob_name o <> b) ->
  right_ok objs drawn (is_drawn (l :: ls)) (held (l :: ls)) (bucket, b).
Proof.
  intros Hok Hkey Hb Hn. pose proof (co_rows _ _ _ _ Hok) as Hrows. exists key. split; [done|]. split.
  - destruct Hb as [->|(c & Hk & -> & Ht & Hg)]; [by left|]. right. exists c. do 3 (split; [done|]). by left.
  - intros i o Hi Hbk Hnm. simpl in *. destruct (Hn i o Hi Hbk); [|done].
    destruct (ro_obj _ _ _ Hrows i o Hi) as (Hko & _ & Hbo).
    destruct Hb as [->|(c & [Hu _] & -> & _)].
    + unfold ob_name, stored_blob_key in Hnm. destruct (ob_blob o) as [b|]; simpl in Hnm; [|done].
      destruct (Hbo b eq_refl) as (c & [Hu _] & ->). destruct (B_not_plain (ob_key o) c Hu). by rewrite Hnm.
    + eapply named_key; [done|done|done|exact Hu|by right].
Qed.

(** The row of a claim is settled. *)
Section Settle.
Context objs (blob : string -> string -> option string) (drawn : string -> Prop) (l : Handler) (ls : list Handler) (h : Holding) (id : string) (o o' : Obj).
Hypothesis Hok : claims_ok objs blob drawn (l :: ls).
Hypothesis Hown : own l = Holds h.
Hypothesis Ho : objs !! id = Some o.
Hypothesis Hclaim : ob_claim o = Some (h_claim h).
Hypothesis Hbucket : ob_bucket o' = ob_bucket o.
Hypothesis Hkey : ob_key o' = ob_key o.
Hypothesis Hclaim' : ob_claim o' = Some (h_claim h).
Hypothesis Hcomplete : ob_status o' = ObjectComplete.
Abbreviation objs' := (<[id := o']> objs).

Lemma settle_own : own_ok objs blob drawn (is_drawn (l :: ls)) (Holds h).
Proof. pose proof (co_own _ _ _ _ Hok) as [Hw _]%Forall_cons. by rewrite Hown in Hw. Qed.
Lemma settle_row : id = h_id h /\ ob_bucket o = h_bucket h /\ ob_key o = h_key h /\ ob_status o = ObjectPending /\ ob_size o = h_size h.
Proof. destruct settle_own as (_ & _ & H3 & _). destruct (H3 id o Ho Hclaim) as (? & ? & ? & ? & ? & _). by split_and!. Qed.

Lemma claims_settle rs :
  ob_blob o' = Some (B (ob_key o') (h_claim h)) \/ ob_blob o' = ob_blob o ->
  stored_at blob (ob_bucket o') (ob_name o') (ob_size o') ->
  let l' := {| own := NoClaim; facts := facts l; rights := rs |} in
  (forall p, p ∈ rs -> p ∈ rights l \/ right_ok objs' drawn (is_drawn (l' :: ls)) (held (l' :: ls)) p) ->
  claims_ok objs' blob drawn (l' :: ls).
Proof.
  intros Hb Hst l' Hrs. pose proof Hok as [Hrows _ Hd _ _]. apply distinct_head in Hd as [Hd _]. rewrite Hown in Hd.
  destruct settle_own as (Hk & Hp & H3 & H4 & H5). destruct settle_row as (Hid & Hbk & Hky & Hpend & _).
  destruct (ro_obj _ _ _ Hrows id o Ho) as (Hpk & Hcl & Hbl).
  assert (forall x, is_drawn (l' :: ls) x -> is_drawn (l :: ls) x) as Ht.
  { intros x. rewrite !is_drawn_cons. intros [[=]|]; by right. }
  assert (forall x, held (l' :: ls) x -> held (l :: ls) x) as Hhd.
  { intros x. rewrite !held_cons. intros [[=]|]; by right. }
  assert (change objs (is_drawn (l :: ls)) id (h_claim h) o') as Hch.
  { apply (ChangeSettle objs _ id _ o' o); done. }
  eapply claims_step; [exact Hok| |done|done| | | |by left|done].
  - apply rows_ok_insert with (c := h_claim h); [done| |done|apply Hk| |done].
    + split; [by rewrite Hkey|]. split; [intros x; rewrite Hclaim'; intros [= <-]; done|]. intros b Hb'. rewrite Hkey in *.
      destruct Hb as [Hb|Hb]; [exists (h_claim h); split; [done|congruence]|apply Hbl; congruence].
    + intros i o1 Hne Hi. assert (ob_claim o1 <> Some (h_claim h)) as Hnc.
      { intros Hc. apply Hne. by eapply (ro_claim _ _ _ Hrows i id). }
      split; [|split; [done|split]].
      * intros [H1 H2]. apply Hne. eapply (ro_key _ _ _ Hrows i id); [done..|congruence|congruence].
      * intros Hob. by apply Hnc, (H4 i).
      * intros c' Hu Hb' Hc'. destruct Hb as [Hb|Hb].
        -- rewrite Hb in Hb'. injection Hb' as Hb'. apply B_inj in Hb' as [_ <-]; [done|apply Hk|done].
        -- apply Hne. symmetry. eapply (ro_named _ _ _ Hrows id i o o1 c'); [done| |done|done|done]. rewrite <- Hkey. congruence.
  - intros w Hw Hwok. eapply own_ok_mono; [done|intros x _; apply Ht|].
    apply (own_ok_change objs (is_drawn (l :: ls)) id (h_claim h) o'); try done; [apply Hk|].
    intros Hc. by destruct (Hd (h_claim h) eq_refl); apply Hw.
  - intros p Hp'. eapply fact_ok_mono; [done|intros x _; apply Ht|]. by apply (fact_ok_change objs (is_drawn (l :: ls)) id (h_claim h) o').
  - intros p Hp'. eapply right_ok_mono; [done|intros x _; apply Ht|intros x _; apply Hhd|].
    apply (right_ok_change objs (is_drawn (l :: ls)) (held (l :: ls)) id (h_claim h) o'); try done; [apply Hk|].
    apply held_cons. left. by rewrite Hown.
Qed.

(** The row names the handler's blob: what it superseded may go. *)
Lemma claims_complete :
  h_stored h = true -> ob_blob o' = Some (B (ob_key o') (h_claim h)) -> ob_size o' = ob_size o ->
  claims_ok objs' blob drawn
    ({| own := NoClaim; facts := facts l; rights := map (pair (h_bucket h)) (h_superseded h) ++ rights l |} :: ls).
Proof.
  intros Hst Hb Hsz. destruct settle_own as (Hk & Hp & H3 & H4 & H5). destruct settle_row as (Hid & Hbk & Hky & Hpend & Hsize).
  assert (claims_ok objs' blob drawn ({| own := NoClaim; facts := facts l; rights := rights l |} :: ls)) as Hok'.
  { apply claims_settle; [by left| |by left]. unfold ob_name. rewrite Hb, Hbucket, Hkey, Hsz, Hbk, Hky, Hsize. simpl.
    by apply (H3 id o Ho Hclaim). }
  apply (claims_learn _ _ _ _ _ _ _ Hok'); [by left|]. intros p [Hp'|Hp']%elem_of_app; [right|by left].
  apply list_elem_of_fmap in Hp' as (b & -> & Hbs). eapply (right_superseded _ _ _ _ _ _ (h_key h)); [exact Hok'|done| |].
  - destruct (H5 b Hbs) as [->|(c' & Hk' & -> & Hne & Ht & Hg)]; [by left|]. right. exists c'. split; [done|]. split; [done|]. split.
    + intros [[=]|Hc]%is_drawn_cons. apply Ht, is_drawn_cons. by right.
    + intros i o1 [[-> ->]|[_ Hi]]%insert_cases; [congruence|by eapply Hg].
  - intros i o1 Hi Hb1 Hk1 Hnm. assert (i = id) as ->.
    { eapply (ro_key _ _ _ (co_rows _ _ _ _ Hok')); [exact Hi|apply lookup_insert_eq|congruence|congruence]. }
    rewrite lookup_insert_eq in Hi. injection Hi as <-. unfold ob_name in Hnm. rewrite Hb in Hnm. simpl in Hnm. subst b.
    rewrite Hkey, Hky in *. destruct (H5 _ Hbs) as [He|(c' & Hk' & He & Hne & _)].
    + apply (B_not_plain (h_key h) (h_claim h)); [apply Hk|]. by rewrite He.
    + apply B_inj in He as [_ He]; [congruence|apply Hk|apply Hk'].
Qed.

(** The row describes the object it replaced again. *)
Lemma claims_restore :
  h_replaced h = Some (ob_size o') -> ob_blob o' = ob_blob o ->
  claims_ok objs' blob drawn
    ({| own := NoClaim; facts := facts l; rights := (h_bucket h, B (h_key h) (h_claim h)) :: rights l |} :: ls).
Proof.
  intros Hrep Hb. destruct settle_own as (Hk & Hp & H3 & H4 & H5). destruct settle_row as (Hid & Hbk & Hky & Hpend & Hsize).
  destruct (H3 id o Ho Hclaim) as (_ & _ & _ & _ & _ & Hrs & _). rewrite Hrep in Hrs. destruct Hrs as [Hne Hrs].
  assert (claims_ok objs' blob drawn ({| own := NoClaim; facts := facts l; rights := rights l |} :: ls)) as Hok'.
  { apply claims_settle; [by right| |by left]. unfold ob_name in *. by rewrite Hb, Hbucket, Hkey, Hbk. }
  apply (claims_learn _ _ _ _ _ _ _ Hok'); [by left|]. intros p [->|Hp']%elem_of_cons; [right|by left].
  pose proof (co_distinct _ _ _ _ Hok) as [Hd _]%distinct_head. rewrite Hown in Hd. specialize (Hd _ eq_refl).
  set (ls' := _ :: ls). assert (~ held ls' (h_claim h)) as Hnh by (unfold ls'; rewrite held_cons; by intros [[=]|]).
  exists (h_key h). split; [done|]. split.
  { right. exists (h_claim h). do 2 (split; [done|]). split; [by intros Hc%drawn_held|by right]. }
  intros i o1 Hi _ Hnm. exfalso. eapply named_claim in Hnm; [|exact (co_rows _ _ _ _ Hok')|exact Hi|apply Hk].
  apply insert_cases in Hi as [[-> ->]|[Hi' Hi]].
  - rewrite Hb, Hkey, Hky in Hnm. done.
  - apply Hi'. eapply (ro_claim _ _ _ (co_rows _ _ _ _ Hok) i id); [done..|by apply (H4 i)|done].
Qed.
End Settle.

(** A row that is gone takes its blobs along. *)
Lemma claims_deleted objs blob drawn l ls id f bs :
  claims_ok objs blob drawn (l :: ls) -> objs !! id = Some f -> fact_ok objs drawn (is_drawn (l :: ls)) (id, f) ->
  (forall b, b ∈ bs -> blob_of_row f b) ->
  claims_ok (delete id objs) blob drawn
    ({| own := own l; facts := facts l; rights := map (pair (ob_bucket f)) bs ++ rights l |} :: ls).
Proof.
  intros Hok Hid Hf Hbs. apply claims_learn; [by apply claims_delete|by left|].
  intros p [Hp|Hp]%elem_of_app; [right|by left]. apply list_elem_of_fmap in Hp as (b & -> & Hb).
  apply (right_superseded _ blob _ _ _ _ (ob_key f)); [by apply claims_delete|by apply Hf| |].
  - destruct (fact_blob _ _ _ _ _ _ Hf (Hbs b Hb)) as [->|(c & Hk & -> & Ht & Hr)]; [by left|]. right. exists c.
    do 3 (split; [done|]). intros i o [Hne Hi]%lookup_delete_Some Hc. apply Hne. symmetry. by apply (Hr i o).
  - intros i o [Hne Hi]%lookup_delete_Some Hbk Hk _. apply Hne. symmetry.
    by eapply (ro_key _ _ _ (co_rows _ _ _ _ Hok) i id).
Qed.
(** So does the row of a claim. *)
Lemma claims_released objs blob drawn l ls h id o :
  claims_ok objs blob drawn (l :: ls) -> own l = Holds h -> objs !! id = Some o -> ob_claim o = Some (h_claim h) ->
  claims_ok (delete id objs) blob drawn
    ({| own := NoClaim; facts := facts l;
        rights := (h_bucket h, B (h_key h) (h_claim h)) :: map (pair (h_bucket h)) (h_superseded h) ++ rights l |} :: ls).
Proof.
  intros Hok Hl Ho Hc. pose proof (co_own _ _ _ _ Hok) as [Hw _]%Forall_cons. rewrite Hl in Hw.
  destruct Hw as (Hk & Hp & H3 & H4 & H5). destruct (H3 id o Ho Hc) as (_ & Hbk & Hky & _).
  pose proof (claims_let_go _ _ _ _ _ (claims_delete _ _ _ _ id Hok)) as Hg. rewrite Hl in Hg.
  apply (claims_learn _ _ _ _ _ _ _ Hg); [by left|].
  intros p [->|[Hp'|Hp']%elem_of_app]%elem_of_cons; [left; by left| |left; by right].
  right. apply list_elem_of_fmap in Hp' as (b & -> & Hbs). eapply (right_superseded _ _ _ _ _ _ (h_key h)); [exact Hg|done| |].
  - destruct (H5 b Hbs) as [->|(c' & Hk' & -> & Hne & Ht & Hgc)]; [by left|]. right. exists c'. do 2 (split; [done|]). split.
    + intros [[=]|Hd]%is_drawn_cons. apply Ht, is_drawn_cons. by right.
    + intros i o1 [_ Hi]%lookup_delete_Some. by eapply Hgc.
  - intros i o1 [Hne Hi]%lookup_delete_Some Hbk1 Hk1 _. apply Hne. symmetry.
    eapply (ro_key _ _ _ (co_rows _ _ _ _ Hok) i id); [done|done|congruence|congruence].
Qed.

(** *** Pools *)

(** More identifiers drawn; the same storage. *)
Lemma claims_same objs blob blob' drawn drawn' ls :
  (forall b n, blob' b n = blob b n) -> (forall c, drawn c -> drawn' c) ->
  claims_ok objs blob drawn ls -> claims_ok objs blob' drawn' ls.
Proof.
  intros Hb Hd [Hrows Hown Hdist Hfacts Hrights].
  assert (forall b n size, stored_at blob b n size -> stored_at blob' b n size) as Hs.
  { intros b n size (x & Hx & Hl). exists x. by rewrite Hb. }
  constructor; [| |done| |].
  - destruct Hrows. constructor; eauto using obj_ok_mono.
  - eapply Forall_impl; [exact Hown|]. intros l Hl. apply (own_ok_blob objs blob); [by eauto|]. by eapply own_ok_mono.
  - eapply Forall_impl; [exact Hfacts|]. intros l Hl. eapply Forall_impl; [exact Hl|]. intros p. by apply fact_ok_mono.
  - eapply Forall_impl; [exact Hrights|]. intros l Hl. eapply Forall_impl; [exact Hl|]. intros p. by apply right_ok_mono.
Qed.

Lemma claims_perm objs blob drawn ls ls' : ls ≡ₚ ls' -> claims_ok objs blob drawn ls -> claims_ok objs blob drawn ls'.
Proof.
  intros Hp [Hrows Hown Hdist Hfacts Hrights].
  assert (forall c, is_drawn ls' c -> is_drawn ls c) as Ht by (intros c (l & Hl & Hc); exists l; split; [by rewrite Hp|done]).
  assert (forall c, held ls' c -> held ls c) as Hh by (intros c (l & Hl & Hc); exists l; split; [by rewrite Hp|done]).
  constructor; [done| | | |].
  - rewrite <- Hp. eapply Forall_impl; [exact Hown|]. intros l. apply own_ok_mono; [done|]. intros c _. apply Ht.
  - by rewrite <- Hp.
  - rewrite <- Hp. eapply Forall_impl; [exact Hfacts|]. intros l Hl. eapply Forall_impl; [exact Hl|]. intros p.
    apply fact_ok_mono; [done|]. intros c _. apply Ht.
  - rewrite <- Hp. eapply Forall_impl; [exact Hrights|]. intros l Hl. eapply Forall_impl; [exact Hl|]. intros p.
    apply right_ok_mono; [done| |]; intros c _; [apply Ht|apply Hh].
Qed.

Lemma claims_idle objs blob drawn n : rows_ok objs blob drawn -> claims_ok objs blob drawn (replicate n idle).
Proof.
  intros Hr. constructor; [done| | | |].
  - by apply Forall_replicate.
  - induction n; [constructor|done].
  - apply Forall_replicate. constructor.
  - apply Forall_replicate. constructor.
Qed.
End Claims.
