(* ===== verification/ObjectRows.v ===== *)
(** * The rows of objects and their calls

    What the columns of a row say, the invariant of the table and of storage
    ([files_inv]: the bookkeeping of [Claims.v] holds of them), and a rule for
    each database and storage call that the files block makes. *)
From Stdlib Require Import String.
From S2P Require Import Features.
From S2P Require Import Prelude Ints Str Contracts SampleLib Wafer Records Effects Columns TableMachine MemoryDb Ghost Failures DbRead Crud Routing Streaming Serving Multipart Interleaving Files Claims.

(** ** Blob keys *)
Section Keys.
Implicit Types (s t key : string).

Lemma rsplit_once_none c s : no_char c s -> rsplit_once c s = None.
Proof.
  unfold no_char. induction s as [|a s IH]; simpl; [done|].
  rewrite andb_true_iff, negb_true_iff. intros [Ha Hs]. by rewrite IH, Ha.
Qed.
Lemma rsplit_once_at c s t : no_char c t -> rsplit_once c (String.append s (String.String c t)) = Some (s, t).
Proof.
  intros Ht. induction s as [|a s IH]; rewrite ?str_app_nil_l, ?str_app_cons; simpl.
  - by rewrite (rsplit_once_none c t Ht), Ascii.eqb_refl.
  - by rewrite IH.
Qed.
Lemma rsplit_once_cases c s :
  match rsplit_once c s with
  | Some (x, y) => s = String.append x (String.String c y) /\ no_char c y
  | None => no_char c s
  end.
Proof.
  unfold no_char. induction s as [|a s IH]; [done|]. simpl. destruct (rsplit_once c s) as [[x y]|].
  - destruct IH as [-> Hy]. by rewrite str_app_cons.
  - destruct (Ascii.eqb_spec a c) as [->|Hne]; [by rewrite str_app_nil_l|]. done.
Qed.

Context {JN : JsonNumbers} {B : Backend} {BL : BackendLaws B}.

Lemma uuid_chars u : is_uuid u = true -> no_char "/" u /\ no_char "~" u.
Proof.
  intros Hu%is_uuid_plain. split; (eapply no_char_forall; [|exact Hu]); intros a Ha ->; by vm_compute in Ha.
Qed.

Lemma append_cancel s t t' : String.append s t = String.append s t' -> t = t'.
Proof. induction s as [|a s IH]; rewrite ?str_app_nil_l, ?str_app_cons; [done|]. intros [= H]. by apply IH. Qed.
Lemma append_cancel_r s s' t : String.append s t = String.append s' t -> s = s'.
Proof.
  revert s'. induction s as [|a s IH]; intros [|b s'] H; rewrite ?str_app_nil_l, ?str_app_cons in H; [done| | |].
  - apply (f_equal String.length) in H. simpl in H. rewrite str_length_app in H. lia.
  - apply (f_equal String.length) in H. simpl in H. rewrite str_length_app in H. lia.
  - injection H as <- H. f_equal. by apply IH.
Qed.

Lemma claim_blob_key_app key u :
  claim_blob_key key u =
  match rsplit_once "/" key with
  | Some (dir, name) => String.append dir (String.String "/" (String.append u (String.String "~" name)))
  | None => String.append u (String.String "~" key)
  end.
Proof.
  unfold claim_blob_key. destruct (rsplit_once "/" key) as [[dir name]|]; cbn [concat_chars foldr];
    by rewrite ?str_app_nil_r, ?str_app_cons, ?str_app_nil_l.
Qed.
Lemma claimed_name_no_slash u name : is_uuid u = true -> no_char "/" name -> no_char "/" (String.append u (String.String "~" name)).
Proof.
  intros [Hu _]%uuid_chars Hn. unfold no_char in *. rewrite str_forall_app, Hu. by simpl.
Qed.
Lemma split_claim u name : is_uuid u = true -> split_once "~" (String.append u (String.String "~" name)) = Some (u, name).
Proof. intros [_ Hu]%uuid_chars. by apply split_once_at. Qed.

Lemma key_again key u (Hu : is_uuid u = true) : object_key_of_blob (claim_blob_key key u) = key.
Proof.
  rewrite claim_blob_key_app. unfold object_key_of_blob. pose proof (rsplit_once_cases "/" key) as Hk.
  destruct (rsplit_once "/" key) as [[dir name]|].
  - destruct Hk as [-> Hn]. rewrite rsplit_once_at by (by apply claimed_name_no_slash).
    rewrite split_claim, Hu by done. cbn [concat_chars foldr]. by rewrite str_app_nil_r, str_app_cons, str_app_nil_l.
  - rewrite rsplit_once_none by (by apply claimed_name_no_slash). by rewrite split_claim, Hu.
Qed.
Lemma claim_blob_key_inj key key' u u' :
  is_uuid u = true -> is_uuid u' = true -> claim_blob_key key u = claim_blob_key key' u' -> key = key' /\ u = u'.
Proof.
  intros Hu Hu' Heq. assert (key = key') as <-.
  { rewrite <- (key_again key u Hu), <- (key_again key' u' Hu'). by rewrite Heq. }
  split; [done|]. rewrite !claim_blob_key_app in Heq. destruct (rsplit_once "/" key) as [[dir name]|].
  - apply append_cancel in Heq. injection Heq as Heq. by apply append_cancel_r in Heq.
  - by apply append_cancel_r in Heq.
Qed.
End Keys.

(** ** Rows *)
Section Rows.
Context {JN : JsonNumbers} {JS : JsonScalars JN} {NL : JsonNumberLaws JN} {DF : DebugFmt}.

(** A text column that may be null. *)
Definition opt_text (cols : columns) (key : string) : option (option string) :=
  match default VNull (cols !! key) with VNull => Some None | VString s => Some (Some s) | _ => None end.
Definition obj_view (cols : columns) : option Obj :=
  bucket ← text_col cols "bucket"; key ← text_col cols "key"; status ← enum_col cols "status"; size ← int_col cols "size";
  claim ← opt_text cols "claim_id"; blob ← opt_text cols "blob_key";
  Some {| ob_bucket := bucket; ob_key := key; ob_status := status; ob_claim := claim; ob_blob := blob; ob_size := size |}.
Definition stored_obj (r : StoredRow) : Obj :=
  {| ob_bucket := o_bucket (sr_row r); ob_key := o_key (sr_row r); ob_status := o_status (sr_row r);
     ob_claim := sr_claim_id r; ob_blob := sr_blob_key r; ob_size := o_size (sr_row r) |}.

Lemma obj_view_cols cols o :
  obj_view cols = Some o <->
  text_col cols "bucket" = Some (ob_bucket o) /\ text_col cols "key" = Some (ob_key o) /\
  enum_col cols "status" = Some (ob_status o) /\ int_col cols "size" = Some (ob_size o) /\
  opt_text cols "claim_id" = Some (ob_claim o) /\ opt_text cols "blob_key" = Some (ob_blob o).
Proof.
  unfold obj_view. split.
  - intros H. destruct (text_col cols "bucket"), (text_col cols "key"), (enum_col cols "status"), (int_col cols "size"),
      (opt_text cols "claim_id"), (opt_text cols "blob_key"); try discriminate H. by injection H as <-.
  - intros (-> & -> & -> & -> & -> & ->). by destruct o.
Qed.

Lemma opt_text_field id cols key t : opt_text cols key = Some t -> opt_str_field (row_of id cols) key = t.
Proof.
  unfold opt_text, opt_str_field. cbn [row_data row_of]. destruct (cols !! key) as [[]|]; simpl; by intros [= <-].
Qed.
Lemma stored_row_view id cols o :
  obj_view cols = Some o ->
  exists r, stored_row (row_of id cols) = Ok r /\ o_id (sr_row r) = id /\ stored_obj r = o.
Proof.
  intros (Hb & Hk & Hs & Hn & Hc & Hbl)%obj_view_cols. unfold stored_row, object_from_record, enum_column_or.
  assert (is_empty (str_field (row_of id cols) "status") = false) as ->.
  { apply enum_col_text in Hs. unfold str_field. cbn [row_data row_of]. rewrite Hs. by destruct (ob_status o). }
  rewrite (enum_column_text id cols "status" (ob_status o)) by done. eexists. split; [reflexivity|].
  cbn [mbind outcome_bind]. split; [done|]. unfold stored_obj. simpl.
  rewrite (str_field_text id cols "bucket" (ob_bucket o)), (str_field_text id cols "key" (ob_key o)),
    (i64_field_int id cols "size" (ob_size o)), (opt_text_field id cols "claim_id" (ob_claim o)),
    (opt_text_field id cols "blob_key" (ob_blob o)) by done.
  by destruct o.
Qed.
Lemma opt_text_overlay data cols key :
  opt_text (overlay data cols) key =
  match data !! key with Some v => opt_text {[key := v]} key | None => opt_text cols key end.
Proof.
  unfold opt_text. rewrite overlay_lookup. destruct (data !! key) as [v|]; [|done]. by rewrite lookup_singleton_eq.
Qed.
Lemma opt_text_insert cols key t : cols !! key = Some (VString t) -> opt_text cols key = Some (Some t).
Proof. unfold opt_text. by intros ->. Qed.

Context {B : Backend} {BL : BackendLaws B}.

Lemma claimed_matches id claim extra i cols o :
  obj_view cols = Some o ->
  matches (still_claimed_by id claim ++ extra) i cols =
  String.eqb i id && (bool_decide (ob_claim o = claim) && matches extra i cols).
Proof.
  intros (_ & _ & _ & _ & Hc & _)%obj_view_cols. unfold still_claimed_by. cbn [app].
  rewrite !matches_cons. unfold eq_filter at 1. rewrite holds_id. f_equal. f_equal.
  unfold opt_text in Hc. destruct claim as [c|].
  - unfold eq_filter. destruct (cols !! "claim_id") as [[]|] eqn:Hcol; simpl in Hc; try discriminate Hc; injection Hc as <-.
    + rewrite holds_null_equal; [|done|by rewrite Hcol]. by rewrite bool_decide_eq_false_2.
    + rewrite (holds_equal_text "claim_id" i cols s) by done. destruct (String.eqb_spec s c) as [->|Hne].
      * by rewrite bool_decide_eq_true_2.
      * rewrite bool_decide_eq_false_2; [done|congruence].
    + rewrite holds_null_equal; [|done|by rewrite Hcol]. by rewrite bool_decide_eq_false_2.
  - destruct (cols !! "claim_id") as [[]|] eqn:Hcol; simpl in Hc; try discriminate Hc; injection Hc as <-.
    + rewrite holds_is_null; [|done|by rewrite Hcol]. by rewrite bool_decide_eq_true_2.
    + rewrite (holds_is_null_text "claim_id" i cols _ s) by done. by rewrite bool_decide_eq_false_2.
    + rewrite holds_is_null; [|done|by rewrite Hcol]. by rewrite bool_decide_eq_true_2.
Qed.

(** *** Writes to the row of an id *)
Section OneRow.
Context (filters : list Filter) (r : table_rows) (id : string).
Hypothesis Hid : forall i cols, r !! i = Some cols -> matches filters i cols = true -> i = id.

Lemma count_of_id :
  count_rows filters r =
  match r !! id with Some cols => if matches filters id cols then 1 else 0 | None => 0 end.
Proof.
  unfold count_rows. destruct (r !! id) as [cols|] eqn:Hr; [destruct (matches filters id cols) eqn:Hm|].
  - assert (filter (fun p => matches filters p.1 p.2 = true) r = {[id := cols]}) as ->; [|by rewrite map_size_singleton].
    apply map_eq. intros i. apply option_eq. intros c. rewrite map_lookup_filter_Some, lookup_singleton_Some. simpl.
    split; [|by intros [<- <-]]. intros [Hi Hmi]. assert (i = id) as -> by (by eapply Hid). split; [done|congruence].
  - assert (filter (fun p => matches filters p.1 p.2 = true) r = ∅) as ->; [|by rewrite map_size_empty].
    apply map_empty. intros i. apply map_lookup_filter_None. right. intros c Hi. simpl. intros Hmi.
    assert (i = id) as -> by (by eapply Hid). congruence.
  - assert (filter (fun p => matches filters p.1 p.2 = true) r = ∅) as ->; [|by rewrite map_size_empty].
    apply map_empty. intros i. apply map_lookup_filter_None. right. intros c Hi. simpl. intros Hmi.
    assert (i = id) as -> by (by eapply Hid). congruence.
Qed.
Lemma update_of_id data :
  update_rows filters data r =
  match r !! id with
  | Some cols => if matches filters id cols then <[id := overlay data cols]> r else r
  | None => r
  end.
Proof.
  apply map_eq. intros i. unfold update_rows. rewrite map_lookup_imap.
  assert (forall i, i <> id -> (c ← r !! i; Some (if matches filters i c then overlay data c else c)) = r !! i) as Hother.
  { intros j Hj. destruct (r !! j) as [c|] eqn:Hi; [|done]. simpl. destruct (matches filters j c) eqn:Hm; [|done].
    by destruct Hj; eapply Hid. }
  destruct (r !! id) as [cols|] eqn:Hr; [destruct (matches filters id cols) eqn:Hm|].
  - destruct (decide (i = id)) as [->|Hne].
    + rewrite Hr, lookup_insert_eq. simpl. by rewrite Hm.
    + rewrite lookup_insert_ne by done. by apply Hother.
  - destruct (decide (i = id)) as [->|Hne]; [|by apply Hother]. rewrite Hr. simpl. by rewrite Hm.
  - destruct (decide (i = id)) as [->|Hne]; [|by apply Hother]. by rewrite Hr.
Qed.
Lemma delete_of_id :
  delete_rows filters r =
  match r !! id with
  | Some cols => if matches filters id cols then delete id r else r
  | None => r
  end.
Proof.
  apply map_eq. intros i. unfold delete_rows.
  assert (forall i, i <> id -> filter (fun p => matches filters p.1 p.2 = false) r !! i = r !! i) as Hother.
  { intros j Hj. apply option_eq. intros c. rewrite map_lookup_filter_Some. simpl. split; [by intros []|]. intros Hi.
    split; [done|]. apply not_true_iff_false. intros Hm. by destruct Hj; eapply Hid. }
  destruct (r !! id) as [cols|] eqn:Hr; [destruct (matches filters id cols) eqn:Hm|].
  - destruct (decide (i = id)) as [->|Hne].
    + rewrite lookup_delete_eq. apply map_lookup_filter_None. right. intros c Hi. simpl. congruence.
    + rewrite lookup_delete_ne by done. by apply Hother.
  - destruct (decide (i = id)) as [->|Hne]; [|by apply Hother]. rewrite Hr.
    apply map_lookup_filter_Some. simpl. split; [done|]. done.
  - destruct (decide (i = id)) as [->|Hne]; [|by apply Hother]. rewrite Hr. apply map_lookup_filter_None. by left.
Qed.
End OneRow.
End Rows.

(** ** The invariant of the table and the storage *)
Section Invariant.
Context {JN : JsonNumbers} {JS : JsonScalars JN} {NL : JsonNumberLaws JN} {DF : DebugFmt} {B : Backend} {BL : BackendLaws B}.

Definition uuid (u : string) : Prop := is_uuid u = true.
(** A key that spells no claim. *)
Definition plain (key : string) : Prop := object_key_of_blob key = key.

Lemma claimed_inj k k' c c' : uuid c -> uuid c' -> claim_blob_key k c = claim_blob_key k' c' -> k = k' /\ c = c'.
Proof. apply claim_blob_key_inj. Qed.
Lemma claimed_not_plain k c : uuid c -> plain (claim_blob_key k c) -> False.
Proof.
  unfold plain. intros Hc. rewrite key_again by done. rewrite claim_blob_key_app. intros Hk.
  pose proof (rsplit_once_cases "/" k) as Hs. apply (f_equal String.length) in Hk.
  destruct (rsplit_once "/" k) as [[dir name]|].
  - destruct Hs as [-> _]. rewrite !str_length_app in Hk. simpl in Hk. rewrite str_length_app in Hk. simpl in Hk. lia.
  - rewrite str_length_app in Hk. simpl in Hk. lia.
Qed.

Definition objects (s : state) : gmap string Obj := omap obj_view (rows s OBJECTS_TABLE).
Definition blob_content (cols : columns) : option string :=
  match cols !! "content" with Some (VString content) => Some content | _ => None end.
Definition blob_at (s : state) (bucket name : string) : option string :=
  rows s (storage_of bucket) !! name ≫= blob_content.
Definition drawn_at (s : state) (c : string) : Prop := is_Some (rows s drawn_ids !! c).

Definition objects_wf (s : state) : Prop :=
  forall id cols, rows s OBJECTS_TABLE !! id = Some cols -> is_Some (obj_view cols).
Definition files_inv (s : state) (ls : list Handler) : Prop :=
  objects_wf s /\ claims_ok claim_blob_key uuid plain (objects s) (blob_at s) (drawn_at s) ls.

Lemma objects_row s id o :
  objects s !! id = Some o <-> exists cols, rows s OBJECTS_TABLE !! id = Some cols /\ obj_view cols = Some o.
Proof. unfold objects. rewrite lookup_omap_Some. split; intros (cols & H1 & H2); by exists cols. Qed.
Lemma objects_none s id : objects_wf s -> objects s !! id = None -> rows s OBJECTS_TABLE !! id = None.
Proof.
  intros Hwf Hn. destruct (rows s OBJECTS_TABLE !! id) as [cols|] eqn:Hr; [|done].
  destruct (Hwf _ _ Hr) as [o Ho]. rewrite (proj2 (objects_row s id o)) in Hn by eauto. done.
Qed.

Lemma storage_not_objects b : storage_of b <> OBJECTS_TABLE.
Proof. unfold storage_of. by rewrite str_app_cons. Qed.
Lemma objects_not_storage b : OBJECTS_TABLE <> storage_of b.
Proof. intros H. by apply (storage_not_objects b). Qed.
Lemma storage_not_drawn b : storage_of b <> drawn_ids.
Proof. unfold storage_of. by rewrite str_app_cons. Qed.
#[local] Hint Resolve storage_not_objects objects_not_storage storage_not_drawn : core.
Lemma storage_inj b b' : storage_of b = storage_of b' -> b = b'.
Proof. apply append_cancel. Qed.

(** A state with the same objects, blobs and identifiers. *)
Lemma files_inv_same s s' ls :
  rows s' OBJECTS_TABLE = rows s OBJECTS_TABLE -> (forall b, rows s' (storage_of b) = rows s (storage_of b)) ->
  (forall c, drawn_at s c -> drawn_at s' c) -> files_inv s ls -> files_inv s' ls.
Proof.
  intros Ho Hb Hd [Hwf Hok]. split; [intros id cols; rewrite Ho; by apply Hwf|]. unfold objects. rewrite Ho.
  eapply (claims_same claim_blob_key uuid plain claimed_inj); [|exact Hd|exact Hok].
  intros b n. unfold blob_at. by rewrite Hb.
Qed.

Lemma files_inv_write s ls ls' id cols o :
  files_inv s ls -> obj_view cols = Some o ->
  claims_ok claim_blob_key uuid plain (<[id := o]> (objects s)) (blob_at s) (drawn_at s) ls' ->
  files_inv (set_rows s OBJECTS_TABLE (<[id := cols]> (rows s OBJECTS_TABLE))) ls'.
Proof.
  intros [Hwf _] Ho Hok. set (s' := set_rows _ _ _). split.
  - intros i c. unfold s'. rewrite rows_set_rows. intros [[_ <-]|[_ Hi]]%lookup_insert_Some; [by eexists|by eapply Hwf].
  - assert (objects s' = <[id := o]> (objects s)) as ->.
    { unfold objects, s'. rewrite rows_set_rows. by apply omap_insert_Some. }
    apply (claims_same claim_blob_key uuid plain claimed_inj _ (blob_at s) _ (drawn_at s)); [..|exact Hok].
    + intros b n. unfold blob_at, s'. by rewrite rows_set_other.
    + intros c. unfold drawn_at, s'. by rewrite rows_set_other.
Qed.
Lemma files_inv_delete s ls ls' id :
  files_inv s ls -> claims_ok claim_blob_key uuid plain (delete id (objects s)) (blob_at s) (drawn_at s) ls' ->
  files_inv (set_rows s OBJECTS_TABLE (delete id (rows s OBJECTS_TABLE))) ls'.
Proof.
  intros [Hwf _] Hok. set (s' := set_rows _ _ _). split.
  - intros i c. unfold s'. rewrite rows_set_rows. intros [_ Hi]%lookup_delete_Some. by eapply Hwf.
  - assert (objects s' = delete id (objects s)) as ->.
    { unfold objects, s'. rewrite rows_set_rows. apply omap_delete. }
    apply (claims_same claim_blob_key uuid plain claimed_inj _ (blob_at s) _ (drawn_at s)); [..|exact Hok].
    + intros b n. unfold blob_at, s'. by rewrite rows_set_other.
    + intros c. unfold drawn_at, s'. by rewrite rows_set_other.
Qed.
Lemma files_inv_blobs s ls ls' bucket r :
  files_inv s ls ->
  (forall blob', (forall b n, b <> bucket -> blob' b n = blob_at s b n) -> (forall n, blob' bucket n = r !! n ≫= blob_content) ->
     claims_ok claim_blob_key uuid plain (objects s) blob' (drawn_at s) ls') ->
  files_inv (set_rows s (storage_of bucket) r) ls'.
Proof.
  intros [Hwf _] Hok. set (s' := set_rows _ _ _). split.
  - intros i c. unfold s'. rewrite rows_set_other by done. by apply Hwf.
  - assert (objects s' = objects s) as -> by (unfold objects, s'; by rewrite rows_set_other).
    apply (claims_same claim_blob_key uuid plain claimed_inj _ (blob_at s') _ (drawn_at s)); [done| |apply Hok].
    + intros c. unfold drawn_at, s'. by rewrite rows_set_other.
    + intros b n Hne. unfold blob_at, s'. rewrite rows_set_other; [done|]. intros He%storage_inj. by apply Hne.
    + intros n. unfold blob_at, s'. by rewrite rows_set_rows.
Qed.

Lemma files_inv_perm s ls ls' : ls ≡ₚ ls' -> files_inv s ls -> files_inv s ls'.
Proof. intros Hp [Hwf Hok]. split; [done|]. by eapply (claims_perm claim_blob_key uuid plain claimed_inj). Qed.
End Invariant.

(** ** Calls *)
Section Calls.
Context {JN : JsonNumbers} {JS : JsonScalars JN} {NL : JsonNumberLaws JN} {DF : DebugFmt} {B : Backend} {BL : BackendLaws B}.
Abbreviation keeps := (upholds files_inv).
Implicit Types (l : Handler).

(** A call on other tables. *)
Definition aside {R} (c : call R) : Prop :=
  Forall (fun t => t <> OBJECTS_TABLE /\ t <> drawn_ids /\ forall b, storage_of b <> t) (written_tables c).
Lemma keeps_aside {R A} (Q : A -> Handler -> Prop) (c : call R) (k : R -> prog A) l :
  aside c -> (forall r, keeps Q l (k r)) -> keeps Q l (Do c k).
Proof.
  intros Ha Hk s others r s' HI Hc. exists l. split; [|by apply Hk]. unfold aside in Ha. rewrite Forall_forall in Ha.
  assert (forall t, (forall t', t' ∈ written_tables c -> t' <> t) -> rows s' t = rows s t) as Hrows.
  { intros t Ht. eapply call_step_other; [|exact Hc]. intros Hin. by apply (Ht t Hin). }
  eapply files_inv_same; [| | |exact HI].
  - apply Hrows. intros t' Ht. apply (Ha t' Ht).
  - intros b. apply Hrows. intros t' Ht He. destruct (Ha t' Ht) as (_ & _ & Hb). by apply (Hb b).
  - intros c'. unfold drawn_at. rewrite (Hrows drawn_ids); [done|]. intros t' Ht. apply (Ha t' Ht).
Qed.
Fixpoint all_aside {A} (p : prog A) : Prop :=
  match p with Done _ => True | Do c k => aside c /\ forall r, all_aside (k r) end.
Lemma all_aside_bind {A C} (p : prog A) (f : A -> prog C) : all_aside p -> (forall a, all_aside (f a)) -> all_aside (p ≫= f).
Proof.
  intros Hp Hf. induction p as [a|R c k IH]; [by apply Hf|]. destruct Hp as [Hc Hk]. split; [done|]. intros r. by apply IH.
Qed.
Lemma all_aside_try {E A C} (p : prog (outcome E A)) (f : A -> prog (outcome E C)) :
  all_aside p -> (forall a, all_aside (f a)) -> all_aside (prog_try p f).
Proof. intros Hp Hf. apply all_aside_bind; [done|]. intros [a|e|]; [apply Hf|done..]. Qed.
Lemma all_aside_fail {E F A C} (g : E -> F) (p : prog (outcome E A)) (f : A -> prog (outcome F C)) :
  all_aside p -> (forall a, all_aside (f a)) -> all_aside (or_fail g p f).
Proof. intros Hp Hf. apply all_aside_bind; [done|]. intros [a|e|]; [apply Hf|done..]. Qed.
Lemma keeps_all_aside {A C} (Q : C -> Handler -> Prop) (p : prog A) (f : A -> prog C) l :
  all_aside p -> (forall a, keeps Q l (f a)) -> keeps Q l (p ≫= f).
Proof.
  intros Hp Hf. revert Hp. induction p as [a|R c k IH]; intros Hp; [by apply Hf|]. destruct Hp as [Hc Hk].
  apply keeps_aside; [done|]. intros r. by apply IH.
Qed.

(** The handler's book-keeping may move on without a call. *)
Lemma keeps_ghost {A} (Q : A -> Handler -> Prop) l l' (p : prog A) :
  (forall s others, files_inv s (l :: others) -> files_inv s (l' :: others)) ->
  (forall a, Q a l' -> Q a l) -> keeps Q l' p -> keeps Q l p.
Proof.
  intros Hg HQ. destruct p as [a|R c k]; simpl; [by apply HQ|]. intros Hk s others r s' HI. apply Hk. by apply Hg.
Qed.

(** *** Reading rows *)

(** What a handler knows and is entitled to grows by what it reads. *)
Definition learned l l' : Prop := own l' = own l /\ rights l' = rights l /\ (forall p, p ∈ facts l -> p ∈ facts l').
#[local] Instance learned_preorder : PreOrder learned.
Proof.
  split; [by intros l|]. intros l1 l2 l3 (H1 & H2 & H3) (H4 & H5 & H6). split; [congruence|]. split; [congruence|]. auto.
Qed.
Definition known_row l (row : Row) : Prop :=
  exists r, stored_row row = Ok r /\ (o_id (sr_row r), stored_obj r) ∈ facts l /\ obj_view (row_data row) = Some (stored_obj r).

Lemma learn_rows s l others (rs : list Row) :
  files_inv s (l :: others) ->
  Forall (fun row => rows s OBJECTS_TABLE !! row_id row = Some (row_data row)) rs ->
  exists l', files_inv s (l' :: others) /\ learned l l' /\ Forall (known_row l') rs.
Proof.
  intros [Hwf Hok] Hrs.
  assert (Forall (fun row => exists o, objects s !! row_id row = Some o /\ obj_view (row_data row) = Some o) rs) as Hobj.
  { eapply Forall_impl; [exact Hrs|]. intros row Hr. destruct (Hwf _ _ Hr) as [o Ho]. exists o. split; [|done].
    apply objects_row. by exists (row_data row). }
  set (new := omap (fun row => o ← obj_view (row_data row); Some (row_id row, o)) rs).
  exists {| own := own l; facts := new ++ facts l; rights := rights l |}. split; [|split].
  - split; [done|]. apply (claims_learn claim_blob_key uuid plain claimed_inj); [done| |by left].
    intros p [Hp|Hp]%elem_of_app; [right|by left]. apply list_elem_of_omap in Hp as (row & Hin & Ho).
    rewrite Forall_forall in Hobj. destruct (Hobj row Hin) as (o & Hobjs & Hv). rewrite Hv in Ho. injection Ho as <-.
    by eapply (fact_of_row claim_blob_key uuid plain).
  - split; [done|]. split; [done|]. intros p Hp. simpl. apply elem_of_app. by right.
  - apply Forall_forall. intros row Hin. rewrite Forall_forall in Hobj. destruct (Hobj row Hin) as (o & Hobjs & Hv).
    destruct (stored_row_view (row_id row) (row_data row) o Hv) as (r & Hr & Hid & Ho). exists r.
    split; [by destruct row|]. split; [|by rewrite Ho]. simpl. apply elem_of_app. left.
    apply list_elem_of_omap. exists row. split; [done|]. rewrite Hv. simpl. by rewrite Hid, Ho.
Qed.

Lemma keeps_list {A} (Q : A -> Handler -> Prop) filters limit (k : WResult (list Row) -> prog A) l :
  (forall rs l', learned l l' -> Forall (known_row l') rs ->
     Forall (fun row => matches filters (row_id row) (row_data row) = true) rs -> keeps Q l' (k (Ok rs))) ->
  (forall e, keeps Q l (k (Err e))) ->
  keeps Q l (Do (ListRows OBJECTS_TABLE filters limit) k).
Proof.
  intros Hok Herr s others r s' HI (-> & Hr). destruct Hr as [(e & -> & _)|(rs & -> & Hrs & _)]; [by exists l|].
  destruct (learn_rows s l others rs) as (l' & HI' & Hl & Hk); [done| |].
  - eapply Forall_impl; [exact Hrs|]. by intros row [].
  - exists l'. split; [done|]. apply Hok; [done|done|]. eapply Forall_impl; [exact Hrs|]. by intros row [].
Qed.
Lemma keeps_page {A} (Q : A -> Handler -> Prop) filters sort desc limit offset (k : WResult (list Row * Z) -> prog A) l :
  (forall rs n l', learned l l' -> Forall (known_row l') rs -> keeps Q l' (k (Ok (rs, n)))) ->
  (forall e, keeps Q l (k (Err e))) ->
  keeps Q l (Do (ListPage OBJECTS_TABLE filters sort desc limit offset) k).
Proof.
  intros Hok Herr s others r s' HI (-> & Hr). destruct Hr as [(e & -> & _)|(ps & [Hp _] & ->)]; [by exists l|].
  set (rs := map _ _). destruct (learn_rows s l others rs) as (l' & HI' & Hl & Hk); [done| |].
  - apply Forall_map, Forall_take, Forall_drop, Forall_forall. intros [i cols] Hin. rewrite Hp in Hin.
    apply elem_of_map_to_list, map_lookup_filter_Some in Hin as [Hin _]. done.
  - exists l'. split; [done|]. by apply Hok.
Qed.

(** *** Writing the row of a claim *)
Lemma claimed_row s id claim extra :
  objects_wf s ->
  let filters := still_claimed_by id claim ++ extra in
  let r := rows s OBJECTS_TABLE in
  (exists cols o, r !! id = Some cols /\ obj_view cols = Some o /\ ob_claim o = claim /\ matches extra id cols = true /\
     count_rows filters r = 1 /\ (forall data, update_rows filters data r = <[id := overlay data cols]> r) /\
     delete_rows filters r = delete id r) \/
  (count_rows filters r = 0 /\ (forall data, update_rows filters data r = r) /\ delete_rows filters r = r).
Proof.
  intros Hwf filters r.
  assert (forall i cols o, r !! i = Some cols -> obj_view cols = Some o ->
    matches filters i cols = String.eqb i id && (bool_decide (ob_claim o = claim) && matches extra i cols)) as Hm.
  { intros i cols o _ Hv. by apply claimed_matches. }
  assert (forall i cols, r !! i = Some cols -> matches filters i cols = true -> i = id) as Hid.
  { intros i cols Hi Hmi. destruct (Hwf _ _ Hi) as [o Ho]. rewrite (Hm i cols o Hi Ho) in Hmi.
    apply andb_true_iff in Hmi as [He _]. by apply String.eqb_eq. }
  rewrite (count_of_id filters r id Hid), (delete_of_id filters r id Hid).
  assert (forall data, update_rows filters data r = match r !! id with
    | Some cols => if matches filters id cols then <[id := overlay data cols]> r else r | None => r end) as Hu
    by (intros data; by apply update_of_id).
  destruct (r !! id) as [cols|] eqn:Hr; [|by right]. destruct (matches filters id cols) eqn:Hmi; [left|by right].
  destruct (Hwf _ _ Hr) as [o Ho]. rewrite (Hm id cols o Hr Ho) in Hmi. apply andb_true_iff in Hmi as [_ Hmi].
  apply andb_true_iff in Hmi as [Hc He]. apply bool_decide_eq_true in Hc. exists cols, o. by split_and!.
Qed.
Lemma files_inv_unchanged s ls : files_inv s ls -> files_inv (set_rows s OBJECTS_TABLE (rows s OBJECTS_TABLE)) ls.
Proof.
  apply files_inv_same; [by rewrite rows_set_rows|intros b; by rewrite rows_set_other|].
  intros c. unfold drawn_at. by rewrite rows_set_other.
Qed.

(** An update of the row of a claim: [after] is what it makes of the row, if
    there is one. *)
Lemma keeps_update {A} (Q : A -> Handler -> Prop) id claim extra data (k : WResult Z -> prog A) l la ln :
  (forall s others cols o, files_inv s (l :: others) -> objects s !! id = Some o -> ob_claim o = claim ->
     obj_view cols = Some o -> matches extra id cols = true ->
     exists o', obj_view (overlay data cols) = Some o' /\
       claims_ok claim_blob_key uuid plain (<[id := o']> (objects s)) (blob_at s) (drawn_at s) (la :: others)) ->
  (forall s others, files_inv s (l :: others) -> files_inv s (ln :: others)) ->
  keeps Q la (k (Ok 1)) -> keeps Q ln (k (Ok 0)) -> (forall e, keeps Q la (k (Err e)) /\ keeps Q ln (k (Err e))) ->
  keeps Q l (Do (UpdateByFiltersCount OBJECTS_TABLE (still_claimed_by id claim ++ extra) data) k).
Proof.
  intros Hafter Hnone H1 H0 He s others r s' HI Hc. pose proof HI as [Hwf Hok].
  assert (exists l', files_inv (set_rows s OBJECTS_TABLE (update_rows (still_claimed_by id claim ++ extra) data (rows s OBJECTS_TABLE))) (l' :: others) /\
    keeps Q l' (k (Ok (count_rows (still_claimed_by id claim ++ extra) (rows s OBJECTS_TABLE)))) /\
    forall e, keeps Q l' (k (Err e))) as (l' & HI' & Hk1 & Hk2).
  { destruct (claimed_row s id claim extra Hwf) as [(cols & o & Hr & Hv & Hcl & Hex & -> & -> & _)|(-> & -> & _)].
    - destruct (Hafter s others cols o) as (o' & Hv' & Hok'); [done|apply objects_row; by exists cols|done..|].
      exists la. split; [by eapply files_inv_write|]. split; [done|]. intros e. apply He.
    - exists ln. split; [by apply files_inv_unchanged, Hnone|]. split; [done|]. intros e. apply He. }
  destruct Hc as [[(e & -> & _) [->| ->]]|[-> ->]]; [|by exists l'..]. exists ln. split; [by apply Hnone|]. apply He.
Qed.

(** So is a delete. *)
Lemma keeps_delete {A} (Q : A -> Handler -> Prop) id claim extra (k : WResult Z -> prog A) l la ln :
  (forall s others cols o, files_inv s (l :: others) -> objects s !! id = Some o -> ob_claim o = claim ->
     obj_view cols = Some o -> matches extra id cols = true ->
     claims_ok claim_blob_key uuid plain (delete id (objects s)) (blob_at s) (drawn_at s) (la :: others)) ->
  (forall s others, files_inv s (l :: others) -> files_inv s (ln :: others)) ->
  keeps Q la (k (Ok 1)) -> keeps Q ln (k (Ok 0)) -> (forall e, keeps Q la (k (Err e)) /\ keeps Q ln (k (Err e))) ->
  keeps Q l (Do (DeleteByFiltersCount OBJECTS_TABLE (still_claimed_by id claim ++ extra)) k).
Proof.
  intros Hafter Hnone H1 H0 He s others r s' HI Hc. pose proof HI as [Hwf Hok].
  assert (exists l', files_inv (set_rows s OBJECTS_TABLE (delete_rows (still_claimed_by id claim ++ extra) (rows s OBJECTS_TABLE))) (l' :: others) /\
    keeps Q l' (k (Ok (count_rows (still_claimed_by id claim ++ extra) (rows s OBJECTS_TABLE)))) /\
    forall e, keeps Q l' (k (Err e))) as (l' & HI' & Hk1 & Hk2).
  { destruct (claimed_row s id claim extra Hwf) as [(cols & o & Hr & Hv & Hcl & Hex & -> & _ & ->)|(-> & _ & ->)].
    - exists la. split; [|split; [done|intros e; apply He]]. eapply files_inv_delete; [done|].
      eapply Hafter; [done|apply objects_row; by exists cols|done..].
    - exists ln. split; [by apply files_inv_unchanged, Hnone|]. split; [done|]. intros e. apply He. }
  destruct Hc as [[(e & -> & _) [->| ->]]|[-> ->]]; [|by exists l'..]. exists ln. split; [by apply Hnone|]. apply He.
Qed.

(** *** Identifiers and blobs *)
Lemma keeps_draw {A} (Q : A -> Handler -> Prop) (k : string -> prog A) l :
  own l = NoClaim ->
  (forall c, uuid c -> keeps Q {| own := Drawn c; facts := facts l; rights := rights l |} (k c)) ->
  keeps Q l (Do FreshId k).
Proof.
  intros Hl Hk s others c s' [Hwf Hok] (Hn & Hu & ->). exists {| own := Drawn c; facts := facts l; rights := rights l |}.
  split; [|by apply Hk]. set (s' := set_rows _ _ _). split; [intros i cols; unfold s'; rewrite rows_set_other by done; by apply Hwf|].
  assert (objects s' = objects s) as -> by (unfold objects, s'; by rewrite rows_set_other).
  apply (claims_same claim_blob_key uuid plain claimed_inj _ (blob_at s) _ (drawn_at s')); [|done|].
  - intros b n. unfold blob_at, s'. by rewrite rows_set_other by (intros H; by apply (storage_not_drawn b)).
  - eapply (claims_draw claim_blob_key uuid plain claimed_inj); [exact Hok|done|done| |].
    + unfold drawn_at. rewrite Hn. by intros [].
    + intros x. unfold drawn_at, s'. rewrite rows_set_rows, lookup_insert_is_Some'. split; intros [->|]; auto.
Qed.
Lemma keeps_fresh {A} (Q : A -> Handler -> Prop) (k : string -> prog A) l :
  (forall c, keeps Q l (k c)) -> keeps Q l (Do FreshId k).
Proof.
  intros Hk s others c s' HI (Hn & Hu & ->). exists l. split; [|by apply Hk].
  eapply files_inv_same; [..|exact HI]; [by rewrite rows_set_other| |].
  - intros b. by rewrite rows_set_other by (intros H; by apply (storage_not_drawn b)).
  - intros x. unfold drawn_at. rewrite rows_set_rows, lookup_insert_is_Some'. auto.
Qed.

Lemma blob_at_other s bucket name content b n :
  (b, n) <> (bucket, name) ->
  blob_at (set_rows s (storage_of bucket) (<[name := content]> (rows s (storage_of bucket)))) b n = blob_at s b n.
Proof.
  intros Hne. unfold blob_at. destruct (decide (b = bucket)) as [->|Hb].
  - rewrite rows_set_rows, lookup_insert_ne; [done|]. congruence.
  - rewrite rows_set_other; [done|]. by intros He%storage_inj.
Qed.

Lemma keeps_erase {A} (Q : A -> Handler -> Prop) bucket name (k : WResult unit -> prog A) l :
  (bucket, name) ∈ rights l -> (forall r, keeps Q l (k r)) -> keeps Q l (Do (StoreDelete bucket name) k).
Proof.
  intros Hr Hk s others r s' HI Hc. exists l. split; [|by apply Hk]. simpl in Hc.
  destruct (rows s (storage_of bucket) !! name) eqn:Hn; [|by destruct Hc as [-> _]].
  enough (files_inv (set_rows s (storage_of bucket) (delete name (rows s (storage_of bucket)))) (l :: others)) as HI'
    by (by destruct Hc as [[_ [->| ->]]|[_ ->]]).
  apply (files_inv_blobs s (l :: others)); [done|]. intros blob' Hother Hsame. destruct HI as [_ Hok].
  eapply (claims_erase claim_blob_key uuid plain claimed_inj claimed_not_plain); [exact Hok|exact Hr|].
  intros b n Hne. destruct (decide (b = bucket)) as [->|Hb]; [|by apply Hother]. rewrite Hsame, lookup_delete_ne; [done|]. congruence.
Qed.
Lemma keeps_delete_blobs bucket blobs l :
  (forall b, b ∈ blobs -> (bucket, b) ∈ rights l) -> keeps (fun _ l' => l' = l) l (delete_blobs bucket blobs).
Proof.
  induction blobs as [|b blobs IH]; intros Hb; [done|]. apply keeps_erase; [apply Hb; by left|].
  intros r. apply IH. intros b' Hb'. apply Hb. by right.
Qed.

Lemma keeps_put {A} (Q : A -> Handler -> Prop) h content content_type (k : WResult unit -> prog A) l :
  own l = Holds h -> str_len content = h_size h ->
  (forall r stored, (stored = true <-> r = Ok tt) ->
     keeps Q {| own := Holds (with_stored stored h); facts := facts l; rights := rights l |} (k r)) ->
  keeps Q l (Do (StorePut (h_bucket h) (claim_blob_key (h_key h) (h_claim h)) content content_type) k).
Proof.
  intros Hl Hsz Hk s others r s' HI Hc. set (name := claim_blob_key (h_key h) (h_claim h)) in *.
  assert (forall part stored, (stored = true -> part = content) ->
    files_inv (set_rows s (storage_of (h_bucket h)) (<[name := blob part]> (rows s (storage_of (h_bucket h)))))
      ({| own := Holds (with_stored stored h); facts := facts l; rights := rights l |} :: others)) as Hput.
  { intros part stored Hp. apply (files_inv_blobs s (l :: others)); [done|]. intros blob' Hother Hsame.
    apply (claims_put claim_blob_key uuid plain claimed_inj claimed_not_plain) with (blob := blob_at s); [apply HI|done| |].
    - intros b n Hne. destruct (decide (b = h_bucket h)) as [->|Hb]; [|by apply Hother].
      rewrite Hsame, lookup_insert_ne; [done|]. fold name in Hne. congruence.
    - intros Hs. exists content. rewrite Hsame. fold name. rewrite lookup_insert_eq. rewrite (Hp Hs). split; [|done].
      simpl. unfold blob_content, blob. by rewrite lookup_singleton_eq. }
  destruct Hc as [[-> ->]|[(e & -> & _) [->|(part & ->)]]].
  - eexists. split; [by apply (Hput content true)|]. by apply Hk.
  - exists {| own := Holds (with_stored false h); facts := facts l; rights := rights l |}. split; [|by apply Hk].
    destruct HI as [Hwf Hok]. split; [done|].
    by apply (claims_put claim_blob_key uuid plain claimed_inj claimed_not_plain) with (blob := blob_at s).
  - eexists. split; [by apply (Hput part false)|]. by apply Hk.
Qed.

(** *** Rows of a key *)
Lemma key_filters_match bucket key i cols o :
  obj_view cols = Some o ->
  matches (bucket_key_filters bucket key) i cols = String.eqb (ob_bucket o) bucket && String.eqb (ob_key o) key.
Proof.
  intros (Hb%text_col_value & Hk%text_col_value & _)%obj_view_cols. unfold bucket_key_filters, eq_filter.
  rewrite !matches_cons, (holds_equal_text "bucket" i cols (ob_bucket o)), (holds_equal_text "key" i cols (ob_key o)) by done.
  simpl. by rewrite andb_true_r.
Qed.

(** What a lookup of a key teaches. *)
Definition found_row bucket key l (found : WResult (option StoredRow)) : Prop :=
  match found with
  | Ok (Some r) => (o_id (sr_row r), stored_obj r) ∈ facts l /\ o_bucket (sr_row r) = bucket /\ o_key (sr_row r) = key /\
      in_i64 (o_size (sr_row r)) = true
  | _ => True
  end.
Lemma keeps_rows_of_key bucket key l :
  keeps (fun r l' => learned l l' /\
    match r with
    | Ok rs => Forall (fun row => known_row l' row /\ matches (bucket_key_filters bucket key) (row_id row) (row_data row) = true) rs
    | _ => True
    end) l (rows_of_key bucket key).
Proof.
  unfold rows_of_key, list_bounded, over_read. apply keeps_list; [|done]. intros rs l' Hl Hk Hm. cbn [prog_try prog_bind mbind prog_mbind].
  destruct (_ <? _); simpl; (split; [done|]); [done|]. apply Forall_and. by split.
Qed.
Lemma keeps_find_stored bucket key l :
  keeps (fun r l' => learned l l' /\ found_row bucket key l' r) l (find_stored bucket key).
Proof.
  unfold find_stored. eapply upholds_bind; [apply keeps_rows_of_key|]. intros [rs|e|] l' [Hl Hrs]; simpl; [|by split..].
  split; [done|]. destruct rs as [|row rs]; simpl; [done|]. apply Forall_cons in Hrs as [[(r & Hr & Hin & Hv) Hm] _]. rewrite Hr. simpl.
  split; [done|]. rewrite (key_filters_match bucket key _ _ _ Hv) in Hm. apply andb_true_iff in Hm as [Hb%String.eqb_eq Hk%String.eqb_eq].
  do 2 (split; [done|]). apply obj_view_cols in Hv as (_ & _ & _ & Hn & _). by eapply int_col_range.
Qed.
Lemma keeps_find_row bucket key l : keeps (fun _ l' => learned l l') l (find_by_bucket_key bucket key).
Proof.
  unfold find_by_bucket_key. eapply upholds_bind; [apply keeps_rows_of_key|]. by intros [rs|e|] l' [Hl Hrs].
Qed.
End Calls.
