(* ===== verification/FilesSafety.v ===== *)
(** * What the rows of objects promise

    Uploads, deletes and sweeps interleave at every call and may fail at every
    call; a stored object keeps its bytes all the same. *)
From Stdlib Require Import String.
From S2P Require Import Features.
From S2P Require Import Prelude Ints Str Contracts SampleLib Wafer Records Effects Columns TableMachine MemoryDb Ghost Failures DbRead Crud Routing Streaming Serving Multipart Interleaving Files Claims ObjectRows.

(** ** The operations of the repository *)
Section Operations.
Context {JN : JsonNumbers} {JS : JsonScalars JN} {NL : JsonNumberLaws JN} {DF : DebugFmt} {B : Backend} {BL : BackendLaws B}.
Abbreviation keeps := (upholds files_inv).
Implicit Types (l : Handler).

(** The claim of a reservation. *)
Definition holding_of (rv : Reservation) (size : Z) (stored : bool) : Holding :=
  {| h_claim := rv_claim_id rv; h_id := rv_id rv; h_bucket := rv_bucket rv; h_key := rv_key rv; h_size := size;
     h_replaced := ro_size <$> rv_replaced rv; h_stored := stored; h_superseded := rv_superseded_blobs rv |}.
Definition own_blob (rv : Reservation) : Prop := rv_blob_key rv = claim_blob_key (rv_key rv) (rv_claim_id rv).
Definition may_delete l (bucket : string) (blobs : list string) : Prop := forall b, b ∈ blobs -> (bucket, b) ∈ rights l.

Lemma let_go s l others :
  files_inv s (l :: others) ->
  files_inv s ({| own := NoClaim; facts := facts l;
                  rights := match own l with Holds h => [(h_bucket h, claim_blob_key (h_key h) (h_claim h))] | _ => [] end ++ rights l |} :: others).
Proof. intros [Hwf Hok]. split; [done|]. by apply (claims_let_go claim_blob_key uuid plain claimed_inj claimed_not_plain). Qed.

(** A row that a claim's update writes reads back. *)
Lemma obj_view_overlay data cols o status size blob claim :
  obj_view cols = Some o ->
  data !! "bucket" = None -> data !! "key" = None ->
  (data !! "status" = None /\ status = ob_status o \/ data !! "status" = Some (VString (wire status))) ->
  (data !! "size" = None /\ size = ob_size o \/ in_i64 size = true /\ data !! "size" = Some (json_i64 size)) ->
  (data !! "blob_key" = None /\ blob = ob_blob o \/ exists b, data !! "blob_key" = Some (VString b) /\ blob = Some b) ->
  (data !! "claim_id" = None /\ claim = ob_claim o \/ exists c, data !! "claim_id" = Some (VString c) /\ claim = Some c) ->
  obj_view (overlay data cols) = Some {| ob_bucket := ob_bucket o; ob_key := ob_key o; ob_status := status;
                                         ob_claim := claim; ob_blob := blob; ob_size := size |}.
Proof.
  intros (Hb & Hk & Hs & Hn & Hc & Hbl)%obj_view_cols Hdb Hdk Hds Hdn Hdbl Hdc. apply obj_view_cols. simpl.
  rewrite !text_col_overlay, enum_col_overlay, int_col_overlay, !opt_text_overlay, Hdb, Hdk. do 2 (split; [done|]).
  split; [|split; [|split]].
  - destruct Hds as [[-> ->]| ->]; [done|]. apply wire_roundtrip.
  - destruct Hdn as [[-> ->]|[Hr ->]]; [done|]. simpl. by rewrite number_i64_roundtrip.
  - destruct Hdc as [[-> ->]|(c & -> & ->)]; [done|]. by apply opt_text_insert, lookup_singleton_eq.
  - destruct Hdbl as [[-> ->]|(b & -> & ->)]; [done|]. by apply opt_text_insert, lookup_singleton_eq.
Qed.

Lemma keeps_mark_complete rv size l :
  own l = Holds (holding_of rv size true) -> own_blob rv ->
  keeps (fun r l' => match r with
    | Ok Completed => may_delete l' (rv_bucket rv) (rv_superseded_blobs rv)
    | Ok _ => may_delete l' (rv_bucket rv) [rv_blob_key rv]
    | _ => True
    end) l (mark_complete rv).
Proof.
  intros Hl Hb. unfold mark_complete. rewrite <- (app_nil_r (still_claimed_by _ _)).
  set (la := {| own := NoClaim; facts := facts l; rights := map (pair (rv_bucket rv)) (rv_superseded_blobs rv) ++ rights l |}).
  set (ln := {| own := NoClaim; facts := facts l; rights := (rv_bucket rv, rv_blob_key rv) :: rights l |}).
  apply (keeps_update _ _ _ _ _ _ l la ln).
  - intros s others cols o HI Ho Hc Hv _. eexists. split.
    { apply (obj_view_overlay _ cols o ObjectComplete (ob_size o) (Some (rv_blob_key rv)) (ob_claim o)); [done| | |right|by left|right; eexists|by left];
        unfold complete_data; by data_lookup. }
    apply (claims_complete claim_blob_key uuid plain claimed_inj claimed_not_plain (objects s) _ _ l others (holding_of rv size true) (rv_id rv) o); try done; [apply HI|].
    simpl. rewrite Hb. destruct HI as [_ Hok]. pose proof (co_own _ _ _ _ _ _ _ Hok) as [Hw _]%Forall_cons. rewrite Hl in Hw.
    destruct Hw as (_ & _ & H3 & _). by destruct (H3 _ _ Ho Hc) as (_ & _ & -> & _).
  - intros s others HI. apply let_go in HI. by rewrite Hl in HI; simpl in HI; rewrite <- Hb in HI.
  - simpl. intros b Hin. simpl. apply elem_of_app. left. by apply list_elem_of_fmap_2.
  - cbn [prog_try mbind prog_mbind prog_bind Z.ltb Z.compare]. eapply upholds_bind; [apply keeps_find_row|].
    intros [found|e|] l' (_ & Hr & _); simpl; [|done..].
    assert (may_delete l' (rv_bucket rv) [rv_blob_key rv]) by (intros b ->%list_elem_of_singleton; rewrite Hr; by left).
    by destruct found.
  - done.
Qed.

Lemma keeps_release rv size stored l :
  own l = Holds (holding_of rv size stored) -> own_blob rv ->
  match rv_replaced rv with Some previous => in_i64 (ro_size previous) = true | None => True end ->
  keeps (fun r l' => match r with
    | Ok _ => may_delete l' (rv_bucket rv) (blobs_released_by_rollback rv)
    | Err _ => may_delete l' (rv_bucket rv) [rv_blob_key rv]
    | Panic => True
    end) l (release_reservation rv).
Proof.
  intros Hl Hb Hsize. unfold release_reservation. rewrite <- (app_nil_r (still_claimed_by _ _)).
  set (ln := {| own := NoClaim; facts := facts l; rights := (rv_bucket rv, rv_blob_key rv) :: rights l |}).
  assert (forall s others, files_inv s (l :: others) -> files_inv s (ln :: others)) as Hn.
  { intros s others HI. apply let_go in HI. by rewrite Hl in HI; simpl in HI; rewrite <- Hb in HI. }
  assert (may_delete ln (rv_bucket rv) [rv_blob_key rv]) as Hown by (intros b ->%list_elem_of_singleton; by left).
  unfold blobs_released_by_rollback. destruct (rv_replaced rv) as [previous|] eqn:Hrep.
  - apply (keeps_update _ _ _ _ _ _ l ln ln); [|done|done|done|done].
    intros s others cols o HI Ho Hc Hv _. eexists. split.
    { apply (obj_view_overlay _ cols o ObjectComplete (ro_size previous) (ob_blob o) (ob_claim o)); [done| | |right|right; split; [done|]|by left|by left];
        unfold restore_data; by data_lookup. }
    unfold ln. rewrite Hb.
    apply (claims_restore claim_blob_key uuid plain claimed_inj claimed_not_plain (objects s) _ _ l others (holding_of rv size stored) (rv_id rv) o); try done; [apply HI|].
    simpl. by rewrite Hrep.
  - set (la := {| own := NoClaim; facts := facts l; rights := (rv_bucket rv, rv_blob_key rv) :: map (pair (rv_bucket rv)) (rv_superseded_blobs rv) ++ rights l |}).
    apply (keeps_delete _ _ _ _ _ l la ln); [|done| |done|].
    + intros s others cols o HI Ho Hc Hv _. unfold la. rewrite Hb.
      apply (claims_released claim_blob_key uuid plain claimed_inj claimed_not_plain (objects s) _ _ l others (holding_of rv size stored) (rv_id rv) o); try done. apply HI.
    + intros b [->|Hin]%elem_of_cons; [by left|]. right. apply elem_of_app. left. by apply list_elem_of_fmap_2.
    + intros e. split; [|done]. intros b ->%list_elem_of_singleton. by left.
Qed.

(** A row that is as it was read is deleted, and its blobs may go. *)
Lemma row_blobs_of r b : b ∈ row_blobs r -> blob_of_row claim_blob_key (stored_obj r) b.
Proof.
  assert (forall x bs, b ∈ (if existsb (String.eqb x) bs then bs else bs ++ [x]) -> b ∈ bs \/ b = x) as Hadd.
  { intros x bs. destruct (existsb _ bs); [by left|]. intros [Hin|Hin%list_elem_of_singleton]%elem_of_app; auto. }
  unfold row_blobs, blob_of_row. cbv zeta. destruct (sr_claim_id r) as [c|] eqn:Hc.
  - intros [[Hin|Hin]%Hadd|Hin]%Hadd; [left|right; left|right; right; by exists c]; [|done].
    by apply list_elem_of_singleton in Hin.
  - intros [Hin|Hin]%Hadd; [left|right; left]; [|done]. by apply list_elem_of_singleton in Hin.
Qed.
Lemma keeps_delete_unchanged r l :
  (o_id (sr_row r), stored_obj r) ∈ facts l ->
  keeps (fun found l' => learned {| own := own l; facts := facts l; rights := [] |} {| own := own l'; facts := facts l'; rights := [] |} /\
    (found = Ok true -> may_delete l' (o_bucket (sr_row r)) (row_blobs r))) l (delete_if_unchanged r).
Proof.
  intros Hf. unfold delete_if_unchanged, unchanged_filters.
  set (la := {| own := own l; facts := facts l; rights := map (pair (o_bucket (sr_row r))) (row_blobs r) ++ rights l |}).
  apply (keeps_delete _ _ _ _ _ l la l); [|done| |done|done].
  - intros s others cols o [Hwf Hok] Ho Hc Hv Hst.
    pose proof (co_facts _ _ _ _ _ _ _ Hok) as [Hfacts _]%Forall_cons. rewrite Forall_forall in Hfacts.
    pose proof (Hfacts _ Hf) as Hfact. destruct Hfact as (_ & _ & _ & _ & Hsame). simpl in Hsame.
    assert (o = stored_obj r) as ->.
    { apply (Hsame o Ho); [done|]. apply obj_view_cols in Hv as (_ & _ & Hs & _).
      unfold status_is in Hst. rewrite matches_cons, (holds_enum "status" _ cols (ob_status o)) in Hst by done.
      apply andb_true_iff in Hst as [Hst _]. by apply bool_decide_eq_true in Hst. }
    apply (claims_deleted claim_blob_key uuid plain claimed_inj claimed_not_plain _ _ _ l others _ (stored_obj r)); [done|done|by apply Hfacts|apply row_blobs_of].
  - split; [done|]. intros _ b Hin. simpl. apply elem_of_app. left. by apply list_elem_of_fmap_2.
Qed.

(** *** Claiming a key *)
Definition reserved (size : Z) (bucket : string) l (r : outcome ReserveError Reservation) : Prop :=
  match r with
  | Ok rv => own l = Holds (holding_of rv size false) /\ own_blob rv /\ rv_bucket rv = bucket /\
      match rv_replaced rv with Some previous => in_i64 (ro_size previous) = true | None => True end
  | _ => True
  end.

Section Reserving.
Hypothesis Hunique : unique_columns OBJECTS_TABLE = ["bucket"; "key"].
Context (claim : PendingClaim).
Hypothesis Hplain : plain (pc_key claim).
Hypothesis Hsize : in_i64 (pc_size claim) = true.

Definition new_obj : Obj :=
  {| ob_bucket := pc_bucket claim; ob_key := pc_key claim; ob_status := ObjectPending;
     ob_claim := Some (pc_claim_id claim); ob_blob := Some (pc_blob_key claim); ob_size := pc_size claim |}.

Lemma insert_data_view id now cols : insert_data claim id now ⊆ cols -> obj_view cols = Some new_obj.
Proof.
  intros Hsub. assert (forall key v, insert_data claim id now !! key = Some v -> cols !! key = Some v) as Hl.
  { intros key v Hv. by eapply lookup_weaken. }
  apply obj_view_cols. simpl. split_and!.
  - apply text_col_value, Hl. unfold insert_data. by data_lookup.
  - apply text_col_value, Hl. unfold insert_data. by data_lookup.
  - apply (enum_col_text cols "status" ObjectPending), Hl. unfold insert_data. by data_lookup.
  - unfold int_col. rewrite (Hl "size" (json_i64 (pc_size claim))) by (unfold insert_data; by data_lookup).
    simpl. by rewrite number_i64_roundtrip.
  - apply opt_text_insert, Hl. unfold insert_data. by data_lookup.
  - apply opt_text_insert, Hl. unfold insert_data. by data_lookup.
Qed.

Lemma key_free_objects s id now :
  objects_wf s -> key_free OBJECTS_TABLE (insert_data claim id now) (rows s OBJECTS_TABLE) ->
  forall i o, objects s !! i = Some o -> ob_bucket o = pc_bucket claim -> ob_key o <> pc_key claim.
Proof.
  intros Hwf Hfree i o Ho Hb Hk. apply objects_row in Ho as (cols & Hr & Hv).
  destruct Hfree as [Hfree|Hfree]; [by rewrite Hunique in Hfree|].
  assert (key_filters (unique_columns OBJECTS_TABLE) (insert_data claim id now) = bucket_key_filters (pc_bucket claim) (pc_key claim)) as Hkf.
  { rewrite Hunique. unfold key_filters, insert_data. simpl. by data_lookup. }
  unfold conflicts in Hfree. rewrite Hkf in Hfree. apply Z.ltb_ge in Hfree. unfold count_rows in Hfree.
  assert (filter (fun p => matches (bucket_key_filters (pc_bucket claim) (pc_key claim)) p.1 p.2 = true) (rows s OBJECTS_TABLE) !! i = Some cols) as Hin.
  { apply map_lookup_filter_Some. split; [done|]. cbn [fst snd]. rewrite (key_filters_match _ _ i cols o Hv), Hb, Hk.
    by rewrite !String.eqb_refl. }
  destruct (size _) eqn:Hsz; [|lia]. apply map_size_empty_inv in Hsz. by rewrite Hsz in Hin.
Qed.

Lemma keeps_insert l :
  own l = Drawn (pc_claim_id claim) ->
  keeps (fun r l' => match r with
    | Ok (InsertedRow id) => own l' = Holds {| h_claim := pc_claim_id claim; h_id := id; h_bucket := pc_bucket claim; h_key := pc_key claim;
        h_size := pc_size claim; h_replaced := None; h_stored := false; h_superseded := [] |}
    | Ok _ => own l' = Drawn (pc_claim_id claim)
    | _ => True
    end) l (insert_reservation claim).
Proof.
  intros Hl. unfold insert_reservation. apply keeps_fresh. intros id. apply keeps_aside; [constructor|]. intros now.
  intros s others r s' HI [[-> [e ->]]|Hc].
  { exists l. split; [done|]. simpl. by destruct (bool_decide _). }
  destruct (refusing 0 _ _) as [g|]; [destruct Hc as [-> ->]; by exists l|].
  destruct Hc as (i & cols & Hi & Hsub & _ & Hid & Hfree & -> & Hr).
  assert (i = id) as -> by (apply Hid; unfold insert_data; by data_lookup).
  set (h := {| h_claim := pc_claim_id claim; h_id := id; h_bucket := pc_bucket claim; h_key := pc_key claim;
        h_size := pc_size claim; h_replaced := None; h_stored := false; h_superseded := [] |}).
  exists {| own := Holds h; facts := facts l; rights := rights l |}. split.
  - pose proof HI as [Hwf Hok]. apply (files_inv_write s (l :: others) _ id cols new_obj); [done|by eapply insert_data_view|].
    apply (claims_insert claim_blob_key uuid plain claimed_inj claimed_not_plain _ _ _ l others (pc_claim_id claim) id new_obj h Hok Hl); try done.
    + destruct (objects s !! id) as [o|] eqn:Ho; [|done]. apply objects_row in Ho as (c & Hc & _). congruence.
    + by eapply key_free_objects.
  - destruct Hr as [->|(e & -> & _ & Hne)]; [done|]. simpl. by rewrite bool_decide_eq_false_2.
Qed.

Lemma keeps_claim_existing existing l :
  own l = Drawn (pc_claim_id claim) -> found_row (pc_bucket claim) (pc_key claim) l (Ok (Some existing)) ->
  keeps (fun r l' => reserved (pc_size claim) (pc_bucket claim) l' r) l (claim_existing existing claim).
Proof.
  intros Hl (Hf & Hb & Hk & Hsz). unfold claim_existing, replaced_object.
  set (row := sr_row existing) in *.
  assert (forall replaced : option ReplacedObject,
    (o_status row = ObjectComplete /\ (exists ro, replaced = Some ro /\ ro_size ro = o_size row) \/ o_status row = ObjectPending /\ replaced = None) ->
    keeps (fun r l' => reserved (pc_size claim) (pc_bucket claim) l' r) l
      (let? written := do_call (UpdateGuarded OBJECTS_TABLE (still_claimed_by (o_id row) (sr_claim_id existing))
           (take_over_data claim (bool_decide (replaced = None))) (quota_guards claim (Some row))) else ReserveDb in
       match written with
       | GuardUpdated _ =>
           Done (Ok {| rv_id := o_id row; rv_bucket := pc_bucket claim; rv_key := pc_key claim;
                       rv_claim_id := pc_claim_id claim; rv_blob_key := pc_blob_key claim; rv_replaced := replaced;
                       rv_superseded_blobs := row_blobs existing |})
       | UpdateRefused guard =>
           let? now := find_stored (pc_bucket claim) (pc_key claim) else ReserveDb in
           Done (Err (if as_read existing now then refused_by guard else Held))
       | UpdateNoMatch => Done (Err Held)
       end)) as Hwrite.
  { intros replaced Hrep. rewrite <- (app_nil_r (still_claimed_by _ _)). intros s others r s' HI [[-> (e & -> & _)]|Hc]; [by exists l|].
    destruct (refusing 0 _ _) as [g|].
    { destruct Hc as [-> ->]. exists l. split; [done|]. cbn [prog_bind]. eapply upholds_bind; [apply keeps_find_stored|].
      by intros [now|e|] l' _. }
    pose proof HI as [Hwf Hok].
    destruct (claimed_row s (o_id row) (sr_claim_id existing) [] Hwf) as [(cols & o & Hr & Hv & Hcl & _ & Hcount & Hupd & _)|(Hcount & _)];
      rewrite Hcount in Hc; cbn [Z.eqb] in Hc; [|destruct Hc as [-> ->]; by exists l].
    destruct Hc as [-> Hans]. rewrite Hupd.
    set (h := {| h_claim := pc_claim_id claim; h_id := o_id row; h_bucket := pc_bucket claim; h_key := pc_key claim;
      h_size := pc_size claim; h_replaced := ro_size <$> replaced; h_stored := false; h_superseded := row_blobs existing |}).
    exists {| own := Holds h; facts := facts l; rights := rights l |}. split.
    - assert (objects s !! o_id row = Some o) as Ho by (apply objects_row; by exists cols).
      pose proof (co_facts _ _ _ _ _ _ _ Hok) as [Hfacts _]%Forall_cons. rewrite Forall_forall in Hfacts.
      destruct (Hfacts _ Hf) as (_ & _ & _ & _ & Hsame). destruct (Hsame o Ho Hcl) as (Hob & Hok' & _ & _). simpl in Hob, Hok'.
      fold row in Hob, Hok'.
      eapply files_inv_write; [done| |].
      + apply (obj_view_overlay _ cols o ObjectPending (pc_size claim) (if bool_decide (replaced = None) then Some (pc_blob_key claim) else ob_blob o) (Some (pc_claim_id claim))); [done|..];
          unfold take_over_data; data_lookup; destruct (bool_decide (replaced = None)); try done; try by right.
        * right. by eexists.
        * by left.
        * right. by eexists.
        * right. by eexists.
      + apply (claims_take_over claim_blob_key uuid plain claimed_inj claimed_not_plain _ _ _ l others (pc_claim_id claim) (o_id row) (stored_obj existing) o); try done.
        * simpl. fold row. destruct Hrep as [[-> (ro & -> & _)]|[-> ->]]; [done|]. rewrite bool_decide_eq_true_2 by done.
          unfold pc_blob_key. congruence.
        * simpl. split_and!; try done; congruence.
        * simpl. fold row. by destruct Hrep as [[-> (ro & -> & <-)]|[-> ->]].
        * apply row_blobs_of.
    - destruct Hans as [->|(e & -> & _)]; [|done]. simpl. split; [done|]. split; [done|]. split; [done|].
      destruct Hrep as [[_ (ro & -> & ->)]|[_ ->]]; [done|done]. }
  destruct (o_status row) eqn:Hst.
  - cbn [prog_try mbind prog_mbind prog_bind pending_reservation_cutoff ask do_call]. apply keeps_aside; [constructor|].
    intros cutoff. destruct (String.ltb _ _); [|by destruct (String.eqb _ _)]. apply Hwrite. by right.
  - cbn [prog_try mbind prog_mbind prog_bind]. apply Hwrite. left. split; [done|]. by eexists.
Qed.
End Reserving.

Hypothesis Hunique : unique_columns OBJECTS_TABLE = ["bucket"; "key"].

Lemma keeps_reserve bucket key size content_type user_id quota l :
  plain key -> in_i64 size = true -> own l = NoClaim ->
  keeps (fun r l' => reserved size bucket l' r) l (reserve_upload bucket key size content_type user_id quota).
Proof.
  intros Hplain Hsize Hl. unfold reserve_upload. apply keeps_aside; [constructor|]. intros uploaded_at.
  apply keeps_draw; [done|]. intros claim_id _. set (l1 := {| own := Drawn claim_id; facts := _; rights := _ |}).
  set (claim := {| pc_bucket := bucket; pc_key := key |}).
  assert (forall l2 existing, own l2 = Drawn claim_id -> found_row bucket key l2 (Ok (Some existing)) ->
    keeps (fun r l' => reserved size bucket l' r) l2 (claim_existing existing claim)) as Hexisting.
  { intros l2 existing Hl2 Hf. by apply (keeps_claim_existing claim). }
  eapply upholds_bind; [apply keeps_find_stored|]. intros [[existing|]|e|] l2 [(Hl2 & _) Hf]; [by apply Hexisting| |done|done].
  eapply upholds_bind; [apply (keeps_insert Hunique claim Hplain Hsize l2 Hl2)|]. intros [[id| |refusal]|e|] l3 Hl3; cbn in Hl3; [|..|done|done].
  - simpl. by split_and!.
  - eapply upholds_bind; [apply keeps_find_stored|]. intros [[existing|]|e|] l4 [(Hl4 & _) Hf4]; [|done..].
    apply Hexisting; [congruence|done].
  - eapply upholds_bind; [apply keeps_find_stored|]. intros [[existing|]|e|] l4 [(Hl4 & _) Hf4]; [|done..].
    apply Hexisting; [congruence|done].
Qed.
End Operations.

(** ** The handlers *)
Section FileHandlers.
Context {JN : JsonNumbers} {JS : JsonScalars JN} {NL : JsonNumberLaws JN} {DF : DebugFmt} {B : Backend} {BL : BackendLaws B}.
Context {MS : Messages} {RM : ResponseMeta} {PE : PathEncode} (mime_for_key : string -> string).
Hypothesis Hunique : unique_columns OBJECTS_TABLE = ["bucket"; "key"].
Abbreviation keeps := (upholds files_inv).
Implicit Types (l : Handler).

Lemma keeps_store_object user_id bucket content key content_type quota l :
  plain key -> in_i64 (str_len content) = true -> own l = NoClaim ->
  keeps (fun _ _ => True) l (store_object user_id bucket content key content_type quota).
Proof.
  intros Hplain Hsize Hl. unfold store_object. eapply upholds_bind; [by apply (keeps_reserve Hunique bucket key (str_len content))|].
  intros [rv|e|] l1 Hrv; [|done..]. destruct Hrv as (Hl1 & Hb & <- & Hro).
  pose proof (keeps_put (fun (_ : outcome OutputStream OutputStream) _ => True) (holding_of rv (str_len content) false) content content_type
    (fun stored => match stored with
       | Ok _ => finish_upload (rv_bucket rv) key rv
       | Err e => abandon_upload (rv_bucket rv) rv e
       | Panic => Done Panic
       end) l1 Hl1 eq_refl) as Hput.
  unfold own_blob in Hb. rewrite Hb at 1. apply Hput. intros r stored Hr.
  set (l2 := {| own := Holds (with_stored stored (holding_of rv (str_len content) false)); facts := facts l1; rights := rights l1 |}).
  destruct r as [u|e|].
  - assert (stored = true) as -> by (apply Hr; by destruct u).
    unfold finish_upload. eapply upholds_bind; [by apply (keeps_mark_complete rv (str_len content) l2)|].
    intros [[| |]|e|] l3 Hl3; try done; (eapply upholds_bind; [by apply keeps_delete_blobs|done]).
  - unfold abandon_upload. eapply upholds_bind; [by apply (keeps_release rv (str_len content) stored l2)|].
    intros [[]|e'|] l3 Hl3; try done; (eapply upholds_bind; [by apply keeps_delete_blobs|done]).
  - done.
Qed.

Lemma keeps_sweep user_id l : own l = NoClaim -> keeps (fun _ l' => own l' = NoClaim) l (sweep_stale_pending user_id).
Proof.
  intros Hl. unfold sweep_stale_pending. apply keeps_aside; [constructor|]. intros cutoff.
  assert (forall stale l1, own l1 = NoClaim -> Forall (fun r => (o_id (sr_row r), stored_obj r) ∈ facts l1) stale ->
    keeps (fun _ l' => own l' = NoClaim) l1 (sweep_rows stale)) as Hrows.
  { induction stale as [|r stale IH]; intros l1 Hl1 Hf; [done|]. apply Forall_cons in Hf as [Hr Hf]. cbn [sweep_rows].
    eapply upholds_bind; [by apply keeps_delete_unchanged|]. intros found l2 [(Ho & _ & Hfacts) Hd]. simpl in Ho, Hfacts.
    eapply (upholds_bind _ (fun _ l' => l' = l2)).
    - destruct found as [[]|e|]; [|done..]. by apply keeps_delete_blobs, Hd.
    - intros _ l' ->. apply IH; [congruence|]. eapply Forall_impl; [exact Hf|]. intros r' Hr'. by apply Hfacts. }
  unfold list_stale_pending. cbn [prog_try mbind prog_mbind prog_bind do_call]. apply keeps_page; [|done].
  intros rs n l1 (Ho & _) Hk. cbn [prog_bind fst].
  assert (forall stale, collect_rows stored_row rs = Ok stale -> Forall (fun r => (o_id (sr_row r), stored_obj r) ∈ facts l1) stale) as Hall.
  { clear - Hk. induction Hk as [|row rs (r & Hr & Hin & _) Hk IH]; simpl; [by intros stale [= <-]|]. rewrite Hr. simpl.
    destruct (collect_rows stored_row rs) as [stale|e|]; simpl; [|done..]. intros ? [= <-]. constructor; [done|by apply IH]. }
  destruct (collect_rows stored_row rs) as [stale|e|]; simpl; [|congruence..]. apply Hrows; [congruence|by apply Hall].
Qed.

Lemma keeps_delete_rounds attempts bucket key l :
  keeps (fun _ _ => True) l (delete_rounds attempts bucket key).
Proof.
  revert l. induction attempts as [|n IH]; intros l; [done|]. cbn [delete_rounds].
  eapply upholds_bind; [apply keeps_find_stored|]. intros [[stored|]|e|] l1 [_ Hf]; [|done..]. destruct Hf as (Hin & <- & _).
  eapply upholds_bind; [by apply keeps_delete_unchanged|]. intros [[]|e|] l2 [_ Hd]; [|apply IH|done..].
  eapply upholds_bind; [by apply keeps_delete_blobs, Hd|done].
Qed.

Lemma aside_bucket_access msg bucket : all_aside (require_bucket_access msg bucket).
Proof.
  unfold require_bucket_access. destruct (is_admin msg); [done|]. apply all_aside_fail; [|done].
  unfold bucket_owned_by, list_bounded, over_read. repeat (apply all_aside_try; [|intros ?]); try done; [by split; [constructor|]|].
  by destruct (truncated _).
Qed.
Lemma aside_user_quota user_id : all_aside (get_user_quota user_id).
Proof. unfold get_user_quota, find_for_user. by split; [constructor|intros [row|e|]]. Qed.

(** Keys and bodies that the storage of an upload can name. *)
Definition plain_upload (msg : Message) (input : list (WResult string)) : Prop :=
  let request_content_type := get_meta msg "req.content_type" in
  forall cap body_bytes content key content_type,
    collect_with_cap input cap = Ok body_bytes ->
    upload_content mime_for_key (bool_decide (is_Some (multipart_boundary request_content_type))) request_content_type (msg_query msg "key") body_bytes =
      Ok (content, key, content_type) ->
    plain key /\ in_i64 (str_len content) = true.

Lemma keeps_upload msg input l : plain_upload msg input -> own l = NoClaim -> keeps (fun _ _ => True) l (handle_upload_object mime_for_key msg input).
Proof.
  intros Hplain Hl. unfold handle_upload_object. destruct (extract_bucket_name msg) as [bucket|e|]; [|done..].
  cbn [prog_try mbind prog_mbind prog_bind]. destruct (_ && _); [done|]. destruct (_ && _); [done|].
  apply keeps_all_aside; [apply aside_bucket_access|]. intros [[]|e|]; [|done..].
  eapply upholds_bind; [by apply keeps_sweep|]. intros ? l1 Hl1.
  apply keeps_all_aside; [apply aside_user_quota|]. intros [quota|e|]; [|done..].
  destruct (collect_with_cap input _) as [body_bytes|[|e]|] eqn:Hbody; [|done..]. cbn [map_err prog_bind prog_try mbind prog_mbind].
  destruct (upload_content _ _ _ _ _) as [[[content key] content_type]|e|] eqn:Hc; [|done..]. cbn [prog_bind].
  destruct (Hplain _ _ _ _ _ Hbody Hc). by apply keeps_store_object.
Qed.
Lemma keeps_delete_object msg l : keeps (fun _ _ => True) l (handle_delete_object msg).
Proof.
  unfold handle_delete_object. destruct (extract_bucket_name msg) as [bucket|e|]; [|done..].
  cbn [prog_try mbind prog_mbind prog_bind]. destruct (extract_object_key msg) as [key|e|]; [|done..]. cbn [prog_bind].
  destruct (negb _); [done|]. apply keeps_all_aside; [apply aside_bucket_access|]. intros [[]|e|]; [|done..].
  apply keeps_delete_rounds.
Qed.
Lemma keeps_get_object msg l : keeps (fun _ _ => True) l (handle_get_object msg).
Proof.
  unfold handle_get_object. destruct (extract_bucket_name msg) as [bucket|e|]; [|done..].
  cbn [prog_try mbind prog_mbind prog_bind]. destruct (extract_object_key msg) as [key|e|]; [|done..]. cbn [prog_bind].
  destruct (negb _); [done|]. apply keeps_all_aside; [apply aside_bucket_access|]. intros [[]|e|]; [|done..].
  apply keeps_all_aside; [split; [constructor|]; intros now; split; [|done]|intros _].
  { constructor; [|constructor]. do 2 (split; [done|]). intros b. unfold storage_of. by rewrite str_app_cons. }
  unfold find_blob_key. eapply (upholds_bind _ (fun _ _ => True)).
  - eapply upholds_bind; [apply keeps_find_stored|]. by intros [found|e|].
  - intros [[blob_key|]|e|] l1 _; [|done..]. apply keeps_aside; [constructor|]. by intros [stream|e|].
Qed.

Inductive files_handler : prog (outcome OutputStream OutputStream) -> Prop :=
| Uploads msg input : plain_upload msg input -> files_handler (handle_upload_object mime_for_key msg input)
| Deletes msg : files_handler (handle_delete_object msg)
| Downloads msg : files_handler (handle_get_object msg).

(** The rows decode; keys and claims are unique and spell no claim; what is
    recorded as stored is stored. *)
Definition files_wf (s : state) : Prop :=
  objects_wf s /\ rows_ok claim_blob_key uuid plain (objects s) (blob_at s) (drawn_at s).

(** C2. Uploads, deletes, sweeps and downloads interleave at every call, any
    call may fail with its write applied or not, storage may keep part of a
    blob, and a handler may stop anywhere: an object that its row records as
    stored has its bytes in storage all the same, all of them, under the key
    that the row names. *)
Theorem stored_objects_keep_their_bytes ps s ps' s'
  (Hps : Forall files_handler ps) (Hwf : files_wf s) (Hsteps : rtc pool_step (ps, s) (ps', s')) id cols :
  rows s' OBJECTS_TABLE !! id = Some cols -> enum_col cols "status" = Some ObjectComplete ->
  exists stored content, stored_row (row_of id cols) = Ok stored /\
    blob_at s' (o_bucket (sr_row stored)) (stored_blob_key (o_key (sr_row stored)) (sr_blob_key stored)) = Some content /\
    str_len content = o_size (sr_row stored).
Proof.
  intros Hr Hst. destruct Hwf as [Hwf Hrows].
  destruct (upholds_pool files_inv files_inv_perm (fun _ _ => True) _ _ Hsteps (replicate (length ps) idle)) as (ls & [Hwf' Hok] & _).
  - split; [done|]. by apply claims_idle.
  - apply Forall2_replicate_l; [done|]. eapply Forall_impl; [exact Hps|]. simpl. intros p Hp. destruct Hp as [msg input Hp|msg|msg].
    + by apply keeps_upload.
    + apply keeps_delete_object.
    + apply keeps_get_object.
  - destruct (Hwf' _ _ Hr) as [o Hv]. destruct (stored_row_view id cols o Hv) as (stored & Hstored & _ & <-).
    pose proof Hv as (_ & _ & Hs & _)%obj_view_cols. simpl in Hs.
    destruct (ro_stored _ _ _ _ _ _ (co_rows _ _ _ _ _ _ _ Hok) id (stored_obj stored)) as (content & Hc & Hl).
    + apply objects_row. by exists cols.
    + simpl. congruence.
    + by exists stored, content.
Qed.
End FileHandlers.

(** ** A run

    Two uploads of a key interleave with a delete of it. *)
#[local] Existing Instances percent_encoding codec_meta.
Definition photo_request (key : string) : Message :=
  {| sm_action := "create"; sm_path := "/b/files"; sm_user := "ann";
     sm_meta := [("req.param.name", "photos"); ("req.param.key", key); ("req.query.key", key); ("auth.user_roles", "admin");
                 ("req.content_type", "image/png")] |}.
Definition no_mime (key : string) : string := FALLBACK_CONTENT_TYPE.
Definition photo_requests : list (prog (outcome OutputStream OutputStream)) :=
  [handle_upload_object no_mime (photo_request "cat.png") [Ok "fir"; Ok "st"];
   handle_delete_object (photo_request "cat.png");
   handle_upload_object no_mime (photo_request "cat.png") [Ok "sec"; Ok "ond"]].
Definition photo_run :=
  run_schedule (replicate 11 0 ++ replicate 7 2 ++ [1] ++ replicate 2 2 ++ [1] ++ replicate 5 2)%nat (photo_requests, ∅).

Lemma photos_plain first rest :
  in_i64 (str_len (String.append first rest)) = true ->
  plain_upload no_mime (photo_request "cat.png") [Ok first; Ok rest].
Proof.
  intros Hlen cap body content key content_type Hbody Hcontent.
  assert (body = String.append first rest) as ->.
  { revert Hbody. unfold collect_with_cap. generalize (if cap <=? 0 then None else Some cap). intros c. simpl.
    destruct (match c with Some _ => _ | None => _ end); [done|]. simpl.
    destruct (match c with Some _ => _ | None => _ end); [done|]. rewrite str_app_nil_l. by intros [= <-]. }
  assert (content = String.append first rest /\ key = "cat.png") as [-> ->].
  { revert Hcontent. unfold upload_content. change (bool_decide _) with false. by intros [= <- <- _]. }
  split; [by vm_compute|done].
Qed.

Lemma photos_wf : files_wf ∅.
Proof.
  assert (forall table, rows ∅ table = ∅) as Hn by (intros table; unfold rows; by rewrite lookup_empty).
  assert (objects ∅ = ∅) as He by (unfold objects; rewrite Hn; apply omap_empty).
  split; [intros id cols; by rewrite Hn, lookup_empty|]. constructor; rewrite He; intros *; by rewrite ?lookup_empty.
Qed.
Lemma stored_objects_keep_their_bytes_witness :
  exists id cols stored content, rows photo_run.2 OBJECTS_TABLE !! id = Some cols /\
    stored_row (row_of id cols) = Ok stored /\
    blob_at photo_run.2 (o_bucket (sr_row stored)) (stored_blob_key (o_key (sr_row stored)) (sr_blob_key stored)) = Some content /\
    str_len content = o_size (sr_row stored).
Proof.
  assert (match rows photo_run.2 OBJECTS_TABLE !! "2" with
          | Some cols => bool_decide (enum_col cols "status" = Some ObjectComplete)
          | None => false end = true) as Hrow by (by vm_compute).
  destruct (rows photo_run.2 OBJECTS_TABLE !! "2") as [cols|] eqn:Hr; [|done].
  destruct (stored_objects_keep_their_bytes (B := memory_backend) no_mime eq_refl photo_requests ∅ photo_run.1 photo_run.2) with (id := "2") (cols := cols)
    as (stored & content & H).
  - constructor; [by apply Uploads, photos_plain|]. constructor; [apply Deletes|].
    constructor; [by apply Uploads, photos_plain|constructor].
  - apply photos_wf.
  - rewrite <- surjective_pairing. apply run_schedule_steps.
  - exact Hr.
  - by apply bool_decide_eq_true in Hrow.
  - exists "2", cols, stored, content. split; [exact Hr|exact H].
Defined.

(** ** Runs in which an object is lost

    An hour has passed since every reservation. *)
Definition an_hour_later : Services := fun R q =>
  match q in service R return R with Rfc3339Before _ => "2026-01-02T00:00:00Z" | q => idle_services _ q end.
Definition status_of (p : prog (outcome OutputStream OutputStream)) : option Z :=
  match p with
  | Done (Ok (Respond r)) => Some (status r)
  | Done (Err (OutputError e)) => Some (if bool_decide (we_code e = NotFound) then 404 else 500)
  | _ => None
  end.
Definition request_of (user key : string) : Message :=
  {| sm_action := "create"; sm_path := "/b/files"; sm_user := user; sm_meta := sm_meta (photo_request key) |}.
Definition upload_by (user key content : string) := handle_upload_object no_mime (request_of user key) [Ok content].

(** Ann's slow upload is acknowledged, then taken over by Bob's, which had read
    her reservation as an orphan: the take-over asks for the claim it read, and
    a completed upload keeps its claim.  Her object is not found. *)
Definition late_take_over :=
  run_schedule (H := an_hour_later) (replicate 10 0 ++ replicate 7 1 ++ [0] ++ [1] ++ replicate 5 2)%nat
    ([upload_by "ann" "cat.png" "hers"; upload_by "bob" "cat.png" "his"; handle_get_object (request_of "ann" "cat.png")], ∅).
Theorem late_take_over_hides_acknowledged_upload :
  status_of <$> late_take_over.1 !! 0%nat = Some (Some 200) /\ status_of <$> late_take_over.1 !! 2%nat = Some (Some 404).
Proof. split; by vm_compute. Qed.

(** A stored object, and an upload that replaces it and dies.  The object is
    served, until another upload of the user sweeps the reservation. *)
Definition dead_replacement :=
  run_schedule (H := an_hour_later) (replicate 11 0 ++ replicate 7 1 ++ replicate 5 2 ++ replicate 30 3 ++ replicate 5 4)%nat
    ([upload_by "ann" "cat.png" "first"; upload_by "ann" "cat.png" "second"; handle_get_object (request_of "ann" "cat.png");
      upload_by "ann" "dog.png" "other"; handle_get_object (request_of "ann" "cat.png")], ∅).
Theorem sweep_deletes_the_object_an_orphan_serves :
  status_of <$> dead_replacement.1 !! 2%nat = Some (Some 200) /\ status_of <$> dead_replacement.1 !! 4%nat = Some (Some 404).
Proof. split; by vm_compute. Qed.
