(* ===== verification/Shares.v ===== *)
(** * The files block: share links ([blocks/files/share.rs], [cloud.rs], [repo/shares.rs])

    A share is a row that a random token addresses: it names an object, ends at
    an instant, and may be opened a bounded number of times.  Opening a link
    spends an access in the condition of an [UPDATE]; a link that may be opened
    [m] times serves at most [m] downloads, however requests interleave and
    whichever calls fail. *)
From Stdlib Require Import String.
From S2P Require Import Features.
From S2P Require Import Prelude Ints Str Contracts SampleLib Wafer Records Effects Columns Failures Crud Routing AuthRepo Csrf RateLimit Lease Streaming Serving Files.

Definition SHARES_TABLE : string := "impresspress__files__cloud_shares".
Definition ACCESS_LOGS_TABLE : string := "impresspress__files__cloud_access_logs".

(** ** Rows ([repo/shares.rs]) *)
Record ShareRow := {
  sh_id : string; sh_token : string; sh_bucket : string; sh_key : string; sh_created_by : string;
  sh_created_at : string; sh_expires_at : option string; sh_access_count : Z; sh_max_access_count : option Z;
  sh_updated_at : string
}.
Record AccessLogRow := {
  al_id : string; al_share_id : string; al_accessed_at : string; al_ip_address : string; al_user_agent : string;
  al_created_at : string; al_updated_at : string
}.
Record NewShare := {
  ns_token : string; ns_bucket : string; ns_key : string; ns_created_by : string; ns_created_at : string;
  ns_expires_at : string; ns_max_access_count : option Z
}.

Section ShareRows.
Context {JN : JsonNumbers} {JS : JsonScalars JN}.

Definition share_from_record (rec : Row) : ShareRow :=
  {| sh_id := row_id rec; sh_token := str_field rec "token"; sh_bucket := str_field rec "bucket";
     sh_key := str_field rec "key"; sh_created_by := str_field rec "created_by";
     sh_created_at := str_field rec "created_at";
     sh_expires_at := (s ← opt_str_field rec "expires_at"; if is_empty s then None else Some s);
     sh_access_count := i64_field rec "access_count";
     sh_max_access_count := (n ← opt_i64_field rec "max_access_count"; if 0 <? n then Some n else None);
     sh_updated_at := str_field rec "updated_at" |}.
Definition access_log_from_record (rec : Row) : AccessLogRow :=
  {| al_id := row_id rec; al_share_id := str_field rec "share_id"; al_accessed_at := str_field rec "accessed_at";
     al_ip_address := str_field rec "ip_address"; al_user_agent := str_field rec "user_agent";
     al_created_at := str_field rec "created_at"; al_updated_at := str_field rec "updated_at" |}.

Definition share_data (new : NewShare) : columns :=
  let data := columns_of
    [("token", VString (ns_token new)); ("bucket", VString (ns_bucket new)); ("key", VString (ns_key new));
     ("created_by", VString (ns_created_by new)); ("created_at", VString (ns_created_at new));
     ("access_count", json_i64 0)] in
  let data := <["expires_at" := VString (ns_expires_at new)]> data in
  match ns_max_access_count new with Some max => <["max_access_count" := json_i64 max]> data | None => data end.
Definition insert_share (new : NewShare) : prog (WResult ShareRow) :=
  r ←? do_call (Create SHARES_TABLE (share_data new)); Done (Ok (share_from_record r)).
Definition find_by_token (token : string) : prog (WResult ShareRow) :=
  r ←? do_call (GetByField SHARES_TABLE "token" (VString token)); Done (Ok (share_from_record r)).
Definition find_share (id : string) : prog (WResult ShareRow) :=
  r ←? do_call (Get SHARES_TABLE id); Done (Ok (share_from_record r)).
Definition delete_share (id : string) : prog (WResult unit) := do_call (Delete SHARES_TABLE id).

Definition list_shares_for_user (user_id : string) (limit : nat) : prog (WResult (list ShareRow * Z)) :=
  page ←? do_call (ListPage SHARES_TABLE [eq_filter "created_by" (VString user_id)] "created_at" true limit 0);
  Done (Ok (map share_from_record page.1, page.2)).
Definition list_recent_shares (limit offset : nat) : prog (WResult (list ShareRow * Z)) :=
  page ←? do_call (ListPage SHARES_TABLE [] "created_at" true limit offset);
  Done (Ok (map share_from_record page.1, page.2)).
Definition list_access_logs (share_id : option string) (limit offset : nat) : prog (WResult (list AccessLogRow * Z)) :=
  let filters := match share_id with Some id => [eq_filter "share_id" (VString id)] | None => [] end in
  page ←? do_call (ListPage ACCESS_LOGS_TABLE filters "accessed_at" true limit offset);
  Done (Ok (map access_log_from_record page.1, page.2)).

(** Spend an access.  A cap that is not positive is none. *)
Definition access_filters (share_id : string) (max : Z) : list Filter :=
  eq_filter "id" (VString share_id) ::
  (if 0 <? max then [{| field := "access_count"; operator := OpLessThan; value := json_i64 max |}] else []).
Definition increment_access_count_capped (share_id : string) (max : Z) : prog (WResult bool) :=
  rows ←? do_call (IncrementFieldWhere SHARES_TABLE "access_count" 1 (access_filters share_id max));
  Done (Ok (0 <? rows)).

Definition log_access (share_id ip_address user_agent : string) : prog (WResult AccessLogRow) :=
  now ← now_rfc3339;
  r ←? do_call (Create ACCESS_LOGS_TABLE (columns_of
    [("share_id", VString share_id); ("accessed_at", VString now); ("ip_address", VString ip_address);
     ("user_agent", VString user_agent)]));
  Done (Ok (access_log_from_record r)).
End ShareRows.

(** ** The handlers *)

(** [chrono::Duration::try_hours] and [DateTime::checked_add_signed] in
    nanoseconds, the request body [serde] reads, [Message::remote_addr] and
    [wafer_block::err_internal_no_cause]. *)
Record ShareBody := {
  sb_bucket : string; sb_key : string; sb_expires_in_hours : option Z; sb_max_access_count : option Z
}.
Class ShareServices `{Messages} := {
  try_hours : Z -> option Z;
  checked_add_signed : Z -> Z -> option Z;
  share_body_from_slice : string -> outcome string ShareBody;
  remote_addr : Message -> string;
  no_cause : string -> WaferError;
}.
(** An addition that fits is exact, and so many hours are so many hours. *)
Class ShareServiceLaws {MS : Messages} (SS : ShareServices) := {
  try_hours_exact : forall h d, try_hours h = Some d -> d = h * 3600 * 10 ^ 9;
  checked_add_exact : forall t d t', checked_add_signed t d = Some t' -> t' = t + d;
}.

Section ShareHandlers.
Context {JN : JsonNumbers} {JS : JsonScalars JN} {DF : DebugFmt} {MS : Messages} {RM : ResponseMeta} {PE : PathEncode}.
Context {HE : HexEncode} {IS : Instants} {IT : IpText} {SS : ShareServices}.

(** [http::err_internal_no_cause] *)
Definition err_internal_no_cause (message : string) : OutputStream := OutputError (no_cause message).

Definition SHARE_TOKEN_BYTES : Z := 32.
Definition generate_share_token : prog (outcome OutputStream string) :=
  let? bytes := ask (RandomBytes SHARE_TOKEN_BYTES) else ErrInternal "Token generation failed" in
  Done (Ok (hex_encode bytes)).

Definition SHARE_LIMIT_REACHED : string := "Share link access limit reached".

(** The checks of the row that need no call: whether it has ended at [now], and
    whether it is at its cap.  A row whose end cannot be read is refused. *)
Definition share_end (share : ShareRow) : outcome OutputStream Z :=
  match sh_expires_at share with
  | None => Err (err_internal_no_cause "Share link is unavailable")
  | Some expires => ok_or (parse_rfc3339 expires) (err_internal_no_cause "Share link is unavailable")
  end.
Definition at_cap (share : ShareRow) : bool :=
  match sh_max_access_count share with Some max => max <=? sh_access_count share | None => false end.

(** The object is resolved before an access is spent. *)
Definition serve_share (msg : Message) (share : ShareRow) : prog (outcome OutputStream OutputStream) :=
  let bucket := sh_bucket share in
  let key := sh_key share in
  if is_empty bucket || is_empty key then Done (Err (err_internal_no_cause "Invalid share data"))
  else
    let? found := find_blob_key bucket key else (fun e => db_error_internal e "Object lookup failed") in
    match found with
    | None => Done (Err (err_not_found "File not found"))
    | Some blob_key =>
        let? stream := do_call (StoreGet bucket blob_key) else (fun e => db_error e "File not found" "Storage error") in
        let? spent := increment_access_count_capped (sh_id share) (default 0 (sh_max_access_count share))
          else (fun e => db_error_internal e "Share access accounting failed") in
        if negb spent then Done (Err (ForbiddenPage SHARE_LIMIT_REACHED))
        else
          _ ← log_access (sh_id share) (remote_addr msg) (msg_header msg "User-Agent");
          Done (Ok (stream_download stream.1
            (user_object_leading_meta stream.2 key [("Cache-Control", "private, max-age=3600")])))
    end.
Definition open_share (msg : Message) (token : string) : prog (outcome OutputStream OutputStream) :=
  let? share := find_by_token token else (fun e => db_error e "Share not found or expired" "Share lookup failed") in
  exp_time ←! share_end share;
  now ← ask UtcNow;
  if exp_time <? now then Done (Err (ForbiddenPage "Share link has expired"))
  else if at_cap share then Done (Err (ForbiddenPage SHARE_LIMIT_REACHED))
  else serve_share msg share.

(** The counters, their capacity and the clock of the limiter are those of the
    moment of the check; the counters it leaves are answered beside. *)
Definition handle_direct_access (buckets : Buckets) (capacity : nat) (now : Z) (msg : Message)
  : prog (outcome OutputStream OutputStream * Buckets) :=
  match path_var msg "token" "Missing share token" with
  | Ok token =>
      limited ← check_rate_limit buckets capacity now (ip_bucket (remote_addr msg)) "share_direct" API_READ;
      out ← match limited.1 with
            | Limited response => Done (Err response)
            | Allowed _ | Disabled => open_share msg token
            end;
      Done (out, limited.2)
  | Err response => Done (Err response, buckets)
  | Panic => Done (Panic, buckets)
  end.

(** *** Creating and deleting shares ([cloud.rs]) *)
Definition MAX_SHARE_EXPIRY_HOURS_KEY : string := "IMPRESSPRESS__FILES__MAX_SHARE_EXPIRY_HOURS".
Definition DEFAULT_MAX_SHARE_EXPIRY_HOURS : Z := 24 * 365.
(** The ceiling that is configured, or the default when it is unset or unusable. *)
Definition share_ceiling (raw : option string) : Z :=
  match raw with
  | None => DEFAULT_MAX_SHARE_EXPIRY_HOURS
  | Some raw =>
      match parse_i64 (trim raw) with
      | Some hours =>
          if (0 <? hours) && bool_decide (is_Some (try_hours hours)) then hours else DEFAULT_MAX_SHARE_EXPIRY_HOURS
      | None => DEFAULT_MAX_SHARE_EXPIRY_HOURS
      end
  end.
Definition max_share_expiry_hours : prog (WResult Z) :=
  raw ←? ask (ConfigGetOptional MAX_SHARE_EXPIRY_HOURS_KEY); Done (Ok (share_ceiling raw)).

(** How long the share lives, given the ceiling. *)
Definition share_hours (body : ShareBody) (max_hours : Z) : outcome OutputStream Z :=
  match sb_expires_in_hours body with
  | None => Ok max_hours
  | Some h =>
      if negb ((1 <=? h) && (h <=? max_hours))
      then Err (err_bad_request (String.append "expires_in_hours must be between 1 and " (dec max_hours)))
      else Ok h
  end.
(** What is done once the token is minted. *)
Definition record_share (msg : Message) (body : ShareBody) (token : string) : prog (outcome OutputStream OutputStream) :=
  now ← ask UtcNow;
  let? max_hours := max_share_expiry_hours else (fun e => db_error_internal e "Share expiry ceiling lookup failed") in
  hours ←! share_hours body max_hours;
  expiry ←! ok_or (duration ← try_hours hours; checked_add_signed now duration)
              (err_bad_request "expires_in_hours out of range");
  let? row := insert_share {| ns_token := token; ns_bucket := sb_bucket body; ns_key := sb_key body;
                              ns_created_by := msg_user_id msg; ns_created_at := to_rfc3339 now;
                              ns_expires_at := to_rfc3339 expiry; ns_max_access_count := sb_max_access_count body |}
    else (fun e => db_error_internal e "Database error") in
  Done (Ok (ok_json (VObject
    [("id", VString (sh_id row)); ("token", VString token);
     ("direct_url", VString (String.append "/b/storage/direct/" token))]))).

(** The object of the body is stored, and the caller may share it. *)
Definition check_shareable (msg : Message) (body : ShareBody) : prog (outcome OutputStream unit) :=
  if is_empty (sb_bucket body) || is_empty (sb_key body) then Done (Err (err_bad_request "Bucket and key are required"))
  else if negb (is_valid_bucket_name (sb_bucket body)) then Done (Err (err_bad_request "Invalid bucket name"))
  else if negb (is_valid_storage_key (sb_key body)) then Done (Err (err_bad_request "Invalid object key"))
  else
    _ ←? require_bucket_access msg (sb_bucket body);
    let? found := find_by_bucket_key (sb_bucket body) (sb_key body)
      else (fun e => db_error_internal e "Object lookup failed") in
    Done match found with
         | Some object =>
             match o_status object with
             | ObjectComplete => Ok tt
             | ObjectPending => Err (err_conflict "File upload still in progress; retry once it finishes")
             end
         | None => Err (err_not_found "File not found")
         end.
Definition handle_create_share (msg : Message) (raw : WResult string) : prog (outcome OutputStream OutputStream) :=
  bytes ←! Prelude.map_err OutputError raw;
  body ←! Prelude.map_err (fun e => err_bad_request (String.append "Invalid body: " e)) (share_body_from_slice bytes);
  _ ←? check_shareable msg body;
  token ←? generate_share_token;
  record_share msg body token.

Definition handle_delete_share (msg : Message) : prog (outcome OutputStream OutputStream) :=
  id ←! path_id msg "Share";
  let? share := find_share id else (fun e => db_error e "Share not found" "Database error") in
  if negb (String.eqb (sh_created_by share) (msg_user_id msg)) && negb (is_admin msg)
  then Done (Err (err_forbidden "Cannot delete another user's share"))
  else
    let? _ := delete_share id else (fun e => db_error e "Share not found" "Database error") in
    Done (Ok (ok_json (VObject [("deleted", VBool true)]))).
End ShareHandlers.
