(* ===== verification/ShareSafety.v ===== *)
(** * What a share link grants

    The accesses a handler has spent are its ghost state: the count of a row
    covers what all handlers spent, and never passes the cap.  A download that
    was served was allowed, and a share that was created ends. *)
From Stdlib Require Import String.
From S2P Require Import Features.
From S2P Require Import Prelude Ints Str Contracts SampleLib Wafer Records Effects Columns MemoryDb TableMachine Ghost Failures DbRead Crud Routing AuthRepo Csrf RateLimit Lease Streaming Serving Messages Traces Files Shares.

Section Steps.
Context {JN : JsonNumbers} {JS : JsonScalars JN} {DF : DebugFmt} {MS : Messages} {RM : ResponseMeta} {PE : PathEncode}.
Context {HE : HexEncode} {IS : Instants} {IT : IpText} {SS : ShareServices}.

Lemma find_blob_key_avoids bucket key : avoids SHARES_TABLE (find_blob_key bucket key).
Proof. unfold find_blob_key, find_stored, rows_of_key, list_bounded, over_read. avoid. Qed.
Lemma log_access_avoids share_id ip agent : avoids SHARES_TABLE (log_access share_id ip agent).
Proof. unfold log_access, now_rfc3339. avoid. Qed.
Lemma check_rate_limit_avoids buckets capacity now identity category limit :
  avoids SHARES_TABLE (check_rate_limit buckets capacity now identity category limit).
Proof. unfold check_rate_limit, resolve, ask. avoid. Qed.
Lemma check_shareable_avoids msg body : avoids SHARES_TABLE (check_shareable msg body).
Proof.
  unfold check_shareable, require_bucket_access, bucket_owned_by, find_by_bucket_key, rows_of_key, list_bounded, over_read.
  avoid.
Qed.
Lemma generate_share_token_avoids : avoids SHARES_TABLE generate_share_token.
Proof. unfold generate_share_token, ask. avoid. Qed.
Lemma max_share_expiry_hours_avoids : avoids SHARES_TABLE max_share_expiry_hours.
Proof. unfold max_share_expiry_hours, ask. avoid. Qed.
End Steps.

(** ** The accesses of one share *)
Section Cap.
Context {JN : JsonNumbers} {JS : JsonScalars JN} {NL : JsonNumberLaws JN} {DF : DebugFmt} {B : Backend} {BL : BackendLaws B}.
Context {MS : Messages} {RM : ResponseMeta} {PE : PathEncode}.
Context {HE : HexEncode} {IS : Instants} {IT : IpText} {SS : ShareServices}.

(** The share [id] with its token and cap; it had been opened [c0] times. *)
Variables (id tok : string) (m c0 : Z).
Hypothesis Hm : 0 < m.

(** The calls of a run in which neither the link's random token nor, once it is
    revoked, its identifier is drawn again for another share. *)
Definition drawn_once (s s' : state) : Prop :=
  (rows s SHARES_TABLE !! id = None -> rows s' SHARES_TABLE !! id = None) /\
  (forall i cols, rows s' SHARES_TABLE !! i = Some cols -> cols !! "token" = Some (VString tok) -> i = id).
Definition link_step R (c : call R) (s : state) (r : R) (s' : state) : Prop := call_step c s r s' /\ drawn_once s s'.

Definition total (spent : list nat) : Z := Z.of_nat (sum_list spent).
Definition tokens_ok (s : state) : Prop :=
  forall i cols, rows s SHARES_TABLE !! i = Some cols -> exists t, cols !! "token" = Some (VString t) /\ (t = tok <-> i = id).
(** The row has its cap, and its count is between the two. *)
Definition counts (low high : Z) (cols : columns) : Prop :=
  (v ← cols !! "max_access_count"; json_as_i64 v) = Some m /\
  exists n c, cols !! "access_count" = Some (VNumber n) /\ number_as_i64 n = Some c /\ low <= c <= high.
Definition share_inv (s : state) (spent : list nat) : Prop :=
  tokens_ok s /\
  match rows s SHARES_TABLE !! id with
  | Some cols => counts (c0 + total spent) (Z.max m c0) cols
  | None => True
  end /\
  total spent <= Z.max 0 (m - c0).

Lemma share_inv_perm s ls ls' : ls ≡ₚ ls' -> share_inv s ls -> share_inv s ls'.
Proof.
  intros Hp. assert (total ls = total ls') as Ht by (unfold total; by rewrite Hp).
  unfold share_inv. by rewrite Ht.
Qed.

Abbreviation keeps := (upholds_in link_step share_inv).

Lemma keeps_call_aside {R A} (Q : A -> nat -> Prop) (c : call R) (k : R -> prog A) l :
  SHARES_TABLE ∉ written_tables c -> (forall r, keeps Q l (k r)) -> keeps Q l (Do c k).
Proof.
  intros Hw Hk s others r s' HI [Hc _]. exists l. split; [|by apply Hk].
  unfold share_inv, tokens_ok. by rewrite (call_step_other c s r s' _ Hw Hc).
Qed.
Lemma keeps_avoids {A} (Q : A -> nat -> Prop) l (p : prog A) :
  avoids SHARES_TABLE p -> (forall a, Q a l) -> keeps Q l p.
Proof. intros Hp HQ. induction p as [a|R c k IH]; [apply HQ|]. destruct Hp as [Hc Hk]. apply keeps_call_aside; auto. Qed.

Lemma increment_rows_lookup filters column amount (r : table_rows) i :
  increment_rows filters column amount r !! i =
  (fun cols => if matches filters i cols then increment_cols column amount cols else cols) <$> r !! i.
Proof. unfold increment_rows. rewrite map_lookup_imap. by destruct (r !! i). Qed.
Lemma increment_cols_other column amount cols key :
  key <> column -> increment_cols column amount cols !! key = cols !! key.
Proof.
  intros Hne. unfold increment_cols. destruct (cols !! column) as [[]|]; try done.
  destruct (number_as_i64 _); [|done]. by rewrite lookup_insert_ne.
Qed.

(** An increment of the share's row keeps to the cap. *)
Lemma spend_counts low cols :
  counts low (Z.max m c0) cols -> matches (access_filters id m) id cols = true ->
  counts (low + 1) m (increment_cols "access_count" 1 cols).
Proof.
  intros (Hmax & n & c & Hc & Hn & Hl & Hh) Hmatch. split; [by rewrite increment_cols_other|].
  assert (in_i64 m = true) as Him.
  { destruct (cols !! "max_access_count") as [v|]; [|done]. by apply (json_as_i64_range v). }
  assert (c < m) as Hlt.
  { unfold access_filters, matches in Hmatch. rewrite (proj2 (Z.ltb_lt 0 m) Hm) in Hmatch. cbn [forallb] in Hmatch.
    rewrite !andb_true_iff in Hmatch. destruct Hmatch as (_ & Hlt & _). unfold json_i64 in Hlt.
    erewrite holds_less_int in Hlt; [by apply Z.ltb_lt in Hlt|done|exact Hc|exact Hn|by apply number_i64_roundtrip]. }
  assert (in_i64 (c + 1) = true) as Hi.
  { apply number_as_i64_range in Hn. apply in_i64_spec in Hn, Him. apply in_i64_spec. lia. }
  exists (number_from_i64 (c + 1)), (c + 1). unfold increment_cols. rewrite Hc, Hn, lookup_insert_eq.
  split; [done|]. split; [by apply number_i64_roundtrip|lia].
Qed.

Lemma matches_own i max j cols : matches (access_filters i max) j cols = true -> j = i.
Proof.
  unfold access_filters, matches, eq_filter. cbn [forallb]. rewrite holds_id. by intros [?%String.eqb_eq _]%andb_true_iff.
Qed.

(** A write of the count leaves the tokens. *)
Lemma increment_tokens s filters :
  tokens_ok s -> tokens_ok (set_rows s SHARES_TABLE (increment_rows filters "access_count" 1 (rows s SHARES_TABLE))).
Proof.
  intros Ht i cols'. rewrite rows_set_rows, increment_rows_lookup. intros (cols & Hr & ->)%fmap_Some.
  destruct (Ht i cols Hr) as (t & Hc & He). exists t. split; [|done].
  destruct (matches filters i cols); [by rewrite increment_cols_other|done].
Qed.

(** Spending an access of another share. *)
Lemma keeps_spend_other i max l :
  i <> id -> keeps (fun _ l' => l' = l) l (increment_access_count_capped i max).
Proof.
  intros Hne s others r s' HI [Hc _]. exists l. split; [|by destruct r].
  set (after := set_rows s SHARES_TABLE (increment_rows (access_filters i max) "access_count" 1 (rows s SHARES_TABLE))).
  assert (share_inv after (l :: others)) as Ha.
  { destruct HI as (Ht & Hr & Hs). split; [by apply increment_tokens|]. split; [|done].
    unfold after. rewrite rows_set_rows, increment_rows_lookup. destruct (rows s SHARES_TABLE !! id) as [cols|] eqn:Hrow; [|exact Hr]. cbn [fmap option_fmap option_map].
    destruct (matches (access_filters i max) id cols) eqn:Hmt; [|done]. by apply matches_own in Hmt. }
  by destruct Hc as [[_ [->|[_ ->]]]|(_ & _ & ->)].
Qed.

(** Spending an access of the share. *)
Lemma keeps_spend : keeps (fun r l' => r = Ok true -> l' = 1%nat) 0%nat (increment_access_count_capped id m).
Proof.
  intros s others r s' HI [Hc _].
  set (after := set_rows s SHARES_TABLE (increment_rows (access_filters id m) "access_count" 1 (rows s SHARES_TABLE))).
  destruct HI as (Ht & Hr & Hs).
  assert (total (1 :: others)%nat = total (0 :: others)%nat + 1) as Htot by (unfold total; simpl; lia).
  assert (share_inv after (0 :: others)%nat /\
          (0 < count_rows (access_filters id m) (rows s SHARES_TABLE) -> share_inv after (1 :: others)%nat)) as [H0 H1].
  { unfold share_inv. assert (rows after SHARES_TABLE = _) as Hafter by apply rows_set_rows. rewrite Hafter, increment_rows_lookup.
    assert (tokens_ok after) as Ht' by by apply increment_tokens.
    destruct (rows s SHARES_TABLE !! id) as [cols|] eqn:Hrow; cbn [fmap option_fmap option_map].
    - destruct (matches (access_filters id m) id cols) eqn:Hmt.
      + pose proof (spend_counts _ cols Hr Hmt) as (Hmax & n & c & Hcc & Hn & Hl & Hh).
        split; [|intros _]; (split; [done|]; split; [|unfold total in *; lia]); (split; [done|]); exists n, c; (do 2 (split; [done|])); lia.
      + split; [by split_and!|]. intros Hcount. exfalso. apply count_rows_some in Hcount as (j & c & Hj & Hmj).
        pose proof (matches_own _ _ _ _ Hmj) as ->. rewrite Hrow in Hj. by injection Hj as ->; rewrite Hmt in Hmj.
    - split; [by split_and!|]. intros Hcount. exfalso. apply count_rows_some in Hcount as (j & c & Hj & Hmj).
      pose proof (matches_own _ _ _ _ Hmj) as ->. by rewrite Hrow in Hj. }
  assert (share_inv s (0 :: others)%nat) as Hs0 by by split_and!.
  destruct Hc as [[(e & -> & _) [->|[_ ->]]]|(_ & -> & ->)].
  - exists 0%nat. by split.
  - exists 0%nat. by split.
  - destruct (Z.ltb_spec 0 (count_rows (access_filters id m) (rows s SHARES_TABLE))) as [Hlt|Hle].
    + exists 1%nat. split; [by apply H1|]. done.
    + exists 0%nat. split; [done|]. intros He. simpl in He. rewrite (proj2 (Z.ltb_ge 0 _) Hle) in He. done.
Qed.
(** *** Opening a link *)
Definition served_one (own : bool) {A} (r : outcome OutputStream A) (l : nat) : Prop :=
  own = true -> forall a, r = Ok a -> l = 1%nat.

Lemma keeps_aside_then {A C} (Q : C -> nat -> Prop) l (p : prog A) (f : A -> prog C) :
  avoids SHARES_TABLE p -> (forall a, keeps Q l (f a)) -> keeps Q l (p ≫= f).
Proof. intros Hp Hf. apply (upholds_bind _ (fun _ l' => l' = l)); [by apply keeps_avoids|]. intros a l' ->. apply Hf. Qed.
Lemma keeps_or_fail {E A C} own l (p : prog (outcome E A)) (g : E -> OutputStream) (f : A -> prog (outcome OutputStream C)) :
  avoids SHARES_TABLE p -> (forall a, keeps (served_one own) l (f a)) -> keeps (served_one own) l (or_fail g p f).
Proof. intros Hp Hf. apply keeps_aside_then; [done|]. by intros [a|e|]; [apply Hf|..]. Qed.

Lemma keeps_serve msg share :
  (sh_id share = id -> sh_max_access_count share = Some m) ->
  keeps (served_one (String.eqb (sh_id share) id)) 0%nat (serve_share msg share).
Proof.
  intros Hmax. unfold serve_share. destruct (_ || _); [done|].
  apply keeps_or_fail; [apply find_blob_key_avoids|]. intros [blob_key|]; [|done].
  apply keeps_or_fail; [by apply avoids_call, not_elem_of_nil|]. intros stream.
  apply (upholds_bind _ (fun r l' => String.eqb (sh_id share) id = true -> r = Ok true -> l' = 1%nat)).
  - destruct (String.eqb_spec (sh_id share) id) as [He|Hne].
    + rewrite (Hmax He), He. eapply upholds_weaken; [|apply keeps_spend]. auto.
    + eapply upholds_weaken; [|by apply keeps_spend_other]. done.
  - intros [[]|e|] l Hl; try done. apply keeps_aside_then; [apply log_access_avoids|]. intros _ Hown a _. by apply Hl.
Qed.

Lemma keeps_open msg token : keeps (served_one (String.eqb token tok)) 0%nat (open_share msg token).
Proof.
  unfold open_share, find_by_token. apply (upholds_bind _ (fun r l => l = 0%nat /\ forall share, r = Ok share ->
    (sh_id share = id <-> token = tok) /\ (sh_id share = id -> sh_max_access_count share = Some m))).
  - apply upholds_read; [by intros s r s' [[-> _] _]|]. intros s others r HI [Hc _]. exists 0%nat. split; [done|].
    destruct Hc as [_ [(e & -> & _)|[(i & cols & Hi & Hmt & ->)|(e & -> & _)]]]; [done| |done].
    split; [done|]. intros share [= <-]. destruct HI as (Ht & Hr & _). destruct (Ht i cols Hi) as (t & Hcol & He).
    assert (t = token) as ->.
    { unfold matches in Hmt. cbn [forallb] in Hmt. rewrite (holds_equal_text _ i cols t token) in Hmt by done.
      by apply andb_true_iff in Hmt as [?%String.eqb_eq _]. }
    split; [cbn [sh_id share_from_record row_of row_id]; by rewrite He|].
    cbn [sh_id sh_max_access_count share_from_record row_of row_id]. intros ->. rewrite Hi in Hr. destruct Hr as (Hmax & _).
    unfold opt_i64_field. cbn [row_data row_of]. rewrite Hmax. simpl. by rewrite (proj2 (Z.ltb_lt 0 m) Hm).
  - intros [share|e|] l [-> Hs]; [|done..]. destruct (Hs share eq_refl) as [He Hmax].
    apply keeps_aside_then; [done|]. intros [ends|e|]; [|done..].
    apply keeps_aside_then; [by apply avoids_call, not_elem_of_nil|]. intros now.
    destruct (ends <? now); [done|]. destruct (at_cap share); [done|].
    assert (String.eqb token tok = String.eqb (sh_id share) id) as ->; [|by apply keeps_serve].
    apply Bool.eq_iff_eq_true. by rewrite !String.eqb_eq.
Qed.

(** *** Every request *)
(** A request to open the link, and whether it served a download. *)
Definition opened (msg : Message) (r : outcome OutputStream OutputStream * Buckets) : bool :=
  String.eqb (msg_var msg "token") tok && match r.1 with Ok _ => true | _ => false end.
Definition no_download {A} (_ : A) : bool := false.

Inductive share_request : prog bool -> Prop :=
| Opens buckets capacity now msg : share_request (spawn (opened msg) (handle_direct_access buckets capacity now msg))
| Revokes msg : share_request (spawn no_download (handle_delete_share msg))
| Creates msg raw : share_request (spawn no_download (handle_create_share msg raw))
| Elsewhere A (p : prog A) : avoids SHARES_TABLE p -> share_request (spawn no_download p).

Abbreviation counted := (fun (b : bool) (l : nat) => b = true -> l = 1%nat).

Lemma keeps_spawn {A C} (Q : C -> nat -> Prop) (f : A -> C) l (p : prog A) :
  keeps (fun a => Q (f a)) l p -> keeps Q l (spawn f p).
Proof. intros Hp. eapply upholds_bind; [exact Hp|]. done. Qed.

Lemma keeps_direct buckets capacity now msg :
  keeps (fun r => counted (opened msg r)) 0%nat (handle_direct_access buckets capacity now msg).
Proof.
  unfold handle_direct_access, path_var. destruct (is_empty (msg_var msg "token")).
  { unfold opened. simpl. by rewrite andb_false_r. }
  apply keeps_aside_then; [apply check_rate_limit_avoids|]. intros [limited b].
  apply (upholds_bind _ (served_one (String.eqb (msg_var msg "token") tok))).
  - destruct limited; [apply keeps_open..|done].
  - intros r l Hs. unfold opened. simpl. intros [Ho Hr]%andb_true_iff. destruct r as [a| |]; [|done..]. by eapply Hs.
Qed.

Lemma keeps_revoke msg : keeps (fun _ _ => True) 0%nat (handle_delete_share msg).
Proof.
  unfold handle_delete_share, path_id, path_var. destruct (is_empty _); [done|].
  cbn [prog_try mbind prog_mbind prog_bind]. apply keeps_aside_then; [|intros [share|e|]; [|done..]].
  { unfold find_share. avoid. }
  destruct (_ && _); [done|]. apply (upholds_bind _ (fun _ _ => True)); [|by intros [[]|e|]].
  intros s others r s' HI [Hc _]. exists 0%nat. split; [|done].
  simpl in Hc. destruct (rows s SHARES_TABLE !! msg_var msg "id") as [cols|] eqn:Hr; [|by destruct Hc as [-> _]].
  enough (share_inv (set_rows s SHARES_TABLE (base.delete (msg_var msg "id") (rows s SHARES_TABLE))) (0%nat :: others)) as Hd
    by (by destruct Hc as [[_ [->| ->]]|[_ ->]]).
  destruct HI as (Ht & Hrow & Hs). unfold share_inv, tokens_ok. rewrite rows_set_rows. split; [|split; [|done]].
  - intros i c Hi. apply lookup_delete_Some in Hi as [_ Hi]. by apply Ht.
  - destruct (decide (msg_var msg "id" = id)) as [He|Hne].
    + by rewrite He, lookup_delete_eq.
    + by rewrite lookup_delete_ne.
Qed.

Lemma share_data_token new : share_data new !! "token" = Some (VString (ns_token new)).
Proof. unfold share_data. by destruct (ns_max_access_count new). Qed.

Lemma keeps_record msg body token : keeps (fun _ _ => True) 0%nat (record_share msg body token).
Proof.
  unfold record_share. apply keeps_aside_then; [by apply avoids_call, not_elem_of_nil|]. intros now.
  apply keeps_aside_then; [apply max_share_expiry_hours_avoids|]. intros [max_hours|e|]; [|done..].
  apply keeps_aside_then; [done|]. intros [hours|e|]; [|done..].
  apply keeps_aside_then; [done|]. intros [expiry|e|]; [|done..].
  apply (upholds_bind _ (fun _ _ => True)); [|by intros [row|e|]].
  intros s others r s' HI [Hc [Hid Htoken]]. exists 0%nat. split; [|by destruct r].
  destruct Hc as [[-> _]|(i & cols & Hfree & Hsub & _ & -> & _)]; [done|].
  pose proof (lookup_weaken _ _ _ _ (share_data_token _) Hsub) as Htok. simpl in Htok.
  destruct HI as (Ht & Hrow & Hs). unfold share_inv, tokens_ok. rewrite rows_set_rows in *.
  assert (i <> id) as Hi.
  { intros ->. specialize (Hid Hfree). by rewrite lookup_insert_eq in Hid. }
  assert (token <> tok) as Hne.
  { intros ->. apply Hi, (Htoken i cols); [by rewrite lookup_insert_eq|done]. }
  split; [|split; [by rewrite lookup_insert_ne|done]].
  intros j c [[<- <-]|[_ Hj]]%lookup_insert_Some; [|by apply Ht]. exists token. split; [done|]. by split.
Qed.

(** An error of an earlier step ends a request. *)
Lemma keeps_try_aside {E A C} (p : prog (outcome E A)) (f : A -> prog (outcome E C)) :
  avoids SHARES_TABLE p -> (forall a, keeps (fun _ _ => True) 0%nat (f a)) -> keeps (fun _ _ => True) 0%nat (prog_try p f).
Proof. intros Hp Hf. apply keeps_aside_then; [done|]. by intros [a|e|]; [apply Hf|..]. Qed.
Lemma keeps_create msg raw : keeps (fun _ _ => True) 0%nat (handle_create_share msg raw).
Proof.
  unfold handle_create_share. apply keeps_try_aside; [done|]. intros bytes. apply keeps_try_aside; [done|]. intros body.
  apply keeps_try_aside; [apply check_shareable_avoids|]. intros _.
  apply keeps_try_aside; [apply generate_share_token_avoids|]. intros token. apply keeps_record.
Qed.

Lemma keeps_request p : share_request p -> keeps counted 0%nat p.
Proof.
  intros []; apply keeps_spawn.
  - apply keeps_direct.
  - eapply upholds_weaken; [|apply keeps_revoke]. done.
  - eapply upholds_weaken; [|apply keeps_create]. done.
  - by apply keeps_avoids.
Qed.

(** The downloads among the results. *)
Definition downloads (ps : list (prog bool)) : nat := sum_list_with (fun p => match p with Done true => 1 | _ => 0 end)%nat ps.

Lemma downloads_spent ps ls : Forall2 (keeps counted) ls ps -> (downloads ps <= sum_list ls)%nat.
Proof.
  induction 1 as [|l p ls ps Hp _ IH]; [done|]. unfold downloads in *. cbn [sum_list_with sum_list foldr].
  assert (match p with Done true => 1 | _ => 0 end <= l)%nat as Hl.
  { destruct p as [[]|]; [|lia..]. by rewrite (Hp eq_refl). }
  change (Datatypes.id l) with l. lia.
Qed.
End Cap.

(** ** What a run did *)
Section Runs.
Context {JN : JsonNumbers} {JS : JsonScalars JN} {DF : DebugFmt} {MS : Messages} {RM : ResponseMeta} {PE : PathEncode}.
Context {HE : HexEncode} {IS : Instants} {IT : IpText} {SS : ShareServices}.

Inductive share_event :=
| Looked (table : string) (by_value : Value) (rec : Row)
| Listed (table : string) (filters : list Filter) (recs : list Row)
| Clock (now : Z)
| Ceiling (raw : option string)
| Fetched (folder key content content_type : string)
| Counted (table : string) (filters : list Filter) (n : Z)
| CreatedRow (table : string) (data : columns).
Definition asked_event {R} (q : service R) : R -> option share_event :=
  match q in service R return R -> option share_event with
  | UtcNow => fun now => Some (Clock now)
  | ConfigGetOptional _ => fun r => match r with Ok raw => Some (Ceiling raw) | _ => None end
  | _ => fun _ => None
  end.
Definition share_event_of (h : happened) : option share_event :=
  match h with
  | Happened c r =>
      match c in call R return R -> option share_event with
      | GetByField table _ v => fun r => match r with Ok rec => Some (Looked table v rec) | _ => None end
      | ListRows table filters _ => fun r => match r with Ok recs => Some (Listed table filters recs) | _ => None end
      | StoreGet folder key => fun r => match r with Ok (content, ct) => Some (Fetched folder key content ct) | _ => None end
      | IncrementFieldWhere table _ _ filters => fun r => match r with Ok n => Some (Counted table filters n) | _ => None end
      | Create table data => fun _ => Some (CreatedRow table data)
      | Ask q => asked_event q
      | _ => fun _ => None
      end r
  end.
Definition saw (t : list happened) (e : share_event) : Prop := exists h, h ∈ t /\ share_event_of h = Some e.

Lemma saw_app t1 t2 e : saw (t1 ++ t2) e <-> saw t1 e \/ saw t2 e.
Proof. unfold saw. setoid_rewrite elem_of_app. naive_solver. Qed.

Lemma saw_call {R} (c : call R) t a e : ran (do_call c) t a -> share_event_of (Happened c a) = Some e -> saw t e.
Proof. intros ->%ran_call He. exists (Happened c a). split; [by left|done]. Qed.

(** A program that leaves a table alone creates no row in it. *)
Lemma avoids_creates {A} table (p : prog A) t a data :
  avoids table p -> ran p t a -> ~ saw t (CreatedRow table data).
Proof.
  revert t. induction p as [b|R c k IH]; intros t Hp Hr.
  - apply ran_done in Hr as [-> _]. intros (h & Hh & _). by apply not_elem_of_nil in Hh.
  - destruct Hp as [Hw Hk]. apply ran_do in Hr as (r & t' & -> & Hr).
    intros (h & [->|Hh]%elem_of_cons & He); [|by apply (IH r t' (Hk r) Hr); exists h].
    destruct c; try discriminate He; simpl in He; try (by repeat case_match); simplify_eq.
    + apply Hw. by left.
    + by destruct q; try discriminate He; simpl in He; repeat case_match.
Qed.
Lemma creates_in_rest {A C} table data (p : prog A) (f : A -> prog C) t b :
  avoids table p -> ran (p ≫= f) t b -> saw t (CreatedRow table data) ->
  exists a t1 t2, t = t1 ++ t2 /\ ran p t1 a /\ ran (f a) t2 b /\ saw t2 (CreatedRow table data).
Proof.
  intros Hp (a & t1 & t2 & -> & H1 & H2)%ran_bind [Hs|Hs]%saw_app; [by eapply avoids_creates in H1|by exists a, t1, t2].
Qed.


(** The rows of a key were listed, whole. *)
Lemma ran_rows_of_key bucket key t recs :
  ran (rows_of_key bucket key) t (Ok recs) -> saw t (Listed OBJECTS_TABLE (bucket_key_filters bucket key) recs).
Proof.
  intros (capped & t1 & t2 & -> & Hover & Hcap)%ran_try_ok.
  apply ran_try_ok in Hover as (l & t3 & t4 & -> & Hlist & [-> [= ->]]%ran_done). cbn [truncated capped_rows] in Hcap.
  destruct (_ <? _); [by apply ran_done in Hcap as [_ ?]|]. apply ran_done in Hcap as [-> [= <-]].
  rewrite !saw_app. pose proof (saw_call _ _ _ _ Hlist eq_refl). tauto.
Qed.




(** *** A share that was created *)
Lemma share_ceiling_pos raw : 1 <= share_ceiling raw.
Proof.
  unfold share_ceiling, DEFAULT_MAX_SHARE_EXPIRY_HOURS. destruct raw as [raw|]; [|lia].
  destruct (parse_i64 (trim raw)) as [hours|]; [|lia]. destruct (Z.ltb_spec 0 hours); simpl; [|lia].
  case_bool_decide; lia.
Qed.
Lemma share_hours_range body max hours : 1 <= max -> share_hours body max = Ok hours -> 1 <= hours <= max.
Proof.
  intros Hmax. unfold share_hours. destruct (sb_expires_in_hours body) as [h|]; [|intros [= <-]; lia].
  destruct (_ && _) eqn:Hb; [|done]. intros [= <-]. apply andb_true_iff in Hb as [?%Z.leb_le ?%Z.leb_le]. lia.
Qed.

(** The object was read as stored. *)
Definition read_complete (t : list happened) (bucket key : string) : Prop :=
  exists recs rec object, saw t (Listed OBJECTS_TABLE (bucket_key_filters bucket key) recs) /\ rec ∈ recs /\
    object_from_record rec = Ok object /\ o_status object = ObjectComplete.
Lemma ran_shareable msg body t :
  ran (check_shareable msg body) t (Ok tt) -> read_complete t (sb_bucket body) (sb_key body).
Proof.
  unfold check_shareable. do 3 (destruct (_ : bool); [by intros [_ ?]%ran_done|]).
  intros (u & t1 & t2 & -> & _ & H)%ran_try_ok. apply ran_or_fail_ok in H as (found & t3 & t4 & -> & Hfind & [-> Hf]%ran_done).
  destruct found as [object|]; [|done]. destruct (o_status object) eqn:Hst; [done|].
  apply ran_try_ok in Hfind as (recs & t5 & t6 & -> & Hrows & [-> Hfirst]%ran_done).
  destruct recs as [|rec recs]; [done|]. simpl in Hfirst.
  apply ran_rows_of_key in Hrows.
  destruct (object_from_record rec) as [o|e|] eqn:Ho; [|done..]. simpl in Hfirst. injection Hfirst as ->.
  exists (rec :: recs), rec, o. rewrite !saw_app.
  split; [tauto|]. split; [by left|done].
Qed.
Lemma saw_nil e : ~ saw [] e.
Proof. intros (h & Hh & _). by apply not_elem_of_nil in Hh. Qed.

(** The row is created by the last step of a run that went on. *)
Lemma creates_try {E A C} table data (p : prog (outcome E A)) (f : A -> prog (outcome E C)) t b :
  avoids table p -> ran (prog_try p f) t b -> saw t (CreatedRow table data) ->
  exists a t1 t2, t = t1 ++ t2 /\ ran p t1 (Ok a) /\ ran (f a) t2 b /\ saw t2 (CreatedRow table data).
Proof.
  intros Hp Hr Hs. destruct (creates_in_rest _ _ _ _ _ _ Hp Hr Hs) as (r & t1 & t2 & -> & H1 & H2 & H3).
  destruct r as [a|e|]; [by exists a, t1, t2|by apply ran_done in H2 as [-> _]; apply saw_nil in H3..].
Qed.
Lemma creates_or_fail {E F A C} table data (g : E -> F) (p : prog (outcome E A)) (f : A -> prog (outcome F C)) t b :
  avoids table p -> ran (or_fail g p f) t b -> saw t (CreatedRow table data) ->
  exists a t1 t2, t = t1 ++ t2 /\ ran p t1 (Ok a) /\ ran (f a) t2 b /\ saw t2 (CreatedRow table data).
Proof.
  intros Hp Hr Hs. destruct (creates_in_rest _ _ _ _ _ _ Hp Hr Hs) as (r & t1 & t2 & -> & H1 & H2 & H3).
  destruct r as [a|e|]; [by exists a, t1, t2|by apply ran_done in H2 as [-> _]; apply saw_nil in H3..].
Qed.

Lemma ran_insert new t r data :
  ran (insert_share new) t r -> saw t (CreatedRow SHARES_TABLE data) -> data = share_data new.
Proof.
  unfold insert_share. intros (a & t1 & t2 & -> & ->%ran_call & H)%ran_bind [Hs|Hs]%saw_app.
  - destruct Hs as (h & ->%list_elem_of_singleton & [= <-]). done.
  - by destruct a; apply ran_done in H as [-> _]; apply saw_nil in Hs.
Qed.

(** What a created share holds: an end within the ceiling that was read, and
    nothing yet counted. *)
Definition bounded_share (t : list happened) (data : columns) : Prop :=
  exists now raw hours, saw t (Clock now) /\ saw t (Ceiling raw) /\ 1 <= hours <= share_ceiling raw /\
    data !! "expires_at" = Some (VString (to_rfc3339 (now + hours * 3600 * 10 ^ 9))) /\
    data !! "access_count" = Some (json_i64 0).

Lemma share_data_columns new :
  share_data new !! "expires_at" = Some (VString (ns_expires_at new)) /\
  share_data new !! "access_count" = Some (json_i64 0) /\
  share_data new !! "bucket" = Some (VString (ns_bucket new)) /\ share_data new !! "key" = Some (VString (ns_key new)).
Proof. unfold share_data. by destruct (ns_max_access_count new). Qed.

Lemma ran_record {SL : ShareServiceLaws SS} msg body token t r data :
  ran (record_share msg body token) t r -> saw t (CreatedRow SHARES_TABLE data) ->
  bounded_share t data /\ data !! "bucket" = Some (VString (sb_bucket body)) /\ data !! "key" = Some (VString (sb_key body)).
Proof.
  unfold record_share. intros H Hs.
  assert (avoids SHARES_TABLE (ask UtcNow)) as Hclock by by apply avoids_call, not_elem_of_nil.
  destruct (creates_in_rest _ _ _ _ _ _ Hclock H Hs) as (now & t1 & t2 & -> & Hnow & H2 & Hs2).
  clear H Hs. destruct (creates_or_fail _ _ _ _ _ _ _ max_share_expiry_hours_avoids H2 Hs2) as (max & t3 & t4 & -> & Hmax & H & Hs).
  apply ran_try_ok in Hmax as (raw & t5 & t6 & -> & Hraw & [-> [= ->]]%ran_done).
  destruct (creates_try _ _ _ _ _ _ (avoids_done _ _) H Hs) as (hours & t7 & t8 & -> & [-> Hh]%ran_done & H3 & Hs3).
  symmetry in Hh. apply share_hours_range in Hh; [|apply share_ceiling_pos].
  destruct (creates_try _ _ _ _ _ _ (avoids_done _ _) H3 Hs3) as (expiry & t9 & t10 & -> & [-> He]%ran_done & H4 & Hs4).
  assert (expiry = now + hours * 3600 * 10 ^ 9) as ->.
  { destruct (try_hours hours) as [d|] eqn:Hd; [|done]. simpl in He.
    destruct (checked_add_signed now d) as [x|] eqn:Hx; [|done]. injection He as ->.
    apply try_hours_exact in Hd as ->. by apply checked_add_exact in Hx. }
  apply ran_bind in H4 as (row & t11 & t12 & -> & Hins & Hrest).
  assert (saw t11 (CreatedRow SHARES_TABLE data)) as Hc.
  { apply saw_app in Hs4 as [?|Hs4]; [done|]. destruct row; apply ran_done in Hrest as [-> _]; by apply saw_nil in Hs4. }
  apply (ran_insert _ _ _ _ Hins) in Hc as ->.
  match goal with |- context [share_data ?new] => destruct (share_data_columns new) as (H5 & H6 & H7 & H8) end.
  split; [|by split]. exists now, raw, hours. rewrite !saw_app.
  pose proof (saw_call _ _ _ _ Hnow eq_refl). pose proof (saw_call _ _ _ _ Hraw eq_refl).
  split; [tauto|]. split; [tauto|]. split; [done|]. by split.
Qed.

(** C30. Every row a request to share inserts ends at the clock of the request
    plus between one hour and the ceiling it read, and names an object that it
    read as stored. *)
Theorem created_share_ends {SL : ShareServiceLaws SS} msg raw t r data :
  ran (handle_create_share msg raw) t r -> saw t (CreatedRow SHARES_TABLE data) ->
  bounded_share t data /\
  exists bucket key, data !! "bucket" = Some (VString bucket) /\ data !! "key" = Some (VString key) /\ read_complete t bucket key.
Proof.
  unfold handle_create_share. intros H Hs.
  destruct (creates_try _ _ _ _ _ _ (avoids_done _ _) H Hs) as (bytes & t1 & t2 & -> & [-> _]%ran_done & H2 & Hs2).
  destruct (creates_try _ _ _ _ _ _ (avoids_done _ _) H2 Hs2) as (body & t3 & t4 & -> & [-> _]%ran_done & H3 & Hs3).
  destruct (creates_try _ _ _ _ _ _ (check_shareable_avoids _ _) H3 Hs3) as ([] & t5 & t6 & -> & Hcheck & H4 & Hs4).
  pose proof generate_share_token_avoids as Hgen.
  destruct (creates_try _ _ _ _ _ _ Hgen H4 Hs4) as (token & t7 & t8 & -> & _ & H5 & Hs5).
  destruct (ran_record _ _ _ _ _ _ H5 Hs5) as ((now & raw' & hours & H6 & H7 & H8) & Hb & Hk).
  split.
  - exists now, raw', hours. cbn [app]. rewrite !saw_app. tauto.
  - exists (sb_bucket body), (sb_key body). do 2 (split; [done|]).
    destruct (ran_shareable _ _ _ Hcheck) as (recs & rec & object & Hl & H9). exists recs, rec, object.
    cbn [app]. rewrite !saw_app. tauto.
Qed.
End Runs.

(** C8. A link with a cap serves no more downloads than it had left, however
    requests to open it and other links, creations, revocations - of this link
    too - and requests that leave the table alone interleave, and whichever
    calls fail, in a run that draws neither the link's random token nor, once it
    is revoked, its identifier for another share. *)
Theorem share_cap_bounds_downloads {JN : JsonNumbers} {JS : JsonScalars JN} {NL : JsonNumberLaws JN} {DF : DebugFmt}
    {B : Backend} {BL : BackendLaws B} {MS : Messages} {RM : ResponseMeta} {PE : PathEncode} {HE : HexEncode}
    {IS : Instants} {IT : IpText} {SS : ShareServices}
    (id tok : string) (m c0 : Z) (ps ps' : list (prog bool)) (s s' : state) (cols : columns)
    (Htokens : tokens_ok id tok s) (Hrow : rows s SHARES_TABLE !! id = Some cols)
    (Hcap : sh_max_access_count (share_from_record (row_of id cols)) = Some m)
    (Hcount : int_col cols "access_count" = Some c0)
    (Hps : Forall (share_request tok) ps) (Hrun : rtc (moves (link_step id tok)) (ps, s) (ps', s')) :
  Z.of_nat (downloads ps') <= Z.max 0 (m - c0).
Proof.
  assert (0 < m /\ (v ← cols !! "max_access_count"; json_as_i64 v) = Some m) as [Hm Hmax].
  { cbn [sh_max_access_count share_from_record] in Hcap. unfold opt_i64_field in Hcap. cbn [row_data row_of] in Hcap.
    destruct (v ← cols !! "max_access_count"; json_as_i64 v) as [n|]; [|done]. simpl in Hcap.
    destruct (Z.ltb_spec 0 n); [|done]. by injection Hcap as ->. }
  destruct (upholds_moves _ (share_inv_perm id tok m c0) (fun (b : bool) (l : nat) => b = true -> l = 1%nat)
    _ _ Hrun (replicate (length ps) 0%nat)) as (ls & (_ & _ & Hle) & Hall).
  - assert (total (replicate (length ps) 0%nat) = 0) as Ht by (unfold total; clear; by induction (length ps)).
    split; [done|]. simpl. rewrite Hrow, Ht. split; [|lia]. split; [done|].
    apply int_col_number in Hcount as (n & Hn & Hz). exists n, c0. do 2 (split; [done|]). lia.
  - apply Forall2_replicate_l; [done|]. eapply Forall_impl; [exact Hps|]. intros p. by apply keeps_request.
  - apply downloads_spent in Hall. unfold total in Hle. cbn [fst snd] in *. lia.
Qed.

(** ** Witnesses *)
#[local] Existing Instances percent_encoding codec_meta RateLimit.sample_ip.
#[local] Instance sample_share_services : ShareServices := {|
  try_hours h := Some (h * 3600 * 10 ^ 9);
  checked_add_signed t d := Some (t + d);
  share_body_from_slice _ := Ok {| sb_bucket := "photos"; sb_key := "cat.png"; sb_expires_in_hours := Some 2; sb_max_access_count := None |};
  remote_addr _ := "10.0.0.1";
  no_cause := wafer_error Internal;
|}.
#[local] Instance sample_share_service_laws : ShareServiceLaws sample_share_services.
Proof. split; simpl; by intros * [= <-]. Qed.
#[local] Instance share_hex : HexEncode := fun _ => "beef".
(** Random bytes are there to be had; it is the first nanosecond. *)
#[local] Instance share_answers : Services := fun R q =>
  match q in service R return R with RandomBytes _ => Ok [] | q => idle_services _ q end.

Definition cat_object : columns := columns_of
  [("bucket", VString "photos"); ("key", VString "cat.png"); ("status", VString "complete")].
(** A link to it that may be opened once. *)
Definition one_access : columns := columns_of
  [("token", VString "abc"); ("bucket", VString "photos"); ("key", VString "cat.png"); ("expires_at", VString "100");
   ("access_count", json_i64 0); ("max_access_count", json_i64 1)].
Definition shared_cat : state :=
  set_rows (set_rows (set_rows ∅ SHARES_TABLE {["link" := one_access]}) OBJECTS_TABLE {["cat" := cat_object]})
    (storage_of "photos") {["cat.png" := blob "meow"]}.
Definition link_message (user : string) : Message := {|
  sm_action := "retrieve"; sm_path := "/b/storage/direct"; sm_user := user;
  sm_meta := [("req.param.token", "abc"); ("req.param.id", "link"); ("auth.user_roles", "admin")] |}.
Definition open_link := handle_direct_access ∅ 10 0 (link_message "").

(** A run in which the link is drawn once, checked step by step. *)
Definition drawn_once_check (id tok : string) (s s' : state) : bool :=
  (bool_decide (is_Some (rows s SHARES_TABLE !! id)) || negb (bool_decide (is_Some (rows s' SHARES_TABLE !! id)))) &&
  forallb (fun row => match row.2 !! "token" with Some (VString t) => negb (String.eqb t tok) || String.eqb row.1 id | _ => true end)
    (map_to_list (rows s' SHARES_TABLE)).
Fixpoint drawn_once_run `{Services} {A} (id tok : string) (schedule : list nat) (cfg : list (prog A) * state) : bool :=
  match schedule with
  | [] => true
  | i :: schedule => drawn_once_check id tok cfg.2 (run_one i cfg).2 && drawn_once_run id tok schedule (run_one i cfg)
  end.
Lemma drawn_once_checked id tok s s' : drawn_once_check id tok s s' = true -> drawn_once id tok s s'.
Proof.
  unfold drawn_once_check. rewrite andb_true_iff, orb_true_iff, bool_decide_eq_true, negb_true_iff, bool_decide_eq_false.
  intros [Hid Htok]. split.
  - intros Hn. destruct Hid as [[? Hid]|Hid]; [congruence|by apply eq_None_not_Some].
  - intros i cols Hi Hc. rewrite forallb_forall in Htok. specialize (Htok (i, cols)). simpl in Htok. rewrite Hc, String.eqb_refl in Htok.
    apply String.eqb_eq, Htok, list_elem_of_In. by apply elem_of_map_to_list.
Qed.
Lemma drawn_once_run_moves `{Services} {A} id tok schedule (cfg : list (prog A) * state) :
  drawn_once_run id tok schedule cfg = true -> rtc (moves (link_step id tok)) cfg (run_schedule schedule cfg).
Proof.
  revert cfg. induction schedule as [|i schedule IH]; intros cfg; [done|].
  cbn [drawn_once_run]. rewrite andb_true_iff. intros [Hd%drawn_once_checked Hrun]. etrans; [|by apply IH].
  clear IH Hrun. unfold run_one in *. destruct cfg as [ps s]. simpl in *. destruct (ps !! i) as [[a|R c k]|] eqn:Hi; [done| |done].
  apply rtc_once. econstructor; [exact Hi|]. split; [apply call_run_step|done].
Qed.

(** Two requests to open the link at once, one to create another link to the
    same object, and one to revoke the first: both openings resolve the object
    before either spends the access. *)
Definition link_requests : list (prog bool) :=
  [spawn (opened "abc" (link_message "")) open_link; spawn (opened "abc" (link_message "")) open_link;
   spawn no_download (handle_delete_share (link_message "ann"));
   spawn no_download (handle_create_share (link_message "ann") (Ok "body"))].
Definition link_schedule : list nat := (replicate 5 0 ++ replicate 9 1 ++ replicate 9 3 ++ replicate 4 0 ++ replicate 2 2)%nat.
Definition link_run := run_schedule link_schedule (link_requests, shared_cat).

Lemma share_cap_bounds_downloads_witness :
  (downloads link_run.1 = 1%nat /\ existsb (String.eqb "link") (map fst (map_to_list (rows link_run.2 SHARES_TABLE))) = false /\
   length (map_to_list (rows link_run.2 SHARES_TABLE)) = 1%nat) /\
  Z.of_nat (downloads link_run.1) <= Z.max 0 (1 - 0).
Proof.
  split; [split_and!; by vm_compute|].
  apply (share_cap_bounds_downloads (B := memory_backend) "link" "abc" 1 0 link_requests link_run.1 shared_cat link_run.2 one_access).
  - intros i cols. change (rows shared_cat SHARES_TABLE) with ({["link" := one_access]} : table_rows).
    intros [<- <-]%lookup_singleton_Some. by exists "abc".
  - change (rows shared_cat SHARES_TABLE) with ({["link" := one_access]} : table_rows). apply lookup_singleton_eq.
  - by vm_compute.
  - by vm_compute.
  - constructor; [apply Opens|]. constructor; [apply Opens|]. constructor; [apply Revokes|]. constructor; [apply Creates|constructor].
  - rewrite <- surjective_pairing. apply drawn_once_run_moves. by vm_compute.
Defined.


Definition ann_shares : Message := link_message "ann".
Definition created_run := run_traced (handle_create_share ann_shares (Ok "body")) shared_cat.
Definition created_cat : option columns :=
  last (omap (fun h => match share_event_of h with
                       | Some (CreatedRow table data) => if String.eqb table SHARES_TABLE then Some data else None
                       | _ => None end) created_run.1).
Lemma created_share_ends_witness :
  match created_cat with
  | Some data => bounded_share created_run.1 data /\ exists bucket key, data !! "bucket" = Some (VString bucket) /\
      data !! "key" = Some (VString key) /\ read_complete created_run.1 bucket key
  | None => False
  end.
Proof.
  assert (bool_decide (is_Some created_cat) = true) as Hok by by vm_compute.
  pose proof (run_traced_ran (handle_create_share ann_shares (Ok "body")) shared_cat) as Hr. fold created_run in Hr.
  destruct created_cat as [data|] eqn:Hc; [|discriminate Hok].
  apply (created_share_ends ann_shares (Ok "body") created_run.1 created_run.2 data Hr).
  unfold created_cat in Hc. apply last_Some_elem_of, list_elem_of_omap in Hc as (h & Hin & Hh).
  exists h. split; [exact Hin|]. destruct (share_event_of h) as [[]|]; try discriminate Hh.
  destruct (String.eqb_spec table SHARES_TABLE) as [->|]; [by injection Hh as ->|discriminate Hh].
Defined.
