(* ===== verification/ConfigVars.v ===== *)
(** * Configuration keys ([config_vars.rs], [util.rs])

    Which keys there are, which hold a secret, which the runtime owns, how a
    key is written, and the rule a value passes before it is stored.  What the
    blocks declare is data, and a parameter. *)
From Stdlib Require Import String.
From S2P Require Import Prelude Ints Str Contracts SampleLib Ssrf.

(** [wafer_block::ConfigVar]: what the code reads of a declaration. *)
Record ConfigVar := {
  cv_key : string; cv_name : string; cv_description : string; cv_default : string; cv_warning : string;
  cv_is_sensitive : bool; cv_is_url : bool; cv_auto_generate : bool
}.

(** The declarations of the core, of the auth block and of every block, the
    value rules of the auth block, what the security-headers block would refuse
    of a policy, and the [{:?}] of a character. *)
Class Catalogue := {
  shared_config_vars : list ConfigVar;
  auth_identity_config_vars : list ConfigVar;
  all_block_infos : list (string * list ConfigVar);
  auth_value_rules : list (string * (string -> outcome string unit));
  csp_refused : string -> list string;
  debug_char : string -> string;
}.

(** ** Spelling *)
Definition IMPRESSPRESS_PREFIX : string := "IMPRESSPRESS_".
Definition JWT_SECRET_KEY : string := "WAFER_RUN__AUTH__JWT_SECRET".
Definition BOOTSTRAP_ADMIN_PASSWORD_KEY : string := "WAFER_RUN_SHARED__AUTH__BOOTSTRAP_ADMIN_PASSWORD".
Definition BOOTSTRAP_ADMIN_TOKEN_KEY : string := "WAFER_RUN_SHARED__AUTH__BOOTSTRAP_ADMIN_TOKEN".
Definition CSP_DIRECTIVES_KEY : string := "WAFER_RUN_SHARED__CSP_DIRECTIVES".

Definition has_sensitive_suffix (key : string) : bool := ends_with "_SECRET" key || ends_with "_KEY" key.
Definition is_infrastructure_key (key : string) : bool := starts_with IMPRESSPRESS_PREFIX key && negb (contains "__" key).
Definition is_internal_key (key : string) : bool :=
  (4 <? String.length key)%nat && starts_with "__" key && ends_with "__" key.
Definition is_runtime_owned_key (key : string) : bool := is_infrastructure_key key || is_internal_key key.
Definition is_instance_owned_key (key : string) : bool := String.eqb key JWT_SECRET_KEY || is_runtime_owned_key key.
Definition is_provisioning_only_key (key : string) : bool := String.eqb key BOOTSTRAP_ADMIN_PASSWORD_KEY.

(** [str::to_uppercase] of block names, which are ASCII. *)
Definition screaming (part : string) : string := to_ascii_uppercase (str_map (fun c => if Ascii.eqb c "-" then "_"%char else c) part).
Definition screaming_block (name : string) : string :=
  let '(org, block) := default (name, "") (split_once "/" name) in
  if is_empty block then screaming org else concat_chars [screaming org; "__"; screaming block].
Definition key_block_prefix (key : string) : string :=
  match find "__" key with
  | None => ""
  | Some first =>
      match find "__" (str_drop (first + 2) key) with
      | Some rel => str_take (first + 2 + rel) key
      | None => ""
      end
  end.

(** [key.split("__")] *)
Fixpoint split_dunder (s : string) : list string :=
  match s with
  | EmptyString => [""]
  | String.String a r =>
      match r with
      | String.String b r' =>
          if Ascii.eqb a "_" && Ascii.eqb b "_" then "" :: split_dunder r'
          else match split_dunder r with p :: ps => String.String a p :: ps | [] => [String.String a ""] end
      | EmptyString => [String.String a ""]
      end
  end.

Section Catalogue.
Context {CA : Catalogue} {NS : NetSecurity}.

(** ** Declarations *)
Definition collect_all_config_vars : list ConfigVar :=
  shared_config_vars ++ flat_map snd all_block_infos ++ auth_identity_config_vars.
Definition is_declared_key (key : string) : bool :=
  existsb (fun v => String.eqb (cv_key v) key) collect_all_config_vars.
Definition declared_sensitive (key : string) : bool :=
  existsb (fun v => (cv_is_sensitive v || cv_auto_generate v) && String.eqb (cv_key v) key) collect_all_config_vars.
Definition is_sensitive_for_storage (key : string) : bool := has_sensitive_suffix key || declared_sensitive key.
Definition is_sensitive_by_default_when_created (key : string) : bool :=
  is_sensitive_for_storage key || negb (is_declared_key key).
Definition is_sensitive_var (var : ConfigVar) : bool :=
  cv_is_sensitive var || cv_auto_generate var || has_sensitive_suffix (cv_key var).

(** ** Well-formed keys *)
Definition VARIABLE_KEY_FORMAT : string :=
  "Use UPPER_SNAKE_CASE parts joined by a double underscore: WAFER_RUN_SHARED__<NAME> for shared config, or <ORG>__<BLOCK>__<NAME> for one block's config (for example IMPRESSPRESS__EMAIL__FROM_ADDRESS). Each part is letters A-Z, digits and single underscores.".

(** A character of the key: its bytes. *)
Definition key_char (c : string) : bool :=
  match c with
  | String.String a EmptyString => is_ascii_uppercase a || is_ascii_digit a || Ascii.eqb a "_"
  | _ => false
  end.
Definition lowercase_char (c : string) : bool :=
  match c with String.String a EmptyString => is_ascii_lowercase a | _ => false end.
Definition malformed_part (part : string) : bool := is_empty part || starts_with "_" part || ends_with "_" part.
Definition refuse_key (key what : string) : outcome string unit :=
  Err (concat_chars [bytes [34]; key; bytes [34]; " is not a valid variable key: "; what; ". "; VARIABLE_KEY_FORMAT]).
Definition check_variable_key (key : string) : outcome string unit :=
  if is_empty key then Err (String.append "A variable key is required. " VARIABLE_KEY_FORMAT)
  else
    match List.find (fun c => negb (key_char c)) (split_chars key) with
    | Some c =>
        refuse_key key (if lowercase_char c then "it contains lowercase letters"
                        else String.append "it contains " (debug_char c))
    | None =>
        let parts := split_dunder key in
        if existsb malformed_part parts
        then refuse_key key "parts are joined by exactly two underscores, and none is empty"
        else
          let required := if bool_decide (head parts = Some "WAFER_RUN_SHARED") then 2%nat else 3%nat in
          if (length parts =? 1)%nat then refuse_key key "it has no namespace, so no block could read it"
          else if (length parts <? required)%nat then refuse_key key "it names an org and a block but no setting"
          else Ok tt
    end.

(** ** Values *)
Definition check_csp_directives (value : string) : outcome string unit :=
  match csp_refused value with
  | [] => Ok tt
  | refused => Err (String.append "the Content-Security-Policy would leave out " (join "; " refused))
  end.
Definition config_value_rules : list (string * (string -> outcome string unit)) :=
  (CSP_DIRECTIVES_KEY, check_csp_directives) :: auth_value_rules.
Fixpoint try_for_each {A} (check : A -> outcome string unit) (l : list A) : outcome string unit :=
  match l with [] => Ok tt | x :: l => _ ← check x; try_for_each check l end.
Definition check_config_value (key value : string) : outcome string unit :=
  try_for_each (fun rule => rule.2 value) (List.filter (fun rule => String.eqb rule.1 key) config_value_rules).

Definition config_value_rule (key : string) (is_url : bool) (value : string) : outcome string unit :=
  _ ← (if is_url then validate_url_value value else Ok tt);
  check_config_value key value.
Definition validate_config_value (key value : string) : outcome string unit :=
  config_value_rule key (ends_with "_URL" key) value.
Definition validate_declared_config_value (var : ConfigVar) (value : string) : outcome string unit :=
  config_value_rule (cv_key var) (cv_is_url var || ends_with "_URL" (cv_key var)) value.

(** ** Masks ([util.rs]) *)
Definition MASKED_VALUE : string := "********".
Definition is_sensitive_key (key : string) (sensitive_flag : Z) : bool :=
  (sensitive_flag =? 1) || is_sensitive_for_storage key.
Definition is_masked_submission (key : string) (sensitive_flag : Z) (value : string) : bool :=
  String.eqb value MASKED_VALUE && is_sensitive_key key sensitive_flag.
End Catalogue.

(** ** The rule of the form and the rule of the server

    The pattern of the form for new variables ([VARIABLE_KEY_HTML_PATTERN]):
    [WAFER_RUN_SHARED(__P)+|P(__P){2,}], where [P] is [[A-Z0-9]+(_[A-Z0-9]+)*]. *)
Definition word_char (a : ascii) : bool := is_ascii_uppercase a || is_ascii_digit a.
Definition word (w : string) : Prop := w <> "" /\ str_forall word_char w = true.
Definition pattern_part (p : string) : Prop := exists w ws, word w /\ Forall word ws /\ p = join "_" (w :: ws).
Definition variable_key_pattern (key : string) : Prop :=
  exists p ps, Forall pattern_part ps /\ key = join "__" (p :: ps) /\
    (p = "WAFER_RUN_SHARED" /\ (1 <= length ps)%nat \/ pattern_part p /\ (2 <= length ps)%nat).

(** *** The words of a part, read from left to right

    [scan b s]: the rest [s] of a part, after an underscore (or at its start)
    when [b]. *)
Fixpoint scan (b : bool) (s : string) : bool :=
  match s with
  | EmptyString => negb b
  | String.String a r => if Ascii.eqb a "_" then negb b && scan true r else word_char a && scan false r
  end.

Lemma word_char_not_dash a : word_char a = true -> Ascii.eqb a "_" = false.
Proof. intros Ha. by destruct (Ascii.eqb_spec a "_") as [->|]. Qed.

Lemma scan_word w b r : str_forall word_char w = true -> w <> "" -> scan b (String.append w r) = scan false r.
Proof.
  revert b. induction w as [|a w IH]; intros b; [done|]. simpl. intros [Ha Hw]%andb_true_iff _.
  rewrite (word_char_not_dash a Ha), Ha. destruct w as [|c w]; [done|]. by apply IH.
Qed.
Lemma join_two sep x y l : join sep (x :: y :: l) = String.append x (String.append sep (join sep (y :: l))).
Proof. done. Qed.
Lemma pattern_scan p : pattern_part p -> scan true p = true.
Proof.
  intros (w & ws & [Hn Hw] & Hws & ->). revert w Hn Hw Hws. induction ws as [|w' ws IH]; intros w Hn Hw Hws.
  - cbn [join]. rewrite <- (str_app_nil_r w). by rewrite scan_word.
  - apply Forall_cons in Hws as [[Hn' Hw'] Hws]. rewrite join_two, scan_word by done. by apply IH.
Qed.
Lemma scan_pattern p :
  (scan false p = true -> exists w ws, str_forall word_char w = true /\ Forall word ws /\ p = join "_" (w :: ws)) /\
  (scan true p = true -> pattern_part p).
Proof.
  induction p as [|a r [IHf IHt]]; [split; [intros _; by exists "", []|done]|]. cbn [scan].
  destruct (Ascii.eqb_spec a "_") as [->|Hne].
  - split; [|done]. intros Hr. destruct (IHt Hr) as (w & ws & Hw & Hws & ->).
    exists "", (w :: ws). split; [done|]. split; [by constructor|done].
  - assert (word_char a = true -> scan false r = true ->
      exists w ws, word (String.String a w) /\ Forall word ws /\ String.String a r = join "_" (String.String a w :: ws)) as Hw.
    { intros Ha Hr. destruct (IHf Hr) as (w & ws & Hw & Hws & ->). exists w, ws. split; [|split; [done|by destruct ws]].
      split; [done|]. cbn [str_forall]. by rewrite Ha. }
    split; intros [Ha Hr]%andb_true_iff; destruct (Hw Ha Hr) as (w & ws & H1 & H2 & H3).
    + exists (String.String a w), ws. split; [apply H1|done].
    + by exists (String.String a w), ws.
Qed.

(** *** Splitting at double underscores *)
Definition key_byte (a : ascii) : bool := word_char a || Ascii.eqb a "_".
(** No double underscore inside. *)
Fixpoint single (s : string) : bool :=
  match s with
  | String.String a r => negb (Ascii.eqb a "_" && starts_with "_" r) && single r
  | EmptyString => true
  end.

Lemma starts_with_one c a r : starts_with (String.String c "") (String.String a r) = Ascii.eqb c a.
Proof. unfold starts_with. cbn [strip_prefix]. by destruct (Ascii.eqb c a). Qed.
Lemma ends_with_one a b r : ends_with "_" (String.String a (String.String b r)) = ends_with "_" (String.String b r).
Proof.
  unfold ends_with. cbn [strip_suffix]. assert (String.eqb (String.String a (String.String b r)) "_" = false) as ->.
  { apply String.eqb_neq. by intros [=]. }
  apply bool_decide_ext. by rewrite fmap_is_Some.
Qed.

(** The parts the server accepts are the parts of the pattern. *)
Lemma part_scan p :
  str_forall key_byte p = true -> single p = true ->
  (ends_with "_" p = false -> scan false p = true) /\ (malformed_part p = false -> scan true p = true).
Proof.
  induction p as [|a r IH]; [done|]. cbn [str_forall single]. intros [Ha Hr]%andb_true_iff [Hs Hsr]%andb_true_iff.
  destruct (IH Hr Hsr) as [IHf IHt].
  assert (ends_with "_" (String.String a r) = false -> scan false (String.String a r) = true) as Hf.
  { intros He. cbn [scan]. destruct (Ascii.eqb_spec a "_") as [->|Hne].
    - simpl. apply IHt. unfold malformed_part. destruct r as [|b r]; [done|]. rewrite ends_with_one in He.
      assert (starts_with "_" (String.String b r) = false) as -> by (by destruct (starts_with "_" (String.String b r))). done.
    - unfold key_byte in Ha. apply Ascii.eqb_neq in Hne. rewrite Hne, orb_false_r in Ha. rewrite Ha. simpl.
      apply IHf. destruct r as [|b r]; [done|]. by rewrite ends_with_one in He. }
  split; [exact Hf|]. unfold malformed_part. intros [[_ Hst]%orb_false_iff He]%orb_false_iff.
  specialize (Hf He). rewrite starts_with_one in Hst. cbn [scan] in *. rewrite (Ascii.eqb_sym a) in *. by rewrite Hst in *.
Qed.

Lemma scan_part b p : scan b p = true ->
  str_forall key_byte p = true /\ ends_with "_" p = false /\ (b = true -> malformed_part p = false).
Proof.
  revert b. induction p as [|a r IH]; intros b Hs; [by destruct b|]. cbn [scan] in Hs.
  assert (str_forall key_byte (String.String a r) = true /\ ends_with "_" (String.String a r) = false) as [Hk He].
  { destruct (Ascii.eqb_spec a "_") as [->|Hne].
    - apply andb_true_iff in Hs as [_ Hr]. destruct (IH _ Hr) as (Hk & He & _). split; [exact Hk|].
      destruct r as [|c r]; [done|]. by rewrite ends_with_one.
    - apply andb_true_iff in Hs as [Ha Hr]. destruct (IH _ Hr) as (Hk & He & _). split.
      + cbn [str_forall]. unfold key_byte at 1. by rewrite Ha, Hk.
      + destruct r as [|c r]; [|by rewrite ends_with_one]. unfold ends_with. cbn [strip_suffix]. rewrite (proj2 (String.eqb_neq _ _)) by by intros [= ->]. done. }
  do 2 (split; [done|]). intros ->. unfold malformed_part. rewrite He, starts_with_one, (Ascii.eqb_sym "_"). simpl.
  by destruct (Ascii.eqb a "_").
Qed.

(** One step of the splitting. *)
Lemma split_dunder_cons a s : Ascii.eqb a "_" && starts_with "_" s = false ->
  exists p ps, split_dunder s = p :: ps /\ split_dunder (String.String a s) = String.String a p :: ps.
Proof.
  destruct s as [|b r]; [by exists "", []|]. rewrite starts_with_one, (Ascii.eqb_sym "_"). intros Hab.
  assert (exists p ps, split_dunder (String.String b r) = p :: ps) as (p & ps & Hp).
  { cbn [split_dunder]. repeat case_match; eexists _, _; reflexivity. }
  exists p, ps. split; [done|]. change (split_dunder (String.String a (String.String b r))) with
    (if Ascii.eqb a "_" && Ascii.eqb b "_" then "" :: split_dunder r
     else match split_dunder (String.String b r) with p :: ps => String.String a p :: ps | [] => [String.String a ""] end).
  by rewrite Hab, Hp.
Qed.
Lemma split_ind (P : string -> Prop) :
  P "" -> (forall r, P r -> P (String.String "_" (String.String "_" r))) ->
  (forall a s, Ascii.eqb a "_" && starts_with "_" s = false -> P s -> P (String.String a s)) -> forall s, P s.
Proof.
  intros H0 H2 H1 s. remember (String.length s) as n eqn:Hn. assert (String.length s <= n)%nat as Hle by lia. clear Hn.
  revert s Hle. induction n as [|n IH]; intros [|a s] Hle; try done; simpl in Hle; [lia|].
  destruct (Ascii.eqb a "_" && starts_with "_" s) eqn:Hd; [|apply H1; [done|apply IH; lia]].
  apply andb_true_iff in Hd as [->%Ascii.eqb_eq Hs]. destruct s as [|b r]; [done|].
  rewrite starts_with_one in Hs. apply Ascii.eqb_eq in Hs as <-. apply H2, IH. simpl in Hle. lia.
Qed.

Lemma split_dunder_single s : str_forall key_byte s = true ->
  Forall (fun p => single p = true /\ str_forall key_byte p = true) (split_dunder s).
Proof.
  induction s as [|r IH|a s Hd IH] using split_ind; [by constructor| |].
  - intros Hk. constructor; [done|]. by apply IH.
  - cbn [str_forall]. intros [Ha Hk]%andb_true_iff. destruct (split_dunder_cons a s Hd) as (p & ps & Hp & ->).
    specialize (IH Hk). rewrite Hp in IH. apply Forall_cons in IH as [[Hs Hkp] Hps]. constructor; [|done].
    cbn [single str_forall]. rewrite Ha, Hkp, Hs. split; [|done]. rewrite andb_true_r. apply negb_true_iff.
    destruct (Ascii.eqb a "_"); [|done]. simpl in *. destruct s as [|b r]; [by injection Hp as <- _|].
    rewrite starts_with_one in Hd. assert (Ascii.eqb b "_" && starts_with "_" r = false) as Hb by by rewrite Ascii.eqb_sym, Hd.
    destruct (split_dunder_cons b r Hb) as (q & qs & _ & Hq). rewrite Hq in Hp. injection Hp as <- _. by rewrite starts_with_one.
Qed.

Lemma join_split_dunder s : join "__" (split_dunder s) = s.
Proof.
  induction s as [|r IH|a s Hd IH] using split_ind; [done| |].
  - change (split_dunder (String.String "_" (String.String "_" r))) with ("" :: split_dunder r).
    destruct (split_dunder r) as [|p ps] eqn:Hp; [|rewrite join_two, <- IH; done].
    destruct r as [|a r]; [done|]. exfalso. destruct (Ascii.eqb a "_" && starts_with "_" r) eqn:Hd.
    + apply andb_true_iff in Hd as [->%Ascii.eqb_eq Hs]. destruct r as [|b r]; [done|].
      rewrite starts_with_one in Hs. by apply Ascii.eqb_eq in Hs as <-.
    + destruct (split_dunder_cons a r Hd) as (q & qs & _ & Hq). by rewrite Hq in Hp.
  - destruct (split_dunder_cons a s Hd) as (p & ps & Hp & ->). rewrite Hp in IH. rewrite <- IH. by destruct ps.
Qed.

(** A well-formed part is split off. *)
Lemma split_dunder_part b p : scan b p = true ->
  split_dunder p = [p] /\ forall rest, split_dunder (String.append p (String.append "__" rest)) = p :: split_dunder rest.
Proof.
  revert b. induction p as [|a r IH]; intros b Hs; [by split|]. cbn [scan] in Hs.
  assert (exists b', scan b' r = true /\ (Ascii.eqb a "_" = true -> starts_with "_" r = false /\ r <> "")) as (b' & Hr & Ha).
  { destruct (Ascii.eqb_spec a "_") as [->|].
    - apply andb_true_iff in Hs as [_ Hr]. exists true. split; [done|]. intros _. destruct r as [|c r]; [done|].
      split; [|done]. rewrite starts_with_one, Ascii.eqb_sym. cbn [scan] in Hr. by destruct (Ascii.eqb c "_").
    - apply andb_true_iff in Hs as [_ Hr]. by exists false. }
  destruct (IH b' Hr) as [H1 H2]. split.
  - destruct (split_dunder_cons a r) as (q & qs & Hq & ->); [|rewrite H1 in Hq; by injection Hq as <- <-].
    destruct (Ascii.eqb a "_"); [|done]. by apply Ha.
  - intros rest. change (String.append (String.String a r) (String.append "__" rest)) with
      (String.String a (String.append r (String.append "__" rest))).
    destruct (split_dunder_cons a (String.append r (String.append "__" rest))) as (q & qs & Hq & ->).
    + destruct (Ascii.eqb a "_"); [|done]. destruct (Ha eq_refl) as [Hst Hne]. destruct r as [|c r]; [done|].
      rewrite starts_with_one in Hst.
      change (starts_with "_" (String.String c (String.append r (String.append "__" rest))) = false). by rewrite starts_with_one.
    + rewrite H2 in Hq. by injection Hq as <- <-.
Qed.
Lemma split_dunder_join p ps : Forall (fun p => scan true p = true) (p :: ps) -> split_dunder (join "__" (p :: ps)) = p :: ps.
Proof.
  revert p. induction ps as [|q ps IH]; intros p [Hp Hps]%Forall_cons; [by apply (split_dunder_part true)|].
  rewrite join_two. destruct (split_dunder_part true p Hp) as [_ ->]. by rewrite IH.
Qed.

(** *** The key as the server reads it *)
Lemma key_chars key : List.find (fun c => negb (key_char c)) (split_chars key) = None <-> str_forall key_byte key = true.
Proof.
  split.
  - intros Hf. rewrite <- (concat_split_chars key). pose proof (List.find_none _ _ Hf) as Hn. clear Hf.
    induction (split_chars key) as [|c cs IH]; [done|]. change (concat_chars (c :: cs)) with (String.append c (concat_chars cs)). rewrite str_forall_app, IH; [|naive_solver].
    specialize (Hn c (or_introl eq_refl)). apply negb_false_iff in Hn. destruct c as [|a [|]]; [done| |done].
    cbn [key_char str_forall] in *. unfold key_byte, word_char. by rewrite Hn.
  - intros Hk. assert (str_forall is_ascii key = true) as Ha.
    { clear - Hk. induction key as [|a r IH]; [done|]. cbn [str_forall] in *. apply andb_true_iff in Hk as [Ha Hr].
      rewrite IH by done. rewrite andb_true_r. unfold key_byte, word_char in Ha.
      destruct (Ascii.eqb a "_") eqn:He; [by apply Ascii.eqb_eq in He; subst|]. unfold is_ascii_uppercase, is_ascii_digit, in_range in Ha.
      rewrite orb_false_r in Ha. fold (code a) in Ha. unfold is_ascii. apply Z.ltb_lt. apply orb_true_iff in Ha as [?%andb_true_iff|?%andb_true_iff]; lia. }
    rewrite split_chars_ascii by done. clear Ha. induction key as [|a r IH]; [done|]. cbn [str_forall] in Hk.
    apply andb_true_iff in Hk as [Ha Hr]. cbn [list_ascii_of_string map List.find key_char]. unfold key_byte, word_char in Ha.
    rewrite Ha. simpl. by apply IH.
Qed.

Lemma shared_part : scan true "WAFER_RUN_SHARED" = true.
Proof. done. Qed.

(** C34. The server accepts exactly the keys that match the pattern of the form
    for new variables. *)
Theorem key_rule_is_the_form_pattern {CA : Catalogue} key : check_variable_key key = Ok tt <-> variable_key_pattern key.
Proof.
  unfold check_variable_key. split.
  - destruct (is_empty key); [done|]. destruct (List.find _ _) eqn:Hf; [done|]. apply key_chars in Hf.
    pose proof (split_dunder_single key Hf) as Hs. destruct (existsb malformed_part _) eqn:Hm; [done|].
    assert (Forall pattern_part (split_dunder key)) as Hp.
    { apply Forall_forall. intros p Hin. rewrite Forall_forall in Hs. destruct (Hs p Hin) as [H1 H2].
      apply scan_pattern, (part_scan p H2 H1). apply Bool.not_true_iff_false. intros Hmp. apply Bool.not_true_iff_false in Hm.
      apply Hm, existsb_exists. exists p. split; [by apply list_elem_of_In|done]. }
    pose proof (join_split_dunder key) as Hj. destruct (split_dunder key) as [|p ps]; [done|].
    apply Forall_cons in Hp as [Hp Hps]. cbn [length head]. destruct (S (length ps) =? 1)%nat eqn:H1; [done|]. apply Nat.eqb_neq in H1.
    destruct (S (length ps) <? _)%nat eqn:H2; [done|]. apply Nat.ltb_ge in H2. intros _.
    exists p, ps. split; [done|]. split; [done|]. case_bool_decide as Hd; [left; split; [congruence|lia]|right; split; [done|lia]].
  - intros (p & ps & Hps & -> & Hcase).
    assert (scan true p = true) as Hp by (by destruct Hcase as [[-> _]|[?%pattern_scan _]]).
    assert (Forall (fun p => scan true p = true) (p :: ps)) as Hall.
    { constructor; [done|]. eapply Forall_impl; [exact Hps|]. intros q. apply pattern_scan. }
    assert (str_forall key_byte (join "__" (p :: ps)) = true) as Hk.
    { clear - Hall. revert p Hall. induction ps as [|q ps IH]; intros p [Hp Hall]%Forall_cons; [by apply (scan_part true)|].
      rewrite join_two, !str_forall_app, (IH q Hall). destruct (scan_part true p Hp) as [-> _]. done. }
    assert (existsb malformed_part (p :: ps) = false) as Hm.
    { apply Bool.not_true_iff_false. intros (q & Hin & Hq)%existsb_exists. apply list_elem_of_In in Hin. rewrite Forall_forall in Hall.
      destruct (scan_part true q (Hall q Hin)) as (_ & _ & Hb). by rewrite Hb in Hq. }
    destruct (is_empty (join "__" (p :: ps))) eqn:He.
    { exfalso. apply String.eqb_eq in He. destruct p as [|a p]; [done|]. by destruct ps. }
    rewrite (proj2 (key_chars _) Hk), split_dunder_join, Hm by done. cbn [head length].
    rewrite (proj2 (Nat.eqb_neq _ _)) by (destruct Hcase as [[_ ?]|[_ ?]]; lia).
    rewrite (proj2 (Nat.ltb_ge _ _)); [done|]. destruct Hcase as [[-> Hl]|[_ Hl]]; [rewrite bool_decide_true by done; lia|case_bool_decide; lia].
Qed.
