(* ===== verification/Variables.v ===== *)
(** * Stored configuration ([platform_state/variables.rs])

    One row per configuration key.  The boot seeds the rows from the process
    environment, keeps what an admin edited or what an upgrade pinned, mints the
    secrets that are missing, and repairs flags; the admin surface reads and
    writes under access control.  Log lines and the generation counter that
    readers of the configuration watch are not modelled. *)
From Stdlib Require Import String.
From S2P Require Import Prelude Ints Str Contracts SampleLib Ssrf Records Effects Columns DbRead ConfigVars.

Definition VARIABLES_TABLE : string := "impresspress__admin__variables".

Record VariableRow := {
  va_id : string; va_key : string; va_value : string; va_name : string; va_description : string;
  va_warning : string; va_sensitive : bool; va_block : option string; va_updated_by : string;
  va_created_at : string; va_updated_at : string
}.
Record NewVariable := {
  nv_key : string; nv_value : string; nv_name : string; nv_description : string; nv_warning : string;
  nv_sensitive : bool; nv_updated_by : string; nv_block : option string
}.
Record VariablePatch := {
  vp_value : option string; vp_name : option string; vp_description : option string; vp_warning : option string;
  vp_sensitive : option bool; vp_updated_by : option string
}.
Definition patch_default : VariablePatch := {|
  vp_value := None; vp_name := None; vp_description := None; vp_warning := None; vp_sensitive := None; vp_updated_by := None |}.

(** The text of an error of the database or of the source of random bytes. *)
Class ErrorText := error_text : WaferError -> string.

(** ** Owners *)
Definition PRE_UPGRADE_SENTINEL : string := "pre-upgrade".
Definition RELEASED_TO_ENV_SENTINEL : string := "released-to-environment".
Definition ENV_PRECEDENCE_TRANSITION_KEY : string := "IMPRESSPRESS__ADMIN__ENV_PRECEDENCE_TRANSITION".

Inductive Pin := AdminEdit | PreUpgrade.
#[export] Instance pin_eq_dec : EqDecision Pin.
Proof. solve_decision. Defined.

(** [pin_of] and [is_unclaimed] read the owner of the row. *)
Definition pin_of_owner (updated_by : string) : option Pin :=
  if is_empty updated_by || String.eqb updated_by RELEASED_TO_ENV_SENTINEL then None
  else if String.eqb updated_by PRE_UPGRADE_SENTINEL then Some PreUpgrade
  else Some AdminEdit.
Definition pin_of (row : VariableRow) : option Pin := pin_of_owner (va_updated_by row).
Definition is_unclaimed (row : VariableRow) : bool := is_empty (va_updated_by row).
Definition is_pinned (row : VariableRow) : bool := bool_decide (pin_of row <> None).

Section Variables.
Context {JN : JsonNumbers} {JS : JsonScalars JN} {CA : Catalogue} {ET : ErrorText}.

(** ** The codec *)
Definition variable_from_record (record : Row) : outcome string VariableRow :=
  let key := str_field record "key" in
  if is_empty key then Err (concat_chars [VARIABLES_TABLE; " row `"; row_id record; "` has no key"])
  else Ok {|
    va_id := row_id record; va_key := key; va_value := str_field record "value"; va_name := str_field record "name";
    va_description := str_field record "description"; va_warning := str_field record "warning";
    va_sensitive := bool_field record "sensitive";
    va_block := b ← opt_str_field record "block"; if is_empty b then None else Some b;
    va_updated_by := str_field record "updated_by"; va_created_at := str_field record "created_at";
    va_updated_at := str_field record "updated_at" |}.

Definition flag_column (b : bool) : Value := json_i64 (if b then 1 else 0).

Definition variable_to_data (row : VariableRow) : columns :=
  columns_of ([("id", VString (va_id row)); ("key", VString (va_key row)); ("value", VString (va_value row));
    ("name", VString (va_name row)); ("description", VString (va_description row)); ("warning", VString (va_warning row));
    ("sensitive", flag_column (va_sensitive row))] ++ when_some (va_block row) "block" VString ++
   [("updated_by", VString (va_updated_by row)); ("created_at", VString (va_created_at row));
    ("updated_at", VString (va_updated_at row))]).

Definition block_for_key (key : string) : option string :=
  let block := key_block_prefix key in if is_empty block then None else Some block.

Definition into_row (new : NewVariable) : prog VariableRow :=
  now ← now_rfc3339;
  let sensitive := nv_sensitive new || is_sensitive_for_storage (nv_key new) in
  uuid ← do_call FreshId;
  Done {| va_id := String.append "var_" uuid; va_key := nv_key new; va_value := nv_value new; va_name := nv_name new;
          va_description := nv_description new; va_warning := nv_warning new; va_sensitive := sensitive;
          va_block := nv_block new; va_updated_by := nv_updated_by new; va_created_at := now; va_updated_at := now |}.

Definition to_update_data (patch : VariablePatch) : prog columns :=
  now ← now_rfc3339;
  Done (columns_of (when_some (vp_value patch) "value" VString ++ when_some (vp_name patch) "name" VString ++
    when_some (vp_description patch) "description" VString ++ when_some (vp_warning patch) "warning" VString ++
    when_some (vp_sensitive patch) "sensitive" flag_column ++ when_some (vp_updated_by patch) "updated_by" VString ++
    [("updated_at", VString now)])).

Definition into_new (patch : VariablePatch) (key : string) : NewVariable := {|
  nv_key := key; nv_value := default "" (vp_value patch); nv_name := default "" (vp_name patch);
  nv_description := default "" (vp_description patch); nv_warning := default "" (vp_warning patch);
  nv_sensitive := default (is_sensitive_by_default_when_created key) (vp_sensitive patch);
  nv_updated_by := default "" (vp_updated_by patch); nv_block := block_for_key key |}.

Definition variable_key_filter (key : string) : Filter := eq_filter "key" (VString key).

(** ** The boot *)

(** [call.await.map_err(|e| format!(what, e))] *)
Definition telling {R} (what : string) (c : call (WResult R)) : prog (outcome string R) :=
  r ← do_call c; Done (map_err (fun e => concat_chars [what; ": "; error_text e]) r).

Definition find_by_key (key : string) : prog (outcome string (option VariableRow)) :=
  records ←? telling (concat_chars ["list "; VARIABLES_TABLE; " for key `"; key; "`"])
               (ListRows VARIABLES_TABLE [variable_key_filter key] 1);
  Done (transpose_map variable_from_record (head records)).

Definition insert_if_absent (row : VariableRow) : prog (outcome string bool) :=
  found ←? find_by_key (va_key row);
  match found with
  | Some _ => Done (Ok false)
  | None =>
      _ ←? telling (concat_chars ["insert variable `"; va_key row; "`"]) (Create VARIABLES_TABLE (variable_to_data row));
      Done (Ok true)
  end.

Definition seed_if_absent (key value name description : string) (sensitive : bool) : prog (outcome string bool) :=
  row ← into_row {| nv_key := key; nv_value := value; nv_name := name; nv_description := description; nv_warning := "";
                    nv_sensitive := sensitive; nv_updated_by := ""; nv_block := block_for_key key |};
  insert_if_absent row.

Inductive Wrote := Created | Replaced | FlagRaised | Unchanged.

Definition set_with_row (key value name description : string) (sensitive : option bool) (updated_by : option string)
    (existing : option VariableRow) : prog (outcome string Wrote) :=
  match existing with
  | None =>
      row ← into_row (into_new {|
        vp_value := Some value; vp_name := Some name; vp_description := Some description; vp_warning := None;
        vp_sensitive := sensitive; vp_updated_by := Some (default "" updated_by) |} key);
      _ ←? telling (concat_chars ["insert variable `"; key; "`"]) (Create VARIABLES_TABLE (variable_to_data row));
      Done (Ok Created)
  | Some existing =>
      let sensitive := default false sensitive || is_sensitive_for_storage key in
      let raise_sensitive := sensitive && negb (va_sensitive existing) in
      let value_changed := negb (String.eqb (va_value existing) value) in
      let stamp_owner := value_changed && match updated_by with
                                          | Some who => negb (String.eqb who (va_updated_by existing))
                                          | None => false end in
      if negb value_changed && negb raise_sensitive && negb stamp_owner then Done (Ok Unchanged)
      else
        data ← to_update_data {|
          vp_value := if value_changed then Some value else None; vp_name := None; vp_description := None;
          vp_warning := None; vp_sensitive := if raise_sensitive then Some true else None;
          vp_updated_by := if stamp_owner then Some (default "" updated_by) else None |};
        _ ←? telling (concat_chars ["update variable `"; key; "`"]) (Update VARIABLES_TABLE (va_id existing) data);
        Done (Ok (if value_changed then Replaced else if raise_sensitive then FlagRaised else Unchanged))
  end.

Definition set_with_owner (key value name description : string) (sensitive : option bool) (updated_by : option string)
  : prog (outcome string Wrote) :=
  existing ←? find_by_key key;
  set_with_row key value name description sensitive updated_by existing.
Definition set_variable (key value name description : string) (sensitive : option bool) : prog (outcome string Wrote) :=
  set_with_owner key value name description sensitive None.
Definition set_by_admin (key value : string) (sensitive : option bool) (admin_id : string) : prog (outcome string Wrote) :=
  set_with_owner key value "" "" sensitive (Some admin_id).

(** *** Secrets *)
(** [format!("{b:02x}")] *)
Definition lower_digit (n : Z) : ascii := byte (if n <? 10 then 48 + n else 87 + n).
Definition lower_hex (b : Z) : string := String.String (lower_digit (b / 16)) (String.String (lower_digit (b mod 16)) "").
Definition random_hex_secret : prog (outcome string string) :=
  bytes ← ask (RandomBytes 32);
  Done (match bytes with
        | Ok bytes => Ok (concat_chars (map lower_hex bytes))
        | Err e => Err (String.append "getrandom: " (error_text e))
        | Panic => Panic end).

Definition seed_one_secret (block_col : string) (var : ConfigVar) : prog (outcome string bool) :=
  secret ←? random_hex_secret;
  row ← into_row {| nv_key := cv_key var; nv_value := secret; nv_name := cv_name var; nv_description := cv_description var;
                    nv_warning := cv_warning var; nv_sensitive := true; nv_updated_by := "";
                    nv_block := if is_empty block_col then None else Some block_col |};
  insert_if_absent row.

Fixpoint seed_secrets (block_col : string) (vars : list ConfigVar) : prog unit :=
  match vars with
  | [] => Done tt
  | var :: vars =>
      if negb (cv_auto_generate var) then seed_secrets block_col vars
      else _ ← seed_one_secret block_col var; seed_secrets block_col vars
  end.
Fixpoint seed_blocks (infos : list (string * list ConfigVar)) : prog unit :=
  match infos with
  | [] => Done tt
  | (name, config_keys) :: infos => _ ← seed_secrets (screaming_block name) config_keys; seed_blocks infos
  end.
Definition seed_auto_generated : prog unit := seed_blocks all_block_infos.

Definition seed_jwt_secret : prog unit :=
  secret ← random_hex_secret;
  match secret with
  | Ok secret =>
      row ← into_row {| nv_key := JWT_SECRET_KEY; nv_value := secret; nv_name := "JWT signing secret";
        nv_description := "256-bit secret used to sign access + refresh JWTs.";
        nv_warning := "Rotating this secret invalidates every issued session."; nv_sensitive := true;
        nv_updated_by := ""; nv_block := block_for_key JWT_SECRET_KEY |};
      _ ← insert_if_absent row; Done tt
  | _ => Done tt
  end.

(** *** The environment *)
Inductive EnvRefusal := RuntimeOwned | Empty | ValueRule (reason : string).
Definition check_env_export (key value : string) : outcome EnvRefusal unit :=
  if is_runtime_owned_key key then Err RuntimeOwned
  else if is_empty value then Err Empty
  else map_err ValueRule (check_config_value key value).
Definition usable_env_exports (app_env : list (string * string)) : list (string * string) :=
  List.filter (fun export => is_ok (check_env_export export.1 export.2)) app_env.

Definition transition_has_run : prog bool :=
  found ← find_by_key ENV_PRECEDENCE_TRANSITION_KEY;
  Done (match found with Ok row => bool_decide (row <> None) | _ => true end).
Definition record_transition : prog unit :=
  _ ← seed_if_absent ENV_PRECEDENCE_TRANSITION_KEY "done" "Env precedence transition"
        "Records that the one-time env-precedence upgrade transition has run. Deleting this row makes the next boot re-run it."
        false;
  Done tt.
Definition pin_at_upgrade (row : VariableRow) : prog bool :=
  data ← to_update_data {| vp_value := None; vp_name := None; vp_description := None; vp_warning := None;
                           vp_sensitive := None; vp_updated_by := Some PRE_UPGRADE_SENTINEL |};
  r ← do_call (Update VARIABLES_TABLE (va_id row) data);
  Done (is_ok r).

(** One export of the environment loop: what the row decides, then the write. *)
Definition seed_row (transition_done : bool) (key value : string) (existing : option VariableRow) : prog unit :=
  let seed := _ ← set_with_row key value "" "" None None existing; Done tt in
  match existing with
  | Some row =>
      if is_pinned row then Done tt
      else if negb transition_done && is_unclaimed row && negb (String.eqb (va_value row) value)
      then _ ← pin_at_upgrade row; Done tt
      else seed
  | None => seed
  end.
Definition seed_export (transition_done : bool) (key value : string) : prog unit :=
  match check_env_export key value with
  | Ok _ =>
      existing ← find_by_key key;
      match existing with Ok existing => seed_row transition_done key value existing | _ => Done tt end
  | _ => Done tt
  end.
Fixpoint seed_env (transition_done : bool) (env_vars : list (string * string)) : prog unit :=
  match env_vars with
  | [] => Done tt
  | (key, value) :: env_vars => _ ← seed_export transition_done key value; seed_env transition_done env_vars
  end.

(** *** Reading the table back *)
Definition FULL_LIMIT_THRESHOLD : Z := 10000.
Inductive UnfilteredReadError := ReadError (e : WaferError) | MayBeTruncated (returned limit : Z).
Definition unfiltered_text (e : UnfilteredReadError) : string :=
  match e with
  | ReadError e => error_text e
  | MayBeTruncated returned limit =>
      concat_chars ["variables snapshot returned "; z_to_string returned; " rows, at or above the "; z_to_string limit;
        "-row query limit: the table may be truncated, and resolving block config from a partial snapshot would silently leave blocks on their defaults. Raise the limit or paginate this read."]
  end.
Definition list_whole_table : prog (outcome UnfilteredReadError (list Row)) :=
  listed ← do_call (ListRows VARIABLES_TABLE [] (Z.to_nat FULL_LIMIT_THRESHOLD));
  Done (match listed with
        | Ok records =>
            let returned := Z.of_nat (length records) in
            if FULL_LIMIT_THRESHOLD <=? returned then Err (MayBeTruncated returned FULL_LIMIT_THRESHOLD) else Ok records
        | Err e => Err (ReadError e)
        | Panic => Panic end).

Record LoadedRow := { lr_row : VariableRow; lr_flag_is_canonical_one : bool }.
Definition loaded_row (record : Row) : option LoadedRow :=
  match variable_from_record record with
  | Ok row => Some {| lr_row := row;
      lr_flag_is_canonical_one := bool_decide ((v ← row_data record !! "sensitive"; as_i64 v) = Some 1) |}
  | _ => None
  end.
Definition load_rows : prog (outcome string (list LoadedRow)) :=
  records ← list_whole_table;
  Done (match records with
        | Ok records => Ok (omap (M:=list) loaded_row records)
        | Err e => Err (concat_chars ["load variables from "; VARIABLES_TABLE; ": "; unfiltered_text e])
        | Panic => Panic end).
(** [collect::<HashMap<_, _>>()]: a later pair replaces an earlier one. *)
Definition collect_map (l : list (string * string)) : gmap string string := foldl (fun m p => <[p.1 := p.2]> m) ∅ l.
Definition key_values (rows : list LoadedRow) : gmap string string :=
  collect_map (map (fun loaded => (va_key (lr_row loaded), va_value (lr_row loaded))) rows).
Definition load_all : prog (outcome string (gmap string string)) :=
  rows ←? load_rows; Done (Ok (key_values rows)).

Definition repair_row (loaded : LoadedRow) : prog unit :=
  let row := lr_row loaded in
  if negb (is_sensitive_for_storage (va_key row)) || lr_flag_is_canonical_one loaded then Done tt
  else
    data ← to_update_data {| vp_value := None; vp_name := None; vp_description := None; vp_warning := None;
                             vp_sensitive := Some true; vp_updated_by := None |};
    _ ← do_call (Update VARIABLES_TABLE (va_id row) data); Done tt.
Fixpoint repair_sensitive_flags_in (rows : list LoadedRow) : prog unit :=
  match rows with
  | [] => Done tt
  | loaded :: rows => _ ← repair_row loaded; repair_sensitive_flags_in rows
  end.
Definition repair_sensitive_flags : prog unit :=
  rows ← load_rows;
  match rows with Ok rows => repair_sensitive_flags_in rows | _ => Done tt end.

Definition seed_and_load (env_vars : list (string * string)) : prog (outcome string (gmap string string)) :=
  transition_done ← transition_has_run;
  _ ← seed_env transition_done env_vars;
  _ ← (if negb transition_done && negb (bool_decide (env_vars = [])) then record_transition else Done tt);
  _ ← seed_auto_generated;
  _ ← seed_jwt_secret;
  rows ←? load_rows;
  _ ← repair_sensitive_flags_in rows;
  Done (Ok (key_values rows)).

(** ** At run time, under access control *)

(** [db_read::list_bounded_sorted]: the count of the page is not read. *)
Definition list_bounded_sorted (collection : string) (filters : list Filter) (sort : string) (desc : bool) (bound : Bound)
  : prog (WResult (list Row)) :=
  page ←? do_call (ListPage collection filters sort desc (Z.to_nat (saturating_add_u32 UNPAGED_LIMIT 1)) 0);
  if UNPAGED_LIMIT <? Z.of_nat (length page.1) then Done (Err (bound_broken collection bound)) else Done (Ok page.1).
Definition list_all_variables : prog (WResult (list VariableRow)) :=
  records ←? list_bounded_sorted VARIABLES_TABLE [] "key" false (OnePer "declared config key");
  Done (Ok (omap (M:=list) (fun record => match variable_from_record record with Ok row => Some row | _ => None end) records)).

Definition decode_error (e : string) : WaferError := wafer_error Internal e.
Definition get_by_key (key : string) : prog (WResult (option VariableRow)) :=
  r ← do_call (GetByField VARIABLES_TABLE "key" (VString key));
  Done (match r with
        | Ok rec => Some <$> map_err decode_error (variable_from_record rec)
        | Err e => if bool_decide (we_code e = NotFound) then Ok None else Err e
        | Panic => Panic end).

(** [stored_row]: the row as it was read, under what was written, under what the
    database answered. *)
Definition stored_variable (id : string) (as_read : VariableRow) (written echoed : columns) : VariableRow :=
  let merged := overlay echoed (overlay written (variable_to_data as_read)) in
  match variable_from_record (row_of id merged) with
  | Ok row => row
  | _ => {| va_id := id; va_key := va_key as_read; va_value := va_value as_read; va_name := va_name as_read;
            va_description := va_description as_read; va_warning := va_warning as_read; va_sensitive := va_sensitive as_read;
            va_block := va_block as_read; va_updated_by := va_updated_by as_read; va_created_at := va_created_at as_read;
            va_updated_at := va_updated_at as_read |}
  end.

Definition insert_variable (new : NewVariable) : prog (WResult VariableRow) :=
  row ← into_row new;
  let written := variable_to_data row in
  rec ←? do_call (Create VARIABLES_TABLE written);
  let id := if is_empty (row_id rec) then va_id row else row_id rec in
  Done (Ok (stored_variable id row written (row_data rec))).

Definition upsert_by_key (key : string) (patch : VariablePatch) : prog (WResult VariableRow) :=
  found ←? get_by_key key;
  match found with
  | Some existing =>
      written ← to_update_data patch;
      rec ←? do_call (Update VARIABLES_TABLE (va_id existing) written);
      Done (Ok (stored_variable (va_id existing) existing written (row_data rec)))
  | None => insert_variable (into_new patch key)
  end.

Definition delete_variable_row (id : string) : prog (WResult unit) := do_call (Delete VARIABLES_TABLE id).
Definition delete_by_key (key : string) : prog (WResult unit) :=
  _ ←? do_call (DeleteByFiltersCount VARIABLES_TABLE [variable_key_filter key]); Done (Ok tt).

Definition reset_to_environment (key : string) : prog (WResult unit) :=
  _ ←? upsert_by_key key {| vp_value := None; vp_name := None; vp_description := None; vp_warning := None;
                            vp_sensitive := None; vp_updated_by := Some RELEASED_TO_ENV_SENTINEL |};
  Done (Ok tt).

(** *** The keys an upgrade pinned *)
Definition key_can_be_seeded_from_env (key : string) : bool := is_declared_key key && negb (is_runtime_owned_key key).
Record PinnedAtUpgrade := { pinned_key : string }.
Definition pinned_of (row : VariableRow) : option PinnedAtUpgrade :=
  pin ← pin_of row;
  match pin with
  | PreUpgrade => if key_can_be_seeded_from_env (va_key row) then Some {| pinned_key := va_key row |} else None
  | AdminEdit => None
  end.
Definition pinned_at_upgrade (rows : list VariableRow) : list PinnedAtUpgrade := omap pinned_of rows.
Definition count_pinned_at_upgrade (rows : list VariableRow) : Z := Z.of_nat (length (pinned_at_upgrade rows)).
Definition keys_pinned_at_upgrade : prog (WResult (list PinnedAtUpgrade)) :=
  rows ←? list_all_variables; Done (Ok (pinned_at_upgrade rows)).
End Variables.
