(* ===== verification/VariableAdmin.v ===== *)
(** * The administration of stored configuration ([blocks/admin/ops.rs], [settings.rs], [blocks/config.rs])

    The requests of an administrator that create, change, delete, release and
    list variables, the configuration block's write, and the seeding of declared
    shared variables. *)
From Stdlib Require Import String.
From S2P Require Import Features.
From S2P Require Import Prelude Ints Str Contracts SampleLib Ssrf Wafer Records Effects Columns Failures DbRead Crud Routing AuthRepo ConfigVars Variables.

(** The bodies [serde] reads, a JSON value as text, [Message::remote_addr], the
    process environment, the names of the assets of the build, the declarations
    of the registered blocks, and [wafer_run::init_failure_is_transient]. *)
Record SettingBody `{JsonNumbers} := { set_value : option Value; set_sensitive : option bool }.
Record CreateBody := {
  cb_key : string; cb_value : option string; cb_name : option string; cb_description : option string;
  cb_sensitive : option bool
}.
Class VariableServices `{JsonNumbers, Messages} := {
  admin_remote_addr : Message -> string;
  setting_from_slice : string -> outcome string SettingBody;
  create_from_slice : string -> outcome string CreateBody;
  json_to_string : Value -> string;
  process_env : string -> option string;
  asset_filenames : list string;
  registered_config_vars : list ConfigVar;
  failure_is_transient : WaferError -> bool;
}.

Definition AUDIT_LOGS_TABLE : string := "impresspress__admin__audit_logs".

Section VariableAdmin.
Context {JN : JsonNumbers} {JS : JsonScalars JN} {MS : Messages} {CA : Catalogue} {ET : ErrorText} {NS : NetSecurity}.
Context {VS : VariableServices}.

Definition audit_log (user_id action resource ip_address : string) : prog unit :=
  _ ← do_call (Create AUDIT_LOGS_TABLE (columns_of
        [("user_id", VString user_id); ("action", VString action); ("resource", VString resource);
         ("ip_address", VString ip_address)]));
  Done tt.
Definition audit_variable (msg : Message) (action key : string) : prog unit :=
  audit_log (msg_user_id msg) action (String.append "variables/" key) (admin_remote_addr msg).

(** ** Guards *)
Definition reject_runtime_owned_key (key : string) : outcome string unit :=
  if is_runtime_owned_key key
  then Err (String.append key " is set by the runtime, not stored configuration; it cannot be created or edited here")
  else Ok tt.
Definition check_writable_key (key : string) : outcome string unit :=
  _ ← reject_runtime_owned_key key; check_variable_key key.

Definition users_any_exist : prog (WResult bool) :=
  page ← do_call (ListRows Users.TABLE [] 1);
  Done (match page with
        | Ok records => Ok (negb (bool_decide (records = [])))
        | Err e => Err (db_failed "users any_exists" e)
        | Panic => Panic end).
Definition is_clearable_provisioning_credential (key : string) : prog bool :=
  if is_provisioning_only_key key then Done true
  else if negb (String.eqb key BOOTSTRAP_ADMIN_TOKEN_KEY) then Done false
  else exist ← users_any_exist; Done (match exist with Ok b => b | _ => false end).

(** ** Creating *)
Inductive CreateRefusal :=
| RefusedKey (message : string)
| KeyTaken (key : string)
| RefusedValue (message : string)
| CreateFailed (out : OutputStream).
Definition taken_variable (key : string) : TakenKey := {| tk_record := "variable"; tk_field := "key"; tk_value := key |}.
Definition into_response (refusal : CreateRefusal) : OutputStream :=
  match refusal with
  | RefusedKey message | RefusedValue message => err_bad_request message
  | KeyTaken key => conflict (taken_variable key)
  | CreateFailed out => out
  end.
Inductive CreateField := KeyField | ValueField.
Definition field_error (refusal : CreateRefusal) : option (CreateField * string) :=
  match refusal with
  | RefusedKey message => Some (KeyField, message)
  | KeyTaken key => Some (KeyField, conflict_message (taken_variable key))
  | RefusedValue message => Some (ValueField, message)
  | CreateFailed _ => None
  end.

Definition insert_created (msg : Message) (key value : string) (name description : option string) (sensitive : bool)
  : prog (outcome CreateRefusal VariableRow) :=
  let new := {|
    nv_key := key; nv_value := value;
    nv_name := match name with Some n => if is_empty n then key else n | None => key end;
    nv_description := default "" description; nv_warning := ""; nv_sensitive := sensitive;
    nv_updated_by := msg_user_id msg; nv_block := block_for_key key |} in
  record ← insert_variable new;
  match record with
  | Ok record => _ ← audit_variable msg "variable.create" key; Done (Ok record)
  | Err e => if is_duplicate_key e then Done (Err (KeyTaken key))
             else Done (Err (CreateFailed (db_error_internal e "Database error")))
  | Panic => Done Panic
  end.
Definition create_variable (msg : Message) (key value : string) (name description : option string) (sensitive : bool)
  : prog (outcome CreateRefusal VariableRow) :=
  _ ←! map_err RefusedKey (check_writable_key key);
  clearable ← (if is_empty value then is_clearable_provisioning_credential key else Done true);
  if is_empty value && negb clearable && is_sensitive_key key 0
  then Done (Err (RefusedValue (concat_chars ["Cannot create "; key; " with an empty value"])))
  else
    _ ←! map_err (fun e => RefusedValue (concat_chars ["Invalid value for "; key; ": "; e])) (validate_config_value key value);
    insert_created msg key value name description sensitive.

(** ** Changing *)
Record VariableUpdate := { vu_value : option string; vu_description : option string; vu_sensitive : option bool }.

Definition stored_sensitive_flag (key : string) : prog (outcome OutputStream Z) :=
  let? row := get_by_key key else (fun e => db_error_internal e "Database error") in
  Done (Ok (match row with Some row => if va_sensitive row then 1 else 0 | None => 0 end)).

(** What an update may do to a value that was supplied, and to one that was not. *)
Definition check_mask (key value : string) : prog (outcome OutputStream unit) :=
  if negb (String.eqb value MASKED_VALUE) then Done (Ok tt)
  else
    stored_flag ←? stored_sensitive_flag key;
    if is_masked_submission key stored_flag value
    then Done (Err (err_bad_request (concat_chars [MASKED_VALUE; " is the mask "; key;
           " reads back as, not its value: storing it would destroy the secret. Send the real value to change it, or leave the value out of the request to keep the stored one."])))
    else Done (Ok tt).
Definition check_clear (key value : string) : prog (outcome OutputStream unit) :=
  if negb (is_empty value) then Done (Ok tt)
  else
    clearable ← is_clearable_provisioning_credential key;
    if (clearable : bool) then Done (Ok tt)
    else
      stored_flag ←? stored_sensitive_flag key;
      if is_sensitive_key key stored_flag
      then Done (Err (err_bad_request (concat_chars ["Cannot set "; key; " to an empty value"])))
      else Done (Ok tt).
Definition check_update_value (key value : string) : prog (outcome OutputStream unit) :=
  _ ←? check_mask key value;
  _ ←? check_clear key value;
  Done (map_err (fun e => err_bad_request (concat_chars ["Invalid value for "; key; ": "; e])) (validate_config_value key value)).
Definition require_stored (key : string) : prog (outcome OutputStream unit) :=
  let? row := get_by_key key else (fun e => db_error_internal e "Database error") in
  match row with
  | Some _ => Done (Ok tt)
  | None => Done (Err (err_bad_request (concat_chars ["Cannot create "; key;
      " without a value: a request that changes only other fields updates a variable that already exists, it does not create one."])))
  end.

Definition update_variable (msg : Message) (key : string) (update : VariableUpdate) : prog (outcome OutputStream VariableRow) :=
  _ ←! map_err err_bad_request (check_writable_key key);
  _ ←? (match vu_value update with Some value => check_update_value key value | None => require_stored key end);
  if bool_decide (vu_sensitive update = Some false) && is_sensitive_for_storage key
  then Done (Err (err_bad_request (concat_chars ["Cannot un-mark "; key;
         " as sensitive: its declaration (or its _SECRET/_KEY suffix) requires it"])))
  else
    let? record := upsert_by_key key {|
        vp_value := vu_value update; vp_name := None; vp_description := vu_description update; vp_warning := None;
        vp_sensitive := vu_sensitive update; vp_updated_by := Some (msg_user_id msg) |}
      else (fun e => db_error_internal e "Database error") in
    _ ← audit_variable msg "variable.update" key;
    Done (Ok record).

(** ** Releasing and deleting *)
Inductive ReleaseGuard := AnyPin | StillPinnedAtUpgrade.
Definition release_to_environment (msg : Message) (key : string) (guard : ReleaseGuard) : prog (outcome OutputStream bool) :=
  if is_empty key then Done (Err (err_bad_request "Missing setting key"))
  else
    let? found := get_by_key key else (fun e => db_error_internal e "Database error") in
    match found, guard with
    | None, AnyPin => Done (Err (err_not_found "Setting not found"))
    | None, StillPinnedAtUpgrade => Done (Ok false)
    | Some row, _ =>
        if match guard with StillPinnedAtUpgrade => negb (bool_decide (pin_of row = Some PreUpgrade)) | AnyPin => false end
        then Done (Ok false)
        else
          let? _ := reset_to_environment key else (fun e => db_error_internal e "Database error") in
          _ ← audit_variable msg "variable.reset_to_environment" key;
          Done (Ok true)
    end.
Definition reset_variable_to_environment (msg : Message) (key : string) : prog (outcome OutputStream unit) :=
  _ ←? release_to_environment msg key AnyPin; Done (Ok tt).

Fixpoint release_each (msg : Message) (pinned : list PinnedAtUpgrade) : prog (outcome OutputStream (list string)) :=
  match pinned with
  | [] => Done (Ok [])
  | key :: pinned =>
      released ←? release_to_environment msg (pinned_key key) StillPinnedAtUpgrade;
      rest ←? release_each msg pinned;
      Done (Ok (if released then pinned_key key :: rest else rest))
  end.
Definition release_keys_pinned_at_upgrade (msg : Message) : prog (outcome OutputStream (list string)) :=
  let? pinned := keys_pinned_at_upgrade else (fun e => db_error_internal e "Database error") in
  release_each msg pinned.

Definition delete_variable (msg : Message) (key : string) : prog (outcome OutputStream unit) :=
  if is_empty key then Done (Err (err_bad_request "Missing setting key"))
  else if String.eqb key JWT_SECRET_KEY
  then Done (Err (err_bad_request (concat_chars ["Cannot delete "; key;
         ": it is this instance's JWT signing secret, and the next boot would generate a different one, invalidating every session"])))
  else if starts_with "WAFER_RUN_SHARED__" key && existsb (fun declared => String.eqb (cv_key declared) key) shared_config_vars
  then Done (Err (err_bad_request (String.append "Cannot delete shared system variable: " key)))
  else
    let? found := get_by_key key else (fun e => db_error e "Setting not found" "Database error") in
    match found with
    | None => Done (Err (err_not_found "Setting not found"))
    | Some row =>
        let? _ := delete_variable_row (va_id row) else (fun e => db_error e "Setting not found" "Database error") in
        _ ← audit_variable msg "variable.delete" key;
        Done (Ok tt)
    end.

(** ** The endpoints ([settings.rs]) *)
Definition variable_sensitive (row : VariableRow) : bool := is_sensitive_key (va_key row) (if va_sensitive row then 1 else 0).
(** The value a reader is shown. *)
Definition shown_value (row : VariableRow) : string := if variable_sensitive row then MASKED_VALUE else va_value row.

(** [ops::declared_vars]: the shared declarations come last, and win. *)
Definition declared_vars : gmap string ConfigVar :=
  foldl (fun m var => <[cv_key var := var]> m) ∅ (registered_config_vars ++ shared_config_vars).

Definition full_view (declared : gmap string ConfigVar) (row : VariableRow) : Value :=
  let '(name, description, warning) :=
    match declared !! va_key row with
    | Some var => (cv_name var, cv_description var, cv_warning var)
    | None => (va_name row, va_description row, va_warning row)
    end in
  VObject [("key", VString (va_key row)); ("name", VString name); ("description", VString description);
           ("value", VString (shown_value row)); ("warning", VString warning); ("sensitive", VBool (variable_sensitive row));
           ("system", VBool (starts_with "WAFER_RUN_SHARED__" (va_key row))); ("updated_at", VString (va_updated_at row))].
Definition handle_list_full : prog (outcome OutputStream OutputStream) :=
  let? rows := list_all_variables else (fun e => db_error_internal e "Database error") in
  Done (Ok (ok_json (VArray (map (full_view declared_vars) rows)))).

Definition setting_view (row : VariableRow) : Value :=
  VObject [("key", VString (va_key row)); ("value", VString (shown_value row)); ("sensitive", VBool (variable_sensitive row))].
(** [BTreeMap::values_by_key]: in ascending order of the keys. *)
Definition entry_le (p q : string * Value) : Prop := String.le p.1 q.1.
#[export] Instance entry_le_dec p q : base.Decision (entry_le p q).
Proof. unfold entry_le. apply _. Defined.
Definition values_by_key (m : gmap string Value) : list Value := map snd (merge_sort entry_le (map_to_list m)).
Definition handle_list_settings : prog (outcome OutputStream OutputStream) :=
  let? rows := list_all_variables else (fun e => db_error_internal e "Database error") in
  let by_key := foldl (fun m row => <[va_key row := setting_view row]> m) (∅ : gmap string Value) rows in
  Done (Ok (ok_json (VObject [("settings", VArray (values_by_key by_key))]))).

(** [db::Record] as JSON. *)
Definition record_json (id : string) (data : columns) : Value :=
  VObject [("id", VString id); ("data", VObject (map_to_list data))].
Definition with_value (row : VariableRow) (value : string) : VariableRow := {|
  va_id := va_id row; va_key := va_key row; va_value := value; va_name := va_name row; va_description := va_description row;
  va_warning := va_warning row; va_sensitive := va_sensitive row; va_block := va_block row; va_updated_by := va_updated_by row;
  va_created_at := va_created_at row; va_updated_at := va_updated_at row |}.
Definition MISSING_SETTING_KEY : string := "Missing setting key".

Definition handle_get_setting (msg : Message) : prog (outcome OutputStream OutputStream) :=
  key ←! path_var msg "key" MISSING_SETTING_KEY;
  let? found := get_by_key key else (fun e => db_error e "Setting not found" "Database error") in
  row ←! require_row found "Setting not found";
  let row := if is_sensitive_key key (if va_sensitive row then 1 else 0) then with_value row MASKED_VALUE else row in
  Done (Ok (ok_json (record_json (va_id row) (variable_to_data row)))).

Definition NOTHING_TO_UPDATE : string :=
  "Nothing to update: send `value`, `sensitive`, or both. Leaving `value` out keeps the stored value.".
Definition set_echo (value : option string) (row : VariableRow) : OutputStream :=
  let data := variable_to_data row in
  let data := match value with
              | None => delete "value" data
              | Some _ => if variable_sensitive row then <["value" := VString MASKED_VALUE]> data else data end in
  ok_json (record_json (va_id row) data).
Definition setting_text (v : Value) : string := match v with VString s => s | other => json_to_string other end.
Definition handle_set_setting (msg : Message) (raw : outcome OutputStream string) : prog (outcome OutputStream OutputStream) :=
  key ←! path_var msg "key" MISSING_SETTING_KEY;
  raw ←! raw;
  body ←! map_err (fun e => err_bad_request (String.append "Invalid body: " e)) (setting_from_slice raw);
  match set_value body, set_sensitive body with
  | None, None => Done (Err (err_bad_request NOTHING_TO_UPDATE))
  | _, _ =>
    let value := setting_text <$> set_value body in
    row ←? update_variable msg key {| vu_value := value; vu_description := None; vu_sensitive := set_sensitive body |};
    Done (Ok (set_echo value row))
  end.

Definition handle_create_setting (msg : Message) (raw : outcome OutputStream string) : prog (outcome OutputStream OutputStream) :=
  raw ←! raw;
  body ←! map_err (fun e => err_bad_request (String.append "Invalid body: " e)) (create_from_slice raw);
  let? row := create_variable msg (cb_key body) (default "" (cb_value body)) (cb_name body) (cb_description body)
                (default true (cb_sensitive body)) else into_response in
  Done (Ok (ok_json (record_json (va_id row) (variable_to_data row)))).

Definition handle_delete_setting (msg : Message) : prog (outcome OutputStream OutputStream) :=
  key ←! path_var msg "key" MISSING_SETTING_KEY;
  _ ←? delete_variable msg key;
  Done (Ok (ok_json (VObject [("deleted", VString key)]))).
Definition handle_reset_to_environment (msg : Message) : prog (outcome OutputStream OutputStream) :=
  key ←! path_var msg "key" MISSING_SETTING_KEY;
  _ ←? reset_variable_to_environment msg key;
  Done (Ok (ok_json (VObject [("reset_to_environment", VString key)]))).

(** ** The settings forms ([VariablesConfigBlock::write])

    [boot] is the map of values the process was booted with. *)
Definition served_only_from_boot_map (key : string) : bool := is_instance_owned_key key.
Definition config_error (code : ErrorCode) (message : string) : OutputStream := OutputError (wafer_error code message).
Definition current_value (boot : string -> option string) (key : string) (existing : option VariableRow) : string :=
  match existing with
  | Some row => if is_empty (va_value row) then default "" (boot key) else va_value row
  | None => default "" (boot key)
  end.
Definition check_config_write (boot : string -> option string) (key value : string) (existing : option VariableRow)
  : outcome OutputStream unit :=
  let stored_flag := match existing with Some row => if va_sensitive row then 1 else 0 | None => 0 end in
  if is_masked_submission key stored_flag value && negb (String.eqb (current_value boot key existing) value)
  then Err (config_error InvalidArgument (concat_chars [MASKED_VALUE; " is the mask "; key;
              " reads back as, not its value: storing it would destroy the secret"]))
  else if is_empty value && negb (is_provisioning_only_key key) && is_sensitive_key key stored_flag
  then Err (config_error InvalidArgument (concat_chars ["Cannot set "; key; " to an empty value"]))
  else map_err (fun e => config_error InvalidArgument (concat_chars ["Invalid value for "; key; ": "; e]))
         (validate_config_value key value).
Definition config_write (boot : string -> option string) (key value : string) : prog (outcome OutputStream unit) :=
  let? existing := find_by_key key
    else (fun e => config_error Internal (concat_chars ["config.set could not read "; key; ": "; e])) in
  _ ←! check_config_write boot key value existing;
  let? _ := set_by_admin key value (va_sensitive <$> existing) Features.USER_EDITED_SENTINEL
    else (fun e => config_error Internal (concat_chars ["config.set could not write "; key; ": "; e])) in
  Done (Ok tt).

(** ** Seeding the declared shared variables (the loop of [seed_defaults])

    The hash gate around the loop reads and stamps another table. *)
Definition is_stale_builtin_asset_url (value : string) : bool :=
  match strip_prefix STATIC_PREFIX value with
  | Some filename => negb (is_empty filename) && negb (existsb (String.eqb filename) asset_filenames)
  | None => false
  end.
Definition declared_name (var : ConfigVar) : string := if is_empty (cv_name var) then cv_key var else cv_name var.

Definition refresh_shared (var : ConfigVar) (row : VariableRow) : prog (WResult unit) :=
  let stale_builtin_asset := is_stale_builtin_asset_url (va_value row) in
  if String.eqb (va_name row) (declared_name var) && String.eqb (va_description row) (cv_description var) &&
     String.eqb (va_warning row) (cv_warning var) && negb stale_builtin_asset
  then Done (Ok tt)
  else
    _ ←? upsert_by_key (cv_key var) {|
        vp_value := if stale_builtin_asset then Some (cv_default var) else None; vp_name := Some (declared_name var);
        vp_description := Some (cv_description var); vp_warning := Some (cv_warning var); vp_sensitive := None;
        vp_updated_by := None |};
    Done (Ok tt).
Definition seed_value (var : ConfigVar) : string :=
  match process_env (cv_key var) with
  | Some v => if negb (is_empty v) && is_ok (check_config_value (cv_key var) v) then v else cv_default var
  | None => cv_default var
  end.
Definition seed_missing (var : ConfigVar) : prog (WResult unit) :=
  if is_empty (seed_value var) then Done (Ok tt)
  else
    _ ←? insert_variable {| nv_key := cv_key var; nv_value := seed_value var; nv_name := declared_name var;
          nv_description := cv_description var; nv_warning := cv_warning var; nv_sensitive := is_sensitive_var var;
          nv_updated_by := ""; nv_block := block_for_key (cv_key var) |};
    Done (Ok tt).
Definition seed_shared_var (existing : gmap string VariableRow) (var : ConfigVar) : prog (WResult unit) :=
  match existing !! cv_key var with Some row => refresh_shared var row | None => seed_missing var end.
(** Every key is attempted; the failures are listed in order. *)
Fixpoint seed_shared_loop (existing : gmap string VariableRow) (vars : list ConfigVar)
  : prog (list (string * WaferError)) :=
  match vars with
  | [] => Done []
  | var :: vars =>
      r ← seed_shared_var existing var;
      failed ← seed_shared_loop existing vars;
      Done (match r with Err e => (cv_key var, e) :: failed | _ => failed end)
  end.
Definition SEED_UNREAD : string := "seed the shared variables: could not read the variables table, so nothing was seeded".
Definition carried_failure (failed : list (string * WaferError)) : WaferError :=
  match List.find (fun f => negb (failure_is_transient f.2)) failed, failed with
  | Some f, _ | None, f :: _ => f.2
  | None, [] => wafer_error Internal "no write failed"
  end.
Definition failed_writes (failed : list (string * WaferError)) (declared : Z) : WaferError :=
  let keys := join "; " (map (fun f => concat_chars [f.1; " ("; we_message f.2; ")"]) failed) in
  {| we_code := we_code (carried_failure failed);
     we_message := concat_chars ["seed the shared variables: "; z_to_string (Z.of_nat (length failed)); " of ";
       z_to_string declared; " keys could not be written, and the seed is left unrecorded so the next provisioning build runs it again: "; keys];
     we_detail := we_detail (carried_failure failed) |}.
Definition seed_shared : prog (WResult unit) :=
  let? rows := list_all_variables else db_failed SEED_UNREAD in
  let existing := foldl (fun m row => <[va_key row := row]> m) (∅ : gmap string VariableRow) rows in
  failed ← seed_shared_loop existing shared_config_vars;
  Done (if bool_decide (failed = []) then Ok tt else Err (failed_writes failed (Z.of_nat (length shared_config_vars)))).
End VariableAdmin.
