(* ===== verification/VariableSafety.v ===== *)
(** * What stored configuration promises

    An administrator's edit wins over the process environment for good: the row
    keeps its value and its owner whatever boots, seeders, repairs, bulk releases
    and requests for other keys do beside each other, and whichever calls fail. *)
From Stdlib Require Import String.
From S2P Require Import Features.
From S2P Require Import Prelude Ints Str Contracts SampleLib Ssrf Wafer Records Effects Columns TableMachine MemoryDb Ghost Failures DbRead Crud Routing AuthRepo ConfigVars Variables VariableAdmin.

(** ** What is written of a row *)
Section Writes.
Context {JN : JsonNumbers} {JS : JsonScalars JN} {CA : Catalogue} {ET : ErrorText}.

Lemma variable_to_data_columns row :
  variable_to_data row !! "id" = Some (VString (va_id row)) /\ variable_to_data row !! "key" = Some (VString (va_key row)) /\
  variable_to_data row !! "value" = Some (VString (va_value row)) /\
  variable_to_data row !! "updated_by" = Some (VString (va_updated_by row)) /\
  variable_to_data row !! "sensitive" = Some (flag_column (va_sensitive row)).
Proof. unfold variable_to_data. by destruct (va_block row). Qed.

(** The columns an update sets: never the key. *)
Definition patched (patch : VariablePatch) (data : columns) : Prop :=
  data !! "key" = None /\ data !! "value" = VString <$> vp_value patch /\
  data !! "updated_by" = VString <$> vp_updated_by patch /\ data !! "sensitive" = flag_column <$> vp_sensitive patch.
Lemma patched_columns patch now :
  patched patch (columns_of (when_some (vp_value patch) "value" VString ++ when_some (vp_name patch) "name" VString ++
    when_some (vp_description patch) "description" VString ++ when_some (vp_warning patch) "warning" VString ++
    when_some (vp_sensitive patch) "sensitive" flag_column ++ when_some (vp_updated_by patch) "updated_by" VString ++
    [("updated_at", VString now)])).
Proof. unfold patched. destruct patch as [[] [] [] [] [] []]; by split_and!. Qed.

Lemma from_record_ok record row : variable_from_record record = Ok row ->
  va_id row = row_id record /\ va_key row = str_field record "key" /\ va_value row = str_field record "value" /\
  va_updated_by row = str_field record "updated_by" /\ va_sensitive row = bool_field record "sensitive" /\ va_key row <> "".
Proof.
  unfold variable_from_record. destruct (is_empty _) eqn:He; [done|]. intros [= <-]. split_and!; try done.
  cbn [va_key]. intros Hk. by rewrite Hk in He.
Qed.
End Writes.

(** The filter of a key, on a row that has one. *)
Lemma matches_key_filter {JN : JsonNumbers} {B : Backend} {BL : BackendLaws B} id cols k key :
  cols !! "key" = Some (VString k) -> matches [variable_key_filter key] id cols = String.eqb k key.
Proof.
  intros Hk. unfold matches. cbn [forallb]. rewrite andb_true_r. unfold variable_key_filter, eq_filter.
  by apply (holds_equal_text "key" id cols k key).
Qed.

(** ** An administrator's edit wins *)
Section Edited.
Context {JN : JsonNumbers} {JS : JsonScalars JN} {B : Backend} {BL : BackendLaws B}.
Context {MS : Messages} {CA : Catalogue} {ET : ErrorText} {NS : NetSecurity} {VS : VariableServices}.

(** The row [i0] of the key [k0], its value and its owner. *)
Variables (i0 k0 v0 w0 : string).
Hypothesis Howner : pin_of_owner w0 = Some AdminEdit.
Hypothesis Hk0 : k0 <> "".

(** The key is that row's alone. *)
Definition keys_ok (s : state) : Prop :=
  forall i cols, rows s VARIABLES_TABLE !! i = Some cols ->
    exists k, cols !! "key" = Some (VString k) /\ (k = k0 <-> i = i0).
Definition edited (v : string) (s : state) : Prop :=
  exists cols, rows s VARIABLES_TABLE !! i0 = Some cols /\
    cols !! "value" = Some (VString v) /\ cols !! "updated_by" = Some (VString w0).
(** What becomes of the value: it stays, or, when it is the URL of a built-in
    asset that this build no longer serves, the shared seeder puts the declared
    default in its place. *)
Definition kept (v : string) : Prop :=
  v = v0 \/ is_stale_builtin_asset_url v0 = true /\
            exists var, var ∈ shared_config_vars /\ cv_key var = k0 /\ v = cv_default var.
Definition edited_inv (s : state) (_ : list unit) : Prop := keys_ok s /\ exists v, kept v /\ edited v s.

Abbreviation keeps Q := (upholds edited_inv (fun a _ => Q a) tt).
Abbreviation stays p := (upholds edited_inv (fun _ _ => True) tt p).

Lemma edit_avoids {A} (Q : A -> Prop) (p : prog A) :
  avoids VARIABLES_TABLE p -> (forall a, Q a) -> keeps Q p.
Proof.
  intros Hp HQ. induction p as [a|R c k IH]; [apply HQ|]. destruct Hp as [Hc Hk].
  intros s others r s' HI Hstep. exists tt. split; [|by apply IH].
  unfold edited_inv, keys_ok, edited. by rewrite (call_step_other c s r s' _ Hc Hstep).
Qed.
Lemma stays_avoids {A} (p : prog A) : avoids VARIABLES_TABLE p -> stays p.
Proof. intros Hp. by apply (edit_avoids (fun _ => True)). Qed.
Lemma stays_done {A} (a : A) : stays (Done a).
Proof. done. Qed.
Lemma stays_bind {A C} (Q : A -> Prop) (p : prog A) (f : A -> prog C) :
  keeps Q p -> (forall a, Q a -> stays (f a)) -> stays (p ≫= f).
Proof. intros Hp Hf. eapply upholds_bind; [exact Hp|]. intros a [] HQ. by apply Hf. Qed.
Lemma stays_try {E A C} (Q : outcome E A -> Prop) (p : prog (outcome E A)) (f : A -> prog (outcome E C)) :
  keeps Q p -> (forall a, Q (Ok a) -> stays (f a)) -> stays (prog_try p f).
Proof. intros Hp Hf. eapply stays_bind; [exact Hp|]. intros [a|e|] HQ; [by apply Hf|done..]. Qed.
Lemma stays_or_fail {E F A C} (Q : outcome E A -> Prop) (g : E -> F) (p : prog (outcome E A)) (f : A -> prog (outcome F C)) :
  keeps Q p -> (forall a, Q (Ok a) -> stays (f a)) -> stays (or_fail g p f).
Proof. intros Hp Hf. eapply stays_bind; [exact Hp|]. intros [a|e|] HQ; [by apply Hf|done..]. Qed.

(** *** Writes *)
Lemma edit_write {R} (c : call (WResult R)) :
  (forall s r s', edited_inv s [] -> call_step c s r s' -> edited_inv s' []) ->
  keeps (fun _ => True) (do_call c).
Proof. intros Hc s others r s' HI Hstep. exists tt. split; [|done]. by eapply Hc. Qed.

Lemma inv_insert s i cols k :
  edited_inv s [] -> cols !! "key" = Some (VString k) -> (k = k0 <-> i = i0) ->
  (i = i0 -> exists v, kept v /\ cols !! "value" = Some (VString v) /\ cols !! "updated_by" = Some (VString w0)) ->
  edited_inv (set_rows s VARIABLES_TABLE (<[i := cols]> (rows s VARIABLES_TABLE))) [].
Proof.
  intros [Hk (v & Hkept & c0 & Hr0 & Hv & Hw)] Hck Hki Hc. split.
  - intros j cols'. rewrite rows_set_rows. destruct (decide (j = i)) as [->|Hne].
    + rewrite lookup_insert_eq. intros [= <-]. by exists k.
    + rewrite lookup_insert_ne by done. apply Hk.
  - unfold edited. rewrite rows_set_rows. destruct (decide (i = i0)) as [->|Hne].
    + destruct (Hc eq_refl) as (v' & Hkept' & Hc'). exists v'. split; [done|]. exists cols. by rewrite lookup_insert_eq.
    + exists v. split; [done|]. exists c0. by rewrite lookup_insert_ne.
Qed.

(** An update of another row, or one that keeps the value and the owner. *)
Lemma edit_update id patch data :
  patched patch data -> (id = i0 -> (forall v, vp_value patch = Some v -> kept v) /\ vp_updated_by patch = None) ->
  keeps (fun _ => True) (do_call (Update VARIABLES_TABLE id data)).
Proof.
  intros (Hdk & Hdv & Hdw & _) Hid. apply edit_write. intros s r s' HI. cbn [call_step].
  destruct (rows s VARIABLES_TABLE !! id) as [cols|] eqn:Hr; [|by intros [-> _]].
  assert (edited_inv (set_rows s VARIABLES_TABLE (<[id := overlay data cols]> (rows s VARIABLES_TABLE))) []) as Ha.
  { destruct (proj1 HI id cols Hr) as (k & Hk & Hki). apply (inv_insert s id _ k HI).
    - by rewrite overlay_lookup, Hdk.
    - done.
    - intros ->. destruct (Hid eq_refl) as [Hv Hw]. rewrite !overlay_lookup, Hdv, Hdw, Hw.
      destruct HI as [_ (v & Hkept & c0 & Hr0 & ? & ?)]. rewrite Hr in Hr0. injection Hr0 as <-.
      destruct (vp_value patch) as [v'|]; [exists v'|by exists v]. split; [by apply Hv|]. by split. }
  by intros [[_ [->| ->]]|[_ ->]].
Qed.

(** A new row of another key. *)
Lemma edit_create row :
  va_key row <> k0 -> keeps (fun _ => True) (do_call (Create VARIABLES_TABLE (variable_to_data row))).
Proof.
  intros Hne. apply edit_write. intros s r s' HI.
  intros [[-> _]|(id & cols & Hfree & Hsub & _ & -> & _)]; [done|].
  destruct (variable_to_data_columns row) as (_ & Hk & _).
  assert (id <> i0) as Hid. { intros ->. destruct HI as [_ (v & _ & c & Hc & _)]. congruence. }
  apply (inv_insert s id cols (va_key row) HI); [by eapply lookup_weaken|by split|by intros ->].
Qed.
Lemma edit_delete id : id <> i0 -> keeps (fun _ => True) (do_call (Delete VARIABLES_TABLE id)).
Proof.
  intros Hne. apply edit_write. intros s r s' HI. cbn [call_step].
  destruct (rows s VARIABLES_TABLE !! id) eqn:Hr; [|by intros [-> _]].
  assert (edited_inv (set_rows s VARIABLES_TABLE (delete id (rows s VARIABLES_TABLE))) []) as Ha.
  { destruct HI as [Hk (v & Hkept & c0 & Hr0 & Hc0)]. split.
    - intros i c. rewrite rows_set_rows. intros [_ Hi]%lookup_delete_Some. by apply Hk.
    - exists v. split; [done|]. exists c0. by rewrite rows_set_rows, lookup_delete_ne. }
  by intros [[_ [->| ->]]|[_ ->]].
Qed.

(** *** Reads *)
(** What is known of a row that was read. *)
Definition row_known (row : VariableRow) : Prop :=
  (va_key row = k0 <-> va_id row = i0) /\ (va_id row = i0 -> kept (va_value row) /\ va_updated_by row = w0).
Definition found_ok {E} (key : string) (r : outcome E (option VariableRow)) : Prop :=
  match r with
  | Ok (Some row) => row_known row /\ va_key row = key
  | Ok None => key <> k0
  | _ => True
  end.

Lemma read_known s id cols row :
  edited_inv s [] -> rows s VARIABLES_TABLE !! id = Some cols -> variable_from_record (row_of id cols) = Ok row ->
  row_known row /\ cols !! "key" = Some (VString (va_key row)).
Proof.
  intros [Hk (v & Hkept & c0 & Hr0 & Hv & Hw)] Hr (Hid & Hkey & Hval & Hown & _)%from_record_ok. cbn [row_of row_id] in Hid.
  destruct (Hk id cols Hr) as (k & Hck & Hki).
  assert (va_key row = k) as Hkk by (rewrite Hkey; unfold str_field; simpl; by rewrite Hck). subst k. split; [|done]. split.
  - by rewrite Hid.
  - intros Hi. assert (id = i0) as -> by congruence. rewrite Hr in Hr0. injection Hr0 as ->.
    rewrite Hval, Hown. unfold str_field. simpl. by rewrite Hv, Hw.
Qed.

Lemma matches_key s id cols key :
  edited_inv s [] -> rows s VARIABLES_TABLE !! id = Some cols ->
  matches [variable_key_filter key] id cols = true <-> cols !! "key" = Some (VString key).
Proof.
  intros [Hk _] Hr. destruct (Hk id cols Hr) as (k & Hck & _). rewrite (matches_key_filter id cols k key Hck).
  rewrite String.eqb_eq, Hck. split; [by intros ->|by intros [= ->]].
Qed.

Lemma edit_read {R A} (Q : A -> Prop) (c : call R) (k : R -> prog A) :
  written_tables c = [] -> (forall s r s', edited_inv s [] -> call_step c s r s' -> keeps Q (k r)) -> keeps Q (Do c k).
Proof.
  intros Hw Hk s others r s' HI Hc. exists tt.
  assert (rows s' VARIABLES_TABLE = rows s VARIABLES_TABLE) as Hrows.
  { eapply call_step_other; [|exact Hc]. rewrite Hw. apply not_elem_of_nil. }
  split; [by unfold edited_inv, keys_ok, edited; rewrite Hrows|]. by eapply Hk.
Qed.

Lemma edit_find_by_key key : keeps (found_ok key) (find_by_key key).
Proof.
  apply edit_read; [done|]. intros s r s' HI [_ Hl]. destruct Hl as [(e & -> & _)|(l & -> & Hall & _ & Hlen)]; [done|].
  destruct l as [|rec l].
  - intros Hkey. subst key. destruct HI as [Hk (v & Hkept & c0 & Hr0 & Hc0)]. simpl in Hlen.
    assert (0 < count_rows [variable_key_filter k0] (rows s VARIABLES_TABLE)) as Hpos; [|lia].
    apply count_rows_some. exists i0, c0. split; [done|]. destruct (Hk i0 c0 Hr0) as (k & Hck & Hki).
    apply (matches_key s i0 c0 k0); [by split; [|exists v; split; [|exists c0]]|done|]. by rewrite Hck, (proj2 Hki).
  - apply Forall_cons in Hall as [[Hr Hm] _]. simpl. destruct (variable_from_record rec) as [row|e|] eqn:Hrow; [|done..].
    simpl. destruct rec as [id cols]. destruct (read_known s id cols row HI Hr Hrow) as [Hkn Hck]. split; [done|].
    apply (matches_key s id cols key HI Hr) in Hm. congruence.
Qed.
Lemma edit_get_by_key key : keeps (found_ok key) (get_by_key key).
Proof.
  apply edit_read; [done|]. intros s r s' HI [_ Hl]. destruct Hl as [(e & -> & He)|[(id & cols & Hr & Hm & ->)|(e & -> & He & Hnone)]]; simpl.
  - by rewrite bool_decide_false.
  - destruct (variable_from_record _) as [row|e|] eqn:Hrow; [|done..]. simpl.
    destruct (read_known s id cols row HI Hr Hrow) as [Hkn Hck]. split; [done|].
    apply (matches_key s id cols key HI Hr) in Hm. congruence.
  - rewrite bool_decide_true by done. intros ->. destruct HI as [Hk (v & Hkept & c0 & Hr0 & Hc0)].
    pose proof (Hnone i0 c0 Hr0) as Hf. apply Bool.not_true_iff_false in Hf. apply Hf. 
    destruct (Hk i0 c0 Hr0) as (k & Hck & Hki). 
    apply (matches_key s i0 c0 k0); [by split; [|exists v; split; [|exists c0]]|done|]. by rewrite Hck, (proj2 Hki).
Qed.

Lemma edited_decodes s : edited_inv s [] ->
  exists cols row, rows s VARIABLES_TABLE !! i0 = Some cols /\ variable_from_record (row_of i0 cols) = Ok row /\ va_key row = k0.
Proof.
  intros [Hk (v & Hkept & c0 & Hr0 & _)]. destruct (Hk i0 c0 Hr0) as (k & Hck & Hki). rewrite (proj2 Hki eq_refl) in Hck.
  assert (str_field (row_of i0 c0) "key" = k0) as Hstr by (unfold str_field; simpl; by rewrite Hck).
  destruct (variable_from_record (row_of i0 c0)) as [row|e|] eqn:Hrow.
  - exists c0, row. do 2 (split; [done|]). by apply from_record_ok in Hrow as (_ & -> & _).
  - unfold variable_from_record in Hrow. rewrite Hstr in Hrow. by destruct k0.
  - unfold variable_from_record in Hrow. rewrite Hstr in Hrow. by destruct k0.
Qed.
(** A listing that is answered is whole. *)
Lemma page_whole {A} (l : list A) : (length (take (Z.to_nat 10001) l) <= Z.to_nat 10000)%nat -> take (Z.to_nat 10001) l = l.
Proof. rewrite length_take. intros Hl. apply take_ge. lia. Qed.
Lemma edit_list_all :
  keeps (fun r => forall rows, r = Ok rows -> Forall row_known rows /\ exists row, row ∈ rows /\ va_key row = k0) list_all_variables.
Proof.
  apply edit_read; [done|]. intros s r s' HI [_ Hl].
  destruct Hl as [(e & -> & He)|(l & [Hperm _] & ->)]; [done|]. cbn [prog_bind fst].
  destruct (Z.ltb_spec UNPAGED_LIMIT (Z.of_nat (length (map (fun p : string * columns => row_of p.1 p.2)
    (take (Z.to_nat (saturating_add_u32 UNPAGED_LIMIT 1)) (drop 0 l)))))) as [|Hle]; [done|].
  rewrite length_map in Hle. rewrite drop_0 in *. change (saturating_add_u32 UNPAGED_LIMIT 1) with 10001 in *.
  change UNPAGED_LIMIT with 10000 in Hle. rewrite page_whole by lia. intros rs [= <-].
  assert (forall id cols, (id, cols) ∈ l <-> rows s VARIABLES_TABLE !! id = Some cols) as Hin.
  { intros id cols. rewrite Hperm, elem_of_map_to_list, map_lookup_filter_Some. by split; [intros [? _]|]. }
  split.
  - apply Forall_forall. intros row (rec & Hrec & Hrow)%list_elem_of_omap.
    apply list_elem_of_fmap in Hrec as ([id cols] & -> & Hr%Hin). cbn [fst snd] in *.
    destruct (variable_from_record _) as [row'|e|] eqn:Hr'; try discriminate Hrow. injection Hrow as ->.
    by apply (read_known s id cols row HI Hr).
  - destruct (edited_decodes s HI) as (c0 & row & Hr0 & Hrow & Hkey). exists row. split; [|done].
    apply list_elem_of_omap. exists (row_of i0 c0). split; [|by rewrite Hrow].
    apply list_elem_of_fmap. exists (i0, c0). split; [done|]. by apply Hin.
Qed.
(** The rows of a table, all of them when there are so many. *)
Lemma listed_all (r : table_rows) (l : list Row) :
  Forall (fun row => r !! row_id row = Some (row_data row)) l -> NoDup (row_id <$> l) ->
  Z.of_nat (length l) = count_rows [] r -> forall id cols, r !! id = Some cols -> row_of id cols ∈ l.
Proof.
  intros Hall Hnd Hlen id cols Hr.
  assert (filter (fun p => matches [] p.1 p.2 = true) r = r) as Hf by by apply map_filter_id.
  unfold count_rows in Hlen. rewrite Hf in Hlen. apply Nat2Z.inj in Hlen.
  assert (id ∈ row_id <$> l) as Hin.
  { assert (list_to_set (C := gset string) (row_id <$> l) = dom r) as Hd.
    - apply set_subseteq_size_eq.
      + intros i. rewrite elem_of_list_to_set. intros (row & -> & Hi)%list_elem_of_fmap.
        rewrite Forall_forall in Hall. apply elem_of_dom. eexists. by apply Hall.
      + rewrite size_dom, size_list_to_set, length_fmap by done. lia.
    - apply (elem_of_list_to_set (C := gset string)). rewrite Hd. apply elem_of_dom. by eexists. }
  apply list_elem_of_fmap in Hin as ([i c] & -> & Hi). rewrite Forall_forall in Hall.
  specialize (Hall _ Hi). simpl in *. unfold row_of. congruence.
Qed.
Lemma edit_load_rows :
  keeps (fun r => forall rows, r = Ok rows ->
    Forall (fun loaded => row_known (lr_row loaded)) rows /\ exists loaded, loaded ∈ rows /\ va_key (lr_row loaded) = k0) load_rows.
Proof.
  apply edit_read; [done|]. intros s r s' HI [_ Hl]. destruct Hl as [(e & -> & _)|(l & -> & Hall & Hnd & Hlen)]; [done|].
  cbn [prog_bind]. change (Z.of_nat (Z.to_nat FULL_LIMIT_THRESHOLD)) with FULL_LIMIT_THRESHOLD in Hlen.
  destruct (Z.leb_spec FULL_LIMIT_THRESHOLD (Z.of_nat (length l))) as [|Hlt]; [done|]. intros rs [= <-].
  assert (Forall (fun row => rows s VARIABLES_TABLE !! row_id row = Some (row_data row)) l) as Hin.
  { eapply Forall_impl; [exact Hall|]. by intros row [? _]. }
  split.
  - apply Forall_forall. intros loaded (rec & Hrec & Hrow)%list_elem_of_omap. rewrite Forall_forall in Hin.
    specialize (Hin rec Hrec). unfold loaded_row in Hrow. destruct rec as [id cols].
    destruct (variable_from_record _) as [row|e|] eqn:Hr; try discriminate Hrow. injection Hrow as <-.
    by apply (read_known s id cols row HI Hin).
  - destruct (edited_decodes s HI) as (c0 & row & Hr0 & Hrow & Hkey).
    assert (exists loaded, loaded_row (row_of i0 c0) = Some loaded /\ lr_row loaded = row) as (loaded & Hl & <-).
    { unfold loaded_row. rewrite Hrow. by eexists. }
    exists loaded. split; [|exact Hkey]. apply list_elem_of_omap. exists (row_of i0 c0). split; [|exact Hl].
    apply (listed_all _ _ Hin Hnd); [lia|done].
Qed.

Lemma edit_aside {R A} (Q : A -> Prop) (c : call R) (k : R -> prog A) :
  VARIABLES_TABLE ∉ written_tables c -> (forall r, keeps Q (k r)) -> keeps Q (Do c k).
Proof.
  intros Hw Hk s others r s' HI Hc. exists tt. split; [|by apply Hk].
  unfold edited_inv, keys_ok, edited. by rewrite (call_step_other c s r s' _ Hw Hc).
Qed.
Lemma edit_to_update_data patch : keeps (patched patch) (to_update_data patch).
Proof. apply edit_aside; [apply not_elem_of_nil|]. intros now. apply patched_columns. Qed.
Lemma edit_into_row new : keeps (fun row => va_key row = nv_key new) (into_row new).
Proof.
  apply edit_aside; [apply not_elem_of_nil|]. intros now. cbn [prog_bind]. apply edit_aside; [|done].
  by intros [?%(f_equal String.length)|?%elem_of_nil]%elem_of_cons.
Qed.

(** *** The boot *)
Lemma edit_telling {R} what (c : call (WResult R)) : keeps (fun _ => True) (do_call c) -> keeps (fun _ => True) (telling what c).
Proof. intros Hc. by apply (stays_bind (fun _ => True)). Qed.
Lemma stays_create what row :
  va_key row <> k0 -> stays (telling what (Create VARIABLES_TABLE (variable_to_data row))).
Proof. intros Hne. by apply edit_telling, edit_create. Qed.

Lemma stays_insert_if_absent row : stays (insert_if_absent row).
Proof.
  eapply stays_try; [apply edit_find_by_key|]. intros [found|] Hf; [done|].
  by eapply stays_try; [apply stays_create|].
Qed.
Lemma stays_seed_if_absent key value name description sensitive : stays (seed_if_absent key value name description sensitive).
Proof. eapply stays_bind; [apply edit_into_row|]. intros row _. apply stays_insert_if_absent. Qed.

(** A row that was read and is not the edited one. *)
Lemma known_other row key : row_known row /\ va_key row = key -> key <> k0 -> va_id row <> i0.
Proof. intros [[Hk _] <-] Hne. by rewrite <- Hk. Qed.

Lemma stays_set_with_row key value name description sensitive updated_by existing :
  key <> k0 -> found_ok (E:=string) key (Ok existing) ->
  stays (set_with_row key value name description sensitive updated_by existing).
Proof.
  intros Hne Hf. destruct existing as [row|]; cbn [set_with_row].
  - destruct (_ && _ && _); [done|]. eapply stays_bind; [apply edit_to_update_data|]. intros data Hp.
    eapply stays_try; [|done]. apply edit_telling. eapply edit_update; [exact Hp|].
    intros Hid. by apply (known_other row key) in Hf.
  - eapply stays_bind; [apply edit_into_row|]. intros row Hrow. eapply stays_try; [|done].
    apply stays_create. by rewrite Hrow.
Qed.
Lemma stays_set_with_owner key value name description sensitive updated_by :
  key <> k0 -> stays (set_with_owner key value name description sensitive updated_by).
Proof. intros Hne. eapply stays_try; [apply edit_find_by_key|]. intros found Hf. by apply stays_set_with_row. Qed.

Lemma stays_random : stays random_hex_secret.
Proof. apply stays_avoids. by split; [apply not_elem_of_nil|]. Qed.
Lemma stays_secrets block_col vars : stays (seed_secrets block_col vars).
Proof.
  induction vars as [|var vars IH]; [done|]. cbn [seed_secrets]. destruct (negb _); [done|].
  eapply stays_bind; [|done]. eapply stays_try; [apply stays_random|]. intros secret _.
  eapply stays_bind; [apply edit_into_row|]. intros row _. apply stays_insert_if_absent.
Qed.
Lemma stays_auto_generated : stays seed_auto_generated.
Proof.
  unfold seed_auto_generated. induction all_block_infos as [|[name keys] infos IH]; [done|]. cbn [seed_blocks].
  eapply stays_bind; [apply stays_secrets|done].
Qed.
Lemma stays_jwt_secret : stays seed_jwt_secret.
Proof.
  eapply stays_bind; [apply stays_random|]. intros [secret|e|] _; [|done..].
  eapply stays_bind; [apply edit_into_row|]. intros row _. eapply stays_bind; [apply stays_insert_if_absent|done].
Qed.

(** The loop of the environment stops at the edited row. *)
Lemma stays_seed_row transition_done key value existing :
  found_ok (E:=string) key (Ok existing) -> stays (seed_row transition_done key value existing).
Proof.
  intros Hf. destruct (decide (key = k0)) as [->|Hne].
  - destruct existing as [row|]; [|by exfalso; apply Hf]. destruct Hf as [[Hki Hrow] Hk]. cbn [seed_row].
    destruct (Hrow (proj1 Hki Hk)) as [_ Hw]. unfold is_pinned, pin_of. rewrite Hw, Howner, bool_decide_true by done. done.
  - assert (stays (_ ← set_with_row key value "" "" None None existing; Done tt)) as Hset.
    { eapply stays_bind; [by apply stays_set_with_row|done]. }
    destruct existing as [row|]; [|done]. cbn [seed_row]. destruct (is_pinned row); [done|].
    destruct (_ && _ && _); [|done]. eapply stays_bind; [|done].
    eapply stays_bind; [apply edit_to_update_data|]. intros data Hp. eapply stays_bind; [|done].
    eapply edit_update; [exact Hp|]. intros Hid. by apply (known_other row key) in Hf.
Qed.
Lemma stays_seed_env transition_done env_vars : stays (seed_env transition_done env_vars).
Proof.
  induction env_vars as [|[key value] env_vars IH]; [done|]. cbn [seed_env]. apply (stays_bind (fun _ => True)); [|done].
  unfold seed_export. destruct (check_env_export key value); [|done..].
  eapply stays_bind; [apply edit_find_by_key|]. intros [existing|e|] Hf; [|done..]. by apply stays_seed_row.
Qed.

Lemma stays_repair rows : Forall (fun loaded => row_known (lr_row loaded)) rows -> stays (repair_sensitive_flags_in rows).
Proof.
  induction 1 as [|loaded rows Hl _ IH]; [done|]. cbn [repair_sensitive_flags_in]. apply (stays_bind (fun _ => True)); [|done].
  unfold repair_row. destruct (_ || _); [done|]. eapply stays_bind; [apply edit_to_update_data|]. intros data Hp.
  eapply stays_bind; [|done]. by eapply edit_update.
Qed.
Lemma stays_repair_flags : stays repair_sensitive_flags.
Proof.
  eapply stays_bind; [apply edit_load_rows|]. intros [rows|e|] Hr; [|done..]. apply stays_repair. by apply Hr.
Qed.

(** What boots is the edit. *)
Lemma edit_then {A C} (Q : C -> Prop) (p : prog A) (f : A -> prog C) : stays p -> (forall a, keeps Q (f a)) -> keeps Q (p ≫= f).
Proof. intros Hp Hf. eapply upholds_bind; [exact Hp|]. intros a [] _. apply Hf. Qed.
Lemma key_values_edited rows :
  Forall (fun loaded => row_known (lr_row loaded)) rows -> (exists loaded, loaded ∈ rows /\ va_key (lr_row loaded) = k0) ->
  exists v, key_values rows !! k0 = Some v /\ kept v.
Proof.
  intros Hk (l0 & Hin & Hl0). unfold key_values, collect_map.
  induction rows as [|loaded rows IH] using rev_ind; [by apply not_elem_of_nil in Hin|].
  apply Forall_app in Hk as [Hks [[Hki Hv] _]%Forall_cons]. rewrite map_app, foldl_app. cbn [map foldl fst snd].
  destruct (decide (va_key (lr_row loaded) = k0)) as [He|Hne].
  - rewrite He, lookup_insert_eq. eexists. split; [done|]. by apply Hv, Hki.
  - rewrite lookup_insert_ne by done. apply IH; [done|].
    apply elem_of_app in Hin as [Hin|Hin%list_elem_of_singleton]; [done|congruence].
Qed.
Definition boots_edit (r : outcome string (gmap string string)) : Prop := forall m, r = Ok m -> exists v, m !! k0 = Some v /\ kept v.
Lemma edit_boot env_vars : keeps boots_edit (seed_and_load env_vars).
Proof.
  apply edit_then; [eapply stays_bind; [apply edit_find_by_key|done]|]. intros transition_done.
  apply edit_then; [apply stays_seed_env|]. intros _. apply edit_then.
  { destruct (_ && _); [|done]. eapply stays_bind; [apply stays_seed_if_absent|done]. }
  intros _. apply edit_then; [apply stays_auto_generated|]. intros _. apply edit_then; [apply stays_jwt_secret|]. intros _.
  eapply upholds_bind; [apply edit_load_rows|]. intros [rows|e|] [] Hr; [|done..]. destruct (Hr rows eq_refl) as [Hk Hex].
  apply edit_then; [by apply stays_repair|]. intros _ m [= <-]. by apply key_values_edited.
Qed.

(** *** Requests *)
Lemma stays_insert new : nv_key new <> k0 -> stays (insert_variable new).
Proof.
  intros Hne. eapply stays_bind; [apply edit_into_row|]. intros row Hrow.
  eapply (stays_try (fun _ => True)); [|done]. apply edit_create. by rewrite Hrow.
Qed.
(** A patch of the edited row keeps its value and its owner. *)
Lemma stays_upsert key patch :
  (key = k0 -> (forall v, vp_value patch = Some v -> kept v) /\ vp_updated_by patch = None) ->
  stays (upsert_by_key key patch).
Proof.
  intros Hp. eapply stays_try; [apply edit_get_by_key|]. intros [row|] Hf.
  - eapply stays_bind; [apply edit_to_update_data|]. intros data Hd. eapply (stays_try (fun _ => True)); [|done].
    eapply edit_update; [exact Hd|]. intros Hid. apply Hp. destruct Hf as [[Hk _] <-]. by apply Hk.
  - by apply stays_insert.
Qed.
Lemma stays_upsert_other key patch : key <> k0 -> stays (upsert_by_key key patch).
Proof. intros Hne. by apply stays_upsert. Qed.
Lemma stays_audit msg action key : stays (audit_variable msg action key).
Proof. apply stays_avoids. unfold audit_variable, audit_log. avoid. Qed.
Lemma stays_audited {A} msg action key (a : A) : stays (_ ← audit_variable msg action key; Done a).
Proof. eapply stays_bind; [apply stays_audit|done]. Qed.
Lemma stays_clearable key : stays (is_clearable_provisioning_credential key).
Proof. apply stays_avoids. unfold is_clearable_provisioning_credential, users_any_exist. avoid. Qed.

Lemma stays_reset key : key <> k0 -> stays (reset_to_environment key).
Proof. intros Hne. eapply stays_try; [by apply stays_upsert_other|done]. Qed.
(** A release of the edited row alone is what may clear its owner. *)
Lemma stays_release msg key guard : guard = StillPinnedAtUpgrade \/ key <> k0 -> stays (release_to_environment msg key guard).
Proof.
  intros Hg. unfold release_to_environment. destruct (is_empty key); [done|].
  eapply stays_or_fail; [apply edit_get_by_key|]. intros [row|] Hf; [|by destruct guard].
  destruct (match guard with StillPinnedAtUpgrade => _ | AnyPin => false end) eqn:Hskip; [done|].
  eapply stays_or_fail; [|intros _ _; apply stays_audited]. apply stays_reset. destruct Hg as [->|]; [|done].
  intros ->. apply negb_false_iff, bool_decide_eq_true in Hskip. destruct Hf as [[Hki Hrow] Hk].
  destruct (Hrow (proj1 Hki Hk)) as [_ Hw]. unfold pin_of in Hskip. by rewrite Hw, Howner in Hskip.
Qed.
Lemma stays_release_each msg pinned : stays (release_each msg pinned).
Proof.
  induction pinned as [|key pinned IH]; [done|]. cbn [release_each].
  eapply stays_try; [apply stays_release; by left|]. intros released _. by apply (stays_try (fun _ => True)).
Qed.
Lemma stays_release_pinned msg : stays (release_keys_pinned_at_upgrade msg).
Proof.
  eapply (stays_or_fail (fun _ => True)); [|intros pinned _; apply stays_release_each].
  eapply stays_try; [apply edit_list_all|done].
Qed.
Lemma stays_delete msg key : key <> k0 -> stays (delete_variable msg key).
Proof.
  intros Hne. unfold delete_variable. destruct (is_empty key); [done|]. destruct (String.eqb _ _); [done|].
  destruct (_ && _); [done|]. eapply stays_or_fail; [apply edit_get_by_key|]. intros [row|] Hf; [|done].
  eapply stays_or_fail; [|intros _ _; apply stays_audited]. apply edit_delete. by eapply known_other.
Qed.

Lemma stays_create_variable msg key value name description sensitive :
  key <> k0 -> stays (create_variable msg key value name description sensitive).
Proof.
  intros Hne. apply (stays_try (fun _ => True)); [done|]. intros _ _. apply (stays_bind (fun _ => True)).
  { destruct (is_empty value); [apply stays_clearable|done]. }
  intros clearable _. destruct (_ && _); [done|]. apply (stays_try (fun _ => True)); [done|]. intros _ _.
  apply (stays_bind (fun _ => True)); [by apply stays_insert|]. intros [record|e|] _; [apply stays_audited|by destruct (is_duplicate_key e)|done].
Qed.
Lemma stays_stored_flag key : stays (stored_sensitive_flag key).
Proof. eapply stays_or_fail; [apply edit_get_by_key|done]. Qed.
Lemma stays_check_value key value : stays (check_update_value key value).
Proof.
  apply (stays_try (fun _ => True)).
  { unfold check_mask. destruct (negb _); [done|]. eapply stays_try; [apply stays_stored_flag|]. intros flag _. by destruct (is_masked_submission _ _ _). }
  intros _ _. apply (stays_try (fun _ => True)); [|done].
  unfold check_clear. destruct (negb _); [done|]. eapply stays_bind; [apply stays_clearable|]. intros [] _; [done|].
  eapply stays_try; [apply stays_stored_flag|]. intros flag _. by destruct (is_sensitive_key _ _).
Qed.
Lemma stays_update_variable msg key update : key <> k0 -> stays (update_variable msg key update).
Proof.
  intros Hne. apply (stays_try (fun _ => True)); [done|]. intros _ _. apply (stays_try (fun _ => True)).
  { destruct (vu_value update); [apply stays_check_value|].
    eapply stays_or_fail; [apply edit_get_by_key|]. by intros [row|] _. }
  intros _ _. destruct (_ && _); [done|].
  eapply stays_or_fail; [by apply stays_upsert_other|]. intros record _. apply stays_audited.
Qed.
Lemma stays_config_write boot key value : key <> k0 -> stays (config_write boot key value).
Proof.
  intros Hne. eapply stays_or_fail; [apply edit_find_by_key|]. intros existing _.
  apply (stays_try (fun _ => True)); [done|]. intros _ _.
  eapply stays_or_fail; [by apply stays_set_with_owner|done].
Qed.

(** The declared shared variables are seeded from a whole listing. *)
Lemma listing_known rows :
  Forall row_known rows -> (exists row, row ∈ rows /\ va_key row = k0) ->
  let m := foldl (fun m row => <[va_key row := row]> m) (∅ : gmap string VariableRow) rows in
  (forall key row, m !! key = Some row -> row_known row /\ va_key row = key) /\ m !! k0 <> None.
Proof.
  intros Hk (row0 & Hin & Hrow0). cbn zeta.
  induction rows as [|row rows IH] using rev_ind; [by apply not_elem_of_nil in Hin|].
  apply Forall_app in Hk as [Hks [Hk _]%Forall_cons]. rewrite foldl_app. cbn [foldl].
  assert (forall key r, foldl (fun m row => <[va_key row := row]> m) (∅ : gmap string VariableRow) rows !! key = Some r ->
            row_known r /\ va_key r = key) as Hall.
  { clear -Hks. induction rows as [|row rows IH] using rev_ind; [done|]. apply Forall_app in Hks as [Hks [Hk _]%Forall_cons].
    rewrite foldl_app. cbn [foldl]. intros key r.
    destruct (decide (key = va_key row)) as [->|Hne]; [rewrite lookup_insert_eq; by intros [= <-]|].
    rewrite lookup_insert_ne by done. by apply IH. }
  split.
  - intros key r. destruct (decide (key = va_key row)) as [->|Hne]; [rewrite lookup_insert_eq; by intros [= <-]|].
    rewrite lookup_insert_ne by done. apply Hall.
  - destruct (decide (va_key row = k0)) as [->|Hne]; [by rewrite lookup_insert_eq|]. rewrite lookup_insert_ne by done.
    apply IH; [done|]. apply elem_of_app in Hin as [Hin|Hin%list_elem_of_singleton]; [done|congruence].
Qed.
Lemma stays_seed_shared : stays seed_shared.
Proof.
  eapply stays_or_fail; [apply edit_list_all|]. intros rows Hrows. destruct (Hrows rows eq_refl) as [Hk Hex].
  pose proof (listing_known rows Hk Hex) as [Hm Hm0]. revert Hm Hm0.
  generalize (foldl (fun m row => <[va_key row := row]> m) (∅ : gmap string VariableRow) rows). intros existing Hm Hm0.
  apply (stays_bind (fun _ => True)); [|done].
  assert (forall var, var ∈ shared_config_vars -> var ∈ shared_config_vars) as Hdeclared by done.
  revert Hdeclared. generalize shared_config_vars at 1 3 as vars. induction vars as [|var vars IH]; intros Hdeclared; [done|].
  assert (stays (seed_shared_loop existing vars)) as Hrest by (apply IH; intros v Hv; apply Hdeclared; by right). clear IH.
  apply (stays_bind (fun _ => True)); [|intros r _; by apply (stays_bind (fun _ => True))]. unfold seed_shared_var.
  specialize (Hdeclared var ltac:(by left)).
  destruct (existing !! cv_key var) as [row|] eqn:Hrow.
  - unfold refresh_shared. destruct (_ && _); [done|]. eapply stays_try; [|done].
    apply stays_upsert. intros Hkey. split; [|done]. destruct (Hm _ _ Hrow) as [[Hki Hv] Hkr].
    destruct (Hv (proj1 Hki ltac:(congruence))) as [Hkept _]. cbn [vp_value].
    destruct (is_stale_builtin_asset_url (va_value row)) eqn:Hstale; [|done]. intros v [= <-]. right.
    split; [|by exists var]. by destruct Hkept as [<-|[? _]].
  - unfold seed_missing. destruct (is_empty _); [done|]. eapply stays_try; [|done]. apply stays_insert. cbn [nv_key].
    by intros Hkey; rewrite Hkey in Hrow.
Qed.

(** *** The requests of a pool *)
Definition unanswered {A} (p : prog A) : prog (option (gmap string string)) := spawn (fun _ => None) p.
Definition boot_values (r : outcome string (gmap string string)) : option (gmap string string) :=
  match r with Ok m => Some m | _ => None end.
Definition creates_other_key (raw : outcome OutputStream string) : Prop :=
  forall text body, raw = Ok text -> create_from_slice text = Ok body -> cb_key body <> k0.
Inductive config_request : prog (option (gmap string string)) -> Prop :=
| Boots env_vars : config_request (spawn boot_values (seed_and_load env_vars))
| MintsSecrets : config_request (unanswered seed_auto_generated)
| RepairsFlags : config_request (unanswered repair_sensitive_flags)
| SeedsShared : config_request (unanswered seed_shared)
| SeedsDefault key value name description sensitive : config_request (unanswered (seed_if_absent key value name description sensitive))
| SetsFact key value name description sensitive : key <> k0 ->
    config_request (unanswered (set_variable key value name description sensitive))
| SavesForm boot key value : key <> k0 -> config_request (unanswered (config_write boot key value))
| CreatesSetting msg raw : creates_other_key raw -> config_request (unanswered (handle_create_setting msg raw))
| SetsSetting msg raw : msg_var msg "key" <> k0 -> config_request (unanswered (handle_set_setting msg raw))
| DeletesSetting msg : msg_var msg "key" <> k0 -> config_request (unanswered (handle_delete_setting msg))
| ResetsSetting msg : msg_var msg "key" <> k0 -> config_request (unanswered (handle_reset_to_environment msg))
| ReleasesPinned msg : config_request (unanswered (release_keys_pinned_at_upgrade msg))
| LeavesAlone {A} (p : prog A) : avoids VARIABLES_TABLE p -> config_request (unanswered p).

Definition only_edit (r : option (gmap string string)) : Prop := forall m, r = Some m -> exists v, m !! k0 = Some v /\ kept v.
Lemma edit_quiet {A} (p : prog A) : stays p -> keeps only_edit (unanswered p).
Proof. intros Hp. by apply edit_then. Qed.
Lemma path_var_key msg key : path_var msg "key" MISSING_SETTING_KEY = Ok key -> key = msg_var msg "key".
Proof. unfold path_var. destruct (is_empty _); [done|]. by intros [= ->]. Qed.

Lemma edit_config_request p : config_request p -> keeps only_edit p.
Proof.
  intros [env_vars| | | |key value name description sensitive|key value name description sensitive Hne|boot key value Hne
    |msg raw Hne|msg raw Hne|msg Hne|msg Hne|msg|A q Hq]; try apply edit_quiet.
  - eapply upholds_bind; [apply edit_boot|]. intros [m|e|] [] Hr; [|done..]. intros m' [= <-]. by apply Hr.
  - apply stays_auto_generated.
  - apply stays_repair_flags.
  - by apply stays_seed_shared.
  - apply stays_seed_if_absent.
  - by apply stays_set_with_owner.
  - by apply stays_config_write.
  - eapply (stays_try (fun r => r = raw)); [done|]. intros text <-. apply (stays_try (fun r => forall body, r = Ok body -> create_from_slice text = Ok body)).
    { destruct (create_from_slice text) as [body|e|]; by intros ? [= <-]. }
    intros body Hbody. specialize (Hbody body eq_refl).
    apply (stays_or_fail (fun _ => True)); [|done]. apply stays_create_variable. by eapply Hne.
  - eapply (stays_try (fun r => r = path_var msg "key" MISSING_SETTING_KEY)); [done|].
    intros key Hkey. symmetry in Hkey. apply path_var_key in Hkey as ->.
    apply (stays_try (fun _ => True)); [done|]. intros text _. apply (stays_try (fun _ => True)); [done|]. intros body _.
    assert (forall u, stays (row ←? update_variable msg (msg_var msg "key") u; Done (Ok (set_echo (vu_value u) row)))) as Hu.
    { intros u. apply (stays_try (fun _ => True)); [by apply stays_update_variable|done]. }
    destruct (set_value body), (set_sensitive body); try done; apply Hu.
  - eapply (stays_try (fun r => r = path_var msg "key" MISSING_SETTING_KEY)); [done|].
    intros key Hkey. symmetry in Hkey. apply path_var_key in Hkey as ->.
    apply (stays_try (fun _ => True)); [by apply stays_delete|done].
  - eapply (stays_try (fun r => r = path_var msg "key" MISSING_SETTING_KEY)); [done|].
    intros key Hkey. symmetry in Hkey. apply path_var_key in Hkey as ->.
    apply (stays_try (fun _ => True)); [|done]. apply (stays_try (fun _ => True)); [|done]. apply stays_release. by right.
  - apply stays_release_pinned.
  - by apply stays_avoids.
Qed.
End Edited.

(** C6. A row that an administrator edited keeps its owner and its value, and is
    what every boot boots, however boots with any environment, seeders, repairs,
    bulk releases and requests for other keys that start once the edit is stored
    interleave, and whichever calls fail.  The one value that does not stay is
    the URL of a built-in asset that this build no longer serves: the shared
    seeder may put the default of the declared variable in its place. *)
Theorem admin_edit_survives {JN : JsonNumbers} {JS : JsonScalars JN} {B : Backend} {BL : BackendLaws B} {MS : Messages}
    {CA : Catalogue} {ET : ErrorText} {NS : NetSecurity} {VS : VariableServices}
    (i0 k0 v0 w0 : string) (ps ps' : list (prog (option (gmap string string)))) (s s' : state)
    (Howner : pin_of_owner w0 = Some AdminEdit) (Hk0 : k0 <> "") (Hkeys : keys_ok i0 k0 s) (Hrow : edited i0 w0 v0 s)
    (Hps : Forall (config_request k0) ps) (Hrun : rtc pool_step (ps, s) (ps', s')) :
  let remains v := v = v0 \/ is_stale_builtin_asset_url v0 = true /\
        exists var, var ∈ shared_config_vars /\ cv_key var = k0 /\ v = cv_default var in
  (exists v, remains v /\ edited i0 w0 v s') /\
  forall i m, ps' !! i = Some (Done (Some m)) -> exists v, m !! k0 = Some v /\ remains v.
Proof.
  cbv zeta.
  destruct (upholds_pool (edited_inv i0 k0 v0 w0) (fun _ _ _ _ H => H) (fun r _ => only_edit k0 v0 r)
    _ _ Hrun (replicate (length ps) tt)) as (ls & [_ He] & Hall).
  - split; [done|]. exists v0. split; [by left|done].
  - apply Forall2_replicate_l; [done|]. eapply Forall_impl; [exact Hps|]. intros p. by eapply edit_config_request.
  - split; [done|]. intros i m Hi. destruct (Forall2_lookup_r _ _ _ _ _ Hall Hi) as (l & _ & Hm). by apply Hm.
Qed.

(** ** Concrete instances and runs *)
Definition app_name_key : string := "WAFER_RUN_SHARED__APP_NAME".
Definition app_name : ConfigVar := {|
  cv_key := app_name_key; cv_name := "App name"; cv_description := ""; cv_default := "Impresspress"; cv_warning := "";
  cv_is_sensitive := false; cv_is_url := false; cv_auto_generate := false |}.
#[export] Instance sample_catalogue : Catalogue := {|
  shared_config_vars := [app_name]; auth_identity_config_vars := []; all_block_infos := []; auth_value_rules := [];
  csp_refused _ := []; debug_char c := c |}.
#[export] Instance sample_error_text : ErrorText := we_message.
#[export] Instance sample_variable_services : VariableServices := {|
  admin_remote_addr _ := "10.0.0.1"; setting_from_slice text := Ok {| set_value := Some (VString text); set_sensitive := None |};
  create_from_slice _ := Err "no body"; json_to_string _ := "";
  process_env _ := None; asset_filenames := []; registered_config_vars := []; failure_is_transient _ := false |}.

Definition variable_columns (id key value updated_by : string) : columns := columns_of
  [("id", VString id); ("key", VString key); ("value", VString value); ("sensitive", json_i64 0); ("updated_by", VString updated_by)].
Definition named (value owner : string) : state :=
  set_rows ∅ VARIABLES_TABLE (<["gate" := variable_columns "gate" ENV_PRECEDENCE_TRANSITION_KEY "done" ""]>
    {["app" := variable_columns "app" app_name_key value owner]}).
Definition named_by (owner : string) : state := named "Ours" owner.
Definition setting_message (user key : string) : Message := {|
  sm_action := "update"; sm_path := "/b/admin/api/settings"; sm_user := user; sm_meta := [("req.param.key", key)] |}.
Definition renaming_env : list (string * string) := [(app_name_key, "Theirs")].
Definition stored_text (s : state) (id column : string) : option string :=
  cols ← rows s VARIABLES_TABLE !! id; text_col cols column.

(** Two boots whose environment renames the application, a bulk release and a
    change of another setting, after the administrator named it. *)
Definition edited_requests : list (prog (option (gmap string string))) :=
  [spawn boot_values (seed_and_load renaming_env); unanswered (release_keys_pinned_at_upgrade (setting_message "bob" ""));
   unanswered (handle_set_setting (setting_message "bob" "WAFER_RUN_SHARED__LOGO_URL") (Ok "logo")); spawn boot_values (seed_and_load renaming_env);
   unanswered seed_shared].
Definition edited_run := run_schedule (replicate 2 0 ++ replicate 3 1 ++ replicate 4 2 ++ replicate 1 4 ++ replicate 9 3 ++ replicate 9 0 ++ replicate 6 2 ++ replicate 6 1 ++ replicate 9 4)%nat
  (edited_requests, named_by "ann").

Definition booted_name (p : prog (option (gmap string string))) : option string :=
  match p with Done (Some m) => m !! app_name_key | _ => None end.
Lemma admin_edit_survives_witness :
  (booted_name <$> edited_run.1 !! 0%nat, booted_name <$> edited_run.1 !! 3%nat) = (Some (Some "Ours"), Some (Some "Ours")) /\
  is_stale_builtin_asset_url "Ours" = false /\
  let remains v := v = "Ours" \/ is_stale_builtin_asset_url "Ours" = true /\
        exists var, var ∈ shared_config_vars /\ cv_key var = app_name_key /\ v = cv_default var in
  (exists v, remains v /\ edited "app" "ann" v edited_run.2) /\
  forall i m, edited_run.1 !! i = Some (Done (Some m)) -> exists v, m !! app_name_key = Some v /\ remains v.
Proof.
  split; [by vm_compute|]. split; [done|].
  apply (admin_edit_survives (B := memory_backend) "app" app_name_key "Ours" "ann" edited_requests edited_run.1 (named_by "ann") edited_run.2).
  - done.
  - done.
  - intros i cols. change (rows (named_by "ann") VARIABLES_TABLE) with
      (<["gate" := variable_columns "gate" ENV_PRECEDENCE_TRANSITION_KEY "done" ""]>
        {["app" := variable_columns "app" app_name_key "Ours" "ann"]} : table_rows).
    intros [[<- <-]|[Hne [<- <-]%lookup_singleton_Some]]%lookup_insert_Some.
    + by exists ENV_PRECEDENCE_TRANSITION_KEY.
    + by exists app_name_key.
  - by exists (variable_columns "app" app_name_key "Ours" "ann").
  - constructor; [apply Boots|]. constructor; [apply ReleasesPinned|]. constructor; [by apply SetsSetting|].
    constructor; [apply Boots|]. constructor; [apply SeedsShared|constructor].
  - rewrite <- surjective_pairing. apply run_schedule_steps.
Defined.

(** The value that the shared seeder resets, alone. *)
Definition stale_url : string := "/b/static/old-logo.png".
Theorem stale_asset_edit_is_reset :
  is_stale_builtin_asset_url stale_url = true /\
  let after := run_schedule (replicate 9 0)%nat ([unanswered seed_shared], named stale_url "ann") in
  stored_text after.2 "app" "value" = Some "Impresspress" /\ stored_text after.2 "app" "updated_by" = Some "ann".
Proof. by vm_compute. Qed.

(** *** An edit that lands between a boot's read and its write

    The boot read the row while nothing had claimed it; the administrator's
    rename is stored and acknowledged; then the boot writes the value of the
    environment.  The row keeps the administrator's name as its owner, so every
    later boot takes the value of the environment for an edit. *)
Definition racing_boot : list (prog (option (gmap string string))) :=
  [spawn boot_values (seed_and_load renaming_env);
   spawn (fun r => match r with Ok _ => Some ∅ | _ => None end)
     (handle_set_setting (setting_message "ann" app_name_key) (Ok "Chosen"))].
Definition race := run_schedule (replicate 2 0 ++ replicate 8 1 ++ replicate 12 0)%nat (racing_boot, named_by "").
Definition edit_acknowledged := run_schedule (replicate 2 0 ++ replicate 8 1)%nat (racing_boot, named_by "").
Definition finished (p : prog (option (gmap string string))) : bool :=
  match p with Done (Some _) => true | _ => false end.
Theorem boot_overwrites_a_concurrent_edit :
  rtc pool_step (racing_boot, named_by "") race /\
  finished <$> edit_acknowledged.1 !! 1%nat = Some true /\
  stored_text edit_acknowledged.2 "app" "value" = Some "Chosen" /\
  stored_text race.2 "app" "value" = Some "Theirs" /\ stored_text race.2 "app" "updated_by" = Some "ann".
Proof. split; [apply run_schedule_steps|]. by vm_compute. Qed.
