(* ===== verification/BootPrecedence.v ===== *)
(** * Which value a boot boots

    The precedence of the process environment, stored values and administrators'
    edits as a function on a table of entries, and its refinement: a boot that
    runs alone and whose calls do not fail leaves the table that the function
    says, beside secrets and the mark of the transition, and boots its values. *)
From Stdlib Require Import String.
From S2P Require Import Features.
From S2P Require Import Prelude Ints Str Contracts SampleLib Ssrf Wafer Records Effects Columns TableMachine MemoryDb Ghost Failures DbRead Crud Routing AuthRepo ConfigVars Variables VariableAdmin VariableSafety.

(** ** The contract *)
Record entry := { e_value : string; e_owner : string; e_flag : bool }.
#[export] Instance entry_eq_dec : EqDecision entry.
Proof. solve_decision. Defined.
Abbreviation table := (gmap string entry).

Section Precedence.
Context {CA : Catalogue}.

(** What an export makes of the entry of its key; [gate] once the transition has
    run. *)
Definition settle (gate : bool) (key value : string) (stored : option entry) : option entry :=
  match stored with
  | None => Some {| e_value := value; e_owner := ""; e_flag := is_sensitive_by_default_when_created key |}
  | Some e =>
      match pin_of_owner (e_owner e) with
      | Some _ => Some e
      | None =>
          if negb gate && is_empty (e_owner e) && negb (String.eqb (e_value e) value)
          then Some {| e_value := e_value e; e_owner := PRE_UPGRADE_SENTINEL; e_flag := e_flag e |}
          else Some {| e_value := value; e_owner := e_owner e; e_flag := e_flag e || is_sensitive_for_storage key |}
      end
  end.
Definition apply_export (gate : bool) (t : table) (export : string * string) : table :=
  if is_ok (check_env_export export.1 export.2) then partial_alter (settle gate export.1 export.2) export.1 t else t.
Definition settled (gate : bool) (env_vars : list (string * string)) (t : table) : table :=
  foldl (apply_export gate) t env_vars.
End Precedence.

(** Entries of some keys that had none, and that nobody owns. *)
Definition adds (keys : string -> Prop) (t t' : table) : Prop :=
  t ⊆ t' /\ forall k e, t' !! k = Some e -> t !! k = Some e \/ keys k /\ e_owner e = "".
#[export] Instance adds_preorder keys : PreOrder (adds keys).
Proof.
  split; [by intros t; split; [done|by left]|]. intros t1 t2 t3 [H12 N12] [H23 N23]. split; [by etrans|].
  intros k e [H|]%N23; [by apply N12|by right].
Qed.
Lemma adds_more (keys keys' : string -> Prop) t t' : (forall k, keys k -> keys' k) -> adds keys t t' -> adds keys' t t'.
Proof. intros Hk [Ht Hn]. split; [done|]. intros k e [?|[? ?]]%Hn; [by left|right; auto]. Qed.
Lemma adds_insert (keys : string -> Prop) t k e : keys k -> t !! k = None -> e_owner e = "" -> adds keys t (<[k := e]> t).
Proof.
  intros Hk Ht He. split; [by apply insert_subseteq|]. intros j f [[<- <-]|[_ ?]]%lookup_insert_Some; [by right|by left].
Qed.

(** ** Runs without interference and without failures *)
Section Alone.
Context {JN : JsonNumbers} {B : Backend}.

Definition succeeds {R} (c : call R) : R -> bool :=
  match c in call R return R -> bool with
  | ListRows _ _ _ => is_ok
  | Create _ _ | Update _ _ _ => is_ok
  | _ => fun _ => true
  end.
Fixpoint alone {A} (p : prog A) (s : state) (a : A) (s' : state) : Prop :=
  match p with
  | Done b => a = b /\ s' = s
  | Do c k => exists r s1, call_step c s r s1 /\ succeeds c r = true /\ alone (k r) s1 a s'
  end.

Lemma alone_bind {A C} (p : prog A) (f : A -> prog C) s c s' :
  alone (p ≫= f) s c s' -> exists a s1, alone p s a s1 /\ alone (f a) s1 c s'.
Proof.
  revert s. induction p as [a|R cl k IH]; intros s; [by exists a, s|].
  intros (r & s1 & Hc & Hs & Hk). destruct (IH r s1 Hk) as (a & s2 & Ha & Hf). exists a, s2. split; [|done]. by exists r, s1.
Qed.
Lemma alone_assoc {A C D} (p : prog A) (f : A -> prog C) (g : C -> prog D) s d s' :
  alone (p ≫= fun a => f a ≫= g) s d s' -> alone ((p ≫= f) ≫= g) s d s'.
Proof.
  revert s. induction p as [a|R c k IH]; intros s; [done|]. intros (r & s1 & Hc & Hs & Hk). exists r, s1. by split_and!; [..|apply IH].
Qed.
Lemma alone_try {E A C} (p : prog (outcome E A)) (f : A -> prog (outcome E C)) s r s' :
  alone (prog_try p f) s r s' ->
  exists o s1, alone p s o s1 /\
    match o with Ok a => alone (f a) s1 r s' | Err e => r = Err e /\ s' = s1 | Panic => r = Panic /\ s' = s1 end.
Proof. intros (o & s1 & Hp & Hf)%alone_bind. exists o, s1. split; [done|]. by destruct o. Qed.
Lemma alone_call {R} (c : call R) s r s' : alone (do_call c) s r s' -> call_step c s r s' /\ succeeds c r = true.
Proof. by intros (r' & s1 & Hc & Hs & -> & ->). Qed.
Lemma alone_telling {R} what (c : call (WResult R)) s o s' {ET : ErrorText} :
  alone (telling what c) s o s' -> exists r, call_step c s r s' /\ succeeds c r = true /\
    o = map_err (fun e => concat_chars [what; ": "; error_text e]) r.
Proof. intros (r & s1 & [Hc Hs]%alone_call & -> & ->)%alone_bind. by exists r. Qed.
Lemma alone_other {A} table (p : prog A) s a s' : avoids table p -> alone p s a s' -> rows s' table = rows s table.
Proof.
  revert s. induction p as [b|R c k IH]; intros s; [by intros _ [_ ->]|].
  intros [Hc Hk] (r & s1 & Hstep & _ & Hr). rewrite (IH r s1) by done. by eapply call_step_other.
Qed.
End Alone.

(** ** The table of entries that the rows store *)
Section Refinement.
Context {JN : JsonNumbers} {NL : JsonNumberLaws JN} {JS : JsonScalars JN} {B : Backend} {BL : BackendLaws B}.
Context {CA : Catalogue} {ET : ErrorText}.
Implicit Types (t : table) (s : state).

Definition entry_of (cols : columns) : entry := {|
  e_value := str_field (row_of "" cols) "value"; e_owner := str_field (row_of "" cols) "updated_by";
  e_flag := bool_field (row_of "" cols) "sensitive" |}.
Definition row_at s (id k : string) (cols : columns) : Prop :=
  rows s VARIABLES_TABLE !! id = Some cols /\ cols !! "key" = Some (VString k).
Definition stores s t : Prop :=
  (forall id cols, rows s VARIABLES_TABLE !! id = Some cols ->
     exists k, cols !! "key" = Some (VString k) /\ k <> "" /\ t !! k = Some (entry_of cols)) /\
  (forall k e, t !! k = Some e -> exists id cols, row_at s id k cols) /\
  (forall id id' k cols cols', row_at s id k cols -> row_at s id' k cols' -> id = id').

Lemma stores_same s s' t : rows s' VARIABLES_TABLE = rows s VARIABLES_TABLE -> stores s t -> stores s' t.
Proof. unfold stores, row_at. by intros ->. Qed.
Lemma stores_entry s t id k cols : stores s t -> row_at s id k cols -> k <> "" /\ t !! k = Some (entry_of cols).
Proof. intros [H _] [Hr Hk]. destruct (H id cols Hr) as (k' & Hk' & ? & ?). rewrite Hk in Hk'. by injection Hk' as <-. Qed.

(** A row is written over one of its key, or is new. *)
Lemma stores_insert s t id k cols :
  stores s t -> cols !! "key" = Some (VString k) -> k <> "" ->
  (exists old, row_at s id k old) \/ rows s VARIABLES_TABLE !! id = None /\ t !! k = None ->
  stores (set_rows s VARIABLES_TABLE (<[id := cols]> (rows s VARIABLES_TABLE))) (<[k := entry_of cols]> t).
Proof.
  intros Hs Hk Hne Hold. pose proof Hs as (H1 & H2 & H3).
  assert (forall j cj, j <> id -> row_at s j k cj -> False) as Hother.
  { intros j cj Hj Hat. destruct Hold as [[old Ho]|[_ Hn]]; [by apply Hj, (H3 j id k cj old)|].
    destruct (stores_entry _ _ _ _ _ Hs Hat) as [_ ?]. congruence. }
  assert (forall j kj cj, row_at (set_rows s VARIABLES_TABLE (<[id := cols]> (rows s VARIABLES_TABLE))) j kj cj <->
            j = id /\ kj = k /\ cj = cols \/ j <> id /\ row_at s j kj cj) as Hat.
  { intros j kj cj. unfold row_at. rewrite rows_set_rows. destruct (decide (j = id)) as [->|Hj].
    - rewrite lookup_insert_eq. split; [intros [[= <-] Hkj]; left; split_and!; congruence|].
      by intros [(_ & -> & ->)|[? _]].
    - rewrite lookup_insert_ne by done. split; [by right|by intros [[? _]|[_ ?]]]. }
  split_and!.
  - intros j cj. rewrite rows_set_rows. destruct (decide (j = id)) as [->|Hj].
    + rewrite lookup_insert_eq. intros [= <-]. exists k. by rewrite lookup_insert_eq.
    + rewrite lookup_insert_ne by done. intros Hr. destruct (H1 j cj Hr) as (kj & Hkj & Hnj & Ht).
      exists kj. do 2 (split; [done|]). rewrite lookup_insert_ne; [done|]. intros <-. by apply (Hother j cj).
  - intros kj e. destruct (decide (kj = k)) as [->|Hkj].
    + intros _. exists id, cols. apply Hat. by left.
    + rewrite lookup_insert_ne by done. intros (j & cj & Hj)%H2. exists j, cj. apply Hat. right. split; [|done].
      intros ->. destruct Hold as [[old [Ho Hok]]|[Hn _]]; destruct Hj as [Hj Hjk]; congruence.
  - intros j j' kj cj cj' [(-> & -> & ->)|[Hj Hj1]]%Hat [(-> & Hk' & ->)|[Hj' Hj2]]%Hat; [done|..].
    + exfalso. by apply (Hother j' cj').
    + subst kj. exfalso. by apply (Hother j cj).
    + by eapply H3.
Qed.

(** *** Reading *)
Definition row_is s (key : string) (row : VariableRow) : Prop :=
  va_key row = key /\ exists cols, row_at s (va_id row) key cols /\
    entry_of cols = {| e_value := va_value row; e_owner := va_updated_by row; e_flag := va_sensitive row |}.
Lemma from_row_at s id k cols :
  row_at s id k cols -> k <> "" -> exists row, variable_from_record (row_of id cols) = Ok row /\ row_is s k row /\ va_id row = id.
Proof.
  intros [Hr Hk] Hne. unfold variable_from_record.
  assert (str_field (row_of id cols) "key" = k) as -> by (unfold str_field; simpl; by rewrite Hk).
  destruct k as [|a k]; [done|]. cbn [is_empty String.eqb]. eexists. split; [reflexivity|]. split; [|done].
  split; [done|]. exists cols. by split.
Qed.

Lemma alone_find_by_key s t key o s' :
  stores s t -> alone (find_by_key key) s o s' ->
  s' = s /\ match t !! key with
            | None => o = Ok None
            | Some e => exists row, o = Ok (Some row) /\ row_is s key row
            end.
Proof.
  intros Hs (r & s1 & (r' & Hstep & Hsucc & ->)%alone_telling & Hf)%alone_try.
  destruct Hstep as [-> [(e & -> & _)|(l & -> & Hall & _ & Hlen)]]; [done|]. destruct Hf as [-> ->]. split; [done|].
  destruct (t !! key) as [e|] eqn:Ht.
  - destruct Hs as (H1 & H2 & _). destruct (H2 key e Ht) as (id & cols & Hat). pose proof Hat as [Hr Hk].
    assert (0 < count_rows [variable_key_filter key] (rows s VARIABLES_TABLE)) as Hpos.
    { apply count_rows_some. exists id, cols. split; [done|]. by rewrite (matches_key_filter _ _ _ _ Hk), String.eqb_refl. }
    destruct l as [|[i c] l]; [simpl in Hlen; lia|]. apply Forall_cons in Hall as [[Hri Hm] _]. cbn [row_id row_data] in *.
    destruct (H1 i c Hri) as (k & Hki & Hne & _). rewrite (matches_key_filter _ _ _ _ Hki), String.eqb_eq in Hm. subst k.
    destruct (from_row_at s i key c) as (row & Hrow & His & _); [done..|]. exists row. split; [|done].
    simpl. change {| row_id := i; row_data := c |} with (row_of i c). by rewrite Hrow.
  - destruct l as [|[i c] l]; [done|]. apply Forall_cons in Hall as [[Hri Hm] _]. cbn [row_id row_data] in *.
    destruct Hs as (H1 & _). destruct (H1 i c Hri) as (k & Hki & _ & Htk).
    rewrite (matches_key_filter _ _ _ _ Hki), String.eqb_eq in Hm. congruence.
Qed.
Lemma row_is_entry s t key row :
  stores s t -> row_is s key row ->
  t !! key = Some {| e_value := va_value row; e_owner := va_updated_by row; e_flag := va_sensitive row |}.
Proof. intros Hs (_ & cols & Hat & <-). by eapply stores_entry. Qed.

(** *** Writing *)
Definition patch_entry (patch : VariablePatch) (e : entry) : entry := {|
  e_value := default (e_value e) (vp_value patch); e_owner := default (e_owner e) (vp_updated_by patch);
  e_flag := default (e_flag e) (vp_sensitive patch) |}.

Lemma flag_column_set b : flag_is_set (flag_column b) = b.
Proof. unfold flag_column, json_i64. cbn [flag_is_set]. rewrite number_i64_roundtrip by by destruct b. by destruct b. Qed.
Lemma entry_overlay patch data cols : patched patch data -> entry_of (overlay data cols) = patch_entry patch (entry_of cols).
Proof.
  intros (_ & Hv & Hw & Hf). unfold entry_of, patch_entry, str_field, bool_field. cbn [row_of row_data e_value e_owner e_flag].
  rewrite !overlay_lookup, Hv, Hw, Hf. f_equal; [by destruct (vp_value patch)|by destruct (vp_updated_by patch)|].
  destruct (vp_sensitive patch) as [b|]; simpl; [apply flag_column_set|done].
Qed.

(** Writing over the row of a key. *)
Lemma step_update s t id k cols patch data r s' :
  stores s t -> row_at s id k cols -> patched patch data -> is_ok r = true ->
  call_step (Update VARIABLES_TABLE id data) s r s' ->
  stores s' (<[k := patch_entry patch (entry_of cols)]> t) /\
  forall j kj cj, row_at s j kj cj -> exists cj', row_at s' j kj cj'.
Proof.
  intros Hs Hat Hp Hok Hstep. cbn [call_step] in Hstep. pose proof Hat as [Hr Hk]. rewrite Hr in Hstep.
  destruct Hstep as [[(e & -> & _) _]|[-> ->]]; [done|]. rewrite <- (entry_overlay patch data cols Hp).
  destruct (stores_entry _ _ _ _ _ Hs Hat) as [Hne _].
  assert (overlay data cols !! "key" = Some (VString k)) as Hk' by (destruct Hp as (Hd & _); by rewrite overlay_lookup, Hd).
  split; [by apply stores_insert; [..|left; exists cols]|].
  intros j kj cj [Hj Hkj]. unfold row_at. rewrite rows_set_rows. destruct (decide (j = id)) as [->|Hne'].
  - exists (overlay data cols). rewrite lookup_insert_eq. split; [done|]. by rewrite Hr in Hj; injection Hj as <-; rewrite Hk in Hkj; injection Hkj as <-.
  - exists cj. by rewrite lookup_insert_ne.
Qed.
Lemma alone_to_update_data patch s data s' : alone (to_update_data patch) s data s' -> s' = s /\ patched patch data.
Proof. intros (now & s1 & [-> _]%alone_call & -> & ->)%alone_bind. split; [done|]. apply patched_columns. Qed.

Lemma step_create s t row r s' :
  stores s t -> va_key row <> "" -> t !! va_key row = None -> is_ok r = true ->
  call_step (Create VARIABLES_TABLE (variable_to_data row)) s r s' ->
  stores s' (<[va_key row := {| e_value := va_value row; e_owner := va_updated_by row; e_flag := va_sensitive row |}]> t).
Proof.
  intros Hs Hne Ht Hok [[_ [e ->]]|(id & cols & Hfree & Hsub & _ & -> & _)]; [done|].
  destruct (variable_to_data_columns row) as (_ & Hk & Hv & Hw & Hf).
  replace {| e_value := va_value row; e_owner := va_updated_by row; e_flag := va_sensitive row |} with (entry_of cols).
  - apply stores_insert; [done|by eapply lookup_weaken|done|by right].
  - unfold entry_of, str_field, bool_field. cbn [row_of row_data].
    rewrite (lookup_weaken _ _ _ _ Hv Hsub), (lookup_weaken _ _ _ _ Hw Hsub), (lookup_weaken _ _ _ _ Hf Hsub).
    f_equal. apply flag_column_set.
Qed.
Lemma alone_into_row new s t row s' :
  stores s t -> alone (into_row new) s row s' ->
  stores s' t /\ va_key row = nv_key new /\ va_value row = nv_value new /\ va_updated_by row = nv_updated_by new /\
  va_sensitive row = nv_sensitive new || is_sensitive_for_storage (nv_key new).
Proof.
  intros Hs H. assert (rows s' VARIABLES_TABLE = rows s VARIABLES_TABLE) as Hrows.
  { eapply alone_other; [|exact H]. unfold into_row, now_rfc3339. avoid. }
  split; [by eapply stores_same|]. apply alone_bind in H as (now & s1 & _ & H). by apply alone_bind in H as (uuid & s2 & _ & -> & _).
Qed.

(** *** The loop of the environment *)
Lemma partial_alter_some (f : option entry -> option entry) k t e : f (t !! k) = Some e -> partial_alter f k t = <[k := e]> t.
Proof.
  intros Hf. apply map_eq. intros j. destruct (decide (j = k)) as [->|Hne].
  - by rewrite lookup_partial_alter_eq, lookup_insert_eq.
  - by rewrite lookup_partial_alter_ne, lookup_insert_ne by done.
Qed.

Lemma alone_set_with_row s t key value existing o s' :
  stores s t -> key <> "" ->
  (match existing with Some row => row_is s key row | None => t !! key = None end) ->
  alone (set_with_row key value "" "" None None existing) s o s' ->
  stores s' (<[key := match existing with
                      | Some row => {| e_value := value; e_owner := va_updated_by row;
                                       e_flag := va_sensitive row || is_sensitive_for_storage key |}
                      | None => {| e_value := value; e_owner := ""; e_flag := is_sensitive_by_default_when_created key |}
                      end]> t).
Proof.
  intros Hs Hne Hex. destruct existing as [row|]; cbn [set_with_row].
  - pose proof (row_is_entry s t key row Hs Hex) as Ht.
    assert (forall patch w, patch_entry patch {| e_value := va_value row; e_owner := va_updated_by row; e_flag := va_sensitive row |} =
        {| e_value := value; e_owner := va_updated_by row; e_flag := va_sensitive row || is_sensitive_for_storage key |} ->
      alone (data ← to_update_data patch; _ ←? telling (concat_chars ["update variable `"; key; "`"]) (Update VARIABLES_TABLE (va_id row) data); Done (Ok w) : prog (outcome string Wrote)) s o s' ->
      stores s' (<[key := {| e_value := value; e_owner := va_updated_by row; e_flag := va_sensitive row || is_sensitive_for_storage key |}]> t)) as Hwrite.
    { intros patch w <- (data & s2 & [-> Hp]%alone_to_update_data & H)%alone_bind.
      apply alone_try in H as (o' & s3 & (r & Hstep & Hsucc & ->)%alone_telling & Hrest).
      destruct Hex as (_ & cols & Hat & <-). destruct (step_update s t _ key cols _ data r s3 Hs Hat Hp Hsucc Hstep) as [Hs' _].
      assert (s' = s3) as -> by (destruct r; by destruct Hrest). done. }
    destruct (String.eqb_spec (va_value row) value) as [Hval|Hval]; cbn [negb andb default];
      destruct (is_sensitive_for_storage key) eqn:Hsecret, (va_sensitive row) eqn:Hflag; cbn [negb andb orb] in *;
      try (apply Hwrite; unfold patch_entry; simpl; by rewrite ?Hval).
    all: intros [_ ->]; by rewrite insert_id by (rewrite Ht; by rewrite Hval).
  - intros (row & s1 & Hrow & H)%alone_bind. apply (alone_into_row _ _ t) in Hrow as (Hs1 & Hk & Hv & Hw & Hf); [|done].
    cbn [into_new nv_key nv_value nv_updated_by nv_sensitive vp_value vp_updated_by vp_sensitive default] in *.
    apply alone_try in H as (o' & s2 & (r & Hstep & Hsucc & ->)%alone_telling & Hrest).
    assert (s' = s2) as -> by (destruct r; by destruct Hrest). apply (step_create s1 t) in Hstep; [|congruence..|done].
    rewrite Hk, Hv, Hw, Hf in Hstep. replace (is_sensitive_by_default_when_created key) with
      (is_sensitive_by_default_when_created key || is_sensitive_for_storage key); [done|].
    unfold is_sensitive_by_default_when_created. by destruct (is_sensitive_for_storage key), (is_declared_key key).
Qed.

Lemma alone_seed_row s t gate key value existing s' :
  stores s t -> key <> "" ->
  (match existing with Some row => row_is s key row | None => t !! key = None end) ->
  alone (seed_row gate key value existing) s tt s' ->
  stores s' (partial_alter (settle gate key value) key t).
Proof.
  intros Hs Hne Hex H.
  assert (forall o s1 e, alone (set_with_row key value "" "" None None existing) s o s1 ->
    settle gate key value (t !! key) = Some e ->
    e = match existing with
        | Some row => {| e_value := value; e_owner := va_updated_by row; e_flag := va_sensitive row || is_sensitive_for_storage key |}
        | None => {| e_value := value; e_owner := ""; e_flag := is_sensitive_by_default_when_created key |} end ->
    stores s1 (partial_alter (settle gate key value) key t)) as Hset.
  { intros o s1 e Ho He ->. rewrite (partial_alter_some _ _ _ _ He). by eapply alone_set_with_row. }
  destruct existing as [row|].
  - pose proof (row_is_entry s t key row Hs Hex) as Ht. cbn [seed_row] in H. unfold is_pinned in H.
    unfold pin_of, is_unclaimed in H.
    destruct (pin_of_owner (va_updated_by row)) as [pin|] eqn:Hpin.
    + rewrite bool_decide_true in H by done. destruct H as [_ ->].
      rewrite (partial_alter_some _ _ _ {| e_value := va_value row; e_owner := va_updated_by row; e_flag := va_sensitive row |}).
      * by rewrite insert_id.
      * rewrite Ht. cbn [settle e_owner]. by rewrite Hpin.
    + rewrite bool_decide_false in H by (intros Hn; by apply Hn). destruct (negb gate && is_empty (va_updated_by row) && _) eqn:Hpinit.
      * apply alone_bind in H as (b & s1 & H & _ & ->). apply alone_bind in H as (data & s2 & [-> Hp]%alone_to_update_data & H).
        apply alone_bind in H as (r & s3 & [Hstep Hsucc]%alone_call & _ & ->).
        destruct Hex as (_ & cols & Hat & Hent). destruct (step_update s t _ key cols _ data r s3 Hs Hat Hp Hsucc Hstep) as [Hs' _].
        rewrite Hent in Hs'. erewrite partial_alter_some; [exact Hs'|]. rewrite Ht. cbn [settle e_owner e_value e_flag].
        by rewrite Hpin, Hpinit.
      * apply alone_bind in H as (o & s1 & H & _ & ->). eapply Hset; [exact H| |reflexivity]. rewrite Ht.
        cbn [settle e_owner e_value e_flag]. by rewrite Hpin, Hpinit.
  - cbn [seed_row] in H. apply alone_bind in H as (o & s1 & H & _ & ->). eapply Hset; [exact H| |reflexivity]. by rewrite Hex.
Qed.

Lemma alone_seed_env s t gate env_vars s' :
  stores s t -> Forall (fun export => export.1 <> "") env_vars -> alone (seed_env gate env_vars) s tt s' ->
  stores s' (settled gate env_vars t).
Proof.
  intros Hs Hne. revert s t Hs. induction Hne as [|[key value] env_vars Hkey _ IH]; intros s t Hs; [by intros [_ ->]|].
  cbn [seed_env]. intros ([] & s1 & H & Hrest)%alone_bind. cbn [settled foldl]. apply (IH s1); [|done].
  unfold apply_export. cbn [fst snd]. unfold seed_export in H. destruct (check_env_export key value); cbn [is_ok]; [|by destruct H as [_ ->]..].
  apply alone_bind in H as (o & s2 & Hfind & H). destruct (alone_find_by_key s t key o s2 Hs Hfind) as [-> Ho].
  destruct (t !! key) as [e|] eqn:Ht.
  - destruct Ho as (row & -> & Hrow). by apply (alone_seed_row s t gate key value (Some row)).
  - subst o. by apply (alone_seed_row s t gate key value None).
Qed.

(** *** Seeds of keys that have no entry *)
Definition grows (keys : string -> Prop) {A} (p : prog A) : Prop :=
  forall s a s' t, stores s t -> alone p s a s' -> exists t', stores s' t' /\ adds keys t t'.
Lemma grows_then keys {A C} (p : prog A) (f : A -> prog C) : grows keys p -> (forall a, grows keys (f a)) -> grows keys (p ≫= f).
Proof.
  intros Hp Hf s c s' t Hs (a & s1 & Ha & Hc)%alone_bind. destruct (Hp _ _ _ _ Hs Ha) as (t1 & Hs1 & H1).
  destruct (Hf a _ _ _ _ Hs1 Hc) as (t2 & Hs2 & H2). exists t2. split; [done|by etrans].
Qed.
Lemma grows_aside keys {A} (p : prog A) : avoids VARIABLES_TABLE p -> grows keys p.
Proof. intros Hp s a s' t Hs H. exists t. split; [|done]. eapply stores_same; [by eapply alone_other|done]. Qed.
Lemma grows_done keys {A} (a : A) : grows keys (Done a).
Proof. by apply grows_aside. Qed.
Lemma grows_try keys {E A C} (p : prog (outcome E A)) (f : A -> prog (outcome E C)) :
  grows keys p -> (forall a, grows keys (f a)) -> grows keys (prog_try p f).
Proof. intros Hp Hf. apply grows_then; [done|]. intros [a|e|]; [apply Hf|apply grows_done..]. Qed.

Lemma alone_seed_absent s t new o s' :
  nv_key new <> "" -> nv_updated_by new = "" -> stores s t -> alone (row ← into_row new; insert_if_absent row) s o s' ->
  exists t', stores s' t' /\ adds (eq (nv_key new)) t t' /\ is_Some (t' !! nv_key new).
Proof.
  intros Hne Howner Hs (row & s1 & Hrow & H)%alone_bind. apply (alone_into_row _ _ t) in Hrow as (Hs1 & Hk & _ & Hw & _); [|done].
  unfold insert_if_absent in H. apply alone_try in H as (found & s2 & Hfind & H).
  destruct (alone_find_by_key s1 t _ found s2 Hs1 Hfind) as [-> Hfound]. rewrite Hk in Hfound. destruct (t !! nv_key new) as [e|] eqn:Ht.
  - destruct Hfound as (old & -> & _). destruct H as [_ ->]. by exists t.
  - subst found. apply alone_try in H as (o' & s3 & (r & Hstep & Hsucc & ->)%alone_telling & Hrest).
    assert (s' = s3) as -> by (destruct r; by destruct Hrest). apply (step_create s1 t) in Hstep; [|congruence..|done].
    rewrite Hk in Hstep. eexists. split; [exact Hstep|]. rewrite lookup_insert_eq. split; [|done].
    apply adds_insert; [done..|]. simpl. congruence.
Qed.
Lemma grows_seed_absent (keys : string -> Prop) new :
  keys (nv_key new) -> nv_key new <> "" -> nv_updated_by new = "" -> grows keys (row ← into_row new; insert_if_absent row).
Proof.
  intros Hk Hne Howner s o s' t Hs H. destruct (alone_seed_absent s t new o s' Hne Howner Hs H) as (t' & Hs' & Ha & _).
  exists t'. split; [done|]. eapply adds_more; [|exact Ha]. by intros k <-.
Qed.

Definition auto_generated (key : string) : Prop := exists block vars var,
  (block, vars) ∈ all_block_infos /\ var ∈ vars /\ cv_auto_generate var = true /\ cv_key var = key.
Definition seeded_at_boot (key : string) : Prop :=
  key = ENV_PRECEDENCE_TRANSITION_KEY \/ key = JWT_SECRET_KEY \/ auto_generated key.

Lemma grows_random keys : grows keys random_hex_secret.
Proof. apply grows_aside. unfold random_hex_secret. avoid. Qed.
Lemma grows_secrets (keys : string -> Prop) block vars :
  Forall (fun var => cv_auto_generate var = true -> keys (cv_key var) /\ cv_key var <> "") vars -> grows keys (seed_secrets block vars).
Proof.
  induction 1 as [|var vars Hvar _ IH]; [apply grows_done|]. cbn [seed_secrets].
  destruct (cv_auto_generate var); cbn [negb]; [|exact IH]. destruct (Hvar eq_refl) as [Hk Hne].
  apply grows_then; [|done]. apply grows_try; [apply grows_random|]. intros secret. by apply grows_seed_absent.
Qed.
Lemma grows_auto_generated : (forall key, auto_generated key -> key <> "") -> grows seeded_at_boot seed_auto_generated.
Proof.
  intros Hne. assert (forall infos, (forall info, info ∈ infos -> info ∈ all_block_infos) -> grows seeded_at_boot (seed_blocks infos)) as H.
  { induction infos as [|[block vars] infos IH]; intros Hin; [apply grows_done|]. cbn [seed_blocks].
    apply grows_then; [|intros _; apply IH; intros info Hi; apply Hin; by right].
    apply grows_secrets, Forall_forall. intros var Hvar Hauto.
    assert (auto_generated (cv_key var)) as Ha by (exists block, vars, var; split_and!; [apply Hin; by left|done..]).
    split; [by right; right|by apply Hne]. }
  by apply H.
Qed.
Lemma grows_jwt_secret : grows seeded_at_boot seed_jwt_secret.
Proof.
  apply grows_then; [apply grows_random|]. intros [secret|e|]; [|apply grows_done..].
  intros s a s' t Hs H. apply alone_assoc, alone_bind in H as (o & s1 & H & _ & ->).
  eapply (grows_seed_absent seeded_at_boot); [..|exact Hs|exact H]; [by right; left|done..].
Qed.

(** *** Reading the table back *)
Lemma stores_count s t : stores s t -> count_rows [] (rows s VARIABLES_TABLE) = Z.of_nat (size t).
Proof.
  intros (H1 & H2 & H3). unfold count_rows. rewrite map_filter_id by done.
  set (key_of := fun p : string * columns => str_field (row_of p.1 p.2) "key").
  assert (forall id k cols, row_at s id k cols -> key_of (id, cols) = k) as Hkey.
  { intros id k cols [_ Hk]. unfold key_of, str_field. simpl. by rewrite Hk. }
  rewrite <- (length_map_to_list (rows s VARIABLES_TABLE)), <- (length_fmap key_of), <- size_dom.
  assert (NoDup (key_of <$> map_to_list (rows s VARIABLES_TABLE))) as Hnd.
  { apply (NoDup_fmap_2_strong key_of); [|apply NoDup_map_to_list]. intros [i ci] [j cj] Hi%elem_of_map_to_list Hj%elem_of_map_to_list Heq.
    destruct (H1 i ci Hi) as (k & Hk & _), (H1 j cj Hj) as (k' & Hk' & _).
    rewrite (Hkey i k ci), (Hkey j k' cj) in Heq by done. subst k'.
    assert (i = j) as -> by by eapply H3. congruence. }
  rewrite <- (size_list_to_set (C := gset string)) by done. do 2 f_equal. apply set_eq. intros k.
  rewrite elem_of_list_to_set, list_elem_of_fmap, elem_of_dom. split.
  - intros ([id cols] & -> & Hr%elem_of_map_to_list). destruct (H1 id cols Hr) as (k & Hk & _ & Ht). rewrite (Hkey id k cols) by done. by eexists.
  - intros [e (id & cols & Hat)%H2]. exists (id, cols). split; [symmetry; by apply Hkey|]. apply elem_of_map_to_list, Hat.
Qed.

(** What a row that was read says of the entry of its key. *)
Definition loaded_from s t (loaded : LoadedRow) : Prop :=
  let row := lr_row loaded in exists cols e,
    row_at s (va_id row) (va_key row) cols /\ t !! va_key row = Some e /\ e_value e = va_value row /\
    (lr_flag_is_canonical_one loaded = true -> e_flag e = true).
Lemma loaded_row_from s t id cols :
  stores s t -> rows s VARIABLES_TABLE !! id = Some cols ->
  exists k loaded, cols !! "key" = Some (VString k) /\ loaded_row (row_of id cols) = Some loaded /\ va_key (lr_row loaded) = k /\ loaded_from s t loaded.
Proof.
  intros Hs Hr. destruct (proj1 Hs id cols Hr) as (k & Hk & Hne & Ht). assert (row_at s id k cols) as Hat by done.
  destruct (from_row_at s id k cols Hat Hne) as (row & Hrow & [Hkey (cols' & [Hr' Hk'] & He)] & Hid).
  eexists k, _. split; [done|]. unfold loaded_row. rewrite Hrow. split; [reflexivity|]. cbn [lr_row lr_flag_is_canonical_one]. split; [done|].
  exists cols, (entry_of cols). cbn [lr_row lr_flag_is_canonical_one]. rewrite Hid, Hkey. split; [done|]. split; [done|].
  rewrite Hid in Hr'. assert (cols' = cols) as -> by congruence. split; [by rewrite He|].
  rewrite bool_decide_eq_true. unfold entry_of, bool_field. cbn [row_of row_data e_flag].
  destruct (cols !! "sensitive") as [v|]; [|done]. simpl. destruct v; try done. simpl. by intros ->.
Qed.

Lemma alone_load_rows s t o s' :
  stores s t -> alone load_rows s o s' -> s' = s /\
  (Z.of_nat (size t) < FULL_LIMIT_THRESHOLD -> exists l, o = Ok l /\ Forall (loaded_from s t) l /\
     forall k, is_Some (t !! k) -> k ∈ (fun loaded => va_key (lr_row loaded)) <$> l) /\
  (FULL_LIMIT_THRESHOLD <= Z.of_nat (size t) -> exists e, o = Err e).
Proof.
  intros Hs (r & s1 & (listed & s2 & [Hstep Hsucc]%alone_call & -> & ->)%alone_bind & -> & ->)%alone_bind.
  destruct Hstep as [-> [(e & -> & _)|(l & -> & Hall & Hnd & Hlen)]]; [done|]. split; [done|].
  change (Z.of_nat (Z.to_nat FULL_LIMIT_THRESHOLD)) with FULL_LIMIT_THRESHOLD in Hlen. rewrite (stores_count s t Hs) in Hlen.
  cbn zeta. destruct (Z.leb_spec FULL_LIMIT_THRESHOLD (Z.of_nat (length l))) as [Hfull|Hlt]; split; intros Hsize; try lia; [by eexists|].
  assert (Forall (fun row => rows s VARIABLES_TABLE !! row_id row = Some (row_data row)) l) as Hin.
  { eapply Forall_impl; [exact Hall|]. by intros row [? _]. }
  eexists. split; [reflexivity|]. split.
  - apply Forall_forall. intros loaded ([id cols] & Hrec & Hrow)%list_elem_of_omap. rewrite Forall_forall in Hin.
    destruct (loaded_row_from s t id cols Hs (Hin _ Hrec)) as (k & loaded' & _ & Hl & _ & Hfrom).
    change {| row_id := id; row_data := cols |} with (row_of id cols) in Hrow. congruence.
  - intros k [e (id & cols & Hr & Hk)%(proj1 (proj2 Hs))]. destruct (loaded_row_from s t id cols Hs Hr) as (k' & loaded & Hk' & Hl & Hkey & _).
    apply list_elem_of_fmap. exists loaded. split; [congruence|]. apply list_elem_of_omap. exists (row_of id cols). split; [|done].
    apply (listed_all _ _ Hin Hnd); [|done]. rewrite (stores_count s t Hs). lia.
Qed.

Lemma key_values_stored s t l :
  Forall (loaded_from s t) l -> (forall k, is_Some (t !! k) -> k ∈ (fun loaded => va_key (lr_row loaded)) <$> l) ->
  key_values l = e_value <$> t.
Proof.
  intros Hl Hall. apply map_eq. intros k. rewrite lookup_fmap.
  assert ((forall v, key_values l !! k = Some v -> e_value <$> t !! k = Some v) /\
          (k ∈ (fun loaded => va_key (lr_row loaded)) <$> l -> is_Some (key_values l !! k))) as [Hv Hk].
  { clear Hall. unfold key_values, collect_map. induction l as [|loaded l IH] using rev_ind.
    - split; [intros v; cbn [map foldl]; by rewrite lookup_empty|by intros ?%elem_of_nil].
    - apply Forall_app in Hl as [Hl [(cols & e & _ & Ht & He & _) _]%Forall_cons]. destruct (IH Hl) as [IH1 IH2].
      rewrite map_app, foldl_app. cbn [map foldl fst snd]. destruct (decide (va_key (lr_row loaded) = k)) as [<-|Hne].
      + rewrite lookup_insert_eq, Ht. split; [intros v [= <-]; simpl; by rewrite He|by eexists].
      + rewrite lookup_insert_ne by done. split; [done|]. rewrite fmap_app, elem_of_app.
        intros [?|Hin%list_elem_of_singleton]; [by apply IH2|by destruct Hne]. }
  destruct (t !! k) as [e|] eqn:Ht.
  - destruct (Hk (Hall k (ex_intro _ e Ht))) as [v Hkv]. rewrite Hkv. symmetry. by apply Hv.
  - destruct (key_values l !! k) as [v|] eqn:Hkv; [|done]. by specialize (Hv v eq_refl).
Qed.

(** *** The repair of the flags *)
Definition flag_raised (key : string) (e : entry) : entry :=
  {| e_value := e_value e; e_owner := e_owner e; e_flag := e_flag e || is_sensitive_for_storage key |}.
Definition flagged t : table := map_imap (fun key e => Some (flag_raised key e)) t.

Lemma alone_repair_row s t loaded s' :
  stores s t -> loaded_from s t loaded -> alone (repair_row loaded) s tt s' ->
  let t' := alter (flag_raised (va_key (lr_row loaded))) (va_key (lr_row loaded)) t in
  stores s' t' /\ forall other, loaded_from s t other -> loaded_from s' t' other.
Proof.
  intros Hs (cols & e & Hat & Ht & Hv & Hcanonical) H t'. set (k := va_key (lr_row loaded)) in *.
  assert (t' = <[k := flag_raised k e]> t) as -> by (subst t'; apply partial_alter_some; by rewrite Ht).
  assert (forall s1, (forall j kj cj, row_at s j kj cj -> exists cj', row_at s1 j kj cj') -> forall other, loaded_from s t other ->
    loaded_from s1 (<[k := flag_raised k e]> t) other) as Hother.
  { intros s1 Hrows other (cj & f & Hatj & Htj & Hvj & Hcj). destruct (Hrows _ _ _ Hatj) as [cj' Hatj'].
    destruct (decide (va_key (lr_row other) = k)) as [Heq|Hne].
    - exists cj', (flag_raised k f). assert (f = e) as -> by congruence. rewrite Heq, lookup_insert_eq.
      split; [by rewrite Heq in Hatj'|]. do 2 (split; [done|]). intros Hc. simpl. by rewrite (Hcj Hc).
    - exists cj', f. by rewrite lookup_insert_ne by done. }
  unfold repair_row in H. cbv zeta in H. fold k in H.
  destruct (is_sensitive_for_storage k) eqn:Hsecret; cbn [negb orb] in H; [destruct (lr_flag_is_canonical_one loaded) eqn:Hone|].
  - destruct H as [_ ->]. split; [|apply Hother; by eauto]. rewrite insert_id; [done|]. rewrite Ht. f_equal. unfold flag_raised.
    specialize (Hcanonical eq_refl). destruct e; simpl in *. by rewrite Hcanonical.
  - apply alone_bind in H as (data & s1 & [-> Hp]%alone_to_update_data & H). apply alone_bind in H as (r & s2 & [Hstep Hsucc]%alone_call & _ & ->).
    destruct (step_update s t _ k cols _ data r s2 Hs Hat Hp Hsucc Hstep) as [Hs' Hrows]. split; [|by apply Hother].
    destruct (stores_entry _ _ _ _ _ Hs Hat) as [_ He]. assert (e = entry_of cols) as -> by congruence.
    replace (flag_raised k (entry_of cols)) with (patch_entry {| vp_value := None; vp_name := None; vp_description := None; vp_warning := None;
      vp_sensitive := Some true; vp_updated_by := None |} (entry_of cols)); [done|].
    unfold flag_raised, patch_entry. simpl. by rewrite Hsecret, orb_true_r.
  - destruct H as [_ ->]. split; [|apply Hother; by eauto]. rewrite insert_id; [done|]. rewrite Ht. f_equal. unfold flag_raised.
    rewrite Hsecret, orb_false_r. by destruct e.
Qed.

Lemma alone_repair s t l s' :
  stores s t -> Forall (loaded_from s t) l -> (forall k, is_Some (t !! k) -> k ∈ (fun loaded => va_key (lr_row loaded)) <$> l) ->
  alone (repair_sensitive_flags_in l) s tt s' -> stores s' (flagged t).
Proof.
  assert (forall t0 s t, (forall k, t0 !! k = t !! k \/ flag_raised k <$> t0 !! k = t !! k) -> stores s t -> Forall (loaded_from s t) l ->
    (forall k, is_Some (t0 !! k) -> k ∈ (fun loaded => va_key (lr_row loaded)) <$> l \/ flag_raised k <$> t0 !! k = t !! k) ->
    alone (repair_sensitive_flags_in l) s tt s' -> stores s' (flagged t0)) as Hloop.
  2: { intros Hs Hl Hall H. apply (Hloop t s t); [by left|done|done| |done]. intros k Hk. left. by apply Hall. }
  clear s t. induction l as [|loaded l IH]; intros t0 s t Hsame Hs Hl Hall.
  - intros [_ ->]. replace (flagged t0) with t; [done|]. apply map_eq. intros k. unfold flagged. rewrite map_lookup_imap.
    destruct (t0 !! k) as [e|] eqn:Hk.
    + destruct (Hall k ltac:(by eexists)) as [?%elem_of_nil|Hr]; [done|]. by rewrite <- Hr, Hk.
    + destruct (Hsame k) as [Hr|Hr]; by rewrite <- Hr, Hk.
  - cbn [repair_sensitive_flags_in]. intros ([] & s1 & Hrow & H)%alone_bind. apply Forall_cons in Hl as [Hloaded Hl].
    destruct (alone_repair_row s t loaded s1 Hs Hloaded Hrow) as [Hs1 Hothers].
    assert (forall k e, flag_raised k (flag_raised k e) = flag_raised k e) as Hidem.
    { intros k e. unfold flag_raised. simpl. f_equal. by destruct (e_flag e), (is_sensitive_for_storage k). }
    assert (forall k, flag_raised k <$> t0 !! k = t !! k \/ k = va_key (lr_row loaded) ->
      flag_raised k <$> t0 !! k = alter (flag_raised (va_key (lr_row loaded))) (va_key (lr_row loaded)) t !! k) as Hraised.
    { intros k Hk. destruct (decide (k = va_key (lr_row loaded))) as [->|Hne].
      - rewrite lookup_alter_eq. destruct (Hsame (va_key (lr_row loaded))) as [<-|<-]; [done|].
        destruct (t0 !! va_key (lr_row loaded)); simpl; [by rewrite Hidem|done].
      - rewrite lookup_alter_ne by done. by destruct Hk. }
    eapply (IH t0 s1 _); [..|exact H].
    + intros k. destruct (decide (k = va_key (lr_row loaded))) as [->|Hne]; [right; by apply Hraised; right|].
      rewrite lookup_alter_ne by done. apply Hsame.
    + exact Hs1.
    + by eapply Forall_impl; [exact Hl|].
    + intros k Hk. destruct (Hall k Hk) as [[->|Hin]%elem_of_cons|Hr]; [right; by apply Hraised; right|by left|right; by apply Hraised; left].
Qed.

(** *** The boot *)
Lemma alone_transition s t b s' :
  stores s t -> alone transition_has_run s b s' -> s' = s /\ b = bool_decide (is_Some (t !! ENV_PRECEDENCE_TRANSITION_KEY)).
Proof.
  intros Hs (found & s1 & Hfind & -> & ->)%alone_bind. destruct (alone_find_by_key s t _ found s1 Hs Hfind) as [-> Hfound].
  split; [done|]. destruct (t !! ENV_PRECEDENCE_TRANSITION_KEY) as [e|]; [by destruct Hfound as (row & -> & _)|by subst found].
Qed.
Lemma settled_keeps gate env_vars t k : is_Some (t !! k) -> is_Some (settled gate env_vars t !! k).
Proof.
  unfold settled. revert t. induction env_vars as [|[key value] env_vars IH]; intros t Hk; [done|]. apply IH. unfold apply_export. cbn [fst snd].
  destruct (is_ok _); [|done]. destruct (decide (k = key)) as [->|Hne]; [|by rewrite lookup_partial_alter_ne].
  rewrite lookup_partial_alter_eq. destruct Hk as [e ->]. cbn [settle]. destruct (pin_of_owner _); [by eexists|]. destruct (_ && _); by eexists.
Qed.
Lemma alone_record gate (env_vars : list (string * string)) s t s' :
  stores s t -> (gate = true -> is_Some (t !! ENV_PRECEDENCE_TRANSITION_KEY)) ->
  alone (if negb gate && negb (bool_decide (env_vars = [])) then record_transition else Done tt) s tt s' ->
  exists t', stores s' t' /\ adds seeded_at_boot t t' /\ (env_vars <> [] -> is_Some (t' !! ENV_PRECEDENCE_TRANSITION_KEY)).
Proof.
  intros Hs Hgate H. destruct gate; cbn [negb andb] in H.
  - destruct H as [_ ->]. exists t. split_and!; [done|done|]. intros _. by apply Hgate.
  - case_bool_decide as Hnil; cbn [negb] in H; [destruct H as [_ ->]; by exists t|].
    apply alone_bind in H as (o & s1 & H & _ & ->). unfold seed_if_absent in H. apply (alone_seed_absent s t) in H as (t' & Hs' & Ha & Hk); [|done..].
    exists t'. split_and!; [done| |by intros _]. eapply adds_more; [|exact Ha]. intros k <-. by left.
Qed.
End Refinement.

(** C7. A boot that runs alone, and whose calls of the database do not fail,
    settles the exports of the environment in their order against what is stored
    and owned, adds entries only for secrets that had none and for the mark of
    the transition, then boots the values of the whole table and leaves every
    secret key flagged; or it refuses a table too large to be read whole. *)
Theorem boot_follows_precedence {JN : JsonNumbers} {NL : JsonNumberLaws JN} {JS : JsonScalars JN} {B : Backend} {BL : BackendLaws B}
    {CA : Catalogue} {ET : ErrorText} (env_vars : list (string * string)) (s s' : state) (t : table)
    (o : outcome string (gmap string string))
    (Hdeclared : forall key, auto_generated key -> key <> "") (Henv : Forall (fun export => export.1 <> "") env_vars)
    (Hs : stores s t) (Hrun : alone (seed_and_load env_vars) s o s') :
  exists t', adds seeded_at_boot (settled (bool_decide (is_Some (t !! ENV_PRECEDENCE_TRANSITION_KEY))) env_vars t) t' /\
    (env_vars <> [] -> is_Some (t' !! ENV_PRECEDENCE_TRANSITION_KEY)) /\
    if Z.of_nat (size t') <? FULL_LIMIT_THRESHOLD then o = Ok (e_value <$> t') /\ stores s' (flagged t')
    else (exists e, o = Err e) /\ stores s' t'.
Proof.
  apply alone_bind in Hrun as (gate & s1 & Hgate & H). destruct (alone_transition s t gate s1 Hs Hgate) as [-> ->].
  apply alone_bind in H as ([] & s2 & Hseed & H). pose proof (alone_seed_env s t _ env_vars s2 Hs Henv Hseed) as Hs2.
  apply alone_bind in H as ([] & s3 & Hrecord & H). eapply alone_record in Hrecord as (t3 & Hs3 & H3 & Hmark);
    [|exact Hs2|intros Hg%bool_decide_eq_true; by apply settled_keeps].
  apply alone_bind in H as ([] & s4 & Hauto & H). destruct (grows_auto_generated Hdeclared _ _ _ _ Hs3 Hauto) as (t4 & Hs4 & H4).
  apply alone_bind in H as ([] & s5 & Hjwt & H). destruct (grows_jwt_secret _ _ _ _ Hs4 Hjwt) as (t5 & Hs5 & H5).
  exists t5. split; [by etrans; [|etrans]|]. split.
  { intros Hne. destruct (Hmark Hne) as [e He]. exists e. eapply lookup_weaken; [exact He|]. etrans; [apply H4|apply H5]. }
  apply alone_try in H as (rows & s6 & Hload & H). destruct (alone_load_rows s5 t5 rows s6 Hs5 Hload) as (-> & Hok & Herr).
  destruct (Z.ltb_spec (Z.of_nat (size t5)) FULL_LIMIT_THRESHOLD) as [Hlt|Hle].
  - destruct (Hok Hlt) as (l & -> & Hl & Hall). apply alone_bind in H as ([] & s7 & Hrepair & -> & ->).
    split; [by erewrite key_values_stored|by eapply alone_repair].
  - destruct (Herr Hle) as [e ->]. destruct H as [-> ->]. by split; [exists e|].
Qed.

(** ** A boot *)

(** The run of a program whose calls succeed, on the database of [MemoryDb]. *)
Fixpoint solo {A} (p : prog A) (s : state) : option (A * state) :=
  match p with
  | Done a => Some (a, s)
  | Do c k => let '(r, s') := call_run c s in if succeeds c r then solo (k r) s' else None
  end.
Lemma solo_alone {A} (p : prog A) s a s' : solo p s = Some (a, s') -> alone p s a s'.
Proof.
  revert s. induction p as [b|R c k IH]; intros s; cbn [solo alone]; [by intros [= -> ->]|].
  pose proof (call_run_step c s) as Hstep. destruct (call_run c s) as [r s1]. destruct (succeeds c r) eqn:Hok; [|done].
  intros H. exists r, s1. split_and!; [done..|by apply IH].
Qed.


Definition logo_key : string := "WAFER_RUN_SHARED__LOGO_URL".
Definition tagline_key : string := "WAFER_RUN_SHARED__TAGLINE".
Definition upgraded : state :=
  set_rows ∅ VARIABLES_TABLE (<["app" := variable_columns "app" app_name_key "Ours" ""]>
    {["logo" := variable_columns "logo" logo_key "mine" "ann"]}).
Definition upgraded_table : table :=
  <[app_name_key := {| e_value := "Ours"; e_owner := ""; e_flag := false |}]>
    {[logo_key := {| e_value := "mine"; e_owner := "ann"; e_flag := false |}]}.
Definition exports : list (string * string) := [(app_name_key, "Theirs"); (logo_key, "theirs"); (tagline_key, "New")].
Definition first_boot := solo (seed_and_load exports) upgraded.
Definition first_values : outcome string (gmap string string) := default Panic (fst <$> first_boot).
Definition first_state : state := default ∅ (snd <$> first_boot).

Lemma upgraded_stores : stores upgraded upgraded_table.
Proof.
  assert (forall id cols, rows upgraded VARIABLES_TABLE !! id = Some cols ->
    id = "app" /\ cols = variable_columns "app" app_name_key "Ours" "" \/ id = "logo" /\ cols = variable_columns "logo" logo_key "mine" "ann") as Hrows.
  { intros id cols. unfold upgraded. rewrite rows_set_rows.
    intros [[<- <-]|[_ [<- <-]%lookup_singleton_Some]]%lookup_insert_Some; [by left|by right]. }
  split_and!.
  - intros id cols [[-> ->]|[-> ->]]%Hrows; [exists app_name_key|exists logo_key]; by split_and!.
  - intros k e. unfold upgraded_table. intros [[<- <-]|[_ [<- <-]%lookup_singleton_Some]]%lookup_insert_Some; [by exists "app", (variable_columns "app" app_name_key "Ours" "")|
      by exists "logo", (variable_columns "logo" logo_key "mine" "ann")].
  - assert (variable_columns "app" app_name_key "Ours" "" !! "key" = Some (VString app_name_key)) as Ha by done.
    assert (variable_columns "logo" logo_key "mine" "ann" !! "key" = Some (VString logo_key)) as Hl by done.
    assert (app_name_key <> logo_key) as Hne by done.
    intros id id' k cols cols' [Hr Hk] [Hr' Hk']. destruct (Hrows _ _ Hr) as [[-> ->]|[-> ->]], (Hrows _ _ Hr') as [[-> ->]|[-> ->]]; congruence.
Qed.
Lemma boot_follows_precedence_witness :
  (forall m, first_values = Ok m ->
     map (fun k => m !! k) [app_name_key; logo_key; tagline_key; ENV_PRECEDENCE_TRANSITION_KEY] = [Some "Ours"; Some "mine"; Some "New"; Some "done"]) /\
  is_ok first_values = true /\
  exists t', adds seeded_at_boot (settled false exports upgraded_table) t' /\
    (exports <> [] -> is_Some (t' !! ENV_PRECEDENCE_TRANSITION_KEY)) /\
    if Z.of_nat (size t') <? FULL_LIMIT_THRESHOLD then first_values = Ok (e_value <$> t') /\ stores first_state (flagged t')
    else (exists e, first_values = Err e) /\ stores first_state t'.
Proof.
  split_and!; [|by vm_compute|].
  - assert (match first_values with Ok m => map (fun k => m !! k) [app_name_key; logo_key; tagline_key; ENV_PRECEDENCE_TRANSITION_KEY] =
      [Some "Ours"; Some "mine"; Some "New"; Some "done"] | _ => True end) as H by by vm_compute.
    destruct first_values; [by intros ? [= <-]|done..].
  - apply (boot_follows_precedence (B := memory_backend) exports upgraded first_state upgraded_table first_values).
    + intros key (block & vars & var & Hin & _). by apply not_elem_of_nil in Hin.
    + by repeat constructor.
    + apply upgraded_stores.
    + apply solo_alone. assert (match first_boot with Some _ => true | None => false end = true) as H by by vm_compute.
      change (first_boot = Some (first_values, first_state)).
      unfold first_values, first_state. by destruct first_boot as [[o s]|].
Defined.
