(* ===== verification/Pipeline.v ===== *)
(** * The request pipeline ([pipeline.rs])

    What happens to a request between the adapter and its block: the refusal of
    a body the transport would not carry, the credential, the documents answered
    on the way, the origin policy, the router, and the audit row of the answer.
    Only here do authentication, routing and the log meet. *)
From Stdlib Require Import String.
From S2P Require Import Prelude Ints Str Contracts SampleLib Wafer EndpointMatch Features Routing.
From S2P Require Import Records Effects Columns Failures DbRead Crud RequestLog Lease AuthRepo AuthTail Csrf Refresh Authenticate Streaming.

(** [wafer_block::http_codec] on the metadata of a response, and the accessors
    of the message the log reads. *)
Class HttpCodec `{Messages} := {
  Meta : Type;
  no_meta : Meta;
  resolve_status : Meta -> Z -> Z;
  resolve_error_status : WaferError -> Meta -> Z;
  declares_streaming : Meta -> bool;
  has_stream_marker : Meta -> bool;
  META_HTTP_METHOD : string;
  msg_remote_addr : Message -> string;
}.

(** [wafer_core::discovery], which reads the declarations, the ceiling of the
    caller and the level each endpoint is published at. *)
Class Discovery `{JsonNumbers} {E : Endpoints} (BI : BlockInfos E) := {
  ep_is_server_only : BlockEndpoint -> bool;
  generate_openapi : list BlockInfo -> AuthLevel -> (BlockInfo -> BlockEndpoint -> option AuthLevel) ->
    string -> string -> Value;
  generate_agent_card : list BlockInfo -> AuthLevel -> (BlockInfo -> BlockEndpoint -> option AuthLevel) ->
    string -> string -> Value;
  generate_webmcp_report : list BlockInfo -> AuthLevel -> (BlockInfo -> BlockEndpoint -> option AuthLevel) -> Value;
}.

(** [url::form_urlencoded::byte_serialize], and the script the build composes
    with its hash. *)
Class Urlencode := urlencode : string -> string.
Class WebmcpScript := { webmcp_js : string; webmcp_js_hash : string }.

(** ** Conditional requests ([http::conditional]) *)
Definition strip_weak (tag : string) : string := default tag (strip_prefix "W/" tag).
Definition etag_matches (header etag : string) : bool :=
  let header := trim header in
  if String.eqb header "*" then true
  else
    let target := strip_weak (trim etag) in
    existsb (fun candidate => String.eqb (strip_weak (trim candidate)) target) (split_on "," header).
Definition not_modified `{Messages} `{JsonNumbers} (msg : Message) (etag cache_control : string) : option OutputStream :=
  let header := get_meta msg "http.header.if-none-match" in
  if is_empty header || negb (etag_matches header etag) then None
  else Some (Respond {| status := 304; cookies := []; headers := [("Cache-Control", cache_control); ("ETag", etag)];
                        body := Bytes "" "" |}).

(** ** Configuration ([config_vars.rs], [runtime_kind.rs], [ui/assets.rs]) *)
Definition APP_NAME_KEY : string := "WAFER_RUN_SHARED__APP_NAME".
Definition DEFAULT_APP_NAME : string := "Impresspress".
Definition HAS_LANDING_PAGE_KEY : string := "WAFER_RUN_SHARED__HAS_LANDING_PAGE".
Definition RUNTIME_KIND_BROWSER : string := "browser".
Definition is_browser (runtime_kind : option string) : bool := bool_decide (runtime_kind = Some RUNTIME_KIND_BROWSER).
Definition WEBMCP_JS_STABLE_PATH : string := "/b/webmcp/webmcp.js".

(** ** Status answers of the interface ([ui/mod.rs], [http.rs]) *)
Definition wants_page `{Messages} (msg : Message) : bool :=
  let accept := get_meta msg "http.header.accept" in
  contains "text/html" accept && negb (contains "application/json" accept) &&
  negb (existsb (fun segment => String.eqb segment "api") (split_on "/" (msg_path msg))).

Definition redirect `{JsonNumbers} (code : Z) (location : string) : OutputStream :=
  Respond {| status := code; cookies := []; headers := [("Location", location)]; body := Bytes "" "text/plain" |}.

Section Pipeline.
Context {JN : JsonNumbers} {JS : JsonScalars JN} {SH : Sha256} {HE : HexEncode} {TC : TokenCrypto} {JV : JwtVerify}
        {IN : Instants} {IF : IsoFormat} {DF : DebugFmt} {UP : UrlParse} {UE : Urlencode} {WS : WebmcpScript}.
Context {E : Endpoints} {BI : BlockInfos E} {M : Messages} {J : GateJson} {HC : HttpCodec} {DI : Discovery BI}.
(** [wafer_block::declarations] *)
Context (declarations : list BlockInfo -> list BlockInfo).

(** What collecting a stream ends with, its leading metadata included. *)
Record Buffered := { buf_meta : Meta; buf_body : string }.
Inductive Terminal :=
| Complete (buf : Buffered)
| Failed (e : WaferError) (meta : Meta)
| Dropped (meta : Meta)
| Continued (msg : Message)
| Malformed
| Halted (buf : Buffered).

(** A stream before it is collected: a page the interface draws with a status,
    an answer of the core, or what a block returned. *)
Inductive Stream :=
| Page (code : Z) (reason : string)
| Drawn (o : OutputStream)
| FromBlock (leading : Meta) (collected : Terminal).

(** [ui::unauthenticated_response], [forbidden_response], [not_found_response] *)
Definition unauthenticated_response (msg : Message) : Stream :=
  if wants_page msg
  then Drawn (redirect 302 (String.append "/b/auth/login?redirect=" (urlencode (msg_path msg))))
  else Drawn (err_unauthenticated "authentication required").
Definition forbidden_response (msg : Message) (reason : string) : Stream :=
  if wants_page msg then Page 403 reason else Drawn (OutputError (wafer_error PermissionDenied reason)).
Definition not_found_response (msg : Message) : Stream :=
  if wants_page msg then Page 404 "We couldn't find that page." else Drawn (err_not_found "endpoint not found").

Definition ADMIN_REQUIRED_REASON : string := "Administrator access is required.".

(** [handle_request]'s surroundings: the configuration snapshot it reads, the
    clock where it looks at it, the cached account versions, and the order of
    the joined reads. *)
Record Env := {
  request_log_config : option string;
  runtime_kind : option string;
  start_ms : Z; end_ms : Z; log_ms : Z;
  cached_versions : string -> option Z;
  family_first : bool;
  reference : string;
}.

Definition caller_auth_level (msg : Message) : AuthLevel :=
  if is_empty (msg_user_id msg) then Public else if is_admin msg then Admin else Authenticated.

Definition published_access (env : Env) (block_infos : list BlockInfo) (features : FeatureConfig)
    (extra_routes : list ExtraRoute) : BlockInfo -> BlockEndpoint -> option AuthLevel :=
  let browser := is_browser (runtime_kind env) in
  let disabled := map bi_name (List.filter (fun block =>
    negb (is_enabled features block_infos (feature_gate_name (bi_name block)))) (declarations block_infos)) in
  fun block ep =>
    let served := negb (existsb (String.eqb (bi_name block)) disabled) && negb (browser && ep_is_server_only ep) in
    if served then Some (effective_access block ep extra_routes) else None.

Definition http_method (msg : Message) : string := get_meta msg META_HTTP_METHOD.

(** ** The credential *)

(** What the header says: an error is the answer of the request. *)
Inductive CredentialFailure := IssuerUnread (o : OutputStream) | Unchecked (e : WaferError).

Definition authenticate (env : Env) (auth_header : option string) (jwt_secret : string) (msg : Message)
  : prog (outcome CredentialFailure Message) :=
  match auth_header with
  | None => Done (Ok msg)
  | Some header =>
      if starts_with "Bearer " header then
        issuer ← expected_issuer;
        match issuer with
        | Ok expected_iss =>
            r ← extract_auth_meta (cached_versions env) (family_first env) header jwt_secret expected_iss msg;
            Done (map_err Unchecked r)
        | Err e => Done (Err (IssuerUnread (db_error_internal e "pipeline: token issuer read failed")))
        | Panic => Done Panic
        end
      else
        match strip_prefix "ApiKey " header with
        | Some api_key => r ← authenticate_api_key api_key msg; Done (map_err Unchecked r)
        | None => Done (Ok msg)
        end
  end.

(** ** The documents answered on the way *)

(** [Some]: the request is answered without a block. *)
Definition discovery (env : Env) (msg : Message) (features : FeatureConfig) (block_infos : list BlockInfo)
    (extra_routes : list ExtraRoute) : prog (outcome unit (option OutputStream)) :=
  let path := msg_path msg in
  let caller := caller_auth_level msg in
  let effective_auth := published_access env block_infos features extra_routes in
  if String.eqb path "/openapi.json" || String.eqb path "/.well-known/agent.json" then
    let server_url := String.append "https://" (msg_header msg "host") in
    name ← ask (ConfigGetDefault APP_NAME_KEY DEFAULT_APP_NAME);
    match name with
    | Ok project_name =>
        let body :=
          if String.eqb path "/openapi.json"
          then generate_openapi block_infos caller effective_auth project_name server_url
          else generate_agent_card block_infos caller effective_auth project_name server_url in
        environment ← ask (ConfigGetDefault ENVIRONMENT_KEY "development");
        match environment with
        | Ok environment =>
            let is_dev := eq_ignore_ascii_case environment "development" in
            Done (Ok (Some (Respond {| status := 200; cookies := [];
              headers := ("Cache-Control", "no-store") ::
                         (if is_dev then [("Access-Control-Allow-Origin", "*")] else []);
              body := Json body |})))
        | Err e => Done (Ok (Some (db_error_internal e "discovery: environment read failed")))
        | Panic => Done Panic
        end
    | Err e => Done (Ok (Some (db_error_internal e "discovery: app name read failed")))
    | Panic => Done Panic
    end
  else if String.eqb path "/b/webmcp/manifest.json" then
    Done (Ok (Some (Respond {| status := 200; cookies := []; headers := [("Cache-Control", "no-store")];
                           body := Json (generate_webmcp_report block_infos caller effective_auth) |})))
  else if String.eqb path WEBMCP_JS_STABLE_PATH then
    let etag := concat_chars [bytes [34]; webmcp_js_hash; bytes [34]] in
    Done (Ok (Some (default
      (Respond {| status := 200; cookies := [];
                  headers := [("Cache-Control", "no-cache"); ("ETag", etag); ("X-Content-Type-Options", "nosniff")];
                  body := Bytes webmcp_js "application/javascript; charset=utf-8" |})
      (not_modified msg etag "no-cache"))))
  else Done (Ok None).

(** ** Up to the block *)

(** Where a request goes: it is refused or answered before the audited part, or
    drawn by the origin policy or the router, or handed to a block.  [seen] is
    the message the row is written from. *)
Inductive Verdict :=
| BodyRefused
| CredentialRefused (failure : CredentialFailure)
| Answered (o : OutputStream)
| RefusedWith (seen : Message) (s : Stream)
| ToBlock (seen : Message) (name : string) (msg : Message).

(** [routing::route_to_block] with the answers it draws.  The switch of the
    landing page is read for the root only. *)
Definition route (seen msg : Message) (features : FeatureConfig) (block_infos : list BlockInfo)
    (extra_routes : list ExtraRoute) : prog (outcome unit Verdict) :=
  landing ← (if String.eqb (msg_path msg) "/" then get_bool HAS_LANDING_PAGE_KEY false else Done (Ok false));
  let has_landing_page := match landing with Ok b => Some b | Err _ | Panic => None end in
  Done (match route_to_block declarations has_landing_page msg features block_infos extra_routes with
        | CallBlock name msg => Ok (ToBlock seen name msg)
        | NotFoundResponse msg => Ok (RefusedWith seen (not_found_response msg))
        | Denied Routing.Unauthenticated msg => Ok (RefusedWith seen (unauthenticated_response msg))
        | Denied Routing.Forbidden msg => Ok (RefusedWith seen (forbidden_response msg ADMIN_REQUIRED_REASON))
        | RootRedirect target => Ok (RefusedWith seen (Drawn (redirect 302 target)))
        | LandingReadFailed =>
            match landing with
            | Err e =>
                Ok (RefusedWith seen (Drawn (db_error_internal e "routing: landing page switch read failed")))
            | _ => Panic
            end
        end).

Definition prepare (env : Env) (auth_header : option string) (jwt_secret : string) (cookie_authenticated : bool)
    (features : FeatureConfig) (block_infos : list BlockInfo) (extra_routes : list ExtraRoute) (msg : Message)
  : prog (outcome unit Verdict) :=
  if body_too_large msg then Done (Ok BodyRefused)
  else
    checked ← authenticate env auth_header jwt_secret msg;
    match checked with
    | Err failure => Done (Ok (CredentialRefused failure))
    | Panic => Done Panic
    | Ok msg =>
        answered ← discovery env msg features block_infos extra_routes;
        match answered with
        | Ok (Some o) => Done (Ok (Answered o))
        | Ok None =>
            let gated := publish_gate declarations msg features block_infos in
            match enforce_origin_policy gated cookie_authenticated with
            | Some _ => Done (Ok (RefusedWith msg (forbidden_response gated ORIGIN_BLOCKED_REASON)))
            | None => route msg gated features block_infos extra_routes
            end
        | Err _ => Done (Err tt)
        | Panic => Done Panic
        end
    end.

(** ** The audited tail *)

(** The status and the message of the row an answer leaves, and the answer
    itself; [None] for a stream that stays open without a status. *)
Definition settle (env : Env) (s : Stream) : option (Z * string) * Stream :=
  match s with
  | Page code _ => (Some (code, ""), s)
  | Drawn o =>
      match client_sees (reference env) o with
      | SeenError e => (Some (resolve_error_status e no_meta, we_message e), s)
      | SeenPage _ => (Some (403, ""), s)
      | SeenResponse r => (Some (status r, ""), s)
      end
  | FromBlock leading t =>
      if declares_streaming leading then
        ((if has_stream_marker leading then Some (resolve_status leading 200, "") else None), s)
      else
        match t with
        | Complete buf => (Some (resolve_status (buf_meta buf) 200, ""), s)
        | Failed e meta => (Some (resolve_error_status e meta, we_message e), s)
        | Dropped meta => (Some (204, ""), s)
        | Continued m => (Some (200, ""), s)
        | Malformed =>
            let e := wafer_error Internal "stream ended without terminal event" in
            (Some (500, we_message e), FromBlock leading (Failed e no_meta))
        | Halted buf => (Some (resolve_status (buf_meta buf) 200, ""), s)
        end
  end.

Definition saturating_sub_u64 (a b : Z) : Z := Z.max 0 (a - b).
Definition duration_ms (env : Env) : Z := Z.min (2 ^ 63 - 1) (saturating_sub_u64 (end_ms env) (start_ms env)).

(** The row of a refusal that ran no block. *)
Definition refusal_row (msg : Message) (user_id : string) (code : Z) (message : string) : NewRequestLog := {|
  nl_method := http_method msg; nl_path := msg_path msg; nl_status_code := code; nl_error_message := message;
  nl_duration_ms := 0; nl_client_ip := msg_remote_addr msg; nl_user_id := user_id |}.
Definition answer_row (env : Env) (seen : Message) (code : Z) (message : string) : NewRequestLog := {|
  nl_method := http_method seen; nl_path := msg_path seen; nl_status_code := code; nl_error_message := message;
  nl_duration_ms := duration_ms env; nl_client_ip := msg_remote_addr seen; nl_user_id := msg_user_id seen |}.

(** How the request is answered: [TooLarge] is [payload_too_large_error], an
    error terminal of code [ResourceExhausted] whose status is set to 413. *)
Inductive Reply := TooLarge (e : WaferError) | Reply_ (s : Stream).
Definition payload_too_large_error : Reply := TooLarge (wafer_error ResourceExhausted request_too_large_message).

Definition log_row env row block_infos extra_routes (log : LogState) : prog LogState :=
  write_request_log declarations (request_log_config env) (log_ms env) row block_infos extra_routes log.

Definition refuse_oversized_body env (msg : Message) block_infos extra_routes (log : LogState) : prog (Reply * LogState) :=
  log ← log_row env (refusal_row msg (msg_user_id msg) 413 "") block_infos extra_routes log;
  Done (payload_too_large_error, log).

Definition refuse_unchecked_credential env (msg : Message) (e : WaferError) block_infos extra_routes (log : LogState)
  : prog (Reply * LogState) :=
  log ← log_row env (refusal_row msg "" (resolve_error_status e no_meta) (we_message e)) block_infos extra_routes log;
  Done (Reply_ (Drawn (OutputError e)), log).

Definition audited env (seen : Message) block_infos extra_routes (s : Stream) (log : LogState)
  : prog (Reply * LogState) :=
  let '(row, reply) := settle env s in
  match row with
  | None => Done (Reply_ reply, log)
  | Some (code, message) =>
      log ← log_row env (answer_row env seen code message) block_infos extra_routes log;
      Done (Reply_ reply, log)
  end.

(** ** [handle_request]

    [call_block] runs a block on a message. *)
Definition handle_request (call_block : string -> Message -> prog Stream) (env : Env) (auth_header : option string)
    (jwt_secret : string) (cookie_authenticated : bool) (features : FeatureConfig) (block_infos : list BlockInfo)
    (extra_routes : list ExtraRoute) (msg : Message) (log : LogState) : prog (outcome unit (Reply * LogState)) :=
  let some r := r' ← r; Done (Ok r') in
  verdict ← prepare env auth_header jwt_secret cookie_authenticated features block_infos extra_routes msg;
  match verdict with
  | Ok BodyRefused => some (refuse_oversized_body env msg block_infos extra_routes log)
  | Ok (CredentialRefused (IssuerUnread o)) => Done (Ok (Reply_ (Drawn o), log))
  | Ok (CredentialRefused (Unchecked e)) => some (refuse_unchecked_credential env msg e block_infos extra_routes log)
  | Ok (Answered o) => Done (Ok (Reply_ (Drawn o), log))
  | Ok (RefusedWith seen s) => some (audited env seen block_infos extra_routes s log)
  | Ok (ToBlock seen name msg') =>
      s ← call_block name msg'; some (audited env seen block_infos extra_routes s log)
  | Err _ => Done (Err tt)
  | Panic => Done Panic
  end.
End Pipeline.
