(* ===== verification/PipelineSafety.v ===== *)
(** * What a block may rely on

    A request that reaches a block has passed every check of the pipeline: its
    body was carried, its identity is the one its message came with or that of
    a credential that was checked against the database during the request, its
    route is enabled and admits the caller - the landing page [/] alone has
    none -, and with the ambient cookie it came from this site. *)
From Stdlib Require Import String.
From S2P Require Import Prelude Ints Str Contracts SampleLib Wafer EndpointMatch Features Routing.
From S2P Require Import Records Effects Columns MemoryDb Failures DbRead Crud RequestLog Lease AuthRepo AuthTail Csrf Refresh Interleaving History Authenticate Pipeline Streaming.

(** ** Anything may happen *)
Section Happens.
Context {JN : JsonNumbers} {B : Backend}.

Definition one_call (s s' : state) : Prop := exists R (c : call R) r, call_step c s r s'.
(** The database got from one state to the other by calls of any handlers. *)
Definition happens : state -> state -> Prop := rtc one_call.

#[export] Instance happens_preorder : PreOrder happens.
Proof. unfold happens. apply _. Qed.

Abbreviation hs := (hsafe happens).

Lemma call_happens {R} (c : call R) s r s' : call_step c s r s' -> happens s s'.
Proof. intros Hc. apply rtc_once. by exists R, c, r. Qed.

Lemma any_hsafe {A} (p : prog A) V s : hs (fun _ _ _ => True) p V s.
Proof.
  revert V s. induction p as [a|R c k IH]; intros V s; [done|]. intros V1 s1 _ r s2 Hc.
  split; [by eapply call_happens|apply IH].
Qed.

Lemma extends_kept V s V' s' x : extends happens V s V' s' -> V x -> V' x.
Proof. intros (_ & _ & H & _). apply H. Qed.
Lemma extends_now V s V' s' : extends happens V s V' s' -> V' s'.
Proof. by intros (_ & H & _). Qed.

(** One call, with what its answer says of the state it ran at. *)
Lemma hsafe_call {R A} (c : call R) (k : R -> prog A) (Q : A -> visited -> state -> Prop) V s :
  (forall V1 s1 r s2, extends happens V s V1 s1 -> V1 s1 -> call_step c s1 r s2 -> hs Q (k r) (visit V1 s2) s2) ->
  hs Q (r ← do_call c; k r) V s.
Proof.
  intros Hk V1 s1 H1 r s2 Hc. split; [by eapply call_happens|]. apply (Hk V1 s1 r s2); [done|by eapply extends_now|done].
Qed.

(** A list of rows that were there at once, and satisfied the filters. *)
Definition rows_at (table : string) (filters : list Filter) (l : list Row) (x : state) : Prop :=
  Forall (fun row => rows x table !! row_id row = Some (row_data row) /\
                     matches filters (row_id row) (row_data row) = true) l.

Lemma hsafe_list_bounded table filters bound V s :
  hs (fun r V' _ => forall l, r = Ok l -> exists x, V' x /\ rows_at table filters l x)
    (list_bounded table filters bound) V s.
Proof.
  unfold list_bounded, over_read, prog_try.
  intros V1 s1 H1 r s2 [-> Hr]. split; [reflexivity|]. cbn [mbind prog_mbind prog_bind].
  destruct Hr as [(e & -> & _)|(l & -> & Hl & _)]; [by intros V2 s2 _ l|]. cbn [capped_rows truncated].
  destruct (UNPAGED_LIMIT <? _); [by intros V2 s2 _ l'|]. intros V2 s2 H2 l' [= <-]. exists s1.
  split; [|done]. apply (extends_kept _ _ _ _ _ H2). by right.
Qed.

(** Finishing with what is known now. *)
Lemma hsafe_done {A} (Q : A -> visited -> state -> Prop) a V s :
  (forall V' s', extends happens V s V' s' -> Q a V' s') -> hs Q (Done a) V s.
Proof. done. Qed.
End Happens.

(** ** Evidence of an identity *)
Section Evidence.
Context {JN : JsonNumbers} {JS : JsonScalars JN} {SH : Sha256} {TC : TokenCrypto} {JV : JwtVerify} {IN : Instants}
        {MS : Messages} {B : Backend}.
(** The states of the run. *)
Implicit Types (seen : visited).

(** The family of the token was a login of the account, not yet expired. *)
Definition live_login seen (user family : string) : Prop :=
  exists x now row, seen x /\ rows_at Sessions.TABLE
    [Sessions.family_filter family; Sessions.user_filter user;
     {| field := "expires_at"; operator := OpGreaterThan; value := VString now |}] [row] x.

(** The version of the account, zero without a row. *)
Definition account_version (x : state) (user : string) : Z :=
  match rows x Users.TABLE !! user with
  | Some cols => i64_field (row_of user cols) Users.AUTH_VERSION_FIELD
  | None => 0
  end.
(** The version the check compared with: a cached one, or one that was read. *)
Definition checked_version (cached : string -> option Z) seen (user : string) (v : Z) : Prop :=
  cached user = Some v \/ exists x, seen x /\ v = account_version x user.

(** A bearer token: its signature, type and issuer verified, its family is a
    live login, it is not behind the account, and its claims are the roles. *)
Definition by_token (cached : string -> option Z) (jwt_secret header : string) seen (user roles : string) : Prop :=
  exists token iss claims v, header = String.append "Bearer " token /\
    token_claims token jwt_secret iss = Some claims /\
    user = claim_text claims "sub" /\ roles = claim_roles claims /\
    live_login seen user (claim_text claims "family") /\
    checked_version cached seen user v /\ v <= claim_version claims.

(** An API key: a row with its hash, not revoked and not expired, of an account
    that was active; the roles are those of its grants. *)
Definition by_key (header : string) seen (user roles : string) : Prop :=
  exists api_key x id cols key now x' ucols account x'' grants,
    header = String.append "ApiKey " api_key /\
    seen x /\ rows x ApiKeys.TABLE !! id = Some cols /\
    matches [{| field := "key_hash"; operator := OpEqual; value := VString (sha256_hex_bytes api_key) |}] id cols = true /\
    ApiKeys.row_from_map cols = Ok key /\ ApiKeys.is_revoked key = false /\ ApiKeys.is_expired key now = false /\
    user = ApiKeys.ak_user_id key /\
    seen x' /\ rows x' Users.TABLE !! user = Some ucols /\ Users.row_from_map ucols = Ok account /\
    Users.is_active account = true /\
    seen x'' /\ rows_at UserRoles.TABLE [text_filter "user_id" user] grants x'' /\
    roles = join "," (role_names (UserRoles.decode_rows grants)).

Definition identified cached jwt_secret header seen user roles : Prop :=
  by_token cached jwt_secret header seen user roles \/ by_key header seen user roles.

Lemma live_login_more seen1 seen2 user family :
  (forall x, seen1 x -> seen2 x) -> live_login seen1 user family -> live_login seen2 user family.
Proof. intros H (x & now & row & Hx & ?). exists x, now, row. split; [by apply H|done]. Qed.
Lemma checked_version_more cached seen1 seen2 user v :
  (forall x, seen1 x -> seen2 x) -> checked_version cached seen1 user v -> checked_version cached seen2 user v.
Proof. intros H [?|(x & Hx & ?)]; [by left|right]. exists x. split; [by apply H|done]. Qed.

Lemma identified_more cached secret header seen1 seen2 user roles :
  (forall x, seen1 x -> seen2 x) -> identified cached secret header seen1 user roles -> identified cached secret header seen2 user roles.
Proof.
  intros H [(token & iss & claims & v & ? & ? & ? & ? & Hl & Hv & ?)|Hk]; [left|right].
  - exists token, iss, claims, v. repeat (split; [done|]). split; [by eapply live_login_more|].
    split; [by eapply checked_version_more|done].
  - unfold by_key in *. destruct Hk as (api_key & x & id & cols & key & now & x' & ucols & account & x'' & grants & Hk).
    exists api_key, x, id, cols, key, now, x', ucols, account, x'', grants. naive_solver.
Qed.
End Evidence.

(** ** What the checks read *)
Section Checks.
Context {JN : JsonNumbers} {NL : JsonNumberLaws JN} {JS : JsonScalars JN} {SH : Sha256} {TC : TokenCrypto} {JV : JwtVerify}
        {IN : Instants} {IF : IsoFormat} {MS : Messages} {ML : MessageLaws MS} {B : Backend}.
Abbreviation hs := (hsafe happens).

(** A step between reads: errors are relabelled. *)
Lemma hsafe_labelled {A} (Q : A -> visited -> Prop) what (p : prog (WResult A)) V s :
  hs (fun r V' _ => forall a, r = Ok a -> Q a V') p V s ->
  hs (fun r V' _ => forall a, r = Ok a -> Q a V') (labelled what p) V s.
Proof.
  intros Hp. unfold labelled. eapply (hsafe_map _ _ (map_err (db_failed what))); [done|].
  eapply hsafe_weaken; [apply _| |exact Hp]. intros [a|e|] V' s' _ H b; [|done..]. intros [= <-]. by apply H.
Qed.
Lemma hsafe_checked {A} (Q : A -> visited -> Prop) (p : prog (WResult A)) V s :
  hs (fun r V' _ => forall a, r = Ok a -> Q a V') p V s ->
  hs (fun r V' _ => forall a, r = Ok a -> Q a V') (checked p) V s.
Proof.
  intros Hp. unfold checked. eapply (hsafe_map _ _ (map_err credential_check_failed)); [done|].
  eapply hsafe_weaken; [apply _| |exact Hp]. intros [a|e|] V' s' _ H b; [|done..]. intros [= <-]. by apply H.
Qed.

(** The answer of a step is what the rest goes on with. *)
Lemma hsafe_try {E A C} (Q : A -> visited -> Prop) (Q' : outcome E C -> visited -> state -> Prop)
    (p : prog (outcome E A)) f V s :
  hs (fun r V' _ => forall a, r = Ok a -> Q a V') p V s ->
  (forall e V' s', Q' (Err e) V' s') -> (forall V' s', Q' Panic V' s') ->
  (forall a V' s', extends happens V s V' s' -> Q a V' -> hs Q' (f a) V' s') -> hs Q' (prog_try p f) V s.
Proof.
  intros Hp He Hpa Hf. eapply hsafe_bind; [apply _|exact Hp|]. intros [a|e|] V' s' Hx H.
  - apply Hf; [done|]. by apply H.
  - intros V2 s2 _. apply He.
  - intros V2 s2 _. apply Hpa.
Qed.

Lemma is_live_sound user family V s :
  hs (fun r V' _ => forall b, r = Ok b -> b = true -> live_login V' user family) (Sessions.is_live user family) V s.
Proof.
  unfold Sessions.is_live. apply hsafe_call. intros V1 s1 now s2 _ _ ->.
  eapply hsafe_try; [apply hsafe_labelled, hsafe_list_bounded|done..|].
  intros l V2 s3 _ (x & Hx & Hl). intros V3 s4 H3 b [= <-]. destruct l as [|row l]; [done|]. intros _.
  exists x, now, row. split; [by eapply extends_kept|]. apply Forall_inv in Hl. by apply Forall_singleton.
Qed.

Lemma auth_version_sound user V s :
  hs (fun r V' _ => forall v, r = Ok v -> exists x, V' x /\ v = account_version x user) (Users.auth_version user) V s.
Proof.
  unfold Users.auth_version. apply hsafe_call. intros V1 s1 r s2 _ _ [-> Hr].
  assert (forall V' s', extends happens (visit V1 s1) s1 V' s' -> V' s1) as Hin
    by (intros V' s' H; apply (extends_kept _ _ _ _ _ H); by right).
  destruct Hr as [(e & -> & Hnf)|[(id & cols & Hid & ->%String.eqb_eq & ->)|(e & -> & Hnf & Hnone)]].
  - rewrite bool_decide_eq_false_2 by done. by intros V2 s2 _ k.
  - intros V2 s2 H2 v [= <-]. exists s1. split; [by apply (Hin _ _ H2)|]. unfold account_version. by rewrite Hid.
  - rewrite bool_decide_eq_true_2 by done. intros V2 s2 H2 v [= <-]. exists s1. split; [by apply (Hin _ _ H2)|].
    unfold account_version. destruct (rows s1 Users.TABLE !! user) as [cols|] eqn:Hr; [|done].
    specialize (Hnone _ _ Hr). by rewrite String.eqb_refl in Hnone.
Qed.

Lemma current_version_sound cached user V s :
  hs (fun r V' _ => forall v, r = Ok v -> checked_version cached V' user v)
    (current_auth_version (cached user) user) V s.
Proof.
  unfold current_auth_version. destruct (cached user) as [v|] eqn:Hc.
  - intros V' s' _ w [= <-]. by left.
  - eapply hsafe_weaken; [apply _| |apply auth_version_sound]. intros r V' s' _ H v Hv. right. by apply H.
Qed.

Lemma joined_reads cached ff user family V s :
  hs (fun r V' _ => (forall b, r.1 = Ok b -> b = true -> live_login V' user family) /\
                    (forall v, r.2 = Ok v -> checked_version cached V' user v))
    (join_both ff (Sessions.is_live user family) (current_auth_version (cached user) user)) V s.
Proof.
  unfold join_both. destruct ff.
  - eapply hsafe_bind; [apply _|apply is_live_sound|]. intros live V1 s1 _ Hl.
    eapply hsafe_map; [done|]. eapply hsafe_weaken; [apply _| |apply current_version_sound].
    intros r V2 s2 H2 Hr. split; [|done]. intros b Hb Ht.
    eapply live_login_more; [|by apply (Hl b)]. intros x. by eapply extends_kept.
  - eapply hsafe_bind; [apply _|apply current_version_sound|]. intros version V1 s1 _ Hv.
    eapply hsafe_map; [done|]. eapply hsafe_weaken; [apply _| |apply is_live_sound].
    intros r V2 s2 H2 Hr. split; [done|]. intros v Hvv.
    eapply checked_version_more; [|by apply (Hv v)]. intros x. by eapply extends_kept.
Qed.

(** *** Access tokens *)
Lemma verified_token cached ff token secret iss V s :
  hs (fun r V' _ => forall ac, r = Ok (Some ac) ->
        exists claims v, token_claims token secret iss = Some claims /\ ac = claims_of claims /\
          live_login V' (claim_text claims "sub") (claim_text claims "family") /\
          checked_version cached V' (claim_text claims "sub") v /\ v <= claim_version claims)
    (verify_access_token cached ff token secret iss) V s.
Proof.
  unfold verify_access_token. destruct (token_claims token secret iss) as [claims|] eqn:Hc; [|by intros V' s' _ ac].
  eapply hsafe_bind; [apply _|apply joined_reads|]. intros [live current] V1 s1 _ [Hl Hv]. cbn [fst snd] in *.
  destruct live as [[]|e|]; [|by intros V' s' _ ac..]. destruct current as [v|e|]; [|by intros V' s' _ ac..].
  cbn. destruct (Z.ltb_spec (claim_version claims) v); intros V2 s2 H2 ac; [done|]. intros [= <-].
  assert (forall x, V1 x -> V2 x) as Hsub by (intros x; by eapply extends_kept).
  exists claims, v. split; [done|]. split; [done|]. split; [by eapply live_login_more; [|apply (Hl true)]|].
  split; [|done]. by eapply checked_version_more; [|apply Hv].
Qed.

(** What a stamp writes: the identity, and no address of the request. *)
Lemma stamped_claims ac msg :
  msg_user_id (stamp_claims ac msg) = ac_sub ac /\ get_meta (stamp_claims ac msg) META_AUTH_USER_ROLES = ac_roles ac /\
  msg_path (stamp_claims ac msg) = msg_path msg /\ msg_action (stamp_claims ac msg) = msg_action msg.
Proof.
  unfold stamp_claims. destruct (ac_email ac) as [email|].
  - repeat split; rewrite ?set_meta_user_id, ?set_meta_path, ?set_meta_action by done; try done.
    + apply set_user_id.
    + rewrite !get_set_meta_ne by done. apply get_set_meta.
  - repeat split; rewrite ?set_meta_user_id, ?set_meta_path, ?set_meta_action by done; try done.
    + apply set_user_id.
    + rewrite !get_set_meta_ne by done. apply get_set_meta.
Qed.
Lemma stamped_key key user roles msg :
  msg_user_id (stamp_key key user roles msg) = ApiKeys.ak_user_id key /\
  get_meta (stamp_key key user roles msg) META_AUTH_USER_ROLES = join "," roles /\
  msg_path (stamp_key key user roles msg) = msg_path msg /\ msg_action (stamp_key key user roles msg) = msg_action msg.
Proof.
  unfold stamp_key. repeat split; rewrite ?set_meta_user_id, ?set_meta_path, ?set_meta_action by done; try done.
  - apply set_user_id.
  - rewrite get_set_meta_ne by done. apply get_set_meta.
Qed.

(** The message after a credential: the one before, or stamped with an identity
    there is evidence for. *)
Definition accounted cached secret header (msg msg' : Message) (seen : visited) : Prop :=
  msg_path msg' = msg_path msg /\ msg_action msg' = msg_action msg /\
  (msg' = msg \/ identified cached secret header seen (msg_user_id msg') (get_meta msg' META_AUTH_USER_ROLES)).

Lemma accounted_same cached secret header msg seen : accounted cached secret header msg msg seen.
Proof. split; [done|]. split; [done|by left]. Qed.

Lemma accounted_more cached secret header msg msg' seen1 seen2 :
  (forall x, seen1 x -> seen2 x) -> accounted cached secret header msg msg' seen1 -> accounted cached secret header msg msg' seen2.
Proof. intros H (? & ? & [?|?]); (split; [done|]; split; [done|]); [by left|right]. by eapply identified_more. Qed.

Lemma extracted_auth cached ff header secret iss msg V s :
  hs (fun r V' _ => forall msg', r = Ok msg' -> accounted cached secret header msg msg' V')
    (extract_auth_meta cached ff header secret iss msg) V s.
Proof.
  unfold extract_auth_meta. destruct (strip_prefix "Bearer " header) as [token|] eqn:Ht.
  2: { intros V' s' _ msg' [= <-]. apply accounted_same. }
  apply strip_prefix_some in Ht. eapply hsafe_bind; [apply _|apply verified_token|].
  intros [[ac|]|e|] V1 s1 _ Hac; [| |by intros V2 s2 _ msg'..].
  - intros V2 s2 H2 msg' [= <-]. destruct (Hac ac eq_refl) as (claims & v & Hc & -> & Hl & Hv & Hle).
    destruct (stamped_claims (claims_of claims) msg) as (Hu & Hr & Hp & Ha).
    split; [done|]. split; [done|]. right. left. rewrite Hu, Hr.
    assert (forall x, V1 x -> V2 x) as Hsub by (intros x; by eapply extends_kept).
    exists token, iss, claims, v. repeat (split; [done|]). split; [by eapply live_login_more|].
    split; [by eapply checked_version_more|done].
  - intros V2 s2 _ msg' [= <-]. apply accounted_same.
Qed.

(** *** API keys *)
Definition key_row_at (hash : string) (key : ApiKeys.ApiKeyRow) (x : state) : Prop :=
  exists id cols, rows x ApiKeys.TABLE !! id = Some cols /\
    matches [{| field := "key_hash"; operator := OpEqual; value := VString hash |}] id cols = true /\
    ApiKeys.row_from_map cols = Ok key.

Lemma key_found hash V s :
  hs (fun r V' _ => forall o, r = Ok o -> forall key, o = Some key -> exists x, V' x /\ key_row_at hash key x)
    (ApiKeys.find_by_key_hash hash) V s.
Proof.
  unfold ApiKeys.find_by_key_hash. apply hsafe_call. intros V1 s1 r s2 _ _ [-> Hr].
  intros V2 s2 H2 o Ho key ->. exists s1. split; [apply (extends_kept _ _ _ _ _ H2); by right|].
  destruct Hr as [(e & -> & Hnf)|[(id & cols & Hid & Hm & ->)|(e & -> & Hnf & Hnone)]]; simpl in Ho.
  - by rewrite bool_decide_eq_false_2 in Ho.
  - cbn [row_of row_data] in Ho. destruct (ApiKeys.row_from_map cols) as [row|e|] eqn:Hrow; [|done..].
    injection Ho as <-. by exists id, cols.
  - by rewrite bool_decide_eq_true_2 in Ho.
Qed.

Definition account_at (user : string) (account : Users.UserRow) (x : state) : Prop :=
  exists cols, rows x Users.TABLE !! user = Some cols /\ Users.row_from_map cols = Ok account.

Lemma account_found user V s :
  hs (fun r V' _ => forall o, r = Ok o -> forall account, o = Some account -> exists x, V' x /\ account_at user account x)
    (Users.find_by_id user) V s.
Proof.
  unfold Users.find_by_id. apply hsafe_call. intros V1 s1 r s2 _ _ [-> Hr].
  assert (forall V' s', extends happens (visit V1 s1) s1 V' s' -> V' s1) as Hin
    by (intros V' s' H; apply (extends_kept _ _ _ _ _ H); by right).
  destruct Hr as [(e & -> & Hnf)|[(id & cols & Hid & ->%String.eqb_eq & ->)|(e & -> & Hnf & Hnone)]].
  - rewrite bool_decide_eq_false_2 by done. by intros V2 s2 _ o.
  - cbn [row_of row_data]. destruct (Users.row_from_map cols) as [row|e|] eqn:Hrow; [|by intros V2 s2 _ o..].
    intros V2 s2 H2 o [= <-] account [= <-]. exists s1. split; [by apply (Hin _ _ H2)|]. by exists cols.
  - rewrite bool_decide_eq_true_2 by done. intros V2 s2 _ o [= <-] account. done.
Qed.

Lemma roles_read user V s :
  hs (fun r V' _ => forall roles, r = Ok roles -> exists x grants, V' x /\
        rows_at UserRoles.TABLE [text_filter "user_id" user] grants x /\
        roles = role_names (UserRoles.decode_rows grants))
    (get_user_roles user) V s.
Proof.
  unfold get_user_roles, UserRoles.list_for_user, UserRoles.list_for_principals.
  eapply (hsafe_try (fun g V' => exists x grants, V' x /\
    rows_at UserRoles.TABLE [text_filter "user_id" user] grants x /\ g = UserRoles.decode_rows grants));
    [|by intros e V' s' roles|by intros V' s' roles|].
  - apply hsafe_labelled. eapply (hsafe_try (fun l V' => exists x, V' x /\
      rows_at UserRoles.TABLE [text_filter "user_id" user] l x));
      [apply hsafe_list_bounded|by intros e V' s' a|by intros V' s' a|].
    intros l V1 s1 _ (x & Hx & Hl) V2 s2 H2 a [= <-]. exists x, l. split; [by eapply extends_kept|done].
  - intros g V1 s1 _ (x & grants & Hx & Hg & ->) V2 s2 H2 roles [= <-]. exists x, grants.
    split; [by eapply extends_kept|done].
Qed.

Lemma key_auth cached secret api_key msg V s :
  hs (fun r V' _ => forall msg', r = Ok msg' ->
        accounted cached secret (String.append "ApiKey " api_key) msg msg' V')
    (authenticate_api_key api_key msg) V s.
Proof.
  assert (forall V s, hs (fun r V' _ => forall msg', r = Ok msg' ->
    accounted cached secret (String.append "ApiKey " api_key) msg msg' V') (Done (Ok msg : WResult Message)) V s) as Hsame.
  { intros V0 s0 V' s' _ msg' [= <-]. apply accounted_same. }
  unfold authenticate_api_key.
  eapply hsafe_try; [apply hsafe_checked, key_found|by intros e V' s' m|by intros V' s' m|].
  intros [key|] V1 s1 _ Hk; [|apply Hsame]. destruct (Hk key eq_refl) as (x & Hx & id & cols & Hid & Hm & Hrow).
  destruct (ApiKeys.is_revoked key) eqn:Hrev; [apply Hsame|].
  apply hsafe_call. intros V2 s2 now s3 H2 _ _. destruct (ApiKeys.is_expired key now) eqn:Hexp; [apply Hsame|].
  destruct (is_empty (ApiKeys.ak_user_id key)); [apply Hsame|].
  eapply hsafe_try; [apply hsafe_checked, account_found|by intros e V' s' m|by intros V' s' m|].
  intros [account|] V3 s4 H3 Ha; [|apply Hsame]. destruct (Ha account eq_refl) as (x' & Hx' & ucols & Hu & Hur).
  destruct (Users.is_active account) eqn:Hact; [|apply Hsame].
  eapply hsafe_try; [apply hsafe_checked, roles_read|by intros e V' s' m|by intros V' s' m|].
  intros roles V4 s5 H4 (x'' & grants & Hx'' & Hg & ->) V5 s6 H5 msg' [= <-].
  destruct (stamped_key key account (role_names (UserRoles.decode_rows grants)) msg) as (Hui & Hr & Hp & Hac).
  split; [done|]. split; [done|]. right. right. rewrite Hui, Hr.
  exists api_key, x, id, cols, key, now, x', ucols, account, x'', grants.
  split; [done|]. split; [|split; [done|]; split; [done|]; split; [done|]; split; [done|]; split; [done|]; split; [done|];
    split; [|split; [done|]; split; [done|]; split; [done|]; split; [|done]]].
  - apply (extends_kept _ _ _ _ _ H5), (extends_kept _ _ _ _ _ H4), (extends_kept _ _ _ _ _ H3).
    left. by apply (extends_kept _ _ _ _ _ H2).
  - apply (extends_kept _ _ _ _ _ H5), (extends_kept _ _ _ _ _ H4), Hx'.
  - apply (extends_kept _ _ _ _ _ H5), Hx''.
Qed.
End Checks.

(** ** The pipeline *)
Section Pipeline.
Context {JN : JsonNumbers} {NL : JsonNumberLaws JN} {JS : JsonScalars JN} {SH : Sha256} {TC : TokenCrypto} {JV : JwtVerify}
        {IN : Instants} {IF : IsoFormat} {DF : DebugFmt} {UP : UrlParse} {UE : Urlencode} {WS : WebmcpScript}.
Context {E : Endpoints} {BI : BlockInfos E} {M : Messages} {ML : MessageLaws M} {J : GateJson} {HC : HttpCodec}
        {DI : Discovery BI} {B : Backend}.
Context (declarations : list BlockInfo -> list BlockInfo).
Abbreviation hs := (hsafe happens).
Implicit Types (features : FeatureConfig) (infos : list BlockInfo) (extras : list ExtraRoute) (msg : Message).

(** A route of the table, or of the registered ones, that is enabled and admits
    the caller: its tier and the level the block declares for the action and
    path, an undeclared path of the table requiring a signed-in caller.  The
    root goes to the landing page. *)
Definition admitted features infos extras (name : string) msg : Prop :=
  msg_path msg = "/" /\ name = "wafer-run/web" \/
  (exists r, r ∈ ROUTES /\ route_prefix_matches (prefix r) (msg_path msg) = true /\ name = dispatch_to r /\
     is_enabled features infos (block r) = true /\ satisfies (access r) msg /\
     match declared_endpoint_access infos (block r) (msg_action msg) (msg_path msg) with
     | Some declared => satisfies declared msg
     | None => msg_user_id msg <> ""
     end) \/
  (exists r, r ∈ extras /\ route_prefix_matches (extra_prefix r) (msg_path msg) = true /\ name = extra_block_name r /\
     is_enabled features infos name = true /\ satisfies (extra_access r) msg /\
     match declared_endpoint_access infos name (msg_action msg) (msg_path msg) with
     | Some declared => satisfies declared msg
     | None => refine_undeclared r = true -> msg_user_id msg <> ""
     end).

(** What reaches the router is the message with the identity of the
    credential, and with the gate published. *)
Definition carried (cached : string -> option Z) (secret : string) (auth_header : option string) msg msg' (seen : visited) : Prop :=
  msg_path msg' = msg_path msg /\ msg_action msg' = msg_action msg /\
  (msg_user_id msg' = msg_user_id msg /\ get_meta msg' META_AUTH_USER_ROLES = get_meta msg META_AUTH_USER_ROLES \/
   exists header, auth_header = Some header /\
     identified cached secret header seen (msg_user_id msg') (get_meta msg' META_AUTH_USER_ROLES)).

Lemma carried_same cached secret auth_header msg seen : carried cached secret auth_header msg msg seen.
Proof. split; [done|]. split; [done|by left]. Qed.
Lemma accounted_carried cached secret header msg msg' seen :
  accounted cached secret header msg msg' seen -> carried cached secret (Some header) msg msg' seen.
Proof. intros (? & ? & [->|?]); (split; [done|]; split; [done|]); [by left|right]. by exists header. Qed.
Lemma carried_more cached secret auth_header msg msg' seen1 seen2 :
  (forall x, seen1 x -> seen2 x) -> carried cached secret auth_header msg msg' seen1 ->
  carried cached secret auth_header msg msg' seen2.
Proof.
  intros H (? & ? & [?|(header & ? & ?)]); (split; [done|]; split; [done|]); [by left|right].
  exists header. split; [done|]. by eapply identified_more.
Qed.

Lemma authenticate_sound env auth_header secret msg V s :
  hs (fun r V' _ => forall msg', r = Ok msg' -> carried (cached_versions env) secret auth_header msg msg' V')
    (authenticate env auth_header secret msg) V s.
Proof.
  unfold authenticate. destruct auth_header as [header|].
  2: { intros V' s' _ msg' [= <-]. apply carried_same. }
  destruct (starts_with "Bearer " header).
  - eapply hsafe_bind; [apply _|apply any_hsafe|]. intros [iss|e|] V1 s1 _ _; [|by intros V2 s2 _ m..].
    eapply (hsafe_map _ _ (map_err Unchecked)); [done|]. eapply hsafe_weaken; [apply _| |apply extracted_auth].
    intros [m|e|] V2 s2 _ H m' Hm; [|done..]. injection Hm as <-. by apply accounted_carried, H.
  - destruct (strip_prefix "ApiKey " header) as [api_key|] eqn:Hk.
    2: { intros V' s' _ msg' [= <-]. apply carried_same. }
    apply strip_prefix_some in Hk as ->.
    eapply (hsafe_map _ _ (map_err Unchecked)); [done|]. eapply hsafe_weaken; [apply _| |apply key_auth].
    intros [m|e|] V2 s2 _ H m' Hm; [|done..]. injection Hm as <-. by apply accounted_carried, H.
Qed.

(** The router hands a request on only where it is admitted. *)
Lemma published_once features infos msg :
  let gated := publish_gate declarations msg features infos in
  msg_path gated = msg_path msg /\ msg_action gated = msg_action msg /\ msg_user_id gated = msg_user_id msg /\
  get_meta gated META_AUTH_USER_ROLES = get_meta msg META_AUTH_USER_ROLES.
Proof.
  destruct (publish_gate_view declarations features infos msg) as (Ha & Hp & Hu & _). cbv zeta.
  do 3 (split; [done|]). unfold publish_gate. by rewrite get_set_meta_ne.
Qed.

Lemma handed_on landing features infos extras msg name msg' :
  route_to_block declarations landing msg features infos extras = CallBlock name msg' ->
  msg' = publish_gate declarations msg features infos.
Proof.
  unfold route_to_block. destruct (String.eqb (msg_path msg) "/").
  - destruct landing as [[]|]; [by intros [= _ <-]|unfold root_redirect; by destruct is_empty|done].
  - destruct (route_builtin _ _ _ _ ROUTES) as [d|] eqn:Hb.
    + intros ->. apply route_builtin_some in Hb as (r & _ & Hd).
      destruct (negb _); [done|]. destruct (denial _ _); [done|]. by injection Hd.
    + destruct (route_extra _ _ _ _ _) as [d|] eqn:He; [|done]. intros ->.
      apply route_extra_some in He as (r & _ & Hd).
      destruct (negb _); [done|]. destruct (denial _ _); [done|]. by injection Hd.
Qed.

Lemma routed_admitted landing features infos extras msg name msg' :
  route_to_block declarations landing msg features infos extras = CallBlock name msg' ->
  admitted features infos extras name msg'.
Proof.
  intros Hr. pose proof (handed_on _ _ _ _ _ _ _ Hr) as ->. unfold admitted.
  pose proof (published_once features infos msg) as (Hp & Ha & Hu & _). cbv zeta in Hp, Ha, Hu. rewrite Hp, Ha, Hu.
  destruct (decide (msg_path msg = "/")) as [Hroot|Hroot].
  - left. split; [done|]. unfold route_to_block in Hr. rewrite Hroot in Hr. cbn in Hr.
    destruct landing as [[]|]; [by injection Hr|unfold root_redirect in Hr; by destruct is_empty|done].
  - right. pose proof (satisfies_publish declarations) as Hs.
    destruct (route_to_block_gated _ _ _ _ _ _ _ _ Hroot Hr) as [(r & ? & ? & ? & ? & ? & Hd)|(_ & r & ? & ? & ? & ? & ? & Hd)];
      [left|right]; exists r; repeat (split; [done|]); (split; [by apply Hs|]).
    + destruct (declared_endpoint_access _ _ _ _); [by apply Hs|done].
    + destruct (declared_endpoint_access _ _ _ _); [by apply Hs|done].
Qed.

Lemma published_origin features infos msg :
  same_site_evidence msg -> same_site_evidence (publish_gate declarations msg features infos).
Proof.
  assert (forall h, msg_header (publish_gate declarations msg features infos) h = msg_header msg h) as Hh.
  { intros h. unfold msg_header, publish_gate. apply get_set_meta_ne. discriminate. }
  unfold same_site_evidence. cbv zeta. setoid_rewrite Hh. done.
Qed.

(** What a block is handed. *)
Definition handed (cached : string -> option Z) secret auth_header cookie_authenticated features infos extras msg
    (name : string) msg' (seen : visited) : Prop :=
  body_too_large msg = false /\ admitted features infos extras name msg' /\
  (cookie_authenticated = true -> msg_user_id msg' <> "" -> msg_action msg' ∈ ["create"; "update"; "delete"] ->
   same_site_evidence msg') /\
  carried cached secret auth_header msg msg' seen.

Lemma prepare_sound env auth_header secret cookie_authenticated features infos extras msg V s :
  hs (fun r V' _ => forall seen name msg', r = Ok (ToBlock seen name msg') ->
        handed (cached_versions env) secret auth_header cookie_authenticated features infos extras msg name msg' V')
    (prepare declarations env auth_header secret cookie_authenticated features infos extras msg) V s.
Proof.
  unfold prepare. destruct (body_too_large msg) eqn:Hbody; [by intros V' s' _ ? ? ?|].
  eapply hsafe_bind; [apply _|apply authenticate_sound|].
  intros [msg1|e|] V1 s1 _ Hauth; [|by intros V' s' _ ? ? ?..]. specialize (Hauth msg1 eq_refl).
  eapply hsafe_bind; [apply _|apply any_hsafe|].
  intros [[o|]|e|] V2 s2 H2 _; [by intros V' s' _ ? ? ?| |by intros V' s' _ ? ? ?..].
  set (gated := publish_gate declarations msg1 features infos). cbv zeta.
  destruct (enforce_origin_policy gated cookie_authenticated) as [o|] eqn:Hcsrf; [by intros V' s' _ ? ? ?|].
  unfold route. eapply hsafe_bind; [apply _|apply any_hsafe|]. intros landing V3 s3 H3 _ V4 s4 H4 seen name msg' Hr.
  assert (exists landing', route_to_block declarations landing' gated features infos extras = CallBlock name msg') as [landing' Hroute].
  { eexists. destruct (route_to_block _ _ _ _ _ _) as [n m| m|[] m| |t] eqn:Hd; try discriminate Hr.
    - by injection Hr as _ -> ->.
    - by destruct landing. }
  split; [done|]. split; [by eapply routed_admitted|]. pose proof (handed_on _ _ _ _ _ _ _ Hroute) as ->.
  destruct (published_once features infos gated) as (Hp & Ha & Hu & Hroles).
  destruct (published_once features infos msg1) as (Hp1 & Ha1 & Hu1 & Hroles1). fold gated in Hp1, Ha1, Hu1, Hroles1.
  split.
  - intros -> Huser Haction. apply published_origin. rewrite Hu in Huser. rewrite Ha in Haction.
    by apply cookie_writes_are_same_site.
  - assert (forall x, V1 x -> V4 x) as Hsub.
    { intros x Hx. apply (extends_kept _ _ _ _ _ H4), (extends_kept _ _ _ _ _ H3), (extends_kept _ _ _ _ _ H2), Hx. }
    apply (carried_more _ _ _ _ _ _ _ Hsub) in Hauth as (Hpath & Haction & Hid).
    split; [by rewrite Hp, Hp1|]. split; [by rewrite Ha, Ha1|]. by rewrite Hu, Hu1, Hroles, Hroles1.
Qed.

(** A handler of a pool of any handlers, once it has answered. *)
Lemma answered_handler {A} (Q : A -> visited -> state -> Prop) ps s0 ps' s i p a :
  rtc pool_step (ps, s0) (ps', s) -> ps !! i = Some p -> ps' !! i = Some (Done a) -> hs Q p (fun x => x = s0) s0 ->
  exists V, (forall x, V x -> happens s0 x /\ happens x s) /\ Q a V s.
Proof.
  intros Hsteps Hi Hd Hp.
  destruct (hpool happens (<[i := Q]> (map (fun _ _ _ _ => True) ps)) (fun x => x = s0) _ _ Hsteps eq_refl)
    as (V & (HG & HV & _ & Hn) & Hall).
  { simpl. rewrite <- (list_insert_id ps i p Hi) at 2. apply Forall2_insert; [|done].
    apply Forall2_fmap_l, Forall_Forall2_diag, Forall_true. intros q. apply any_hsafe. }
  exists V. split.
  - intros x [->|?]%Hn; [by split|done].
  - assert (<[i := Q]> (map (fun _ _ _ _ => True) ps) !! i = Some Q) as HQ.
    { apply list_lookup_insert_eq. rewrite length_map. by eapply lookup_lt_Some. }
    exact (Forall2_lookup_lr _ _ _ _ _ _ Hall HQ Hd V s (extends_refl happens V s HV)).
Qed.

(** C10. A block may rely on the pipeline, whatever other handlers do to the
    database meanwhile.  When a request reaches a block, its body was carried by
    the transport; it is the landing page [/], handed to the web block, or a
    route of the table or a registered one claims its path, is enabled, and
    admits the caller at its own tier and at the level the block declares; a
    write made with the ambient cookie came from this site; and its identity and
    roles are those its message already came with - a transport may stamp them -
    or those of a credential checked during the request: an access token whose
    family was a live login of the account and which was not behind the
    account's version, or an unrevoked, unexpired key of an active account. *)
Theorem only_admitted_requests_reach_blocks env auth_header secret cookie_authenticated features infos extras msg
    ps s0 ps' s i seen name msg' :
  rtc pool_step (ps, s0) (ps', s) ->
  ps !! i = Some (prepare declarations env auth_header secret cookie_authenticated features infos extras msg) ->
  ps' !! i = Some (Done (Ok (ToBlock seen name msg'))) ->
  handed (cached_versions env) secret auth_header cookie_authenticated features infos extras msg name msg'
    (fun x => happens s0 x /\ happens x s).
Proof.
  intros Hsteps Hi Hd. destruct (answered_handler _ _ _ _ _ _ _ _ Hsteps Hi Hd (prepare_sound _ _ _ _ _ _ _ _ _ _))
    as (V & HV & HQ).
  destruct (HQ _ _ _ eq_refl) as (? & ? & ? & Hc). split; [done|]. split; [done|]. split; [done|].
  by eapply carried_more.
Qed.

(** ** Discovery *)
Lemma enabled_names features infos b env extras ep :
  b ∈ declarations infos ->
  published_access declarations env infos features extras b ep =
  if is_enabled features infos (feature_gate_name (bi_name b)) && negb (is_browser (runtime_kind env) && ep_is_server_only ep)
  then Some (effective_access b ep extras) else None.
Proof.
  intros Hb. unfold published_access. set (disabled := map _ _).
  assert (existsb (String.eqb (bi_name b)) disabled = negb (is_enabled features infos (feature_gate_name (bi_name b)))) as ->.
  { apply Bool.eq_iff_eq_true. rewrite existsb_exists. split.
    - intros (x & (b' & <- & [_ Hf]%filter_In)%in_map_iff & ->%String.eqb_eq). done.
    - intros Hf. exists (bi_name b). rewrite String.eqb_refl. split; [|done].
      apply in_map_iff. exists b. split; [done|]. apply filter_In. split; [by apply list_elem_of_In|done]. }
  by rewrite negb_involutive.
Qed.

Lemma route_of_path r path :
  r ∈ ROUTES -> route_prefix_matches (prefix r) path = true ->
  List.find (fun r => route_prefix_matches (prefix r) path) ROUTES = Some r.
Proof.
  intros Hr Hm. destruct (List.find _ ROUTES) as [r'|] eqn:Hf.
  - apply find_some in Hf as [Hin Hm']. f_equal. apply (routes_disjoint r' r path); [by apply list_elem_of_In|done..].
  - pose proof (find_none _ _ Hf r ltac:(by apply list_elem_of_In)). cbn beta in *. congruence.
Qed.

Lemma gate_of_block r b : r ∈ ROUTES -> block r = bi_name b -> feature_gate_name (bi_name b) = block r.
Proof.
  intros Hr%list_elem_of_In <-. by repeat (destruct Hr as [<-|Hr]; [reflexivity|]).
Qed.

Lemma satisfies_level a msg : satisfies (from_auth_level (to_auth_level a)) msg <-> satisfies a msg.
Proof. by destruct a. Qed.

(** C33. For a block that is mounted on a route of the table, discovery agrees
    with the router: an endpoint with a fixed path other than [/], which no
    stricter declaration of the block overlaps, is published at a level the
    caller has, if and only if the caller's request for it is handed to the
    block and the endpoint is not withheld, as a browser runtime withholds what
    only a server can do. *)
Theorem discovery_agrees_with_router env landing features infos extras b ep r msg
  (Haction : msg_action msg = action_for_method (ep_method ep)) (Hpath : msg_path msg = ep_path ep)
  (Hroot : ep_path ep <> "/") (Hdecl : b ∈ declarations infos)
  (Hinfo : List.find (fun i => String.eqb (bi_name i) (bi_name b)) infos = Some b)
  (Hr : r ∈ ROUTES) (Hm : route_prefix_matches (prefix r) (ep_path ep) = true) (Hblock : block r = bi_name b)
  (Hlevel : endpoint_auth (bi_endpoints b) (action_for_method (ep_method ep)) (ep_path ep) = Some (ep_auth ep)) :
  (exists level, published_access declarations env infos features extras b ep = Some level /\
     satisfies (from_auth_level level) msg) <->
  is_browser (runtime_kind env) && ep_is_server_only ep = false /\
  exists msg', route_to_block declarations landing msg features infos extras = CallBlock (dispatch_to r) msg'.
Proof.
  rewrite enabled_names, (gate_of_block r) by done.
  destruct (is_browser (runtime_kind env) && ep_is_server_only ep); cbn [negb]; [rewrite andb_false_r; naive_solver|].
  rewrite andb_true_r.
  assert (effective_access b ep extras = to_auth_level (access_max (access r) (from_auth_level (ep_auth ep)))) as ->.
  { unfold effective_access. rewrite (route_of_path r) by done. by rewrite Hblock, String.eqb_refl. }
  unfold route_to_block. rewrite Hpath, (proj2 (String.eqb_neq _ _) Hroot).
  set (gated := publish_gate declarations msg features infos).
  destruct (published_once features infos msg) as (Hp & Ha & _). fold gated in Hp, Ha.
  assert (declared_access infos (block r) gated = from_auth_level (ep_auth ep)) as Hdeclared.
  { unfold declared_access, declared_endpoint_access. rewrite Hblock, Hinfo. cbn. by rewrite Ha, Hp, Haction, Hpath, Hlevel. }
  assert (route_builtin features infos gated (ep_path ep) ROUTES =
    Some (if negb (is_enabled features infos (block r)) then NotFoundResponse gated
          else match denial (access_max (access r) (from_auth_level (ep_auth ep))) gated with
               | Some x => Denied x gated | None => CallBlock (dispatch_to r) gated end)) as ->.
  { apply route_builtin_some. exists r. split; [by apply route_of_path|]. by rewrite Hdeclared. }
  destruct (is_enabled features infos (block r)); cbn [negb]; [|naive_solver].
  pose proof (denial_none (access_max (access r) (from_auth_level (ep_auth ep))) gated) as Hden.
  unfold gated in Hden at 2. rewrite satisfies_publish in Hden. split.
  - intros (level & [= <-] & Hs). rewrite (proj2 Hden (proj1 (satisfies_level _ _) Hs)). split; [done|]. by exists gated.
  - intros (_ & m & Hd). eexists. split; [done|]. apply (proj2 (satisfies_level _ _)), Hden.
    by destruct (denial _ _).
Qed.
End Pipeline.

(** ** Witnesses *)
#[local] Instance pipeline_crypto : TokenCrypto := {|
  derive_block_key key label := String.append key label;
  hmac_sha256_hex key m := m;
  constant_time_eq := String.eqb;
|}.
(** One token verifies. *)
#[local] Instance pipeline_jwt : JwtVerify := fun token _ =>
  if String.eqb token "t1" then Some (columns_of
    [("type", VString "access"); ("iss", VString "http://localhost:5173"); ("sub", VString "ann");
     ("family", VString "laptop"); ("auth_version", json_i64 3); ("roles", VArray [VString "admin"])])
  else None.
#[local] Instance pipeline_iso : IsoFormat := dec.
#[local] Instance pipeline_urlencode : Urlencode := fun s => s.
#[local] Instance pipeline_script : WebmcpScript := {| webmcp_js := ""; webmcp_js_hash := "" |}.
#[local] Instance pipeline_codec : HttpCodec := {|
  Meta := unit; no_meta := tt; resolve_status _ d := d; resolve_error_status _ _ := 500;
  declares_streaming _ := false; has_stream_marker _ := false;
  META_HTTP_METHOD := "http.method"; msg_remote_addr _ := "";
|}.
#[local] Instance pipeline_discovery : Discovery sample_block_infos := {|
  ep_is_server_only _ := false;
  generate_openapi _ _ _ _ _ := VNull; generate_agent_card _ _ _ _ _ := VNull; generate_webmcp_report _ _ _ := VNull;
|}.

Definition pipeline_state : state :=
  set_rows (set_rows ∅ Users.TABLE {["ann" := columns_of [("email", VString "ann@shop.test"); ("auth_version", json_i64 3)]]})
    Sessions.TABLE {["laptop" := columns_of
      [("family", VString "laptop"); ("user_id", VString "ann"); ("expires_at", VString "2027-01-01T00:00:00Z")]]}.
Definition pipeline_env : Env := {| request_log_config := None; runtime_kind := None; start_ms := 0; end_ms := 0; log_ms := 0;
  cached_versions := fun _ => None; family_first := true; reference := "" |}.
Definition admin_save : Message := {| sm_action := "create"; sm_path := "/b/admin/"; sm_user := "";
  sm_meta := [("http.header.sec-fetch-site", "same-origin")] |}.
Definition pipeline_pool : list (prog (outcome unit Verdict)) :=
  [prepare (fun l => l) pipeline_env (Some "Bearer t1") "secret" true sample_features sample_infos [] admin_save;
   _ ← Users.bump_auth_version "ann"; Done Panic].
(** The version is bumped after it was read. *)
Definition pipeline_run := run_schedule [0; 0; 0; 0; 1; 0; 0]%nat (pipeline_pool, pipeline_state).

Definition handed_to (answer : option (prog (outcome unit Verdict))) : option (string * string) :=
  match answer with Some (Done (Ok (ToBlock _ name msg))) => Some (name, msg_user_id msg) | _ => None end.
Lemma handed_to_block answer name user :
  handed_to answer = Some (name, user) ->
  exists seen msg, answer = Some (Done (Ok (ToBlock seen name msg))) /\ msg_user_id msg = user.
Proof.
  unfold handed_to. destruct answer as [[[[| | | |seen n m]| |]|R c k]|]; try discriminate. intros [= <- <-]. by exists seen, m.
Qed.

Lemma only_admitted_requests_reach_blocks_witness :
  exists seen msg', pipeline_run.1 !! 0%nat = Some (Done (Ok (ToBlock seen "impresspress/admin" msg'))) /\
    msg_user_id msg' = "ann" /\
    handed (cached_versions pipeline_env) "secret" (Some "Bearer t1") true sample_features sample_infos [] admin_save
      "impresspress/admin" msg' (fun x => happens pipeline_state x /\ happens x pipeline_run.2).
Proof.
  assert (handed_to (pipeline_run.1 !! 0%nat) = Some ("impresspress/admin", "ann")) as (seen & msg' & Hd & Hu)%handed_to_block
    by (vm_compute; reflexivity).
  exists seen, msg'. split; [exact Hd|]. split; [exact Hu|].
  refine (only_admitted_requests_reach_blocks (fun l => l) pipeline_env (Some "Bearer t1") "secret" true sample_features
    sample_infos [] admin_save pipeline_pool pipeline_state pipeline_run.1 pipeline_run.2 0%nat seen _ msg' _ eq_refl Hd).
  rewrite <- surjective_pairing. apply run_schedule_steps.
Defined.

Lemma discovery_agrees_with_router_witness :
  exists level, published_access (fun l => l) pipeline_env sample_infos sample_features []
    ("impresspress/files", [(Wafer.Get, "/b/storage/", Authenticated); (Wafer.Get, "/b/storage/admin/", Admin)], true)
    (Wafer.Get, "/b/storage/", Authenticated) = Some level /\ satisfies (from_auth_level level) (sample_user_get "/b/storage/").
Proof.
  apply (discovery_agrees_with_router (fun l => l) pipeline_env None sample_features sample_infos []
    ("impresspress/files", [(Wafer.Get, "/b/storage/", Authenticated); (Wafer.Get, "/b/storage/admin/", Admin)], true)
    (Wafer.Get, "/b/storage/", Authenticated) (route_new "/b/storage/" RaPublic "impresspress/files")
    (sample_user_get "/b/storage/")); [reflexivity|reflexivity|discriminate|apply list_elem_of_here| |
    |reflexivity|reflexivity|reflexivity|].
  - reflexivity.
  - apply list_elem_of_In. vm_compute. tauto.
  - split; [reflexivity|]. eexists. vm_compute. reflexivity.
Defined.
